(* ===== verification/_CoqProject ===== *)
-Q . S2P
Prelude.v
RingBuffer.v
KService.v
Printf.v
Heap.v
KState.v
Scheduler.v
Object.v
Timer.v
Thread.v
Invariant.v
Sample.v
RtList.v
ThreadSpec.v
Frame.v
Clock.v
Ipc.v
IpcSpec.v
EventSpec.v
DfsPath.v
Dfs.v
DfsSpec.v
Completion.v
DataQueue.v
Device.v
Serial.v
Beside.v
DataQueueSpec.v
WorkQueue.v
Pipe.v
Mailbox.v
MailboxSpec.v
System.v
MqSpec.v
MqThreads.v
MemPool.v
MemPoolSpec.v
FinshVm.v
FinshCompiler.v
FinshSpec.v
FinshTree.v
FinshRun.v
FinshToken.v
FinshHeap.v
FinshParser.v
FinshLex.v
FinshGrammar.v
FinshParse.v
Msh.v
MshSpec.v
Shell.v
ShellSpec.v
Proc.v
Spi.v
SpiFlash.v
