(* ===== verification/Prelude.v ===== *)
(** * RT-Thread on the STM32F103: a verification of the kernel and its services

    ** The program

    RT-Thread is a real-time kernel for small machines.  Threads of 32 priorities are
    scheduled by a bitmap of ready queues (Kernel/scheduler.c, thread.c); timers in a
    skip list (timer.c) wake the threads that wait with a limit, driven by the clock
    interrupt (clock.c); semaphores, mutexes, events, mailboxes and message queues
    (ipc.c), memory pools (mempool.c), completions and data queues
    (DeviceDrivers/completion.c, dataqueue.c) make threads wait and wake each other.
    Below them are the intrusive lists of rtservice.h, the object containers (object.c),
    the heap (mem.c) and the functions of kservice.c; above them the devices (device.c),
    the serial and SPI frameworks, a flash chip, a virtual file system
    (Filesystems/dfs*.c) and the shell (Finsh/), a line editor with two languages:
    commands with arguments (msh.c) and C expressions that are compiled to byte code
    (finsh_*.c).

    ** How it is modelled

    A C function is a definition with its name, in a monad [ST S A] over the state [S] of
    its component.  Its outcome ([res], below) is [Ok], or [AssertFail] (an [RT_ASSERT]
    that fails prints and loops for ever; so does a loop that runs out of the fuel it is
    given), or [Fault] (an access to memory the program does not own, a division by zero,
    a shift by more than the width).  [wp m Q s] is total correctness: from [s], [m]
    returns, with neither, and the result satisfies [Q].  So a theorem [wp m Q s] says
    that the code ends, and every bound on fuel is proved to be enough in it; where a
    function gives its own fuel it is a number no run can reach (the number of bytes of
    the line, of elements of the list, of blocks of the heap, of instructions of the text
    segment), and the theorems about it discharge it.
    Integers are [Z], cut to their width where C does ([u8], [u16], [u32], [s16], [s32]);
    bytes are [Z] too; an array is a list whose loads and stores outside are a [Fault];
    the heap area, the blocks of a pool, the ring of a mailbox and the memory the byte
    code works on are modelled as memory; kernel objects are in maps from their address.

    Code up to a call of [rt_schedule] that gives the processor away runs without
    interruption, as it does between [rt_hw_interrupt_disable] and [_enable]; a function
    that waits is two definitions, the part before and the part the thread goes on with
    ([Wait k] in Thread.v).  What runs with interrupts enabled between two critical
    sections is split there, and the specification lets others run between the parts (the
    sections of the calls of a message queue, MqThreads.v; the two halves of
    [rt_workqueue_dowork], WorkQueue.v).

    ** Files

    - Prelude.v (this file): integers, outcomes, the monad and its [wp], the tactics
      [wstep], [test_true], [test_false], [case_test], lists of bytes.
    - RtList.v: the pointers of Kernel/include/rtservice.h, and that they implement the
      lists of threads all other files work with.
    - KService.v, Printf.v: Kernel/kservice.c, the memory, string and bit functions and
      [rt_vsnprintf].
    - Heap.v: Kernel/mem.c; its section [Allocator] is the interface its clients are
      proved against.
    - KState.v: the state of the kernel, one record for Scheduler.v (scheduler.c, irq.c),
      Object.v (object.c), Timer.v (timer.c), Thread.v (thread.c, cpuport.c), Clock.v
      (clock.c, idle.c, the clock interrupt of Drivers/board.c), Ipc.v (semaphores,
      mutexes, events), Mailbox.v (mailboxes, message queues), MemPool.v (mempool.c),
      Completion.v, DataQueue.v, Device.v.
    - Invariant.v: what holds between two operations ([wf]); Frame.v: what an operation
      leaves alone; Sample.v: a decision procedure for [wf] and a kernel that is built by
      the operations themselves, on which the theorems are tried.
    - ThreadSpec.v, IpcSpec.v, EventSpec.v, MailboxSpec.v, MqSpec.v, MemPoolSpec.v: what
      the operations do on a kernel with [wf]; Clock.v, Completion.v, DataQueue.v,
      Device.v have it behind their code.  MqThreads.v and DataQueueSpec.v: any number of
      threads that use one message queue, one data queue.
    - System.v: the kernel with the threads that call it, as a step relation.
    - RingBuffer.v: DeviceDrivers/ringbuffer.c.
    - Serial.v: DeviceDrivers/serial.c, on a driver of a UART.
    - Beside.v: a kernel beside the state of a component, for WorkQueue.v (workqueue.c) and
      Pipe.v (pipe.c and portal.c, over the ring buffer).
    - Proc.v: functions that wait in several places, for Spi.v (spi_core.c, spi_dev.c, the
      inline functions of drivers/spi.h) and, over it, SpiFlash.v (spi_flash_w25qxx.c).
    - DfsPath.v, Dfs.v, DfsSpec.v: Filesystems/dfs.c, dfs_fs.c, dfs_file.c, dfs_posix.c.
    - FinshVm.v (finsh_vm.c, finsh_ops.c), FinshCompiler.v (finsh_node.c, finsh_var.c,
      finsh_compiler.c), FinshSpec.v, FinshTree.v, FinshRun.v: the byte code machine, the
      compiler, the meaning of expressions, and that compiled code computes it.
    - FinshToken.v (finsh_token.c), FinshHeap.v (finsh_heap.c), FinshParser.v
      (finsh_parser.c and [finsh_run_line] of shell.c), FinshLex.v, FinshGrammar.v,
      FinshParse.v: the tokenizer, the heap for strings, the parser; the text of tokens,
      a grammar (that of the parser without parentheses around operands, casts, strings
      and declarations), and that a line of it is run as it is written.
    - Msh.v, MshSpec.v (msh.c), Shell.v, ShellSpec.v (shell.c): commands and the line
      editor.

    A file ending in Spec (and the files named with one) has the theorems about the
    definitions of the file without; the others have both.

    ** Interfaces

    A class states what one component needs of another, or what stands for code that is
    not in this repository: [Allocator] (an instance is the heap of mem.c), [Driver] (the
    functions of a device driver), [UartOps] (the functions of a UART) with [UartLaws],
    [PipeCode] and [FlashCode] (addresses and sizes the compiler gives), [SpiOps] (the
    functions of the driver of an SPI bus) with [Chip_behind] (the flash chip behind it, by
    its data sheet), [FileSystems] and [DeviceTable] with what is asked of them
    ([FileSystemsOk], [DeviceTableOk]), [Layout], [Functions] (the functions byte code
    calls, with [FunctionsOk]), [Symbols] (the tables the linker builds), [HeapAddress]
    (where the linker puts the heap for strings),
    [Environment] and [Prompt] (the commands and the console of the shell).  Each has a
    concrete instance in the [Demo] of a file that uses it, on which the theorems are
    applied.  The functions of libc the code calls (strcmp, strncmp, strlen, strncpy,
    memcpy) are the ones of kservice.c, or a copy with bounds.

    ** What the theorems show

    - The running system: whatever calls the threads make and whenever the clock ticks,
      [wf] holds, a ready thread of the highest priority runs, and nothing asserts,
      faults or hangs ([System.system_safe]); a thread that waits with a limit is made
      ready in time ([System.timed_wait_ends]).
    - Refinements: the pointer lists implement lists, the ring buffer and the mailbox
      bounded queues, the receive fifo of a serial line a bounded queue that
      keeps the newest characters, a pipe a bounded stream with two queues of threads, the
      device registry a table of names, the descriptors of
      the file system a table of open files, the line editor two lists and a history.
      A message queue is a bounded queue of payloads for any threads that are in the middle
      of sending, sending urgently and receiving, in any order of their sections
      ([MqThreads.mq_threads_refine_queue]); a data queue, of a size that is a power of two
      and before its index wraps around, a bounded queue with a note and two lists of
      threads, up to the pop that leaves the interrupts disabled
      ([DataQueueSpec.data_queue_refines_queue]).
    - Each operation, on every branch: allocation and release (heap, pools), scheduling,
      suspension and resumption, taking and releasing of semaphores and mutexes with
      priority inheritance, events, messages, paths, mount points, commands.
    - The expression shell: from the bytes of a line to its value, through tokenizer, parser,
      type check, compiler and machine, a line computes what the reference semantics of
      its statements gives ([FinshParse.run_line_ok]); the type check changes no node but
      for its data type and its mark of an address, which are those the expression asks for
      ([FinshRun.finsh_type_check_ok]); the machine ends on any byte code.
    - Work that is submitted to a work queue is done in order, in every interleaving of
      submitters and its thread ([WorkQueue.work_is_done_in_order], which also says in which
      of them the thread never takes work from the empty queue); four lemmas show what
      happens otherwise.
    - A path from the root that does not go up from the root is normalised to the full
      absolute path ([DfsPath.dfs_normalize_path_ok]); one that does loses the root
      ([DfsPath.root_is_lost]).
    - Sectors written to the flash chip are read back, through the block device, the SPI
      framework and the commands of the chip, and nothing else of the chip changes; the
      loops that poll the chip end ([SpiFlash.flash_keeps_sectors]).
    - Formatted output is cut to its buffer and is read back by [skip_atoi]; memory
      functions are right on overlapping areas.
    - Where the code does not do what it says, a lemma runs it on an input that shows it
      (wrapped indices of a data queue, a pop that returns with the interrupts disabled, blocks the heap does not hand out, the count of a
      memory pool after a timeout, the eleventh argument of a command, and others).

    ** Not modelled

    Saving and restoring registers, start-up, hooks (they are null), the soft timers,
    memheap.c, slab.c and module.c (not configured in rtconfig.h), the body of a thread,
    the drivers that move bytes to registers (Drivers/), the commands of
    the shell that only print (cmd.c, msh_cmd.c), scripts and the completion of paths,
    FatFs and its glue, the vendor's HAL and CMSIS.  Priority changes are left out of the
    step relation of System.v, because they do not reschedule.  Addresses are not checked
    to fit together in one memory; each component owns the memory its state shows. *)

From Stdlib Require Import ZArith Lia Bool.
From stdpp Require Export base tactics gmap sets numbers option.
From stdpp Require Export list_basics list_relations list_monad list_misc list_tactics list.

#[global] Open Scope Z_scope.

(** ** Machine integers

    Every C integer is a [Z]; the conversions of C to an unsigned type are
    reductions modulo a power of two, the ones to a signed type are reductions
    into the symmetric interval. *)

Definition ubits (w x : Z) : Z := x mod 2 ^ w.
Definition sbits (w x : Z) : Z := (x + 2 ^ (w - 1)) mod 2 ^ w - 2 ^ (w - 1).

Abbreviation u8 := (ubits 8).
Abbreviation u16 := (ubits 16).
Abbreviation u32 := (ubits 32).
Abbreviation s16 := (sbits 16).
Abbreviation s32 := (sbits 32).

Lemma ubits_small (w x : Z) : 0 <= x < 2 ^ w -> ubits w x = x.
Proof. apply Z.mod_small. Qed.

Lemma ubits_range (w x : Z) : 0 <= w -> 0 <= ubits w x < 2 ^ w.
Proof. intros H. apply Z.mod_pos_bound, Z.pow_pos_nonneg; lia. Qed.

Lemma sbits_small (w x : Z) :
  0 < w -> - 2 ^ (w - 1) <= x < 2 ^ (w - 1) -> sbits w x = x.
Proof.
  intros Hw Hx. unfold sbits.
  assert (Hp : 2 ^ w = 2 * 2 ^ (w - 1)).
  { rewrite <- Z.pow_succ_r by lia. f_equal. lia. }
  rewrite Z.mod_small; lia.
Qed.

(** [RT_ALIGN] and [RT_ALIGN_DOWN] of rtdef.h, on a 32-bit machine. *)
Definition RT_ALIGN (size align : Z) : Z :=
  Z.land (u32 (size + align - 1)) (u32 (Z.lnot (align - 1))).
Definition RT_ALIGN_DOWN (size align : Z) : Z :=
  Z.land size (Z.lnot (align - 1)).
Definition RT_ALIGN_SIZE : Z := 4.

Lemma land_lnot_ones (x k : Z) :
  0 <= k -> Z.land x (Z.lnot (2 ^ k - 1)) = 2 ^ k * (x / 2 ^ k).
Proof.
  intros Hk. rewrite Z.sub_1_r, <- Z.ones_equiv, <- Z.ldiff_land.
  rewrite Z.ldiff_ones_r, Z.shiftl_mul_pow2, Z.shiftr_div_pow2 by lia. lia.
Qed.

Lemma RT_ALIGN_DOWN_4 (x : Z) : RT_ALIGN_DOWN x 4 = 4 * (x / 4).
Proof. unfold RT_ALIGN_DOWN. apply (land_lnot_ones x 2). lia. Qed.

Lemma RT_ALIGN_4 (x : Z) : 0 <= x < 2 ^ 32 - 3 -> RT_ALIGN x 4 = 4 * ((x + 3) / 4).
Proof.
  intros H. unfold RT_ALIGN. rewrite (ubits_small 32 (x + 4 - 1)) by lia.
  unfold ubits. rewrite <- Z.land_ones by lia.
  rewrite (Z.land_comm (Z.lnot (4 - 1))), Z.land_assoc, Z.land_ones by lia.
  rewrite Z.mod_small by lia. change (4 - 1) with (2 ^ 2 - 1).
  rewrite land_lnot_ones by lia. do 2 f_equal. lia.
Qed.

(** ** Outcomes

    A C function either returns, or stops in [rt_assert_handler] (an
    [RT_ASSERT] that fails prints and loops forever), or performs an access
    the program does not own. *)

Inductive res (A : Type) : Type :=
| Ok (a : A)
| AssertFail
| Fault.
Arguments Ok {A} _.
Arguments AssertFail {A}.
Arguments Fault {A}.

#[export] Instance res_ret : MRet res := fun A a => Ok a.
#[export] Instance res_bind : MBind res := fun A B f m =>
  match m with Ok a => f a | AssertFail => AssertFail | Fault => Fault end.

Definition RT_ASSERT (b : bool) : res unit := if b then Ok tt else AssertFail.

(** An access through a pointer: the object must exist. *)
Definition deref {A} (o : option A) : res A :=
  match o with Some a => Ok a | None => Fault end.

Lemma RT_ASSERT_true (b : bool) : b = true -> RT_ASSERT b = Ok tt.
Proof. by intros ->. Qed.

Lemma res_bind_Ok_inv {A B} (m : res A) (f : A -> res B) (b : B) :
  (m ≫= f) = Ok b -> exists a, m = Ok a /\ f a = Ok b.
Proof. destruct m; simpl; intros H; try discriminate. eauto. Qed.

Definition is_some {A} (o : option A) : bool := match o with Some _ => true | None => false end.

Lemma is_some_true {A} (o : option A) : is_some o = true -> is_Some o.
Proof. destruct o; [eauto|done]. Qed.
Lemma is_some_false {A} (o : option A) : is_some o = false -> o = None.
Proof. by destruct o. Qed.

(** ** Stateful code

    [ST S A]: code on a state [S] that returns an [A], or stops, or faults. *)

Definition ST (S A : Type) : Type := S -> res (A * S).

#[export] Instance ST_ret (S : Type) : MRet (ST S) := fun A a s => Ok (a, s).
#[export] Instance ST_bind (S : Type) : MBind (ST S) := fun A B f m s =>
  match m s with
  | Ok (a, s') => f a s'
  | AssertFail => AssertFail
  | Fault => Fault
  end.

Definition gets {S A} (f : S -> A) : ST S A := fun s => Ok (f s, s).
Definition modify {S} (f : S -> S) : ST S unit := fun s => Ok (tt, f s).
Definition lift {S A} (r : res A) : ST S A := fun s => a ← r; Ok (a, s).
Definition kassert {S} (b : bool) : ST S unit := lift (RT_ASSERT b).
Definition kfault {S A} : ST S A := fun _ => Fault.
(** A loop that does not end, or a wait nothing can end. *)
Definition hang {S A} : ST S A := fun _ => AssertFail.
(** A guarded statement. *)
Definition kwhen {S} (b : bool) (m : ST S unit) : ST S unit := if b then m else mret tt.

(** [wp m Q s]: run from [s], [m] returns (nothing stops it and no access
    faults) and its result and final state satisfy [Q]. *)
Definition wp {S A} (m : ST S A) (Q : A -> S -> Prop) (s : S) : Prop :=
  match m s with Ok (a, s') => Q a s' | _ => False end.
#[global] Arguments wp : simpl never.

Section Wp.
Context {S : Type}.
Implicit Types s : S.

Lemma wp_elim {A} (m : ST S A) (Q : A -> S -> Prop) s :
  wp m Q s -> exists a s', m s = Ok (a, s') /\ Q a s'.
Proof. unfold wp. destruct (m s) as [[a s']| |]; [eauto|done|done]. Qed.

Lemma wp_intro {A} (m : ST S A) (Q : A -> S -> Prop) s s' (a : A) :
  m s = Ok (a, s') -> Q a s' -> wp m Q s.
Proof. unfold wp. by intros ->. Qed.

Lemma wp_bind {A B} (m : ST S A) (f : A -> ST S B) (Q : B -> S -> Prop) s :
  wp m (fun a s' => wp (f a) Q s') s -> wp (m ≫= f) Q s.
Proof.
  unfold wp, mbind, ST_bind. destruct (m s) as [[a s']| |]; done.
Qed.

Lemma wp_ret {A} (a : A) (Q : A -> S -> Prop) s : Q a s -> wp (mret a) Q s.
Proof. done. Qed.

Lemma wp_mono {A} (m : ST S A) (Q R : A -> S -> Prop) s :
  wp m Q s -> (forall a s', Q a s' -> R a s') -> wp m R s.
Proof. unfold wp. destruct (m s) as [[a s']| |]; auto. Qed.

Lemma wp_gets {A} (f : S -> A) (Q : A -> S -> Prop) s : Q (f s) s -> wp (gets f) Q s.
Proof. done. Qed.

Lemma wp_modify (f : S -> S) (Q : unit -> S -> Prop) s : Q tt (f s) -> wp (modify f) Q s.
Proof. done. Qed.

Lemma wp_kassert (b : bool) (Q : unit -> S -> Prop) s :
  b = true -> Q tt s -> wp (kassert b) Q s.
Proof. by intros ->. Qed.

Lemma wp_lift {A} (o : option A) (a : A) (Q : A -> S -> Prop) s :
  o = Some a -> Q a s -> wp (lift (deref o)) Q s.
Proof. by intros ->. Qed.

Lemma wp_lift_ok {A} (r : res A) (a : A) (Q : A -> S -> Prop) s :
  r = Ok a -> Q a s -> wp (lift r) Q s.
Proof. by intros ->. Qed.

End Wp.

(** One step of straight-line code. *)
Ltac wstep :=
  cbv beta;
  lazymatch goal with
  | |- wp (mret _) _ _ => apply wp_ret
  | |- wp (mbind _ _) _ _ => apply wp_bind
  | |- wp (gets _) _ _ => apply wp_gets
  | |- wp (modify _) _ _ => apply wp_modify
  | |- wp (kassert _) _ _ => apply wp_kassert; [try reflexivity|]
  | |- wp (kwhen true _) _ _ => cbn [kwhen]
  | |- wp (kwhen false _) _ _ => cbn [kwhen]
  | |- wp (lift (Ok _)) _ _ => eapply wp_lift_ok; [reflexivity|]
  end; cbv beta.

(** ** Memory blocks

    [memcpy] between two objects: the destination [dst] at byte [doff], the
    source [src] at byte [soff], [n] bytes ([n] is converted to [size_t], so a
    negative count is a huge one).  Reading or writing outside the objects is a
    [Fault]. *)

Definition in_bounds {A} (off n : Z) (l : list A) : bool :=
  (0 <=? off) && (0 <=? n) && (off + n <=? Z.of_nat (length l)).

Definition slice {A} (off n : Z) (l : list A) : list A :=
  take (Z.to_nat n) (drop (Z.to_nat off) l).

Definition memcpy_at {A} (dst : list A) (doff : Z) (src : list A) (soff n : Z)
  : res (list A) :=
  if in_bounds doff n dst && in_bounds soff n src
  then Ok (list_inserts (Z.to_nat doff) (slice soff n src) dst)
  else Fault.

Definition store_at {A} (dst : list A) (off : Z) (v : A) : res (list A) :=
  if in_bounds off 1 dst then Ok (<[Z.to_nat off := v]> dst) else Fault.

Definition load_at {A} (l : list A) (off : Z) : res A :=
  if 0 <=? off then deref (l !! Z.to_nat off) else Fault.

(** ** Automation *)

(** Turns the boolean tests of the code into propositions [lia] reads. *)
Ltac b2p :=
  repeat match goal with
  | H : (_ =? _) = true |- _ => apply Z.eqb_eq in H
  | H : (_ =? _) = false |- _ => apply Z.eqb_neq in H
  | H : (_ <? _) = true |- _ => apply Z.ltb_lt in H
  | H : (_ <? _) = false |- _ => apply Z.ltb_ge in H
  | H : (_ <=? _) = true |- _ => apply Z.leb_le in H
  | H : (_ <=? _) = false |- _ => apply Z.leb_gt in H
  | H : andb _ _ = true |- _ => apply andb_true_iff in H; destruct H
  | H : orb _ _ = false |- _ => apply orb_false_iff in H; destruct H
  | H : negb _ = true |- _ => apply negb_true_iff in H
  | H : negb _ = false |- _ => apply negb_false_iff in H
  end.

(** Splits on the next boolean test of the goal and keeps it as a
    proposition. *)
Ltac case_test :=
  match goal with
  | |- context [if ?b then _ else _] =>
      lazymatch b with
      | context [if _ then _ else _] => fail
      | _ => let E := fresh "Etest" in destruct b eqn:E; b2p
      end
  end.

(** The same for a hypothesis. *)
Ltac case_hyp :=
  match goal with
  | H : context [if ?b then _ else _] |- _ =>
      lazymatch b with
      | context [if _ then _ else _] => fail
      | _ => let E := fresh "Etest" in destruct b eqn:E; b2p
      end
  end.

(** Decides the test of the goal by arithmetic. *)
Ltac test_true :=
  match goal with
  | |- context [?a <? ?b] => rewrite (proj2 (Z.ltb_lt a b)) by lia
  | |- context [?a <=? ?b] => rewrite (proj2 (Z.leb_le a b)) by lia
  | |- context [?a =? ?b] => rewrite (proj2 (Z.eqb_eq a b)) by lia
  end.
Ltac test_false :=
  match goal with
  | |- context [?a <? ?b] => rewrite (proj2 (Z.ltb_ge a b)) by lia
  | |- context [?a <=? ?b] => rewrite (proj2 (Z.leb_gt a b)) by lia
  | |- context [?a =? ?b] => rewrite (proj2 (Z.eqb_neq a b)) by lia
  end.

(** ** Lemmas on memory blocks *)

Lemma in_bounds_spec {A} (off n : Z) (l : list A) :
  in_bounds off n l = true <-> 0 <= off /\ 0 <= n /\ off + n <= Z.of_nat (length l).
Proof.
  unfold in_bounds. rewrite !andb_true_iff, !Z.leb_le. tauto.
Qed.

Lemma length_slice {A} (off n : Z) (l : list A) :
  in_bounds off n l = true -> Z.of_nat (length (slice off n l)) = n.
Proof.
  rewrite in_bounds_spec. intros (H1 & H2 & H3).
  unfold slice. rewrite length_take, length_drop. lia.
Qed.

Lemma lookup_slice {A} (off n : Z) (l : list A) (i : nat) :
  0 <= off -> Z.of_nat i < n -> slice off n l !! i = l !! (Z.to_nat off + i)%nat.
Proof.
  intros H1 H2. unfold slice.
  rewrite lookup_take_lt by lia. by rewrite lookup_drop.
Qed.

Lemma slice_0 {A} (n : Z) (l : list A) : slice 0 n l = take (Z.to_nat n) l.
Proof. done. Qed.

Lemma list_inserts_0 {A} (k x : list A) :
  (length k <= length x)%nat -> list_inserts 0 k x = k ++ drop (length k) x.
Proof.
  intros H. apply list_eq. intros i. destruct (decide (i < length k)%nat) as [Hi|Hi].
  - rewrite lookup_app_l by lia. rewrite list_lookup_inserts by lia. f_equal. lia.
  - rewrite lookup_app_r, lookup_drop by lia. rewrite list_lookup_inserts_ge by lia. f_equal. lia.
Qed.

Lemma memcpy_at_ok {A} (dst src : list A) (doff soff n : Z) :
  0 <= doff -> 0 <= soff -> 0 <= n ->
  doff + n <= Z.of_nat (length dst) -> soff + n <= Z.of_nat (length src) ->
  memcpy_at dst doff src soff n
  = Ok (list_inserts (Z.to_nat doff) (slice soff n src) dst).
Proof.
  intros. unfold memcpy_at.
  by rewrite !(proj2 (in_bounds_spec _ _ _)) by lia.
Qed.

Lemma store_at_ok {A} (dst : list A) (off : Z) (v : A) :
  0 <= off < Z.of_nat (length dst) -> store_at dst off v = Ok (<[Z.to_nat off := v]> dst).
Proof.
  intros. unfold store_at. by rewrite (proj2 (in_bounds_spec _ _ _)) by lia.
Qed.

Lemma load_at_ok {A} (l : list A) (off : Z) (v : A) :
  0 <= off -> l !! Z.to_nat off = Some v -> load_at l off = Ok v.
Proof. intros H Hl. unfold load_at. test_true. by rewrite Hl. Qed.

Lemma load_at_mid {A} (a : list A) (x : A) b : load_at (a ++ x :: b) (Z.of_nat (length a)) = Ok x.
Proof. apply load_at_ok; [lia|]. by rewrite Nat2Z.id, list_lookup_middle. Qed.

Lemma store_at_mid {A} (a : list A) (x y : A) b : store_at (a ++ x :: b) (Z.of_nat (length a)) y = Ok (a ++ y :: b).
Proof.
  rewrite store_at_ok; [|rewrite length_app; cbn; lia]. f_equal.
  by rewrite Nat2Z.id, insert_app_r_alt, Nat.sub_diag by lia.
Qed.

Lemma load_mid {A} (pre post : list A) (x : A) (i : Z) : i = Z.of_nat (length pre) -> load_at (pre ++ x :: post) i = Ok x.
Proof. intros ->. apply load_at_mid. Qed.

Lemma store_mid {A} (pre post : list A) (x v : A) (i : Z) :
  i = Z.of_nat (length pre) -> store_at (pre ++ x :: post) i v = Ok (pre ++ v :: post).
Proof. intros ->. apply store_at_mid. Qed.

(** ** Rings

    The [n] elements of a buffer from offset [o] on, around its end; [d] is never
    read when the buffer has [size] elements. *)
Section Ring.
Context {A : Type} (d : A).
Implicit Types (pool : list A) (size o : Z) (n : nat).

Fixpoint ring (pool : list A) (size o : Z) (n : nat) : list A :=
  match n with
  | O => []
  | S n => default d (pool !! Z.to_nat (o mod size)) :: ring pool size (o + 1) n
  end.

Lemma length_ring pool size o n : length (ring pool size o n) = n.
Proof. revert o. induction n as [|n IH]; intros o; cbn; [done|]. by rewrite IH. Qed.

Lemma ring_snoc pool size o n :
  ring pool size o (S n) =
    ring pool size o n ++ [default d (pool !! Z.to_nat ((o + Z.of_nat n) mod size))].
Proof.
  revert o. induction n as [|n IH]; intros o.
  - cbn. by rewrite Z.add_0_r.
  - change (ring pool size o (S (S n))) with
      (default d (pool !! Z.to_nat (o mod size)) :: ring pool size (o + 1) (S n)).
    rewrite IH. cbn [ring app].
    by replace (o + Z.of_nat (S n)) with (o + 1 + Z.of_nat n) by lia.
Qed.

Lemma ring_mod pool size o n :
  0 < size -> ring pool size (o mod size) n = ring pool size o n.
Proof.
  intros Hs. revert o. induction n as [|n IH]; intros o; [done|]. cbn.
  rewrite Z.mod_mod by lia. f_equal. rewrite <- (IH (o mod size + 1)), <- (IH (o + 1)).
  f_equal. by rewrite Zplus_mod_idemp_l.
Qed.

(** A store at an offset that is not among the [n] read. *)
Lemma ring_store pool size o (v : A) n (p : Z) :
  0 < size -> 0 <= p < size -> Z.of_nat n <= size ->
  (forall i, 0 <= i < Z.of_nat n -> (o + i) mod size <> p) ->
  ring (<[Z.to_nat p := v]> pool) size o n = ring pool size o n.
Proof.
  intros Hs Hp. revert o. induction n as [|n IH]; intros o Hn Hne; [done|]. cbn.
  rewrite IH; [|lia|].
  - f_equal. rewrite list_lookup_insert_ne; [done|]. intros E.
    pose proof (Z.mod_pos_bound o size Hs). apply (Hne 0); [lia|]. rewrite Z.add_0_r. lia.
  - intros i Hi. replace (o + 1 + i) with (o + (i + 1)) by lia. apply Hne. lia.
Qed.

(** Offsets less than a whole round apart are different places. *)
Lemma mod_apart size o i n :
  0 <= i -> i < Z.of_nat n -> Z.of_nat n < size -> (o + i) mod size <> (o + Z.of_nat n) mod size.
Proof.
  intros H1 H2 H3 E. assert (Z0 : (Z.of_nat n - i) mod size = 0).
  { replace (Z.of_nat n - i) with (o + Z.of_nat n - (o + i)) by lia.
    rewrite Zminus_mod, E, Z.sub_diag. apply Z.mod_0_l. lia. }
  rewrite Z.mod_small in Z0 by lia. lia.
Qed.

Lemma ring_push pool size o (v : A) n :
  Z.of_nat (length pool) = size -> Z.of_nat n < size ->
  ring (<[Z.to_nat ((o + Z.of_nat n) mod size) := v]> pool) size o (S n) = ring pool size o n ++ [v].
Proof.
  intros El Hn. pose proof (Z.mod_pos_bound (o + Z.of_nat n) size ltac:(lia)) as B.
  rewrite ring_snoc, list_lookup_insert_eq by lia. f_equal. apply ring_store; [lia|lia|lia|].
  intros i [H1 H2]. by apply mod_apart.
Qed.

(** The first element, and the rest. *)
Lemma ring_pop pool size o (v : A) n w :
  Z.of_nat (length pool) = size -> 0 < size -> ring pool size o n = v :: w ->
  pool !! Z.to_nat (o mod size) = Some v /\ n <> O /\ ring pool size (o + 1) (pred n) = w.
Proof.
  intros El Hs E. destruct n as [|n]; [done|]. injection E as Ev Ew.
  pose proof (Z.mod_pos_bound o size Hs) as B.
  destruct (lookup_lt_is_Some_2 pool (Z.to_nat (o mod size)) ltac:(lia)) as [v' Hv].
  rewrite Hv in Ev. cbn in Ev. by subst.
Qed.

End Ring.
