(* ===== verification/RingBuffer.v ===== *)
(** * Ring buffer (DeviceDrivers/ringbuffer.c, the inline functions of
    DeviceDrivers/include/rtdevice.h)

    The record is [struct rt_ringbuffer]: the one-bit mirrors and the 15-bit
    indexes are kept at their width.  Every function works on the buffer's
    memory with [memcpy_at], so an access outside the buffer or outside the
    caller's data is a [Fault].  The abstract view is the list [contents] of
    the bytes still to be read; a bounded queue is the specification the
    operations refine. *)

From S2P Require Import Prelude.

Record ringbuffer := Ringbuffer {
  buffer_ptr : list Z;
  read_mirror : Z;
  read_index : Z;
  write_mirror : Z;
  write_index : Z;
  buffer_size : Z;
}.

Definition set_write (rb : ringbuffer) (m i : Z) : ringbuffer :=
  Ringbuffer (buffer_ptr rb) (read_mirror rb) (read_index rb)
    (ubits 1 m) (ubits 15 i) (buffer_size rb).
Definition set_read (rb : ringbuffer) (m i : Z) : ringbuffer :=
  Ringbuffer (buffer_ptr rb) (ubits 1 m) (ubits 15 i)
    (write_mirror rb) (write_index rb) (buffer_size rb).
Definition set_pool (rb : ringbuffer) (p : list Z) : ringbuffer :=
  Ringbuffer p (read_mirror rb) (read_index rb)
    (write_mirror rb) (write_index rb) (buffer_size rb).

Definition rt_ringbuffer_init (pool : list Z) (size : Z) : res ringbuffer :=
  _ ← RT_ASSERT (0 <? size);
  mret (Ringbuffer pool 0 0 0 0 (RT_ALIGN_DOWN size RT_ALIGN_SIZE)).

Inductive rt_ringbuffer_state :=
| RT_RINGBUFFER_EMPTY
| RT_RINGBUFFER_FULL
| RT_RINGBUFFER_HALFFULL.

#[export] Instance rt_ringbuffer_state_eq_dec : EqDecision rt_ringbuffer_state.
Proof. solve_decision. Defined.

Definition rt_ringbuffer_get_size (rb : ringbuffer) : Z := u16 (buffer_size rb).

Definition rt_ringbuffer_status (rb : ringbuffer) : rt_ringbuffer_state :=
  if read_index rb =? write_index rb then
    if read_mirror rb =? write_mirror rb then RT_RINGBUFFER_EMPTY
    else RT_RINGBUFFER_FULL
  else RT_RINGBUFFER_HALFFULL.

Definition rt_ringbuffer_data_len (rb : ringbuffer) : Z :=
  match rt_ringbuffer_status rb with
  | RT_RINGBUFFER_EMPTY => 0
  | RT_RINGBUFFER_FULL => u16 (buffer_size rb)
  | RT_RINGBUFFER_HALFFULL =>
      if read_index rb <? write_index rb
      then u16 (write_index rb - read_index rb)
      else u16 (buffer_size rb - (read_index rb - write_index rb))
  end.

Definition rt_ringbuffer_space_len (rb : ringbuffer) : Z :=
  buffer_size rb - rt_ringbuffer_data_len rb.

(** The two [memcpy]s of a put that goes past the end of the buffer. *)
Definition put_wrapped (rb : ringbuffer) (ptr : list Z) (length : Z)
  : res ringbuffer :=
  let first := buffer_size rb - write_index rb in
  p1 ← memcpy_at (buffer_ptr rb) (write_index rb) ptr 0 first;
  p2 ← memcpy_at p1 0 ptr first (length - first);
  mret (set_write (set_pool rb p2) (Z.lnot (write_mirror rb)) (length - first)).

Definition rt_ringbuffer_put (rb : ringbuffer) (ptr : list Z) (length : Z)
  : res (Z * ringbuffer) :=
  let size := u16 (rt_ringbuffer_space_len rb) in
  if size =? 0 then mret (0, rb) else
  let length := if size <? length then size else length in
  if length <? buffer_size rb - write_index rb then
    p ← memcpy_at (buffer_ptr rb) (write_index rb) ptr 0 length;
    mret (length,
      set_write (set_pool rb p) (write_mirror rb) (write_index rb + length))
  else
    rb' ← put_wrapped rb ptr length;
    mret (length, rb').

Definition rt_ringbuffer_put_force (rb : ringbuffer) (ptr : list Z) (length : Z)
  : res (Z * ringbuffer) :=
  let space_length := u16 (rt_ringbuffer_space_len rb) in
  let length := if space_length <? length then u16 (buffer_size rb) else length in
  if length <? buffer_size rb - write_index rb then
    p ← memcpy_at (buffer_ptr rb) (write_index rb) ptr 0 length;
    let rb1 :=
      set_write (set_pool rb p) (write_mirror rb) (write_index rb + length) in
    mret (length,
      if space_length <? length
      then set_read rb1 (read_mirror rb1) (write_index rb1) else rb1)
  else
    rb1 ← put_wrapped rb ptr length;
    mret (length,
      if space_length <? length
      then set_read rb1 (Z.lnot (read_mirror rb1)) (write_index rb1) else rb1).

(** The bytes handed to the caller are the result's second component. *)
Definition rt_ringbuffer_get (rb : ringbuffer) (length : Z)
  : res (Z * list Z * ringbuffer) :=
  let size := rt_ringbuffer_data_len rb in
  if size =? 0 then mret (0, [], rb) else
  let length := if size <? length then u16 size else length in
  let first := buffer_size rb - read_index rb in
  let ptr := replicate (Z.to_nat length) 0 in
  if length <? first then
    ptr ← memcpy_at ptr 0 (buffer_ptr rb) (read_index rb) length;
    mret (length, ptr, set_read rb (read_mirror rb) (read_index rb + length))
  else
    ptr ← memcpy_at ptr 0 (buffer_ptr rb) (read_index rb) first;
    ptr ← memcpy_at ptr first (buffer_ptr rb) 0 (length - first);
    mret (length, ptr, set_read rb (Z.lnot (read_mirror rb)) (length - first)).

Definition rt_ringbuffer_putchar (rb : ringbuffer) (ch : Z)
  : res (Z * ringbuffer) :=
  if rt_ringbuffer_space_len rb =? 0 then mret (0, rb) else
  p ← store_at (buffer_ptr rb) (write_index rb) ch;
  let rb := set_pool rb p in
  mret (1,
    if write_index rb =? buffer_size rb - 1
    then set_write rb (Z.lnot (write_mirror rb)) 0
    else set_write rb (write_mirror rb) (write_index rb + 1)).

Definition rt_ringbuffer_putchar_force (rb : ringbuffer) (ch : Z)
  : res (Z * ringbuffer) :=
  let old_state := rt_ringbuffer_status rb in
  p ← store_at (buffer_ptr rb) (write_index rb) ch;
  let rb := set_pool rb p in
  mret (1,
    if write_index rb =? buffer_size rb - 1 then
      let rb := set_write rb (Z.lnot (write_mirror rb)) 0 in
      if decide (old_state = RT_RINGBUFFER_FULL)
      then set_read rb (Z.lnot (read_mirror rb)) (write_index rb) else rb
    else
      let rb := set_write rb (write_mirror rb) (write_index rb + 1) in
      if decide (old_state = RT_RINGBUFFER_FULL)
      then set_read rb (read_mirror rb) (write_index rb) else rb).

(** Returns the count, the character stored at [*ch] and the new state. *)
Definition rt_ringbuffer_getchar (rb : ringbuffer) : res (Z * option Z * ringbuffer) :=
  if rt_ringbuffer_data_len rb =? 0 then mret (0, None, rb) else
  ch ← load_at (buffer_ptr rb) (read_index rb);
  mret (1, Some ch,
    if read_index rb =? buffer_size rb - 1
    then set_read rb (Z.lnot (read_mirror rb)) 0
    else set_read rb (read_mirror rb) (read_index rb + 1)).

(** ** Invariant and abstraction *)

(** The index the reader reaches after [k] bytes, for [k] up to one round. *)
Definition wrap (rb : ringbuffer) (k : Z) : Z :=
  let i := read_index rb + k in
  if i <? buffer_size rb then i else i - buffer_size rb.

Definition contents (rb : ringbuffer) : list Z :=
  (λ k : nat, buffer_ptr rb !!! Z.to_nat (wrap rb (Z.of_nat k)))
    <$> seq 0 (Z.to_nat (rt_ringbuffer_data_len rb)).

Record wf (rb : ringbuffer) : Prop := {
  wf_size : 0 < buffer_size rb < 2 ^ 15;
  wf_pool : buffer_size rb <= Z.of_nat (length (buffer_ptr rb));
  wf_ri : 0 <= read_index rb < buffer_size rb;
  wf_wi : 0 <= write_index rb < buffer_size rb;
  wf_rm : 0 <= read_mirror rb <= 1;
  wf_wm : 0 <= write_mirror rb <= 1;
  (* the writer is ahead of the reader by at most one round *)
  wf_ahead :
    if read_mirror rb =? write_mirror rb
    then read_index rb <= write_index rb
    else write_index rb <= read_index rb;
}.

(** How far the writer is ahead. *)
Definition ahead (rb : ringbuffer) : Z :=
  if read_mirror rb =? write_mirror rb
  then write_index rb - read_index rb
  else buffer_size rb - (read_index rb - write_index rb).

Ltac wf_facts H :=
  pose proof (wf_size _ H); pose proof (wf_pool _ H); pose proof (wf_ri _ H);
  pose proof (wf_wi _ H); pose proof (wf_rm _ H); pose proof (wf_wm _ H);
  pose proof (wf_ahead _ H).

Lemma data_len_ahead (rb : ringbuffer) :
  wf rb -> rt_ringbuffer_data_len rb = ahead rb /\ 0 <= ahead rb <= buffer_size rb.
Proof.
  intros H. wf_facts H.
  unfold rt_ringbuffer_data_len, rt_ringbuffer_status, ahead in *.
  repeat case_test; rewrite ?ubits_small by lia; lia.
Qed.

Lemma space_len_ahead (rb : ringbuffer) :
  wf rb -> rt_ringbuffer_space_len rb = buffer_size rb - ahead rb.
Proof.
  intros H. unfold rt_ringbuffer_space_len. destruct (data_len_ahead rb H). lia.
Qed.

Lemma length_contents (rb : ringbuffer) :
  wf rb -> Z.of_nat (length (contents rb)) = ahead rb.
Proof.
  intros H. destruct (data_len_ahead rb H) as [E ?].
  unfold contents. rewrite length_fmap, length_seq. lia.
Qed.

Lemma lookup_contents (rb : ringbuffer) (k : nat) :
  wf rb -> Z.of_nat k < ahead rb ->
  contents rb !! k = buffer_ptr rb !! Z.to_nat (wrap rb (Z.of_nat k)).
Proof.
  intros H Hk. destruct (data_len_ahead rb H) as [E Ha]. wf_facts H.
  unfold contents. rewrite list_lookup_fmap, lookup_seq_lt by lia. simpl.
  symmetry. apply list_lookup_lookup_total_lt.
  unfold wrap. case_test; lia.
Qed.

(** Two lists with the same length and the same elements below it. *)
Lemma list_eq_below {A} (l1 l2 : list A) :
  length l1 = length l2 ->
  (forall k : nat, (k < length l1)%nat -> l1 !! k = l2 !! k) -> l1 = l2.
Proof.
  intros Hl H. apply list_eq. intros k.
  destruct (decide (k < length l1)%nat) as [|Hk]; [by apply H|].
  rewrite !lookup_ge_None_2 by lia. done.
Qed.

Lemma ubits1_lnot (m : Z) : 0 <= m <= 1 -> ubits 1 (Z.lnot m) = 1 - m.
Proof.
  intros H. assert (m = 0 \/ m = 1) as [-> | ->] by lia; reflexivity.
Qed.

Lemma ubits1_small (m : Z) : 0 <= m <= 1 -> ubits 1 m = m.
Proof. intros. apply ubits_small. lia. Qed.

(** ** Advancing the two ends

    Every operation moves the write end, the read end or both; these are the
    two moves, with their effect on the invariant. *)

Definition adv_write (rb : ringbuffer) (n : Z) : ringbuffer :=
  if n <? buffer_size rb - write_index rb
  then set_write rb (write_mirror rb) (write_index rb + n)
  else set_write rb (Z.lnot (write_mirror rb))
         (n - (buffer_size rb - write_index rb)).

Definition adv_read (rb : ringbuffer) (n : Z) : ringbuffer :=
  if n <? buffer_size rb - read_index rb
  then set_read rb (read_mirror rb) (read_index rb + n)
  else set_read rb (Z.lnot (read_mirror rb))
         (n - (buffer_size rb - read_index rb)).

Ltac index_norm := cbn in *; rewrite ?ubits1_lnot, ?ubits1_small, ?(ubits_small 15) in * by lia.

Lemma wf_set_pool (rb : ringbuffer) (p : list Z) :
  wf rb -> length p = length (buffer_ptr rb) -> wf (set_pool rb p).
Proof. intros H Hp. wf_facts H. constructor; cbn; rewrite ?Hp; auto. Qed.

Lemma wf_adv_write (rb : ringbuffer) (n : Z) :
  wf rb -> 0 <= n <= buffer_size rb - ahead rb ->
  wf (adv_write rb n) /\ ahead (adv_write rb n) = ahead rb + n.
Proof.
  intros H Hn. wf_facts H. unfold adv_write, ahead in *.
  split; [constructor|]; repeat case_hyp; repeat case_test; index_norm; repeat case_test; lia.
Qed.

Lemma wf_adv_read (rb : ringbuffer) (n : Z) :
  wf rb -> 0 <= n <= ahead rb ->
  wf (adv_read rb n) /\ ahead (adv_read rb n) = ahead rb - n.
Proof.
  intros H Hn. wf_facts H. unfold adv_read, ahead in *.
  split; [constructor|]; repeat case_hyp; repeat case_test; index_norm; repeat case_test; lia.
Qed.

Lemma adv_write_read_side (rb : ringbuffer) (n k : Z) :
  buffer_ptr (adv_write rb n) = buffer_ptr rb /\ wrap (adv_write rb n) k = wrap rb k.
Proof. unfold adv_write, wrap. by case_test. Qed.

Lemma adv_read_wrap (rb : ringbuffer) (n k : Z) :
  wf rb -> 0 <= n -> 0 <= k -> n + k < buffer_size rb ->
  n <= ahead rb -> wrap (adv_read rb n) k = wrap rb (n + k).
Proof.
  intros H ? ? ? Hn. wf_facts H. destruct (data_len_ahead rb H) as [_ ?].
  unfold adv_read, wrap. repeat case_test; index_norm; lia.
Qed.

Lemma adv_read_ptr (rb : ringbuffer) (n : Z) :
  buffer_ptr (adv_read rb n) = buffer_ptr rb.
Proof. unfold adv_read. by case_test. Qed.

(** Dropping [n] bytes. *)
Lemma contents_adv_read (rb : ringbuffer) (n : Z) :
  wf rb -> 0 <= n <= ahead rb ->
  contents (adv_read rb n) = drop (Z.to_nat n) (contents rb).
Proof.
  intros H Hn. destruct (wf_adv_read rb n H Hn) as [H' Ha].
  destruct (data_len_ahead rb H) as [_ Hb].
  pose proof (length_contents _ H). pose proof (length_contents _ H').
  apply list_eq_below; [rewrite length_drop; lia|]. intros k Hk.
  rewrite lookup_drop, !lookup_contents, adv_read_ptr, adv_read_wrap by (auto; lia).
  do 3 f_equal. lia.
Qed.

(** The position of the byte [i] in the order in which the writer fills the
    buffer. *)
Definition write_rank (rb : ringbuffer) (i : Z) : Z :=
  if write_index rb <=? i then i - write_index rb
  else i + buffer_size rb - write_index rb.

(** [p] is the memory of [rb] after the first [n] bytes of [data] have been
    written from the write index on, around the end. *)
Record written (rb : ringbuffer) (n : Z) (data p : list Z) : Prop := {
  written_length : length p = length (buffer_ptr rb);
  written_lookup : forall i : Z, 0 <= i < buffer_size rb ->
    p !! Z.to_nat i =
      if write_rank rb i <? n then data !! Z.to_nat (write_rank rb i)
      else buffer_ptr rb !! Z.to_nat i;
}.

Lemma written_straight (rb : ringbuffer) (n : Z) (data : list Z) :
  wf rb -> 0 <= n <= Z.of_nat (length data) -> n < buffer_size rb - write_index rb ->
  exists p, memcpy_at (buffer_ptr rb) (write_index rb) data 0 n = Ok p /\
    written rb n data p.
Proof.
  intros H Hn Hs. wf_facts H. rewrite memcpy_at_ok by lia.
  eexists; split; [done|].
  assert (Hl : Z.of_nat (length (slice 0 n data)) = n).
  { apply length_slice, in_bounds_spec. lia. }
  constructor; [apply length_inserts|]. intros i Hi. unfold write_rank.
  repeat case_test; try lia.
  - rewrite list_lookup_inserts, lookup_slice by lia. f_equal. lia.
  - rewrite list_lookup_inserts_ge by lia. done.
  - rewrite list_lookup_inserts_lt by lia. done.
Qed.

Lemma written_wrapped (rb : ringbuffer) (n : Z) (data : list Z) :
  wf rb -> 0 <= n <= Z.of_nat (length data) ->
  buffer_size rb - write_index rb <= n <= buffer_size rb ->
  exists p, written rb n data p /\
    put_wrapped rb data n =
      Ok (set_write (set_pool rb p) (Z.lnot (write_mirror rb))
            (n - (buffer_size rb - write_index rb))).
Proof.
  intros H Hn Hs. wf_facts H. unfold put_wrapped.
  set (first := buffer_size rb - write_index rb) in *.
  rewrite memcpy_at_ok by lia. cbn.
  rewrite memcpy_at_ok by (rewrite ?length_inserts; lia). cbn.
  eexists; split; [|done].
  assert (Hl1 : Z.of_nat (length (slice 0 first data)) = first).
  { apply length_slice, in_bounds_spec. lia. }
  assert (Hl2 : Z.of_nat (length (slice first (n - first) data)) = n - first).
  { apply length_slice, in_bounds_spec. lia. }
  constructor; [by rewrite !length_inserts|]. intros i Hi. unfold write_rank.
  repeat case_test; try lia.
  - rewrite list_lookup_inserts_ge by lia.
    rewrite list_lookup_inserts, lookup_slice by lia. f_equal. lia.
  - rewrite list_lookup_inserts, lookup_slice by (rewrite ?length_inserts; lia).
    f_equal. lia.
  - rewrite list_lookup_inserts_ge, list_lookup_inserts_lt by lia. done.
Qed.

(** What a write of [n] bytes that fit does to the abstract contents. *)
Lemma contents_written (rb : ringbuffer) (n : Z) (data p : list Z) :
  wf rb -> 0 <= n <= buffer_size rb - ahead rb -> n <= Z.of_nat (length data) ->
  written rb n data p ->
  wf (adv_write (set_pool rb p) n) /\
  contents (adv_write (set_pool rb p) n) = contents rb ++ take (Z.to_nat n) data.
Proof.
  intros H Hn Hd [Hp Hw].
  pose proof (wf_set_pool rb p H Hp) as H1.
  destruct (wf_adv_write (set_pool rb p) n H1 Hn) as [H2 Ha]. split; [done|].
  change (ahead (set_pool rb p)) with (ahead rb) in Ha.
  destruct (data_len_ahead rb H) as [_ Hb]. wf_facts H.
  pose proof (length_contents _ H). pose proof (length_contents _ H2).
  apply list_eq_below; [rewrite length_app, length_take; lia|]. intros k Hk.
  rewrite lookup_contents by (auto; lia).
  destruct (adv_write_read_side (set_pool rb p) n (Z.of_nat k)) as [-> ->].
  change (wrap (set_pool rb p)) with (wrap rb). cbn [buffer_ptr set_pool].
  rewrite Hw by (unfold wrap; case_test; lia).
  destruct (decide (Z.of_nat k < ahead rb)).
  - rewrite lookup_app_l, lookup_contents by (auto; lia).
    unfold write_rank, wrap, ahead in *.
    repeat case_hyp; repeat case_test; first [lia | f_equal; lia].
  - rewrite lookup_app_r, lookup_take_lt by lia.
    unfold write_rank, wrap, ahead in *.
    repeat case_hyp; repeat case_test; first [lia | f_equal; lia].
Qed.

Lemma buffer_size_adv_write (rb : ringbuffer) (n : Z) :
  buffer_size (adv_write rb n) = buffer_size rb.
Proof. unfold adv_write. by case_test. Qed.
Lemma adv_read_write_index (rb : ringbuffer) (n : Z) :
  write_index (adv_read rb n) = write_index rb.
Proof. unfold adv_read. by case_test. Qed.
Lemma buffer_size_adv_read (rb : ringbuffer) (n : Z) :
  buffer_size (adv_read rb n) = buffer_size rb.
Proof. unfold adv_read. by case_test. Qed.

(** ** The operations *)

(** What every operation guarantees of its final state: the invariant, the
    capacity and the bytes still to be read. *)
Definition leaves (rb : ringbuffer) (q : list Z) (rb' : ringbuffer) : Prop :=
  wf rb' /\ buffer_size rb' = buffer_size rb /\ contents rb' = q.

Lemma leaves_adv_read (rb : ringbuffer) (n : Z) :
  wf rb -> 0 <= n <= ahead rb ->
  leaves rb (drop (Z.to_nat n) (contents rb)) (adv_read rb n).
Proof.
  intros H Hn. split_and!; [by apply wf_adv_read|apply buffer_size_adv_read|].
  by apply contents_adv_read.
Qed.

Lemma leaves_written (rb : ringbuffer) (n : Z) (data p : list Z) :
  wf rb -> 0 <= n <= buffer_size rb - ahead rb -> n <= Z.of_nat (length data) ->
  written rb n data p ->
  leaves rb (contents rb ++ take (Z.to_nat n) data) (adv_write (set_pool rb p) n).
Proof.
  intros H Hn Hd Hw. destruct (contents_written rb n data p H Hn Hd Hw) as [H1 H2].
  split_and!; [done|by rewrite buffer_size_adv_write|done].
Qed.


Lemma rt_ringbuffer_init_ok (pool : list Z) (size : Z) :
  4 <= size < 2 ^ 15 -> size <= Z.of_nat (length pool) ->
  exists rb, rt_ringbuffer_init pool size = Ok rb /\ wf rb /\
    contents rb = [] /\ size - 4 < buffer_size rb <= size.
Proof.
  intros Hs Hp. unfold rt_ringbuffer_init. rewrite RT_ASSERT_true by (apply Z.ltb_lt; lia).
  eexists; split; [done|]. rewrite RT_ALIGN_DOWN_4.
  pose proof (Z.div_mod size 4 ltac:(lia)). pose proof (Z.mod_pos_bound size 4 ltac:(lia)).
  split_and!; [constructor; cbn; lia|done|cbn; lia|cbn; lia].
Qed.

Lemma rt_ringbuffer_put_ok (rb : ringbuffer) (ptr : list Z) (len : Z) :
  wf rb -> 0 <= len <= Z.of_nat (length ptr) ->
  exists rb', rt_ringbuffer_put rb ptr len =
      Ok (Z.min len (buffer_size rb - Z.of_nat (length (contents rb))), rb') /\
    leaves rb (contents rb ++
      take (Z.to_nat (Z.min len (buffer_size rb - Z.of_nat (length (contents rb))))) ptr) rb'.
Proof.
  intros H Hl. rewrite (length_contents rb H). wf_facts H.
  destruct (data_len_ahead rb H) as [_ Hb].
  unfold rt_ringbuffer_put. rewrite space_len_ahead, ubits_small by (auto; lia).
  set (n := Z.min len (buffer_size rb - ahead rb)).
  destruct (Z.eqb_spec (buffer_size rb - ahead rb) 0) as [Hz|Hz].
  { exists rb. replace n with 0 by lia. split; [done|].
    rewrite take_0, app_nil_r. done. }
  replace (if _ <? len then _ else len) with n by (unfold n; case_test; lia).
  case_test.
  - destruct (written_straight rb n ptr) as (p & Hp & Hw); [done|lia|lia|].
    rewrite Hp. cbn. eexists; split; [done|].
    pose proof (leaves_written rb n ptr p H ltac:(lia) ltac:(lia) Hw) as HL.
    unfold adv_write in HL. cbn in HL. rewrite (proj2 (Z.ltb_lt _ _)) in HL by lia. done.
  - destruct (written_wrapped rb n ptr) as (p & Hw & Hp); [done|lia|lia|].
    rewrite Hp. cbn. eexists; split; [done|].
    pose proof (leaves_written rb n ptr p H ltac:(lia) ltac:(lia) Hw) as HL.
    unfold adv_write in HL. cbn in HL. rewrite (proj2 (Z.ltb_ge _ _)) in HL by lia. done.
Qed.

Lemma adv_read_straight (rb : ringbuffer) (n : Z) :
  n < buffer_size rb - read_index rb ->
  adv_read rb n = set_read rb (read_mirror rb) (read_index rb + n).
Proof. intros. unfold adv_read. by test_true. Qed.

Lemma adv_read_wrapped (rb : ringbuffer) (n : Z) :
  buffer_size rb - read_index rb <= n ->
  adv_read rb n = set_read rb (Z.lnot (read_mirror rb)) (n - (buffer_size rb - read_index rb)).
Proof. intros. unfold adv_read. by test_false. Qed.

(** The bytes a [get] of [n] bytes copies out. *)
Lemma get_straight (rb : ringbuffer) (n : Z) :
  wf rb -> 0 <= n <= ahead rb -> n < buffer_size rb - read_index rb ->
  memcpy_at (replicate (Z.to_nat n) 0) 0 (buffer_ptr rb) (read_index rb) n
  = Ok (take (Z.to_nat n) (contents rb)).
Proof.
  intros H Hn Hs. wf_facts H. pose proof (length_contents _ H).
  rewrite memcpy_at_ok by (rewrite ?length_replicate; lia). f_equal.
  assert (Hl : Z.of_nat (length (slice (read_index rb) n (buffer_ptr rb))) = n).
  { apply length_slice, in_bounds_spec. lia. }
  apply list_eq_below; rewrite length_inserts, length_replicate; [rewrite length_take; lia|].
  intros k Hk. rewrite list_lookup_inserts, lookup_slice, lookup_take_lt, lookup_contents
    by (rewrite ?length_replicate; auto; lia).
  f_equal. unfold wrap. case_test; lia.
Qed.

Lemma get_wrapped (rb : ringbuffer) (n : Z) :
  wf rb -> 0 <= n <= ahead rb -> buffer_size rb - read_index rb <= n ->
  (ptr ← memcpy_at (replicate (Z.to_nat n) 0) 0 (buffer_ptr rb) (read_index rb)
           (buffer_size rb - read_index rb);
   memcpy_at ptr (buffer_size rb - read_index rb) (buffer_ptr rb) 0
     (n - (buffer_size rb - read_index rb)))
  = Ok (take (Z.to_nat n) (contents rb)).
Proof.
  intros H Hn Hs. wf_facts H. pose proof (length_contents _ H).
  destruct (data_len_ahead rb H) as [_ Hb].
  set (first := buffer_size rb - read_index rb) in *.
  rewrite memcpy_at_ok by (rewrite ?length_replicate; lia). cbn.
  rewrite memcpy_at_ok by (rewrite ?length_inserts, ?length_replicate; lia). f_equal.
  assert (Hl1 : Z.of_nat (length (slice (read_index rb) first (buffer_ptr rb))) = first).
  { apply length_slice, in_bounds_spec. lia. }
  assert (Hl2 : Z.of_nat (length (slice 0 (n - first) (buffer_ptr rb))) = n - first).
  { apply length_slice, in_bounds_spec. lia. }
  apply list_eq_below; rewrite !length_inserts, length_replicate; [rewrite length_take; lia|].
  intros k Hk. rewrite lookup_take_lt, lookup_contents by (auto; lia).
  destruct (decide (Z.of_nat k < first)).
  - rewrite list_lookup_inserts_lt, list_lookup_inserts, lookup_slice
      by (rewrite ?length_replicate; lia).
    f_equal. unfold wrap. case_test; lia.
  - rewrite list_lookup_inserts, lookup_slice
      by (rewrite ?length_inserts, ?length_replicate; lia).
    f_equal. unfold wrap. case_test; lia.
Qed.

Lemma rt_ringbuffer_get_ok (rb : ringbuffer) (len : Z) :
  wf rb -> 0 <= len ->
  exists rb', rt_ringbuffer_get rb len =
      Ok (Z.min len (Z.of_nat (length (contents rb))), take (Z.to_nat len) (contents rb), rb') /\
    leaves rb (drop (Z.to_nat len) (contents rb)) rb'.
Proof.
  intros H Hl. pose proof (length_contents rb H) as Hc. wf_facts H.
  destruct (data_len_ahead rb H) as [Hd Hb].
  unfold rt_ringbuffer_get. rewrite Hd, Hc.
  set (n := Z.min len (ahead rb)).
  replace (take (Z.to_nat len) (contents rb)) with (take (Z.to_nat n) (contents rb)).
  2:{ destruct (decide (len <= ahead rb)); [f_equal; lia|].
      rewrite !take_ge by lia. done. }
  replace (drop (Z.to_nat len) (contents rb)) with (drop (Z.to_nat n) (contents rb)).
  2:{ destruct (decide (len <= ahead rb)); [f_equal; lia|].
      rewrite !drop_ge by lia. done. }
  destruct (Z.eqb_spec (ahead rb) 0) as [Hz|Hz].
  { exists rb. replace n with 0 by lia. rewrite take_0, drop_0. done. }
  replace (if _ <? len then _ else len) with n
    by (unfold n; rewrite ubits_small by lia; case_test; lia).
  pose proof (leaves_adv_read rb n H ltac:(lia)) as HL.
  case_test.
  - rewrite get_straight by (auto; lia). cbn.
    eexists; split; [done|]. by rewrite adv_read_straight in HL by lia.
  - pose proof (get_wrapped rb n H ltac:(lia) ltac:(lia)) as Hg.
    rewrite adv_read_wrapped in HL by lia.
    destruct (memcpy_at _ 0 _ _ _) as [p| |]; cbn in *; [|done|done].
    rewrite Hg. cbn. eauto.
Qed.

Lemma written_char (rb : ringbuffer) (ch : Z) :
  wf rb ->
  exists p, store_at (buffer_ptr rb) (write_index rb) ch = Ok p /\ written rb 1 [ch] p.
Proof.
  intros H. wf_facts H. rewrite store_at_ok by lia. eexists; split; [done|].
  constructor; [apply length_insert|]. intros i Hi.
  destruct (decide (i = write_index rb)) as [->|Hne].
  - rewrite list_lookup_insert_eq by lia. unfold write_rank.
    rewrite (proj2 (Z.leb_le _ _)), Z.sub_diag by lia. done.
  - rewrite list_lookup_insert_ne by lia. unfold write_rank.
    repeat case_test; try lia; done.
Qed.

Lemma adv_write_1 (rb : ringbuffer) :
  wf rb ->
  adv_write rb 1 =
    if write_index rb =? buffer_size rb - 1
    then set_write rb (Z.lnot (write_mirror rb)) 0
    else set_write rb (write_mirror rb) (write_index rb + 1).
Proof.
  intros H. wf_facts H. unfold adv_write. repeat case_test; try lia; [done|].
  f_equal. lia.
Qed.

Lemma adv_read_1 (rb : ringbuffer) :
  wf rb ->
  adv_read rb 1 =
    if read_index rb =? buffer_size rb - 1
    then set_read rb (Z.lnot (read_mirror rb)) 0
    else set_read rb (read_mirror rb) (read_index rb + 1).
Proof.
  intros H. wf_facts H. unfold adv_read. repeat case_test; try lia; [done|].
  f_equal. lia.
Qed.

Definition full (rb : ringbuffer) : bool :=
  buffer_size rb <=? Z.of_nat (length (contents rb)).

Lemma rt_ringbuffer_putchar_ok (rb : ringbuffer) (ch : Z) :
  wf rb ->
  exists rb', rt_ringbuffer_putchar rb ch = Ok ((if full rb then 0 else 1), rb') /\
    leaves rb (if full rb then contents rb else contents rb ++ [ch]) rb'.
Proof.
  intros H. pose proof (length_contents rb H). destruct (data_len_ahead rb H) as [_ Hb].
  unfold rt_ringbuffer_putchar, full. rewrite space_len_ahead by done.
  destruct (Z.leb_spec (buffer_size rb) (Z.of_nat (length (contents rb)))); wf_facts H.
  { test_true. exists rb. done. }
  test_false. destruct (written_char rb ch H) as (p & Hp & Hw). rewrite Hp. cbn.
  pose proof (leaves_written rb 1 [ch] p H ltac:(lia) ltac:(simpl; lia) Hw) as HL.
  rewrite adv_write_1 in HL by (apply wf_set_pool; [done|apply Hw]).
  eexists; split; [done|]. exact HL.
Qed.

Lemma rt_ringbuffer_getchar_ok (rb : ringbuffer) :
  wf rb ->
  exists rb', rt_ringbuffer_getchar rb =
      Ok (Z.min 1 (Z.of_nat (length (contents rb))), head (contents rb), rb') /\
    leaves rb (tail (contents rb)) rb'.
Proof.
  intros H. pose proof (length_contents rb H) as Hc.
  destruct (data_len_ahead rb H) as [Hd Hb]. wf_facts H.
  unfold rt_ringbuffer_getchar. rewrite Hd.
  destruct (Z.eqb_spec (ahead rb) 0) as [Hz|Hz].
  { exists rb. destruct (contents rb) eqn:E; simpl in *; [|lia]. by rewrite <- E. }
  pose proof (leaves_adv_read rb 1 H ltac:(lia)) as HL. rewrite adv_read_1 in HL by done.
  pose proof (lookup_contents rb 0 H ltac:(lia)) as Hhd.
  destruct (contents rb) as [|c q] eqn:E; simpl in Hc; [lia|].
  rewrite (load_at_ok _ _ c); [|lia|].
  2:{ simpl in Hhd. rewrite Hhd. f_equal. unfold wrap. case_test; lia. }
  eexists; split; [|exact HL]. cbn. do 3 f_equal. lia.
Qed.

(** When the buffer is full, [putchar_force] discards the oldest byte. *)
Lemma rt_ringbuffer_putchar_force_ok (rb : ringbuffer) (ch : Z) :
  wf rb ->
  exists rb', rt_ringbuffer_putchar_force rb ch = Ok (1, rb') /\
    leaves rb ((if full rb then tail (contents rb) else contents rb) ++ [ch]) rb'.
Proof.
  intros H. pose proof (length_contents rb H) as Hc.
  destruct (data_len_ahead rb H) as [_ Hb]. wf_facts H.
  destruct (written_char rb ch H) as (p & Hp & Hw).
  assert (Hst : rt_ringbuffer_status rb = RT_RINGBUFFER_FULL <-> full rb = true).
  { unfold full, rt_ringbuffer_status. rewrite Z.leb_le, Hc. unfold ahead in *.
    repeat case_hyp; repeat case_test; split; intros; try done; try lia. }
  unfold rt_ringbuffer_putchar_force. rewrite Hp. cbn.
  destruct (full rb) eqn:Hf.
  - rewrite !decide_True by tauto. unfold full in Hf. b2p.
    destruct (wf_adv_read rb 1 H ltac:(lia)) as [Hwf1 Ha1].
    assert (Hw1 : written (adv_read rb 1) 1 [ch] p).
    { destruct Hw as [L1 L2]. constructor; rewrite adv_read_ptr; [done|].
      intros i Hi. rewrite buffer_size_adv_read in Hi. rewrite L2 by done.
      unfold write_rank. by rewrite adv_read_write_index, buffer_size_adv_read. }
    pose proof (leaves_written _ 1 [ch] p Hwf1
      ltac:(rewrite buffer_size_adv_read; lia) ltac:(simpl; lia) Hw1) as (W1 & W2 & W3).
    rewrite contents_adv_read in W3 by (auto; lia).
    rewrite buffer_size_adv_read in W2.
    replace (tail (contents rb)) with (drop 1 (contents rb)) by (by destruct (contents rb)).
    assert (Hrw : read_index rb = write_index rb /\ read_mirror rb = 1 - write_mirror rb).
    { unfold ahead in *. repeat case_hyp; lia. }
    eexists; split; [done|].
    replace (if write_index rb =? _ then _ else _)
      with (adv_write (set_pool (adv_read rb 1) p) 1); [done|].
    rewrite adv_write_1 by (apply wf_set_pool; [done|rewrite adv_read_ptr; apply Hw]).
    rewrite adv_read_1 by done. destruct Hrw as [-> ->].
    case_test; cbn; case_test; try lia; unfold set_read, set_write; cbn; f_equal.
    by index_norm.
  - rewrite !decide_False by (rewrite Hst; done). unfold full in Hf. b2p.
    pose proof (leaves_written rb 1 [ch] p H ltac:(lia) ltac:(simpl; lia) Hw) as HL.
    rewrite adv_write_1 in HL by (apply wf_set_pool; [done|apply Hw]).
    eexists; split; [done|]. exact HL.
Qed.

(** ** [put_force] with data that fits *)

Lemma rt_ringbuffer_put_force_fits (rb : ringbuffer) (ptr : list Z) (len : Z) :
  wf rb -> 0 <= len <= Z.of_nat (length ptr) ->
  len <= buffer_size rb - Z.of_nat (length (contents rb)) ->
  exists rb', rt_ringbuffer_put_force rb ptr len = Ok (len, rb') /\
    leaves rb (contents rb ++ take (Z.to_nat len) ptr) rb'.
Proof.
  intros H Hl Hs. rewrite (length_contents rb H) in Hs. wf_facts H.
  destruct (data_len_ahead rb H) as [_ Hb].
  unfold rt_ringbuffer_put_force. rewrite space_len_ahead, ubits_small by (auto; lia).
  rewrite (proj2 (Z.ltb_ge (buffer_size rb - ahead rb) len)) by lia.
  case_test.
  - destruct (written_straight rb len ptr) as (p & Hp & Hw); [done|lia|lia|].
    rewrite Hp. cbn. rewrite (proj2 (Z.ltb_ge _ _)) by lia. eexists; split; [done|].
    pose proof (leaves_written rb len ptr p H ltac:(lia) ltac:(lia) Hw) as HL.
    unfold adv_write in HL. cbn in HL. rewrite (proj2 (Z.ltb_lt _ _)) in HL by lia. done.
  - destruct (written_wrapped rb len ptr) as (p & Hw & Hp); [done|lia|lia|].
    rewrite Hp. cbn. rewrite (proj2 (Z.ltb_ge _ _)) by lia. eexists; split; [done|].
    pose proof (leaves_written rb len ptr p H ltac:(lia) ltac:(lia) Hw) as HL.
    unfold adv_write in HL. cbn in HL. rewrite (proj2 (Z.ltb_ge _ _)) in HL by lia. done.
Qed.

(** ** Refinement of a bounded queue *)

Inductive rb_op :=
| OpPut (data : list Z)
| OpPutForce (data : list Z)
| OpPutChar (ch : Z)
| OpPutCharForce (ch : Z)
| OpGet (len : Z)
| OpGetChar
| OpDataLen
| OpSpaceLen.

(** One call: the return value, the bytes handed out, the new state. *)
Definition rb_exec (op : rb_op) (rb : ringbuffer) : res (Z * list Z * ringbuffer) :=
  match op with
  | OpPut data =>
      '(n, rb') ← rt_ringbuffer_put rb data (Z.of_nat (length data));
      mret (n, [], rb')
  | OpPutForce data =>
      '(n, rb') ← rt_ringbuffer_put_force rb data (Z.of_nat (length data));
      mret (n, [], rb')
  | OpPutChar ch => '(n, rb') ← rt_ringbuffer_putchar rb ch; mret (n, [], rb')
  | OpPutCharForce ch =>
      '(n, rb') ← rt_ringbuffer_putchar_force rb ch; mret (n, [], rb')
  | OpGet len => rt_ringbuffer_get rb len
  | OpGetChar =>
      '(n, ch, rb') ← rt_ringbuffer_getchar rb;
      mret (n, option_list ch, rb')
  | OpDataLen => mret (rt_ringbuffer_data_len rb, [], rb)
  | OpSpaceLen => mret (rt_ringbuffer_space_len rb, [], rb)
  end.

(** The specification: a queue of at most [cap] bytes. *)
Definition queue_exec (cap : Z) (op : rb_op) (q : list Z) : Z * list Z * list Z :=
  let room := cap - Z.of_nat (length q) in
  match op with
  | OpPut data =>
      let n := Z.min (Z.of_nat (length data)) room in
      (n, [], q ++ take (Z.to_nat n) data)
  | OpPutForce data => (Z.of_nat (length data), [], q ++ data)
  | OpPutChar ch => if room <=? 0 then (0, [], q) else (1, [], q ++ [ch])
  | OpPutCharForce ch =>
      (1, [], (if room <=? 0 then tail q else q) ++ [ch])
  | OpGet len =>
      (Z.min len (Z.of_nat (length q)), take (Z.to_nat len) q, drop (Z.to_nat len) q)
  | OpGetChar =>
      (Z.min 1 (Z.of_nat (length q)), option_list (head q), tail q)
  | OpDataLen => (Z.of_nat (length q), [], q)
  | OpSpaceLen => (room, [], q)
  end.

(** What a caller of the queue [q] has to see to: the lengths it passes are
    [rt_uint16_t], and what it forces in fits.  (What [rt_ringbuffer_put_force]
    does with more than there is room for is in [put_force_overflow] and
    [put_force_overread].) *)
Definition op_ok (cap : Z) (op : rb_op) (q : list Z) : bool :=
  match op with
  | OpPut data => Z.of_nat (length data) <? 2 ^ 16
  | OpPutForce data => Z.of_nat (length data) <=? cap - Z.of_nat (length q)
  | OpGet len => (0 <=? len) && (len <? 2 ^ 16)
  | _ => true
  end.

(** The condition on a whole sequence, on the states of the queue. *)
Fixpoint ops_ok (cap : Z) (ops : list rb_op) (q : list Z) : bool :=
  match ops with
  | [] => true
  | op :: ops => op_ok cap op q && ops_ok cap ops (queue_exec cap op q).2
  end.

Fixpoint rb_run (ops : list rb_op) (rb : ringbuffer)
  : res (list (Z * list Z) * ringbuffer) :=
  match ops with
  | [] => mret ([], rb)
  | op :: ops =>
      '(n, out, rb1) ← rb_exec op rb;
      '(outs, rb2) ← rb_run ops rb1;
      mret ((n, out) :: outs, rb2)
  end.

Fixpoint queue_run (cap : Z) (ops : list rb_op) (q : list Z)
  : list (Z * list Z) * list Z :=
  match ops with
  | [] => ([], q)
  | op :: ops =>
      let '(n, out, q1) := queue_exec cap op q in
      let '(outs, q2) := queue_run cap ops q1 in
      ((n, out) :: outs, q2)
  end.

Lemma full_room (rb : ringbuffer) :
  full rb = (buffer_size rb - Z.of_nat (length (contents rb)) <=? 0).
Proof. unfold full. destruct (Z.leb_spec (buffer_size rb) (Z.of_nat (length (contents rb)))), (Z.leb_spec (buffer_size rb - Z.of_nat (length (contents rb))) 0); try done; lia. Qed.

Lemma rb_exec_refines (op : rb_op) (rb : ringbuffer) :
  wf rb -> op_ok (buffer_size rb) op (contents rb) = true ->
  exists n out q rb', rb_exec op rb = Ok (n, out, rb') /\
    queue_exec (buffer_size rb) op (contents rb) = (n, out, q) /\ leaves rb q rb'.
Proof.
  intros H Hop. destruct op as [data|data|ch|ch|len| | |]; cbn in Hop |- *; b2p.
  - destruct (rt_ringbuffer_put_ok rb data (Z.of_nat (length data)) H ltac:(lia))
      as (rb' & -> & HL). cbn. eauto 8.
  - destruct (rt_ringbuffer_put_force_fits rb data (Z.of_nat (length data)) H)
      as (rb' & -> & HL); [lia|lia|]. rewrite Nat2Z.id, firstn_all in HL. cbn. eauto 8.
  - destruct (rt_ringbuffer_putchar_ok rb ch H) as (rb' & -> & HL). cbn.
    rewrite full_room in *. case_test; eauto 8.
  - destruct (rt_ringbuffer_putchar_force_ok rb ch H) as (rb' & -> & HL). cbn.
    rewrite full_room in *. eauto 8.
  - destruct (rt_ringbuffer_get_ok rb len H ltac:(lia)) as (rb' & -> & HL). eauto 8.
  - destruct (rt_ringbuffer_getchar_ok rb H) as (rb' & -> & HL). cbn. eauto 8.
  - rewrite (proj1 (data_len_ahead rb H)), <- (length_contents rb H).
    do 4 eexists. split_and!; [done|done|]. by split.
  - rewrite (space_len_ahead rb H), <- (length_contents rb H).
    do 4 eexists. split_and!; [done|done|]. by split.
Qed.

(** C4: every sequence of calls of put, put_force, putchar, putchar_force, get,
    getchar, data_len and space_len on a well-formed ring buffer, where the
    lengths are 16-bit and the data of every put_force fits into the room there
    is at that moment, runs without an access outside the buffer or outside the
    caller's data; its return values, the bytes it hands out and the bytes it
    leaves are those of a first-in first-out queue bounded by the buffer's size.
    (A put_force whose data does not fit breaks both parts of this, see
    [put_force_overflow] and [put_force_overread] below.) *)
Theorem ringbuffer_refines_queue (ops : list rb_op) (rb : ringbuffer) :
  wf rb -> ops_ok (buffer_size rb) ops (contents rb) = true ->
  exists outs rb', rb_run ops rb = Ok (outs, rb') /\ wf rb' /\
    queue_run (buffer_size rb) ops (contents rb) = (outs, contents rb').
Proof.
  revert rb. induction ops as [|op ops IH]; intros rb H Hops; cbn in *.
  { eauto 6. }
  b2p. destruct (rb_exec_refines op rb) as (n & out & q & rb1 & E1 & E2 & Hwf & Hsz & Hq); auto.
  rewrite E2 in *. cbn in *. subst q. rewrite <- Hsz in *.
  destruct (IH rb1) as (outs & rb2 & E3 & Hwf2 & E4); auto.
  rewrite E1. cbn. rewrite E3. cbn. do 2 eexists. split_and!; [done|done|].
  by rewrite E4.
Qed.

Definition demo_rb : ringbuffer :=
  Ringbuffer [10; 20; 30; 40; 50; 60; 70; 80] 0 6 1 2 8.

Lemma demo_rb_wf : wf demo_rb.
Proof. constructor; cbn; lia. Qed.

Definition demo_ops : list rb_op :=
  [OpPut [1; 2; 3; 4; 5; 6]; OpPutCharForce 7; OpGet 5; OpPutForce [8; 9; 10];
   OpDataLen; OpGetChar; OpSpaceLen].

Lemma ringbuffer_refines_queue_witness :
  exists outs rb',
    rb_run demo_ops demo_rb = Ok (outs, rb') /\ wf rb' /\
    queue_run 8 demo_ops [70; 80; 10; 20] = (outs, contents rb').
Proof.
  apply (ringbuffer_refines_queue demo_ops demo_rb); [exact demo_rb_wf|reflexivity].
Defined.

(** ** [put_force] with data that does not fit *)

(** When the data does not fit, [rt_ringbuffer_put_force] always copies a
    whole buffer; the result is the first [buffer_size] bytes of the caller's
    data if the writer had already gone round, and an empty buffer (the new data
    is lost as well as the old) if it had not. *)
Theorem put_force_overflow (rb : ringbuffer) (ptr : list Z) (len : Z) :
  wf rb -> contents rb <> [] ->
  buffer_size rb - Z.of_nat (length (contents rb)) < len < 2 ^ 16 ->
  buffer_size rb <= Z.of_nat (length ptr) ->
  exists rb', rt_ringbuffer_put_force rb ptr len = Ok (buffer_size rb, rb') /\
    contents rb' =
      if read_mirror rb =? write_mirror rb then []
      else take (Z.to_nat (buffer_size rb)) ptr.
Proof.
  intros H Hne Hlen Hp. pose proof (length_contents rb H) as Hc.
  assert (Hpos : 0 < ahead rb) by (destruct (contents rb); [done|simpl in Hc; lia]).
  rewrite Hc in Hlen. wf_facts H. destruct (data_len_ahead rb H) as [_ Hb].
  unfold rt_ringbuffer_put_force. rewrite space_len_ahead, ubits_small by (auto; lia).
  rewrite (proj2 (Z.ltb_lt (buffer_size rb - ahead rb) len)), (ubits_small 16) by lia.
  rewrite (proj2 (Z.ltb_ge (buffer_size rb) _)) by lia.
  destruct (written_wrapped rb (buffer_size rb) ptr) as (p & Hw & ->); [done|lia|lia|].
  cbn. rewrite (proj2 (Z.ltb_lt _ _)) by lia. eexists; split; [done|].
  set (rb' := set_read _ _ _).
  assert (Hwi : write_index rb' = write_index rb /\ read_index rb' = write_index rb).
  { subst rb'. index_norm. lia. }
  assert (Hm : write_mirror rb' = 1 - write_mirror rb /\ read_mirror rb' = 1 - read_mirror rb).
  { subst rb'. index_norm. done. }
  destruct Hwi as [Ew Er], Hm as [Ewm Erm].
  assert (H' : wf rb').
  { constructor; rewrite ?Ew, ?Er, ?Ewm, ?Erm; cbn; rewrite ?(written_length _ _ _ _ Hw); try lia.
    case_test; lia. }
  pose proof (length_contents _ H') as Hc'.
  assert (Ha' : ahead rb' = if read_mirror rb =? write_mirror rb then 0 else buffer_size rb).
  { unfold ahead. rewrite Ew, Er, Ewm, Erm. change (buffer_size rb') with (buffer_size rb).
    repeat case_test; lia. }
  destruct (Z.eqb_spec (read_mirror rb) (write_mirror rb)) as [Em|Em].
  { apply nil_length_inv. lia. }
  apply list_eq_below; [rewrite length_take; lia|]. intros k Hk.
  rewrite lookup_contents, lookup_take_lt by (auto; lia).
  unfold wrap. rewrite Er. change (buffer_size rb') with (buffer_size rb).
  change (buffer_ptr rb') with p.
  rewrite (written_lookup _ _ _ _ Hw) by (case_test; lia).
  unfold write_rank. repeat case_test; try lia; f_equal; lia.
Qed.

Lemma put_force_overflow_witness :
  exists rb', rt_ringbuffer_put_force (Ringbuffer (replicate 8 0) 0 0 0 2 8)
      [1; 2; 3; 4; 5; 6; 7; 8] 7 = Ok (8, rb') /\ contents rb' = [].
Proof.
  apply (put_force_overflow (Ringbuffer (replicate 8 0) 0 0 0 2 8)
    [1; 2; 3; 4; 5; 6; 7; 8] 7); [constructor; cbn; lia|done|by vm_compute|by vm_compute].
Defined.

(** The caller's seven bytes are not enough for the eight that are copied. *)
Example put_force_overread :
  rt_ringbuffer_put_force (Ringbuffer (replicate 8 0) 0 0 0 2 8)
    [1; 2; 3; 4; 5; 6; 7] 7 = Fault.
Proof. reflexivity. Qed.
