(* ===== verification/KService.v ===== *)
(** * Kernel services (Kernel/kservice.c)

    Memory is one list of bytes and an address is an index of it; a C string is
    the list of bytes from its address on, the terminating NUL included.  [char]
    is unsigned on this target.  Reading or writing outside the memory is a
    [Fault]. *)

From S2P Require Import Prelude.

(** ** Memory functions *)

Module Mem.

(** [*dst++ = v] [n] times. *)
Fixpoint fill (n : nat) (m : list Z) (a v : Z) : res (list Z) :=
  match n with
  | O => mret m
  | S n => m ← store_at m a v; fill n m (a + 1) v
  end.

(** A 32-bit store, least significant byte first. *)
Definition store32 (m : list Z) (a w : Z) : res (list Z) :=
  m ← store_at m a (u8 w);
  m ← store_at m (a + 1) (u8 (Z.shiftr w 8));
  m ← store_at m (a + 2) (u8 (Z.shiftr w 16));
  store_at m (a + 3) (u8 (Z.shiftr w 24)).

Fixpoint fill_words (n : nat) (m : list Z) (a w : Z) : res (list Z) :=
  match n with
  | O => mret m
  | S n => m ← store32 m a w; fill_words n m (a + 4) w
  end.

(** The two word loops (four words, then one word at a time) store
    [count / 4] words. *)
Definition rt_memset (m : list Z) (s c count : Z) : res (list Z) :=
  let d := Z.land c 255 in
  if negb (count <? 4) && (Z.land s 3 =? 0) then
    let buffer := Z.lor (u32 (Z.shiftl d 8)) d in
    let buffer := Z.lor buffer (u32 (Z.shiftl buffer 16)) in
    let blocks := 4 * (count / 16) in
    m ← fill_words (Z.to_nat blocks) m s buffer;
    let s := s + 4 * blocks in
    let count := count mod 16 in
    m ← fill_words (Z.to_nat (count / 4)) m s buffer;
    fill (Z.to_nat (count mod 4)) m (s + 4 * (count / 4)) d
  else fill (Z.to_nat count) m s d.

(** [*dst++ = *src++] [n] times. *)
Fixpoint copy_up (n : nat) (m : list Z) (dst src : Z) : res (list Z) :=
  match n with
  | O => mret m
  | S n =>
      v ← load_at m src; m ← store_at m dst v;
      copy_up n m (dst + 1) (src + 1)
  end.

(** The same through 32-bit words: a word is read before it is written. *)
Fixpoint copy_words (n : nat) (m : list Z) (dst src : Z) : res (list Z) :=
  match n with
  | O => mret m
  | S n =>
      m ← memcpy_at m dst m src 4;
      copy_words n m (dst + 4) (src + 4)
  end.

Definition rt_memcpy (m : list Z) (dst src count : Z) : res (list Z) :=
  let len := count in
  if negb (len <? 16) && (Z.lor (Z.land src 3) (Z.land dst 3) =? 0) then
    let blocks := 4 * (len / 16) in
    m ← copy_words (Z.to_nat blocks) m dst src;
    let dst := dst + 4 * blocks in
    let src := src + 4 * blocks in
    let len := len mod 16 in
    m ← copy_words (Z.to_nat (len / 4)) m dst src;
    copy_up (Z.to_nat (len mod 4)) m (dst + 4 * (len / 4)) (src + 4 * (len / 4))
  else copy_up (Z.to_nat len) m dst src.

(** [*(--tmp) = *(--s)] [n] times. *)
Fixpoint copy_down (n : nat) (m : list Z) (tmp s : Z) : res (list Z) :=
  match n with
  | O => mret m
  | S n =>
      v ← load_at m (s - 1); m ← store_at m (tmp - 1) v;
      copy_down n m (tmp - 1) (s - 1)
  end.

Definition rt_memmove (m : list Z) (dest src n : Z) : res (list Z) :=
  if (src <? dest) && (dest <? src + n)
  then copy_down (Z.to_nat n) m (dest + n) (src + n)
  else copy_up (Z.to_nat n) m dest src.

Fixpoint memcmp_loop (cs ct : list Z) (count : nat) (r : Z) {struct count} : res Z :=
  match count with
  | O => mret r
  | S count =>
      match cs, ct with
      | c :: cs, d :: ct => if c - d =? 0 then memcmp_loop cs ct count 0 else mret (c - d)
      | _, _ => Fault
      end
  end.
Definition rt_memcmp (cs ct : list Z) (count : Z) : res Z :=
  memcmp_loop cs ct (Z.to_nat count) 0.

(** *** What they compute *)

(** The memory after the bytes [v] have been written at [a]. *)
Definition wr (m : list Z) (a : Z) (v : list Z) : list Z :=
  list_inserts (Z.to_nat a) v m.

Lemma length_wr (m : list Z) (a : Z) (v : list Z) : length (wr m a v) = length m.
Proof. apply length_inserts. Qed.

Lemma lookup_wr (m : list Z) (a : Z) (v : list Z) (i : Z) :
  0 <= a -> 0 <= i -> a + Z.of_nat (length v) <= Z.of_nat (length m) ->
  wr m a v !! Z.to_nat i =
    if (a <=? i) && (i <? a + Z.of_nat (length v))
    then v !! Z.to_nat (i - a) else m !! Z.to_nat i.
Proof.
  intros. unfold wr. destruct (Z.leb_spec a i); cbn.
  - case_test.
    + rewrite list_lookup_inserts by lia. f_equal. lia.
    + by rewrite list_lookup_inserts_ge by lia.
  - by rewrite list_lookup_inserts_lt by lia.
Qed.

Lemma list_eq_Z (l1 l2 : list Z) :
  length l1 = length l2 ->
  (forall i, 0 <= i < Z.of_nat (length l1) -> l1 !! Z.to_nat i = l2 !! Z.to_nat i) ->
  l1 = l2.
Proof.
  intros Hl H. apply list_eq. intros k.
  destruct (decide (k < length l1)%nat).
  - specialize (H (Z.of_nat k)). rewrite Nat2Z.id in H. apply H. lia.
  - by rewrite !lookup_ge_None_2 by lia.
Qed.

Lemma wr_wr (m : list Z) (a b : Z) (u v : list Z) :
  0 <= a -> b = a + Z.of_nat (length u) ->
  b + Z.of_nat (length v) <= Z.of_nat (length m) ->
  wr (wr m a u) b v = wr m a (u ++ v).
Proof.
  intros Ha -> Hm. apply list_eq_Z; [by rewrite !length_wr|]. intros i Hi.
  rewrite !length_wr in Hi.
  rewrite !lookup_wr by (rewrite ?length_wr, ?length_app; lia). rewrite length_app.
  repeat match goal with |- context [?x <=? ?y] => destruct (Z.leb_spec x y) end;
  repeat match goal with |- context [?x <? ?y] => destruct (Z.ltb_spec x y) end;
  cbn; try lia; try done.
  - rewrite lookup_app_r by lia. f_equal. lia.
  - by rewrite lookup_app_l by lia.
Qed.

Lemma store_wr (m : list Z) (a v : Z) :
  0 <= a < Z.of_nat (length m) -> store_at m a v = Ok (wr m a [v]).
Proof. intros. by rewrite store_at_ok. Qed.

Lemma wr_nil (m : list Z) (a : Z) : wr m a [] = m.
Proof. done. Qed.

Lemma fill_ok (n : nat) (m : list Z) (a v : Z) :
  0 <= a -> a + Z.of_nat n <= Z.of_nat (length m) ->
  fill n m a v = Ok (wr m a (replicate n v)).
Proof.
  revert m a. induction n as [|n IH]; intros m a Ha Hm; cbn -[wr]; [done|].
  rewrite store_wr by lia. cbn -[wr]. rewrite IH by (rewrite ?length_wr; lia).
  by rewrite (wr_wr m a _ [v] (replicate n v)) by (rewrite ?length_replicate; cbn; lia).
Qed.

Definition bytes4 (w : Z) : list Z :=
  [u8 w; u8 (Z.shiftr w 8); u8 (Z.shiftr w 16); u8 (Z.shiftr w 24)].

Lemma store32_ok (m : list Z) (a w : Z) :
  0 <= a -> a + 4 <= Z.of_nat (length m) ->
  store32 m a w = Ok (wr m a (bytes4 w)).
Proof.
  intros Ha Hm. unfold store32.
  rewrite store_wr by lia. cbn -[wr].
  rewrite store_wr by (rewrite length_wr; lia). cbn -[wr].
  rewrite store_wr by (rewrite !length_wr; lia). cbn -[wr].
  rewrite store_wr by (rewrite !length_wr; lia). f_equal.
  rewrite (wr_wr m a _ [_] [_]) by (cbn; lia). cbn [app].
  rewrite (wr_wr m a _ [_; _] [_]) by (cbn; lia). cbn [app].
  by rewrite (wr_wr m a _ [_; _; _] [_]) by (cbn; lia).
Qed.

Lemma fill_words_ok (n : nat) (m : list Z) (a w d : Z) :
  bytes4 w = replicate 4 d ->
  0 <= a -> a + 4 * Z.of_nat n <= Z.of_nat (length m) ->
  fill_words n m a w = Ok (wr m a (replicate (4 * n) d)).
Proof.
  intros Hw. revert m a. induction n as [|n IH]; intros m a Ha Hm; cbn -[wr]; [done|].
  rewrite store32_ok by lia. cbn -[wr replicate].
  rewrite Hw, IH by (rewrite ?length_wr; lia).
  rewrite (wr_wr m a _ (replicate 4 d)) by (rewrite ?length_replicate; lia).
  rewrite <- replicate_add. f_equal. f_equal. change (replicate (4 + 4 * n) d = replicate (S (n + S (n + S (n + S (n + 0))))) d). f_equal. lia.
Qed.

(** The word the code builds holds the byte in each of its four places. *)
Lemma memset_word (d : Z) :
  0 <= d <= 255 ->
  let b := Z.lor (u32 (Z.shiftl d 8)) d in
  bytes4 (Z.lor b (u32 (Z.shiftl b 16))) = replicate 4 d.
Proof.
  intros Hd.
  assert (H : Forall (fun d => let b := Z.lor (u32 (Z.shiftl d 8)) d in
      bytes4 (Z.lor b (u32 (Z.shiftl b 16))) = replicate 4 d) (seqZ 0 256)).
  { apply (bool_decide_eq_true _). vm_compute. done. }
  rewrite Forall_forall in H. apply H, elem_of_seqZ. lia.
Qed.

(** [rt_memset], through its word loops or its byte loop, writes the low
    byte of [c] to each of the [count] bytes and to nothing else. *)
Theorem rt_memset_ok (m : list Z) (s c count : Z) :
  0 <= s -> 0 <= count -> s + count <= Z.of_nat (length m) ->
  rt_memset m s c count = Ok (wr m s (replicate (Z.to_nat count) (u8 c))).
Proof.
  intros Hs Hc Hm. unfold rt_memset.
  change 255 with (Z.ones 8). rewrite Z.land_ones by lia.
  change (c mod 2 ^ 8) with (u8 c). set (d := u8 c).
  assert (Hd : 0 <= d <= 255) by (pose proof (ubits_range 8 c ltac:(lia)); lia).
  case_test; [|by apply fill_ok; lia].
  pose proof (Z.div_mod count 16 ltac:(lia)). pose proof (Z.mod_pos_bound count 16 ltac:(lia)).
  set (q := count / 16) in *. set (r := count mod 16) in *.
  pose proof (Z.div_mod r 4 ltac:(lia)). pose proof (Z.mod_pos_bound r 4 ltac:(lia)).
  set (q2 := r / 4) in *. set (r2 := r mod 4) in *.
  rewrite (fill_words_ok _ _ _ _ d) by (first [by apply memset_word|lia]). cbn -[wr Z.mul].
  rewrite (fill_words_ok _ _ _ _ d)
    by (first [by apply memset_word|rewrite ?length_wr; lia]). cbn -[wr Z.mul].
  rewrite fill_ok by (rewrite ?length_wr; lia). f_equal.
  rewrite wr_wr by (rewrite ?length_wr, ?length_replicate; lia). rewrite <- replicate_add.
  rewrite wr_wr by (rewrite ?length_wr, ?length_replicate; lia). rewrite <- replicate_add.
  do 2 f_equal. lia.
Qed.

Lemma rt_memset_ok_witness :
  rt_memset (replicate 30 7) 4 (-1) 21
    = Ok (replicate 4 7 ++ replicate 21 255 ++ replicate 5 7).
Proof. apply (rt_memset_ok (replicate 30 7) 4 (-1) 21); by vm_compute. Defined.

(** The bytes at [a], [n] of them. *)
Definition rd (m : list Z) (a n : Z) : list Z := slice a n m.

Lemma length_rd (m : list Z) (a n : Z) :
  0 <= a -> 0 <= n -> a + n <= Z.of_nat (length m) -> Z.of_nat (length (rd m a n)) = n.
Proof. intros. apply length_slice, in_bounds_spec. lia. Qed.

Lemma lookup_rd (m : list Z) (a n i : Z) :
  0 <= a -> 0 <= i < n -> rd m a n !! Z.to_nat i = m !! Z.to_nat (a + i).
Proof. intros. unfold rd. rewrite lookup_slice by lia. f_equal. lia. Qed.

(** Reading what a write elsewhere left alone. *)
Lemma rd_wr_disjoint (m : list Z) (a n b : Z) (v : list Z) :
  0 <= a -> 0 <= n -> a + n <= Z.of_nat (length m) ->
  0 <= b -> b + Z.of_nat (length v) <= Z.of_nat (length m) ->
  b + Z.of_nat (length v) <= a \/ a + n <= b ->
  rd (wr m b v) a n = rd m a n.
Proof.
  intros. assert (Hl : Z.of_nat (length (rd (wr m b v) a n)) = n)
    by (apply length_rd; rewrite ?length_wr; lia).
  assert (Z.of_nat (length (rd m a n)) = n) by (apply length_rd; lia).
  apply list_eq_Z; [lia|]. intros i Hi. rewrite !lookup_rd, lookup_wr by lia.
  destruct (Z.leb_spec b (a + i)), (Z.ltb_spec (a + i) (b + Z.of_nat (length v)));
    cbn; try done; lia.
Qed.

Lemma rd_app (m : list Z) (a n k : Z) :
  0 <= a -> 0 <= n -> 0 <= k -> a + n + k <= Z.of_nat (length m) ->
  rd m a (n + k) = rd m a n ++ rd m (a + n) k.
Proof.
  intros. pose proof (length_rd m a n ltac:(lia) ltac:(lia) ltac:(lia)).
  pose proof (length_rd m (a + n) k ltac:(lia) ltac:(lia) ltac:(lia)).
  pose proof (length_rd m a (n + k) ltac:(lia) ltac:(lia) ltac:(lia)).
  apply list_eq_Z; [rewrite length_app; lia|]. intros i Hi.
  rewrite lookup_rd by lia. destruct (Z.lt_ge_cases i n).
  - rewrite lookup_app_l, lookup_rd by lia. done.
  - rewrite lookup_app_r by lia.
    replace (Z.to_nat i - length (rd m a n))%nat with (Z.to_nat (i - n)) by lia.
    rewrite lookup_rd by lia. f_equal. lia.
Qed.

Lemma rd_1 (m : list Z) (a v : Z) :
  0 <= a -> m !! Z.to_nat a = Some v -> rd m a 1 = [v].
Proof.
  intros Ha Hv. unfold rd, slice.
  by rewrite (drop_S m v (Z.to_nat a) Hv).
Qed.

Lemma lookup_Some_lt (m : list Z) (a : Z) :
  0 <= a < Z.of_nat (length m) -> exists v, m !! Z.to_nat a = Some v.
Proof. intros. apply lookup_lt_is_Some. lia. Qed.

Lemma copy_up_ok (n : nat) (m : list Z) (dst src : Z) :
  0 <= dst -> 0 <= src -> dst + Z.of_nat n <= Z.of_nat (length m) ->
  src + Z.of_nat n <= Z.of_nat (length m) ->
  dst <= src \/ src + Z.of_nat n <= dst ->
  copy_up n m dst src = Ok (wr m dst (rd m src (Z.of_nat n))).
Proof.
  revert m dst src. induction n as [|n IH]; intros m dst src ? ? ? ? Hd; [done|].
  cbn -[wr]. destruct (lookup_Some_lt m src) as [v Hv]; [lia|].
  rewrite (load_at_ok _ _ v) by (auto; lia). cbn -[wr].
  rewrite store_wr by lia. cbn -[wr].
  rewrite IH by (rewrite ?length_wr; lia). f_equal.
  rewrite rd_wr_disjoint by (cbn; lia).
  pose proof (length_rd m (src + 1) (Z.of_nat n) ltac:(lia) ltac:(lia) ltac:(lia)).
  rewrite wr_wr by (cbn [length]; lia). f_equal.
  replace (Z.of_nat (S n)) with (1 + Z.of_nat n) by lia.
  rewrite rd_app, (rd_1 _ _ v) by (auto; lia). done.
Qed.

Lemma copy_words_ok (n : nat) (m : list Z) (dst src : Z) :
  0 <= dst -> 0 <= src -> dst + 4 * Z.of_nat n <= Z.of_nat (length m) ->
  src + 4 * Z.of_nat n <= Z.of_nat (length m) ->
  dst + 4 * Z.of_nat n <= src \/ src + 4 * Z.of_nat n <= dst ->
  copy_words n m dst src = Ok (wr m dst (rd m src (4 * Z.of_nat n))).
Proof.
  revert m dst src. induction n as [|n IH]; intros m dst src ? ? ? ? Hd; [done|].
  cbn [copy_words]. rewrite memcpy_at_ok by lia. cbn -[wr Z.mul].
  change (list_inserts (Z.to_nat dst) (slice src 4 m) m) with (wr m dst (rd m src 4)).
  pose proof (length_rd m src 4 ltac:(lia) ltac:(lia) ltac:(lia)).
  rewrite IH by (rewrite ?length_wr; lia). f_equal.
  rewrite rd_wr_disjoint by lia.
  pose proof (length_rd m (src + 4) (4 * Z.of_nat n) ltac:(lia) ltac:(lia) ltac:(lia)).
  rewrite wr_wr by lia. f_equal.
  replace (4 * Z.of_nat (S n)) with (4 + 4 * Z.of_nat n) by lia.
  by rewrite rd_app by lia.
Qed.

Lemma wr_wr_before (m : list Z) (a b : Z) (u : list Z) (v : Z) :
  0 <= a -> b = a + Z.of_nat (length u) -> b < Z.of_nat (length m) ->
  wr (wr m b [v]) a u = wr m a (u ++ [v]).
Proof.
  intros Ha -> Hm. rewrite <- (wr_wr m a (a + Z.of_nat (length u)) u [v]) by (cbn [length]; lia).
  apply list_eq_Z; [by rewrite !length_wr|]. intros i Hi. rewrite !length_wr in Hi.
  rewrite !lookup_wr by (rewrite ?length_wr; cbn [length]; lia). cbn [length].
  repeat match goal with |- context [?x <=? ?y] => destruct (Z.leb_spec x y) end;
  repeat match goal with |- context [?x <? ?y] => destruct (Z.ltb_spec x y) end;
  cbn [andb]; try done; lia.
Qed.

Lemma copy_down_ok (n : nat) (m : list Z) (tmp s : Z) :
  Z.of_nat n <= s <= tmp -> tmp <= Z.of_nat (length m) ->
  copy_down n m tmp s =
    Ok (wr m (tmp - Z.of_nat n) (rd m (s - Z.of_nat n) (Z.of_nat n))).
Proof.
  revert m tmp s. induction n as [|n IH]; intros m tmp s ? ?; [done|].
  cbn -[wr Z.of_nat]. destruct (lookup_Some_lt m (s - 1)) as [v Hv]; [lia|].
  rewrite (load_at_ok _ _ v) by (auto; lia). cbn -[wr Z.of_nat].
  rewrite store_wr by lia. cbn -[wr Z.of_nat].
  rewrite IH by (rewrite ?length_wr; lia). f_equal.
  rewrite rd_wr_disjoint by (cbn [length]; lia).
  pose proof (length_rd m (s - 1 - Z.of_nat n) (Z.of_nat n) ltac:(lia) ltac:(lia) ltac:(lia)).
  rewrite wr_wr_before by lia.
  replace (tmp - Z.of_nat (S n)) with (tmp - 1 - Z.of_nat n) by lia. f_equal.
  replace (Z.of_nat (S n)) with (Z.of_nat n + 1) by lia. rewrite rd_app by lia.
  f_equal; [f_equal; lia|]. symmetry. apply rd_1; [lia|]. rewrite <- Hv. f_equal. lia.
Qed.

Lemma rt_memmove_wr (m : list Z) (dest src n : Z) :
  0 <= dest -> 0 <= src -> 0 <= n ->
  dest + n <= Z.of_nat (length m) -> src + n <= Z.of_nat (length m) ->
  rt_memmove m dest src n = Ok (wr m dest (rd m src n)).
Proof.
  intros. unfold rt_memmove.
  destruct (Z.ltb_spec src dest); cbn [andb].
  - destruct (Z.ltb_spec dest (src + n)).
    + rewrite copy_down_ok by lia. rewrite Z2Nat.id by lia. do 2 f_equal; [lia|].
      f_equal. lia.
    + rewrite copy_up_ok by lia. by rewrite Z2Nat.id by lia.
  - rewrite copy_up_ok by lia. by rewrite Z2Nat.id by lia.
Qed.

(** [rt_memmove] leaves at the destination the bytes the source held before
    the call, whatever the overlap of the two areas, and changes nothing else. *)
Theorem rt_memmove_ok (m : list Z) (dest src n : Z) :
  0 <= dest -> 0 <= src -> 0 <= n ->
  dest + n <= Z.of_nat (length m) -> src + n <= Z.of_nat (length m) ->
  rt_memmove m dest src n = Ok (wr m dest (rd m src n)).
Proof. apply rt_memmove_wr. Qed.

Lemma rt_memmove_ok_witness :
  rt_memmove [1; 2; 3; 4; 5; 6; 7] 2 0 4 = Ok [1; 2; 1; 2; 3; 4; 7].
Proof. apply (rt_memmove_ok [1; 2; 3; 4; 5; 6; 7] 2 0 4); by vm_compute. Defined.

(** [rt_memcpy] on areas that do not overlap, with or without the word
    loops, leaves the source's bytes at the destination. *)
Theorem rt_memcpy_ok (m : list Z) (dst src count : Z) :
  0 <= dst -> 0 <= src -> 0 <= count ->
  dst + count <= Z.of_nat (length m) -> src + count <= Z.of_nat (length m) ->
  dst + count <= src \/ src + count <= dst ->
  rt_memcpy m dst src count = Ok (wr m dst (rd m src count)).
Proof.
  intros ? ? Hc ? ? ?. unfold rt_memcpy. case_test.
  2:{ rewrite copy_up_ok by lia. by rewrite Z2Nat.id by lia. }
  pose proof (Z.div_mod count 16 ltac:(lia)) as D1.
  pose proof (Z.mod_pos_bound count 16 ltac:(lia)).
  set (q := count / 16) in *. set (r := count mod 16) in *.
  pose proof (Z.div_mod r 4 ltac:(lia)) as D2. pose proof (Z.mod_pos_bound r 4 ltac:(lia)).
  set (q2 := r / 4) in *. set (r2 := r mod 4) in *.
  rewrite copy_words_ok by lia. cbn -[wr Z.mul].
  rewrite copy_words_ok by (rewrite ?length_wr; lia). cbn -[wr Z.mul].
  rewrite copy_up_ok by (rewrite ?length_wr; lia). f_equal.
  rewrite !Z2Nat.id by lia.
  pose proof (length_rd m src (4 * (4 * q)) ltac:(lia) ltac:(lia) ltac:(lia)).
  rewrite (rd_wr_disjoint m (src + 4 * (4 * q)) (4 * q2)) by lia.
  pose proof (length_rd m (src + 4 * (4 * q)) (4 * q2) ltac:(lia) ltac:(lia) ltac:(lia)).
  rewrite (wr_wr m dst) by lia. rewrite <- rd_app by lia.
  pose proof (length_rd m src (4 * (4 * q) + 4 * q2) ltac:(lia) ltac:(lia) ltac:(lia)).
  rewrite (rd_wr_disjoint m) by lia.
  pose proof (length_rd m (src + 4 * (4 * q) + 4 * q2) r2 ltac:(lia) ltac:(lia) ltac:(lia)).
  rewrite wr_wr by lia. f_equal.
  replace (src + 4 * (4 * q) + 4 * q2) with (src + (4 * (4 * q) + 4 * q2)) by lia.
  rewrite <- rd_app by lia. f_equal. lia.
Qed.

Lemma rt_memcpy_ok_witness :
  rt_memcpy (seqZ 0 60) 32 4 23 = Ok (seqZ 0 32 ++ seqZ 4 23 ++ seqZ 55 5).
Proof. apply (rt_memcpy_ok (seqZ 0 60) 32 4 23); first [by vm_compute|right; by vm_compute]. Defined.

End Mem.

(** ** Lowest set bit *)

Module Ffs.

Definition bitmap_row (first : Z) : list Z :=
  [first; 0; 1; 0; 2; 0; 1; 0; 3; 0; 1; 0; 2; 0; 1; 0].

Definition __lowest_bit_bitmap : list Z :=
  bitmap_row 0 ++ bitmap_row 4 ++ bitmap_row 5 ++ bitmap_row 4 ++
  bitmap_row 6 ++ bitmap_row 4 ++ bitmap_row 5 ++ bitmap_row 4 ++
  bitmap_row 7 ++ bitmap_row 4 ++ bitmap_row 5 ++ bitmap_row 4 ++
  bitmap_row 6 ++ bitmap_row 4 ++ bitmap_row 5 ++ bitmap_row 4.

Definition lowest_bit (b : Z) : Z := __lowest_bit_bitmap !!! Z.to_nat b.

Definition __rt_ffs (value : Z) : Z :=
  if value =? 0 then 0
  else if negb (Z.land value 0xff =? 0)
  then lowest_bit (Z.land value 0xff) + 1
  else if negb (Z.land value 0xff00 =? 0)
  then lowest_bit (Z.shiftr (Z.land value 0xff00) 8) + 9
  else if negb (Z.land value 0xff0000 =? 0)
  then lowest_bit (Z.shiftr (Z.land value 0xff0000) 16) + 17
  else lowest_bit (Z.shiftr (Z.land value 0xff000000) 24) + 25.

(** [k] is the lowest set bit of [v]. *)
Definition is_lowest (v k : Z) : Prop :=
  0 <= k /\ Z.testbit v k = true /\ forall j, 0 <= j < k -> Z.testbit v j = false.

Lemma is_lowest_unique (v j k : Z) : is_lowest v j -> is_lowest v k -> j = k.
Proof.
  intros (Hj & Tj & Lj) (Hk & Tk & Lk).
  destruct (Z.lt_trichotomy j k) as [H|[H|H]]; [|done|].
  - rewrite Lk in Tj by lia. done.
  - rewrite Lj in Tk by lia. done.
Qed.

Definition lowest_check (b : Z) : bool :=
  let k := lowest_bit b in
  (0 <=? k) && (k <? 8) && Z.testbit b k
  && forallb (fun j => negb (Z.testbit b j)) (seqZ 0 k).

Lemma lowest_bit_table (b : Z) :
  1 <= b <= 255 -> is_lowest b (lowest_bit b) /\ lowest_bit b < 8.
Proof.
  intros Hb.
  assert (H : forallb lowest_check (seqZ 1 255) = true) by (vm_compute; done).
  rewrite forallb_forall in H. specialize (H b).
  unfold lowest_check in H. rewrite !andb_true_iff, forallb_forall in H.
  destruct H as [[[H1 H2] H3] H4]; [apply list_elem_of_In, elem_of_seqZ; lia|].
  b2p. unfold is_lowest. split_and!; [lia|done| |lia]. intros j Hj.
  specialize (H4 j). rewrite negb_true_iff in H4. apply H4, list_elem_of_In, elem_of_seqZ. lia.
Qed.

Lemma byte_at (v s : Z) :
  0 <= s -> Z.shiftr (Z.land v (Z.shiftl 255 s)) s = Z.shiftr v s mod 2 ^ 8.
Proof.
  intros Hs. rewrite Z.shiftr_land, Z.shiftr_shiftl_l, Z.sub_diag, Z.shiftl_0_r by lia.
  change 255 with (Z.ones 8). by rewrite Z.land_ones by lia.
Qed.

Lemma land_byte_zero (v s : Z) :
  0 <= s -> Z.land v (Z.shiftl 255 s) = 0 <-> Z.shiftr v s mod 2 ^ 8 = 0.
Proof.
  intros Hs. rewrite <- byte_at by done. split; [intros ->; apply Z.shiftr_0_l|].
  intros H. apply Z.bits_inj'. intros i Hi. rewrite Z.bits_0, Z.land_spec.
  rewrite Z.shiftl_spec by done. destruct (Z.lt_ge_cases i s).
  { rewrite (Z.testbit_neg_r 255) by lia. by rewrite andb_false_r. }
  assert (T : Z.testbit (Z.shiftr (Z.land v (Z.shiftl 255 s)) s) (i - s) = false)
    by (rewrite H; apply Z.bits_0).
  rewrite Z.shiftr_spec, Z.land_spec, Z.shiftl_spec in T by lia.
  by replace (i - s + s) with i in T by lia.
Qed.

Lemma testbit_byte (v s j : Z) :
  0 <= s -> 0 <= j < 8 -> Z.testbit (Z.shiftr v s mod 2 ^ 8) j = Z.testbit v (j + s).
Proof. intros. rewrite Z.mod_pow2_bits_low, Z.shiftr_spec by lia. done. Qed.

(** A byte whose lower neighbours are zero holds the lowest set bit. *)
Lemma is_lowest_byte (v s : Z) :
  0 <= s -> Z.shiftr v s mod 2 ^ 8 <> 0 ->
  (forall j, 0 <= j < s -> Z.testbit v j = false) ->
  is_lowest v (lowest_bit (Z.shiftr v s mod 2 ^ 8) + s).
Proof.
  intros Hs Hne Hlow.
  pose proof (Z.mod_pos_bound (Z.shiftr v s) (2 ^ 8) ltac:(lia)) as Hb.
  destruct (lowest_bit_table (Z.shiftr v s mod 2 ^ 8)) as [(H1 & H2 & H3) H4]; [lia|].
  unfold is_lowest. split_and!; [lia| |].
  - by rewrite <- testbit_byte by lia.
  - intros j Hj. destruct (Z.lt_ge_cases j s); [apply Hlow; lia|].
    specialize (H3 (j - s) ltac:(lia)). rewrite testbit_byte in H3 by lia.
    by replace (j - s + s) with j in H3 by lia.
Qed.

Lemma zero_byte_bits (v s j : Z) :
  0 <= s -> Z.shiftr v s mod 2 ^ 8 = 0 -> s <= j < s + 8 -> Z.testbit v j = false.
Proof.
  intros Hs H Hj. replace j with (j - s + s) by lia.
  rewrite <- testbit_byte, H by lia. apply Z.bits_0.
Qed.

Lemma ffs_lowest (v : Z) :
  0 <= v < 2 ^ 32 -> v <> 0 -> 1 <= __rt_ffs v <= 32 /\ is_lowest v (__rt_ffs v - 1).
Proof.
  intros Hv Hne. unfold __rt_ffs. destruct (Z.eqb_spec v 0) as [->|_]; [done|].
  assert (R : forall k, is_lowest v k -> k < 32).
  { intros k (Hk & Tk & _). destruct (Z.lt_ge_cases k 32); [done|].
    rewrite Z.bits_above_log2 in Tk; [done|lia|].
    apply Z.log2_lt_pow2; [lia|]. apply (Z.lt_le_trans _ (2 ^ 32)); [lia|].
    apply Z.pow_le_mono_r; lia. }
  assert (G : forall k, is_lowest v k -> 1 <= k + 1 <= 32 /\ is_lowest v (k + 1 - 1)).
  { intros k Hk. pose proof (R k Hk). replace (k + 1 - 1) with k by lia.
    split; [destruct Hk; lia|done]. }
  change 255 with (Z.shiftl 255 0). change 65280 with (Z.shiftl 255 8).
  change 16711680 with (Z.shiftl 255 16). change 4278190080 with (Z.shiftl 255 24).
  pose proof (is_lowest_byte v) as L. pose proof (zero_byte_bits v) as Zb.
  destruct (Z.eqb_spec (Z.land v (Z.shiftl 255 0)) 0) as [E0|E0]; cbn [negb];
    rewrite land_byte_zero in E0 by lia.
  2:{ rewrite <- (Z.shiftr_0_r (Z.land _ _)), byte_at by lia.
      rewrite <- (Z.add_0_r (lowest_bit _)). apply G, L; [lia|done|lia]. }
  destruct (Z.eqb_spec (Z.land v (Z.shiftl 255 8)) 0) as [E1|E1]; cbn [negb];
    rewrite land_byte_zero in E1 by lia.
  2:{ rewrite byte_at by lia. change 9 with (8 + 1). rewrite Z.add_assoc.
      apply G, L; [lia|done|]. intros j Hj. apply (Zb 0); lia. }
  destruct (Z.eqb_spec (Z.land v (Z.shiftl 255 16)) 0) as [E2|E2]; cbn [negb];
    rewrite land_byte_zero in E2 by lia.
  2:{ rewrite byte_at by lia. change 17 with (16 + 1). rewrite Z.add_assoc.
      apply G, L; [lia|done|]. intros j Hj.
      destruct (Z.lt_ge_cases j 8); [apply (Zb 0)|apply (Zb 8)]; lia. }
  rewrite byte_at by lia. change 25 with (24 + 1). rewrite Z.add_assoc.
  assert (B : forall j, 0 <= j < 24 -> Z.testbit v j = false).
  { intros j Hj. destruct (Z.lt_ge_cases j 8); [apply (Zb 0); lia|].
    destruct (Z.lt_ge_cases j 16); [apply (Zb 8)|apply (Zb 16)]; lia. }
  apply G, L; [lia| |done]. intros E3. apply Hne, Z.bits_inj'. intros i Hi.
  rewrite Z.bits_0. destruct (Z.lt_ge_cases i 24); [apply B; lia|].
  destruct (Z.lt_ge_cases i 32); [apply (Zb 24); lia|].
  destruct (Z.testbit v i) eqn:Ti; [|done].
  rewrite Z.bits_above_log2 in Ti; [done|lia|].
  apply Z.log2_lt_pow2; [lia|]. apply (Z.lt_le_trans _ (2 ^ 32)); [lia|].
  apply Z.pow_le_mono_r; lia.
Qed.

(** [__rt_ffs] is 0 for 0, and for every other 32-bit value it is one more
    than the position of the lowest set bit. *)
Theorem rt_ffs_spec (v : Z) :
  0 <= v < 2 ^ 32 ->
  (v = 0 /\ __rt_ffs v = 0) \/
  (v <> 0 /\ 1 <= __rt_ffs v <= 32 /\ is_lowest v (__rt_ffs v - 1)).
Proof.
  intros Hv. destruct (Z.eq_dec v 0) as [->|Hne]; [by left|right].
  by destruct (ffs_lowest v Hv Hne).
Qed.

Lemma rt_ffs_spec_witness :
  0 <= 0x00940000 < 2 ^ 32 /\ __rt_ffs 0x00940000 = 19 /\
  ((0x00940000 = 0 /\ __rt_ffs 0x00940000 = 0) \/
   (0x00940000 <> 0 /\ 1 <= __rt_ffs 0x00940000 <= 32 /\
    is_lowest 0x00940000 (__rt_ffs 0x00940000 - 1))).
Proof. split; [lia|split; [reflexivity|]]. apply (rt_ffs_spec 0x00940000). lia. Defined.

End Ffs.

(** ** Strings

    A string argument is the memory from its first byte on. *)

Module Str.

(** [for (sc = s; *sc != 0; ++sc)] *)
Fixpoint rt_strlen (s : list Z) : res Z :=
  match s with
  | [] => Fault
  | c :: s => if c =? 0 then mret 0 else n ← rt_strlen s; mret (n + 1)
  end.

Fixpoint rt_strcmp (cs ct : list Z) : res Z :=
  match cs, ct with
  | c :: cs, d :: ct =>
      if negb (c =? 0) && (c =? d) then rt_strcmp cs ct else mret (c - d)
  | _, _ => Fault
  end.

(** [__res] is a [signed char]. *)
Fixpoint strncmp_loop (cs ct : list Z) (count : nat) (r : Z) {struct count} : res Z :=
  match count with
  | O => mret r
  | S count =>
      match cs, ct with
      | c :: cs, d :: ct =>
          let r := sbits 8 (c - d) in
          if negb (r =? 0) then mret r
          else if c =? 0 then mret r
          else strncmp_loop cs ct count r
      | _, _ => Fault
      end
  end.
Definition rt_strncmp (cs ct : list Z) (count : Z) : res Z :=
  strncmp_loop cs ct (Z.to_nat count) 0.

Definition lower (c : Z) : Z :=
  if (65 <=? c) && (c <=? 90) then c + (97 - 65) else c.

Fixpoint rt_strcasecmp (a b : list Z) : res Z :=
  match a, b with
  | x :: a, y :: b =>
      let ca := lower (Z.land x 255) in
      let cb := lower (Z.land y 255) in
      if (ca =? cb) && negb (ca =? 0) then rt_strcasecmp a b
      else mret (u32 (ca - cb))
  | _, _ => Fault
  end.

(** The destination is the object [dst]; [d] is the cursor in it. *)
Fixpoint strncpy_loop (n : nat) (dst : list Z) (d : Z) (src : list Z) : res (list Z) :=
  match n with
  | O => mret dst
  | S n =>
      match src with
      | [] => Fault
      | c :: src =>
          dst ← store_at dst d c;
          if c =? 0 then Mem.fill n dst (d + 1) 0
          else strncpy_loop n dst (d + 1) src
      end
  end.
Definition rt_strncpy (dst src : list Z) (n : Z) : res (list Z) :=
  strncpy_loop (Z.to_nat n) dst 0 src.

(** The result is the offset of the occurrence in [s1]. *)
Fixpoint strstr_loop (l1 : nat) (l2 : Z) (s1 s2 : list Z) (off : Z) : res (option Z) :=
  if Z.of_nat l1 <? l2 then mret None else
  r ← Mem.rt_memcmp s1 s2 l2;
  if r =? 0 then mret (Some off) else
  match l1, s1 with
  | S l1, _ :: s1 => strstr_loop l1 l2 s1 s2 (off + 1)
  | _, _ => mret None
  end.

Definition rt_strstr (s1 s2 : list Z) : res (option Z) :=
  l2 ← rt_strlen s2;
  if l2 =? 0 then mret (Some 0) else
  l1 ← rt_strlen s1;
  strstr_loop (Z.to_nat l1) l2 s1 s2 0.

(** *** C strings *)

(** [s] holds the text [t], a NUL and then anything. *)
Definition cstring (t s : list Z) : Prop :=
  Forall (fun c => 1 <= c <= 255) t /\ exists rest, s = t ++ 0 :: rest.

Lemma cstring_cons (c : Z) (t s : list Z) :
  cstring (c :: t) s -> exists s', s = c :: s' /\ 1 <= c <= 255 /\ cstring t s'.
Proof.
  intros [H [rest ->]]. inversion H; subst. eexists. split; [done|]. split; [done|].
  split; [done|eauto].
Qed.

Lemma cstring_nil (s : list Z) : cstring [] s -> exists rest, s = 0 :: rest.
Proof. by intros [_ ?]. Qed.

Lemma rt_strlen_ok (t s : list Z) :
  cstring t s -> rt_strlen s = Ok (Z.of_nat (length t)).
Proof.
  revert s. induction t as [|c t IH]; intros s H.
  - apply cstring_nil in H as [rest ->]. done.
  - apply cstring_cons in H as (s' & -> & Hc & H). cbn -[Z.of_nat].
    test_false. rewrite (IH s' H). cbn -[Z.of_nat]. f_equal. lia.
Qed.

(** Comparison of the first [n] characters, NUL included. *)
Lemma rt_strncmp_zero (a b sa sb : list Z) (n : Z) :
  cstring a sa -> cstring b sb -> 0 <= n ->
  exists r, rt_strncmp sa sb n = Ok r /\
    (r = 0 <-> take (Z.to_nat n) (a ++ [0]) = take (Z.to_nat n) (b ++ [0])).
Proof.
  intros Ha Hb Hn. unfold rt_strncmp. clear Hn. generalize (Z.to_nat n) as k. clear n.
  intros k. revert a b sa sb Ha Hb.
  assert (G : forall a b sa sb r, cstring a sa -> cstring b sb -> r = 0 ->
    exists r', strncmp_loop sa sb k r = Ok r' /\
      (r' = 0 <-> take k (a ++ [0]) = take k (b ++ [0]))); [|intros; by apply G].
  induction k as [|k IH]; intros a b sa sb r Ha Hb Hr; [exists r; split; [reflexivity|split; intros; [reflexivity|exact Hr]]|].
  assert (D : forall c d, 0 <= c <= 255 -> 0 <= d <= 255 -> sbits 8 (c - d) = 0 -> c = d).
  { intros c d ? ?. unfold sbits. change (2 ^ (8 - 1)) with 128. change (2 ^ 8) with 256.
    intros E. pose proof (Z.div_mod (c - d + 128) 256). lia. }
  destruct a as [|x a], b as [|y b].
  - apply cstring_nil in Ha as [? ->], Hb as [? ->]. cbn. eexists; split; [done|].
    rewrite !take_nil. done.
  - apply cstring_nil in Ha as [? ->]. apply cstring_cons in Hb as (? & -> & ? & ?). cbn.
    destruct (Z.eqb_spec (sbits 8 (0 - y)) 0) as [E|E]; [apply D in E; lia|].
    cbn. eexists; split; [done|]. split; [done|]. intros [=]. lia.
  - apply cstring_nil in Hb as [? ->]. apply cstring_cons in Ha as (? & -> & ? & ?). cbn.
    destruct (Z.eqb_spec (sbits 8 (x - 0)) 0) as [E|E]; [apply D in E; lia|].
    cbn. eexists; split; [done|]. split; [done|]. intros [=]. lia.
  - apply cstring_cons in Ha as (sa' & -> & ? & Ha), Hb as (sb' & -> & ? & Hb). cbn.
    destruct (Z.eqb_spec (sbits 8 (x - y)) 0) as [E|E]; cbn.
    + test_false. rewrite E. destruct (IH a b sa' sb' 0 Ha Hb eq_refl) as (r' & -> & Hr').
      apply D in E as ->; [|lia..]. eexists; split; [done|]. rewrite Hr'.
      split; [by intros ->|by intros [=]].
    + eexists; split; [done|]. split; [done|]. intros [= -> _]. rewrite Z.sub_diag in E. done.
Qed.

(** [rt_strncpy] writes exactly [n] bytes of the destination: the text, cut
    at [n] characters, padded with NULs. *)
Theorem rt_strncpy_ok (t src dst : list Z) (n : Z) :
  cstring t src -> 0 <= n <= Z.of_nat (length dst) ->
  rt_strncpy dst src n =
    Ok (Mem.wr dst 0 (take (Z.to_nat n) (t ++ replicate (Z.to_nat n) 0))).
Proof.
  intros Ht Hn. unfold rt_strncpy.
  assert (G : forall k t src dst d, cstring t src -> 0 <= d ->
    d + Z.of_nat k <= Z.of_nat (length dst) ->
    strncpy_loop k dst d src = Ok (Mem.wr dst d (take k (t ++ replicate k 0)))).
  2:{ rewrite (G _ t) by (auto; lia). done. }
  clear. induction k as [|k IH]; intros t src dst d Ht Hd Hl; [done|].
  destruct t as [|c t].
  - apply cstring_nil in Ht as [rest ->]. cbn -[Mem.wr].
    rewrite Mem.store_wr by lia. cbn -[Mem.wr].
    rewrite Mem.fill_ok by (rewrite ?Mem.length_wr; lia).
    rewrite (Mem.wr_wr dst d _ [0]) by (rewrite ?length_replicate; cbn [length]; lia).
    cbn. by rewrite take_replicate, Nat.min_id.
  - apply cstring_cons in Ht as (s' & -> & Hc & Ht). cbn -[Mem.wr replicate].
    rewrite Mem.store_wr by lia. cbn -[Mem.wr replicate]. test_false.
    rewrite (IH t) by (rewrite ?Mem.length_wr; auto; lia).
    assert (El : length (take k (t ++ replicate k 0)) = k).
    { rewrite length_take, length_app, length_replicate. lia. }
    rewrite (Mem.wr_wr dst d _ [c]) by (rewrite ?El; cbn [length]; lia).
    do 2 f_equal. cbn [app take]. f_equal. rewrite replicate_S_end.
    rewrite app_assoc, (take_app_le (t ++ replicate k 0)); [done|].
    rewrite length_app, length_replicate. lia.
Qed.

Lemma rt_strncpy_ok_witness :
  rt_strncpy (replicate 10 9) [116; 105; 100; 0; 77] 8
    = Ok [116; 105; 100; 0; 0; 0; 0; 0; 9; 9].
Proof.
  apply (rt_strncpy_ok [116; 105; 100] [116; 105; 100; 0; 77] (replicate 10 9) 8).
  - split; [repeat constructor; lia|by exists [77]].
  - cbn. lia.
Defined.

Lemma cstring_drop (k : nat) (t s : list Z) :
  (k <= length t)%nat -> cstring t s -> cstring (drop k t) (drop k s).
Proof.
  intros Hk [Ht [r ->]]. split; [by apply Forall_drop|]. exists r. by rewrite drop_app_le.
Qed.

Lemma strncmp_prefix_of (a b sa sb : list Z) :
  cstring a sa -> cstring b sb ->
  exists r, rt_strncmp sa sb (Z.of_nat (length a)) = Ok r /\ (r = 0 <-> a `prefix_of` b).
Proof.
  intros Ha Hb. destruct (rt_strncmp_zero a b sa sb (Z.of_nat (length a)) Ha Hb) as (r & E & Hr); [lia|].
  exists r. split; [done|]. rewrite Hr, Nat2Z.id, take_app_length. split.
  - intros E'. destruct (decide (length a <= length b)%nat) as [L|L].
    + rewrite take_app_le in E' by done. exists (drop (length a) b). rewrite E' at 1. by rewrite take_drop.
    + exfalso. assert (X : (0 : Z) ∈ a).
      { rewrite E'. apply list_elem_of_lookup. exists (length b).
        rewrite lookup_take_lt by lia. by rewrite list_lookup_middle. }
      destruct Ha as [Fa _]. rewrite Forall_forall in Fa. specialize (Fa 0 X). cbn in Fa. lia.
  - intros [c ->]. rewrite <- app_assoc. by rewrite take_app_length.
Qed.

End Str.
