(* ===== verification/Printf.v ===== *)
(** * Formatted output (Kernel/kservice.c)

    [rt_vsnprintf] and what it calls, for the configuration of the source:
    [RT_PRINTF_PRECISION] is defined, [RT_PRINTF_LONGLONG] and
    [RT_PRINTF_SPECIAL] are not.  A pointer into the buffer is its offset; the
    addresses of the characters written or counted do not wrap around. *)

From Stdlib Require Import Lia.
From S2P Require Import Prelude KService.

(** ** Characters and flags *)

Definition isdigit (c : Z) : bool := u32 (c - 48) <? 10.

Definition ZEROPAD : Z := 1.
Definition SIGN : Z := 2.
Definition PLUS : Z := 4.
Definition SPACE : Z := 8.
Definition LEFT : Z := 16.
Definition SPECIAL : Z := 32.
Definition LARGE : Z := 64.

Definition has (flags f : Z) : bool := negb (Z.land flags f =? 0).

(** [divide]: the digit and the new value of [*n]. *)
Definition divide (n base : Z) : Z * Z :=
  if base =? 10 then (u32 n mod 10, u32 n / 10) else (u32 n mod 16, u32 n / 16).

(** The digits at [*s], and where the pointer is afterwards. *)
Fixpoint skip_atoi (s : list Z) (i : Z) : res (Z * list Z) :=
  match s with
  | [] => Fault
  | c :: s' => if isdigit c then skip_atoi s' (s32 (i * 10 + c - 48)) else mret (i, s)
  end.

Definition small_digits : list Z :=
  [48; 49; 50; 51; 52; 53; 54; 55; 56; 57; 97; 98; 99; 100; 101; 102].
Definition large_digits : list Z :=
  [48; 49; 50; 51; 52; 53; 54; 55; 56; 57; 65; 66; 67; 68; 69; 70].

(** [while (num != 0) tmp[i++] = digits[divide(&num, base)]] with [room] bytes of
    [tmp] left; the digits come out the last one first. *)
Fixpoint number_digits (room : nat) (digits : list Z) (num base : Z) : res (list Z) :=
  if num =? 0 then mret [] else
  match room with
  | O => Fault
  | S room =>
      let '(d, num) := divide num base in
      c ← load_at digits d;
      rest ← number_digits room digits num base;
      mret (c :: rest)
  end.

(** ** The buffer *)

(** The bytes of the buffer, and the offset of [str]. *)
Record sink := Sink { o_mem : list Z; o_str : Z }.

Section Output.
(** The offset of [end]. *)
Variable last : Z.

(** [if (str <= end) *str = c; ++str] *)
Definition emit (c : Z) : ST sink unit :=
  str ← gets o_str;
  mem ← gets o_mem;
  mem ← (if str <=? last then lift (store_at mem str c) else mret mem);
  modify (fun _ => Sink mem (str + 1)).

Fixpoint emit_all (l : list Z) : ST sink unit :=
  match l with
  | [] => mret tt
  | c :: l => _ ← emit c; emit_all l
  end.

(** [while (size-- > 0)] with a character each time; the value of [size] behind
    the loop. *)
Definition pad (size c : Z) : ST sink Z :=
  _ ← emit_all (replicate (Z.to_nat size) c); mret (Z.min size 0 - 1).

Definition print_number (num base s precision type : Z) : ST sink unit :=
  let size := s in
  let digits := if has type LARGE then large_digits else small_digits in
  let type := if has type LEFT then Z.ldiff type ZEROPAD else type in
  let c := if has type ZEROPAD then 48 else 32 in
  let sign :=
    if has type SIGN then
      if num <? 0 then 45
      else if has type PLUS then 43
      else if has type SPACE then 32 else 0
    else 0 in
  let num := if has type SIGN && (num <? 0) then s32 (- num) else num in
  tmp ← (if num =? 0 then mret [48] else lift (number_digits 16 digits num base));
  let i := Z.of_nat (length tmp) in
  let precision := if precision <? i then i else precision in
  let size := size - precision in
  size ← (if negb (has type (Z.lor ZEROPAD LEFT)) then
            pad (if negb (sign =? 0) && (0 <? size) then size - 1 else size) 32
          else mret size);
  str ← gets o_str;
  size ← (if negb (sign =? 0) then
            _ ← emit sign; mret (if str <=? last then size - 1 else size)
          else mret size);
  size ← (if negb (has type LEFT) then pad size c else mret size);
  _ ← emit_all (replicate (Z.to_nat (precision - i)) 48);
  _ ← emit_all (rev tmp);
  _ ← pad size 32;
  mret tt.

End Output.

(** ** Formats *)

(** What a variable argument holds: a word, or a pointer to a string ([None] for
    [RT_NULL]). *)
Inductive arg :=
| AWord (w : Z)
| AStr (s : option (list Z)).

Definition va_int (args : list arg) : res (Z * list arg) :=
  match args with AWord w :: args => mret (s32 w, args) | _ => Fault end.
Definition va_uint (args : list arg) : res (Z * list arg) :=
  match args with AWord w :: args => mret (u32 w, args) | _ => Fault end.
Definition va_str (args : list arg) : res (option (list Z) * list arg) :=
  match args with AStr s :: args => mret (s, args) | _ => Fault end.

Definition NULL_text : list Z := [40; 78; 85; 76; 76; 41; 0].

Fixpoint parse_flags (fmt : list Z) (flags : Z) : res (Z * list Z) :=
  match fmt with
  | [] => Fault
  | c :: fmt' =>
      if c =? 45 then parse_flags fmt' (Z.lor flags LEFT)
      else if c =? 43 then parse_flags fmt' (Z.lor flags PLUS)
      else if c =? 32 then parse_flags fmt' (Z.lor flags SPACE)
      else if c =? 35 then parse_flags fmt' (Z.lor flags SPECIAL)
      else if c =? 48 then parse_flags fmt' (Z.lor flags ZEROPAD)
      else mret (flags, fmt)
  end.

(** The character [*fmt]. *)
Definition peek (fmt : list Z) : res Z := match fmt with [] => Fault | c :: _ => mret c end.

Definition parse_width (fmt : list Z) (flags : Z) (args : list arg)
  : res (Z * Z * list Z * list arg) :=
  c ← peek fmt;
  if isdigit c then '(w, fmt) ← skip_atoi fmt 0; mret (w, flags, fmt, args)
  else if c =? 42 then
    '(w, args) ← va_int args;
    if w <? 0 then mret (s32 (- w), Z.lor flags LEFT, tail fmt, args)
    else mret (w, flags, tail fmt, args)
  else mret (-1, flags, fmt, args).

Definition parse_precision (fmt : list Z) (args : list arg) : res (Z * list Z * list arg) :=
  c ← peek fmt;
  if c =? 46 then
    let fmt := tail fmt in
    c ← peek fmt;
    '(p, fmt, args) ← (if isdigit c then '(p, fmt) ← skip_atoi fmt 0; mret (p, fmt, args)
                       else if c =? 42 then '(p, args) ← va_int args; mret (p, tail fmt, args)
                       else mret (-1, fmt, args));
    mret (if p <? 0 then 0 else p, fmt, args)
  else mret (-1, fmt, args).

Definition parse_qualifier (fmt : list Z) : res (Z * list Z) :=
  c ← peek fmt;
  if (c =? 104) || (c =? 108) then mret (c, tail fmt) else mret (0, fmt).

(** The argument of an integer conversion, as the [long] parameter. *)
Definition int_arg (qualifier flags : Z) (args : list arg) : res (Z * list arg) :=
  '(w, args) ← va_uint args;
  let num :=
    if qualifier =? 104 then
      if has flags SIGN then s16 (u16 w) else u16 w
    else w in
  mret (s32 num, args).

(** A conversion with its flags, width and precision. *)
Inductive directive :=
| DChar (c : Z) (width flags : Z)
| DText (s : list Z) (len width flags : Z)
| DNumber (num base width precision flags : Z)
| DPercent
| DOther (c : Z).

(** The conversion at [fmt]: what is printed, where [fmt] is when the next round
    starts, and the arguments left. *)
Definition conversion (fmt : list Z) (flags width precision qualifier : Z) (args : list arg)
  : res (directive * list Z * list arg) :=
  c ← peek fmt;
  let number base flags :=
    '(num, args) ← int_arg qualifier flags args;
    mret (DNumber num base width precision flags, tail fmt, args) in
  if c =? 99 then '(w, args) ← va_int args; mret (DChar (u8 w) width flags, tail fmt, args)
  else if c =? 115 then
    '(s, args) ← va_str args;
    let s := default NULL_text s in
    len ← Str.rt_strlen s;
    let len := if (0 <? precision) && (precision <? len) then precision else len in
    mret (DText s len width flags, tail fmt, args)
  else if c =? 112 then
    '(w, args) ← va_uint args;
    mret (if width =? -1 then DNumber (s32 w) 16 8 precision (Z.lor flags ZEROPAD)
          else DNumber (s32 w) 16 width precision flags, tail fmt, args)
  else if c =? 37 then mret (DPercent, tail fmt, args)
  else if c =? 111 then number 8 flags
  else if c =? 88 then number 16 (Z.lor flags LARGE)
  else if c =? 120 then number 16 flags
  else if (c =? 100) || (c =? 105) then number 10 (Z.lor flags SIGN)
  else if c =? 117 then number 10 flags
  else mret (DOther c, if c =? 0 then fmt else tail fmt, args).

(** Behind a [%]. *)
Definition parse_directive (fmt : list Z) (args : list arg) : res (directive * list Z * list arg) :=
  '(flags, fmt) ← parse_flags fmt 0;
  '(width, flags, fmt, args) ← parse_width fmt flags args;
  '(precision, fmt, args) ← parse_precision fmt args;
  '(qualifier, fmt) ← parse_qualifier fmt;
  conversion fmt flags width precision qualifier args.

Section Print.
Variable last : Z.

Definition print_directive (d : directive) : ST sink unit :=
  match d with
  | DChar c width flags =>
      width ← (if negb (has flags LEFT) then
                 n ← pad last (width - 1) 32; mret (n + 1) else mret width);
      _ ← emit last c;
      _ ← pad last (width - 1) 32;
      mret tt
  | DText s len width flags =>
      width ← (if negb (has flags LEFT) then
                 n ← pad last (width - len) 32; mret (n + len) else mret width);
      _ ← emit_all last (take (Z.to_nat len) s);
      _ ← pad last (width - len) 32;
      mret tt
  | DNumber num base width precision flags => print_number last num base width precision flags
  | DPercent => emit last 37
  | DOther c => _ ← emit last 37; if c =? 0 then mret tt else emit last c
  end.

(** [fuel] bounds the number of rounds; every round uses a character. *)
Fixpoint format_loop (fuel : nat) (fmt : list Z) (args : list arg) : ST sink unit :=
  c ← lift (peek fmt);
  if c =? 0 then mret tt else
  match fuel with
  | O => hang
  | S fuel =>
      if negb (c =? 37) then _ ← emit last c; format_loop fuel (tail fmt) args
      else
        '(d, fmt, args) ← lift (parse_directive (tail fmt) args);
        _ ← print_directive d;
        format_loop fuel fmt args
  end.

End Print.

(** [buf] is the address of the buffer, [mem] the bytes there; the result is the
    value returned and the bytes afterwards. *)
Definition rt_vsnprintf (buf : Z) (mem : list Z) (size : Z) (fmt : list Z) (args : list arg)
  : res (Z * list Z) :=
  let last := u32 (buf + size - 1) in
  let last := if last <? buf then 2 ^ 32 - 1 - buf else last - buf in
  '(_, s) ← format_loop last (length fmt) fmt args (Sink mem 0);
  mem ← store_at (o_mem s) (if o_str s <=? last then o_str s else last) 0;
  mret (o_str s, mem).

Definition rt_snprintf (buf : Z) (mem : list Z) (size : Z) (fmt : list Z) (args : list arg)
  : res (Z * list Z) := rt_vsnprintf buf mem size fmt args.
Definition rt_vsprintf (buf : Z) (mem : list Z) (fmt : list Z) (args : list arg)
  : res (Z * list Z) := rt_vsnprintf buf mem (2 ^ 32 - 1) fmt args.
Definition rt_sprintf (buf : Z) (mem : list Z) (fmt : list Z) (args : list arg)
  : res (Z * list Z) := rt_vsprintf buf mem fmt args.

(** [rt_kprintf]: the bytes that go to the console device, and the log buffer
    afterwards; [addr] is the address of the buffer. *)
Definition RT_CONSOLEBUF_SIZE : Z := 128.
Definition rt_kprintf (addr : Z) (rt_log_buf : list Z) (fmt : list Z) (args : list arg)
  : res (list Z * list Z) :=
  '(n, rt_log_buf) ← rt_vsnprintf addr rt_log_buf (RT_CONSOLEBUF_SIZE - 1) fmt args;
  let length := if RT_CONSOLEBUF_SIZE - 1 <? u32 n then RT_CONSOLEBUF_SIZE - 1 else u32 n in
  mret (take (Z.to_nat length) rt_log_buf, rt_log_buf).

(** ** The text a format stands for *)

(** The digits of [m] in base [b], the first one first. *)
Fixpoint radix (room : nat) (b m : Z) : list Z :=
  match room with
  | O => []
  | S room => if m <? b then [m] else radix room b (m / b) ++ [m mod b]
  end.

Definition digit_char (large : bool) (d : Z) : Z := if d <? 10 then 48 + d else (if large then 55 else 87) + d.

Definition spaces (n : Z) : list Z := replicate (Z.to_nat n) 32.
Definition zeros (n : Z) : list Z := replicate (Z.to_nat n) 48.

(** The base [divide] uses. *)
Definition radix_of (base : Z) : Z := if base =? 10 then 10 else 16.

Definition number_text (num base width precision flags : Z) : list Z :=
  let negative := has flags SIGN && (num <? 0) in
  let magnitude := if negative then - num else u32 num in
  let sign := if negative then [45]
    else if has flags SIGN && has flags PLUS then [43]
    else if has flags SIGN && has flags SPACE then [32] else [] in
  let digits := map (digit_char (has flags LARGE)) (radix 16 (radix_of base) magnitude) in
  let body := zeros (precision - Z.of_nat (length digits)) ++ digits in
  let fill := width - Z.of_nat (length body) - Z.of_nat (length sign) in
  if has flags LEFT then sign ++ body ++ spaces fill
  else if has flags ZEROPAD then sign ++ zeros fill ++ body
  else spaces fill ++ sign ++ body.

Definition directive_text (d : directive) : list Z :=
  match d with
  | DChar c width flags =>
      if has flags LEFT then c :: spaces (width - 1) else spaces (width - 1) ++ [c]
  | DText s len width flags =>
      let t := take (Z.to_nat len) s in
      if has flags LEFT then t ++ spaces (width - len) else spaces (width - len) ++ t
  | DNumber num base width precision flags => number_text num base width precision flags
  | DPercent => [37]
  | DOther c => if c =? 0 then [37] else [37; c]
  end.

Fixpoint text_loop (fuel : nat) (fmt : list Z) (args : list arg) : res (list Z) :=
  c ← peek fmt;
  if c =? 0 then mret [] else
  match fuel with
  | O => AssertFail
  | S fuel =>
      if negb (c =? 37) then t ← text_loop fuel (tail fmt) args; mret (c :: t)
      else
        '(d, fmt, args) ← parse_directive (tail fmt) args;
        t ← text_loop fuel fmt args;
        mret (directive_text d ++ t)
  end.

Definition format_text (fmt : list Z) (args : list arg) : res (list Z) :=
  text_loop (length fmt) fmt args.

(** What [rt_kprintf] sends for a text: the log buffer takes 126 characters, and the NUL
    behind them goes to the device too when the text is longer. *)
Definition console_text (text : list Z) : list Z :=
  if Z.of_nat (length text) <=? RT_CONSOLEBUF_SIZE - 2 then text
  else take (Z.to_nat (RT_CONSOLEBUF_SIZE - 2)) text ++ [0].

Example format_small : format_text [97; 37; 53; 46; 51; 100; 37; 115; 33; 0] [AWord (2 ^ 32 - 42); AStr (Some [120; 121; 0])]
  = Ok [97; 32; 45; 48; 52; 50; 120; 121; 33].
Proof. reflexivity. Qed.
Example vsnprintf_small :
  rt_vsnprintf 0x20000000 (replicate 12 7) 6 [97; 37; 53; 46; 51; 100; 37; 115; 33; 0] [AWord (2 ^ 32 - 42); AStr (Some [120; 121; 0])]
  = Ok (9, [97; 32; 45; 48; 52; 0; 7; 7; 7; 7; 7; 7]).
Proof. reflexivity. Qed.

(** ** What reaches the buffer *)

Section Buffer.
Variable last : Z.

(** The state after the characters [l]. *)
Definition put (l : list Z) (s : sink) : sink :=
  Sink (Mem.wr (o_mem s) (o_str s) (take (Z.to_nat (last + 1 - o_str s)) l))
    (o_str s + Z.of_nat (length l)).

Definition has_room (s : sink) : Prop := 0 <= o_str s /\ 0 <= last < Z.of_nat (length (o_mem s)).

Lemma put_nil (s : sink) : put [] s = s.
Proof. destruct s. unfold put. cbn. by rewrite take_nil, Mem.wr_nil, Z.add_0_r. Qed.

Lemma put_room (l : list Z) (s : sink) : has_room s -> has_room (put l s).
Proof. unfold has_room, put. cbn. rewrite Mem.length_wr. lia. Qed.

Lemma put_app (l1 l2 : list Z) (s : sink) :
  has_room s -> put (l1 ++ l2) s = put l2 (put l1 s).
Proof.
  intros [H1 H2]. unfold put. cbn. rewrite length_app. f_equal; [|lia].
  rewrite take_app.
  destruct (Z.le_gt_cases (o_str s + Z.of_nat (length l1)) (last + 1)) as [H|H].
  - rewrite (take_ge l1) by lia. rewrite Mem.wr_wr; [|lia|lia|rewrite length_take; lia].
    do 3 f_equal. lia.
  - replace (Z.to_nat (last + 1 - (o_str s + Z.of_nat (length l1)))) with 0%nat by lia.
    replace (Z.to_nat (last + 1 - o_str s) - length l1)%nat with 0%nat by lia.
    by rewrite !take_0, app_nil_r, Mem.wr_nil.
Qed.

Lemma emit_put (c : Z) (s : sink) : has_room s -> emit last c s = Ok (tt, put [c] s).
Proof.
  intros [H1 H2]. destruct s as [mem str]. cbn in *. unfold emit, put, gets, modify, lift, mbind, ST_bind. cbn -[Z.leb].
  case_test.
  - rewrite Mem.store_wr by lia. cbn. rewrite take_ge by (cbn; lia). done.
  - replace (Z.to_nat (last + 1 - str)) with 0%nat by lia. done.
Qed.

Lemma emit_all_put (l : list Z) (s : sink) : has_room s -> emit_all last l s = Ok (tt, put l s).
Proof.
  revert s. induction l as [|c l IH]; intros s R; cbn [emit_all]; [by rewrite put_nil|].
  unfold mbind, ST_bind. rewrite emit_put by done. rewrite IH by (by apply put_room).
  by rewrite <- put_app.
Qed.

Lemma pad_put (size c : Z) (s : sink) :
  has_room s ->
  pad last size c s = Ok (Z.min size 0 - 1, put (replicate (Z.to_nat size) c) s).
Proof. intros R. unfold pad, mbind, ST_bind. by rewrite emit_all_put. Qed.

Lemma wp_emit_all (l : list Z) (Q : unit -> sink -> Prop) (s : sink) :
  has_room s -> Q tt (put l s) -> wp (emit_all last l) Q s.
Proof. intros R H. by eapply wp_intro; [apply emit_all_put|]. Qed.

Lemma wp_emit (c : Z) (Q : unit -> sink -> Prop) (s : sink) :
  has_room s -> Q tt (put [c] s) -> wp (emit last c) Q s.
Proof. intros R H. by eapply wp_intro; [apply emit_put|]. Qed.

Lemma wp_pad (size c : Z) (Q : Z -> sink -> Prop) (s : sink) :
  has_room s -> Q (Z.min size 0 - 1) (put (replicate (Z.to_nat size) c) s) ->
  wp (pad last size c) Q s.
Proof. intros R H. by eapply wp_intro; [apply pad_put|]. Qed.

End Buffer.

(** Runs the next statement. *)
Ltac ostep :=
  lazymatch goal with
  | |- wp (mret _) _ _ => apply wp_ret
  | |- wp (mbind _ _) _ _ => apply wp_bind
  | |- wp (gets _) _ _ => apply wp_gets
  | |- wp (emit_all _ _) _ _ => apply wp_emit_all; [by repeat apply put_room|]
  | |- wp (emit _ _) _ _ => apply wp_emit; [by repeat apply put_room|]
  | |- wp (pad _ _ _) _ _ => apply wp_pad; [by repeat apply put_room|]
  end.

(** ** Digits *)

Lemma load_digit (large : bool) (d : Z) :
  0 <= d < 16 -> load_at (if large then large_digits else small_digits) d = Ok (digit_char large d).
Proof.
  intros Hd. assert (In d (seqZ 0 16)) as H by (apply list_elem_of_In, elem_of_seqZ; lia).
  vm_compute in H. repeat (destruct H as [<-|H]; [by destruct large|]). done.
Qed.

Lemma radix_of_pos (base : Z) : radix_of base = 10 \/ radix_of base = 16.
Proof. unfold radix_of. case_test; auto. Qed.

Lemma divide_ok (m base : Z) :
  0 <= m < 2 ^ 32 -> divide m base = (m mod radix_of base, m / radix_of base).
Proof. intros H. unfold divide, radix_of. rewrite (ubits_small 32) by done. by case_test. Qed.

Lemma number_digits_ok (room : nat) (large : bool) (m base : Z) :
  0 < m < 2 ^ 32 -> m < radix_of base ^ Z.of_nat room ->
  number_digits room (if large then large_digits else small_digits) m base =
    Ok (rev (map (digit_char large) (radix room (radix_of base) m))).
Proof.
  set (b := radix_of base). assert (Hb : 2 <= b <= 16) by (destruct (radix_of_pos base); lia).
  revert m. induction room as [|room IH]; intros m Hm Hr; cbn [number_digits radix].
  { cbn in Hr. lia. }
  rewrite Nat2Z.inj_succ, Z.pow_succ_r in Hr by lia.
  pose proof (Z.mod_pos_bound m b). pose proof (Z.div_mod m b).
  test_false. rewrite divide_ok by lia. fold b. cbn.
  rewrite load_digit by lia. cbn -[Z.ltb digit_char]. destruct (Z.ltb_spec m b).
  - rewrite Z.div_small, Z.mod_small by lia. by destruct room.
  - assert (0 < m / b) by (apply Z.div_str_pos; lia).
    assert (m / b <= m) by (apply Z.div_le_upper_bound; [lia|];
      replace m with (1 * m) at 1 by lia; apply Z.mul_le_mono_nonneg_r; lia).
    rewrite IH; [|lia|apply Z.div_lt_upper_bound; lia].
    cbn. by rewrite map_app, rev_app_distr.
Qed.

Lemma number_digits_signed (room : nat) (digits : list Z) (num base : Z) :
  - 2 ^ 31 <= num < 2 ^ 32 ->
  number_digits room digits num base = number_digits room digits (u32 num) base.
Proof.
  intros H. assert (E : u32 num = num \/ num < 0 /\ u32 num = num + 2 ^ 32).
  { unfold ubits. destruct (Z.lt_ge_cases num 0); [right|left; apply Z.mod_small; lia].
    split; [done|]. rewrite <- (Z.mod_add num 1) by lia. apply Z.mod_small. lia. }
  destruct E as [->|[Hn E]]; [done|].
  destruct room; cbn [number_digits]; rewrite E.
  - by rewrite !(proj2 (Z.eqb_neq _ 0)) by lia.
  - rewrite !(proj2 (Z.eqb_neq _ 0)) by lia. rewrite <- E. unfold divide.
    by rewrite (ubits_small 32 (u32 num)) by apply (ubits_range 32 num ltac:(lia)).
Qed.

Lemma radix_nonempty (room : nat) (b m : Z) : radix (S room) b m <> [].
Proof. cbn. case_test; [done|]. intros E. by apply app_nil in E as [_ ?]. Qed.

(** ** Flags *)

Lemma has_lor (x f g : Z) : has x (Z.lor f g) = has x f || has x g.
Proof.
  unfold has. rewrite Z.land_lor_distr_r, <- negb_andb. f_equal.
  destruct (Z.eqb_spec (Z.lor (Z.land x f) (Z.land x g)) 0) as [E|E].
  - apply Z.lor_eq_0_iff in E as [-> ->]. done.
  - symmetry. apply andb_false_iff. rewrite !Z.eqb_neq.
    destruct (Z.eq_dec (Z.land x f) 0) as [E1|]; [|by left].
    right. intros E2. apply E. by rewrite E1, E2.
Qed.

Lemma has_ldiff (x f g : Z) : has (Z.ldiff x f) g = has x (Z.ldiff g f).
Proof.
  unfold has. do 2 f_equal. apply Z.bits_inj'. intros n Hn.
  rewrite !Z.land_spec, !Z.ldiff_spec. destruct (Z.testbit x n), (Z.testbit f n), (Z.testbit g n); done.
Qed.

(** The flags once a left-justified number is not padded with zeros. *)
Lemma has_cleared (flags f : Z) :
  f = SIGN \/ f = PLUS \/ f = SPACE \/ f = LEFT \/ f = LARGE ->
  has (if has flags LEFT then Z.ldiff flags ZEROPAD else flags) f = has flags f.
Proof. intros H. destruct (has flags LEFT); [|done]. rewrite has_ldiff. by intuition subst. Qed.

Lemma has_zeropad (flags : Z) :
  has (if has flags LEFT then Z.ldiff flags ZEROPAD else flags) ZEROPAD =
    has flags ZEROPAD && negb (has flags LEFT).
Proof.
  destruct (has flags LEFT); cbn; [|by rewrite andb_true_r].
  rewrite has_ldiff, andb_false_r. unfold has. by rewrite Z.land_0_r.
Qed.

(** ** Two runs that differ only behind the end of the buffer *)

Section Agree.
Variable last : Z.

Definition agrees (s s' : sink) : Prop :=
  o_mem s = o_mem s' /\ o_str s' <= o_str s /\ (o_str s' <= last + 1 -> s = s').

Lemma agrees_refl (s : sink) : agrees s s.
Proof. done. Qed.

Lemma agrees_put (l : list Z) (s s' : sink) : agrees s s' -> agrees (put last l s) (put last l s').
Proof.
  intros (E1 & E2 & E3). destruct (Z.le_gt_cases (o_str s') (last + 1)) as [H|H].
  - by rewrite E3.
  - unfold agrees, put. cbn. rewrite E1.
    replace (Z.to_nat (last + 1 - o_str s)) with 0%nat by lia.
    replace (Z.to_nat (last + 1 - o_str s')) with 0%nat by lia.
    rewrite take_0, !Mem.wr_nil. split; [done|]. split; [lia|]. lia.
Qed.

Lemma agrees_trans (s s1 s2 : sink) : agrees s s1 -> agrees s1 s2 -> agrees s s2.
Proof.
  intros (E1 & E2 & E3) (F1 & F2 & F3). split; [congruence|]. split; [lia|].
  intros H. rewrite F3 in E3 by done. auto.
Qed.

Lemma agrees_room (s s' : sink) : agrees s s' -> has_room last s' -> has_room last s.
Proof. intros (E1 & E2 & _) [H1 H2]. split; [lia|by rewrite E1]. Qed.

Lemma agrees_beyond (p a b : list Z) (s : sink) :
  has_room last s -> last < o_str s + Z.of_nat (length p) -> a <> [] ->
  (length a <= length b)%nat -> agrees (put last (p ++ b) s) (put last (p ++ a) s).
Proof.
  intros [R1 R2] Hp Ha Hl. assert (1 <= length a)%nat by (destruct a; [done|cbn; lia]).
  unfold agrees, put. cbn. rewrite !length_app. split; [|lia].
  by rewrite !take_app_le by lia.
Qed.

(** ** Numbers *)

Lemma magnitude_ok (num : Z) : - 2 ^ 31 <= num < 0 -> u32 (s32 (- num)) = - num.
Proof.
  intros H. destruct (Z.eq_dec num (- 2 ^ 31)) as [->|]; [reflexivity|].
  rewrite (sbits_small 32) by lia. apply ubits_small. lia.
Qed.

Lemma tmp_ok (large : bool) (num base : Z) (s : sink) :
  - 2 ^ 31 <= num < 2 ^ 32 ->
  (if num =? 0 then mret [48]
   else lift (number_digits 16 (if large then large_digits else small_digits) num base)) s =
    Ok (rev (map (digit_char large) (radix 16 (radix_of base) (u32 num))), s).
Proof.
  intros H. pose proof (ubits_range 32 num ltac:(lia)). case_test.
  - subst num. cbn. change (u32 0) with 0. destruct (radix_of_pos base) as [E|E]; rewrite E; by destruct large.
  - rewrite number_digits_signed by done.
    assert (u32 num <> 0).
    { unfold ubits. intros E. apply Z.mod_divide in E as [k Hk]; lia. }
    unfold lift. rewrite number_digits_ok; [done|lia|].
    destruct (radix_of_pos base) as [-> | ->]; cbn; lia.
Qed.

(** The sign character, the padding and the digits, in the order of the code. *)
Definition print_padded (sign size i precision c : Z) (zero left : bool) (tmp : list Z) : ST sink unit :=
  size ← (if negb (zero || left) then
            pad last (if negb (sign =? 0) && (0 <? size) then size - 1 else size) 32
          else mret size);
  str ← gets o_str;
  size ← (if negb (sign =? 0) then
            _ ← emit last sign; mret (if str <=? last then size - 1 else size)
          else mret size);
  size ← (if negb left then pad last size c else mret size);
  _ ← emit_all last (replicate (Z.to_nat (precision - i)) 48);
  _ ← emit_all last (rev tmp);
  _ ← pad last size 32;
  mret tt.

Definition padded_text (sgn body : list Z) (fill : Z) (zero left : bool) : list Z :=
  if left then sgn ++ body ++ spaces fill
  else if zero then sgn ++ zeros fill ++ body
  else spaces fill ++ sgn ++ body.

Lemma replicate_neg (n c : Z) : n <= 0 -> replicate (Z.to_nat n) c = [].
Proof. intros H. by replace (Z.to_nat n) with 0%nat by lia. Qed.

Lemma print_padded_ok (sign size i precision c : Z) (zero left : bool) (tmp : list Z) (s : sink) :
  has_room last s -> c = (if zero then 48 else 32) ->
  let body := zeros (precision - i) ++ rev tmp in
  let sgn := if sign =? 0 then [] else [sign] in
  wp (print_padded sign size i precision c zero left tmp) (fun _ s' =>
    agrees s' (put last (padded_text sgn body (size - Z.of_nat (length sgn)) zero left) s)) s.
Proof.
  intros R -> body sgn. unfold print_padded, padded_text, spaces. fold (zeros (precision - i)).
  subst sgn. ostep. destruct (sign =? 0); cbn [negb andb length].
  - change (Z.of_nat 0) with 0. rewrite Z.sub_0_r. destruct left; cbn [orb negb]; [|destruct zero; cbn [orb negb]].
    + rewrite orb_true_r. cbn [negb]. repeat ostep. rewrite <- !put_app by (by repeat apply put_room).
      subst body. rewrite <- ?app_assoc. apply agrees_refl.
    + repeat ostep. rewrite (replicate_neg (Z.min size 0 - 1)), put_nil by lia.
      rewrite <- !put_app by (by repeat apply put_room). subst body. rewrite <- ?app_assoc. apply agrees_refl.
    + repeat ostep. rewrite !(replicate_neg (Z.min _ 0 - 1)), !put_nil by lia.
      rewrite <- !put_app by (by repeat apply put_room). subst body. rewrite <- ?app_assoc. apply agrees_refl.
  - change (Z.of_nat 1) with 1. destruct left; cbn [orb negb]; [|destruct zero; cbn [orb negb]].
    + rewrite orb_true_r. cbn [negb]. repeat ostep. rewrite <- !put_app by (by repeat apply put_room).
      destruct (Z.leb_spec (o_str s) last).
      * subst body. rewrite <- ?app_assoc. apply agrees_refl.
      * subst body. rewrite <- ?app_assoc. apply (agrees_beyond []); [done|cbn; lia|done|].
        cbn. rewrite !length_app, !length_replicate. lia.
    + repeat ostep. rewrite (replicate_neg (Z.min _ 0 - 1)), put_nil by lia.
      rewrite <- !put_app by (by repeat apply put_room).
      destruct (Z.leb_spec (o_str s) last).
      * subst body. rewrite <- ?app_assoc. apply agrees_refl.
      * subst body. rewrite <- ?app_assoc. apply (agrees_beyond []); [done|cbn; lia|done|].
        unfold zeros. cbn. rewrite !length_app, !length_replicate. lia.
    + repeat ostep.
      assert (E : Z.to_nat (if 0 <? size then size - 1 else size) = Z.to_nat (size - 1))
        by (case_test; lia). rewrite E.
      destruct (_ <=? last); rewrite !(replicate_neg (Z.min _ 0 - 1)), ?(replicate_neg (_ - 1 - 1)) by lia;
        rewrite !put_nil, <- !put_app by (by repeat apply put_room);
        subst body; rewrite <- ?app_assoc; apply agrees_refl.
Qed.

Lemma wp_print_number (num base width precision flags : Z) (s : sink) :
  has_room last s -> - 2 ^ 31 <= num < 2 ^ 31 ->
  wp (print_number last num base width precision flags) (fun _ s' =>
    agrees s' (put last (number_text num base width precision flags) s)) s.
Proof.
  intros R Hn. unfold print_number. rewrite has_lor.
  rewrite (has_cleared flags SIGN), (has_cleared flags PLUS), (has_cleared flags SPACE),
    (has_cleared flags LEFT), has_zeropad by tauto.
  set (negative := has flags SIGN && (num <? 0)).
  set (n := if negative then s32 (- num) else num).
  assert (Hu : u32 n = (if negative then - num else u32 num) /\ - 2 ^ 31 <= n < 2 ^ 32).
  { unfold n, negative. destruct (has flags SIGN); cbn [andb]; [|lia].
    destruct (Z.ltb_spec num 0); [|lia]. split; [apply magnitude_ok; lia|].
    unfold sbits. pose proof (Z.mod_pos_bound (- num + 2 ^ (32 - 1)) (2 ^ 32)). lia. }
  apply wp_bind. eapply wp_intro; [apply (tmp_ok (has flags LARGE) n base s); lia|].
  destruct Hu as [-> _]. unfold number_text. fold negative.
  set (digits := map _ _). rewrite length_rev. set (i := Z.of_nat (length digits)).
  set (p := if precision <? i then i else precision).
  set (sign := if has flags SIGN then _ else _).
  assert (Es : (if negative then [45] else if has flags SIGN && has flags PLUS then [43]
    else if has flags SIGN && has flags SPACE then [32] else []) = if sign =? 0 then [] else [sign]).
  { unfold sign, negative. destruct (has flags SIGN); cbn [andb]; [|done].
    by destruct (num <? 0), (has flags PLUS), (has flags SPACE). }
  assert (Ep : zeros (precision - i) = zeros (p - i) /\
    Z.of_nat (length (zeros (precision - i) ++ digits)) = p).
  { unfold zeros, p. rewrite length_app, length_replicate. fold i. split.
    - f_equal. case_test; lia.
    - case_test; lia. }
  destruct Ep as [Ez El]. rewrite Es, El, Ez.
  eapply wp_mono; [apply (print_padded_ok sign (width - p) i p _
    (has flags ZEROPAD && negb (has flags LEFT)) (has flags LEFT) (rev digits) s R eq_refl)|].
  intros u s'. unfold padded_text. rewrite rev_involutive.
  destruct (has flags LEFT); [done|]. by rewrite andb_true_r.
Qed.

End Agree.

(** ** Directives and formats *)

Definition directive_ok (d : directive) : Prop :=
  match d with DNumber num _ _ _ _ => - 2 ^ 31 <= num < 2 ^ 31 | _ => True end.

Lemma s32_range (x : Z) : - 2 ^ 31 <= s32 x < 2 ^ 31.
Proof. unfold sbits. pose proof (Z.mod_pos_bound (x + 2 ^ (32 - 1)) (2 ^ 32)). lia. Qed.

(** Reads the next step of a computation that gave a result. *)
Ltac read_ok H :=
  repeat (let a := fresh "a" in let E := fresh "E" in apply res_bind_Ok_inv in H as (a & E & H);
          repeat match goal with p : (_ * _)%type |- _ => destruct p end).

Lemma conversion_ok (fmt fmt' : list Z) (flags width precision qualifier : Z) (args args' : list arg)
    (d : directive) :
  conversion fmt flags width precision qualifier args = Ok (d, fmt', args') -> directive_ok d.
Proof.
  assert (N : forall base f c w p, (c ≫= fun '(num, args) =>
      Ok (DNumber num base w p f, tail fmt, args)) = Ok (d, fmt', args') ->
    c = int_arg qualifier f args -> directive_ok d).
  { intros base f c w p H ->. read_ok H. unfold int_arg in E. read_ok E.
    injection E as <- _. injection H as <- _ _. cbn. apply s32_range. }
  unfold conversion. intros H. apply res_bind_Ok_inv in H as (c & _ & H).
  repeat case_hyp; try (by eapply N; [exact H|]); try (read_ok H; by injection H as <- _ _).
  all: read_ok H; injection H as <- _ _; apply s32_range.
Qed.

Lemma parse_directive_ok (fmt fmt' : list Z) (args args' : list arg) (d : directive) :
  parse_directive fmt args = Ok (d, fmt', args') -> directive_ok d.
Proof.
  unfold parse_directive. intros H. apply res_bind_Ok_inv in H as ([flags fmt1] & _ & H).
  apply res_bind_Ok_inv in H as ([[[width flags1] fmt2] args1] & _ & H).
  apply res_bind_Ok_inv in H as ([[precision fmt3] args2] & _ & H).
  apply res_bind_Ok_inv in H as ([qualifier fmt4] & _ & H). by eapply conversion_ok.
Qed.

Section Format.
Variable last : Z.

Lemma wp_print_directive (d : directive) (s : sink) :
  has_room last s -> directive_ok d ->
  wp (print_directive last d) (fun _ s' => agrees last s' (put last (directive_text d) s)) s.
Proof.
  intros R D. destruct d as [c width flags|t len width flags|num base width precision flags| |c];
    cbn [print_directive directive_text].
  - ostep. destruct (has flags LEFT); cbn [negb]; repeat ostep.
    + rewrite <- put_app by done. apply agrees_refl.
    + rewrite (replicate_neg (Z.min _ 0 - 1 + 1 - 1)), put_nil by lia.
      rewrite <- put_app by done. apply agrees_refl.
  - ostep. destruct (has flags LEFT); cbn [negb]; repeat ostep.
    + rewrite <- put_app by done. apply agrees_refl.
    + rewrite (replicate_neg (Z.min _ 0 - 1 + len - len)), put_nil by lia.
      rewrite <- put_app by done. apply agrees_refl.
  - by apply wp_print_number.
  - ostep. apply agrees_refl.
  - ostep. ostep. case_test; ostep; [apply agrees_refl|]. rewrite <- put_app by done. apply agrees_refl.
Qed.

Lemma wp_format_loop (fuel : nat) (fmt : list Z) (args : list arg) (text : list Z) (s s' : sink) :
  text_loop fuel fmt args = Ok text -> has_room last s' -> agrees last s s' ->
  wp (format_loop last fuel fmt args) (fun _ r => agrees last r (put last text s')) s.
Proof.
  revert fmt args text s s'. induction fuel as [|fuel IH]; intros fmt args text s s' H R A;
    cbn [text_loop format_loop] in *; apply res_bind_Ok_inv in H as (c & Hc & H);
    ostep; (eapply wp_intro; [unfold lift; by rewrite Hc|]);
    destruct (c =? 0) in H |- *.
  - injection H as <-. ostep. by rewrite put_nil.
  - discriminate H.
  - injection H as <-. ostep. by rewrite put_nil.
  - destruct (c =? 37) in H |- *; cbn [negb] in H |- *.
    2:{ apply res_bind_Ok_inv in H as (t & Ht & H).
      injection H as <-. ostep. apply wp_emit; [by eapply agrees_room|].
      eapply wp_mono; [apply (IH _ _ t _ (put last [c] s')); [done|by apply put_room|by apply agrees_put]|].
      intros u r. by rewrite <- (put_app last [c] t). }
    + apply res_bind_Ok_inv in H as ([[d fmt1] args1] & Hd & H).
      apply res_bind_Ok_inv in H as (t & Ht & H). injection H as <-.
      ostep. eapply wp_intro; [unfold lift; by rewrite Hd|]. cbn beta iota. ostep.
      eapply wp_mono; [apply wp_print_directive; [by eapply agrees_room|by eapply parse_directive_ok]|].
      intros u r A1. cbn beta in A1.
      eapply wp_mono; [apply (IH _ _ t _ (put last (directive_text d) s')); [done|by apply put_room|]|].
      * eapply agrees_trans; [exact A1|]. by apply agrees_put.
      * intros v r'. by rewrite <- put_app.
Qed.

End Format.

(** ** The whole call *)

Lemma wr_last (m l : list Z) (n x : Z) :
  0 < n <= Z.of_nat (length m) -> n <= Z.of_nat (length l) ->
  Mem.wr (Mem.wr m 0 (take (Z.to_nat n) l)) (n - 1) [x] = Mem.wr m 0 (take (Z.to_nat (n - 1)) l ++ [x]).
Proof.
  intros Hn Hl. apply Mem.list_eq_Z; [by rewrite !Mem.length_wr|].
  intros i Hi. rewrite !Mem.length_wr in Hi.
  rewrite !Mem.lookup_wr; rewrite ?Mem.length_wr, ?length_app, ?length_take; cbn [length]; try lia.
  rewrite !Z.sub_0_r. replace (n - 1 + Z.of_nat 1) with n by lia.
  rewrite !(Nat.min_l _ (length l)) by lia. rewrite Nat2Z.inj_add, !Z2Nat.id by lia.
  change (Z.of_nat 1) with 1. rewrite (proj2 (Z.leb_le 0 i)) by lia. cbn [andb].
  destruct (Z.leb_spec (n - 1) i), (Z.ltb_spec i n); cbn [andb];
    rewrite ?(proj2 (Z.ltb_lt i _)), ?(proj2 (Z.ltb_ge i _)) by lia; try done; try lia.
  - replace i with (n - 1) by lia. rewrite Z.sub_diag. rewrite lookup_app_r by (rewrite length_take; lia).
    rewrite length_take. by replace (_ - _)%nat with 0%nat by lia.
  - rewrite lookup_app_l by (rewrite length_take; lia). rewrite !lookup_take_lt by lia. done.
Qed.

Lemma vsnprintf_ok (buf size : Z) (mem fmt text : list Z) (args : list arg) :
  0 <= buf -> 0 < size <= Z.of_nat (length mem) -> buf + size <= 2 ^ 32 ->
  format_text fmt args = Ok text ->
  exists n, rt_vsnprintf buf mem size fmt args =
      Ok (n, Mem.wr mem 0 (take (Z.to_nat (size - 1)) text ++ [0])) /\
    Z.of_nat (length text) <= n /\ (Z.of_nat (length text) <= size -> n = Z.of_nat (length text)).
Proof.
  intros Hb Hs Hw Ht. unfold rt_vsnprintf. rewrite (ubits_small 32) by lia.
  rewrite (proj2 (Z.ltb_ge _ _)) by lia. replace (buf + size - 1 - buf) with (size - 1) by lia.
  assert (R : has_room (size - 1) (Sink mem 0)) by (split; cbn; lia).
  pose proof (wp_format_loop (size - 1) (length fmt) fmt args text _ _ Ht R (agrees_refl _ _)) as W.
  apply wp_elim in W as ([] & s' & -> & E1 & E2 & E3). cbn. unfold put in *. cbn in E1, E2, E3.
  replace (Z.to_nat (size - 1 + 1 - 0)) with (Z.to_nat size) in * by lia.
  exists (o_str s'). rewrite E1. split.
  2:{ split; [lia|]. intros H. rewrite E3 by lia. cbn. lia. }
  rewrite Mem.store_wr by (rewrite Mem.length_wr; case_test; lia). cbn. do 2 f_equal.
  destruct (Z.le_gt_cases (Z.of_nat (length text)) (size - 1)) as [H|H].
  - rewrite (E3 ltac:(lia)). cbn [o_str]. test_true.
    rewrite !take_ge by lia. apply (Mem.wr_wr mem 0 _ text [0]); cbn [length]; lia.
  - rewrite (proj2 (Z.leb_gt _ _)) by lia. by apply wr_last; [|lia].
Qed.

(** [rt_kprintf] sends [console_text] of the text of its format (a length of 2^32 and more
    would wrap). *)
Lemma rt_kprintf_sends (addr : Z) (rt_log_buf fmt text : list Z) (args : list arg) :
  0 <= addr -> Z.of_nat (length rt_log_buf) = RT_CONSOLEBUF_SIZE -> addr + RT_CONSOLEBUF_SIZE <= 2 ^ 32 ->
  format_text fmt args = Ok text ->
  exists n buf, rt_vsnprintf addr rt_log_buf (RT_CONSOLEBUF_SIZE - 1) fmt args = Ok (n, buf) /\
    (n < 2 ^ 32 -> rt_kprintf addr rt_log_buf fmt args = Ok (console_text text, buf)).
Proof.
  unfold RT_CONSOLEBUF_SIZE. intros Ha Hl Hw Ht.
  destruct (vsnprintf_ok addr 127 rt_log_buf fmt text args Ha ltac:(lia) ltac:(lia) Ht) as (n & E & Hn & Hx).
  exists n. eexists. split; [exact E|]. intros Hs. unfold rt_kprintf. unfold RT_CONSOLEBUF_SIZE.
  change (128 - 1) with 127. rewrite E. cbn -[take Mem.wr Z.to_nat Z.ltb Z.leb]. rewrite (ubits_small 32) by lia.
  change (Z.to_nat (127 - 1)) with 126%nat. unfold console_text, RT_CONSOLEBUF_SIZE. change (128 - 2) with 126.
  do 2 f_equal. destruct (Z.leb_spec (Z.of_nat (length text)) 126) as [H|H].
  - rewrite (Hx ltac:(lia)). rewrite (proj2 (Z.ltb_ge _ _)) by lia.
    rewrite (take_ge text) by lia. unfold Mem.wr. rewrite list_inserts_0 by (rewrite length_app; cbn; lia).
    rewrite Nat2Z.id, <- app_assoc. apply take_app_length.
  - assert (E127 : Z.to_nat (if 127 <? n then 127 else n) = 127%nat) by (case_test; lia). rewrite E127.
    change (Z.to_nat 126) with 126%nat.
    assert (Lt : length (take 126 text ++ [0]) = 127%nat) by (rewrite length_app, length_take; cbn [length]; lia).
    unfold Mem.wr. rewrite list_inserts_0 by lia. rewrite <- Lt at 1. apply take_app_length.
Qed.

(** A format without a [%] is its own text. *)
Lemma format_plain (t : list Z) : Forall (fun c => c <> 0 /\ c <> 37) t -> format_text (t ++ [0]) [] = Ok t.
Proof.
  intros H. unfold format_text. rewrite length_app, Nat.add_comm. cbn [length Nat.add].
  assert (G : forall n, text_loop (n + length t) (t ++ [0]) [] = Ok t); [|exact (G 1%nat)].
  induction H as [|c t [H0 H37] _ IH]; intros n; [by destruct n|].
  cbn [length app]. rewrite <- Nat.add_succ_comm. cbn [Nat.add text_loop]. cbn.
  rewrite (proj2 (Z.eqb_neq c 0)), (proj2 (Z.eqb_neq c 37)) by done. cbn. by rewrite IH.
Qed.

(** C30: [rt_vsnprintf] with room for [size] bytes writes the text of the format, cut
    at [size - 1] characters, and a NUL, and never touches a byte behind them; it
    returns the length of the text when that fits (and a length that does not
    fit when the text is cut). *)
Theorem rt_vsnprintf_ok (buf size : Z) (mem fmt text : list Z) (args : list arg) :
  0 <= buf -> 0 < size <= Z.of_nat (length mem) -> buf + size <= 2 ^ 32 ->
  format_text fmt args = Ok text ->
  exists n mem', rt_vsnprintf buf mem size fmt args = Ok (n, mem') /\
    (let cut := take (Z.to_nat (size - 1)) text ++ [0] in
     take (length cut) mem' = cut /\ drop (length cut) mem' = drop (length cut) mem) /\
    Z.of_nat (length text) <= n /\ (Z.of_nat (length text) <= size -> n = Z.of_nat (length text)).
Proof.
  intros Hb Hs Hw Ht. destruct (vsnprintf_ok buf size mem fmt text args Hb Hs Hw Ht) as (n & E & Hn).
  exists n. eexists. split; [exact E|]. split; [|exact Hn]. cbn zeta.
  set (cut := _ ++ [0]). assert (L : (length cut <= length mem)%nat).
  { unfold cut. rewrite length_app, length_take. cbn. lia. }
  assert (W : Mem.wr mem 0 cut = cut ++ drop (length cut) mem) by (by apply list_inserts_0).
  rewrite W, take_app_length, drop_app_length. done.
Qed.

Lemma rt_vsnprintf_ok_witness :
  exists n mem', rt_vsnprintf 0x20000000 (replicate 12 7) 6 [97; 37; 53; 46; 51; 100; 33; 0]
      [AWord 42] = Ok (n, mem') /\ take 6 mem' = [97; 32; 32; 48; 52; 0].
Proof.
  destruct (rt_vsnprintf_ok 0x20000000 6 (replicate 12 7) [97; 37; 53; 46; 51; 100; 33; 0]
    [97; 32; 32; 48; 52; 50; 33] [AWord 42]) as (n & mem' & E & [T _] & _).
  - lia.
  - cbn. lia.
  - lia.
  - reflexivity.
  - exists n, mem'. split; [exact E|exact T].
Defined.

(** ** Printing and reading back *)

Lemma radix_digits (room : nat) (b m : Z) :
  0 < b -> 0 <= m -> Forall (fun d => 0 <= d < b) (radix room b m).
Proof.
  intros Hb. revert m. induction room as [|room IH]; intros m Hm; cbn; [constructor|].
  destruct (Z.ltb_spec m b); [repeat constructor; lia|]. apply Forall_app. split.
  - apply IH, Z.div_pos; lia.
  - repeat constructor; apply Z.mod_pos_bound; lia.
Qed.

Lemma radix_value (room : nat) (b m : Z) :
  1 < b -> 0 <= m < b ^ Z.of_nat room -> fold_left (fun v d => v * b + d) (radix room b m) 0 = m.
Proof.
  intros Hb. revert m. induction room as [|room IH]; intros m Hm; cbn [radix]; [cbn in *; lia|].
  rewrite Nat2Z.inj_succ, Z.pow_succ_r in Hm by lia.
  destruct (Z.ltb_spec m b); [cbn; lia|]. rewrite fold_left_app, IH.
  - cbn. pose proof (Z.div_mod m b). lia.
  - split; [apply Z.div_pos; lia|apply Z.div_lt_upper_bound; lia].
Qed.

Lemma length_radix (room k : nat) (b m : Z) :
  1 < b -> 0 <= m < b ^ Z.of_nat (S k) -> (length (radix room b m) <= S k)%nat.
Proof.
  intros Hb. revert room m. induction k as [|k IH]; intros [|room] m Hm; cbn [radix]; try (cbn; lia).
  - destruct (Z.ltb_spec m b); [done|]. rewrite Z.pow_1_r in Hm. lia.
  - rewrite (Nat2Z.inj_succ (S k)), Z.pow_succ_r in Hm by lia.
    destruct (Z.ltb_spec m b); [cbn; lia|]. rewrite length_app.
    assert (length (radix room b (m / b)) <= S k)%nat; [|cbn; lia].
    apply IH. split; [apply Z.div_pos; lia|apply Z.div_lt_upper_bound; lia].
Qed.

Lemma fold_digits_mono (ds : list Z) (i : Z) :
  Forall (fun d => 0 <= d < 10) ds -> 0 <= i -> i <= fold_left (fun v d => v * 10 + d) ds i.
Proof.
  revert i. induction ds as [|d ds IH]; intros i F Hi; cbn; [lia|]. inversion F; subst.
  etransitivity; [|apply IH; [done|lia]]. lia.
Qed.

Lemma skip_atoi_digits (ds rest : list Z) (c i : Z) :
  Forall (fun d => 0 <= d < 10) ds -> isdigit c = false -> 0 <= i ->
  fold_left (fun v d => v * 10 + d) ds i < 2 ^ 31 ->
  skip_atoi (map (digit_char false) ds ++ c :: rest) i =
    Ok (fold_left (fun v d => v * 10 + d) ds i, c :: rest).
Proof.
  intros F Hc. revert i. induction ds as [|d ds IH]; intros i Hi Hv.
  - cbn -[isdigit]. by rewrite Hc.
  - inversion F as [|? ? Hd F']; subst. cbn [map app fold_left] in *.
    assert (E : digit_char false d = 48 + d) by (unfold digit_char; by test_true).
    pose proof (fold_digits_mono ds (i * 10 + d) F' ltac:(lia)).
    cbn [skip_atoi]. unfold isdigit at 1. rewrite E, (ubits_small 32) by lia.
    rewrite (proj2 (Z.ltb_lt _ _)) by lia.
    replace (i * 10 + (48 + d) - 48) with (i * 10 + d) by lia.
    rewrite (sbits_small 32) by lia. by apply IH; [|lia|].
Qed.

Lemma decimal_text (n : Z) : - 2 ^ 31 < n < 2 ^ 31 ->
  format_text [37; 100; 0] [AWord n] =
    Ok ((if n <? 0 then [45] else []) ++ map (digit_char false) (radix 16 10 (Z.abs n))).
Proof.
  intros H.
  assert (E : s32 (u32 n) = n).
  { unfold sbits, ubits. change (2 ^ (32 - 1)) with (2 ^ 31). rewrite Zplus_mod_idemp_l, Z.mod_small; lia. }
  assert (T : format_text [37; 100; 0] [AWord n] = Ok (number_text (s32 (u32 n)) 10 (-1) (-1) SIGN ++ []))
    by reflexivity.
  rewrite T, E, app_nil_r. unfold number_text. change (has SIGN SIGN) with true.
  change (has SIGN LEFT) with false. change (has SIGN ZEROPAD) with false.
  change (has SIGN PLUS) with false. change (has SIGN SPACE) with false.
  change (has SIGN LARGE) with false. cbn [andb]. change (radix_of 10) with 10.
  unfold spaces, zeros. rewrite !replicate_neg by lia. cbn [app].
  destruct (Z.ltb_spec n 0); cbn [app].
  - by rewrite Z.abs_neq by lia.
  - by rewrite (ubits_small 32), Z.abs_eq by lia.
Qed.

(** C31: a number printed with [%d] is read back by [skip_atoi], behind the minus
    sign when it is negative, up to the NUL. *)
Theorem print_read_roundtrip (buf size n : Z) (mem : list Z) :
  0 <= buf -> 12 <= size <= Z.of_nat (length mem) -> buf + size <= 2 ^ 32 ->
  - 2 ^ 31 < n < 2 ^ 31 ->
  exists r mem' rest, rt_vsnprintf buf mem size [37; 100; 0] [AWord n] = Ok (r, mem') /\
    if n <? 0 then head mem' = Some 45 /\ skip_atoi (tail mem') 0 = Ok (- n, 0 :: rest)
    else skip_atoi mem' 0 = Ok (n, 0 :: rest).
Proof.
  intros Hb Hs Hw Hn. set (ds := radix 16 10 (Z.abs n)).
  assert (V : fold_left (fun v d => v * 10 + d) ds 0 = Z.abs n)
    by (apply radix_value; [lia|]; cbn; lia).
  assert (F : Forall (fun d => 0 <= d < 10) ds) by (apply radix_digits; lia).
  assert (L : (length ds <= 10)%nat) by (apply (length_radix 16 9); [lia|cbn; lia]).
  destruct (vsnprintf_ok buf size mem _ _ [AWord n] Hb ltac:(lia) Hw (decimal_text n Hn)) as (r & E & _).
  fold ds in E. rewrite take_ge in E
    by (rewrite length_app, length_map; destruct (n <? 0); cbn [length]; lia).
  set (mem' := Mem.wr _ _ _) in E.
  assert (Em : mem' = ((if n <? 0 then [45] else []) ++ map (digit_char false) ds ++ [0]) ++
    drop (length (((if n <? 0 then [45] else []) ++ map (digit_char false) ds) ++ [0])) mem).
  { unfold mem', Mem.wr. rewrite list_inserts_0
      by (rewrite !length_app, length_map; destruct (n <? 0); cbn [length]; lia).
    by rewrite <- !app_assoc. }
  set (rest := drop _ _) in Em. exists r, mem', rest. split; [exact E|]. rewrite Em.
  destruct (Z.ltb_spec n 0); cbn [app head tail]; rewrite <- ?app_assoc; cbn [app];
    rewrite (skip_atoi_digits ds) by (done || lia); rewrite V.
  - split; [done|]. rewrite Z.abs_neq by lia. reflexivity.
  - rewrite Z.abs_eq by lia. reflexivity.
Qed.

Lemma print_read_roundtrip_witness :
  exists r mem' rest, rt_vsnprintf 0x20000000 (replicate 12 7) 12 [37; 100; 0] [AWord (-1205)]
      = Ok (r, mem') /\ head mem' = Some 45 /\ skip_atoi (tail mem') 0 = Ok (1205, 0 :: rest).
Proof.
  destruct (print_read_roundtrip 0x20000000 12 (-1205) (replicate 12 7)) as (r & mem' & rest & E & H).
  - lia.
  - cbn. lia.
  - lia.
  - lia.
  - exists r, mem', rest. split; [exact E|exact H].
Defined.

(** ** What the code does not do *)

(** [%o] prints hexadecimal digits: [divide] knows the bases 10 and 16 only. *)
Lemma octal_prints_hex : format_text [37; 111; 0] [AWord 8] = Ok [56].
Proof. reflexivity. Qed.

(** A [size] of 0 does not protect the buffer: [end] becomes the last address. *)
Lemma size_0_unbounded :
  rt_snprintf 0x20000000 (replicate 4 7) 0 [104; 101; 108; 108; 111; 0] [] = Fault.
Proof. reflexivity. Qed.

(** The sign counts as padding when it is behind the end: "ab%+04d" of 5 is
    "ab+005", but the length returned for a buffer of one byte is 7. *)
Lemma truncated_sign_miscount :
  format_text [97; 98; 37; 43; 48; 52; 100; 0] [AWord 5] = Ok [97; 98; 43; 48; 48; 53] /\
  rt_snprintf 0x20000000 [7] 1 [97; 98; 37; 43; 48; 52; 100; 0] [AWord 5] = Ok (7, [0]).
Proof. split; reflexivity. Qed.

(** A message of more than 126 characters is sent with the NUL behind its first
    126 characters. *)
Lemma kprintf_sends_nul :
  exists out buf, rt_kprintf 0x20000000 (replicate 128 7) (replicate 130 97 ++ [0]) [] = Ok (out, buf) /\
    out = replicate 126 97 ++ [0].
Proof. eexists _, _. split; [vm_compute; reflexivity|reflexivity]. Qed.
