(* ===== verification/Heap.v ===== *)
(** * Dynamic memory (Kernel/mem.c)

    The allocator of small memories: the heap area is tiled by blocks, each
    with a header in front; [next] and [prev] are offsets of the neighbouring
    headers in the area, and [lfree] is where the search for a free block
    starts.  A header is found by its offset; writing one does not erase the
    headers that a merge leaves behind.  The bytes of the blocks are [h_data].
    The functions run with [heap_sem] free at the start: a caller that finds it
    taken waits for the caller that holds it. *)

From S2P Require Import Prelude KService.

(** ** Data *)

Definition HEAP_MAGIC : Z := 0x1ea0.
Definition MIN_SIZE : Z := 12.
Definition MIN_SIZE_ALIGNED : Z := 12.
Definition SIZEOF_STRUCT_MEM : Z := 12.

Record heap_mem := HeapMem { m_magic : Z; m_used : Z; m_next : Z; m_prev : Z }.

(** [h_ptr] is an address; [h_end] and [lfree] are offsets from it. *)
Record heap := Heap {
  h_ptr : Z; h_end : Z; lfree : Z; heap_sem : Z;
  mem_size_aligned : Z; used_mem : Z; max_mem : Z;
  h_mem : gmap Z heap_mem; h_data : list Z;
}.

Definition with_mem (m : gmap Z heap_mem) (h : heap) : heap :=
  Heap (h_ptr h) (h_end h) (lfree h) (heap_sem h) (mem_size_aligned h) (used_mem h)
    (max_mem h) m (h_data h).
Definition with_lfree (p : Z) (h : heap) : heap :=
  Heap (h_ptr h) (h_end h) p (heap_sem h) (mem_size_aligned h) (used_mem h)
    (max_mem h) (h_mem h) (h_data h).
Definition with_sem (v : Z) (h : heap) : heap :=
  Heap (h_ptr h) (h_end h) (lfree h) v (mem_size_aligned h) (used_mem h)
    (max_mem h) (h_mem h) (h_data h).
Definition with_used (u m : Z) (h : heap) : heap :=
  Heap (h_ptr h) (h_end h) (lfree h) (heap_sem h) (mem_size_aligned h) u m
    (h_mem h) (h_data h).
Definition with_data (d : list Z) (h : heap) : heap :=
  Heap (h_ptr h) (h_end h) (lfree h) (heap_sem h) (mem_size_aligned h) (used_mem h)
    (max_mem h) (h_mem h) d.

Definition get_mem (p : Z) : ST heap heap_mem :=
  m ← gets h_mem; lift (deref (m !! p)).
Definition put_mem (p : Z) (x : heap_mem) : ST heap unit :=
  modify (fun h => with_mem (<[p := x]> (h_mem h)) h).
Definition set_used (p v : Z) : ST heap unit :=
  x ← get_mem p; put_mem p (HeapMem (m_magic x) v (m_next x) (m_prev x)).
Definition set_magic (p : Z) : ST heap unit :=
  x ← get_mem p; put_mem p (HeapMem HEAP_MAGIC (m_used x) (m_next x) (m_prev x)).
Definition set_next (p v : Z) : ST heap unit :=
  x ← get_mem p; put_mem p (HeapMem (m_magic x) (m_used x) v (m_prev x)).
Definition set_prev (p v : Z) : ST heap unit :=
  x ← get_mem p; put_mem p (HeapMem (m_magic x) (m_used x) (m_next x) v).
Definition set_lfree (p : Z) : ST heap unit := modify (with_lfree p).

(** [rt_sem_take(&heap_sem, RT_WAITING_FOREVER)], [rt_sem_release(&heap_sem)] *)
Definition sem_take : ST heap unit :=
  v ← gets heap_sem; if 0 <? v then modify (with_sem (v - 1)) else hang.
Definition sem_release : ST heap unit :=
  modify (fun h => with_sem (u16 (heap_sem h + 1)) h).

(** [used_mem += n], then the high-water mark. *)
Definition add_used (n : Z) : ST heap unit :=
  modify (fun h =>
    let u := u32 (used_mem h + n) in
    with_used u (if max_mem h <? u then u else max_mem h) h).
Definition sub_used (n : Z) : ST heap unit :=
  modify (fun h => with_used (u32 (used_mem h - n)) (max_mem h) h).

(** ** Operations *)

(** [b] becomes part of the block [a] in front of it. *)
Definition combine (a b : Z) : ST heap unit :=
  lf ← gets lfree;
  _ ← kwhen (lf =? b) (set_lfree a);
  y ← get_mem b;
  _ ← set_next a (m_next y);
  set_prev (m_next y) a.

Definition plug_forward (mem : Z) : ST heap unit :=
  m ← get_mem mem;
  let nmem := m_next m in
  n ← get_mem nmem;
  hend ← gets h_end;
  kwhen (negb (mem =? nmem) && (m_used n =? 0) && negb (nmem =? hend)) (combine mem nmem).

Definition plug_backward (mem : Z) : ST heap unit :=
  m ← get_mem mem;
  let pmem := m_prev m in
  p ← get_mem pmem;
  kwhen (negb (pmem =? mem) && (m_used p =? 0)) (combine pmem mem).

Definition plug_holes (mem : Z) : ST heap unit :=
  _ ← kassert (0 <=? mem);
  hend ← gets h_end;
  _ ← kassert (mem <? hend);
  m ← get_mem mem;
  _ ← kassert (m_used m =? 0);
  _ ← plug_forward mem;
  plug_backward mem.

(** [ram] is what the memory from the aligned begin address to the aligned end
    address holds. *)
Definition rt_system_heap_init (begin_addr end_addr : Z) (ram : list Z) : ST heap unit :=
  let begin_align := RT_ALIGN (u32 begin_addr) RT_ALIGN_SIZE in
  let end_align := RT_ALIGN_DOWN (u32 end_addr) RT_ALIGN_SIZE in
  if (2 * SIZEOF_STRUCT_MEM <? end_align) &&
     (begin_align <=? end_align - 2 * SIZEOF_STRUCT_MEM) then
    let msize := end_align - begin_align - 2 * SIZEOF_STRUCT_MEM in
    _ ← modify (fun h => Heap begin_align (h_end h) (lfree h) (heap_sem h) msize
                  (used_mem h) (max_mem h) ∅ ram);
    let next := msize + SIZEOF_STRUCT_MEM in
    _ ← put_mem 0 (HeapMem HEAP_MAGIC 0 next 0);
    _ ← modify (fun h => Heap (h_ptr h) next (lfree h) (heap_sem h) (mem_size_aligned h)
                  (used_mem h) (max_mem h) (h_mem h) (h_data h));
    _ ← put_mem next (HeapMem HEAP_MAGIC 1 next next);
    _ ← modify (with_sem 1);
    set_lfree 0
  else mret tt.

(** The loop that looks for the next free block.  A loop over headers that
    takes more steps than there are headers is in a cycle. *)
Fixpoint lfree_loop (fuel : nat) : ST heap unit :=
  match fuel with
  | O => hang
  | S fuel =>
      lf ← gets lfree; x ← get_mem lf; hend ← gets h_end;
      if negb (m_used x =? 0) && negb (lf =? hend)
      then _ ← set_lfree (m_next x); lfree_loop fuel
      else mret tt
  end.

(** The block at [ptr] is taken, its remainder becomes a free block if it is
    large enough. *)
Definition carve (ptr size : Z) (mem : heap_mem) : ST heap unit :=
  if u32 (size + SIZEOF_STRUCT_MEM + MIN_SIZE_ALIGNED) <=?
     u32 (m_next mem - (ptr + SIZEOF_STRUCT_MEM)) then
    let ptr2 := ptr + SIZEOF_STRUCT_MEM + size in
    _ ← put_mem ptr2 (HeapMem HEAP_MAGIC 0 (m_next mem) ptr);
    _ ← set_next ptr ptr2;
    _ ← set_used ptr 1;
    msize ← gets mem_size_aligned;
    _ ← kwhen (negb (m_next mem =? msize + SIZEOF_STRUCT_MEM))
          (set_prev (m_next mem) ptr2);
    add_used (size + SIZEOF_STRUCT_MEM)
  else
    _ ← set_used ptr 1;
    add_used (m_next mem - ptr).

(** When the block taken was the one the search starts at. *)
Definition lfree_search (ptr : Z) : ST heap unit :=
  lf ← gets lfree;
  kwhen (ptr =? lf)
    (n ← gets (fun h => base.size (h_mem h));
     _ ← lfree_loop (S n);
     lf ← gets lfree; x ← get_mem lf; hend ← gets h_end;
     kassert ((lf =? hend) || (m_used x =? 0))).

(** The block at [ptr] is free and large enough. *)
Definition malloc_block (ptr size : Z) : ST heap Z :=
  mem ← get_mem ptr;
  _ ← carve ptr size mem;
  _ ← set_magic ptr;
  _ ← lfree_search ptr;
  _ ← sem_release;
  base ← gets h_ptr;
  hend ← gets h_end;
  _ ← kassert (u32 (u32 (base + ptr) + SIZEOF_STRUCT_MEM + size) <=? u32 (base + hend));
  _ ← kassert (u32 (base + ptr + SIZEOF_STRUCT_MEM) mod RT_ALIGN_SIZE =? 0);
  _ ← kassert (Z.land (u32 (base + ptr)) (RT_ALIGN_SIZE - 1) =? 0);
  mret (u32 (base + ptr + SIZEOF_STRUCT_MEM)).

Fixpoint malloc_loop (fuel : nat) (ptr size : Z) : ST heap Z :=
  match fuel with
  | O => hang
  | S fuel =>
      msize ← gets mem_size_aligned;
      if ptr <? u32 (msize - size) then
        mem ← get_mem ptr;
        if (m_used mem =? 0) && (size <=? u32 (m_next mem - (ptr + SIZEOF_STRUCT_MEM)))
        then malloc_block ptr size
        else malloc_loop fuel (m_next mem) size
      else
        _ ← sem_release; mret 0
  end.

Definition rt_malloc (sz : Z) : ST heap Z :=
  if sz =? 0 then mret 0 else
  let sz := RT_ALIGN sz RT_ALIGN_SIZE in
  msize ← gets mem_size_aligned;
  if msize <? sz then mret 0 else
  let sz := if sz <? MIN_SIZE_ALIGNED then MIN_SIZE_ALIGNED else sz in
  _ ← sem_take;
  lf ← gets lfree;
  n ← gets (fun h => base.size (h_mem h));
  malloc_loop (S n) lf sz.

Definition rt_free (rmem : Z) : ST heap unit :=
  if rmem =? 0 then mret tt else
  _ ← kassert (Z.land (u32 rmem) (RT_ALIGN_SIZE - 1) =? 0);
  base ← gets h_ptr;
  hend ← gets h_end;
  _ ← kassert ((base <=? rmem) && (rmem <? base + hend));
  if (rmem <? base) || (base + hend <=? rmem) then mret tt else
  let mem := rmem - SIZEOF_STRUCT_MEM - base in
  _ ← sem_take;
  x ← get_mem mem;
  _ ← kassert (negb (m_used x =? 0));
  _ ← kassert (m_magic x =? HEAP_MAGIC);
  _ ← set_used mem 0;
  _ ← set_magic mem;
  lf ← gets lfree;
  _ ← kwhen (mem <? lf) (set_lfree mem);
  _ ← sub_used (m_next x - mem);
  _ ← plug_holes mem;
  sem_release.

(** [rt_memcpy] and [rt_memset] on the bytes of the area. *)
Definition data_memcpy (dst src n : Z) : ST heap unit :=
  base ← gets h_ptr; d ← gets h_data;
  d ← lift (Mem.rt_memcpy d (dst - base) (src - base) n);
  modify (with_data d).
Definition data_memset (dst c n : Z) : ST heap unit :=
  base ← gets h_ptr; d ← gets h_data;
  d ← lift (Mem.rt_memset d (dst - base) c n);
  modify (with_data d).

Definition rt_realloc (rmem newsize : Z) : ST heap Z :=
  let newsize := RT_ALIGN newsize RT_ALIGN_SIZE in
  msize ← gets mem_size_aligned;
  if msize <? newsize then mret 0 else
  if rmem =? 0 then rt_malloc newsize else
  _ ← sem_take;
  base ← gets h_ptr;
  hend ← gets h_end;
  if (rmem <? base) || (base + hend <=? rmem) then _ ← sem_release; mret rmem else
  let ptr := rmem - SIZEOF_STRUCT_MEM - base in
  mem ← get_mem ptr;
  let size := u32 (m_next mem - ptr - SIZEOF_STRUCT_MEM) in
  if size =? newsize then _ ← sem_release; mret rmem else
  if u32 (newsize + SIZEOF_STRUCT_MEM + MIN_SIZE) <? size then
    _ ← sub_used (size - newsize);
    let ptr2 := ptr + SIZEOF_STRUCT_MEM + newsize in
    _ ← put_mem ptr2 (HeapMem HEAP_MAGIC 0 (m_next mem) ptr);
    _ ← set_next ptr ptr2;
    _ ← kwhen (negb (m_next mem =? msize + SIZEOF_STRUCT_MEM))
          (set_prev (m_next mem) ptr2);
    _ ← plug_holes ptr2;
    _ ← sem_release;
    mret rmem
  else
    _ ← sem_release;
    nmem ← rt_malloc newsize;
    if negb (nmem =? 0) then
      _ ← data_memcpy nmem rmem (if size <? newsize then size else newsize);
      _ ← rt_free rmem;
      mret nmem
    else mret nmem.

Definition rt_calloc (count size : Z) : ST heap Z :=
  p ← rt_malloc (u32 (count * size));
  if negb (p =? 0) then
    _ ← data_memset p 0 (u32 (count * size));
    mret p
  else mret p.

Definition rt_memory_info (h : heap) : Z * Z * Z :=
  (mem_size_aligned h, used_mem h, max_mem h).

(** ** The list of blocks

    A block is its length, header included, and whether it is in use. *)

Definition blk : Type := Z * bool.

Fixpoint tot (l : list blk) : Z :=
  match l with [] => 0 | b :: l => b.1 + tot l end.

Fixpoint last_off (prv p : Z) (l : list blk) : Z :=
  match l with [] => prv | b :: l => last_off p (p + b.1) l end.

Definition header (prv p : Z) (b : blk) : heap_mem :=
  HeapMem HEAP_MAGIC (if b.2 then 1 else 0) (p + b.1) prv.

(** The headers of the blocks [l] that start at offset [p]. *)
Fixpoint seg (hd : gmap Z heap_mem) (prv p : Z) (l : list blk) : Prop :=
  match l with
  | [] => True
  | b :: l => hd !! p = Some (header prv p b) /\ seg hd p (p + b.1) l
  end.

Definition good (b : blk) : Prop := 12 <= b.1 /\ (4 | b.1).

Fixpoint no_adjacent_free (l : list blk) : Prop :=
  match l with
  | (_, false) :: (((_, u) :: _) as l') => u = true /\ no_adjacent_free l'
  | _ :: l' => no_adjacent_free l'
  | [] => True
  end.

Fixpoint used_total (l : list blk) : Z :=
  match l with [] => 0 | (n, u) :: l => (if u then n else 0) + used_total l end.

(** The offset and the length of each block in use. *)
Fixpoint used_blocks (p : Z) (l : list blk) : list (Z * Z) :=
  match l with
  | [] => []
  | (n, u) :: l => (if u then [(p, n)] else []) ++ used_blocks (p + n) l
  end.

(** The offsets of the free blocks. *)
Fixpoint free_offsets (p : Z) (l : list blk) : list Z :=
  match l with
  | [] => []
  | (n, u) :: l => (if u then [] else [p]) ++ free_offsets (p + n) l
  end.

(** Adjacent free blocks become one. *)
Fixpoint coalesce (l : list blk) : list blk :=
  match l with
  | [] => []
  | (n, true) :: l => (n, true) :: coalesce l
  | (n, false) :: l =>
      match coalesce l with
      | (m, false) :: l' => (n + m, false) :: l'
      | l' => (n, false) :: l'
      end
  end.

Lemma tot_app (l1 l2 : list blk) : tot (l1 ++ l2) = tot l1 + tot l2.
Proof. induction l1 as [|b l1 IH]; cbn; lia. Qed.

Lemma used_total_app (l1 l2 : list blk) :
  used_total (l1 ++ l2) = used_total l1 + used_total l2.
Proof. induction l1 as [|[n u] l1 IH]; cbn; lia. Qed.

Lemma used_blocks_app (l1 l2 : list blk) (p : Z) :
  used_blocks p (l1 ++ l2) = used_blocks p l1 ++ used_blocks (p + tot l1) l2.
Proof.
  revert p. induction l1 as [|[n u] l1 IH]; intros p; cbn [app used_blocks tot fst].
  - f_equal. lia.
  - rewrite IH, <- app_assoc. do 3 f_equal. lia.
Qed.

Lemma free_offsets_app (l1 l2 : list blk) (p : Z) :
  free_offsets p (l1 ++ l2) = free_offsets p l1 ++ free_offsets (p + tot l1) l2.
Proof.
  revert p. induction l1 as [|[n u] l1 IH]; intros p; cbn [app free_offsets tot fst].
  - f_equal. lia.
  - rewrite IH, <- app_assoc. do 3 f_equal. lia.
Qed.

Lemma no_adj_cons (b : blk) (l : list blk) : no_adjacent_free (b :: l) -> no_adjacent_free l.
Proof. destruct b as [n []], l as [|[m []] l]; cbn; tauto. Qed.

Lemma no_adj_app (l1 l2 : list blk) :
  no_adjacent_free (l1 ++ l2) -> no_adjacent_free l1 /\ no_adjacent_free l2.
Proof.
  induction l1 as [|b l1 IH]; [done|]. intros H. pose proof (no_adj_cons _ _ H) as H'.
  destruct (IH H') as [I1 I2]. split; [|done].
  destruct b as [n []], l1 as [|[m []] l1]; cbn in *; tauto.
Qed.

Lemma coalesce_no_adj (l : list blk) : no_adjacent_free (coalesce l).
Proof.
  induction l as [|[n []] l IH]; cbn; [done|done|].
  destruct (coalesce l) as [|[m []] l']; cbn in *; [done|tauto|].
  by destruct l' as [|[k []] l'].
Qed.

Lemma coalesce_id (l : list blk) : no_adjacent_free l -> coalesce l = l.
Proof.
  induction l as [|[n u] l IH]; intros H; [done|].
  pose proof (no_adj_cons _ _ H) as H'. specialize (IH H').
  destruct u; cbn; rewrite IH; [done|]. destruct l as [|[m []] l]; try done.
  cbn in H. by destruct H.
Qed.

(** A list whose last block is in use is not changed by what follows. *)
Lemma coalesce_used (l1 l2 : list blk) (n : Z) :
  no_adjacent_free (l1 ++ [(n, true)]) ->
  coalesce (l1 ++ (n, true) :: l2) = l1 ++ (n, true) :: coalesce l2.
Proof.
  induction l1 as [|[m u] l1 IH]; intros H; [done|].
  cbn [app]. cbn [coalesce]. rewrite IH by (by eapply no_adj_cons).
  destruct u; [done|]. destruct l1 as [|[k []] l1]; cbn in *; try done. by destruct H.
Qed.

Lemma coalesce_same (l : list blk) (p : Z) :
  used_blocks p (coalesce l) = used_blocks p l /\ tot (coalesce l) = tot l /\
  used_total (coalesce l) = used_total l.
Proof.
  revert p. induction l as [|[n []] l IH]; intros p; [done| |];
    destruct (IH (p + n)) as (I1 & I2 & I3); cbn.
  - rewrite I1, I2, I3. done.
  - rewrite <- I1, <- I2, <- I3.
    destruct (coalesce l) as [|[m []] l']; cbn; [done|done|].
    rewrite Z.add_assoc. repeat split; lia.
Qed.

Lemma coalesce_app (l1 l2 : list blk) : coalesce (l1 ++ coalesce l2) = coalesce (l1 ++ l2).
Proof.
  induction l1 as [|[n []] l1 IH]; cbn; [|by rewrite IH..].
  apply coalesce_id, coalesce_no_adj.
Qed.

Lemma coalesce_head (n : Z) (l : list blk) :
  exists m l', coalesce ((n, false) :: l) = (m, false) :: l'.
Proof. cbn. destruct (coalesce l) as [|[m []] l']; eauto. Qed.

Lemma coalesce_good (l : list blk) : Forall good l -> Forall good (coalesce l).
Proof.
  induction 1 as [|[n u] l Hb Hl IH]; [constructor|]. destruct u; cbn; [by constructor|].
  destruct (coalesce l) as [|[m []] l']; try by constructor.
  inversion IH as [|? ? Hm Hl']; subst. constructor; [|done].
  destruct Hb, Hm; cbn in *. split; cbn; [lia|by apply Z.divide_add_r].
Qed.

Lemma last_off_app (l1 l2 : list blk) (prv p : Z) :
  last_off prv p (l1 ++ l2) = last_off (last_off prv p l1) (p + tot l1) l2.
Proof.
  revert prv p. induction l1 as [|b l1 IH]; intros prv p; cbn.
  - f_equal. lia.
  - rewrite IH. f_equal. lia.
Qed.

Lemma seg_app (hd : gmap Z heap_mem) (l1 l2 : list blk) (prv p : Z) :
  seg hd prv p (l1 ++ l2) <->
  seg hd prv p l1 /\ seg hd (last_off prv p l1) (p + tot l1) l2.
Proof.
  revert prv p. induction l1 as [|b l1 IH]; intros prv p; cbn [app seg last_off tot].
  - rewrite Z.add_0_r. tauto.
  - rewrite IH. replace (p + (b.1 + tot l1)) with (p + b.1 + tot l1) by lia. tauto.
Qed.

Lemma good_tot (l : list blk) : Forall good l -> 0 <= tot l /\ (4 | tot l).
Proof.
  induction 1 as [|b l [Hb Hd] Hl [IH1 IH2]]; cbn; [split; [lia|apply Z.divide_0_r]|].
  split; [lia|]. by apply Z.divide_add_r.
Qed.

Lemma seg_frame (hd hd' : gmap Z heap_mem) (l : list blk) (prv p : Z) :
  Forall good l -> (forall q, p <= q < p + tot l -> hd' !! q = hd !! q) ->
  seg hd prv p l -> seg hd' prv p l.
Proof.
  intros G. revert prv p. induction G as [|b l Hb Hl IH]; intros prv p H; cbn; [done|].
  cbn in H. destruct (good_tot l Hl). destruct Hb as [Hb _]. intros [E S]. split.
  - rewrite H by lia. done.
  - apply IH; [|done]. intros q Hq. apply H. lia.
Qed.

(** The blocks [mid] in the middle are replaced by [mid']. *)
Lemma seg_replace (hd hd' : gmap Z heap_mem) (l1 mid mid' l2 : list blk) :
  Forall good l1 -> Forall good l2 -> tot mid' = tot mid ->
  seg hd 0 0 (l1 ++ mid ++ l2) ->
  (forall q, 0 <= q < tot l1 \/ tot l1 + tot mid < q < tot l1 + tot mid + tot l2 ->
     hd' !! q = hd !! q) ->
  seg hd' (last_off 0 0 l1) (tot l1) mid' ->
  (forall b l, l2 = b :: l -> hd' !! (tot l1 + tot mid) =
     Some (header (last_off (last_off 0 0 l1) (tot l1) mid') (tot l1 + tot mid) b)) ->
  seg hd' 0 0 (l1 ++ mid' ++ l2).
Proof.
  intros G1 G2 Et S Hf Hm Hn. destruct (good_tot l1 G1), (good_tot l2 G2).
  rewrite !seg_app in *. rewrite !Z.add_0_l in *. destruct S as (S1 & S2 & S3).
  split; [|split; [done|]].
  - eapply seg_frame; [done| |exact S1]. intros q Hq. apply Hf. lia.
  - rewrite Et. destruct l2 as [|b l2]; [done|]. cbn [seg] in *. split; [by eapply Hn|].
    destruct S3 as [_ S3]. inversion G2 as [|? ? [Hb _] G3]; subst. cbn [tot] in Hf.
    eapply seg_frame; [done| |exact S3]. intros q Hq. apply Hf. lia.
Qed.

Fixpoint offsets (p : Z) (l : list blk) : list Z :=
  match l with [] => [] | b :: l => p :: offsets (p + b.1) l end.

Lemma offsets_range (l : list blk) (p q : Z) :
  Forall good l -> q ∈ offsets p l -> p <= q < p + tot l.
Proof.
  intros G. revert p. induction G as [|b l [Hb _] Hl IH]; intros p; cbn; [set_solver|].
  destruct (good_tot l Hl). rewrite elem_of_cons. intros [->|H']; [lia|].
  specialize (IH _ H'). lia.
Qed.

(** There are at least as many headers as blocks. *)
Lemma seg_size (hd : gmap Z heap_mem) (l : list blk) (prv p : Z) :
  Forall good l -> seg hd prv p l -> (length l <= base.size hd)%nat.
Proof.
  intros G S. rewrite <- size_dom.
  assert (N : NoDup (offsets p l)).
  { clear S prv. revert p. induction G as [|b l [Hb ?] Hl IH]; intros p; cbn; constructor; auto.
    intros Hin%offsets_range; [lia|done]. }
  assert (E : length l = length (offsets p l)).
  { clear. revert p. induction l; intros; cbn; auto. }
  rewrite E. rewrite <- (size_list_to_set (C := gset Z)) by done. apply subseteq_size.
  intros q Hq%elem_of_list_to_set. apply elem_of_dom. clear N E G.
  revert prv p S Hq. induction l as [|b l IH]; intros prv p S Hq; cbn in *; [set_solver|].
  destruct S as [Ep S]. apply elem_of_cons in Hq as [->|Hq]; eauto.
Qed.

(** The area is tiled by the blocks [l]. *)
Record tiles (h : heap) (l : list blk) : Prop := {
  t_base : 0 < h_ptr h /\ h_ptr h mod 4 = 0 /\ h_ptr h + h_end h + 12 <= 2 ^ 32;
  t_end : h_end h = mem_size_aligned h + 12;
  t_tot : tot l = h_end h;
  t_good : Forall good l;
  t_seg : seg (h_mem h) 0 0 l;
  t_hend : exists x, h_mem h !! h_end h = Some x /\ m_used x = 1;
  t_data : Z.of_nat (length (h_data h)) = h_end h + 12;
}.

(** [lfree] is the start of a free block, or the end. *)
Definition lfree_ok (lf : Z) (l : list blk) : Prop := lf = tot l \/ lf ∈ free_offsets 0 l.

Record heap_ok (h : heap) (l : list blk) : Prop := {
  ho_tiles : tiles h l;
  ho_lfree : lfree_ok (lfree h) l;
  ho_adj : no_adjacent_free l;
  ho_used : used_mem h = used_total l;
  ho_max : used_mem h <= max_mem h;
  ho_sem : heap_sem h = 1;
}.

Lemma wp_get_mem (p : Z) (x : heap_mem) (Q : heap_mem -> heap -> Prop) (h : heap) :
  h_mem h !! p = Some x -> Q x h -> wp (get_mem p) Q h.
Proof. intros E H. unfold get_mem. by eapply wp_bind, wp_gets, wp_lift. Qed.

Lemma wp_put_mem (p : Z) (x : heap_mem) (Q : unit -> heap -> Prop) (h : heap) :
  Q tt (with_mem (<[p := x]> (h_mem h)) h) -> wp (put_mem p x) Q h.
Proof. done. Qed.

Section SetField.
Context (p : Z) (x : heap_mem) (v : Z) (Q : unit -> heap -> Prop) (h : heap).
Hypothesis Hx : h_mem h !! p = Some x.

Lemma wp_set_used :
  Q tt (with_mem (<[p := HeapMem (m_magic x) v (m_next x) (m_prev x)]> (h_mem h)) h) ->
  wp (set_used p v) Q h.
Proof using Hx. intros. by eapply wp_bind, wp_get_mem. Qed.
Lemma wp_set_magic :
  Q tt (with_mem (<[p := HeapMem HEAP_MAGIC (m_used x) (m_next x) (m_prev x)]> (h_mem h)) h) ->
  wp (set_magic p) Q h.
Proof using Hx. intros. by eapply wp_bind, wp_get_mem. Qed.
Lemma wp_set_next :
  Q tt (with_mem (<[p := HeapMem (m_magic x) (m_used x) v (m_prev x)]> (h_mem h)) h) ->
  wp (set_next p v) Q h.
Proof using Hx. intros. by eapply wp_bind, wp_get_mem. Qed.
Lemma wp_set_prev :
  Q tt (with_mem (<[p := HeapMem (m_magic x) (m_used x) (m_next x) v]> (h_mem h)) h) ->
  wp (set_prev p v) Q h.
Proof using Hx. intros. by eapply wp_bind, wp_get_mem. Qed.
End SetField.

(** Looks a header up through the updates in front of it. *)
Ltac hdr := repeat first
  [ rewrite lookup_insert_eq | rewrite lookup_insert_ne by lia ]; eassumption || reflexivity.

Ltac hstep :=
  lazymatch goal with
  | |- wp (mret _) _ _ => apply wp_ret
  | |- wp (mbind _ _) _ _ => apply wp_bind
  | |- wp (gets _) _ _ => apply wp_gets
  | |- wp (modify _) _ _ => apply wp_modify
  | |- wp (set_lfree _) _ _ => apply wp_modify
  | |- wp (kassert _) _ _ => apply wp_kassert; [try reflexivity|]
  | |- wp (get_mem _) _ _ => eapply wp_get_mem; [cbn; hdr|]
  | |- wp (put_mem _ _) _ _ => apply wp_put_mem
  | |- wp (set_used _ _) _ _ => eapply wp_set_used; [cbn; hdr|]
  | |- wp (set_magic _) _ _ => eapply wp_set_magic; [cbn; hdr|]
  | |- wp (set_next _ _) _ _ => eapply wp_set_next; [cbn; hdr|]
  | |- wp (set_prev _ _) _ _ => eapply wp_set_prev; [cbn; hdr|]
  end.

(** The header after a block is there: it is the next block's or the end's. *)
Lemma next_header (h : heap) (l1 : list blk) (b : blk) (l2 : list blk) :
  tiles h (l1 ++ b :: l2) ->
  exists y, h_mem h !! (tot l1 + b.1) = Some y /\
    match l2 with
    | [] => m_used y = 1 /\ tot l1 + b.1 = h_end h
    | c :: _ => y = header (tot l1) (tot l1 + b.1) c /\ tot l1 + b.1 < h_end h
    end.
Proof.
  intros T. pose proof (t_tot _ _ T) as Ht. pose proof (t_seg _ _ T) as Hs.
  pose proof (t_good _ _ T) as G.
  rewrite tot_app in Ht. rewrite seg_app in Hs. cbn in Ht, Hs.
  destruct Hs as (_ & _ & Hs). destruct l2 as [|c l2].
  - destruct (t_hend _ _ T) as (x & Ex & Ux). cbn in Ht. exists x.
    replace (tot l1 + b.1) with (h_end h) by lia. done.
  - exists (header (tot l1) (tot l1 + b.1) c). cbn in Hs, Ht. split; [apply Hs|].
    split; [done|]. rewrite !Forall_app, !Forall_cons in G.
    destruct G as (_ & _ & [Hc _] & G2). destruct (good_tot l2 G2). lia.
Qed.

Lemma block_header (h : heap) (l1 : list blk) (b : blk) (l2 : list blk) :
  tiles h (l1 ++ b :: l2) ->
  h_mem h !! tot l1 = Some (header (last_off 0 0 l1) (tot l1) b).
Proof. intros T. pose proof (t_seg _ _ T) as Hs. rewrite seg_app in Hs. apply Hs. Qed.

(** Where the parts of a list of blocks are. *)
Lemma tiles_bounds (h : heap) (l1 mid l2 : list blk) :
  tiles h (l1 ++ mid ++ l2) ->
  Forall good l1 /\ Forall good mid /\ Forall good l2 /\ 0 <= tot l1 /\ 0 <= tot mid /\
  0 <= tot l2 /\ tot l1 + tot mid + tot l2 = h_end h.
Proof.
  intros T. pose proof (t_good _ _ T) as G. rewrite !Forall_app in G.
  destruct G as (G1 & G2 & G3). pose proof (t_tot _ _ T) as Ht. rewrite !tot_app in Ht.
  destruct (good_tot _ G1), (good_tot _ G2), (good_tot _ G3). repeat split; auto; lia.
Qed.

(** Replacing blocks in the middle, for the whole heap. *)
Lemma tiles_replace (h : heap) (hd' : gmap Z heap_mem) (l1 mid mid' l2 : list blk) :
  tiles h (l1 ++ mid ++ l2) -> tot mid' = tot mid -> Forall good mid' ->
  (forall q, 0 <= q < tot l1 \/ tot l1 + tot mid < q < h_end h ->
     hd' !! q = h_mem h !! q) ->
  seg hd' (last_off 0 0 l1) (tot l1) mid' ->
  match l2 with
  | [] => exists x, hd' !! h_end h = Some x /\ m_used x = 1
  | b :: _ => hd' !! (tot l1 + tot mid) =
     Some (header (last_off (last_off 0 0 l1) (tot l1) mid') (tot l1 + tot mid) b) /\
     hd' !! h_end h = h_mem h !! h_end h
  end ->
  tiles (with_mem hd' h) (l1 ++ mid' ++ l2).
Proof.
  intros T Et G' Hf Hs Hn. destruct (tiles_bounds _ _ _ _ T) as (G1 & G & G2 & B1 & B & B2 & Bt).
  constructor; cbn; try apply T.
  - rewrite !tot_app. lia.
  - rewrite !Forall_app. auto.
  - eapply seg_replace; [done|done|done|apply (t_seg _ _ T)|..]; [|done|].
    + intros q Hq. apply Hf. lia.
    + intros b l ->. apply Hn.
  - destruct l2; [done|]. destruct Hn as [_ ->]. apply (t_hend _ _ T).
Qed.

Lemma wp_combine (h : heap) (l1 l2 : list blk) (n1 n2 : Z) (u1 u2 : bool)
    (Q : unit -> heap -> Prop) :
  tiles h (l1 ++ (n1, u1) :: (n2, u2) :: l2) ->
  (forall m', tiles (with_mem m' h) (l1 ++ (n1 + n2, u1) :: l2) ->
     Q tt (with_lfree (if lfree h =? tot l1 + n1 then tot l1 else lfree h) (with_mem m' h))) ->
  wp (combine (tot l1) (tot l1 + n1)) Q h.
Proof.
  intros T HQ.
  destruct (tiles_bounds h l1 [(n1, u1); (n2, u2)] l2 T) as (G1 & G & G2 & B1 & B & B2 & Bt).
  cbn in Bt, B. rewrite !Forall_cons in G. destruct G as ([Hn1 D1] & [Hn2 D2] & _).
  cbn in Hn1, Hn2.
  pose proof (block_header _ _ _ _ T) as E1.
  assert (T2 : tiles h ((l1 ++ [(n1, u1)]) ++ (n2, u2) :: l2)) by (by rewrite <- app_assoc).
  pose proof (block_header _ _ _ _ T2) as E2.
  destruct (next_header _ _ _ _ T2) as (y & E3 & Hy).
  rewrite ?last_off_app, tot_app in E2, E3, Hy. cbn in E2, E3, Hy.
  rewrite Z.add_0_r in E2, E3, Hy.
  set (m' := <[tot l1 + n1 + n2 := HeapMem (m_magic y) (m_used y) (m_next y) (tot l1)]>
     (<[tot l1 := header (last_off 0 0 l1) (tot l1) (n1 + n2, u1)]> (h_mem h))).
  assert (T' : tiles (with_mem m' h) (l1 ++ (n1 + n2, u1) :: l2)).
  { apply (tiles_replace h m' l1 [(n1, u1); (n2, u2)] [(n1 + n2, u1)] l2 T); cbn.
    - lia.
    - repeat constructor; cbn; [lia|by apply Z.divide_add_r].
    - intros q Hq. unfold m'.
      destruct (decide (q = tot l1 + n1 + n2)) as [->|]; [|by rewrite !lookup_insert_ne by lia].
      exfalso. destruct Hq; lia.
    - split; [|done]. unfold m'. by rewrite lookup_insert_ne, lookup_insert_eq by lia.
    - unfold m'. destruct l2 as [|c l2].
      + exists (HeapMem (m_magic y) (m_used y) (m_next y) (tot l1)). destruct Hy as [Hu Hy].
        rewrite <- Hy, lookup_insert_eq. done.
      + replace (tot l1 + (n1 + (n2 + 0))) with (tot l1 + n1 + n2) by lia.
        destruct Hy as [-> Hy]. rewrite lookup_insert_eq. split; [done|].
        by rewrite !lookup_insert_ne by lia. }
  specialize (HQ m' T').
  unfold combine. hstep. hstep. hstep.
  destruct (lfree h =? tot l1 + n1); cbn [kwhen]; repeat hstep; cbn.
  all: unfold m', header in HQ; cbn in HQ; rewrite Z.add_assoc in HQ; exact HQ.
Qed.

Definition lfree_low (lf : Z) (l : list blk) : Prop := Forall (fun o => lf <= o) (free_offsets 0 l).

Definition lf_moved (lf lf' : Z) (l l' : list blk) : Prop :=
  lfree_ok lf' l' /\ (lfree_low lf l -> lfree_low lf' l').

Lemma lf_merge (lf : Z) (l1 l2 : list blk) (n1 n2 : Z) :
  0 <= n1 -> lfree_ok lf (l1 ++ (n1, false) :: (n2, false) :: l2) ->
  lf_moved lf (if lf =? tot l1 + n1 then tot l1 else lf)
    (l1 ++ (n1, false) :: (n2, false) :: l2) (l1 ++ (n1 + n2, false) :: l2).
Proof.
  intros Hn. unfold lf_moved, lfree_ok, lfree_low. rewrite !tot_app, !free_offsets_app. cbn.
  replace (0 + tot l1 + (n1 + n2)) with (0 + tot l1 + n1 + n2) by lia.
  replace (tot l1 + (n1 + (n2 + tot l2))) with (tot l1 + (n1 + n2 + tot l2)) by lia.
  rewrite !Forall_app, !Forall_cons, !elem_of_app, !elem_of_cons, Z.add_0_l.
  destruct (Z.eqb_spec lf (tot l1 + n1)) as [->|Hne]; intros H; [|tauto].
  split; [by right; right; left|]. intros (H1 & H2 & H3 & H4). repeat split; [|lia|];
    (eapply Forall_impl; [eassumption|]; cbn; intros; lia).
Qed.

Lemma wp_combine_free (h : heap) (l1 l2 : list blk) (n1 n2 : Z)
    (Q : unit -> heap -> Prop) :
  tiles h (l1 ++ (n1, false) :: (n2, false) :: l2) ->
  lfree_ok (lfree h) (l1 ++ (n1, false) :: (n2, false) :: l2) ->
  (forall m' lf', tiles (with_mem m' h) (l1 ++ (n1 + n2, false) :: l2) ->
     lf_moved (lfree h) lf' (l1 ++ (n1, false) :: (n2, false) :: l2)
       (l1 ++ (n1 + n2, false) :: l2) ->
     Q tt (with_lfree lf' (with_mem m' h))) ->
  wp (combine (tot l1) (tot l1 + n1)) Q h.
Proof.
  intros T L HQ. apply (wp_combine h l1 l2 n1 n2 false false Q T). intros m' T'.
  apply HQ; [done|].
  apply lf_merge; [|done]. pose proof (t_good _ _ T) as G.
  rewrite Forall_app, Forall_cons in G. destruct G as (_ & [G _] & _). cbn in G. lia.
Qed.

Lemma tiles_lfree (h : heap) (lf : Z) (l : list blk) : tiles h l <-> tiles (with_lfree lf h) l.
Proof. split; intros []; by constructor. Qed.

Lemma lf_moved_trans (a b c : Z) (l1 l2 l3 : list blk) :
  lf_moved a b l1 l2 -> lf_moved b c l2 l3 -> lf_moved a c l1 l3.
Proof. intros [_ H1] [H2 H3]. split; auto. Qed.

Lemma lf_moved_refl (a : Z) (l : list blk) : lfree_ok a l -> lf_moved a a l l.
Proof. by split. Qed.

(** What the fragments of [plug_holes] do to the blocks. *)
Definition plugged (h : heap) (l l' : list blk) (Q : unit -> heap -> Prop) : Prop :=
  forall m' lf', tiles (with_mem m' h) l' -> lf_moved (lfree h) lf' l l' ->
    Q tt (with_lfree lf' (with_mem m' h)).

Lemma plugged_refl (h : heap) (l : list blk) (Q : unit -> heap -> Prop) :
  tiles h l -> lfree_ok (lfree h) l -> plugged h l l Q -> Q tt h.
Proof.
  intros T L HQ. specialize (HQ (h_mem h) (lfree h)). destruct h. apply HQ; [done|].
  by apply lf_moved_refl.
Qed.

(** The end of a list without adjacent free blocks. *)
Lemma coalesce_tail (l1 l2 : list blk) (n : Z) :
  no_adjacent_free (l1 ++ [(n, false)]) -> forall m,
  coalesce (l1 ++ (m, false) :: l2) = l1 ++ coalesce ((m, false) :: l2).
Proof.
  intros H m. destruct l1 as [|[k u] l1 _] using rev_ind; [done|].
  rewrite <- app_assoc. cbn [app]. destruct u.
  - rewrite coalesce_used; [by rewrite <- app_assoc|]. by apply no_adj_app in H as [H _].
  - rewrite <- app_assoc in H. apply no_adj_app in H as [_ H]. by destruct H.
Qed.

Lemma wp_plug_backward (h : heap) (l1 l2 : list blk) (n : Z) (Q : unit -> heap -> Prop) :
  let l := l1 ++ (n, false) :: l2 in
  tiles h l -> lfree_ok (lfree h) l -> no_adjacent_free l1 ->
  no_adjacent_free ((n, false) :: l2) ->
  plugged h l (coalesce l) Q -> wp (plug_backward (tot l1)) Q h.
Proof.
  intros l T L A1 A2 HQ. subst l.
  pose proof (block_header _ _ _ _ T) as E1.
  unfold plug_backward. do 2 hstep. cbn [header m_prev].
  destruct l1 as [|[k u] l0 _] using rev_ind.
  { cbn [app] in HQ, T, L. rewrite (coalesce_id _ A2) in HQ. cbn in E1. repeat hstep.
    exact (plugged_refl _ _ _ T L HQ). }
  rewrite last_off_app, tot_app, <- app_assoc in *. cbn [tot last_off fst app] in *.
  rewrite Z.add_0_r, ?Z.add_0_l in *.
  pose proof (block_header _ _ _ _ T) as E0.
  destruct (tiles_bounds h l0 [(k, u)] _ T) as (_ & G & _ & B1 & _).
  apply Forall_cons in G as [[Hk _] _]. cbn in Hk.
  repeat hstep. cbn. test_false. destruct u; cbn.
  - rewrite coalesce_used in HQ by done.
    rewrite (coalesce_id ((n, false) :: l2) A2) in HQ. hstep. eapply plugged_refl; eassumption.
  - apply wp_combine_free with (l2 := l2) (n2 := n); [done|done|].
    rewrite (coalesce_tail l0 _ k A1) in HQ.
    assert (E : coalesce ((k, false) :: (n, false) :: l2) = (k + n, false) :: l2).
    { change (coalesce ((k, false) :: (n, false) :: l2)) with
        (match coalesce ((n, false) :: l2) with
         | (m, false) :: l' => (k + m, false) :: l' | l' => (k, false) :: l' end).
      by rewrite (coalesce_id _ A2). }
    rewrite E in HQ. intros m' lf'. apply HQ.
Qed.

Lemma wp_plug_forward (h : heap) (l1 l2 : list blk) (n : Z) (Q : unit -> heap -> Prop) :
  let l := l1 ++ (n, false) :: l2 in
  tiles h l -> lfree_ok (lfree h) l -> no_adjacent_free l2 ->
  plugged h l (l1 ++ coalesce ((n, false) :: l2)) Q -> wp (plug_forward (tot l1)) Q h.
Proof.
  intros l T L A2 HQ. subst l.
  pose proof (block_header _ _ _ _ T) as E1.
  destruct (next_header _ _ _ _ T) as (y & E2 & Hy). cbn in E2, Hy.
  destruct (tiles_bounds h l1 [(n, false)] _ T) as (_ & G & _ & B1 & _).
  apply Forall_cons in G as [[Hn _] _]. cbn in Hn.
  unfold plug_forward. repeat hstep. cbn. test_false. cbn.
  cbn [coalesce] in HQ. rewrite (coalesce_id l2 A2) in HQ.
  destruct l2 as [|[m []] l2].
  - destruct Hy as [-> ->]. cbn. hstep. eapply plugged_refl; eassumption.
  - destruct Hy as [-> Hy]. cbn. hstep. eapply plugged_refl; eassumption.
  - destruct Hy as [-> Hy]. cbn. test_false. cbn.
    apply wp_combine_free with (l2 := l2) (n2 := m); [done|done|]. exact HQ.
Qed.

Lemma wp_plug_holes (h : heap) (l1 l2 : list blk) (n : Z) (Q : unit -> heap -> Prop) :
  let l := l1 ++ (n, false) :: l2 in
  tiles h l -> lfree_ok (lfree h) l -> no_adjacent_free l1 -> no_adjacent_free l2 ->
  plugged h l (coalesce l) Q -> wp (plug_holes (tot l1)) Q h.
Proof.
  intros l T L A1 A2 HQ.
  destruct (tiles_bounds h l1 [(n, false)] l2 T) as (G1 & G & G2 & B1 & B & B2 & Bt).
  apply Forall_cons in G as [[Hn D] _]. cbn in Hn, Bt.
  pose proof (block_header _ _ _ _ T) as E1.
  unfold plug_holes. repeat hstep; [test_true; done|test_true; done|].
  apply wp_plug_forward with (l2 := l2) (n := n); [done|done|done|].
  destruct (coalesce_head n l2) as (n' & l2' & E).
  pose proof (coalesce_no_adj ((n, false) :: l2)) as A.
  pose proof (coalesce_app l1 ((n, false) :: l2)) as C. rewrite E in A, C |- *.
  intros m' lf' T' M. apply wp_plug_backward with (l2 := l2') (n := n'); try done.
  - by apply tiles_lfree.
  - apply M.
  - rewrite C. intros m2 lf2 T2 M2.
    apply (HQ m2 lf2); [exact (proj2 (tiles_lfree (with_mem m2 h) lf' _) T2)|].
    by eapply lf_moved_trans.
Qed.

(** ** [rt_free] *)

Definition same_area (h h' : heap) : Prop :=
  h_ptr h' = h_ptr h /\ h_end h' = h_end h /\
  mem_size_aligned h' = mem_size_aligned h /\ h_data h' = h_data h.

Lemma tiles_same (h h' : heap) (l : list blk) :
  same_area h h' -> h_mem h' = h_mem h -> tiles h l -> tiles h' l.
Proof.
  intros (E1 & E2 & E3 & E4) E5 []. by constructor; rewrite ?E1, ?E2, ?E3, ?E4, ?E5.
Qed.

Lemma used_total_bounds (l : list blk) : Forall good l -> 0 <= used_total l <= tot l.
Proof.
  induction 1 as [|[n []] l [Hn _] Hl IH]; cbn in *; lia.
Qed.

Lemma align_check (x : Z) : x mod 4 = 0 -> (Z.land (u32 x) (RT_ALIGN_SIZE - 1) =? 0) = true.
Proof.
  intros H. apply Z.eqb_eq. change (RT_ALIGN_SIZE - 1) with (Z.ones 2).
  rewrite Z.land_ones by lia. unfold ubits. change (2 ^ 32) with ((2 ^ 2) * (2 ^ 30)).
  rewrite Z.rem_mul_r, Z.mul_comm, Z.mod_add by lia. rewrite Z.mod_mod by lia. exact H.
Qed.

Lemma block_aligned (h : heap) (l1 l2 : list blk) :
  tiles h (l1 ++ l2) -> (h_ptr h + tot l1) mod 4 = 0 /\ (h_ptr h + tot l1 + 12) mod 4 = 0.
Proof.
  intros T. destruct (t_base _ _ T) as (_ & Hb & _). pose proof (t_good _ _ T) as G.
  apply Forall_app in G as [G _]. destruct (good_tot _ G) as [_ [k ->]].
  split.
  - by rewrite Z.mod_add by lia.
  - replace (h_ptr h + k * 4 + 12) with (h_ptr h + (k + 3) * 4) by lia. by rewrite Z.mod_add by lia.
Qed.

Lemma set_block_used (h : heap) (l1 l2 : list blk) (n : Z) (u u' : bool) :
  tiles h (l1 ++ (n, u) :: l2) ->
  tiles (with_mem (<[tot l1 := header (last_off 0 0 l1) (tot l1) (n, u')]> (h_mem h)) h)
    (l1 ++ (n, u') :: l2).
Proof.
  intros T.
  destruct (tiles_bounds h l1 [(n, u)] l2 T) as (G1 & G & G2 & B1 & B & B2 & Bt).
  destruct (next_header _ _ _ _ T) as (y & E2 & Hy). cbn in E2, Hy, Bt.
  apply Forall_cons in G as [[Hn D] _]. cbn in Hn, D.
  apply (tiles_replace h _ l1 [(n, u)] [(n, u')] l2 T); cbn.
  - done.
  - by repeat constructor.
  - intros q Hq. rewrite lookup_insert_ne by lia. done.
  - by rewrite lookup_insert_eq.
  - rewrite Z.add_0_r in *. destruct l2 as [|c l2].
    + destruct Hy as [Hy <-]. exists y. by rewrite lookup_insert_ne by lia.
    + rewrite !lookup_insert_ne by lia. rewrite E2. by destruct Hy as [-> _].
Qed.

Lemma lfree_freed (lf : Z) (l1 l2 : list blk) (n : Z) :
  lfree_ok lf (l1 ++ (n, true) :: l2) ->
  lf_moved lf (if tot l1 <? lf then tot l1 else lf) (l1 ++ (n, true) :: l2)
    (l1 ++ (n, false) :: l2).
Proof.
  unfold lf_moved, lfree_ok, lfree_low. rewrite !tot_app, !free_offsets_app. cbn.
  rewrite !Forall_app, !Forall_cons, !elem_of_app, !elem_of_cons, Z.add_0_l.
  destruct (Z.ltb_spec (tot l1) lf) as [Hlt|Hge]; intros H; [|tauto].
  split; [by right; right; left|]. intros (H1 & H2). repeat split; [|lia|];
    (eapply Forall_impl; [eassumption|]; cbn; intros; lia).
Qed.

Lemma wp_heap_lock (h : heap) (Q : unit -> heap -> Prop) :
  heap_sem h = 1 -> Q tt (with_sem 0 h) -> wp sem_take Q h.
Proof. intros E H. unfold sem_take. hstep. hstep. rewrite E. done. Qed.

Lemma wp_kwhen_lfree (b : bool) (p : Z) (h : heap) (Q : unit -> heap -> Prop) :
  Q tt (with_lfree (if b then p else lfree h) h) -> wp (kwhen b (set_lfree p)) Q h.
Proof. by destruct b, h. Qed.

Lemma free_blocks (h : heap) (l1 l2 : list blk) (n : Z) :
  heap_ok h (l1 ++ (n, true) :: l2) -> 12 < n \/ l2 <> [] ->
  wp (rt_free (h_ptr h + tot l1 + 12))
    (fun _ h' =>
       let l' := coalesce (l1 ++ (n, false) :: l2) in
       heap_ok h' l' /\ same_area h h' /\
       lf_moved (lfree h) (lfree h') (l1 ++ (n, true) :: l2) l') h.
Proof.
  intros [T L A Eu Em Es] Hlast.
  destruct (tiles_bounds h l1 [(n, true)] l2 T) as (G1 & G & G2 & B1 & B & B2 & Bt).
  apply Forall_cons in G as [[Hn D] _]. cbn in Hn, D, Bt.
  destruct (t_base _ _ T) as (Hb & Hba & Hbe).
  destruct (block_aligned h l1 _ T) as [_ Ha].
  assert (Hin : tot l1 + 12 < h_end h).
  { destruct Hlast as [|Hl2]; [lia|]. destruct l2 as [|[m v] l2]; [done|].
    apply Forall_cons in G2 as [[Hm _] G2]. destruct (good_tot _ G2). cbn in *. lia. }
  pose proof (block_header _ _ _ _ T) as E1.
  unfold rt_free. test_false.
  do 2 hstep; [by apply align_check|]. repeat hstep; [by do 2 test_true|].
  do 2 test_false. cbn [orb].
  replace (h_ptr h + tot l1 + 12 - SIZEOF_STRUCT_MEM - h_ptr h) with (tot l1)
    by (unfold SIZEOF_STRUCT_MEM; lia).
  hstep. apply wp_heap_lock; [done|].
  repeat hstep. apply wp_kwhen_lfree. unfold sub_used. repeat hstep. cbn.
  rewrite insert_insert_eq.
  pose proof (set_block_used h l1 l2 n true false T) as T'.
  set (m' := <[tot l1 := _]> (h_mem h)) in T'.
  pose proof (used_total_bounds (l1 ++ (n, true) :: l2) (t_good _ _ T)) as Ub.
  rewrite (t_tot _ _ T), used_total_app in Ub. cbn in Ub.
  destruct (used_total_bounds _ G1), (used_total_bounds _ G2).
  replace (tot l1 + n - tot l1) with n by lia.
  rewrite ubits_small by (rewrite Eu, used_total_app; cbn; lia).
  pose proof (lfree_freed _ _ _ _ L) as M.
  apply (wp_plug_holes _ l1 l2 n).
  - destruct T'; by constructor.
  - apply M.
  - by apply no_adj_app in A as [A _].
  - apply no_adj_app in A as [_ A]. by apply no_adj_cons in A.
  - intros m2 lf2 T2 M2. unfold sem_release.
    destruct (coalesce_same (l1 ++ (n, false) :: l2) 0) as (_ & _ & Cu).
    split; [|split; [done|by eapply lf_moved_trans]]. constructor; cbn.
    + by refine (tiles_same _ _ _ _ _ T2).
    + apply M2.
    + apply coalesce_no_adj.
    + rewrite Cu, Eu, !used_total_app. cbn. lia.
    + lia.
    + done.
Qed.

(** C9: [rt_free] of a block in use makes it free and merges it with the free
    blocks around it: the headers then describe the coalesced list of blocks,
    no two free blocks are adjacent, the usage counter is right and the search
    pointer is a free block. *)
Theorem rt_free_ok (h : heap) (l1 l2 : list blk) (n : Z) :
  heap_ok h (l1 ++ (n, true) :: l2) -> 12 < n \/ l2 <> [] ->
  wp (rt_free (h_ptr h + tot l1 + 12))
    (fun _ h' =>
       let l' := coalesce (l1 ++ (n, false) :: l2) in
       heap_ok h' l' /\ same_area h h' /\
       lf_moved (lfree h) (lfree h') (l1 ++ (n, true) :: l2) l') h.
Proof. apply free_blocks. Qed.


(** ** [rt_malloc] *)

(** The first free block from offset [p] on with room for [size] bytes that
    starts below [lim]: the blocks before it, its length, the blocks after it. *)
Fixpoint first_fit (lim size p : Z) (l : list blk) : option (list blk * Z * list blk) :=
  match l with
  | [] => None
  | (n, u) :: l =>
      if p <? lim then
        if negb u && (size <=? n - 12) then Some ([], n, l)
        else match first_fit lim size (p + n) l with
             | Some (m1, k, m2) => Some ((n, u) :: m1, k, m2)
             | None => None
             end
      else None
  end.

Definition split_block (size n : Z) : list blk :=
  if size + 24 <=? n - 12 then [(size + 12, true); (n - (size + 12), false)]
  else [(n, true)].

Lemma split_tot (size n : Z) : tot (split_block size n) = n.
Proof. unfold split_block. case_test; cbn; lia. Qed.

Lemma split_good (size n : Z) :
  good (n, false) -> 12 <= size -> (4 | size) -> Forall good (split_block size n).
Proof.
  intros [Hn D] Hs Ds. cbn in *. unfold split_block. case_test; repeat constructor; cbn;
    try lia; try done.
  - apply Z.divide_add_r; [done|]. by exists 3.
  - apply Z.divide_sub_r; [done|]. apply Z.divide_add_r; [done|]. by exists 3.
Qed.

Lemma split_adj (l1 l2 : list blk) (size n : Z) :
  no_adjacent_free (l1 ++ (n, false) :: l2) ->
  no_adjacent_free (l1 ++ split_block size n ++ l2).
Proof.
  intros H. induction l1 as [|b l1 IH]; cbn [app] in *.
  - unfold split_block. case_test; [|by apply no_adj_cons in H]. cbn [app].
    destruct l2 as [|[m []] l2]; cbn in *; tauto.
  - specialize (IH (no_adj_cons _ _ H)). destruct b as [k []]; cbn [app]; [done|].
    destruct l1 as [|[m u] l1]; cbn [app] in *.
    + cbn in H. destruct H as [H _]. done.
    + destruct H as [-> _]. done.
Qed.

(** A block cut in two; the second part is free. *)
Lemma tiles_split (h : heap) (l1 l2 : list blk) (n k : Z) (u u' : bool) (m' : gmap Z heap_mem) :
  tiles h (l1 ++ (n, u) :: l2) -> 12 <= k -> 12 <= n - k -> (4 | k) ->
  (forall q, q <> tot l1 -> q <> tot l1 + k -> q <> tot l1 + n -> m' !! q = h_mem h !! q) ->
  m' !! tot l1 = Some (header (last_off 0 0 l1) (tot l1) (k, u')) ->
  m' !! (tot l1 + k) = Some (header (tot l1) (tot l1 + k) (n - k, false)) ->
  m' !! (tot l1 + n) = match l2 with
    | [] => h_mem h !! (tot l1 + n)
    | c :: _ => Some (header (tot l1 + k) (tot l1 + n) c)
    end ->
  tiles (with_mem m' h) (l1 ++ [(k, u'); (n - k, false)] ++ l2).
Proof.
  intros T Hk Hnk Dk Ho H1 H2 H3.
  destruct (tiles_bounds h l1 [(n, u)] l2 T) as (G1 & G & G2 & B1 & B & B2 & Bt).
  apply Forall_cons in G as [[Hn D] _]. cbn in Hn, D, Bt.
  destruct (next_header _ _ _ _ T) as (y & E2 & Hy). cbn in E2, Hy.
  apply (tiles_replace h _ l1 [(n, u)] [(k, u'); (n - k, false)] l2 T); cbn.
  - lia.
  - repeat constructor; cbn; try done. by apply Z.divide_sub_r.
  - intros q Hq. apply Ho; lia.
  - done.
  - rewrite Z.add_0_r. destruct l2 as [|c l2].
    + destruct Hy as [Hy <-]. exists y. by rewrite H3.
    + rewrite H3. split; [done|]. destruct Hy as [_ Hy]. apply Ho; lia.
Qed.

Lemma wp_add_used (n : Z) (h : heap) (l' : list blk) (Q : unit -> heap -> Prop) :
  used_mem h <= max_mem h -> tiles h l' -> used_mem h + n = used_total l' ->
  (forall u mx, u = used_total l' -> u <= mx -> Q tt (with_used u mx h)) ->
  wp (add_used n) Q h.
Proof.
  intros Em T E HQ. apply wp_modify.
  destruct (used_total_bounds l' (t_good _ _ T)). rewrite (t_tot _ _ T) in *.
  destruct (t_base _ _ T) as (Hb & _ & Hbe). cbn zeta. rewrite ubits_small by lia.
  apply HQ; [done|]. case_test; lia.
Qed.

Lemma wp_carve (h : heap) (l1 l2 : list blk) (n size : Z) (Q : unit -> heap -> Prop) :
  tiles h (l1 ++ (n, false) :: l2) -> 12 <= size <= n - 12 -> (4 | size) ->
  used_mem h = used_total (l1 ++ (n, false) :: l2) -> used_mem h <= max_mem h ->
  (forall m' u mx, let l' := l1 ++ split_block size n ++ l2 in
     tiles (with_mem m' h) l' -> u = used_total l' -> u <= mx ->
     Q tt (with_used u mx (with_mem m' h))) ->
  wp (carve (tot l1) size (header (last_off 0 0 l1) (tot l1) (n, false))) Q h.
Proof.
  intros T Hs Ds Eu Em HQ.
  destruct (tiles_bounds h l1 [(n, false)] l2 T) as (G1 & G & G2 & B1 & B & B2 & Bt).
  cbn in Bt. destruct (t_base _ _ T) as (Hb & _ & Hbe).
  pose proof (block_header _ _ _ _ T) as E1.
  destruct (next_header _ _ _ _ T) as (y & E2 & Hy). cbn in E2, Hy.
  apply Forall_cons in G as [[Hn D] _]. cbn in Hn, D.
  rewrite used_total_app in Eu. cbn in Eu.
  unfold carve, SIZEOF_STRUCT_MEM, MIN_SIZE_ALIGNED. cbn [header m_next fst].
  rewrite (ubits_small 32 (size + 12 + 12)), (ubits_small 32 (tot l1 + n - _)) by lia.
  unfold split_block in *.
  replace (tot l1 + n - (tot l1 + 12)) with (n - 12) by lia.
  replace (size + 12 + 12) with (size + 24) by lia.
  replace (tot l1 + 12 + size) with (tot l1 + (size + 12)) by lia.
  destruct (Z.leb_spec (size + 24) (n - 12)) as [Hle|Hgt].
  - repeat hstep. cbn. rewrite <- (t_end _ _ T), !insert_insert_eq.
    assert (Dk : (4 | size + 12)) by (apply Z.divide_add_r; [done|by exists 3]).
    assert (X : forall m', tiles (with_mem m' h) (l1 ++ [(size + 12, true); (n - (size + 12), false)] ++ l2) ->
      wp (add_used (size + 12)) Q (with_mem m' h)).
    { intros m' T'. refine (wp_add_used _ (with_mem m' h) _ _ Em T' _ _).
      - cbn. rewrite Eu, used_total_app. cbn. lia.
      - intros u mx. by apply HQ. }
    destruct l2 as [|c l2].
    + destruct Hy as [_ Hy]. rewrite Hy, Z.eqb_refl. cbn [negb kwhen]. hstep. cbn beta.
      match goal with |- wp _ _ (with_mem ?m _) => refine (X m _) end.
      apply (tiles_split _ _ _ _ _ _ _ _ T); try done; try lia.
      * intros q Q1 Q2 Q3. by rewrite !lookup_insert_ne by lia.
      * rewrite lookup_insert_eq. unfold header. cbn. by rewrite Z.add_assoc.
      * rewrite lookup_insert_ne, lookup_insert_eq by lia. unfold header. cbn.
        do 2 f_equal. lia.
      * by rewrite !lookup_insert_ne by lia.
    + destruct Hy as [-> Hy]. test_false. cbn [negb kwhen]. hstep. cbn beta.
      match goal with |- wp _ _ (with_mem ?m _) => refine (X m _) end.
      apply (tiles_split _ _ _ _ _ _ _ _ T); try done; try lia;
        cbn [h_mem with_mem header m_magic m_used m_next].
      * intros q Q1 Q2 Q3. by rewrite !lookup_insert_ne by lia.
      * rewrite lookup_insert_ne, lookup_insert_eq by lia. unfold header. cbn.
        by rewrite Z.add_assoc.
      * rewrite !lookup_insert_ne, lookup_insert_eq by lia. unfold header. cbn.
        do 2 f_equal. lia.
      * by rewrite lookup_insert_eq.
  - pose proof (set_block_used h l1 l2 n false true T) as T'.
    repeat hstep. refine (wp_add_used _ _ (l1 ++ (n, true) :: l2) _ _ T' _ _).
    + done.
    + cbn. rewrite Eu, used_total_app. cbn. lia.
    + intros u mx. by apply HQ.
Qed.

Lemma wp_lfree_loop (fuel : nat) (h : heap) (l1 l2 : list blk) (Q : unit -> heap -> Prop) :
  tiles h (l1 ++ l2) -> lfree h = tot l1 -> (length l2 < fuel)%nat ->
  (forall m1 m2, l2 = m1 ++ m2 -> Forall (fun b => b.2 = true) m1 ->
     match m2 with [] => True | b :: _ => b.2 = false end ->
     Q tt (with_lfree (tot (l1 ++ m1)) h)) ->
  wp (lfree_loop fuel) Q h.
Proof.
  revert h l1 l2. induction fuel as [|fuel IH]; intros h l1 l2 T El Hf HQ; [lia|].
  assert (Stop : match l2 with [] => True | b :: _ => b.2 = false end -> Q tt h).
  { intros Hn. specialize (HQ [] l2 eq_refl ltac:(constructor) Hn).
    rewrite app_nil_r, <- El in HQ. by destruct h. }
  cbn [lfree_loop]. do 2 hstep. rewrite El.
  destruct l2 as [|[n u] l2].
  - destruct (t_hend _ _ T) as (x & Ex & Hx). pose proof (t_tot _ _ T) as Et.
    rewrite app_nil_r in Et. rewrite Et. repeat hstep. rewrite Z.eqb_refl, andb_false_r.
    hstep. by apply Stop.
  - pose proof (block_header _ _ _ _ T) as E1.
    destruct (tiles_bounds h l1 [(n, u)] l2 T) as (_ & G & _ & B1 & _ & B2 & Bt).
    apply Forall_cons in G as [[Hn D] _]. cbn in Hn, Bt.
    repeat hstep. test_false. destruct u; cbn [header m_used m_next snd fst negb andb Z.eqb].
    + do 2 hstep. apply IH with (l1 := l1 ++ [(n, true)]) (l2 := l2).
      * rewrite <- app_assoc. by apply (tiles_lfree h).
      * rewrite tot_app. cbn. lia.
      * cbn in Hf. lia.
      * intros m1 m2 -> Hm1 Hm2. specialize (HQ ((n, true) :: m1) m2 eq_refl).
        rewrite <- app_assoc. apply HQ; [by constructor|done].
    + hstep. by apply Stop.
Qed.

Lemma free_offsets_range (l : list blk) (p o : Z) :
  Forall good l -> o ∈ free_offsets p l -> p <= o < p + tot l.
Proof.
  intros G. revert p. induction G as [|[n u] l [Hn _] Hl IH]; intros p; cbn; [set_solver|].
  cbn in Hn. destruct (good_tot l Hl). rewrite elem_of_app. intros [H'|H'].
  - destruct u; [set_solver|]. apply list_elem_of_singleton in H'. lia.
  - specialize (IH _ H'). lia.
Qed.

Lemma free_offsets_used (l : list blk) (p : Z) :
  Forall (fun b => b.2 = true) l -> free_offsets p l = [].
Proof.
  intros H. revert p. induction H as [|[n u] l Hu Hl IH]; intros p; [done|].
  cbn in Hu. subst. apply IH.
Qed.

(** The search pointer after a block has been taken: it moves on when it was at
    that block. *)
Lemma lfree_taken (lf n size : Z) (l1 l2 : list blk) :
  12 <= size <= n - 12 -> lf <> tot l1 ->
  lfree_ok lf (l1 ++ (n, false) :: l2) ->
  lf_moved lf lf (l1 ++ (n, false) :: l2) (l1 ++ split_block size n ++ l2).
Proof.
  intros Hs Hne. unfold lf_moved, lfree_ok, lfree_low.
  rewrite !tot_app, !free_offsets_app, split_tot. cbn.
  rewrite !Forall_app, !Forall_cons, !elem_of_app, !elem_of_cons, Z.add_0_l.
  intros H. split; [tauto|]. intros (H1 & H2 & H3). repeat split; try done.
  unfold split_block. case_test; cbn; repeat constructor. lia.
Qed.

Lemma lfree_next (lf : Z) (l1 l0 m1 m2 : list blk) :
  Forall good (l1 ++ m1 ++ m2) -> tot l0 = tot (m1 ++ m2) ->
  lf = tot l1 -> Forall (fun b => b.2 = true) m1 ->
  match m2 with [] => True | b :: _ => b.2 = false end ->
  lf_moved lf (tot (l1 ++ m1)) (l1 ++ l0) (l1 ++ m1 ++ m2).
Proof.
  intros G Et -> Hm1 Hm2. rewrite !Forall_app in G. destruct G as (G1 & G2 & G3).
  split.
  - unfold lfree_ok. rewrite app_assoc, !tot_app, free_offsets_app, elem_of_app.
    destruct m2 as [|[n u] m2]; [left; cbn; lia|]. cbn in Hm2. subst. right. right. cbn.
    apply elem_of_cons. left. rewrite tot_app. lia.
  - unfold lfree_low. rewrite app_assoc, (free_offsets_app l1), (free_offsets_app (l1 ++ m1)).
    rewrite (free_offsets_app l1), (free_offsets_used m1), app_nil_r by done.
    rewrite !Forall_app. intros [H1 _]. split; apply Forall_forall; intros o Ho.
    + exfalso. destruct (free_offsets_range _ _ _ G1 Ho).
      rewrite Forall_forall in H1. specialize (H1 o Ho). cbn in H1. lia.
    + destruct (free_offsets_range _ _ _ G3 Ho). cbn in *. lia.
Qed.

Lemma wp_lfree_search (h : heap) (l1 l2 : list blk) (n size : Z) (Q : unit -> heap -> Prop) :
  let l := l1 ++ (n, false) :: l2 in
  let l' := l1 ++ split_block size n ++ l2 in
  12 <= size <= n - 12 -> tiles h l' -> lfree_ok (lfree h) l ->
  (forall lf', lf_moved (lfree h) lf' l l' -> Q tt (with_lfree lf' h)) ->
  wp (lfree_search (tot l1)) Q h.
Proof.
  intros l l' Hs T L HQ. unfold lfree_search. do 2 hstep.
  destruct (Z.eqb_spec (tot l1) (lfree h)) as [E|Hne]; cbn [kwhen].
  2: { hstep. specialize (HQ (lfree h)). destruct h. apply HQ. by apply lfree_taken. }
  do 3 hstep. apply wp_lfree_loop with (l1 := l1) (l2 := split_block size n ++ l2);
    [done|done| |].
  { pose proof (seg_size _ _ _ _ (t_good _ _ T) (t_seg _ _ T)) as Hsz. unfold l' in Hsz.
    rewrite length_app in Hsz. lia. }
  intros m1 m2 Em Hm1 Hm2. pose proof T as T'. unfold l' in T'. rewrite Em in T'.
  assert (M : lf_moved (lfree h) (tot (l1 ++ m1)) l l').
  { unfold l'. rewrite Em. apply lfree_next; try done; [apply (t_good _ _ T')|].
    rewrite <- Em, tot_app, split_tot. done. }
  rewrite app_assoc in T'. do 2 hstep.
  destruct m2 as [|[k u] m2].
  - destruct (t_hend _ _ T) as (x & Ex & Hx). pose proof (t_tot _ _ T') as Et.
    rewrite app_nil_r in Et. cbn. rewrite Et in *.
    repeat hstep; [by rewrite Z.eqb_refl|]. by apply HQ.
  - cbn in Hm2. subst u. pose proof (block_header _ _ _ _ T') as E1.
    repeat hstep; [by rewrite orb_true_r|]. by apply HQ.
Qed.

Lemma wp_malloc_block (h : heap) (l1 l2 : list blk) (n size : Z) (Q : Z -> heap -> Prop) :
  let l := l1 ++ (n, false) :: l2 in
  let l' := l1 ++ split_block size n ++ l2 in
  tiles h l -> 12 <= size <= n - 12 -> (4 | size) -> lfree_ok (lfree h) l ->
  no_adjacent_free l -> used_mem h = used_total l -> used_mem h <= max_mem h ->
  heap_sem h = 0 ->
  (forall h', heap_ok h' l' -> same_area h h' -> lf_moved (lfree h) (lfree h') l l' ->
     Q (h_ptr h + tot l1 + 12) h') ->
  wp (malloc_block (tot l1) size) Q h.
Proof.
  intros l l' T Hs Ds L A Eu Em Es HQ.
  pose proof (block_header _ _ _ _ T) as E1.
  destruct (tiles_bounds h l1 [(n, false)] l2 T) as (G1 & G & G2 & B1 & B & B2 & Bt).
  cbn in Bt. destruct (t_base _ _ T) as (Hb & Hba & Hbe).
  destruct (block_aligned h l1 _ T) as [Ha1 Ha2].
  unfold malloc_block. do 2 hstep. hstep. apply wp_carve with (l2 := l2); try done.
  intros m' u mx lx T' Hu Hm.
  assert (E2 : exists b l3, split_block size n ++ l2 = b :: l3 /\ b.2 = true).
  { unfold split_block. case_test; cbn; eauto. }
  destruct E2 as (b & l3 & E2 & Hbu). pose proof T' as T2. unfold lx in T2. rewrite E2 in T2.
  pose proof (block_header _ _ _ _ T2) as E3. cbn in E3.
  hstep. eapply wp_set_magic; [exact E3|]. cbn.
  rewrite (insert_id m') by (rewrite E3; by destruct b).
  hstep. apply wp_lfree_search with (l1 := l1) (l2 := l2) (n := n) (size := size); try done.
  { by refine (tiles_same _ _ _ _ _ T'). }
  intros lf' M. unfold sem_release. repeat hstep; cbn.
  - unfold SIZEOF_STRUCT_MEM. rewrite (ubits_small 32 (h_ptr h + tot l1)) by lia.
    rewrite !ubits_small by lia. by test_true.
  - apply Z.eqb_eq. rewrite ubits_small by (unfold SIZEOF_STRUCT_MEM; lia). exact Ha2.
  - by apply align_check.
  - rewrite ubits_small by (unfold SIZEOF_STRUCT_MEM; lia). apply HQ; [|done|done].
    constructor; cbn; try done.
    + by refine (tiles_same _ _ _ _ _ T').
    + apply M.
    + by apply split_adj.
    + by rewrite Es.
Qed.

Lemma wp_malloc_loop (fuel : nat) (h : heap) (l1 l2 : list blk) (size : Z)
    (Q : Z -> heap -> Prop) :
  let l := l1 ++ l2 in
  tiles h l -> 12 <= size <= mem_size_aligned h -> (4 | size) -> lfree_ok (lfree h) l ->
  no_adjacent_free l -> used_mem h = used_total l -> used_mem h <= max_mem h ->
  heap_sem h = 0 -> (length l2 < fuel)%nat ->
  match first_fit (mem_size_aligned h - size) size (tot l1) l2 with
  | None => Q 0 (with_sem 1 h)
  | Some (m1, n, m2) => l2 = m1 ++ (n, false) :: m2 -> 12 <= size <= n - 12 ->
      let l' := l1 ++ m1 ++ split_block size n ++ m2 in
      forall h', heap_ok h' l' -> same_area h h' -> lf_moved (lfree h) (lfree h') l l' ->
        Q (h_ptr h + tot (l1 ++ m1) + 12) h'
  end ->
  wp (malloc_loop fuel (tot l1) size) Q h.
Proof.
  revert l1 l2 Q. induction fuel as [|fuel IH]; intros l1 l2 Q l T Hs Ds L A Eu Em Es Hf HQ;
    [lia|].
  pose proof (t_end _ _ T) as Eend. pose proof (t_tot _ _ T) as Et.
  destruct (t_base _ _ T) as (Hb & Hba & Hbe).
  cbn [malloc_loop]. do 2 hstep. rewrite ubits_small by lia.
  destruct l2 as [|[n u] l2].
  { unfold l in Et. rewrite app_nil_r in Et. test_false. unfold sem_release. do 3 hstep.
    rewrite Es. exact HQ. }
  pose proof (block_header _ _ _ _ T) as E1.
  destruct (tiles_bounds h l1 [(n, u)] l2 T) as (_ & G & _ & B1 & _ & B2 & Bt).
  apply Forall_cons in G as [[Hn D] _]. cbn in Hn, Bt. cbn [first_fit] in HQ.
  destruct (tot l1 <? mem_size_aligned h - size) eqn:El; b2p.
  2: { unfold sem_release. do 3 hstep. rewrite Es. exact HQ. }
  assert (Skip : negb u && (size <=? n - 12) = false ->
    wp (malloc_loop fuel (tot l1 + n) size) Q h).
  { intros Eb. rewrite Eb in HQ. clear Eb. subst l.
    replace (tot l1 + n) with (tot (l1 ++ [(n, u)])) in * by (rewrite tot_app; cbn; lia).
    apply IH with (l2 := l2); rewrite <- ?app_assoc; try done; [cbn in Hf; lia|].
    destruct (first_fit _ _ _ l2) as [[[m1 k] m2]|]; [|done].
    intros -> Hk. specialize (HQ eq_refl Hk). rewrite <- !app_assoc. exact HQ. }
  do 2 hstep. unfold SIZEOF_STRUCT_MEM. cbn [header m_used m_next snd fst].
  replace (tot l1 + n - (tot l1 + 12)) with (n - 12) by lia. rewrite ubits_small by lia.
  destruct u; cbn [negb andb Z.eqb] in *; [by apply Skip|].
  destruct (size <=? n - 12) eqn:E2; b2p; [|by apply Skip].
  apply wp_malloc_block with (l2 := l2) (n := n); try done; [lia|].
  rewrite app_nil_r in HQ. exact (HQ eq_refl ltac:(lia)).
Qed.

Lemma free_split (l : list blk) (p o : Z) :
  o ∈ free_offsets p l -> exists l1 n l2, l = l1 ++ (n, false) :: l2 /\ o = p + tot l1.
Proof.
  revert p. induction l as [|[n u] l IH]; intros p; cbn; [set_solver|].
  rewrite elem_of_app. intros [H|H].
  - destruct u; [set_solver|]. apply list_elem_of_singleton in H as ->.
    exists [], n, l. cbn. split; [done|lia].
  - destruct (IH _ H) as (l1 & k & l2 & -> & ->). exists ((n, u) :: l1), k, l2. cbn.
    split; [done|lia].
Qed.

Lemma lfree_split (lf : Z) (l : list blk) :
  lfree_ok lf l -> exists l1 l2, l = l1 ++ l2 /\ tot l1 = lf.
Proof.
  intros [->|L]; [exists l, []; by rewrite app_nil_r|].
  apply free_split in L as (l1 & n & l2 & -> & ->). eauto.
Qed.

(** The size of the block a request is served with. *)
Definition block_size (sz : Z) : Z := Z.max 12 (4 * ((sz + 3) / 4)).

Lemma malloc_blocks (h : heap) (l : list blk) (sz : Z) :
  heap_ok h l -> 12 <= mem_size_aligned h -> 0 <= sz < 2 ^ 32 - 3 ->
  exists l1 l2, l = l1 ++ l2 /\ tot l1 = lfree h /\
  wp (rt_malloc sz) (fun r h' =>
    if (sz =? 0) || (mem_size_aligned h <? block_size sz) then (r = 0 /\ h' = h) else
    match first_fit (mem_size_aligned h - block_size sz) (block_size sz) (lfree h) l2 with
    | None => r = 0 /\ h' = h
    | Some (m1, n, m2) =>
        let l' := l1 ++ m1 ++ split_block (block_size sz) n ++ m2 in
        l2 = m1 ++ (n, false) :: m2 /\ block_size sz <= n - 12 /\
        (r = h_ptr h + tot (l1 ++ m1) + 12) /\ heap_ok h' l' /\ same_area h h' /\
        lf_moved (lfree h) (lfree h') l l'
    end) h.
Proof.
  intros [T L A Eu Em Es] Hm Hsz.
  destruct (lfree_split _ _ L) as (l1 & l2 & -> & El). exists l1, l2.
  split; [done|]. split; [done|].
  unfold rt_malloc. destruct (Z.eqb_spec sz 0) as [->|Hz]; [by hstep|]. cbn [orb].
  rewrite RT_ALIGN_4 by done. change RT_ALIGN_SIZE with 4 in *.
  unfold MIN_SIZE_ALIGNED. do 2 hstep.
  destruct (Z.ltb_spec (mem_size_aligned h) (4 * ((sz + 3) / 4))) as [Hlt|Hge].
  { hstep. unfold block_size. by test_true. }
  assert (Eb : (if 4 * ((sz + 3) / 4) <? 12 then 12 else 4 * ((sz + 3) / 4)) = block_size sz)
    by (unfold block_size; case_test; lia).
  rewrite Eb. assert (Hb : 12 <= block_size sz <= mem_size_aligned h) by (unfold block_size; lia).
  assert (Db : (4 | block_size sz)).
  { unfold block_size. destruct (Z.max_spec 12 (4 * ((sz + 3) / 4))) as [[_ ->]|[_ ->]];
      [apply Z.divide_factor_l|by exists 3]. }
  test_false. hstep. apply wp_heap_lock; [done|]. do 4 hstep. cbn [h_mem lfree with_sem].
  rewrite <- El. apply wp_malloc_loop with (l2 := l2); cbn; try done.
  - by refine (tiles_same _ _ _ _ _ T).
  - pose proof (seg_size _ _ _ _ (t_good _ _ T) (t_seg _ _ T)) as Hs.
    rewrite length_app in Hs. lia.
  - destruct (first_fit _ _ _ l2) as [[[m1 n] m2]|].
    + intros -> Hn h' H1 H2 H3. rewrite <- El in H3.
      split_and!; try done; lia.
    + split; [done|]. destruct h. cbn in *. by subst.
Qed.

(** C7: [rt_malloc] is first fit from the search pointer on: it returns
    [RT_NULL] and changes nothing when the request is 0, larger than the heap,
    or fits no free block the search reaches; otherwise it returns the address
    behind the header of the first free block with room, that block is cut, its
    remainder stays free, and no other block changes. *)
Theorem rt_malloc_ok (h : heap) (l : list blk) (sz : Z) :
  heap_ok h l -> 12 <= mem_size_aligned h -> 0 <= sz < 2 ^ 32 - 3 ->
  exists l1 l2, l = l1 ++ l2 /\ tot l1 = lfree h /\
  wp (rt_malloc sz) (fun r h' =>
    if (sz =? 0) || (mem_size_aligned h <? block_size sz) then (r = 0 /\ h' = h) else
    match first_fit (mem_size_aligned h - block_size sz) (block_size sz) (lfree h) l2 with
    | None => r = 0 /\ h' = h
    | Some (m1, n, m2) =>
        let l' := l1 ++ m1 ++ split_block (block_size sz) n ++ m2 in
        l2 = m1 ++ (n, false) :: m2 /\ block_size sz <= n - 12 /\
        (r = h_ptr h + tot (l1 ++ m1) + 12) /\ heap_ok h' l' /\ same_area h h' /\
        lf_moved (lfree h) (lfree h') l l'
    end) h.
Proof. apply malloc_blocks. Qed.

Lemma first_fit_none (lim size p : Z) (l m1 m2 : list blk) (n : Z) :
  Forall good l -> first_fit lim size p l = None -> l = m1 ++ (n, false) :: m2 ->
  n - 12 < size \/ lim <= p + tot m1.
Proof.
  intros G. revert p m1. induction G as [|[k u] l [Hk _] Hl IH]; intros p m1 F E;
    [by destruct m1|]. cbn in F, Hk.
  destruct m1 as [|b m1]; cbn in E; [injection E as -> -> ->|injection E as <- ->]; cbn.
  - case_hyp; [|right; lia]. cbn in F. destruct (size <=? n - 12) eqn:E'; [done|]. b2p. by left.
  - assert (0 <= tot m1) by (apply Forall_app in Hl as [Hl _]; by destruct (good_tot _ Hl)).
    cbn in Hk. case_hyp; [|right; lia]. case_hyp; [done|].
    destruct (first_fit _ _ _ _) as [[[]]|] eqn:F'; [done|].
    destruct (IH _ m1 F' eq_refl); [by left|right; lia].
Qed.

(** When the search pointer is at the lowest free block, [rt_malloc] fails
    only if no free block fits, the last block of the heap with an exact fit
    left aside: the loop stops in front of it. *)
Theorem rt_malloc_complete (h : heap) (l : list blk) (sz : Z) :
  heap_ok h l -> lfree_low (lfree h) l -> 12 <= mem_size_aligned h -> 0 < sz < 2 ^ 32 - 3 ->
  wp (rt_malloc sz) (fun r _ => r = 0 ->
    forall l1 n l2, l = l1 ++ (n, false) :: l2 ->
      n - 12 < block_size sz \/ (l2 = [] /\ n - 12 = block_size sz)) h.
Proof.
  intros Hok Low Hm Hsz.
  destruct (malloc_blocks h l sz Hok Hm ltac:(lia)) as (a & b & El & Ea & W).
  eapply wp_mono; [exact W|]. cbn beta. intros r h' Hr -> l1 n l2 E.
  pose proof (ho_tiles _ _ Hok) as T. pose proof (t_good _ _ T) as G.
  pose proof (t_tot _ _ T) as Et. pose proof (t_end _ _ T) as Ee.
  rewrite E in G, Et. rewrite tot_app in Et. apply Forall_app in G as [G1 G2].
  apply Forall_cons in G2 as [[Hn _] G2]. cbn in Hn, Et.
  destruct (good_tot _ G1), (good_tot _ G2).
  assert (Hpos : l2 <> [] -> 12 <= tot l2).
  { destruct l2 as [|[m u] l2]; [done|]. intros _. apply Forall_cons in G2 as [[Hm' _] G2].
    destruct (good_tot _ G2). cbn in *. lia. }
  case_hyp.
  { apply orb_true_iff in Etest as [?|?]; b2p; [lia|]. left.
    destruct l2; cbn in *; lia. }
  assert (Hin : tot a <= tot l1).
  { rewrite Ea. unfold lfree_low in Low. rewrite E, free_offsets_app in Low.
    apply Forall_app in Low as [_ Low]. by apply Forall_cons in Low as [Low _]. }
  assert (Gab : Forall good a /\ Forall good b).
  { apply Forall_app. rewrite <- El. apply T. }
  destruct Gab as [Ga Gb]. destruct (good_tot _ Ga).
  destruct (first_fit _ _ _ b) as [[[m1 k] m2]|] eqn:F.
  { destruct Hr as (-> & _ & Hr & _). destruct (t_base _ _ T).
    apply Forall_app in Gb as [Gm _]. destruct (good_tot _ Gm). rewrite tot_app in Hr. lia. }
  assert (P : exists m, l1 = a ++ m /\ b = m ++ (n, false) :: l2).
  { rewrite El in E. apply app_eq_app in E as [m [[-> Em]|[-> Em]]]; [|by exists m].
    destruct m as [|c m]; [exists []; by rewrite !app_nil_r|].
    exfalso. apply Forall_app in Ga as [_ Gc]. apply Forall_cons in Gc as [[Hc _] Gc].
    destruct (good_tot _ Gc). rewrite tot_app in Hin. cbn in Hin. lia. }
  destruct P as (m & -> & ->). rewrite tot_app in *.
  destruct (first_fit_none _ _ _ _ _ _ _ Gb F eq_refl) as [?|?]; [by left|].
  destruct (decide (n - 12 < block_size sz)); [by left|]. right.
  destruct l2 as [|c l2]; [cbn in *; split; [done|lia]|]. specialize (Hpos ltac:(done)). lia.
Qed.

(** ** Initialisation *)

(** On an area with room for the two headers, [rt_system_heap_init] makes
    one free block of all the memory between them. *)
Theorem rt_system_heap_init_ok (h : heap) (begin_addr end_addr : Z) (ram : list Z) :
  let b := 4 * ((begin_addr + 3) / 4) in
  let e := 4 * (end_addr / 4) in
  0 < begin_addr < 2 ^ 32 - 3 -> 0 <= end_addr < 2 ^ 32 ->
  b + 24 <= e -> Z.of_nat (length ram) = e - b -> used_mem h = 0 -> 0 <= max_mem h ->
  wp (rt_system_heap_init begin_addr end_addr ram)
    (fun _ h' => h_ptr h' = b /\ mem_size_aligned h' = e - b - 24 /\ h_data h' = ram /\
       heap_ok h' [(e - b - 12, false)] /\ lfree_low (lfree h') [(e - b - 12, false)]) h.
Proof.
  intros b e Hb He Hbe Hr Hu Hm.
  unfold rt_system_heap_init. rewrite !ubits_small by lia.
  change RT_ALIGN_SIZE with 4. rewrite RT_ALIGN_4, RT_ALIGN_DOWN_4 by lia. fold b e.
  unfold SIZEOF_STRUCT_MEM.
  assert (0 < b /\ b mod 4 = 0 /\ (4 | e - b)).
  { assert (1 <= (begin_addr + 3) / 4) by (apply Z.div_le_lower_bound; lia).
    unfold b, e. split; [lia|]. split; [by rewrite Z.mul_comm, Z.mod_mul by lia|].
    apply Z.divide_sub_r; apply Z.divide_factor_l. }
  assert (e <= end_addr) by (apply Z.mul_div_le; lia). clearbody b e.
  replace (2 * 12) with 24 by lia. do 2 test_true. cbn [andb]. repeat hstep. cbn.
  split; [done|]. split; [done|]. split; [done|]. split.
  - constructor; cbn; try lia; try done.
    + constructor; cbn; try lia.
      * apply Forall_cons; split; [split; cbn; [lia|]|constructor].
        apply Z.divide_sub_r; [tauto|by exists 3].
      * rewrite lookup_insert_ne, lookup_insert_eq by lia. unfold header. cbn.
        split; [|done]. do 2 f_equal. lia.
      * rewrite lookup_insert_eq. eauto.
    + right. by left.
  - unfold lfree_low. cbn. repeat constructor. lia.
Qed.

(** ** The interface to the allocator's clients

    [al_inv h A]: [A] lists the memory in use, the address and the size of each
    piece. *)

Definition disjoint_areas (x y : Z * Z) : Prop := x.1 + x.2 <= y.1 \/ y.1 + y.2 <= x.1.

Class Allocator (H : Type) := {
  al_malloc : Z -> ST H Z;
  al_free : Z -> ST H unit;
  al_inv : H -> list (Z * Z) -> Prop;
  al_malloc_spec (h : H) (A : list (Z * Z)) (sz : Z) :
    al_inv h A -> 0 <= sz < 2 ^ 32 - 3 ->
    wp (al_malloc sz) (fun r h' =>
      (r = 0 /\ h' = h) \/ (exists n, 0 < r /\ sz <= n /\ al_inv h' ((r, n) :: A))) h;
  al_free_spec (h : H) (A B : list (Z * Z)) (r n : Z) :
    al_inv h A -> A ≡ₚ (r, n) :: B -> wp (al_free r) (fun _ h' => al_inv h' B) h;
  al_disjoint (h : H) (A B : list (Z * Z)) (x : Z * Z) :
    al_inv h A -> A ≡ₚ x :: B -> Forall (disjoint_areas x) B;
  al_area (h : H) (A : list (Z * Z)) (r n : Z) :
    al_inv h A -> (r, n) ∈ A -> 0 < r /\ r mod 4 = 0 /\ 0 <= n /\ r + n <= 2 ^ 32;
  al_perm (h : H) (A B : list (Z * Z)) : al_inv h A -> A ≡ₚ B -> al_inv h B;
}.

Definition area_of (h : heap) (x : Z * Z) : Z * Z := (h_ptr h + x.1 + 12, x.2 - 12).

Definition heap_inv (h : heap) (A : list (Z * Z)) : Prop :=
  exists l, heap_ok h l /\ 12 <= mem_size_aligned h /\
    Forall (fun x => 12 < x.2) (used_blocks 0 l) /\
    A ≡ₚ map (area_of h) (used_blocks 0 l).

Lemma used_split (l : list blk) (p o n : Z) :
  (o, n) ∈ used_blocks p l -> exists l1 l2, l = l1 ++ (n, true) :: l2 /\ o = p + tot l1.
Proof.
  revert p. induction l as [|[k u] l IH]; intros p; cbn; [set_solver|].
  rewrite elem_of_app. intros [H|H].
  - destruct u; [|set_solver]. apply list_elem_of_singleton in H as [= -> ->].
    exists [], l. cbn. split; [done|lia].
  - destruct (IH _ H) as (l1 & l2 & -> & ->). exists ((k, u) :: l1), l2. cbn.
    split; [done|lia].
Qed.

Lemma used_blocks_range (l : list blk) (p o n : Z) :
  Forall good l -> (o, n) ∈ used_blocks p l -> p <= o /\ o + n <= p + tot l /\ 12 <= n.
Proof.
  intros G H. apply used_split in H as (l1 & l2 & -> & ->).
  apply Forall_app in G as [G1 G2]. apply Forall_cons in G2 as [[Hn _] G2]. cbn in Hn.
  destruct (good_tot _ G1), (good_tot _ G2). rewrite tot_app. cbn. lia.
Qed.

(** An area in use is a block in use, found by its address. *)
Lemma area_split (h : heap) (l : list blk) (A B : list (Z * Z)) (r n : Z) :
  A ≡ₚ map (area_of h) (used_blocks 0 l) -> A ≡ₚ (r, n) :: B ->
  exists l1 l2, l = l1 ++ (n + 12, true) :: l2 /\ r = h_ptr h + tot l1 + 12 /\
    B ≡ₚ map (area_of h) (used_blocks 0 l1 ++ used_blocks (tot l1 + (n + 12)) l2).
Proof.
  intros E1 E2. rewrite E1 in E2.
  assert (H : (r, n) ∈ map (area_of h) (used_blocks 0 l)) by (rewrite E2; set_solver).
  apply list_elem_of_fmap in H as ([o k] & E & H). unfold area_of in E. cbn in E.
  injection E as -> ->. apply used_split in H as (l1 & l2 & -> & ->).
  exists l1, l2. replace (k - 12 + 12) with k by lia. split; [done|]. split; [f_equal; lia|].
  rewrite used_blocks_app in E2. cbn in E2. rewrite Z.add_0_l in E2.
  rewrite map_app in E2. cbn in E2. rewrite <- Permutation_middle in E2.
  rewrite map_app. symmetry. eapply Permutation_cons_inv. exact E2.
Qed.

Lemma used_split_block (size n p : Z) :
  12 <= size <= n - 12 ->
  exists k, used_blocks p (split_block size n) = [(p, k)] /\ size + 12 <= k.
Proof.
  intros H. unfold split_block. case_test; cbn; eexists; (split; [reflexivity|lia]).
Qed.

Lemma area_of_same (h h' : heap) : same_area h h' -> area_of h' = area_of h.
Proof. intros (E & _). unfold area_of. by rewrite E. Qed.

Lemma block_size_ge (sz : Z) : 0 <= sz -> sz <= block_size sz /\ 12 <= block_size sz.
Proof.
  intros H. unfold block_size. pose proof (Z.mul_succ_div_gt (sz + 3) 4 ltac:(lia)). lia.
Qed.

Lemma heap_malloc_spec (h : heap) (A : list (Z * Z)) (sz : Z) :
  heap_inv h A -> 0 <= sz < 2 ^ 32 - 3 ->
  wp (rt_malloc sz) (fun r h' =>
    (r = 0 /\ h' = h) \/ (exists n, 0 < r /\ sz <= n /\ heap_inv h' ((r, n) :: A))) h.
Proof.
  intros (l & Hok & Hm & F & E) Hsz.
  destruct (malloc_blocks h l sz Hok Hm Hsz) as (l1 & l2 & -> & _ & W).
  eapply wp_mono; [exact W|]. cbn beta. intros r h' Hr. case_hyp; [by left|].
  destruct (first_fit _ _ _ l2) as [[[m1 n] m2]|]; [|by left]. right.
  destruct Hr as (-> & Hn & -> & Hok' & Hs & _). destruct (block_size_ge sz ltac:(lia)).
  destruct (tiles_bounds h (l1 ++ m1) [(n, false)] m2) as (_ & _ & _ & B1 & _).
  { rewrite <- app_assoc. apply (ho_tiles _ _ Hok). }
  destruct (t_base _ _ (ho_tiles _ _ Hok)) as [Hb _].
  rewrite (app_assoc l1 m1 ((n, false) :: m2)) in E, F.
  rewrite (app_assoc l1) in Hok'.
  destruct (used_split_block (block_size sz) n (0 + tot (l1 ++ m1)) ltac:(lia)) as (k & Ek & Hk).
  rewrite !used_blocks_app in E, F. cbn in E, F. rewrite map_app in E.
  exists (k - 12). split; [lia|]. split; [lia|].
  eexists. split; [exact Hok'|]. split; [destruct Hs as (_ & _ & -> & _); done|].
  rewrite !used_blocks_app, split_tot, Ek. split.
  - rewrite !Forall_app in *. destruct F as [F1 F2]. refine (conj F1 (conj _ F2)).
    apply Forall_singleton. cbn. lia.
  - rewrite (area_of_same _ _ Hs), !map_app, E.
    change (map (area_of h) [(0 + tot (l1 ++ m1), k)])
      with [(h_ptr h + (0 + tot (l1 ++ m1)) + 12, k - 12)].
    rewrite !Z.add_0_l, map_app. apply Permutation_middle.
Qed.

Lemma heap_free_spec (h : heap) (A B : list (Z * Z)) (r n : Z) :
  heap_inv h A -> A ≡ₚ (r, n) :: B -> wp (rt_free r) (fun _ h' => heap_inv h' B) h.
Proof.
  intros (l & Hok & Hm & F & E) E2.
  destruct (area_split h l A B r n E E2) as (l1 & l2 & -> & -> & EB).
  rewrite used_blocks_app in F. cbn in F. apply Forall_app in F as [F1 F2].
  apply Forall_cons in F2 as [Hn F2]. cbn in Hn.
  eapply wp_mono; [apply (free_blocks h l1 l2 (n + 12) Hok); left; lia|]. cbn beta zeta.
  intros _ h' (Hok' & Hs & _). exists (coalesce (l1 ++ (n + 12, false) :: l2)).
  split; [exact Hok'|].
  split; [destruct Hs as (_ & _ & -> & _); done|].
  rewrite (proj1 (coalesce_same _ 0)).
  rewrite used_blocks_app. cbn. split; [by apply Forall_app|].
  by rewrite (area_of_same _ _ Hs), EB.
Qed.

Lemma heap_disjoint (h : heap) (A B : list (Z * Z)) (x : Z * Z) :
  heap_inv h A -> A ≡ₚ x :: B -> Forall (disjoint_areas x) B.
Proof.
  intros (l & Hok & Hm & F & E) E2. destruct x as [r n].
  destruct (area_split h l A B r n E E2) as (l1 & l2 & -> & -> & EB).
  destruct (tiles_bounds h l1 [(n + 12, true)] l2 (ho_tiles _ _ Hok))
    as (G1 & _ & G2 & B1 & _ & B2 & _).
  rewrite EB, map_app, Forall_app. unfold disjoint_areas, area_of.
  split; apply Forall_fmap, Forall_forall; intros [o k] Ho;
    apply used_blocks_range in Ho; try done; cbn in *; lia.
Qed.

Lemma heap_area (h : heap) (A : list (Z * Z)) (r n : Z) :
  heap_inv h A -> (r, n) ∈ A -> 0 < r /\ r mod 4 = 0 /\ 0 <= n /\ r + n <= 2 ^ 32.
Proof.
  intros (l & Hok & Hm & F & E) H. rewrite E in H.
  apply list_elem_of_fmap in H as ([o k] & E' & H). unfold area_of in E'. cbn in E'.
  injection E' as -> ->. pose proof (ho_tiles _ _ Hok) as T.
  pose proof (used_blocks_range _ _ _ _ (t_good _ _ T) H) as (Ho & Hk & Hk').
  rewrite (t_tot _ _ T) in Hk. destruct (t_base _ _ T) as (Hb & _ & Hbe).
  apply used_split in H as (l1 & l2 & -> & ->). rewrite Z.add_0_l in *.
  destruct (block_aligned h l1 _ T) as [_ Ha]. split_and!; try done; lia.
Qed.

Lemma heap_perm (h : heap) (A B : list (Z * Z)) : heap_inv h A -> A ≡ₚ B -> heap_inv h B.
Proof. intros (l & Hl & Hm & Hf & E) P. exists l. by rewrite <- P. Qed.

#[export] Instance heap_allocator : Allocator heap := {|
  al_malloc := rt_malloc;
  al_free := rt_free;
  al_inv := heap_inv;
  al_malloc_spec := heap_malloc_spec;
  al_free_spec := heap_free_spec;
  al_disjoint := heap_disjoint;
  al_area := heap_area;
  al_perm := heap_perm;
|}.

(** ** The theorems on a small heap *)

Definition small_heap : heap :=
  Heap 4096 112 0 1 100 0 0
    (<[0 := HeapMem HEAP_MAGIC 0 112 0]> (<[112 := HeapMem HEAP_MAGIC 1 112 112]> ∅))
    (replicate 124 0).

(** The same after a first [rt_malloc 10]. *)
Definition small_heap_used : heap :=
  Heap 4096 112 24 1 100 24 24
    (<[0 := HeapMem HEAP_MAGIC 1 24 0]> (<[24 := HeapMem HEAP_MAGIC 0 112 0]>
      (<[112 := HeapMem HEAP_MAGIC 1 112 112]> ∅)))
    (replicate 124 0).

Lemma small_heap_ok : heap_ok small_heap [(112, false)].
Proof.
  constructor; cbn; try done; [|right; by left].
  constructor; cbn; try done.
  - apply Forall_singleton. split; cbn; [lia|by exists 28].
  - rewrite lookup_insert_ne, lookup_insert_eq by lia. eauto.
Qed.

Lemma small_heap_used_ok : heap_ok small_heap_used [(24, true); (88, false)].
Proof.
  constructor; cbn; try done; [|right; by left].
  constructor; cbn; try done.
  - apply Forall_cons; split; [split; cbn; [lia|by exists 6]|].
    apply Forall_singleton. split; cbn; [lia|by exists 22].
  - eexists. by vm_compute.
Qed.

Lemma rt_malloc_ok_witness :
  wp (rt_malloc 10) (fun r h' =>
    r = 4108 /\ heap_ok h' [(24, true); (88, false)]) small_heap.
Proof.
  destruct (rt_malloc_ok small_heap [(112, false)] 10 small_heap_ok ltac:(by vm_compute)
    ltac:(by vm_compute)) as (l1 & l2 & E & T & W).
  assert (l1 = [] /\ l2 = [(112, false)]) as [-> ->].
  { destruct l1 as [|b [|c l1]]; [done| |done].
    injection E as <- <-. done. }
  eapply wp_mono; [exact W|]. intros r h' H. vm_compute in H.
  destruct H as (_ & _ & -> & H & _). done.
Defined.

Lemma rt_free_ok_witness :
  wp (rt_free 4108) (fun _ h' => heap_ok h' [(112, false)]) small_heap_used.
Proof.
  eapply wp_mono;
    [exact (rt_free_ok small_heap_used [] [(88, false)] 24 small_heap_used_ok
       ltac:(left; by vm_compute))|].
  by intros _ h' [H _].
Defined.

Lemma rt_malloc_complete_witness :
  wp (rt_malloc 40) (fun r _ => r <> 0) small_heap.
Proof.
  eapply wp_mono;
    [exact (rt_malloc_complete small_heap [(112, false)] 40 small_heap_ok
       ltac:(apply Forall_singleton; by vm_compute) ltac:(by vm_compute)
       ltac:(by vm_compute))|].
  cbn beta. intros r _ H Hr. destruct (H Hr [] 112 [] eq_refl) as [H'|[_ H']]; done.
Defined.

Lemma rt_system_heap_init_ok_witness :
  wp (rt_system_heap_init 4095 4220 (replicate 124 0)) (fun _ h' => heap_ok h' [(112, false)])
    (Heap 0 0 0 0 0 0 0 ∅ []).
Proof.
  eapply wp_mono;
    [apply (rt_system_heap_init_ok (Heap 0 0 0 0 0 0 0 ∅ []) 4095 4220 (replicate 124 0));
       by vm_compute|].
  intros _ h' (_ & _ & _ & H & _). exact H.
Defined.

(** ** Limits of the code *)

(** A size in the last three bytes of the range rounds up to 0, and the request
    is served with the smallest block. *)
Theorem malloc_size_overflow :
  wp (rt_malloc (2 ^ 32 - 1)) (fun r h' => r = 4108 /\ used_mem h' = 24) small_heap.
Proof. by vm_compute. Qed.

(** The search stops in front of a last block that fits exactly. *)
Example malloc_exact_fit : rt_malloc 100 small_heap = Ok (0, small_heap).
Proof. by vm_compute. Qed.

(** [rt_realloc] that shrinks a block does not lower the search pointer: here
    the whole heap is one block, it is cut to 4 bytes, and a request for 40
    bytes fails although 72 bytes are free. *)
Definition shrink_then_malloc : ST heap (list Z) :=
  a ← rt_malloc 96; b ← rt_realloc a 4; c ← rt_malloc 40; mret [a; b; c].

Example realloc_shrink_lost :
  wp shrink_then_malloc (fun r h' => r = [4108; 4108; 0] /\ lfree h' = h_end h' /\
    h_mem h' !! 16 = Some (HeapMem HEAP_MAGIC 0 112 0)) small_heap.
Proof. by vm_compute. Qed.
