(* ===== verification/KState.v ===== *)
(** * Kernel state

    The state the kernel files share: threads and the lists their [tlist] node
    can be in, timers, objects and IPC objects, each in a map from the address
    of the object.  A C pointer to an object is its address, [RT_NULL] is 0; the
    timer embedded in a thread is named by its thread.  A list of threads (ready
    queue, suspend list of an IPC object, defunct list) is a Rocq list; that the
    pointer operations of rtservice.h act on such lists is the subject of
    [RtList].  Code runs in the monad [K]; [rt_hw_interrupt_disable] and
    [rt_hw_interrupt_enable] delimit sections nothing interleaves with, so they
    leave no trace in a function that runs alone. *)

From S2P Require Import Prelude Heap.

(** ** Constants of rtdef.h and rtconfig.h *)

Definition RT_EOK : Z := 0.
Definition RT_ERROR : Z := 1.
Definition RT_ETIMEOUT : Z := 2.
Definition RT_EFULL : Z := 3.
Definition RT_EEMPTY : Z := 4.
Definition RT_ENOMEM : Z := 5.
Definition RT_ENOSYS : Z := 6.
Definition RT_EBUSY : Z := 7.

Definition RT_THREAD_INIT : Z := 0.
Definition RT_THREAD_READY : Z := 1.
Definition RT_THREAD_SUSPEND : Z := 2.
Definition RT_THREAD_CLOSE : Z := 4.

Definition RT_THREAD_PRIORITY_MAX : Z := 32.
Definition RT_NAME_MAX : Z := 8.
Definition RT_TICK_PER_SECOND : Z := 100.
Definition RT_TICK_MAX : Z := 0xffffffff.
Definition RT_TIMER_SKIP_LIST_LEVEL : nat := 1.
Definition RT_TIMER_SKIP_LIST_MASK : Z := 3.

Definition RT_TIMER_FLAG_ACTIVATED : Z := 1.
Definition RT_TIMER_FLAG_ONE_SHOT : Z := 0.
Definition RT_TIMER_FLAG_PERIODIC : Z := 2.

Definition RT_IPC_FLAG_FIFO : Z := 0.
Definition RT_IPC_FLAG_PRIO : Z := 1.
Definition RT_IPC_CMD_RESET : Z := 1.
Definition RT_WAITING_FOREVER : Z := -1.

Definition RT_NULL : Z := 0.

(** ** Identifiers *)

Inductive oid :=
| Obj (a : Z)
| ThreadTimer (t : Z).

#[export] Instance oid_eq_dec : EqDecision oid.
Proof. solve_decision. Defined.
#[export] Program Instance oid_countable : Countable oid :=
  inj_countable' (fun o => match o with Obj a => (true, a) | ThreadTimer t => (false, t) end)
    (fun x => match x with (true, a) => Obj a | (false, t) => ThreadTimer t end) _.
Next Obligation. by intros []. Qed.

(** The lists a thread's [tlist] node can be in. *)
Inductive lid :=
| LReady (p : Z)
| LDefunct
| LSuspend (o : Z)
| LSender (o : Z).

#[export] Instance lid_eq_dec : EqDecision lid.
Proof. solve_decision. Defined.
#[export] Program Instance lid_countable : Countable lid :=
  inj_countable'
    (fun l => match l with
      | LReady p => inl (inl p) | LDefunct => inl (inr tt)
      | LSuspend o => inr (inl o) | LSender o => inr (inr o) end)
    (fun x => match x with
      | inl (inl p) => LReady p | inl (inr tt) => LDefunct
      | inr (inl o) => LSuspend o | inr (inr o) => LSender o end) _.
Next Obligation. by intros []. Qed.

(** ** Data *)

Record rt_object := RtObject { o_name : list Z; o_type : Z; o_flag : Z }.

Record rt_thread := RtThread {
  t_entry : Z; t_parameter : Z;
  t_stack_addr : Z; t_stack_size : Z; t_stack : list Z; t_sp : Z;
  t_error : Z; t_stat : Z;
  t_current_priority : Z; t_init_priority : Z; t_number_mask : Z;
  t_event_set : Z; t_event_info : Z;
  t_init_tick : Z; t_remaining_tick : Z;
  t_cleanup : Z; t_user_data : Z;
}.

(** [timeout_func]: the thread timeout of thread.c, or a function of the user
    code, known by its address. *)
Inductive timeout_fn :=
| F_rt_thread_timeout
| F_user (f : Z).

Record rt_timer := RtTimer {
  tm_func : timeout_fn; tm_parameter : Z; tm_init_tick : Z; tm_timeout_tick : Z;
}.

Record rt_semaphore := RtSemaphore { sem_value : Z }.

Record rt_mutex := RtMutex {
  mtx_value : Z; mtx_original_priority : Z; mtx_hold : Z; mtx_owner : Z;
}.

Record rt_event := RtEvent { ev_set : Z }.

Record rt_mailbox := RtMailbox {
  mb_pool_addr : Z; mb_msg_pool : list Z; mb_size : Z; mb_entry : Z;
  mb_in_offset : Z; mb_out_offset : Z;
}.

(** A mailbox: [mb_msg_pool] are the words of its pool.  A message queue: the
    pool's messages by index, with the [next] pointer and
    the payload of each; [None] is [RT_NULL]. *)
Record rt_mq_message := RtMqMessage { msg_next : option Z; msg_body : list Z }.

Record rt_messagequeue := RtMessagequeue {
  mq_pool_addr : Z; mq_pool : gmap Z rt_mq_message; mq_msg_size : Z; mq_max_msgs : Z; mq_entry : Z;
  mq_head : option Z; mq_tail : option Z; mq_free : option Z;
}.

(** A memory pool: for each block address, the pointer word in front of it. *)
Inductive mp_word :=
| MpNext (b : Z)
| MpPool (mp : Z).

Record rt_mempool := RtMempool {
  mp_start : Z; mp_size : Z; mp_block_size : Z; mp_block_list : Z;
  mp_total : Z; mp_free : Z; mp_suspend_count : Z;
}.

(** [dq_items]: what the memory at [dq_queue] holds. *)
Record rt_data_queue := RtDataQueue {
  dq_size : Z; dq_lwm : Z; dq_waiting_lwm : bool; dq_get_index : Z; dq_put_index : Z;
  dq_queue : Z; dq_items : list (Z * Z); dq_evt_notify : Z;
}.

(** The functions of a driver are known by their addresses. *)
Record rt_device := RtDevice {
  d_flag : Z; d_open_flag : Z; d_ref_count : Z; d_rx_indicate : Z; d_tx_complete : Z;
  d_init : Z; d_open : Z; d_close : Z; d_read : Z; d_write : Z; d_control : Z;
}.

Record sched := Sched {
  s_threads : gmap Z rt_thread;
  s_tlists : gmap lid (list Z);
  s_group : Z;
  s_current : Z;
  s_current_priority : Z;
  s_lock_nest : Z;
  s_interrupt_nest : Z;
  (* rt_thread_switch_interrupt_flag and the two thread variables of
     context_gcc.S *)
  s_switch : option (Z * Z);
}.

Record timers := Timers {
  ts_timers : gmap oid rt_timer;
  ts_rows : list (list oid);
  ts_random_nr : Z;
  ts_tick : Z;
}.

Record ipcs := Ipcs {
  i_sems : gmap Z rt_semaphore;
  i_mutexes : gmap Z rt_mutex;
  i_events : gmap Z rt_event;
  i_mbs : gmap Z rt_mailbox;
  i_mqs : gmap Z rt_messagequeue;
  i_mps : gmap Z rt_mempool;
  i_mpmem : gmap Z mp_word;
  (* the flag of each completion *)
  i_completions : gmap Z Z;
  i_dqs : gmap Z rt_data_queue;
  i_devices : gmap Z rt_device;
}.

Record objects := Objects {
  ob_objs : gmap oid rt_object;
  ob_container : gmap Z (list oid);
}.

Record kst := Kst {
  sc : sched;
  tm : timers;
  ob : objects;
  ip : ipcs;
  hp : heap;
  errno : Z;
}.

(** ** Field updates *)

Definition upd_sc (f : sched -> sched) (s : kst) : kst :=
  Kst (f (sc s)) (tm s) (ob s) (ip s) (hp s) (errno s).
Definition upd_tm (f : timers -> timers) (s : kst) : kst :=
  Kst (sc s) (f (tm s)) (ob s) (ip s) (hp s) (errno s).
Definition upd_ob (f : objects -> objects) (s : kst) : kst :=
  Kst (sc s) (tm s) (f (ob s)) (ip s) (hp s) (errno s).
Definition upd_ip (f : ipcs -> ipcs) (s : kst) : kst :=
  Kst (sc s) (tm s) (ob s) (f (ip s)) (hp s) (errno s).
Definition upd_hp (h : heap) (s : kst) : kst :=
  Kst (sc s) (tm s) (ob s) (ip s) h (errno s).
Definition set_errno (e : Z) (s : kst) : kst :=
  Kst (sc s) (tm s) (ob s) (ip s) (hp s) e.

Definition with_threads (m : gmap Z rt_thread) (c : sched) : sched :=
  Sched m (s_tlists c) (s_group c) (s_current c) (s_current_priority c)
    (s_lock_nest c) (s_interrupt_nest c) (s_switch c).
Definition with_tlists (m : gmap lid (list Z)) (c : sched) : sched :=
  Sched (s_threads c) m (s_group c) (s_current c) (s_current_priority c)
    (s_lock_nest c) (s_interrupt_nest c) (s_switch c).
Definition with_group (g : Z) (c : sched) : sched :=
  Sched (s_threads c) (s_tlists c) g (s_current c) (s_current_priority c)
    (s_lock_nest c) (s_interrupt_nest c) (s_switch c).
Definition with_current (t p : Z) (c : sched) : sched :=
  Sched (s_threads c) (s_tlists c) (s_group c) t p
    (s_lock_nest c) (s_interrupt_nest c) (s_switch c).
Definition with_lock_nest (n : Z) (c : sched) : sched :=
  Sched (s_threads c) (s_tlists c) (s_group c) (s_current c) (s_current_priority c)
    n (s_interrupt_nest c) (s_switch c).
Definition with_interrupt_nest (n : Z) (c : sched) : sched :=
  Sched (s_threads c) (s_tlists c) (s_group c) (s_current c) (s_current_priority c)
    (s_lock_nest c) n (s_switch c).
Definition with_switch (x : option (Z * Z)) (c : sched) : sched :=
  Sched (s_threads c) (s_tlists c) (s_group c) (s_current c) (s_current_priority c)
    (s_lock_nest c) (s_interrupt_nest c) x.

Definition with_timers (m : gmap oid rt_timer) (c : timers) : timers :=
  Timers m (ts_rows c) (ts_random_nr c) (ts_tick c).
Definition with_rows (r : list (list oid)) (c : timers) : timers :=
  Timers (ts_timers c) r (ts_random_nr c) (ts_tick c).
Definition with_random (n : Z) (c : timers) : timers :=
  Timers (ts_timers c) (ts_rows c) n (ts_tick c).
Definition with_tick (n : Z) (c : timers) : timers :=
  Timers (ts_timers c) (ts_rows c) (ts_random_nr c) n.

Definition with_sems (m : gmap Z rt_semaphore) (c : ipcs) : ipcs :=
  Ipcs m (i_mutexes c) (i_events c) (i_mbs c) (i_mqs c)
    (i_mps c) (i_mpmem c) (i_completions c) (i_dqs c) (i_devices c).
Definition with_mutexes (m : gmap Z rt_mutex) (c : ipcs) : ipcs :=
  Ipcs (i_sems c) m (i_events c) (i_mbs c) (i_mqs c)
    (i_mps c) (i_mpmem c) (i_completions c) (i_dqs c) (i_devices c).
Definition with_events (m : gmap Z rt_event) (c : ipcs) : ipcs :=
  Ipcs (i_sems c) (i_mutexes c) m (i_mbs c) (i_mqs c)
    (i_mps c) (i_mpmem c) (i_completions c) (i_dqs c) (i_devices c).
Definition with_mbs (m : gmap Z rt_mailbox) (c : ipcs) : ipcs :=
  Ipcs (i_sems c) (i_mutexes c) (i_events c) m (i_mqs c)
    (i_mps c) (i_mpmem c) (i_completions c) (i_dqs c) (i_devices c).
Definition with_mqs (m : gmap Z rt_messagequeue) (c : ipcs) : ipcs :=
  Ipcs (i_sems c) (i_mutexes c) (i_events c) (i_mbs c) m
    (i_mps c) (i_mpmem c) (i_completions c) (i_dqs c) (i_devices c).
Definition with_mps (m : gmap Z rt_mempool) (c : ipcs) : ipcs :=
  Ipcs (i_sems c) (i_mutexes c) (i_events c) (i_mbs c) (i_mqs c)
    m (i_mpmem c) (i_completions c) (i_dqs c) (i_devices c).
Definition with_mpmem (m : gmap Z mp_word) (c : ipcs) : ipcs :=
  Ipcs (i_sems c) (i_mutexes c) (i_events c) (i_mbs c) (i_mqs c)
    (i_mps c) m (i_completions c) (i_dqs c) (i_devices c).
Definition with_completions (m : gmap Z Z) (c : ipcs) : ipcs :=
  Ipcs (i_sems c) (i_mutexes c) (i_events c) (i_mbs c) (i_mqs c)
    (i_mps c) (i_mpmem c) m (i_dqs c) (i_devices c).
Definition with_dqs (m : gmap Z rt_data_queue) (c : ipcs) : ipcs :=
  Ipcs (i_sems c) (i_mutexes c) (i_events c) (i_mbs c) (i_mqs c)
    (i_mps c) (i_mpmem c) (i_completions c) m (i_devices c).
Definition with_devices (m : gmap Z rt_device) (c : ipcs) : ipcs :=
  Ipcs (i_sems c) (i_mutexes c) (i_events c) (i_mbs c) (i_mqs c)
    (i_mps c) (i_mpmem c) (i_completions c) (i_dqs c) m.

(** Fields of a thread. *)
Definition thr_error (e : Z) (t : rt_thread) : rt_thread :=
  RtThread (t_entry t) (t_parameter t) (t_stack_addr t) (t_stack_size t) (t_stack t)
    (t_sp t) e (t_stat t) (t_current_priority t) (t_init_priority t) (t_number_mask t)
    (t_event_set t) (t_event_info t) (t_init_tick t) (t_remaining_tick t)
    (t_cleanup t) (t_user_data t).
Definition thr_stat (x : Z) (t : rt_thread) : rt_thread :=
  RtThread (t_entry t) (t_parameter t) (t_stack_addr t) (t_stack_size t) (t_stack t)
    (t_sp t) (t_error t) x (t_current_priority t) (t_init_priority t) (t_number_mask t)
    (t_event_set t) (t_event_info t) (t_init_tick t) (t_remaining_tick t)
    (t_cleanup t) (t_user_data t).
Definition thr_priority (p m : Z) (t : rt_thread) : rt_thread :=
  RtThread (t_entry t) (t_parameter t) (t_stack_addr t) (t_stack_size t) (t_stack t)
    (t_sp t) (t_error t) (t_stat t) p (t_init_priority t) m
    (t_event_set t) (t_event_info t) (t_init_tick t) (t_remaining_tick t)
    (t_cleanup t) (t_user_data t).
Definition thr_event (x i : Z) (t : rt_thread) : rt_thread :=
  RtThread (t_entry t) (t_parameter t) (t_stack_addr t) (t_stack_size t) (t_stack t)
    (t_sp t) (t_error t) (t_stat t) (t_current_priority t) (t_init_priority t)
    (t_number_mask t) x i (t_init_tick t) (t_remaining_tick t)
    (t_cleanup t) (t_user_data t).
Definition thr_remaining (r : Z) (t : rt_thread) : rt_thread :=
  RtThread (t_entry t) (t_parameter t) (t_stack_addr t) (t_stack_size t) (t_stack t)
    (t_sp t) (t_error t) (t_stat t) (t_current_priority t) (t_init_priority t)
    (t_number_mask t) (t_event_set t) (t_event_info t) (t_init_tick t) r
    (t_cleanup t) (t_user_data t).

(** ** The kernel's monad *)

Abbreviation K := (ST kst).

(** ** Access to the objects *)

Definition get_thread (t : Z) : K rt_thread :=
  m ← gets (fun s => s_threads (sc s)); lift (deref (m !! t)).
Definition put_thread (t : Z) (th : rt_thread) : K unit :=
  modify (upd_sc (fun c => with_threads (<[t := th]> (s_threads c)) c)).
Definition upd_thread (t : Z) (f : rt_thread -> rt_thread) : K unit :=
  th ← get_thread t; put_thread t (f th).

Definition get_timer (o : oid) : K rt_timer :=
  m ← gets (fun s => ts_timers (tm s)); lift (deref (m !! o)).
Definition put_timer (o : oid) (x : rt_timer) : K unit :=
  modify (upd_tm (fun c => with_timers (<[o := x]> (ts_timers c)) c)).

Definition get_object (o : oid) : K rt_object :=
  m ← gets (fun s => ob_objs (ob s)); lift (deref (m !! o)).
Definition put_object (o : oid) (x : rt_object) : K unit :=
  modify (upd_ob (fun c => Objects (<[o := x]> (ob_objs c)) (ob_container c))).
Definition get_flag (o : oid) : K Z := x ← get_object o; mret (o_flag x).
Definition set_flag (o : oid) (f : Z) : K unit :=
  x ← get_object o; put_object o (RtObject (o_name x) (o_type x) (u8 f)).

Definition get_sem (a : Z) : K rt_semaphore :=
  m ← gets (fun s => i_sems (ip s)); lift (deref (m !! a)).
Definition put_sem (a : Z) (x : rt_semaphore) : K unit :=
  modify (upd_ip (fun c => with_sems (<[a := x]> (i_sems c)) c)).
Definition get_mutex (a : Z) : K rt_mutex :=
  m ← gets (fun s => i_mutexes (ip s)); lift (deref (m !! a)).
Definition put_mutex (a : Z) (x : rt_mutex) : K unit :=
  modify (upd_ip (fun c => with_mutexes (<[a := x]> (i_mutexes c)) c)).
Definition get_event (a : Z) : K rt_event :=
  m ← gets (fun s => i_events (ip s)); lift (deref (m !! a)).
Definition put_event (a : Z) (x : rt_event) : K unit :=
  modify (upd_ip (fun c => with_events (<[a := x]> (i_events c)) c)).
Definition get_mb (a : Z) : K rt_mailbox :=
  m ← gets (fun s => i_mbs (ip s)); lift (deref (m !! a)).
Definition put_mb (a : Z) (x : rt_mailbox) : K unit :=
  modify (upd_ip (fun c => with_mbs (<[a := x]> (i_mbs c)) c)).
Definition get_mq (a : Z) : K rt_messagequeue :=
  m ← gets (fun s => i_mqs (ip s)); lift (deref (m !! a)).
Definition put_mq (a : Z) (x : rt_messagequeue) : K unit :=
  modify (upd_ip (fun c => with_mqs (<[a := x]> (i_mqs c)) c)).
Definition get_completion (a : Z) : K Z :=
  m ← gets (fun s => i_completions (ip s)); lift (deref (m !! a)).
Definition put_completion (a : Z) (x : Z) : K unit :=
  modify (upd_ip (fun c => with_completions (<[a := x]> (i_completions c)) c)).
Definition get_dq (a : Z) : K rt_data_queue :=
  m ← gets (fun s => i_dqs (ip s)); lift (deref (m !! a)).
Definition put_dq (a : Z) (x : rt_data_queue) : K unit :=
  modify (upd_ip (fun c => with_dqs (<[a := x]> (i_dqs c)) c)).
Definition get_device (a : Z) : K rt_device :=
  m ← gets (fun s => i_devices (ip s)); lift (deref (m !! a)).
Definition put_device (a : Z) (x : rt_device) : K unit :=
  modify (upd_ip (fun c => with_devices (<[a := x]> (i_devices c)) c)).
Definition get_mp (a : Z) : K rt_mempool :=
  m ← gets (fun s => i_mps (ip s)); lift (deref (m !! a)).
Definition put_mp (a : Z) (x : rt_mempool) : K unit :=
  modify (upd_ip (fun c => with_mps (<[a := x]> (i_mps c)) c)).

Definition rt_tick_get : K Z := gets (fun s => ts_tick (tm s)).
Definition rt_thread_self : K Z := gets (fun s => s_current (sc s)).
Definition rt_interrupt_get_nest : K Z := gets (fun s => s_interrupt_nest (sc s)).

(** The context checks of rtdebug.h. *)
Definition RT_DEBUG_NOT_IN_INTERRUPT : K unit :=
  n ← rt_interrupt_get_nest; kassert (n =? 0).
Definition RT_DEBUG_IN_THREAD_CONTEXT : K unit :=
  t ← rt_thread_self; _ ← kassert (negb (t =? RT_NULL)); RT_DEBUG_NOT_IN_INTERRUPT.

(** ** Memory *)

Definition lift_heap {A} (m : ST heap A) : K A := fun s =>
  match m (hp s) with
  | Ok (a, h) => Ok (a, upd_hp h s)
  | AssertFail => AssertFail
  | Fault => Fault
  end.

Definition RT_KERNEL_MALLOC (sz : Z) : K Z :=
  _ ← RT_DEBUG_NOT_IN_INTERRUPT; lift_heap (al_malloc sz).
Definition RT_KERNEL_FREE (p : Z) : K unit :=
  _ ← RT_DEBUG_NOT_IN_INTERRUPT; lift_heap (al_free p).

(** Memory that is freed holds no object any more. *)
Definition forget (a : Z) (s : kst) : kst :=
  Kst (with_threads (delete a (s_threads (sc s))) (sc s))
    (with_timers (delete (ThreadTimer a) (delete (Obj a) (ts_timers (tm s)))) (tm s))
    (Objects (delete (ThreadTimer a) (delete (Obj a) (ob_objs (ob s)))) (ob_container (ob s)))
    (Ipcs (delete a (i_sems (ip s))) (delete a (i_mutexes (ip s))) (delete a (i_events (ip s)))
       (delete a (i_mbs (ip s))) (delete a (i_mqs (ip s))) (delete a (i_mps (ip s)))
       (i_mpmem (ip s)) (i_completions (ip s)) (i_dqs (ip s)) (delete a (i_devices (ip s))))
    (hp s) (errno s).

(** ** Lists of threads *)

Definition tlist (c : sched) (l : lid) : list Z := default [] (s_tlists c !! l).

Definition get_list (l : lid) : K (list Z) := gets (fun s => tlist (sc s) l).
Definition put_list (l : lid) (x : list Z) : K unit :=
  modify (upd_sc (fun c => with_tlists (<[l := x]> (s_tlists c)) c)).

Definition rt_list_isempty (l : lid) : K bool :=
  x ← get_list l; mret (bool_decide (x = [])).

(** [rt_list_entry(list->next, ...)]: on an empty list this is the head itself,
    which is not part of a thread. *)
Definition first_entry (l : lid) : K Z :=
  x ← get_list l; match x with [] => kfault | t :: _ => mret t end.

Definition remove_tid (t : Z) (x : list Z) : list Z := filter (fun u => u <> t) x.

(** [rt_list_remove(&thread->tlist)]: the node leaves the list it is in. *)
Definition tlist_remove (t : Z) : K unit :=
  modify (upd_sc (fun c => with_tlists (remove_tid t <$> s_tlists c) c)).

Definition linked (c : sched) (t : Z) : bool :=
  bool_decide (map_Exists (fun (_ : lid) (x : list Z) => t ∈ x) (s_tlists c)).

(** Linking a node that is still in a list breaks both lists. *)
Definition need_unlinked (t : Z) : K unit :=
  b ← gets (fun s => linked (sc s) t); if (b : bool) then kfault else mret tt.

(** [rt_list_insert_before(head, &thread->tlist)] *)
Definition tlist_push_back (l : lid) (t : Z) : K unit :=
  _ ← need_unlinked t; x ← get_list l; put_list l (x ++ [t]).
(** [rt_list_insert_after(head, &thread->tlist)] *)
Definition tlist_push_front (l : lid) (t : Z) : K unit :=
  _ ← need_unlinked t; x ← get_list l; put_list l (t :: x).
(** [rt_list_init(&thread->tlist)] *)
Definition tlist_init (t : Z) : K unit := need_unlinked t.

(** ** Reasoning about the accessors *)

Lemma wp_get_thread (t : Z) (th : rt_thread) (Q : rt_thread -> kst -> Prop) (s : kst) :
  s_threads (sc s) !! t = Some th -> Q th s -> wp (get_thread t) Q s.
Proof. intros E H. unfold get_thread. by eapply wp_bind, wp_gets, wp_lift. Qed.

Definition set_thread (t : Z) (th : rt_thread) (s : kst) : kst :=
  upd_sc (fun c => with_threads (<[t := th]> (s_threads c)) c) s.

Lemma set_thread_twice (t : Z) (x y : rt_thread) (s : kst) :
  set_thread t y (set_thread t x s) = set_thread t y s.
Proof. unfold set_thread, upd_sc. cbn. unfold with_threads. cbn. by rewrite insert_insert_eq. Qed.

Lemma wp_upd_thread (t : Z) (th : rt_thread) (f : rt_thread -> rt_thread)
    (Q : unit -> kst -> Prop) (s : kst) :
  s_threads (sc s) !! t = Some th ->
  Q tt (set_thread t (f th) s) -> wp (upd_thread t f) Q s.
Proof. intros E H. unfold upd_thread. eapply wp_bind, wp_get_thread; [done|]. done. Qed.

Lemma wp_get_timer (o : oid) (x : rt_timer) (Q : rt_timer -> kst -> Prop) (s : kst) :
  ts_timers (tm s) !! o = Some x -> Q x s -> wp (get_timer o) Q s.
Proof. intros E H. unfold get_timer. by eapply wp_bind, wp_gets, wp_lift. Qed.

Lemma wp_get_object (o : oid) (x : rt_object) (Q : rt_object -> kst -> Prop) (s : kst) :
  ob_objs (ob s) !! o = Some x -> Q x s -> wp (get_object o) Q s.
Proof. intros E H. unfold get_object. by eapply wp_bind, wp_gets, wp_lift. Qed.

Lemma wp_get_flag (o : oid) (x : rt_object) (Q : Z -> kst -> Prop) (s : kst) :
  ob_objs (ob s) !! o = Some x -> Q (o_flag x) s -> wp (get_flag o) Q s.
Proof. intros E H. unfold get_flag. eapply wp_bind, wp_get_object; [done|]. done. Qed.

Lemma wp_set_flag (o : oid) (x : rt_object) (f : Z) (Q : unit -> kst -> Prop) (s : kst) :
  ob_objs (ob s) !! o = Some x ->
  Q tt (upd_ob (fun c => Objects (<[o := RtObject (o_name x) (o_type x) (u8 f)]> (ob_objs c))
                            (ob_container c)) s) ->
  wp (set_flag o f) Q s.
Proof. intros E H. unfold set_flag. eapply wp_bind, wp_get_object; [done|]. done. Qed.

(** [kstep] runs the primitive at the head of the program. *)
Create HintDb kst.

Ltac kstep :=
  lazymatch goal with
  | |- wp (mret _) _ _ => apply wp_ret
  | |- wp (mbind _ _) _ _ => apply wp_bind
  | |- wp (gets _) _ _ => apply wp_gets
  | |- wp (modify _) _ _ => apply wp_modify
  | |- wp (kassert _) _ _ => apply wp_kassert; [try reflexivity|]
  | |- wp (get_thread _) _ _ => eapply wp_get_thread; [eassumption|]
  | |- wp (upd_thread _ _) _ _ => eapply wp_upd_thread; [eassumption|]
  | |- wp (get_timer _) _ _ => eapply wp_get_timer; [eassumption|]
  | |- wp (get_object _) _ _ => eapply wp_get_object; [eassumption|]
  | |- wp (get_flag _) _ _ => eapply wp_get_flag; [eassumption|]
  | |- wp (set_flag _ _) _ _ => eapply wp_set_flag; [eassumption|]
  | |- wp rt_tick_get _ _ => apply wp_gets
  | |- wp rt_thread_self _ _ => apply wp_gets
  | |- wp rt_interrupt_get_nest _ _ => apply wp_gets
  | |- wp (get_list _) _ _ => apply wp_gets
  | |- wp (put_list _ _) _ _ => apply wp_modify
  | |- wp (tlist_remove _) _ _ => apply wp_modify
  | |- wp (put_timer _ _) _ _ => apply wp_modify
  | |- wp (put_object _ _) _ _ => apply wp_modify
  | |- wp (put_sem _ _) _ _ => apply wp_modify
  | |- wp (put_mutex _ _) _ _ => apply wp_modify
  | |- wp (put_event _ _) _ _ => apply wp_modify
  | |- wp (put_mb _ _) _ _ => apply wp_modify
  | |- wp (put_mq _ _) _ _ => apply wp_modify
  | |- wp (put_mp _ _) _ _ => apply wp_modify
  | |- wp (put_completion _ _) _ _ => apply wp_modify
  | |- wp (put_dq _ _) _ _ => apply wp_modify
  | |- wp (put_device _ _) _ _ => apply wp_modify
  end.

(** ** Well-formed scheduler state *)

Definition loc_ok (l : lid) (th : rt_thread) : Prop :=
  match l with
  | LReady p => t_stat th = RT_THREAD_READY /\ t_current_priority th = p
  | LDefunct => t_stat th = RT_THREAD_CLOSE
  | LSuspend _ | LSender _ => t_stat th = RT_THREAD_SUSPEND
  end.

(** The stack pointer is where [_rt_scheduler_stack_check] wants it. *)
Definition stack_ok (th : rt_thread) : Prop :=
  u32 (t_stack_addr th) < u32 (t_sp th) <= u32 (u32 (t_stack_addr th) + u32 (t_stack_size th)).

Record wf_sched (c : sched) : Prop := {
  ws_nodup : forall l, NoDup (tlist c l);
  ws_disj : forall l1 l2 t, t ∈ tlist c l1 -> t ∈ tlist c l2 -> l1 = l2;
  ws_loc : forall l t, t ∈ tlist c l ->
    exists th, s_threads c !! t = Some th /\ loc_ok l th;
  ws_ready : forall t th, s_threads c !! t = Some th -> t_stat th = RT_THREAD_READY ->
    t ∈ tlist c (LReady (t_current_priority th));
  ws_prio : forall t th, s_threads c !! t = Some th -> t_stat th <> RT_THREAD_INIT ->
    0 <= t_current_priority th < 32 /\ t_number_mask th = 2 ^ t_current_priority th;
  ws_init : forall t th, s_threads c !! t = Some th -> 0 <= t_init_priority th < 32;
  ws_stack : forall t th, s_threads c !! t = Some th -> stack_ok th;
  ws_group : 0 <= s_group c < 2 ^ 32;
  ws_bit : forall p, 0 <= p < 32 ->
    Z.testbit (s_group c) p = true <-> tlist c (LReady p) <> [];
  ws_null : s_threads c !! RT_NULL = None;
}.

Lemma tlist_insert (c : sched) (l l' : lid) (x : list Z) :
  tlist (with_tlists (<[l := x]> (s_tlists c)) c) l' = if decide (l = l') then x else tlist c l'.
Proof.
  unfold tlist. cbn. case_decide; subst.
  - by rewrite lookup_insert_eq.
  - by rewrite lookup_insert_ne.
Qed.

Lemma tlist_removed (c : sched) (t : Z) (l : lid) :
  tlist (with_tlists (remove_tid t <$> s_tlists c) c) l = remove_tid t (tlist c l).
Proof. unfold tlist. cbn. rewrite lookup_fmap. by destruct (s_tlists c !! l). Qed.

Lemma elem_of_remove_tid (t u : Z) (x : list Z) : u ∈ remove_tid t x <-> u <> t /\ u ∈ x.
Proof. unfold remove_tid. by rewrite list_elem_of_filter. Qed.

Lemma NoDup_remove_tid (t : Z) (x : list Z) : NoDup x -> NoDup (remove_tid t x).
Proof. apply NoDup_filter. Qed.

Lemma remove_tid_notin (t : Z) (x : list Z) : t ∉ x -> remove_tid t x = x.
Proof.
  induction x as [|u x IH]; intros H; [done|]. unfold remove_tid in *.
  rewrite filter_cons. rewrite decide_True by set_solver. f_equal. apply IH. set_solver.
Qed.

Lemma remove_tid_head (t : Z) (x : list Z) : NoDup (t :: x) -> remove_tid t (t :: x) = x.
Proof.
  intros H. inversion H; subst. unfold remove_tid. rewrite filter_cons, decide_False by auto.
  by apply remove_tid_notin.
Qed.

Lemma linked_false (c : sched) (t : Z) :
  linked c t = false <-> forall l, t ∉ tlist c l.
Proof.
  unfold linked. rewrite bool_decide_eq_false. split.
  - intros H l Hl. apply H. unfold tlist in Hl.
    destruct (s_tlists c !! l) as [x|] eqn:E; cbn in Hl; [|set_solver].
    exists l, x. done.
  - intros H (l & x & E & Hx). apply (H l). unfold tlist. by rewrite E.
Qed.

Lemma unlinked_removed (c : sched) (t : Z) :
  linked (with_tlists (remove_tid t <$> s_tlists c) c) t = false.
Proof.
  apply linked_false. intros l. rewrite tlist_removed, elem_of_remove_tid. tauto.
Qed.

Lemma wp_push_back (l : lid) (t : Z) (Q : unit -> kst -> Prop) (s : kst) :
  linked (sc s) t = false ->
  Q tt (upd_sc (fun c => with_tlists (<[l := tlist (sc s) l ++ [t]]> (s_tlists c)) c) s) ->
  wp (tlist_push_back l t) Q s.
Proof.
  intros H HQ. unfold tlist_push_back, need_unlinked.
  repeat kstep. cbn. rewrite H. repeat kstep. done.
Qed.

Lemma wp_push_front (l : lid) (t : Z) (Q : unit -> kst -> Prop) (s : kst) :
  linked (sc s) t = false ->
  Q tt (upd_sc (fun c => with_tlists (<[l := t :: tlist (sc s) l]> (s_tlists c)) c) s) ->
  wp (tlist_push_front l t) Q s.
Proof.
  intros H HQ. unfold tlist_push_front, need_unlinked.
  repeat kstep. cbn. rewrite H. repeat kstep. done.
Qed.

Lemma wp_isempty (l : lid) (Q : bool -> kst -> Prop) (s : kst) :
  Q (bool_decide (tlist (sc s) l = [])) s -> wp (rt_list_isempty l) Q s.
Proof. done. Qed.

Lemma wp_first_entry (l : lid) (t : Z) (x : list Z) (Q : Z -> kst -> Prop) (s : kst) :
  tlist (sc s) l = t :: x -> Q t s -> wp (first_entry l) Q s.
Proof.
  intros E H. unfold first_entry. eapply wp_bind, wp_gets. by rewrite E.
Qed.
