(* ===== verification/Scheduler.v ===== *)
(** * Scheduler (Kernel/scheduler.c, Kernel/irq.c, the switch of
    CORTEX-M3/context_gcc.S)

    The bitmap scheduler for at most 32 priorities: one queue per priority, bit
    [p] of [rt_thread_ready_priority_group] is set when queue [p] is not
    empty. *)

From S2P Require Import Prelude KService KState.

(** A ready queue is an element of a table of 32. *)
Definition ready_queue (p : Z) : K lid :=
  if (0 <=? p) && (p <? RT_THREAD_PRIORITY_MAX) then mret (LReady p) else kfault.

Definition get_group : K Z := gets (fun s => s_group (sc s)).
Definition put_group (g : Z) : K unit := modify (upd_sc (with_group g)).

(** On an overflow the handler prints and, interrupts being disabled, loops
    forever. *)
Definition _rt_scheduler_stack_check (t : Z) : K unit :=
  _ ← kassert (negb (t =? RT_NULL));
  th ← get_thread t;
  kassert (negb ((u32 (t_sp th) <=? u32 (t_stack_addr th)) ||
                 (u32 (u32 (t_stack_addr th) + u32 (t_stack_size th)) <? u32 (t_sp th)))).

Definition rt_system_scheduler_init : K unit :=
  _ ← modify (upd_sc (with_lock_nest 0));
  _ ← modify (upd_sc (fun c => with_tlists
        (fold_right (fun p m => <[LReady p := []]> m) (s_tlists c)
           (seqZ 0 RT_THREAD_PRIORITY_MAX)) c));
  _ ← modify (upd_sc (with_current RT_NULL (RT_THREAD_PRIORITY_MAX - 1)));
  _ ← put_group 0;
  put_list LDefunct [].

(** [rt_hw_context_switch], which is also [rt_hw_context_switch_interrupt]: a
    switch that is already pending keeps the thread it started from. *)
Definition rt_hw_context_switch (from to : Z) : K unit :=
  modify (upd_sc (fun c => with_switch
    (Some (match s_switch c with Some (f, _) => f | None => from end, to)) c)).

Definition rt_hw_context_switch_to (to : Z) : K unit :=
  modify (upd_sc (with_switch (Some (RT_NULL, to)))).

Definition rt_system_scheduler_start : K unit :=
  g ← get_group;
  let highest_ready_priority := Ffs.__rt_ffs g - 1 in
  l ← ready_queue highest_ready_priority;
  to_thread ← first_entry l;
  p ← gets (fun s => s_current_priority (sc s));
  _ ← modify (upd_sc (with_current to_thread p));
  rt_hw_context_switch_to to_thread.

Definition rt_schedule : K unit :=
  n ← gets (fun s => s_lock_nest (sc s));
  if negb (n =? 0) then mret tt else
  g ← get_group;
  let highest_ready_priority := Ffs.__rt_ffs g - 1 in
  l ← ready_queue highest_ready_priority;
  to_thread ← first_entry l;
  from_thread ← rt_thread_self;
  if to_thread =? from_thread then mret tt else
  _ ← modify (upd_sc (with_current to_thread (u8 highest_ready_priority)));
  _ ← _rt_scheduler_stack_check to_thread;
  rt_hw_context_switch from_thread to_thread.

Definition rt_schedule_insert_thread (t : Z) : K unit :=
  _ ← kassert (negb (t =? RT_NULL));
  _ ← upd_thread t (thr_stat RT_THREAD_READY);
  th ← get_thread t;
  l ← ready_queue (t_current_priority th);
  _ ← tlist_push_back l t;
  g ← get_group;
  put_group (Z.lor g (t_number_mask th)).

Definition rt_schedule_remove_thread (t : Z) : K unit :=
  _ ← kassert (negb (t =? RT_NULL));
  _ ← tlist_remove t;
  th ← get_thread t;
  l ← ready_queue (t_current_priority th);
  e ← rt_list_isempty l;
  if (e : bool) then
    g ← get_group;
    put_group (Z.land g (u32 (Z.lnot (t_number_mask th))))
  else mret tt.

Definition rt_enter_critical : K unit :=
  modify (upd_sc (fun c => with_lock_nest (s16 (s_lock_nest c + 1)) c)).

Definition rt_exit_critical : K unit :=
  _ ← modify (upd_sc (fun c => with_lock_nest (s16 (s_lock_nest c - 1)) c));
  n ← gets (fun s => s_lock_nest (sc s));
  if n <=? 0 then
    _ ← modify (upd_sc (with_lock_nest 0)); rt_schedule
  else mret tt.

Definition rt_critical_level : K Z := gets (fun s => u16 (s_lock_nest (sc s))).

Definition rt_interrupt_enter : K unit :=
  modify (upd_sc (fun c => with_interrupt_nest (u8 (s_interrupt_nest c + 1)) c)).
Definition rt_interrupt_leave : K unit :=
  modify (upd_sc (fun c => with_interrupt_nest (u8 (s_interrupt_nest c - 1)) c)).

(** ** The priority bitmap *)

Lemma range_bits (x n : Z) :
  0 <= n -> 0 <= x -> (forall i, n <= i -> Z.testbit x i = false) -> x < 2 ^ n.
Proof.
  intros Hn Hx H. destruct (Z.eq_dec x 0) as [->|]; [lia|].
  destruct (Z.lt_ge_cases x (2 ^ n)) as [|Hge]; [done|].
  assert (n <= Z.log2 x) by (apply Z.log2_le_pow2; lia).
  specialize (H (Z.log2 x) ltac:(lia)). rewrite Z.bit_log2 in H by lia. done.
Qed.

Lemma bits_range (x n i : Z) : 0 <= x < 2 ^ n -> n <= i -> Z.testbit x i = false.
Proof.
  intros Hx Hi. destruct (Z.lt_ge_cases n 0).
  { rewrite Z.pow_neg_r in Hx by lia. lia. }
  destruct (Z.eq_dec x 0) as [->|]; [apply Z.bits_0|].
  apply Z.bits_above_log2; [lia|]. apply Z.log2_lt_pow2; [lia|].
  apply (Z.lt_le_trans _ (2 ^ n)); [lia|]. apply Z.pow_le_mono_r; lia.
Qed.

Lemma group_set (g p q : Z) :
  0 <= p -> Z.testbit (Z.lor g (2 ^ p)) q = Z.testbit g q || (p =? q).
Proof. intros. by rewrite Z.lor_spec, Z.pow2_bits_eqb. Qed.

Lemma group_set_range (g p : Z) :
  0 <= g < 2 ^ 32 -> 0 <= p < 32 -> 0 <= Z.lor g (2 ^ p) < 2 ^ 32.
Proof.
  intros Hg Hp. split; [apply Z.lor_nonneg; lia|].
  apply range_bits; [lia|apply Z.lor_nonneg; lia|]. intros i Hi.
  rewrite group_set, (bits_range g 32) by lia. test_false. done.
Qed.

Lemma group_clear (g p q : Z) :
  0 <= p -> 0 <= q < 32 ->
  Z.testbit (Z.land g (u32 (Z.lnot (2 ^ p)))) q = Z.testbit g q && negb (p =? q).
Proof.
  intros. rewrite Z.land_spec. unfold ubits.
  rewrite Z.mod_pow2_bits_low, Z.lnot_spec, Z.pow2_bits_eqb by lia. done.
Qed.

Lemma group_clear_range (g x : Z) : 0 <= g < 2 ^ 32 -> 0 <= Z.land g x < 2 ^ 32.
Proof.
  intros Hg. assert (H : 0 <= Z.land g x) by (apply Z.land_nonneg; lia).
  split; [done|]. apply range_bits; [lia|done|]. intros i Hi.
  by rewrite Z.land_spec, (bits_range g 32) by lia.
Qed.

(** ** Effect of the two queue operations *)

Definition ready_add (t : Z) (th : rt_thread) (c : sched) : sched :=
  with_group (Z.lor (s_group c) (t_number_mask th))
   (with_tlists (<[LReady (t_current_priority th) :=
        tlist c (LReady (t_current_priority th)) ++ [t]]> (s_tlists c))
    (with_threads (<[t := thr_stat RT_THREAD_READY th]> (s_threads c)) c)).

Definition ready_del (t : Z) (th : rt_thread) (c : sched) : sched :=
  let c := with_tlists (remove_tid t <$> s_tlists c) c in
  if bool_decide (tlist c (LReady (t_current_priority th)) = [])
  then with_group (Z.land (s_group c) (u32 (Z.lnot (t_number_mask th)))) c else c.

Lemma wp_ready_queue (p : Z) (Q : lid -> kst -> Prop) (s : kst) :
  0 <= p < 32 -> Q (LReady p) s -> wp (ready_queue p) Q s.
Proof.
  intros Hp H. unfold ready_queue, RT_THREAD_PRIORITY_MAX.
  test_true. test_true. done.
Qed.

Lemma wp_insert_thread (t : Z) (th : rt_thread) (Q : unit -> kst -> Prop) (s : kst) :
  t <> RT_NULL -> s_threads (sc s) !! t = Some th -> linked (sc s) t = false ->
  0 <= t_current_priority th < 32 ->
  Q tt (upd_sc (ready_add t th) s) -> wp (rt_schedule_insert_thread t) Q s.
Proof.
  intros Ht Hth Hu Hp HQ. unfold rt_schedule_insert_thread.
  repeat kstep; [apply negb_true_iff; by apply Z.eqb_neq|]. repeat kstep.
  eapply wp_get_thread; [apply lookup_insert_eq|]. kstep.
  apply wp_ready_queue; [done|]. kstep. apply wp_push_back; [done|].
  unfold get_group, put_group. repeat kstep. exact HQ.
Qed.

Lemma wp_remove_thread (t : Z) (th : rt_thread) (Q : unit -> kst -> Prop) (s : kst) :
  t <> RT_NULL -> s_threads (sc s) !! t = Some th ->
  0 <= t_current_priority th < 32 ->
  Q tt (upd_sc (ready_del t th) s) -> wp (rt_schedule_remove_thread t) Q s.
Proof.
  intros Ht Hth Hp HQ. unfold rt_schedule_remove_thread.
  repeat kstep; [apply negb_true_iff; by apply Z.eqb_neq|]. repeat kstep.
  apply wp_ready_queue; [done|]. kstep.
  apply wp_isempty. unfold ready_del, upd_sc in HQ. cbn in HQ |- *.
  destruct (bool_decide _); unfold get_group, put_group; repeat kstep; exact HQ.
Qed.

(** ** Preservation of the invariant *)

(** [c'] is [c] with thread [t] set to [th'] and moved to the list [w], or to
    no list. *)
Record thread_moved (t : Z) (th' : rt_thread) (w : option lid) (c c' : sched) : Prop := {
  tm_threads : s_threads c' = <[t := th']> (s_threads c);
  tm_nodup : forall l, NoDup (tlist c' l);
  tm_others : forall l u, u <> t -> u ∈ tlist c' l <-> u ∈ tlist c l;
  tm_self : forall l, t ∈ tlist c' l <-> w = Some l;
  tm_loc : match w with Some l => loc_ok l th' | None => t_stat th' <> RT_THREAD_READY end;
  tm_prio : t_stat th' <> RT_THREAD_INIT ->
    0 <= t_current_priority th' < 32 /\ t_number_mask th' = 2 ^ t_current_priority th';
  tm_init : 0 <= t_init_priority th' < 32;
  tm_stack : stack_ok th';
  tm_null : t <> RT_NULL;
  tm_group : 0 <= s_group c' < 2 ^ 32;
  tm_bit : forall p, 0 <= p < 32 ->
    Z.testbit (s_group c') p = true <-> tlist c' (LReady p) <> [];
}.

Lemma wf_moved (t : Z) (th' : rt_thread) (w : option lid) (c c' : sched) :
  wf_sched c -> thread_moved t th' w c c' -> wf_sched c'.
Proof.
  intros W M.
  assert (L : forall u thu, s_threads c' !! u = Some thu ->
    (u = t /\ thu = th') \/ (u <> t /\ s_threads c !! u = Some thu)).
  { intros u thu. rewrite (tm_threads _ _ _ _ _ M), lookup_insert.
    case_decide; intros; simplify_eq; auto. }
  assert (R : forall u thu, u <> t -> s_threads c !! u = Some thu ->
    s_threads c' !! u = Some thu).
  { intros u thu Hne E. by rewrite (tm_threads _ _ _ _ _ M), lookup_insert_ne. }
  assert (S : s_threads c' !! t = Some th')
    by (rewrite (tm_threads _ _ _ _ _ M); apply lookup_insert_eq).
  pose proof (tm_loc _ _ _ _ _ M) as Lw.
  constructor; try apply M.
  - intros l1 l2 u H1 H2. destruct (decide (u = t)) as [->|Hne].
    + apply (tm_self _ _ _ _ _ M) in H1, H2. congruence.
    + apply (tm_others _ _ _ _ _ M) in H1, H2; [|done..]. by eapply (ws_disj c W).
  - intros l u H. destruct (decide (u = t)) as [->|Hne].
    + apply (tm_self _ _ _ _ _ M) in H. subst. eauto.
    + apply (tm_others _ _ _ _ _ M) in H; [|done]. destruct (ws_loc c W l u H) as (x & E & Hl).
      eauto.
  - intros u thu E Hr. destruct (L u thu E) as [[-> ->]|[Hne E']].
    + apply (tm_self _ _ _ _ _ M). destruct w as [[]|]; cbn in Lw;
        [by destruct Lw as [_ ->]|unfold RT_THREAD_READY, RT_THREAD_CLOSE,
         RT_THREAD_SUSPEND in *; congruence..].
    + apply (tm_others _ _ _ _ _ M); [done|]. by apply (ws_ready c W).
  - intros u thu E. destruct (L u thu E) as [[-> ->]|[Hne E']]; [apply M|].
    by apply (ws_prio c W u).
  - intros u thu E. destruct (L u thu E) as [[-> ->]|[Hne E']]; [apply M|].
    by apply (ws_init c W u).
  - intros u thu E. destruct (L u thu E) as [[-> ->]|[Hne E']]; [apply M|].
    by apply (ws_stack c W u).
  - destruct (s_threads c' !! RT_NULL) as [x|] eqn:E; [|done].
    destruct (L _ _ E) as [[E' _]|[_ E']]; [by destruct (tm_null _ _ _ _ _ M)|].
    by rewrite (ws_null c W) in E'.
Qed.

Section Preserve.
Variable c : sched.
Hypothesis W : wf_sched c.

Lemma not_null (t : Z) (th : rt_thread) : s_threads c !! t = Some th -> t <> RT_NULL.
Proof. intros H ->. by rewrite (ws_null c W) in H. Qed.

(** A thread that is in no list becomes ready. *)
Lemma moved_ready_add (t : Z) (th : rt_thread) :
  s_threads c !! t = Some th -> linked c t = false ->
  0 <= t_current_priority th < 32 -> t_number_mask th = 2 ^ t_current_priority th ->
  thread_moved t (thr_stat RT_THREAD_READY th) (Some (LReady (t_current_priority th)))
    c (ready_add t th c).
Proof.
  intros Hth Hu Hp Hm. rewrite linked_false in Hu.
  assert (T : forall l, tlist (ready_add t th c) l =
    if decide (LReady (t_current_priority th) = l)
    then tlist c (LReady (t_current_priority th)) ++ [t] else tlist c l)
    by (intros; apply (tlist_insert c)).
  constructor; try done.
  - intros l. rewrite T. case_decide; subst; [|apply W]. apply NoDup_app.
    split; [apply W|]. split; [|apply NoDup_singleton].
    intros u H1 H2%list_elem_of_singleton. subst. by apply (Hu _ H1).
  - intros l u Hne. rewrite T. case_decide; subst; [set_solver|done].
  - intros l. rewrite T. case_decide; subst; [set_solver|].
    split; [by intros ?%Hu|congruence].
  - apply (ws_init c W t th Hth).
  - apply (ws_stack c W t th Hth).
  - by eapply not_null.
  - cbn. rewrite Hm. apply group_set_range; [apply W|done].
  - intros p Hpp. cbn. rewrite T, Hm, group_set by lia.
    rewrite orb_true_iff, (ws_bit c W p Hpp), Z.eqb_eq. case_decide as D.
    + injection D as ->. split; [|by right]. intros _ E. by apply app_nil in E as [_ ?].
    + split; [intros [H|H]|by left]; [done|]. subst. by destruct D.
Qed.

(** A thread leaves the list it is in and is no longer ready. *)
Lemma moved_ready_del (t : Z) (th th' : rt_thread) (c' : sched) :
  s_threads c !! t = Some th -> t_stat th <> RT_THREAD_INIT ->
  t_stat th' <> RT_THREAD_READY ->
  t_current_priority th' = t_current_priority th -> t_number_mask th' = t_number_mask th ->
  t_init_priority th' = t_init_priority th -> (stack_ok th -> stack_ok th') ->
  s_threads c' = <[t := th']> (s_threads c) -> s_tlists c' = s_tlists (ready_del t th c) ->
  s_group c' = s_group (ready_del t th c) ->
  thread_moved t th' None c c'.
Proof.
  intros Hth Hi Hr Ep Em Ei Es E1 E2 E3.
  destruct (ws_prio c W t th Hth Hi) as [Hp Hm].
  assert (T : forall l, tlist c' l = remove_tid t (tlist c l)).
  { intros l. rewrite <- tlist_removed. unfold tlist. rewrite E2. unfold ready_del. cbn.
    by destruct (bool_decide _). }
  constructor; try done.
  - intros l. rewrite T. apply NoDup_remove_tid, W.
  - intros l u Hne. rewrite T, elem_of_remove_tid. tauto.
  - intros l. rewrite T, elem_of_remove_tid. split; [tauto|done].
  - intros _. by rewrite Ep, Em.
  - rewrite Ei. apply (ws_init c W t th Hth).
  - apply Es, (ws_stack c W t th Hth).
  - by eapply not_null.
  - rewrite E3. unfold ready_del. destruct (bool_decide _); cbn; [|apply W].
    apply group_clear_range, W.
  - intros p Hpp. rewrite T, E3.
    assert (O : t_current_priority th <> p -> remove_tid t (tlist c (LReady p)) =
      tlist c (LReady p)).
    { intros Hne. apply remove_tid_notin. intros Hin.
      destruct (ws_loc c W _ _ Hin) as (x & Ex & _ & Ly). congruence. }
    unfold ready_del. rewrite tlist_removed. case_bool_decide as E; cbn.
    + rewrite Hm, group_clear, andb_true_iff, (ws_bit c W p Hpp) by lia.
      destruct (Z.eqb_spec (t_current_priority th) p) as [<-|Hne]; cbn.
      * split; [by intros [_ ?]|]. by rewrite E.
      * rewrite O by done. tauto.
    + rewrite (ws_bit c W p Hpp). destruct (decide (t_current_priority th = p)) as [<-|Hne].
      * split; [done|]. intros _ Hn. rewrite Hn in E. done.
      * by rewrite O.
Qed.

(** Fields of a thread the lists do not depend on. *)
Lemma wf_thread_fields (t : Z) (th th' : rt_thread) :
  s_threads c !! t = Some th -> t_stat th' = t_stat th ->
  t_current_priority th' = t_current_priority th -> t_number_mask th' = t_number_mask th ->
  t_init_priority th' = t_init_priority th -> (stack_ok th -> stack_ok th') ->
  wf_sched (with_threads (<[t := th']> (s_threads c)) c).
Proof.
  intros Hth Est Ep Em Ei Es.
  assert (B : forall u thu, <[t := th']> (s_threads c) !! u = Some thu ->
    exists x, s_threads c !! u = Some x /\ t_stat thu = t_stat x /\
      t_current_priority thu = t_current_priority x /\ t_number_mask thu = t_number_mask x /\
      t_init_priority thu = t_init_priority x /\ (stack_ok x -> stack_ok thu)).
  { intros u thu. rewrite lookup_insert. case_decide; intros; simplify_eq; eauto 8. }
  constructor; try apply W; cbn.
  - intros l u H. destruct (ws_loc c W l u H) as (thu & E & Hl). rewrite lookup_insert.
    case_decide; [subst|by eauto]. eexists; split; [done|].
    simplify_eq. destruct l; cbn in *; rewrite ?Est, ?Ep; done.
  - intros u thu E R. destruct (B u thu E) as (x & Ex & E1 & E2 & _). rewrite E2.
    apply (ws_ready c W u x); congruence.
  - intros u thu E R. destruct (B u thu E) as (x & Ex & E1 & E2 & E3 & _). rewrite E2, E3.
    apply (ws_prio c W u x); congruence.
  - intros u thu E. destruct (B u thu E) as (x & Ex & _ & _ & _ & E4 & _). rewrite E4.
    by apply (ws_init c W u).
  - intros u thu E. destruct (B u thu E) as (x & Ex & _ & _ & _ & _ & E5).
    by apply E5, (ws_stack c W u).
  - rewrite lookup_insert_ne; [apply W|]. by eapply not_null.
Qed.

(** A thread that is in no list goes into the wait list [l], or the defunct
    list. *)
Lemma wf_list_add (l : lid) (x y : list Z) (t : Z) (th : rt_thread) :
  tlist c l = x ++ y -> (forall p, l <> LReady p) ->
  s_threads c !! t = Some th -> loc_ok l th -> linked c t = false ->
  wf_sched (with_tlists (<[l := x ++ t :: y]> (s_tlists c)) c).
Proof.
  intros El Hl Hth Hloc Hu. rewrite linked_false in Hu.
  assert (In : forall l' u,
    u ∈ tlist (with_tlists (<[l := x ++ t :: y]> (s_tlists c)) c) l' <->
    u ∈ tlist c l' \/ (u = t /\ l' = l)).
  { intros l' u. rewrite tlist_insert. case_decide; subst; rewrite ?El; set_solver. }
  assert (R : forall p, tlist (with_tlists (<[l := x ++ t :: y]> (s_tlists c)) c) (LReady p)
    = tlist c (LReady p)).
  { intros p. rewrite tlist_insert. case_decide; subst; [by destruct (Hl p)|done]. }
  constructor; try apply W.
  - intros l'. rewrite tlist_insert. case_decide; subst; [|apply W].
    rewrite <- Permutation_middle, NoDup_cons, <- El. split; [apply Hu|apply W].
  - intros l1 l2 u. rewrite !In. intros [H1|[-> ->]] [H2|[E ->]]; subst;
      [by eapply (ws_disj c W)| | |done]; by destruct (Hu _ ltac:(eassumption)).
  - intros l' u. rewrite In. intros [H|[-> ->]]; [by apply (ws_loc c W)|eauto].
  - intros u thu E Hr. rewrite In. left. by apply (ws_ready c W).
  - intros p Hp. rewrite R. by apply (ws_bit c W).
Qed.

(** Fields of the scheduler the lists do not depend on. *)
Lemma wf_same (c' : sched) :
  s_threads c' = s_threads c -> s_tlists c' = s_tlists c -> s_group c' = s_group c ->
  wf_sched c'.
Proof.
  intros E1 E2 E3.
  assert (T : forall l, tlist c' l = tlist c l) by (intros; unfold tlist; by rewrite E2).
  constructor; intros; rewrite ?T, ?E1, ?E3 in *; by eapply W.
Qed.

End Preserve.
