(* ===== verification/Object.v ===== *)
(** * Kernel objects (Kernel/object.c)

    Every kernel object is registered in the container of its class, a list the
    newest object of which is first. *)

From Stdlib Require Import Lia.
From S2P Require Import Prelude KService Heap KState Scheduler.

(** ** Classes *)

Definition RT_Object_Class_Thread : Z := 0.
Definition RT_Object_Class_Semaphore : Z := 1.
Definition RT_Object_Class_Mutex : Z := 2.
Definition RT_Object_Class_Event : Z := 3.
Definition RT_Object_Class_MailBox : Z := 4.
Definition RT_Object_Class_MessageQueue : Z := 5.
Definition RT_Object_Class_MemPool : Z := 6.
Definition RT_Object_Class_Device : Z := 7.
Definition RT_Object_Class_Timer : Z := 8.
Definition RT_Object_Class_Unknown : Z := 9.
Definition RT_Object_Class_Static : Z := 0x80.

(** [rt_object_container]: one element per class; the size is the [sizeof] of
    the structure with 4-byte pointers, [long] and [enum]. *)
Definition rt_object_container : list (Z * Z) :=
  [(RT_Object_Class_Thread, 128); (RT_Object_Class_Semaphore, 32);
   (RT_Object_Class_Mutex, 36); (RT_Object_Class_Event, 32);
   (RT_Object_Class_MailBox, 48); (RT_Object_Class_MessageQueue, 52);
   (RT_Object_Class_MemPool, 56); (RT_Object_Class_Device, 68);
   (RT_Object_Class_Timer, 44)].

(** The address of an object; the timer of a thread is a member of it. *)
Definition oid_addr (o : oid) : Z :=
  match o with Obj a => a | ThreadTimer t => t + 76 end.

(** ** Operations *)

Definition rt_object_get_information (type : Z) : K (Z * Z) :=
  lift (load_at rt_object_container type).

Definition get_container (type : Z) : K (list oid) :=
  gets (fun s => default [] (ob_container (ob s) !! type)).
Definition put_container (type : Z) (x : list oid) : K unit :=
  modify (upd_ob (fun c => Objects (ob_objs c) (<[type := x]> (ob_container c)))).

Definition registered (c : objects) (o : oid) : bool :=
  bool_decide (map_Exists (fun (_ : Z) (x : list oid) => o ∈ x) (ob_container c)).

(** [rt_list_insert_after(&(information->object_list), &(object->list))];
    linking a node that is in a list breaks both lists. *)
Definition object_link (type : Z) (o : oid) : K unit :=
  b ← gets (fun s => registered (ob s) o);
  if (b : bool) then kfault else
  x ← get_container type; put_container type (o :: x).

(** [rt_list_remove(&(object->list))].  The links are written when an object enters a
    container, by [rt_object_init] and [rt_object_allocate] (before that they are what the
    memory holds, and the removal writes through them: a fault); a removed node is linked
    to itself, so that a second removal does nothing. *)
Definition object_unlink (o : oid) : K unit :=
  b ← gets (fun s => bool_decide (is_Some (ob_objs (ob s) !! o)));
  if (b : bool) then
    modify (upd_ob (fun c => Objects (ob_objs c)
      (filter (fun x => x <> o) <$> ob_container c)))
  else kfault.

(** [name] is the C string from the pointer on.  A new object's fields that the
    function does not write keep what the memory holds. *)
Definition rt_object_init (o : oid) (type : Z) (name : list Z) : K unit :=
  information ← rt_object_get_information type;
  old ← gets (fun s => ob_objs (ob s) !! o);
  n ← lift (Str.rt_strncpy (match old with Some x => o_name x | None => replicate 8 0 end)
              name RT_NAME_MAX);
  _ ← put_object o (RtObject n (Z.lor type RT_Object_Class_Static)
        (match old with Some x => o_flag x | None => 0 end));
  object_link (information.1) o.

Definition rt_object_detach (o : oid) : K unit :=
  _ ← kassert (negb (oid_addr o =? RT_NULL));
  object_unlink o.

Definition rt_object_allocate (type : Z) (name : list Z) : K Z :=
  _ ← RT_DEBUG_NOT_IN_INTERRUPT;
  information ← rt_object_get_information type;
  object ← RT_KERNEL_MALLOC (information.2);
  if object =? RT_NULL then mret RT_NULL else
  n ← lift (Str.rt_strncpy (replicate 8 0) name RT_NAME_MAX);
  _ ← put_object (Obj object) (RtObject n type 0);
  _ ← object_link (information.1) (Obj object);
  mret object.

Definition rt_object_delete (object : Z) : K unit :=
  _ ← kassert (negb (object =? RT_NULL));
  x ← get_object (Obj object);
  _ ← kassert (Z.land (o_type x) RT_Object_Class_Static =? 0);
  _ ← object_unlink (Obj object);
  _ ← modify (forget object);
  RT_KERNEL_FREE object.

Definition rt_object_is_systemobject (o : oid) : K bool :=
  _ ← kassert (negb (oid_addr o =? RT_NULL));
  x ← get_object o;
  mret (negb (Z.land (o_type x) RT_Object_Class_Static =? 0)).

(** The loop of [rt_object_find] and [rt_thread_find]. *)
Fixpoint find_loop (l : list oid) (name : list Z) : K (option oid) :=
  match l with
  | [] => mret None
  | o :: l =>
      x ← get_object o;
      r ← lift (Str.rt_strncmp (o_name x) name RT_NAME_MAX);
      if r =? 0 then mret (Some o) else find_loop l name
  end.

(** [None] for a [name] that is [RT_NULL]. *)
Definition rt_object_find (name : option (list Z)) (type : Z) : K Z :=
  match name with
  | None => mret RT_NULL
  | Some name =>
      if RT_Object_Class_Unknown <? u8 type then mret RT_NULL else
      _ ← RT_DEBUG_NOT_IN_INTERRUPT;
      _ ← rt_enter_critical;
      information ← rt_object_get_information (u8 type);
      l ← get_container (information.1);
      r ← find_loop l name;
      _ ← rt_exit_critical;
      mret (match r with Some o => oid_addr o | None => RT_NULL end)
  end.
