(* ===== verification/Timer.v ===== *)
(** * Timers (Kernel/timer.c)

    The hard timer list is a skip list of [RT_TIMER_SKIP_LIST_LEVEL] rows; the
    last row holds every active timer, ordered by timeout tick.  The operations
    are written for any number of rows.  Soft timers are not configured
    ([RT_USING_TIMER_SOFT] is off). *)

From Stdlib Require Import Lia Sorted.
From S2P Require Import Prelude Heap KState Scheduler Object.

(** ** Operations *)

(** [_rt_timer_remove]: [rt_list_remove] of the node of each row. *)
Definition _rt_timer_remove (o : oid) : K unit :=
  modify (upd_tm (fun c => with_rows (map (filter (fun x => x <> o)) (ts_rows c)) c)).

Definition timer_linked (c : timers) (o : oid) : bool :=
  bool_decide (Exists (fun row => o ∈ row) (ts_rows c)).

(** [~RT_TIMER_FLAG_ACTIVATED], [~RT_TIMER_FLAG_PERIODIC] *)
Definition clear_flag (o : oid) (f : Z) : K unit :=
  x ← get_flag o; set_flag o (Z.land x (Z.lnot f)).
Definition or_flag (o : oid) (f : Z) : K unit :=
  x ← get_flag o; set_flag o (Z.lor x f).

Definition _rt_timer_init (o : oid) (timeout : timeout_fn) (parameter time flag : Z) : K unit :=
  _ ← set_flag o flag;
  _ ← clear_flag o RT_TIMER_FLAG_ACTIVATED;
  _ ← put_timer o (RtTimer timeout parameter (u32 time) 0);
  b ← gets (fun s => timer_linked (tm s) o);
  if (b : bool) then kfault else mret tt.

(** The last row of the list. *)
Definition last_row : K (list oid) :=
  gets (fun s => default [] (ts_rows (tm s) !! (RT_TIMER_SKIP_LIST_LEVEL - 1)%nat)).

Definition rt_timer_list_next_timeout : K Z :=
  row ← last_row;
  match row with
  | [] => mret RT_TICK_MAX
  | o :: _ => t ← get_timer o; mret (tm_timeout_tick t)
  end.

Definition rt_timer_next_timeout_tick : K Z := rt_timer_list_next_timeout.

Definition rt_timer_init (o : oid) (name : list Z) (timeout : timeout_fn)
    (parameter time flag : Z) : K unit :=
  _ ← kassert (negb (oid_addr o =? RT_NULL));
  _ ← rt_object_init o RT_Object_Class_Timer name;
  _rt_timer_init o timeout parameter time flag.

Definition rt_timer_detach (o : oid) : K Z :=
  _ ← kassert (negb (oid_addr o =? RT_NULL));
  _ ← _rt_timer_remove o;
  _ ← rt_object_detach o;
  mret RT_EOK.

Definition rt_timer_create (name : list Z) (timeout : timeout_fn) (parameter time flag : Z) : K Z :=
  timer ← rt_object_allocate RT_Object_Class_Timer name;
  if timer =? RT_NULL then mret RT_NULL else
  _ ← _rt_timer_init (Obj timer) timeout parameter time flag;
  mret timer.

Definition rt_timer_delete (timer : Z) : K Z :=
  _ ← kassert (negb (timer =? RT_NULL));
  _ ← _rt_timer_remove (Obj timer);
  _ ← rt_object_delete timer;
  mret RT_EOK.

(** The nodes of a row behind [h]; [None] is the head of the list. *)
Fixpoint row_after (h : option oid) (row : list oid) : option (list oid) :=
  match h with
  | None => Some row
  | Some x =>
      match row with
      | [] => None
      | y :: row => if decide (x = y) then Some row else row_after h row
      end
  end.

(** The inner loop: [rest] are the nodes behind [h] in the row. *)
Fixpoint row_search (tmo : Z) (h : option oid) (rest : list oid) : K (option oid) :=
  match rest with
  | [] => mret h
  | p :: rest =>
      t ← get_timer p;
      if u32 (tm_timeout_tick t - tmo) =? 0 then row_search tmo (Some p) rest
      else if u32 (tm_timeout_tick t - tmo) <? RT_TICK_MAX / 2 then mret h
      else row_search tmo (Some p) rest
  end.

(** The outer loop, from row to row: [row_head]. *)
Fixpoint rows_search (tmo : Z) (h : option oid) (rows : list (list oid))
  : K (list (option oid)) :=
  match rows with
  | [] => mret []
  | row :: rows =>
      rest ← lift (deref (row_after h row));
      h ← row_search tmo h rest;
      hs ← rows_search tmo h rows;
      mret (h :: hs)
  end.

(** [rt_list_insert_after(h, &(timer->row[...]))] *)
Fixpoint insert_after (h : option oid) (o : oid) (row : list oid) : list oid :=
  match h with
  | None => o :: row
  | Some x =>
      match row with
      | [] => []
      | y :: row => if decide (x = y) then y :: o :: row else y :: insert_after h o row
      end
  end.

(** The rows above the last one, from the bottom up: the timer goes into the
    next row as long as the low bits of the counter are 0. *)
Fixpoint insert_rows (o : oid) (tst_nr : Z) (rows : list (list oid * option oid))
  : list (list oid) :=
  match rows with
  | [] => []
  | (row, h) :: rows =>
      if Z.land tst_nr RT_TIMER_SKIP_LIST_MASK =? 0
      then insert_after h o row ::
           insert_rows o (Z.shiftr tst_nr (Z.shiftr (RT_TIMER_SKIP_LIST_MASK + 1) 1)) rows
      else row :: map fst rows
  end.

Definition insert_timer (o : oid) (tst_nr : Z) (rows : list (list oid)) (hs : list (option oid))
  : list (list oid) :=
  match reverse (zip rows hs) with
  | [] => []
  | (row, h) :: up => reverse (insert_after h o row :: insert_rows o tst_nr up)
  end.

Definition rt_timer_start (o : oid) : K Z :=
  _ ← kassert (negb (oid_addr o =? RT_NULL));
  _ ← _rt_timer_remove o;
  _ ← clear_flag o RT_TIMER_FLAG_ACTIVATED;
  timer ← get_timer o;
  _ ← kassert (tm_init_tick timer <? RT_TICK_MAX / 2);
  tick ← rt_tick_get;
  let timeout_tick := u32 (tick + tm_init_tick timer) in
  _ ← put_timer o (RtTimer (tm_func timer) (tm_parameter timer) (tm_init_tick timer) timeout_tick);
  rows ← gets (fun s => ts_rows (tm s));
  row_head ← rows_search timeout_tick None rows;
  _ ← modify (upd_tm (fun c => with_random (u32 (ts_random_nr c + 1)) c));
  tst_nr ← gets (fun s => ts_random_nr (tm s));
  _ ← modify (upd_tm (with_rows (insert_timer o tst_nr rows row_head)));
  _ ← or_flag o RT_TIMER_FLAG_ACTIVATED;
  mret RT_EOK.

Definition rt_timer_stop (o : oid) : K Z :=
  _ ← kassert (negb (oid_addr o =? RT_NULL));
  f ← get_flag o;
  if Z.land f RT_TIMER_FLAG_ACTIVATED =? 0 then mret (- RT_ERROR) else
  _ ← _rt_timer_remove o;
  _ ← clear_flag o RT_TIMER_FLAG_ACTIVATED;
  mret RT_EOK.

Definition RT_TIMER_CTRL_SET_TIME : Z := 0.
Definition RT_TIMER_CTRL_GET_TIME : Z := 1.
Definition RT_TIMER_CTRL_SET_ONESHOT : Z := 2.
Definition RT_TIMER_CTRL_SET_PERIODIC : Z := 3.

(** [arg] is the word the pointer points to; the result is that word
    afterwards. *)
Definition rt_timer_control (o : oid) (cmd arg : Z) : K Z :=
  _ ← kassert (negb (oid_addr o =? RT_NULL));
  timer ← get_timer o;
  if cmd =? RT_TIMER_CTRL_GET_TIME then mret (tm_init_tick timer)
  else if cmd =? RT_TIMER_CTRL_SET_TIME then
    _ ← put_timer o (RtTimer (tm_func timer) (tm_parameter timer) (u32 arg) (tm_timeout_tick timer));
    mret arg
  else if cmd =? RT_TIMER_CTRL_SET_ONESHOT then
    _ ← clear_flag o RT_TIMER_FLAG_PERIODIC; mret arg
  else if cmd =? RT_TIMER_CTRL_SET_PERIODIC then
    _ ← or_flag o RT_TIMER_FLAG_PERIODIC; mret arg
  else mret arg.

(** [call f p] is what the timeout function [f] does with its parameter [p].
    The loop of [rt_timer_check] has no bound of its own: a timeout function
    that always restarts a timer with no delay keeps it running. *)
Section Check.
Variable call : timeout_fn -> Z -> K unit.

Fixpoint timer_check_loop (fuel : nat) (current_tick : Z) : K unit :=
  match fuel with
  | O => hang
  | S fuel =>
      row ← last_row;
      match row with
      | [] => mret tt
      | t :: _ =>
          timer ← get_timer t;
          if u32 (current_tick - tm_timeout_tick timer) <? RT_TICK_MAX / 2 then
            _ ← _rt_timer_remove t;
            _ ← call (tm_func timer) (tm_parameter timer);
            current_tick ← rt_tick_get;
            f ← get_flag t;
            _ ← (if negb (Z.land f RT_TIMER_FLAG_PERIODIC =? 0) &&
                    negb (Z.land f RT_TIMER_FLAG_ACTIVATED =? 0) then
                   _ ← clear_flag t RT_TIMER_FLAG_ACTIVATED;
                   _ ← rt_timer_start t;
                   mret tt
                 else clear_flag t RT_TIMER_FLAG_ACTIVATED);
            timer_check_loop fuel current_tick
          else mret tt
      end
  end.

Definition rt_timer_check (fuel : nat) : K unit :=
  current_tick ← rt_tick_get; timer_check_loop fuel current_tick.

End Check.

Definition rt_system_timer_init : K unit :=
  modify (upd_tm (with_rows (replicate RT_TIMER_SKIP_LIST_LEVEL []))).

(** ** Effects *)

Definition tm_remove (o : oid) (c : timers) : timers :=
  with_rows (map (filter (fun x => x <> o)) (ts_rows c)) c.

(** [timer->parent.flag = f(timer->parent.flag)] *)
Definition obj_flag (o : oid) (f : Z -> Z) (b : objects) : objects :=
  Objects (alter (fun x => RtObject (o_name x) (o_type x) (u8 (f (o_flag x)))) o (ob_objs b))
    (ob_container b).

Definition unset (f : Z) (x : Z) : Z := Z.land x (Z.lnot f).
Definition active (x : rt_object) : bool := negb (Z.land (o_flag x) RT_TIMER_FLAG_ACTIVATED =? 0).

Lemma alter_insert_some {A} (m : gmap oid A) (o : oid) (x : A) (f : A -> A) :
  m !! o = Some x -> <[o := f x]> m = alter f o m.
Proof.
  intros E. apply map_eq. intros i. destruct (decide (o = i)) as [->|].
  - by rewrite lookup_insert_eq, lookup_alter_eq, E.
  - by rewrite lookup_insert_ne, lookup_alter_ne.
Qed.

Lemma wp_clear_flag (o : oid) (f : Z) (x : rt_object) (Q : unit -> kst -> Prop) (s : kst) :
  ob_objs (ob s) !! o = Some x -> Q tt (upd_ob (obj_flag o (unset f)) s) -> wp (clear_flag o f) Q s.
Proof.
  intros E H. unfold clear_flag. repeat kstep. unfold upd_ob, obj_flag in H.
  by rewrite <- (alter_insert_some _ _ _ _ E) in H.
Qed.

Lemma wp_or_flag (o : oid) (f : Z) (x : rt_object) (Q : unit -> kst -> Prop) (s : kst) :
  ob_objs (ob s) !! o = Some x ->
  Q tt (upd_ob (obj_flag o (fun y => Z.lor y f)) s) -> wp (or_flag o f) Q s.
Proof.
  intros E H. unfold or_flag. repeat kstep. unfold upd_ob, obj_flag in H.
  by rewrite <- (alter_insert_some _ _ _ _ E) in H.
Qed.

Definition timer_stopped (o : oid) (s : kst) : kst :=
  if default false (active <$> ob_objs (ob s) !! o)
  then upd_ob (obj_flag o (unset RT_TIMER_FLAG_ACTIVATED)) (upd_tm (tm_remove o) s)
  else s.

Lemma wp_timer_stop (o : oid) (x : rt_object) (Q : Z -> kst -> Prop) (s : kst) :
  oid_addr o <> RT_NULL -> ob_objs (ob s) !! o = Some x ->
  (forall r, Q r (timer_stopped o s)) -> wp (rt_timer_stop o) Q s.
Proof.
  intros Ho Hx HQ. unfold rt_timer_stop. unfold timer_stopped in HQ. rewrite Hx in HQ.
  cbn [default fmap option_fmap option_map] in HQ. unfold active in HQ.
  repeat kstep; [by apply negb_true_iff, Z.eqb_neq|]. repeat kstep.
  destruct (Z.land (o_flag x) RT_TIMER_FLAG_ACTIVATED =? 0); cbn in HQ.
  - by kstep.
  - unfold _rt_timer_remove. repeat kstep. eapply wp_clear_flag; [exact Hx|]. by kstep.
Qed.

(** ** The order of the timer list *)

(** The ticks that are left, negative when the timeout has passed. *)
Definition remaining (c : timers) (o : oid) : Z :=
  match ts_timers c !! o with Some x => s32 (tm_timeout_tick x - ts_tick c) | None => 0 end.

(** The only row of the configured list. *)
Definition trow (c : timers) : list oid := default [] (ts_rows c !! 0%nat).

(** [o] goes behind the timers that have [k] ticks left or fewer. *)
Fixpoint insert_by (r : oid -> Z) (k : Z) (o : oid) (row : list oid) : list oid :=
  match row with
  | [] => [o]
  | p :: row => if r p <=? k then p :: insert_by r k o row else o :: p :: row
  end.

Record wf_row (c : timers) : Prop := {
  wr_rows : ts_rows c = [trow c];
  wr_nodup : NoDup (trow c);
  wr_timer : forall o, o ∈ trow c -> exists x, ts_timers c !! o = Some x;
  wr_window : forall o, o ∈ trow c -> -1 <= remaining c o < 2 ^ 31 - 1;
  wr_sorted : StronglySorted (fun a b => remaining c a <= remaining c b) (trow c);
}.

(** The comparison of the code, made on 32-bit differences, is the one of the
    ticks left, as long as they are all in one half of the range. *)
Lemma tick_compare (a b now : Z) :
  -1 <= s32 (a - now) < 2 ^ 31 - 1 -> 0 <= s32 (b - now) < 2 ^ 31 - 1 ->
  ((u32 (a - b) =? 0) || negb (u32 (a - b) <? RT_TICK_MAX / 2)) = (s32 (a - now) <=? s32 (b - now)).
Proof.
  intros Ha Hb. unfold sbits, ubits in *. change (32 - 1) with 31 in *.
  change (RT_TICK_MAX / 2) with 2147483647.
  change (2 ^ 31) with 2147483648 in *. change (2 ^ 32) with 4294967296 in *.
  pose proof (Z.div_mod (a - now + 2147483648) 4294967296 ltac:(lia)) as Ea.
  pose proof (Z.div_mod (b - now + 2147483648) 4294967296 ltac:(lia)) as Eb.
  set (x := (a - now + 2147483648) mod 4294967296) in *.
  set (y := (b - now + 2147483648) mod 4294967296) in *.
  set (qa := (a - now + 2147483648) / 4294967296) in *.
  set (qb := (b - now + 2147483648) / 4294967296) in *.
  replace (a - b) with (x - y + (qa - qb) * 4294967296) by lia. rewrite Z.mod_add by lia.
  destruct (Z.leb_spec (x - 2147483648) (y - 2147483648)) as [H|H].
  - destruct (Z.eq_dec x y) as [->|Hne]; [by rewrite Z.sub_diag|].
    replace (x - y) with (x - y + 4294967296 + (-1) * 4294967296) by lia.
    rewrite Z.mod_add, Z.mod_small by lia. test_false. by test_false.
  - rewrite Z.mod_small by lia. test_false. by test_true.
Qed.

Lemma s32_add (now k : Z) : 0 <= k < 2 ^ 31 - 1 -> s32 (u32 (now + k) - now) = k.
Proof.
  intros Hk. unfold sbits, ubits. change (32 - 1) with 31.
  change (2 ^ 31) with 2147483648 in *. change (2 ^ 32) with 4294967296 in *.
  pose proof (Z.div_mod (now + k) 4294967296 ltac:(lia)) as E.
  replace ((now + k) mod 4294967296 - now + 2147483648)
    with (k + 2147483648 + (- ((now + k) / 4294967296)) * 4294967296) by lia.
  rewrite Z.mod_add, Z.mod_small by lia. lia.
Qed.

Lemma insert_by_ext (r r' : oid -> Z) (k : Z) (o : oid) (row : list oid) :
  (forall p, p ∈ row -> r p = r' p) -> insert_by r k o row = insert_by r' k o row.
Proof.
  induction row as [|p row IH]; intros H; [done|]. cbn. rewrite (H p) by set_solver.
  rewrite IH by set_solver. done.
Qed.

Lemma elem_of_insert_by (r : oid -> Z) (k : Z) (o p : oid) (row : list oid) :
  p ∈ insert_by r k o row <-> p = o \/ p ∈ row.
Proof.
  induction row as [|q row IH]; cbn; [set_solver|]. case_test; set_solver.
Qed.

Lemma insert_by_perm (r : oid -> Z) (k : Z) (o : oid) (row : list oid) :
  insert_by r k o row ≡ₚ o :: row.
Proof.
  induction row as [|q row IH]; cbn; [done|]. case_test; [|done]. rewrite IH. constructor.
Qed.

Lemma insert_by_sorted (r : oid -> Z) (k : Z) (o : oid) (row : list oid) :
  r o = k -> StronglySorted (fun a b => r a <= r b) row ->
  StronglySorted (fun a b => r a <= r b) (insert_by r k o row).
Proof.
  intros Ho. induction 1 as [|p row Hs IH Hp]; cbn; [repeat constructor|]. case_test.
  - constructor; [done|]. apply Forall_forall. intros q Hq.
    apply elem_of_insert_by in Hq as [->|Hq]; [lia|].
    rewrite Forall_forall in Hp. by apply Hp.
  - constructor; [by constructor|]. constructor; [lia|].
    eapply Forall_impl; [exact Hp|]. cbn. intros; lia.
Qed.

Lemma insert_after_at (pre rest : list oid) (o : oid) :
  NoDup (pre ++ rest) -> insert_after (last pre) o (pre ++ rest) = pre ++ o :: rest.
Proof.
  induction pre as [|x pre _] using rev_ind; intros N; [by destruct rest|].
  rewrite last_snoc, <- !app_assoc in *. cbn. apply NoDup_app in N as (N1 & N2 & _).
  induction pre as [|y pre IH]; cbn; [by rewrite decide_True|].
  rewrite decide_False by (intros ->; apply (N2 y); set_solver).
  f_equal. apply IH; [by inversion N1|]. intros z Hz. apply N2. set_solver.
Qed.

Lemma wp_row_search (s : kst) (k : Z) (o : oid) (pre rest : list oid)
    (Q : option oid -> kst -> Prop) :
  let c := tm s in
  0 <= k < 2 ^ 31 - 1 -> NoDup (pre ++ rest) ->
  (forall p, p ∈ rest -> exists x, ts_timers c !! p = Some x) ->
  (forall p, p ∈ rest -> -1 <= remaining c p < 2 ^ 31 - 1) ->
  (forall h, insert_after h o (pre ++ rest) = pre ++ insert_by (remaining c) k o rest -> Q h s) ->
  wp (row_search (u32 (ts_tick c + k)) (last pre) rest) Q s.
Proof.
  intros c Hk. revert pre. induction rest as [|p rest IH]; intros pre N Ht Hw HQ; cbn [row_search].
  - kstep. apply HQ. by apply insert_after_at.
  - destruct (Ht p ltac:(set_solver)) as [x Hx]. kstep. eapply wp_get_timer; [exact Hx|].
    pose proof (Hw p ltac:(set_solver)) as Wp. unfold remaining in Wp. rewrite Hx in Wp.
    pose proof (tick_compare (tm_timeout_tick x) (u32 (ts_tick c + k)) (ts_tick c) Wp) as C.
    rewrite s32_add in C by done. specialize (C Hk).
    assert (Step : (remaining c p <=? k) = true ->
      wp (row_search (u32 (ts_tick c + k)) (Some p) rest) Q s).
    { intros Hle. rewrite <- (last_snoc p pre). apply IH.
      - by rewrite <- app_assoc.
      - intros q Hq. apply Ht. set_solver.
      - intros q Hq. apply Hw. set_solver.
      - intros h. rewrite <- !app_assoc. cbn. intros E. apply HQ. cbn. by rewrite Hle. }
    assert (Er : remaining c p = s32 (tm_timeout_tick x - ts_tick c))
      by (unfold remaining; by rewrite Hx).
    rewrite <- Er in C. fold c.
    destruct (u32 (tm_timeout_tick x - u32 (ts_tick c + k)) =? 0); cbn in C; [by apply Step|].
    destruct (u32 (tm_timeout_tick x - u32 (ts_tick c + k)) <? RT_TICK_MAX / 2); cbn in C;
      [|by apply Step].
    kstep. apply HQ. cbn. rewrite <- C. by apply insert_after_at.
Qed.

Lemma row_after_head (row : list oid) : row_after None row = Some row.
Proof. by destruct row. Qed.

(** The state after [rt_timer_start]. *)
Definition timer_started (o : oid) (x : rt_timer) (s : kst) : kst :=
  let now := ts_tick (tm s) in
  let x' := RtTimer (tm_func x) (tm_parameter x) (tm_init_tick x) (u32 (now + tm_init_tick x)) in
  let c := Timers (<[o := x']> (ts_timers (tm s)))
             [insert_by (remaining (tm s)) (tm_init_tick x) o
                (filter (fun p => p <> o) (trow (tm s)))]
             (u32 (ts_random_nr (tm s) + 1)) now in
  upd_ob (obj_flag o (fun f => Z.lor (u8 (unset RT_TIMER_FLAG_ACTIVATED f)) RT_TIMER_FLAG_ACTIVATED))
    (upd_tm (fun _ => c) s).

Lemma obj_flag_compose (o : oid) (f g : Z -> Z) (b : objects) :
  obj_flag o g (obj_flag o f b) = obj_flag o (fun x => g (u8 (f x))) b.
Proof.
  unfold obj_flag. cbn. f_equal. apply map_eq. intros i. destruct (decide (o = i)) as [->|].
  - rewrite !lookup_alter_eq. by destruct (ob_objs b !! i).
  - by rewrite !lookup_alter_ne.
Qed.

Lemma wp_timer_start (o : oid) (x : rt_timer) (y : rt_object) (Q : Z -> kst -> Prop) (s : kst) :
  oid_addr o <> RT_NULL -> wf_row (tm s) -> ts_timers (tm s) !! o = Some x ->
  ob_objs (ob s) !! o = Some y -> 0 <= tm_init_tick x < 2 ^ 31 - 1 ->
  Q RT_EOK (timer_started o x s) -> wp (rt_timer_start o) Q s.
Proof.
  intros Ho W Hx Hy Hi HQ. unfold rt_timer_start, _rt_timer_remove.
  kstep. kstep; [by apply negb_true_iff, Z.eqb_neq|]. repeat kstep.
  eapply wp_clear_flag; [exact Hy|]. repeat kstep.
  { apply Z.ltb_lt. change (RT_TICK_MAX / 2) with 2147483647. lia. }
  repeat kstep. cbn. rewrite (wr_rows _ W). cbn [map rows_search].
  set (row := filter (fun p => p <> o) (trow (tm s))).
  assert (Nrow : NoDup row) by (apply NoDup_filter, W).
  assert (Hrow : forall p, p ∈ row -> p <> o /\ p ∈ trow (tm s)).
  { intros p Hp. by apply list_elem_of_filter in Hp. }
  kstep. eapply wp_lift; [apply row_after_head|]. kstep.
  set (s1 := upd_tm _ (upd_ob _ _)).
  assert (R : forall p, p ∈ row -> remaining (tm s1) p = remaining (tm s) p).
  { intros p Hp. apply Hrow in Hp as [Hne _]. unfold remaining. cbn.
    by rewrite lookup_insert_ne by done. }
  apply (wp_row_search s1 (tm_init_tick x) o [] row); [done|done| | |].
  - intros p Hp. pose proof (Hrow p Hp) as [Hne Hin]. cbn.
    rewrite lookup_insert_ne by done. by apply (wr_timer _ W).
  - intros p Hp. rewrite R by done. by apply (wr_window _ W), Hrow.
  - intros h E. cbn [app] in E. do 2 kstep. repeat kstep.
    eapply wp_or_flag; [cbn; by rewrite lookup_alter_eq, Hy|]. kstep.
    unfold timer_started in HQ. fold row in HQ.
    rewrite (insert_by_ext _ _ _ _ _ R) in E. unfold insert_timer. cbn.
    change (reverse [(row, h)]) with [(row, h)]. cbn. rewrite E.
    unfold upd_ob, upd_tm in *. cbn in *.
    rewrite obj_flag_compose. exact HQ.
Qed.

Lemma sorted_filter (R : oid -> oid -> Prop) (P : oid -> Prop) `{!forall x, Decision (P x)}
    (l : list oid) : StronglySorted R l -> StronglySorted R (filter P l).
Proof.
  induction 1 as [|x l Hs IH Hx]; [constructor|]. rewrite filter_cons. case_decide; [|done].
  constructor; [done|]. apply Forall_forall. intros y Hy.
  apply list_elem_of_filter in Hy as [_ Hy]. rewrite Forall_forall in Hx. by apply Hx.
Qed.

Lemma sorted_ext (r r' : oid -> Z) (l : list oid) :
  (forall p, p ∈ l -> r p = r' p) ->
  StronglySorted (fun a b => r a <= r b) l -> StronglySorted (fun a b => r' a <= r' b) l.
Proof.
  intros E. induction 1 as [|x l Hs IH Hx]; [constructor|]. constructor.
  - apply IH. intros p Hp. apply E. by right.
  - apply Forall_forall. intros y Hy. rewrite <- !E by (by left || by right).
    rewrite Forall_forall in Hx. by apply Hx.
Qed.

Lemma trow_remove (o : oid) (c : timers) :
  ts_rows c = [trow c] -> trow (tm_remove o c) = filter (fun p => p <> o) (trow c).
Proof. intros E. unfold tm_remove, trow at 1. cbn. by rewrite E. Qed.

Lemma wf_row_removed (o : oid) (c : timers) : wf_row c -> wf_row (tm_remove o c).
Proof.
  intros W. pose proof (trow_remove o c (wr_rows _ W)) as E.
  assert (Sub : forall p, p ∈ trow (tm_remove o c) -> p ∈ trow c)
    by (intros p; rewrite E, list_elem_of_filter; tauto).
  constructor.
  - rewrite E. cbn. by rewrite (wr_rows _ W).
  - rewrite E. apply NoDup_filter, W.
  - intros p Hp. apply (wr_timer _ W), Sub, Hp.
  - intros p Hp. apply (wr_window _ W p), Sub, Hp.
  - rewrite E. apply sorted_filter, (wr_sorted _ W).
Qed.

Lemma wf_row_started (o : oid) (x : rt_timer) (s : kst) :
  wf_row (tm s) -> 0 <= tm_init_tick x < 2 ^ 31 - 1 -> wf_row (tm (timer_started o x s)).
Proof.
  intros W Hi. set (c := tm (timer_started o x s)).
  set (row := filter (fun p => p <> o) (trow (tm s))).
  assert (Hrow : forall p, p ∈ row -> p <> o /\ p ∈ trow (tm s))
    by (intros p Hp; by apply list_elem_of_filter in Hp).
  assert (Ro : remaining c o = tm_init_tick x).
  { unfold remaining, c. cbn. rewrite lookup_insert_eq. cbn. by apply s32_add. }
  assert (R : forall p, p <> o -> remaining c p = remaining (tm s) p).
  { intros p Hne. unfold remaining, c. cbn. by rewrite lookup_insert_ne by done. }
  assert (E : trow c = insert_by (remaining c) (tm_init_tick x) o row).
  { unfold c, trow. cbn. apply insert_by_ext. intros p Hp. symmetry. by apply R, Hrow. }
  assert (In : forall p, p ∈ trow c -> p = o \/ (p <> o /\ p ∈ trow (tm s))).
  { intros p. rewrite E, elem_of_insert_by. intros [->|Hp]; [by left|right; by apply Hrow]. }
  constructor.
  - done.
  - rewrite E, insert_by_perm. constructor; [|apply NoDup_filter, W].
    intros Hp. by apply Hrow in Hp as [? _].
  - intros p Hp. destruct (decide (p = o)) as [->|Hne]; unfold c; cbn.
    + rewrite lookup_insert_eq. eauto.
    + rewrite lookup_insert_ne by done. apply (wr_timer _ W).
      destruct (In p Hp) as [?|[_ ?]]; done.
  - intros p Hp. destruct (In p Hp) as [->|[Hne Hp']]; [rewrite Ro; lia|].
    rewrite R by done. by apply (wr_window _ W).
  - rewrite E. apply insert_by_sorted; [done|].
    apply (sorted_ext (remaining (tm s))); [intros p Hp; symmetry; by apply R, Hrow|].
    apply sorted_filter, (wr_sorted _ W).
Qed.

(** The periodic bit of the flag is kept by what sets and clears the active bit. *)
Lemma periodic_bit (x y : Z) :
  (Z.testbit x 1 = Z.testbit y 1) ->
  Z.land (u8 x) RT_TIMER_FLAG_PERIODIC = Z.land y RT_TIMER_FLAG_PERIODIC.
Proof.
  intros E. apply Z.bits_inj'. intros i Hi. rewrite !Z.land_spec.
  change RT_TIMER_FLAG_PERIODIC with (2 ^ 1). rewrite Z.pow2_bits_eqb by lia.
  destruct (Z.eqb_spec 1 i) as [<-|]; [|by rewrite !andb_false_r].
  unfold ubits. rewrite Z.mod_pow2_bits_low, E by lia. done.
Qed.

Lemma unset_periodic (f : Z) :
  Z.land (u8 (unset RT_TIMER_FLAG_ACTIVATED f)) RT_TIMER_FLAG_PERIODIC =
  Z.land f RT_TIMER_FLAG_PERIODIC.
Proof. apply periodic_bit. unfold unset. by rewrite Z.land_spec, Z.lnot_spec, andb_true_r by lia. Qed.

Lemma set_periodic (f : Z) :
  Z.land (u8 (Z.lor (u8 (unset RT_TIMER_FLAG_ACTIVATED f)) RT_TIMER_FLAG_ACTIVATED))
    RT_TIMER_FLAG_PERIODIC = Z.land f RT_TIMER_FLAG_PERIODIC.
Proof.
  rewrite <- (unset_periodic f). apply periodic_bit. by rewrite Z.lor_spec, orb_false_r.
Qed.

Lemma active_set (n : list Z) (k f : Z) :
  active (RtObject n k (u8 (Z.lor (u8 (unset RT_TIMER_FLAG_ACTIVATED f)) RT_TIMER_FLAG_ACTIVATED)))
  = true.
Proof.
  unfold active. cbn.
  apply negb_true_iff, Z.eqb_neq. intros E. apply (f_equal (fun z => Z.testbit z 0)) in E.
  unfold ubits in E. change RT_TIMER_FLAG_ACTIVATED with 1 in E.
  rewrite Z.bits_0, Z.land_spec, Z.mod_pow2_bits_low, Z.lor_spec in E by lia.
  by rewrite orb_true_r in E.
Qed.
