(* ===== verification/Thread.v ===== *)
(** * Threads (Kernel/thread.c, [rt_hw_stack_init] of CORTEX-M3/cpuport.c)

    A function that gives up the processor and goes on when the thread runs
    again is two definitions: the part up to the call of [rt_schedule] after
    which it waits, which returns [Wait k], and the part behind it, which is
    started with [k]. *)

From Stdlib Require Import Lia.
From S2P Require Import Prelude KService Heap KState Scheduler Object Timer.

Inductive outcome (A W : Type) : Type :=
| Return (a : A)
| Wait (k : W).
Arguments Return {A W} _.
Arguments Wait {A W} _.

(** ** The error number (Kernel/kservice.c) *)

Definition rt_get_errno : K Z :=
  n ← rt_interrupt_get_nest;
  if negb (n =? 0) then gets errno else
  tid ← rt_thread_self;
  if tid =? RT_NULL then gets errno else
  th ← get_thread tid; mret (t_error th).

Definition rt_set_errno (error : Z) : K unit :=
  n ← rt_interrupt_get_nest;
  if negb (n =? 0) then modify (set_errno error) else
  tid ← rt_thread_self;
  if tid =? RT_NULL then modify (set_errno error) else
  upd_thread tid (thr_error error).

(** ** The initial stack *)

(** [stack] are the bytes from [base] on; a frame of 16 words is built at the
    top.  Returns the bytes and the stack pointer. *)
Definition rt_hw_stack_init (base : Z) (stack : list Z) (tentry parameter stack_addr texit : Z)
  : res (list Z * Z) :=
  let stk := u32 (stack_addr + 4) in
  let stk := RT_ALIGN_DOWN stk 8 in
  let stk := stk - 64 in
  let off := stk - base in
  stack ← Mem.fill_words 16 stack off 0xdeadbeef;
  stack ← Mem.store32 stack (off + 32) (u32 parameter);
  stack ← Mem.store32 stack (off + 36) 0;
  stack ← Mem.store32 stack (off + 40) 0;
  stack ← Mem.store32 stack (off + 44) 0;
  stack ← Mem.store32 stack (off + 48) 0;
  stack ← Mem.store32 stack (off + 52) (u32 texit);
  stack ← Mem.store32 stack (off + 56) (u32 tentry);
  stack ← Mem.store32 stack (off + 60) 0x01000000;
  mret (stack, stk).

(** The bytes of [thread->name]. *)
Definition thread_name (t : Z) : K (list Z) := x ← get_object (Obj t); mret (o_name x).

Definition zero_thread : rt_thread :=
  RtThread 0 0 0 0 [] 0 0 0 0 0 0 0 0 0 0 0 0.

Definition rt_thread_suspend (t : Z) : K Z :=
  _ ← kassert (negb (t =? RT_NULL));
  th ← get_thread t;
  if negb (t_stat th =? RT_THREAD_READY) then mret (- RT_ERROR) else
  _ ← upd_thread t (thr_stat RT_THREAD_SUSPEND);
  _ ← rt_schedule_remove_thread t;
  _ ← rt_timer_stop (ThreadTimer t);
  mret RT_EOK.

Definition rt_thread_resume (t : Z) : K Z :=
  _ ← kassert (negb (t =? RT_NULL));
  th ← get_thread t;
  if negb (t_stat th =? RT_THREAD_SUSPEND) then mret (- RT_ERROR) else
  _ ← tlist_remove t;
  _ ← rt_timer_stop (ThreadTimer t);
  _ ← rt_schedule_insert_thread t;
  mret RT_EOK.

Definition rt_thread_timeout (parameter : Z) : K unit :=
  let thread := parameter in
  _ ← kassert (negb (thread =? RT_NULL));
  th ← get_thread thread;
  _ ← kassert (t_stat th =? RT_THREAD_SUSPEND);
  _ ← upd_thread thread (thr_error (- RT_ETIMEOUT));
  _ ← tlist_remove thread;
  _ ← rt_schedule_insert_thread thread;
  rt_schedule.

Section Init.
(** The address of [rt_thread_exit]. *)
Variable rt_thread_exit_addr : Z.

(** [raw] is what the memory of the thread holds, [stack] what the memory from
    [stack_start] on holds. *)
Definition _rt_thread_init (t : Z) (raw : rt_thread) (entry parameter stack_start : Z)
    (stack : list Z) (stack_size priority tick : Z) : K Z :=
  _ ← tlist_init t;
  let size := u16 stack_size in
  stack ← lift (Mem.rt_memset stack 0 35 size);
  '(stack, sp) ← lift (rt_hw_stack_init stack_start stack entry parameter
                        (u32 (stack_start + size - 4)) rt_thread_exit_addr);
  _ ← kassert (u8 priority <? RT_THREAD_PRIORITY_MAX);
  _ ← put_thread t (RtThread entry parameter stack_start size stack sp
        RT_EOK RT_THREAD_INIT (u8 priority) (u8 priority) (t_number_mask raw)
        (t_event_set raw) (t_event_info raw) (u32 tick) (u32 tick) 0 0);
  name ← thread_name t;
  _ ← rt_timer_init (ThreadTimer t) name F_rt_thread_timeout t 0 RT_TIMER_FLAG_ONE_SHOT;
  mret RT_EOK.

Definition rt_thread_init (t : Z) (name : list Z) (entry parameter stack_start : Z)
    (stack : list Z) (stack_size priority tick : Z) : K Z :=
  _ ← kassert (negb (t =? RT_NULL));
  _ ← kassert (negb (stack_start =? RT_NULL));
  _ ← rt_object_init (Obj t) RT_Object_Class_Thread name;
  raw ← gets (fun s => default zero_thread (s_threads (sc s) !! t));
  _rt_thread_init t raw entry parameter stack_start stack stack_size priority tick.

(** [raw] and [stack]: what the allocated memory holds. *)
Definition rt_thread_create (raw : rt_thread) (stack : list Z) (name : list Z)
    (entry parameter stack_size priority tick : Z) : K Z :=
  thread ← rt_object_allocate RT_Object_Class_Thread name;
  if thread =? RT_NULL then mret RT_NULL else
  stack_start ← RT_KERNEL_MALLOC stack_size;
  if stack_start =? RT_NULL then
    _ ← rt_object_delete thread; mret RT_NULL
  else
    _ ← _rt_thread_init thread raw entry parameter stack_start stack stack_size priority tick;
    mret thread.

End Init.

Definition rt_thread_startup (t : Z) : K Z :=
  _ ← kassert (negb (t =? RT_NULL));
  th ← get_thread t;
  _ ← kassert (t_stat th =? RT_THREAD_INIT);
  _ ← upd_thread t (fun th =>
        thr_priority (t_init_priority th) (u32 (Z.shiftl 1 (t_init_priority th))) th);
  _ ← upd_thread t (thr_stat RT_THREAD_SUSPEND);
  _ ← rt_thread_resume t;
  self ← rt_thread_self;
  _ ← kwhen (negb (self =? RT_NULL)) rt_schedule;
  mret RT_EOK.

Definition rt_thread_exit : K unit :=
  t ← rt_thread_self;
  _ ← rt_schedule_remove_thread t;
  _ ← upd_thread t (thr_stat RT_THREAD_CLOSE);
  _ ← rt_timer_detach (ThreadTimer t);
  b ← rt_object_is_systemobject (Obj t);
  th ← get_thread t;
  _ ← (if (b : bool) && (t_cleanup th =? RT_NULL)
       then rt_object_detach (Obj t)
       else tlist_push_front LDefunct t);
  rt_schedule.

Definition rt_thread_detach (t : Z) : K Z :=
  _ ← kassert (negb (t =? RT_NULL));
  _ ← rt_schedule_remove_thread t;
  _ ← rt_timer_detach (ThreadTimer t);
  _ ← upd_thread t (thr_stat RT_THREAD_CLOSE);
  _ ← rt_object_detach (Obj t);
  th ← get_thread t;
  _ ← kwhen (negb (t_cleanup th =? RT_NULL)) (tlist_push_front LDefunct t);
  mret RT_EOK.

Definition rt_thread_delete (t : Z) : K Z :=
  _ ← kassert (negb (t =? RT_NULL));
  _ ← rt_schedule_remove_thread t;
  _ ← rt_timer_detach (ThreadTimer t);
  _ ← upd_thread t (thr_stat RT_THREAD_CLOSE);
  _ ← tlist_push_front LDefunct t;
  mret RT_EOK.

(** [thread->tlist.next != thread->tlist.prev]: another thread is in the list. *)
Definition not_alone (c : sched) (t : Z) : bool :=
  existsb (fun lx => bool_decide (t ∈ lx.2) && (1 <? Z.of_nat (length lx.2)))
    (map_to_list (s_tlists c)).

Definition rt_thread_yield : K Z :=
  t ← rt_thread_self;
  th ← get_thread t;
  b ← gets (fun s => not_alone (sc s) t);
  if (t_stat th =? RT_THREAD_READY) && (b : bool) then
    _ ← tlist_remove t;
    l ← ready_queue (t_current_priority th);
    _ ← tlist_push_back l t;
    _ ← rt_schedule;
    mret RT_EOK
  else mret RT_EOK.

(** Waits with the thread that called it. *)
Definition rt_thread_sleep (tick : Z) : K (outcome Z Z) :=
  t ← rt_thread_self;
  _ ← kassert (negb (t =? RT_NULL));
  _ ← rt_thread_suspend t;
  _ ← rt_timer_control (ThreadTimer t) RT_TIMER_CTRL_SET_TIME (u32 tick);
  _ ← rt_timer_start (ThreadTimer t);
  _ ← rt_schedule;
  mret (Wait t).
Definition rt_thread_sleep_resume (t : Z) : K Z :=
  th ← get_thread t;
  _ ← kwhen (t_error th =? - RT_ETIMEOUT) (upd_thread t (thr_error RT_EOK));
  mret RT_EOK.

Definition rt_thread_delay (tick : Z) : K (outcome Z Z) := rt_thread_sleep tick.

Definition RT_THREAD_CTRL_STARTUP : Z := 0.
Definition RT_THREAD_CTRL_CLOSE : Z := 1.
Definition RT_THREAD_CTRL_CHANGE_PRIORITY : Z := 2.

(** [current_priority] and [number_mask] for a new priority; a shift by 32 and
    more gives 0 on the target. *)
Definition set_priority (p : Z) (th : rt_thread) : rt_thread :=
  thr_priority p (u32 (Z.shiftl 1 p)) th.

(** [arg] is the byte the pointer points to. *)
Definition rt_thread_control (t cmd arg : Z) : K Z :=
  _ ← kassert (negb (t =? RT_NULL));
  if cmd =? RT_THREAD_CTRL_CHANGE_PRIORITY then
    th ← get_thread t;
    _ ← (if t_stat th =? RT_THREAD_READY then
           _ ← rt_schedule_remove_thread t;
           _ ← upd_thread t (set_priority (u8 arg));
           rt_schedule_insert_thread t
         else upd_thread t (set_priority (u8 arg)));
    mret RT_EOK
  else if cmd =? RT_THREAD_CTRL_STARTUP then rt_thread_startup t
  else if cmd =? RT_THREAD_CTRL_CLOSE then rt_thread_delete t
  else mret RT_EOK.

Definition rt_thread_find (name : list Z) : K Z :=
  self ← rt_thread_self;
  _ ← kwhen (negb (self =? RT_NULL)) rt_enter_critical;
  l ← get_container RT_Object_Class_Thread;
  r ← find_loop l name;
  self ← rt_thread_self;
  _ ← kwhen (negb (self =? RT_NULL)) rt_exit_critical;
  mret (match r with Some o => oid_addr o | None => RT_NULL end).
