(* ===== verification/Invariant.v ===== *)
(** * The invariant of the running kernel

    What holds between any two operations of the kernel, and that the
    operations on threads keep it. *)

From Stdlib Require Import Lia Sorted.
From S2P Require Import Prelude KService Heap KState Scheduler Object Timer Thread.

(** ** The invariant *)

(** The timer of a thread fires once. *)
Definition oneshot_timers (b : objects) : Prop := forall t y, ob_objs b !! ThreadTimer t = Some y ->
  Z.land (o_flag y) RT_TIMER_FLAG_PERIODIC = 0.

Record wf_kst (s : kst) : Prop := {
  wk_sched : wf_sched (sc s);
  wk_row : wf_row (tm s);
  (* what is in the timer list is marked active *)
  wk_flag : forall o, o ∈ trow (tm s) -> active <$> ob_objs (ob s) !! o = Some true;
  (* the timer of a thread *)
  wk_timer : forall t th, s_threads (sc s) !! t = Some th -> t_stat th <> RT_THREAD_CLOSE ->
    exists x y, ts_timers (tm s) !! ThreadTimer t = Some x /\
      tm_func x = F_rt_thread_timeout /\ tm_parameter x = t /\
      ob_objs (ob s) !! ThreadTimer t = Some y;
  (* only a thread that waits has its timer running *)
  wk_sleep : forall t, ThreadTimer t ∈ trow (tm s) ->
    exists th, s_threads (sc s) !! t = Some th /\ t_stat th = RT_THREAD_SUSPEND;
  wk_addr : forall t th, s_threads (sc s) !! t = Some th -> 0 < t;
  wk_oneshot : oneshot_timers (ob s);
}.

(** ** [rt_schedule] *)

(** The head of the highest-priority queue that is not empty. *)
Definition highest (c : sched) (p t : Z) : Prop :=
  0 <= p < 32 /\ head (tlist c (LReady p)) = Some t /\
  forall q, 0 <= q < p -> tlist c (LReady q) = [].

Lemma highest_ready (c : sched) :
  wf_sched c -> s_group c <> 0 ->
  exists t, highest c (Ffs.__rt_ffs (s_group c) - 1) t.
Proof.
  intros W Hg. destruct (Ffs.ffs_lowest _ (ws_group c W) Hg) as [R (_ & B & L)].
  rewrite (ws_bit c W) in B by lia.
  destruct (tlist c (LReady (Ffs.__rt_ffs (s_group c) - 1))) as [|t x] eqn:E; [done|].
  exists t. split; [lia|]. rewrite E. split; [done|]. intros q Hq.
  destruct (tlist c (LReady q)) eqn:Eq; [done|].
  assert (Z.testbit (s_group c) q = true) by (apply (ws_bit c W); [lia|by rewrite Eq]).
  rewrite L in H by lia. done.
Qed.

Lemma highest_unique (c : sched) (p q t u : Z) :
  highest c p t -> highest c q u -> p = q /\ t = u.
Proof.
  intros (Hp & Ht & Lp) (Hq & Hu & Lq).
  assert (p = q) as ->.
  { destruct (Z.lt_trichotomy p q) as [H|[H|H]]; [|done|].
    - rewrite Lq in Ht by lia. done.
    - rewrite Lp in Hu by lia. done. }
  split; [done|]. congruence.
Qed.

(** The scheduler's state after [rt_schedule]. *)
Definition switch_to (p t : Z) (c : sched) : sched :=
  with_switch (Some (match s_switch c with Some (f, _) => f | None => s_current c end, t))
    (with_current t (u8 p) c).

Definition scheduled (c c' : sched) : Prop :=
  if s_lock_nest c =? 0 then
    exists p t, highest c p t /\
      c' = if t =? s_current c then c else switch_to p t c
  else c' = c.

Lemma scheduled_same (c c' : sched) :
  scheduled c c' -> s_threads c' = s_threads c /\ s_tlists c' = s_tlists c /\
    s_group c' = s_group c /\ s_lock_nest c' = s_lock_nest c /\
    s_interrupt_nest c' = s_interrupt_nest c.
Proof.
  unfold scheduled. case_test; [|by intros ->]. intros (p & t & _ & ->). by case_test.
Qed.

Lemma wf_scheduled (c c' : sched) : wf_sched c -> scheduled c c' -> wf_sched c'.
Proof.
  intros W S. destruct (scheduled_same _ _ S) as (E1 & E2 & E3 & _). by apply (wf_same c).
Qed.

Lemma with_sc (s : kst) : upd_sc (fun _ => sc s) s = s.
Proof. by destruct s. Qed.

Lemma wp_schedule (s : kst) (Q : unit -> kst -> Prop) :
  wf_sched (sc s) -> s_group (sc s) <> 0 ->
  (forall c', scheduled (sc s) c' -> Q tt (upd_sc (fun _ => c') s)) -> wp rt_schedule Q s.
Proof.
  intros W Hg HQ. unfold rt_schedule, scheduled in *. do 2 kstep.
  destruct (s_lock_nest (sc s) =? 0) eqn:En; cbn [negb].
  2: { kstep. rewrite <- (with_sc s). by apply HQ. }
  destruct (highest_ready _ W Hg) as [t Ht].
  unfold get_group. do 2 kstep. kstep. apply wp_ready_queue; [destruct Ht; lia|]. kstep.
  pose proof Ht as (Hp & Hh & _).
  destruct (tlist (sc s) (LReady _)) as [|t' x] eqn:E; [done|]. injection Hh as ->.
  eapply wp_first_entry; [exact E|]. do 2 kstep.
  destruct (t =? s_current (sc s)) eqn:Et.
  { kstep. rewrite <- (with_sc s). apply HQ. eexists _, t. split; [exact Ht|]. by rewrite Et. }
  assert (Hin : t ∈ tlist (sc s) (LReady (Ffs.__rt_ffs (s_group (sc s)) - 1)))
    by (rewrite E; set_solver).
  destruct (ws_loc _ W _ _ Hin) as (th & Hth & _).
  pose proof (ws_stack _ W _ _ Hth) as Hst. unfold stack_ok in Hst.
  assert (t <> RT_NULL) by (intros ->; by rewrite (ws_null _ W) in Hth).
  unfold _rt_scheduler_stack_check. repeat kstep.
  { by apply negb_true_iff, Z.eqb_neq. }
  repeat kstep.
  { test_false. by test_false. }
  unfold rt_hw_context_switch. repeat kstep.
  specialize (HQ (switch_to (Ffs.__rt_ffs (s_group (sc s)) - 1) t (sc s))).
  apply HQ. eexists _, t. split; [exact Ht|]. by rewrite Et.
Qed.

(** ** Preservation by changes of the scheduler state *)

(** The threads keep what the timers depend on. *)
Definition same_waiting (c c' : sched) : Prop :=
  (forall t th', s_threads c' !! t = Some th' ->
     exists th, s_threads c !! t = Some th /\
       (t_stat th' <> RT_THREAD_CLOSE -> t_stat th <> RT_THREAD_CLOSE)) /\
  (forall t th, s_threads c !! t = Some th -> t_stat th = RT_THREAD_SUSPEND ->
     exists th', s_threads c' !! t = Some th' /\ t_stat th' = RT_THREAD_SUSPEND).

Lemma wf_kst_sched (s s' : kst) :
  wf_kst s -> wf_sched (sc s') -> same_waiting (sc s) (sc s') ->
  tm s' = tm s -> ob s' = ob s -> wf_kst s'.
Proof.
  intros W Wc [H1 H2] Et Eo. constructor; rewrite ?Et, ?Eo; try apply W; try done.
  - intros t th' Ht Hs. destruct (H1 t th' Ht) as (th & Hth & Hc). apply (wk_timer _ W t th); auto.
  - intros t Hin. destruct (wk_sleep _ W t Hin) as (th & Hth & Hs). by apply (H2 t th).
  - intros t th' Ht. destruct (H1 t th' Ht) as (th & Hth & _). by apply (wk_addr _ W t th).
Qed.

Lemma same_waiting_refl (c c' : sched) : s_threads c' = s_threads c -> same_waiting c c'.
Proof. intros E. split; rewrite E; eauto. Qed.

Lemma same_waiting_trans (c1 c2 c3 : sched) :
  same_waiting c1 c2 -> same_waiting c2 c3 -> same_waiting c1 c3.
Proof.
  intros [A1 A2] [B1 B2]. split.
  - intros t th H. destruct (B1 t th H) as (x & Hx & Ex). destruct (A1 t x Hx) as (y & Hy & Ey).
    exists y. auto.
  - intros t th H E. destruct (A2 t th H E) as (x & Hx & Ex). by apply (B2 t x).
Qed.

Lemma wf_kst_scheduled (s : kst) (c' : sched) :
  wf_kst s -> scheduled (sc s) c' -> wf_kst (upd_sc (fun _ => c') s).
Proof.
  intros W S. apply (wf_kst_sched s); try done.
  - by apply (wf_scheduled (sc s)); [apply W|].
  - destruct (scheduled_same _ _ S) as (E & _). by apply same_waiting_refl.
Qed.

(** A field of a thread that nothing here depends on. *)
Lemma wf_kst_field (s : kst) (t : Z) (th : rt_thread) (f : rt_thread -> rt_thread) :
  wf_kst s -> s_threads (sc s) !! t = Some th -> t_stat (f th) = t_stat th ->
  t_current_priority (f th) = t_current_priority th -> t_number_mask (f th) = t_number_mask th ->
  t_init_priority (f th) = t_init_priority th -> (stack_ok th -> stack_ok (f th)) ->
  wf_kst (upd_sc (fun c => with_threads (<[t := f th]> (s_threads c)) c) s).
Proof.
  intros W Ht E1 E2 E3 E4 E5. apply (wf_kst_sched s); try done.
  - by apply (wf_thread_fields _ (wk_sched _ W) t th).
  - split; cbn.
    + intros u x. rewrite lookup_insert. case_decide; intros; simplify_eq; [|by eauto].
      eexists; split; [done|]. by rewrite E1.
    + intros u x Hu Hs. rewrite lookup_insert. case_decide; simplify_eq; eauto.
      eexists; split; [done|]. by rewrite E1.
Qed.

(** ** Stopping the timer of a thread *)

Lemma stopped_objs (s : kst) (o p : oid) :
  p <> o -> ob_objs (ob (timer_stopped o s)) !! p = ob_objs (ob s) !! p.
Proof.
  intros H. unfold timer_stopped. case_test; [|done]. cbn. by rewrite lookup_alter_ne by done.
Qed.

Lemma stopped_same (s : kst) (o : oid) :
  sc (timer_stopped o s) = sc s /\ ip (timer_stopped o s) = ip s /\
  hp (timer_stopped o s) = hp s /\ errno (timer_stopped o s) = errno s /\
  ts_timers (tm (timer_stopped o s)) = ts_timers (tm s) /\
  ts_tick (tm (timer_stopped o s)) = ts_tick (tm s) /\
  ob_container (ob (timer_stopped o s)) = ob_container (ob s).
Proof. unfold timer_stopped. case_test; done. Qed.

Lemma stopped_is_some (s : kst) (o p : oid) (y : rt_object) :
  ob_objs (ob s) !! p = Some y -> exists y', ob_objs (ob (timer_stopped o s)) !! p = Some y'.
Proof.
  intros H. destruct (decide (p = o)) as [->|]; [|rewrite stopped_objs by done; eauto].
  unfold timer_stopped. case_test; [|by eauto]. cbn. rewrite lookup_alter_eq, H. cbn. eauto.
Qed.

Lemma filter_all {A} (P : A -> Prop) `{!forall x, Decision (P x)} (l : list A) :
  (forall x, x ∈ l -> P x) -> filter P l = l.
Proof.
  induction l as [|x l IH]; intros Hl; [done|]. rewrite filter_cons_True by (apply Hl; by left).
  f_equal. apply IH. intros y Hy. apply Hl. by right.
Qed.

Lemma oneshot_flag (b : objects) (o : oid) (f : Z -> Z) :
  (forall x, Z.land (u8 (f x)) RT_TIMER_FLAG_PERIODIC = Z.land x RT_TIMER_FLAG_PERIODIC) ->
  oneshot_timers b -> oneshot_timers (obj_flag o f b).
Proof.
  intros Hf H t y. cbn. destruct (decide (ThreadTimer t = o)) as [<-|].
  - rewrite lookup_alter_eq. destruct (ob_objs b !! ThreadTimer t) as [x|] eqn:E; [|done].
    intros [= <-]. cbn. rewrite Hf. by apply (H t).
  - rewrite lookup_alter_ne by done. apply H.
Qed.

Lemma oneshot_stopped (s : kst) (o : oid) :
  oneshot_timers (ob s) -> oneshot_timers (ob (timer_stopped o s)).
Proof.
  intros H. unfold timer_stopped. case_test; [|done]. apply oneshot_flag; [|done].
  intros x. apply unset_periodic.
Qed.

Lemma stopped_row (s : kst) (o : oid) :
  wf_row (tm s) -> (forall p, p ∈ trow (tm s) -> active <$> ob_objs (ob s) !! p = Some true) ->
  trow (tm (timer_stopped o s)) = filter (fun p => p <> o) (trow (tm s)).
Proof.
  intros W F. unfold timer_stopped. destruct (default false _) eqn:E; cbn.
  - apply trow_remove, W.
  - symmetry. apply filter_all. intros p Hp ->. specialize (F o Hp).
    destruct (ob_objs (ob s) !! o); cbn in F, E; [|done]. congruence.
Qed.

Lemma wf_row_stopped (s : kst) (o : oid) : wf_row (tm s) -> wf_row (tm (timer_stopped o s)).
Proof. intros W. unfold timer_stopped. case_test; [|done]. by apply wf_row_removed. Qed.

(** A thread changes its state and its place while its timer is stopped. *)
Lemma wf_kst_moved (s s' : kst) (t : Z) (th th' : rt_thread) (w : option lid) :
  wf_kst s -> s_threads (sc s) !! t = Some th -> thread_moved t th' w (sc s) (sc s') ->
  (t_stat th' <> RT_THREAD_CLOSE -> t_stat th <> RT_THREAD_CLOSE) ->
  tm s' = tm (timer_stopped (ThreadTimer t) s) -> ob s' = ob (timer_stopped (ThreadTimer t) s) ->
  wf_kst s'.
Proof.
  intros W Hth M Hc Et Eo.
  assert (L : forall u x, s_threads (sc s') !! u = Some x ->
    (u = t /\ x = th') \/ (u <> t /\ s_threads (sc s) !! u = Some x)).
  { intros u x. rewrite (tm_threads _ _ _ _ _ M), lookup_insert.
    case_decide; intros; simplify_eq; auto. }
  pose proof (stopped_row s (ThreadTimer t) (wk_row _ W) (wk_flag _ W)) as R.
  pose proof (stopped_same s (ThreadTimer t)) as (_ & _ & _ & _ & Ets & _).
  constructor; rewrite ?Et, ?Eo, ?Ets.
  - by eapply wf_moved; [apply W|].
  - apply wf_row_stopped, W.
  - intros o. rewrite R, list_elem_of_filter. intros [Hne Ho]. rewrite stopped_objs by done.
    by apply (wk_flag _ W).
  - intros u x Hu Hs.
    assert (T : exists x0 y, ts_timers (tm s) !! ThreadTimer u = Some x0 /\
      tm_func x0 = F_rt_thread_timeout /\ tm_parameter x0 = u /\
      ob_objs (ob s) !! ThreadTimer u = Some y).
    { destruct (L u x Hu) as [[-> ->]|[_ Hu']]; [apply (wk_timer _ W t th); auto|].
      by apply (wk_timer _ W u x). }
    destruct T as (x0 & y & T1 & T2 & T3 & T4).
    destruct (stopped_is_some s (ThreadTimer t) _ _ T4) as [y' Hy']. eauto 8.
  - intros u. rewrite R, list_elem_of_filter. intros [Hne Hu].
    destruct (wk_sleep _ W u Hu) as (x & Hx & Hs). exists x. split; [|done].
    rewrite (tm_threads _ _ _ _ _ M), lookup_insert_ne; [done|congruence].
  - intros u x Hu. destruct (L u x Hu) as [[-> ->]|[_ Hu']]; [by apply (wk_addr _ W t th)|].
    by apply (wk_addr _ W u x).
  - apply oneshot_stopped. apply W.
Qed.

(** ** Suspending and resuming *)

Definition unready (t : Z) (th' : rt_thread) (c : sched) : sched :=
  ready_del t th' (with_threads (<[t := th']> (s_threads c)) c).

Lemma moved_unready (c : sched) (t : Z) (th th' : rt_thread) :
  wf_sched c -> s_threads c !! t = Some th -> t_stat th <> RT_THREAD_INIT ->
  t_stat th' <> RT_THREAD_READY ->
  t_current_priority th' = t_current_priority th -> t_number_mask th' = t_number_mask th ->
  t_init_priority th' = t_init_priority th -> (stack_ok th -> stack_ok th') ->
  thread_moved t th' None c (unready t th' c).
Proof.
  intros W Ht Hi Hr Ep Em Ei Es.
  assert (E : unready t th' c = with_threads (<[t := th']> (s_threads c)) (ready_del t th c)).
  { unfold unready, ready_del. rewrite !tlist_removed, Ep, Em.
    change (tlist (with_threads (<[t := th']> (s_threads c)) c) (LReady (t_current_priority th)))
      with (tlist c (LReady (t_current_priority th))).
    by case_bool_decide. }
  rewrite E. by eapply moved_ready_del.
Qed.

Lemma moved_trans (t : Z) (th1 th2 : rt_thread) (w1 w2 : option lid) (c1 c2 c3 : sched) :
  thread_moved t th1 w1 c1 c2 -> thread_moved t th2 w2 c2 c3 -> thread_moved t th2 w2 c1 c3.
Proof.
  intros M1 M2. constructor; try apply M2.
  - rewrite (tm_threads _ _ _ _ _ M2), (tm_threads _ _ _ _ _ M1). apply insert_insert_eq.
  - intros l u Hne. rewrite (tm_others _ _ _ _ _ M2), (tm_others _ _ _ _ _ M1) by done. done.
Qed.

Definition unlink (t : Z) (c : sched) : sched :=
  with_tlists (remove_tid t <$> s_tlists c) c.

(** A thread that is not ready leaves the list it is in. *)
Lemma moved_unlink (c : sched) (t : Z) (th th' : rt_thread) :
  wf_sched c -> s_threads c !! t = Some th ->
  t_stat th <> RT_THREAD_READY -> t_stat th <> RT_THREAD_INIT ->
  t_stat th' <> RT_THREAD_READY -> t_current_priority th' = t_current_priority th ->
  t_number_mask th' = t_number_mask th ->
  t_init_priority th' = t_init_priority th -> (stack_ok th -> stack_ok th') ->
  thread_moved t th' None c (unlink t (with_threads (<[t := th']> (s_threads c)) c)).
Proof.
  intros W Ht Hr Hi Hr' Ep Em Ei Es.
  assert (T : forall l, tlist (unlink t (with_threads (<[t := th']> (s_threads c)) c)) l =
    remove_tid t (tlist c l)).
  { intros l. unfold unlink. by rewrite tlist_removed. }
  constructor; try done; try apply W.
  - intros l. rewrite T. apply NoDup_remove_tid, W.
  - intros l u Hne. rewrite T, elem_of_remove_tid. tauto.
  - intros l. rewrite T, elem_of_remove_tid. split; [tauto|done].
  - intros _. rewrite Ep, Em. by apply (ws_prio c W t th).
  - rewrite Ei. apply (ws_init c W t th Ht).
  - apply Es, (ws_stack c W t th Ht).
  - by eapply not_null.
  - intros p Hp. rewrite T. change (s_group (unlink _ _)) with (s_group c).
    rewrite (ws_bit c W p Hp), remove_tid_notin; [done|]. intros Hin.
    destruct (ws_loc c W _ _ Hin) as (x & Hx & Hs & _). congruence.
Qed.

Lemma stopped_upd_sc (o : oid) (f : sched -> sched) (s : kst) :
  timer_stopped o (upd_sc f s) = upd_sc f (timer_stopped o s).
Proof. unfold timer_stopped. cbn. by case_test. Qed.

Lemma stopped_sc (o : oid) (s : kst) : sc (timer_stopped o s) = sc s.
Proof. apply stopped_same. Qed.

(** The state after [rt_thread_suspend], [rt_thread_resume]. *)
Definition suspended (t : Z) (th : rt_thread) (s : kst) : kst :=
  upd_sc (unready t (thr_stat RT_THREAD_SUSPEND th)) (timer_stopped (ThreadTimer t) s).
Definition resumed (t : Z) (th : rt_thread) (s : kst) : kst :=
  upd_sc (fun c => ready_add t th (unlink t c)) (timer_stopped (ThreadTimer t) s).

Lemma thread_fields (s : kst) (t : Z) (th : rt_thread) :
  wf_kst s -> s_threads (sc s) !! t = Some th -> t_stat th <> RT_THREAD_INIT ->
  0 < t /\ 0 <= t_current_priority th < 32 /\ t_number_mask th = 2 ^ t_current_priority th.
Proof.
  intros W Ht Hi. destruct (ws_prio _ (wk_sched _ W) t th Ht Hi).
  pose proof (wk_addr _ W t th Ht). done.
Qed.

Lemma thread_timer_object (s : kst) (t : Z) (th : rt_thread) :
  wf_kst s -> s_threads (sc s) !! t = Some th -> t_stat th <> RT_THREAD_CLOSE ->
  oid_addr (ThreadTimer t) <> RT_NULL /\ exists y, ob_objs (ob s) !! ThreadTimer t = Some y.
Proof.
  intros W Ht Hc. pose proof (wk_addr _ W t th Ht). destruct (wk_timer _ W t th Ht Hc)
    as (x & y & _ & _ & _ & Hy). split; [unfold RT_NULL; cbn; lia|eauto].
Qed.

Lemma neqb_null (t : Z) : 0 < t -> negb (t =? RT_NULL) = true.
Proof. intros. apply negb_true_iff, Z.eqb_neq. unfold RT_NULL. lia. Qed.

Lemma wp_suspend (s : kst) (t : Z) (th : rt_thread) (Q : Z -> kst -> Prop) :
  wf_kst s -> s_threads (sc s) !! t = Some th -> t_stat th = RT_THREAD_READY ->
  Q RT_EOK (suspended t th s) -> wp (rt_thread_suspend t) Q s.
Proof.
  intros W Ht Hs HQ.
  destruct (thread_fields s t th W Ht ltac:(by rewrite Hs)) as (Ha & Hp & _).
  destruct (thread_timer_object s t th W Ht ltac:(by rewrite Hs)) as (Hn & y & Hy).
  unfold rt_thread_suspend. kstep. kstep; [by apply neqb_null|]. repeat kstep.
  rewrite Hs. cbn. repeat kstep.
  apply (wp_remove_thread t (thr_stat RT_THREAD_SUSPEND th));
    [unfold RT_NULL; lia|apply lookup_insert_eq|done|].
  kstep. eapply wp_timer_stop; [done|exact Hy|]. intros r. kstep.
  unfold suspended in HQ. unfold set_thread. rewrite !stopped_upd_sc. exact HQ.
Qed.

Lemma suspended_moved (s : kst) (t : Z) (th : rt_thread) :
  wf_kst s -> s_threads (sc s) !! t = Some th -> t_stat th = RT_THREAD_READY ->
  thread_moved t (thr_stat RT_THREAD_SUSPEND th) None (sc s) (sc (suspended t th s)) /\
  wf_kst (suspended t th s).
Proof.
  intros W Ht Hs.
  assert (M : thread_moved t (thr_stat RT_THREAD_SUSPEND th) None (sc s) (sc (suspended t th s))).
  { cbn. rewrite stopped_sc. apply (moved_unready _ t th); try done; [apply W|by rewrite Hs]. }
  split; [done|]. apply (wf_kst_moved s _ t th _ None W Ht M); try done. by rewrite Hs.
Qed.

Lemma wp_resume (s : kst) (t : Z) (th : rt_thread) (Q : Z -> kst -> Prop) :
  wf_kst s -> s_threads (sc s) !! t = Some th -> t_stat th = RT_THREAD_SUSPEND ->
  Q RT_EOK (resumed t th s) -> wp (rt_thread_resume t) Q s.
Proof.
  intros W Ht Hs HQ.
  destruct (thread_fields s t th W Ht ltac:(by rewrite Hs)) as (Ha & Hp & _).
  destruct (thread_timer_object s t th W Ht ltac:(by rewrite Hs)) as (Hn & y & Hy).
  unfold rt_thread_resume. kstep. kstep; [by apply neqb_null|]. repeat kstep.
  rewrite Hs. cbn. repeat kstep.
  eapply wp_timer_stop; [done|exact Hy|]. intros r. rewrite stopped_upd_sc. kstep.
  apply (wp_insert_thread t th); [unfold RT_NULL; lia| | |done|].
  - cbn. by rewrite stopped_sc.
  - cbn. apply unlinked_removed.
  - kstep. exact HQ.
Qed.

Lemma resumed_moved (s : kst) (t : Z) (th : rt_thread) :
  wf_kst s -> s_threads (sc s) !! t = Some th -> t_stat th = RT_THREAD_SUSPEND ->
  thread_moved t (thr_stat RT_THREAD_READY th) (Some (LReady (t_current_priority th)))
    (sc s) (sc (resumed t th s)) /\ wf_kst (resumed t th s).
Proof.
  intros W Ht Hs.
  destruct (thread_fields s t th W Ht ltac:(by rewrite Hs)) as (Ha & Hp & Hm).
  assert (M1 : thread_moved t th None (sc s) (unlink t (sc s))).
  { pose proof (moved_unlink (sc s) t th th (wk_sched _ W) Ht) as M.
    rewrite insert_id in M by done. apply M; try done; by rewrite Hs. }
  assert (M : thread_moved t (thr_stat RT_THREAD_READY th)
    (Some (LReady (t_current_priority th))) (sc s) (sc (resumed t th s))).
  { cbn. rewrite stopped_sc. eapply moved_trans; [exact M1|].
    apply moved_ready_add; try done.
    - eapply wf_moved; [apply W|exact M1].
    - apply unlinked_removed. }
  split; [done|]. apply (wf_kst_moved s _ t th _ _ W Ht M); try done. by rewrite Hs.
Qed.

(** ** Lists of waiting threads *)

Definition wait_list (l : lid) : Prop := match l with LSuspend _ | LSender _ => True | _ => False end.

Lemma group_nonzero (c : sched) (u : Z) (thu : rt_thread) :
  wf_sched c -> s_threads c !! u = Some thu -> t_stat thu = RT_THREAD_READY -> s_group c <> 0.
Proof.
  intros W Hu Hs E. pose proof (ws_ready c W u thu Hu Hs) as Hin.
  destruct (ws_prio c W u thu Hu) as [Hp _]; [by rewrite Hs|].
  pose proof (proj2 (ws_bit c W _ Hp)) as B. rewrite E, Z.bits_0 in B.
  destruct (tlist c (LReady (t_current_priority thu))); [set_solver|]. by specialize (B ltac:(done)).
Qed.

(** Where a thread is, when it is ready or waits. *)
Lemma ready_not_waiting (c : sched) (l : lid) (t : Z) (th : rt_thread) :
  wf_sched c -> s_threads c !! t = Some th -> t_stat th = RT_THREAD_READY -> wait_list l ->
  t ∉ tlist c l.
Proof.
  intros W Ht Hs Hl Hin. destruct (ws_loc c W l t Hin) as (x & Hx & Hlo). simplify_eq.
  destruct l; try done; cbn in Hlo; rewrite Hs in Hlo; done.
Qed.

Lemma suspended_list (s : kst) (l : lid) (t : Z) (th : rt_thread) :
  wf_kst s -> s_threads (sc s) !! t = Some th -> t_stat th = RT_THREAD_READY -> wait_list l ->
  tlist (sc (suspended t th s)) l = tlist (sc s) l.
Proof.
  intros W Ht Hs Hl.
  assert (T : tlist (sc (suspended t th s)) l = remove_tid t (tlist (sc s) l)).
  { cbn. rewrite stopped_sc. unfold unready, ready_del.
    rewrite <- tlist_removed. unfold tlist. cbn. by case_bool_decide. }
  rewrite T. apply remove_tid_notin. by eapply ready_not_waiting; [apply W|..].
Qed.

Lemma moved_unlinked (t : Z) (th' : rt_thread) (c c' : sched) :
  thread_moved t th' None c c' -> linked c' t = false.
Proof. intros M. apply linked_false. intros l Hl. by apply (tm_self _ _ _ _ _ M) in Hl. Qed.

Lemma moved_lookup (t : Z) (th' : rt_thread) (w : option lid) (c c' : sched) :
  thread_moved t th' w c c' -> s_threads c' !! t = Some th'.
Proof. intros M. rewrite (tm_threads _ _ _ _ _ M). apply lookup_insert_eq. Qed.

(** A suspended thread that is in no list enters a wait list. *)
Definition list_added (l : lid) (x : list Z) (s : kst) : kst :=
  upd_sc (fun c => with_tlists (<[l := x]> (s_tlists c)) c) s.

Lemma wf_list_added (s : kst) (l : lid) (x y : list Z) (t : Z) (th : rt_thread) :
  wf_kst s -> wait_list l -> tlist (sc s) l = x ++ y ->
  s_threads (sc s) !! t = Some th -> t_stat th = RT_THREAD_SUSPEND -> linked (sc s) t = false ->
  wf_kst (list_added l (x ++ t :: y) s).
Proof.
  intros W Hl E Ht Hs Hu. apply (wf_kst_sched s); try done; [|by apply same_waiting_refl].
  apply (wf_list_add _ (wk_sched _ W) l x y t th); try done; by destruct l.
Qed.

(** ** Starting the timer of a waiting thread *)

Definition timer_set (t time : Z) (s : kst) : kst :=
  upd_tm (fun c => with_timers (alter (fun x =>
    RtTimer (tm_func x) (tm_parameter x) (u32 time) (tm_timeout_tick x)) (ThreadTimer t)
    (ts_timers c)) c) s.

Lemma remaining_alter (c : timers) (o p : oid) (f : rt_timer -> rt_timer) :
  (forall x, tm_timeout_tick (f x) = tm_timeout_tick x) ->
  remaining (with_timers (alter f o (ts_timers c)) c) p = remaining c p.
Proof.
  intros Hf. unfold remaining. cbn. destruct (decide (o = p)) as [->|].
  - rewrite lookup_alter_eq. destruct (ts_timers c !! p); cbn; [by rewrite Hf|done].
  - by rewrite lookup_alter_ne by done.
Qed.

Lemma wf_timer_set (s : kst) (t time : Z) : wf_kst s -> wf_kst (timer_set t time s).
Proof.
  intros W.
  assert (R : forall p, remaining (tm (timer_set t time s)) p = remaining (tm s) p)
    by (intros p; by apply (remaining_alter (tm s))).
  assert (T : forall p x, ts_timers (tm s) !! p = Some x ->
    exists x', ts_timers (tm (timer_set t time s)) !! p = Some x' /\ tm_func x' = tm_func x /\
      tm_parameter x' = tm_parameter x).
  { intros p x Hx. cbn. destruct (decide (ThreadTimer t = p)) as [<-|].
    - rewrite lookup_alter_eq, Hx. cbn. eauto.
    - rewrite lookup_alter_ne by done. eauto. }
  pose proof (wk_row _ W) as Wr.
  constructor; try apply W.
  - constructor; try apply Wr.
    + intros o Ho. destruct (wr_timer _ Wr o Ho) as [x Hx]. destruct (T o x Hx) as (x' & Hx' & _).
      eauto.
    + intros o Ho. rewrite R. by apply (wr_window _ Wr).
    + apply (sorted_ext (remaining (tm s))); [intros p _; by rewrite R|apply Wr].
  - intros u th Hu Hc. destruct (wk_timer _ W u th Hu Hc) as (x & y & H1 & H2 & H3 & H4).
    destruct (T _ x H1) as (x' & Hx' & E1 & E2). exists x', y. rewrite E1, E2. done.
Qed.

Lemma wf_timer_started (s : kst) (t : Z) (x : rt_timer) (th : rt_thread) :
  wf_kst s -> s_threads (sc s) !! t = Some th -> t_stat th = RT_THREAD_SUSPEND ->
  ts_timers (tm s) !! ThreadTimer t = Some x -> 0 <= tm_init_tick x < 2 ^ 31 - 1 ->
  wf_kst (timer_started (ThreadTimer t) x s).
Proof.
  intros W Ht Hs Hx Hi.
  destruct (wk_timer _ W t th Ht ltac:(by rewrite Hs)) as (x0 & y & H1 & H2 & H3 & H4).
  rewrite Hx in H1. injection H1 as <-.
  assert (Row : forall p, p ∈ trow (tm (timer_started (ThreadTimer t) x s)) ->
    p = ThreadTimer t \/ (p <> ThreadTimer t /\ p ∈ trow (tm s))).
  { intros p. unfold timer_started, trow at 1. cbn. rewrite elem_of_insert_by, list_elem_of_filter.
    tauto. }
  constructor; try apply W.
  - by apply wf_row_started; [apply W|].
  - intros o Ho. destruct (Row o Ho) as [->|[Hne Ho']]; cbn.
    + rewrite lookup_alter_eq, H4. cbn. f_equal. apply active_set.
    + rewrite lookup_alter_ne by done. by apply (wk_flag _ W).
  - intros u thu Hu Hc. cbn in Hu |- *. destruct (decide (u = t)) as [->|Hne].
    + rewrite lookup_insert_eq, lookup_alter_eq, H4. cbn. eauto 8.
    + rewrite lookup_insert_ne, lookup_alter_ne by congruence. by apply (wk_timer _ W u thu).
  - intros u Hu. destruct (Row _ Hu) as [[= ->]|[_ Hu']]; [by exists th|].
    by apply (wk_sleep _ W).
  - apply (oneshot_flag (ob s)); [|by apply wk_oneshot]. intros z. apply set_periodic.
Qed.
