(* ===== verification/Sample.v ===== *)
(** * A running kernel

    A decision procedure for the invariant, and a kernel that is started by the
    operations of the development, on which the theorems are tried. *)

From Stdlib Require Import Lia Sorted.
From S2P Require Import Prelude KService Heap KState Scheduler Object Timer Thread.
From S2P Require Import Invariant.

(** ** Deciding the invariant *)

#[export] Instance loc_ok_dec (l : lid) (th : rt_thread) : Decision (loc_ok l th).
Proof. destruct l; cbn; apply _. Defined.

#[export] Instance stack_ok_dec (th : rt_thread) : Decision (stack_ok th).
Proof. unfold stack_ok. apply _. Defined.

Definition in_list (c : sched) (l : lid) (t : Z) : bool := bool_decide (t ∈ tlist c l).

Definition priorities : list Z := seqZ 0 32.

(** What is asked of one thread, and of one list. *)
Definition thread_b (s : kst) (t : Z) (th : rt_thread) : bool :=
  let c := sc s in
  (if t_stat th =? RT_THREAD_READY then in_list c (LReady (t_current_priority th)) t else true) &&
  (if t_stat th =? RT_THREAD_INIT then true
   else (0 <=? t_current_priority th) && (t_current_priority th <? 32) &&
        (t_number_mask th =? 2 ^ t_current_priority th)) &&
  (0 <=? t_init_priority th) && (t_init_priority th <? 32) && bool_decide (stack_ok th) &&
  (0 <? t) &&
  (if t_stat th =? RT_THREAD_CLOSE then true
   else match ts_timers (tm s) !! ThreadTimer t, ob_objs (ob s) !! ThreadTimer t with
        | Some x, Some _ =>
            match tm_func x with F_rt_thread_timeout => tm_parameter x =? t | _ => false end
        | _, _ => false
        end).

Definition list_b (c : sched) (l : lid) (x : list Z) : bool :=
  bool_decide (NoDup x) &&
  forallb (fun t => match s_threads c !! t with
                    | Some th => bool_decide (loc_ok l th) | None => false end) x &&
  forallb (fun ly : lid * list Z => bool_decide (l = ly.1) || forallb (fun t => negb (bool_decide (t ∈ ly.2))) x)
    (map_to_list (s_tlists c)).

Definition bit_b (c : sched) (p : Z) : bool :=
  Bool.eqb (Z.testbit (s_group c) p) (negb (bool_decide (tlist c (LReady p) = []))).

Fixpoint sorted_b (r : oid -> Z) (l : list oid) : bool :=
  match l with
  | [] => true
  | x :: l => forallb (fun y => r x <=? r y) l && sorted_b r l
  end.

Definition timer_b (s : kst) (o : oid) : bool :=
  let c := tm s in
  bool_decide (is_Some (ts_timers c !! o)) &&
  (-1 <=? remaining c o) && (remaining c o <? 2 ^ 31 - 1) &&
  (match ob_objs (ob s) !! o with Some x => active x | None => false end) &&
  (match o with
   | ThreadTimer t =>
       match s_threads (sc s) !! t with Some th => t_stat th =? RT_THREAD_SUSPEND | None => false end
   | _ => true
   end).

Definition wf_kst_b (s : kst) : bool :=
  forallb (fun x => thread_b s x.1 x.2) (map_to_list (s_threads (sc s))) &&
  forallb (fun x => list_b (sc s) x.1 x.2) (map_to_list (s_tlists (sc s))) &&
  forallb (bit_b (sc s)) priorities &&
  (0 <=? s_group (sc s)) && (s_group (sc s) <? 2 ^ 32) &&
  bool_decide (ts_rows (tm s) = [trow (tm s)]) && bool_decide (NoDup (trow (tm s))) &&
  forallb (timer_b s) (trow (tm s)) && sorted_b (remaining (tm s)) (trow (tm s)) &&
  forallb (fun x : oid * rt_object => match x.1 with
     | ThreadTimer _ => Z.land (o_flag x.2) RT_TIMER_FLAG_PERIODIC =? 0 | _ => true end)
    (map_to_list (ob_objs (ob s))).

Lemma forallb_map {A B} `{Countable A} (f : A * B -> bool) (m : gmap A B) (k : A) (x : B) :
  forallb f (map_to_list m) = true -> m !! k = Some x -> f (k, x) = true.
Proof.
  intros F E. rewrite forallb_forall in F. apply F.
  apply list_elem_of_In, elem_of_map_to_list, E.
Qed.

Lemma forallb_in {A} (f : A -> bool) (l : list A) (x : A) :
  forallb f l = true -> x ∈ l -> f x = true.
Proof. intros F Hx. rewrite forallb_forall in F. by apply F, list_elem_of_In. Qed.

Lemma tlist_lookup (c : sched) (l : lid) (t : Z) :
  t ∈ tlist c l -> exists x, s_tlists c !! l = Some x /\ t ∈ x.
Proof. unfold tlist. destruct (s_tlists c !! l); cbn; [eauto|set_solver]. Qed.

Lemma sorted_b_sound (r : oid -> Z) (l : list oid) :
  sorted_b r l = true -> StronglySorted (fun a b => r a <= r b) l.
Proof.
  induction l as [|x l IH]; cbn; intros H; b2p; constructor; [by apply IH|].
  apply Forall_forall. intros y Hy. apply Z.leb_le. by apply (forallb_in _ l y H).
Qed.

Ltac deciding := repeat match goal with H : bool_decide _ = true |- _ => apply bool_decide_eq_true in H end.

Section Sound.
Variable s : kst.
Hypothesis H : wf_kst_b s = true.

Lemma check_split :
  forallb (fun x => thread_b s x.1 x.2) (map_to_list (s_threads (sc s))) = true /\
  forallb (fun x => list_b (sc s) x.1 x.2) (map_to_list (s_tlists (sc s))) = true /\
  forallb (bit_b (sc s)) priorities = true /\ 0 <= s_group (sc s) < 2 ^ 32 /\
  ts_rows (tm s) = [trow (tm s)] /\ NoDup (trow (tm s)) /\
  forallb (timer_b s) (trow (tm s)) = true /\ sorted_b (remaining (tm s)) (trow (tm s)) = true /\
  forallb (fun x : oid * rt_object => match x.1 with
     | ThreadTimer _ => Z.land (o_flag x.2) RT_TIMER_FLAG_PERIODIC =? 0 | _ => true end)
    (map_to_list (ob_objs (ob s))) = true.
Proof. unfold wf_kst_b in H. b2p. deciding. split_and!; assumption. Qed.

Lemma check_thread (t : Z) (th : rt_thread) :
  s_threads (sc s) !! t = Some th -> thread_b s t th = true.
Proof. destruct check_split as (T & _). intros E. by apply (forallb_map _ _ t th) in T. Qed.

Lemma check_list (l : lid) (x : list Z) :
  s_tlists (sc s) !! l = Some x -> list_b (sc s) l x = true.
Proof. destruct check_split as (_ & T & _). intros E. by apply (forallb_map _ _ l x) in T. Qed.

Lemma check_row (o : oid) : o ∈ trow (tm s) -> timer_b s o = true.
Proof. destruct check_split as (_ & _ & _ & _ & _ & _ & T & _). by apply forallb_in. Qed.

Lemma wf_sched_check : wf_sched (sc s).
Proof.
  constructor.
  - intros l. unfold tlist. destruct (s_tlists (sc s) !! l) as [x|] eqn:E; cbn; [|constructor].
    pose proof (check_list l x E) as L. unfold list_b in L. b2p. by deciding.
  - intros l1 l2 t (x & E1 & H1)%tlist_lookup (y & E2 & H2)%tlist_lookup.
    pose proof (check_list l1 x E1) as L. unfold list_b in L. apply andb_true_iff in L as [_ F].
    apply (forallb_map _ _ l2 y) in F; [|done]. cbn in F.
    apply orb_true_iff in F as [F|F]; [by deciding|].
    apply (forallb_in _ _ t) in F; [|done]. by apply negb_true_iff, bool_decide_eq_false in F.
  - intros l t (x & E1 & Hx)%tlist_lookup. pose proof (check_list l x E1) as L. unfold list_b in L.
    apply andb_true_iff in L as [[_ F]%andb_true_iff _].
    apply (forallb_in _ _ t) in F; [|done].
    cbn in F. destruct (s_threads (sc s) !! t) as [th|]; [|done]. exists th. split; [done|]. by apply bool_decide_eq_true in F.
  - intros t th E R. pose proof (check_thread t th E) as T. unfold thread_b, in_list in T.
    rewrite R in T. cbn in T. b2p. by deciding.
  - intros t th E R. pose proof (check_thread t th E) as T. unfold thread_b in T.
    rewrite (proj2 (Z.eqb_neq _ _) R) in T. b2p. lia.
  - intros t th E. pose proof (check_thread t th E) as T. unfold thread_b in T. b2p. lia.
  - intros t th E. pose proof (check_thread t th E) as T. unfold thread_b in T. b2p. by deciding.
  - apply check_split.
  - intros p Hp. destruct check_split as (_ & _ & B & _).
    apply (forallb_in _ _ p) in B; [|by apply elem_of_seqZ].
    apply eqb_prop in B. rewrite B, negb_true_iff, bool_decide_eq_false. done.
  - destruct (s_threads (sc s) !! RT_NULL) eqn:E; [|done].
    pose proof (check_thread _ _ E) as T. unfold thread_b, RT_NULL in T. b2p. lia.
Qed.

Lemma wf_check : wf_kst s.
Proof.
  constructor.
  - apply wf_sched_check.
  - constructor; try apply check_split.
    + intros o Ho. apply check_row in Ho. unfold timer_b in Ho. b2p. by deciding.
    + intros o Ho. apply check_row in Ho. unfold timer_b in Ho. b2p. lia.
    + apply sorted_b_sound, check_split.
  - intros o Ho. apply check_row in Ho. unfold timer_b in Ho. b2p.
    destruct (ob_objs (ob s) !! o); [|done]. cbn. congruence.
  - intros t th E Hc. pose proof (check_thread t th E) as T. unfold thread_b in T.
    rewrite (proj2 (Z.eqb_neq _ _) Hc) in T. apply andb_true_iff in T as [_ T].
    destruct (ts_timers (tm s) !! ThreadTimer t) as [x|]; [|done].
    destruct (ob_objs (ob s) !! ThreadTimer t) as [y|]; [|done].
    destruct (tm_func x) eqn:Ef; [|done]. b2p. eauto 6.
  - intros t Ht. apply check_row in Ht. unfold timer_b in Ht. apply andb_true_iff in Ht as [_ Ht].
    destruct (s_threads (sc s) !! t) as [th|]; [|done]. b2p. eauto.
  - intros t th E. pose proof (check_thread t th E) as T. unfold thread_b in T. b2p. lia.
  - intros t y E. destruct check_split as (_ & _ & _ & _ & _ & _ & _ & _ & T).
    apply (forallb_map _ _ (ThreadTimer t) y) in T; [|done]. cbn in T. b2p. done.
Qed.

End Sound.

(** A closed equation is evaluated. *)
Ltac evaluate := vm_compute; reflexivity.

(** ** A kernel with four threads *)

(** The state of a run, if it returns. *)
Definition after {A} (m : K A) (s : kst) : kst := match m s with Ok (_, s') => s' | _ => s end.

Definition reset_heap : heap := Heap 0 0 0 0 0 0 0 ∅ [].
Definition reset : kst :=
  Kst (Sched ∅ ∅ 0 0 0 0 0 None) (Timers ∅ [] 0 0) (Objects ∅ ∅) (Ipcs ∅ ∅ ∅ ∅ ∅ ∅ ∅ ∅ ∅ ∅)
    reset_heap 0.

Definition new_thread (t priority : Z) : K Z :=
  rt_thread_init 0x8001000 t [116; 0] 0x8002000 0 (t + 128) (replicate 128 0) 128 priority 5.

Definition main_t : Z := 0x20001000.
Definition peer_t : Z := 0x20002000.
Definition work_t : Z := 0x20003000.
Definition idle_t : Z := 0x20004000.

(** Two threads of priority 10, one of priority 20 and the idle thread. *)
Definition boot : K unit :=
  _ ← rt_system_timer_init;
  _ ← rt_system_scheduler_init;
  _ ← new_thread main_t 10; _ ← new_thread peer_t 10;
  _ ← new_thread work_t 20; _ ← new_thread idle_t 31;
  _ ← rt_thread_startup main_t; _ ← rt_thread_startup peer_t;
  _ ← rt_thread_startup work_t; _ ← rt_thread_startup idle_t;
  rt_system_scheduler_start.

Definition running : kst := after boot reset.

Example running_lists :
  (tlist (sc running) (LReady 10), tlist (sc running) (LReady 20), tlist (sc running) (LReady 31),
   s_current (sc running), s_group (sc running))
  = ([main_t; peer_t], [work_t], [idle_t], main_t, 2 ^ 10 + 2 ^ 20 + 2 ^ 31).
Proof. vm_compute. reflexivity. Qed.

Lemma wf_running : wf_kst running.
Proof. apply wf_check. vm_compute. reflexivity. Qed.
