(* ===== verification/RtList.v ===== *)
(** * Intrusive lists (Kernel/include/rtservice.h)

    The circular doubly linked lists of the kernel as the pointers they are: a
    memory of nodes, each with [next] and [prev].  The operations on lists of
    threads that [KState] works with are refined by the pointer code. *)

From Stdlib Require Import Lia.
From S2P Require Import Prelude KService Heap KState Scheduler Object Timer Thread Sample.

(** ** The code *)

(** A node's [next] and [prev], by its address. *)
Abbreviation nodes := (gmap Z (Z * Z)).

Definition get_node (a : Z) : ST nodes (Z * Z) := m ← gets id; lift (deref (m !! a)).
Definition get_next (a : Z) : ST nodes Z := x ← get_node a; mret x.1.
Definition get_prev (a : Z) : ST nodes Z := x ← get_node a; mret x.2.
Definition set_next (a v : Z) : ST nodes unit := x ← get_node a; modify (insert a (v, x.2)).
Definition set_prev (a v : Z) : ST nodes unit := x ← get_node a; modify (insert a (x.1, v)).

Definition rt_list_init (l : Z) : ST nodes unit := _ ← set_prev l l; set_next l l.

Definition rt_list_insert_after (l n : Z) : ST nodes unit :=
  x ← get_next l; _ ← set_prev x n;
  x ← get_next l; _ ← set_next n x;
  _ ← set_next l n;
  set_prev n l.

Definition rt_list_insert_before (l n : Z) : ST nodes unit :=
  x ← get_prev l; _ ← set_next x n;
  x ← get_prev l; _ ← set_prev n x;
  _ ← set_prev l n;
  set_next n l.

Definition rt_list_remove (n : Z) : ST nodes unit :=
  x ← get_next n; p ← get_prev n; _ ← set_prev x p;
  p ← get_prev n; x ← get_next n; _ ← set_next p x;
  _ ← set_prev n n;
  set_next n n.

Definition rt_list_isempty (l : Z) : ST nodes bool := x ← get_next l; mret (x =? l).

(** ** The effect of the code on the two pointers *)

Definition next_of (m : nodes) (a : Z) : option Z := fst <$> m !! a.
Definition prev_of (m : nodes) (a : Z) : option Z := snd <$> m !! a.

Lemma wp_get_next (a b : Z) (Q : Z -> nodes -> Prop) (m : nodes) :
  next_of m a = Some b -> Q b m -> wp (get_next a) Q m.
Proof.
  unfold next_of. intros E H. destruct (m !! a) as [x|] eqn:Ex; [|done]. injection E as <-.
  unfold get_next, get_node. by eapply wp_bind, wp_bind, wp_gets, wp_lift.
Qed.

Lemma wp_get_prev (a b : Z) (Q : Z -> nodes -> Prop) (m : nodes) :
  prev_of m a = Some b -> Q b m -> wp (get_prev a) Q m.
Proof.
  unfold prev_of. intros E H. destruct (m !! a) as [x|] eqn:Ex; [|done]. injection E as <-.
  unfold get_prev, get_node. by eapply wp_bind, wp_bind, wp_gets, wp_lift.
Qed.

(** [m'] is [m] but for [next] of the node [a], which is [v]; and so for [prev]. *)
Definition next_set (a v : Z) (m m' : nodes) : Prop :=
  (forall b, next_of m' b = if decide (b = a) then Some v else next_of m b) /\
  (forall b, prev_of m' b = prev_of m b).
Definition prev_set (a v : Z) (m m' : nodes) : Prop :=
  (forall b, prev_of m' b = if decide (b = a) then Some v else prev_of m b) /\
  (forall b, next_of m' b = next_of m b).

Lemma wp_node_next (a v : Z) (Q : unit -> nodes -> Prop) (m : nodes) :
  is_Some (next_of m a) -> (forall m', next_set a v m m' -> Q tt m') -> wp (set_next a v) Q m.
Proof.
  unfold next_of. intros [b E] H. destruct (m !! a) as [x|] eqn:Ex; [|done].
  unfold set_next, get_node. eapply wp_bind, wp_bind, wp_gets, wp_lift; [exact Ex|].
  apply wp_modify, H. split; intros c; unfold next_of, prev_of; rewrite lookup_insert;
    repeat case_decide; subst; try done; by rewrite Ex.
Qed.

Lemma wp_node_prev (a v : Z) (Q : unit -> nodes -> Prop) (m : nodes) :
  is_Some (prev_of m a) -> (forall m', prev_set a v m m' -> Q tt m') -> wp (set_prev a v) Q m.
Proof.
  unfold prev_of. intros [b E] H. destruct (m !! a) as [x|] eqn:Ex; [|done].
  unfold set_prev, get_node. eapply wp_bind, wp_bind, wp_gets, wp_lift; [exact Ex|].
  apply wp_modify, H. split; intros c; unfold next_of, prev_of; rewrite lookup_insert;
    repeat case_decide; subst; try done; by rewrite Ex.
Qed.

Lemma next_prev (m : nodes) (a : Z) : is_Some (next_of m a) <-> is_Some (prev_of m a).
Proof. unfold next_of, prev_of. by rewrite !fmap_is_Some. Qed.

(** [n] has been put between [p] and [c]; and taken out from between them. *)
Record spliced (p n c : Z) (m m' : nodes) : Prop := {
  sp_next : forall a, next_of m' a =
    if decide (a = n) then Some c else if decide (a = p) then Some n else next_of m a;
  sp_prev : forall a, prev_of m' a =
    if decide (a = n) then Some p else if decide (a = c) then Some n else prev_of m a;
}.

Record cut_out (p n c : Z) (m m' : nodes) : Prop := {
  co_next : forall a, next_of m' a =
    if decide (a = n) then Some n else if decide (a = p) then Some c else next_of m a;
  co_prev : forall a, prev_of m' a =
    if decide (a = n) then Some n else if decide (a = c) then Some p else prev_of m a;
}.

(** Runs the accesses of a list operation; [next_set] and [prev_set] rewrite. *)
Ltac node_eqs :=
  repeat match goal with
  | H : next_set _ _ _ _ |- _ => destruct H as [? ?]
  | H : prev_set _ _ _ _ |- _ => destruct H as [? ?]
  end.
Ltac node_solve :=
  repeat match goal with
  | H : forall b, next_of ?m b = _ |- context [next_of ?m _] => rewrite H
  | H : forall b, prev_of ?m b = _ |- context [prev_of ?m _] => rewrite H
  | |- context [decide _] => case_decide; subst
  end.

Lemma wp_insert_before (l n p : Z) (Q : unit -> nodes -> Prop) (m : nodes) :
  prev_of m l = Some p -> is_Some (next_of m p) -> is_Some (next_of m n) -> n <> l -> n <> p ->
  (forall m', spliced p n l m m' -> Q tt m') -> wp (rt_list_insert_before l n) Q m.
Proof.
  intros Hl Hp Hn Hnl Hnp HQ. pose proof (proj1 (next_prev m n) Hn) as Hn'. unfold rt_list_insert_before.
  apply wp_bind. eapply wp_get_prev; [exact Hl|]. apply wp_bind, wp_node_next; [done|]. intros m1 E1.
  node_eqs. apply wp_bind. eapply (wp_get_prev l p); [by node_solve|].
  apply wp_bind, wp_node_prev; [by node_solve|]. intros m2 E2. node_eqs.
  apply wp_bind, wp_node_prev; [by node_solve; eauto|]. intros m3 E3. node_eqs.
  apply wp_node_next; [node_solve; eauto|]. intros m4 E4. node_eqs.
  apply HQ. constructor; intros a; node_solve; done.
Qed.

Lemma wp_insert_after (l n c : Z) (Q : unit -> nodes -> Prop) (m : nodes) :
  next_of m l = Some c -> is_Some (next_of m c) -> is_Some (next_of m n) -> n <> l -> n <> c ->
  (forall m', spliced l n c m m' -> Q tt m') -> wp (rt_list_insert_after l n) Q m.
Proof.
  intros Hl Hc%next_prev Hn Hnl Hnc HQ. pose proof (proj1 (next_prev m n) Hn) as Hn'. unfold rt_list_insert_after.
  apply wp_bind. eapply wp_get_next; [exact Hl|]. apply wp_bind, wp_node_prev; [done|]. intros m1 E1.
  node_eqs. apply wp_bind. eapply (wp_get_next l c); [by node_solve|].
  apply wp_bind, wp_node_next; [by node_solve|]. intros m2 E2. node_eqs.
  apply wp_bind, wp_node_next; [by node_solve; eauto|]. intros m3 E3. node_eqs.
  apply wp_node_prev; [node_solve; eauto|]. intros m4 E4. node_eqs.
  apply HQ. constructor; intros a; node_solve; done.
Qed.

Lemma wp_remove (n p c : Z) (Q : unit -> nodes -> Prop) (m : nodes) :
  prev_of m n = Some p -> next_of m n = Some c -> is_Some (next_of m p) -> is_Some (next_of m c) ->
  (p = n <-> c = n) ->
  (forall m', cut_out p n c m m' -> Q tt m') -> wp (rt_list_remove n) Q m.
Proof.
  intros Hp Hc Hp' Hc'%next_prev Hpc HQ. unfold rt_list_remove.
  apply wp_bind. eapply wp_get_next; [exact Hc|]. apply wp_bind. eapply wp_get_prev; [exact Hp|].
  apply wp_bind, wp_node_prev; [done|]. intros m1 E1. node_eqs.
  apply wp_bind. eapply (wp_get_prev n p); [by node_solve|].
  apply wp_bind. eapply (wp_get_next n c); [by node_solve|].
  apply wp_bind, wp_node_next; [by node_solve|]. intros m2 E2. node_eqs.
  apply wp_bind, wp_node_prev; [node_solve; eauto|]. intros m3 E3. node_eqs.
  apply wp_node_next; [node_solve; eauto|]. intros m4 E4. node_eqs.
  apply HQ. constructor; intros a; node_solve; done.
Qed.

(** ** Chains of nodes *)

(** Membership in a list built of the parts one has. *)
Ltac right_or_in :=
  repeat match goal with
  | H : _ ∈ _ :: _ |- _ => apply elem_of_cons in H
  | H : _ ∈ _ ++ _ |- _ => apply elem_of_app in H
  | H : _ ∈ [] |- _ => by apply not_elem_of_nil in H
  | H : _ \/ _ |- _ => destruct H
  end; repeat first [rewrite elem_of_cons|rewrite elem_of_app]; auto 6.

Definition link (m : nodes) (a b : Z) : Prop := next_of m a = Some b /\ prev_of m b = Some a.

(** From [a] over the nodes [x] to [b], in both directions. *)
Fixpoint seg (m : nodes) (a : Z) (x : list Z) (b : Z) : Prop :=
  match x with
  | [] => link m a b
  | c :: x => link m a c /\ seg m c x b
  end.

Lemma seg_split (m : nodes) (a c b : Z) (x y : list Z) :
  seg m a (x ++ c :: y) b <-> seg m a x c /\ seg m c y b.
Proof.
  revert a. induction x as [|d x IH]; intros a; cbn; [tauto|]. rewrite IH. tauto.
Qed.

Lemma seg_ext (m m' : nodes) (a b : Z) (x : list Z) :
  (forall d, d ∈ a :: x -> next_of m' d = next_of m d) ->
  (forall d, d ∈ x ++ [b] -> prev_of m' d = prev_of m d) -> seg m a x b -> seg m' a x b.
Proof.
  revert a. induction x as [|c x IH]; intros a Hn Hp; cbn.
  - intros [H1 H2]. split; [by rewrite Hn by set_solver|by rewrite Hp by set_solver].
  - intros [[H1 H2] H3]. split; [split; [by rewrite Hn by set_solver|by rewrite Hp by set_solver]|].
    apply IH; [|by intros; apply Hp; set_solver|done]. intros d Hd. apply Hn. by right.
Qed.

(** The last link of a chain, and the first. *)
Lemma seg_last (m : nodes) (a b : Z) (x : list Z) :
  seg m a x b -> exists p, link m p b /\
    ((x = [] /\ p = a) \/ (exists x', x = x' ++ [p] /\ seg m a x' p)).
Proof.
  destruct x as [|p x' _] using rev_ind; [by exists a; eauto|].
  intros [H1 H2]%seg_split. exists p. eauto.
Qed.

Lemma seg_first (m : nodes) (a b : Z) (x : list Z) :
  seg m a x b -> exists c, link m a c /\
    ((x = [] /\ c = b) \/ (exists x', x = c :: x' /\ seg m c x' b)).
Proof. destruct x as [|c x]; cbn; [by exists b; eauto|]. intros [H1 H2]. exists c. eauto. Qed.

Lemma last_in (a p : Z) (x : list Z) (P : list Z -> Prop) :
  (x = [] /\ p = a) \/ (exists x', x = x' ++ [p] /\ P x') -> p ∈ a :: x.
Proof. intros [[_ ->]|(x' & -> & _)]; [by left|]. right. apply elem_of_app. right. by left. Qed.

Lemma first_in (b c : Z) (x : list Z) (P : list Z -> Prop) :
  (x = [] /\ c = b) \/ (exists x', x = c :: x' /\ P x') -> c ∈ x ++ [b].
Proof. intros [[-> ->]|(x' & -> & _)]; by left. Qed.

Lemma link_unique (m : nodes) (p q b : Z) : link m p b -> prev_of m b = Some q -> p = q.
Proof. intros [_ H1] H2. congruence. Qed.

Lemma seg_known (m : nodes) (a b d : Z) (x : list Z) :
  seg m a x b -> d ∈ a :: x -> is_Some (next_of m d).
Proof.
  revert a. induction x as [|c x IH]; intros a; cbn.
  - intros [H _] ->%list_elem_of_singleton. eauto.
  - intros [[H _] Hs] [->|Hd]%elem_of_cons; [eauto|]. by apply (IH c).
Qed.

(** A node is put in front of the end of a chain. *)
Lemma seg_insert_last (m m' : nodes) (a b n p : Z) (x : list Z) :
  seg m a x b -> prev_of m b = Some p -> spliced p n b m m' ->
  NoDup (a :: x) -> b ∉ x -> n ∉ a :: x -> n <> b -> seg m' a (x ++ [n]) b.
Proof.
  intros H Hp [Sn Sp] N Hb Hn Hnb. destruct (seg_last _ _ _ _ H) as (q & Lq & Hq).
  assert (q = p) as -> by by eapply link_unique.
  assert (L : link m' p n /\ link m' n b).
  { unfold link. rewrite !Sn, !Sp. destruct Hq as [[-> ->]|(x' & -> & _)];
      repeat case_decide; subst; try done; set_solver. }
  destruct Hq as [[-> ->]|(x' & -> & Hs)]; [exact L|].
  rewrite <- app_assoc. cbn. apply seg_split. split; [|exact L].
  assert (Hpx : p ∉ a :: x').
  { intros Hin. rewrite <- (app_nil_r (x' ++ [p])), <- app_assoc in N.
    change (a :: x' ++ [p] ++ []) with ((a :: x') ++ p :: []) in N.
    apply NoDup_app in N as (_ & N & _). by apply (N p); [|left]. }
  apply (seg_ext m); [intros d Hd; rewrite Sn|intros d Hd; rewrite Sp|done];
    repeat case_decide; subst; try done; set_solver.
Qed.

(** A node is put behind the start of a chain. *)
Lemma seg_insert_first (m m' : nodes) (a b n c : Z) (x : list Z) :
  seg m a x b -> next_of m a = Some c -> spliced a n c m m' ->
  NoDup (a :: x) -> b ∉ x -> n ∉ a :: x -> n <> b -> seg m' a (n :: x) b.
Proof.
  intros H Hc [Sn Sp] N Hb Hn Hnb. destruct (seg_first _ _ _ _ H) as (q & [Lq _] & Hq).
  assert (q = c) as -> by congruence. assert (L : link m' a n /\ link m' n c).
  { unfold link. rewrite !Sn, !Sp. destruct Hq as [[-> ->]|(x' & -> & _)];
      repeat case_decide; subst; try done; set_solver. }
  destruct Hq as [[-> ->]|(x' & -> & Hs)]; [exact L|]. cbn. destruct L as [L1 L2].
  split_and!; [done..|]. inversion N as [|? ? N1 N2]; subst. inversion N2 as [|? ? N3 N4]; subst.
  apply (seg_ext m); [intros d Hd; rewrite Sn|intros d Hd; rewrite Sp|done];
    repeat case_decide; subst; try done; set_solver.
Qed.

(** A node is put in front of a node in the middle. *)
Lemma seg_insert_mid (m m' : nodes) (a b n u p : Z) (x y : list Z) :
  seg m a x u -> seg m u y b -> prev_of m u = Some p -> spliced p n u m m' ->
  NoDup (a :: x ++ u :: y) -> b ∉ x ++ u :: y -> n ∉ a :: x ++ u :: y -> n <> b ->
  seg m' a (x ++ n :: u :: y) b.
Proof.
  intros H1 H2 Hp Sp N Hb Hn Hnb.
  pose proof (seg_last _ _ _ _ H1) as (q & Lq & Hq). assert (q = p) as -> by by eapply link_unique.
  apply last_in in Hq. change (a :: x ++ u :: y) with ((a :: x) ++ u :: y) in N, Hn.
  apply NoDup_app in N as (N1 & N2 & [N3 N4]%NoDup_cons).
  assert (Hu : u ∉ a :: x) by (intros Hu; apply (N2 u Hu); by left).
  assert (Nx : n ∉ a :: x) by (intros Hx; apply Hn, elem_of_app; by left).
  assert (Nu : n <> u) by (intros ->; apply Hn, elem_of_app; right; by left).
  assert (S1 : seg m' a (x ++ [n]) u).
  { apply (seg_insert_last m m' a u n p x); try done. intros Hx. apply Hu. by right. }
  apply seg_split in S1 as [S1 S2]. apply seg_split. split; [done|]. split; [done|].
  destruct Sp as [Sn Sp].
  assert (D : forall d, d ∈ u :: y -> d <> n /\ d <> p).
  { intros d Hd. split; intros ->; [apply Hn, elem_of_app; by right|by apply (N2 p)]. }
  apply (seg_ext m); [intros d Hd|intros d Hd|done].
  - destruct (D d Hd). by rewrite Sn, !decide_False.
  - rewrite Sp. apply elem_of_app in Hd as [Hd| ->%list_elem_of_singleton].
    + destruct (D d) as [? _]; [by right|]. rewrite !decide_False; [done| |done]. by intros ->.
    + rewrite !decide_False; [done| |by intros ->].
      intros ->. apply Hb, elem_of_app. right. by left.
Qed.

(** Neighbours of a node of a ring are other nodes. *)
Lemma ring_apart (a n p q : Z) (x y : list Z) :
  NoDup (a :: x ++ n :: y) -> p ∈ a :: x -> q ∈ y ++ [a] -> p <> n /\ q <> n.
Proof.
  change (a :: x ++ n :: y) with ((a :: x) ++ n :: y). intros (N1 & N2 & [N3 N4]%NoDup_cons)%NoDup_app Hp Hq.
  split; intros ->; [by apply (N2 n Hp); left|].
  apply elem_of_app in Hq as [Hq| ->%list_elem_of_singleton]; [done|]. apply (N2 a); by left.
Qed.

(** A node leaves a chain. *)
Lemma seg_remove (m m' : nodes) (a b n p c : Z) (x y : list Z) :
  seg m a x n -> seg m n y b -> prev_of m n = Some p -> next_of m n = Some c ->
  cut_out p n c m m' -> NoDup (a :: x ++ n :: y) -> b ∉ x ++ n :: y -> seg m' a (x ++ y) b.
Proof.
  intros H1 H2 Hp Hc [Sn Sp] N Hb.
  destruct (seg_last _ _ _ _ H1) as (q & Lq & Hx). assert (q = p) as -> by by eapply link_unique.
  destruct (seg_first _ _ _ _ H2) as (q & [Lc _] & Hy). assert (q = c) as -> by congruence.
  change (a :: x ++ n :: y) with ((a :: x) ++ n :: y) in N.
  apply NoDup_app in N as (N1 & N2 & [N3 N4]%NoDup_cons).
  assert (Hpx : p ∈ a :: x /\ c ∈ y ++ [b]).
  { split; [destruct Hx as [[-> ->]|(x' & -> & _)]|destruct Hy as [[-> ->]|(y' & -> & _)]]; set_solver. }
  assert (Nn : (n ∉ a :: x) /\ n <> b) by set_solver.
  assert (L : link m' p c).
  { unfold link. rewrite Sn, Sp. repeat case_decide; subst; try done; set_solver. }
  assert (S1 : (x = [] /\ p = a) \/ (exists x', x = x' ++ [p] /\ seg m' a x' p)).
  { destruct Hx as [|(x' & -> & Hs)]; [by left|right]. exists x'. split; [done|].
    assert (Hpx' : p ∉ a :: x').
    { change (a :: x' ++ [p]) with ((a :: x') ++ [p]) in N1.
      apply NoDup_app in N1 as (_ & N1 & _). intros Hin. by apply (N1 p); [|left]. }
    apply (seg_ext m); [intros d Hd; rewrite Sn|intros d Hd; rewrite Sp|done];
      repeat case_decide; subst; try done; set_solver. }
  assert (S2 : (y = [] /\ c = b) \/ (exists y', y = c :: y' /\ seg m' c y' b)).
  { destruct Hy as [|(y' & -> & Hs)]; [by left|right]. exists y'. split; [done|].
    inversion N4 as [|? ? N5 N6]; subst.
    apply (seg_ext m); [intros d Hd; rewrite Sn|intros d Hd; rewrite Sp|done];
      repeat case_decide; subst; try done; set_solver. }
  destruct S1 as [[-> ->]|(x' & -> & S1)], S2 as [[-> ->]|(y' & -> & S2)]; cbn; try done.
  - rewrite app_nil_r. by apply seg_split.
  - rewrite <- app_assoc. cbn. by apply seg_split.
Qed.

(** ** The lists of the kernel *)

(** Where the heads of the lists and the [tlist] nodes of the threads are: distinct
    places; [heads] are the lists whose objects exist. *)
Class Layout := {
  heads : gset lid;
  anchor : lid -> Z;
  node : Z -> Z;
  anchor_inj :: Inj (=) (=) anchor;
  node_inj :: Inj (=) (=) node;
  anchor_node : forall l t, anchor l <> node t;
}.

Section Refinement.
Context `{Layout}.

(** The memory [m] holds the lists of [c]; a node in no list is linked to itself. *)
Record lists_repr (m : nodes) (c : sched) : Prop := {
  lr_nodup : forall l, NoDup (tlist c l);
  lr_disj : forall l1 l2 t, t ∈ tlist c l1 -> t ∈ tlist c l2 -> l1 = l2;
  lr_head : forall l t, t ∈ tlist c l -> l ∈ heads;
  lr_seg : forall l, l ∈ heads -> seg m (anchor l) (node <$> tlist c l) (anchor l);
  lr_node : forall t, is_Some (s_threads c !! t) -> is_Some (next_of m (node t));
  lr_free : forall t, is_Some (next_of m (node t)) -> linked c t = false -> link m (node t) (node t);
}.

Lemma elem_of_nodes (t : Z) (x : list Z) : node t ∈ node <$> x <-> t ∈ x.
Proof. rewrite list_elem_of_fmap. split; [by intros (u & ->%(inj node) & Hu)|eauto]. Qed.

Lemma of_nodes (t : Z) (x : list Z) : node t ∈ node <$> x -> t ∈ x.
Proof. apply elem_of_nodes. Qed.

Lemma nodup_ring (l : lid) (x : list Z) : NoDup x -> NoDup (anchor l :: (node <$> x)).
Proof.
  intros N. constructor; [|by apply (NoDup_fmap_2 node)].
  intros (t & E & _)%list_elem_of_fmap. by apply (anchor_node l t).
Qed.

Lemma anchor_not_in (l : lid) (x : list Z) : anchor l ∉ node <$> x.
Proof. intros (t & E & _)%list_elem_of_fmap. by apply (anchor_node l t). Qed.

(** The nodes of different lists are different. *)
Lemma ring_disjoint (m : nodes) (c : sched) (l l' : lid) (a : Z) :
  lists_repr m c -> a ∈ anchor l :: (node <$> tlist c l) ->
  a ∈ anchor l' :: (node <$> tlist c l') -> l = l'.
Proof.
  intros R [->|(t & -> & Ht)%list_elem_of_fmap]%elem_of_cons.
  - intros [E|(u & E & _)%list_elem_of_fmap]%elem_of_cons; [by apply (inj anchor)|].
    by destruct (anchor_node l u); rewrite E.
  - intros [E|Hu%of_nodes]%elem_of_cons; [by destruct (anchor_node l' t); rewrite E|].
    by apply (lr_disj _ _ R l l' t).
Qed.

(** A chain that only touches the ring of [l] leaves the other lists alone. *)
Lemma other_ring (m m' : nodes) (c : sched) (l l' : lid) (t p q : Z) :
  lists_repr m c -> l' ∈ heads -> l' <> l -> t ∉ tlist c l' ->
  p ∈ anchor l :: (node <$> tlist c l) -> q ∈ anchor l :: (node <$> tlist c l) ->
  (forall a, a <> node t -> a <> p -> next_of m' a = next_of m a) ->
  (forall a, a <> node t -> a <> q -> prev_of m' a = prev_of m a) ->
  seg m' (anchor l') (node <$> tlist c l') (anchor l').
Proof.
  intros R Hh Hne Ht Hp Hq Hn Hv.
  assert (D : forall a, a ∈ anchor l' :: (node <$> tlist c l') -> a <> node t /\ a <> p /\ a <> q).
  { intros a Ha. split_and!; [|intros ->; apply Hne; by eapply ring_disjoint..].
    intros ->. apply elem_of_cons in Ha as [E|Ha%of_nodes]; [by destruct (anchor_node l' t); rewrite E|done]. }
  eapply (seg_ext m); [| |by apply R].
  - intros a Ha. destruct (D a Ha) as (? & ? & ?). auto.
  - intros a Ha. destruct (D a) as (? & ? & ?); [|auto].
    apply elem_of_app in Ha as [Ha| ->%list_elem_of_singleton]; [by right|by left].
Qed.

(** A node that is in no list is not in the ring of a list. *)
Lemma free_not_in (c : sched) (l : lid) (t : Z) :
  linked c t = false -> node t ∉ anchor l :: (node <$> tlist c l).
Proof.
  intros Hf [E|Ht%of_nodes]%elem_of_cons; [by destruct (anchor_node l t)|].
  by apply (proj1 (linked_false c t) Hf l).
Qed.

(** The thread [t], in no list, is put into the list [l]. *)
Lemma repr_insert (m m' : nodes) (c : sched) (l : lid) (t p q : Z) (x y : list Z) :
  lists_repr m c -> l ∈ heads -> linked c t = false -> tlist c l = x ++ y -> spliced p (node t) q m m' ->
  p ∈ anchor l :: (node <$> tlist c l) -> q ∈ anchor l :: (node <$> tlist c l) ->
  seg m' (anchor l) (node <$> (x ++ t :: y)) (anchor l) ->
  lists_repr m' (with_tlists (<[l := x ++ t :: y]> (s_tlists c)) c).
Proof.
  intros R Hh Hf E [Sn Sp] Hp Hq S. pose proof (proj1 (linked_false c t) Hf) as Hl.
  assert (P : forall u, u ∈ x ++ t :: y <-> u = t \/ u ∈ tlist c l) by (rewrite E; set_solver).
  constructor.
  - intros l'. rewrite tlist_insert. case_decide; [subst|apply R].
    pose proof (lr_nodup _ _ R l') as N. specialize (Hl l'). rewrite E in N, Hl.
    rewrite <- Permutation_middle. by constructor.
  - intros l1 l2 u. rewrite !tlist_insert. pose proof (lr_disj _ _ R) as D.
    repeat case_decide; subst; try done; rewrite ?P; try (by apply D).
    + intros [->|Hu]; [by intros ?%Hl|by apply D].
    + intros Hu [->|Hu']; [by apply Hl in Hu|by eapply D].
  - intros l' u. rewrite tlist_insert. case_decide; [by subst|]. apply (lr_head _ _ R).
  - intros l' Hh'. rewrite tlist_insert. case_decide; [by subst|].
    apply (other_ring m m' c l l' t p q); try done.
    + intros a H1 H2. by rewrite Sn, !decide_False.
    + intros a H1 H2. by rewrite Sp, !decide_False.
  - intros u Hu. cbn in Hu. rewrite Sn. repeat case_decide; [eauto..|]. by apply (lr_node _ _ R).
  - intros u Hu Hf'. pose proof (proj1 (linked_false _ u) Hf') as Hl'.
    assert (Hne : u <> t).
    { intros ->. apply (Hl' l). rewrite tlist_insert, decide_True by done. apply P. by left. }
    assert (Hfu : linked c u = false).
    { apply linked_false. intros l' Hin. apply (Hl' l'). rewrite tlist_insert.
      case_decide; [subst; apply P; by right|done]. }
    pose proof (free_not_in c l u Hfu) as Hn.
    assert (N : node u <> node t /\ node u <> p /\ node u <> q)
      by (split_and!; [by intros ?%(inj node)|by intros <-..]).
    destruct N as (N1 & N2 & N3). unfold link. rewrite Sn, !decide_False in Hu by done.
    rewrite Sn, Sp, !decide_False by done. by apply (lr_free _ _ R).
Qed.

(** The thread [t] leaves its list. *)
Lemma repr_remove (m m' : nodes) (c : sched) (l : lid) (t p q : Z) :
  lists_repr m c -> t ∈ tlist c l -> cut_out p (node t) q m m' ->
  p ∈ anchor l :: (node <$> tlist c l) -> q ∈ anchor l :: (node <$> tlist c l) ->
  seg m' (anchor l) (node <$> remove_tid t (tlist c l)) (anchor l) ->
  lists_repr m' (with_tlists (remove_tid t <$> s_tlists c) c).
Proof.
  intros R Ht [Sn Sp] Hp Hq S. constructor.
  - intros l'. rewrite tlist_removed. apply NoDup_remove_tid, R.
  - intros l1 l2 u. rewrite !tlist_removed, !elem_of_remove_tid. intros [_ H1] [_ H2].
    by eapply (lr_disj _ _ R).
  - intros l' u. rewrite tlist_removed, elem_of_remove_tid. intros [_ Hu]. by apply (lr_head _ _ R l' u).
  - intros l' Hh'. rewrite tlist_removed. destruct (decide (l' = l)) as [->|Hne]; [done|].
    assert (Hn : t ∉ tlist c l') by (intros Hin; by apply Hne, (lr_disj _ _ R l' l t)).
    rewrite remove_tid_notin by done.
    apply (other_ring m m' c l l' t p q); try done.
    + intros a H1 H2. by rewrite Sn, !decide_False.
    + intros a H1 H2. by rewrite Sp, !decide_False.
  - intros u Hu. cbn in Hu. rewrite Sn. repeat case_decide; [eauto..|]. by apply (lr_node _ _ R).
  - intros u Hu Hf'. pose proof (proj1 (linked_false _ u) Hf') as Hl'. unfold link.
    destruct (decide (u = t)) as [->|Hne]; [by rewrite Sn, Sp, !decide_True|].
    assert (Hfu : linked c u = false).
    { apply linked_false. intros l' Hin. apply (Hl' l'). rewrite tlist_removed.
      by apply elem_of_remove_tid. }
    pose proof (free_not_in c l u Hfu) as Hn.
    assert (N : node u <> node t /\ node u <> p /\ node u <> q)
      by (split_and!; [by intros ?%(inj node)|by intros <-..]).
    destruct N as (N1 & N2 & N3). rewrite Sn, !decide_False in Hu by done.
    rewrite Sn, Sp, !decide_False by done. by apply (lr_free _ _ R).
Qed.

(** ** The operations *)

(** The operations of the kernel on its lists of threads; a list is walked from its
    first thread on, and [PutBefore] is the step that orders a waiting list by
    priority. *)
Inductive list_op :=
| PushBack (l : lid) (t : Z)
| PushFront (l : lid) (t : Z)
| PutBefore (l : lid) (u t : Z)
| Remove (t : Z)
| IsEmpty (l : lid)
| First (l : lid)
| NotAlone (t : Z).

Fixpoint put_before (u t : Z) (x : list Z) : list Z :=
  match x with
  | [] => []
  | v :: x => if v =? u then t :: v :: x else v :: put_before u t x
  end.

(** What they do to the lists of [KState]; a thread is named by its node. *)
Definition abs_op (op : list_op) : K Z :=
  match op with
  | PushBack l t => _ ← get_thread t; _ ← tlist_push_back l t; mret 0
  | PushFront l t => _ ← get_thread t; _ ← tlist_push_front l t; mret 0
  | PutBefore l u t =>
      _ ← get_thread t; _ ← need_unlinked t; x ← get_list l;
      if bool_decide (u ∈ x) then _ ← put_list l (put_before u t x); mret 0 else kfault
  | Remove t => _ ← get_thread t; _ ← tlist_remove t; mret 0
  | IsEmpty l => b ← KState.rt_list_isempty l; mret (Z.b2z b)
  | First l => t ← first_entry l; mret (node t)
  | NotAlone t => _ ← get_thread t; b ← gets (fun s => not_alone (sc s) t); mret (Z.b2z b)
  end.

(** The pointer code. *)
Definition run_op (op : list_op) : ST nodes Z :=
  match op with
  | PushBack l t => _ ← rt_list_insert_before (anchor l) (node t); mret 0
  | PushFront l t => _ ← rt_list_insert_after (anchor l) (node t); mret 0
  | PutBefore l u t => _ ← rt_list_insert_before (node u) (node t); mret 0
  | Remove t => _ ← rt_list_remove (node t); mret 0
  | IsEmpty l => b ← rt_list_isempty (anchor l); mret (Z.b2z b)
  | First l => get_next (anchor l)
  | NotAlone t => n ← get_next (node t); p ← get_prev (node t); mret (Z.b2z (negb (n =? p)))
  end.

Section Steps.
Variables (m : nodes) (s : kst).
Hypothesis R : lists_repr m (sc s).

Lemma ring_known (l : lid) (a : Z) : l ∈ heads -> a ∈ anchor l :: (node <$> tlist (sc s) l) -> is_Some (next_of m a).
Proof. intros Hh Ha. eapply seg_known; [by apply (lr_seg _ _ R l)|done]. Qed.

(** The place of a thread in its list. *)
Lemma place_of (l : lid) (t : Z) (x y : list Z) :
  tlist (sc s) l = x ++ t :: y ->
  seg m (anchor l) (node <$> x) (node t) /\ seg m (node t) (node <$> y) (anchor l) /\
  NoDup (anchor l :: (node <$> x) ++ node t :: (node <$> y)) /\ t ∉ x ++ y.
Proof.
  intros E. assert (Ht : t ∈ tlist (sc s) l) by (rewrite E; apply elem_of_app; right; by left).
  pose proof (lr_seg _ _ R l (lr_head _ _ R l t Ht)) as S. pose proof (lr_nodup _ _ R l) as N.
  pose proof (nodup_ring l _ N) as N'. rewrite E in S, N, N'.
  rewrite fmap_app, fmap_cons in S, N'. apply seg_split in S as [S1 S2]. split_and!; try done.
  rewrite <- Permutation_middle in N. by inversion N.
Qed.

Lemma put_before_split (u t : Z) (x y : list Z) :
  u ∉ x -> put_before u t (x ++ u :: y) = x ++ t :: u :: y.
Proof.
  induction x as [|v x IH]; intros Hu; cbn; [by rewrite Z.eqb_refl|].
  rewrite (proj2 (Z.eqb_neq v u)) by set_solver. by rewrite IH by set_solver.
Qed.

Lemma refine_push_back (l : lid) (t : Z) (Q : unit -> nodes -> Prop) :
  l ∈ heads -> is_Some (s_threads (sc s) !! t) -> linked (sc s) t = false ->
  (forall m', lists_repr m' (with_tlists (<[l := tlist (sc s) l ++ [t]]> (s_tlists (sc s))) (sc s)) ->
     Q tt m') ->
  wp (rt_list_insert_before (anchor l) (node t)) Q m.
Proof.
  intros Hh Ht Hf HQ. pose proof (free_not_in (sc s) l t Hf) as Hn.
  pose proof (lr_seg _ _ R l Hh) as S. destruct (seg_last _ _ _ _ S) as (p & [Lp1 Lp2] & Hp).
  assert (Hpr : p ∈ anchor l :: (node <$> tlist (sc s) l)).
  { destruct Hp as [[_ ->]|(x' & -> & _)]; set_solver. }
  eapply wp_insert_before; [exact Lp2|by eapply ring_known|by apply (lr_node _ _ R)|set_solver|set_solver|].
  intros m' Sp. apply HQ. eapply (repr_insert m m' (sc s) l t p (anchor l)); try done.
  - by rewrite app_nil_r.
  - by left.
  - rewrite fmap_app. eapply seg_insert_last; try done.
    + apply nodup_ring, R.
    + apply anchor_not_in.
    + set_solver.
Qed.

Lemma refine_push_front (l : lid) (t : Z) (Q : unit -> nodes -> Prop) :
  l ∈ heads -> is_Some (s_threads (sc s) !! t) -> linked (sc s) t = false ->
  (forall m', lists_repr m' (with_tlists (<[l := t :: tlist (sc s) l]> (s_tlists (sc s))) (sc s)) ->
     Q tt m') ->
  wp (rt_list_insert_after (anchor l) (node t)) Q m.
Proof.
  intros Hh Ht Hf HQ. pose proof (free_not_in (sc s) l t Hf) as Hn.
  pose proof (lr_seg _ _ R l Hh) as S. destruct (seg_first _ _ _ _ S) as (q & [Lq1 Lq2] & Hq).
  assert (Hqr : q ∈ anchor l :: (node <$> tlist (sc s) l)).
  { destruct Hq as [[_ ->]|(x' & -> & _)]; set_solver. }
  eapply wp_insert_after; [exact Lq1|by eapply ring_known|by apply (lr_node _ _ R)|set_solver|set_solver|].
  intros m' Sp. apply HQ. apply (repr_insert m m' (sc s) l t (anchor l) q []); try done.
  - by left.
  - eapply seg_insert_first; try done.
    + apply nodup_ring, R.
    + apply anchor_not_in.
    + set_solver.
Qed.

Lemma refine_put_before (l : lid) (u t : Z) (Q : unit -> nodes -> Prop) :
  is_Some (s_threads (sc s) !! t) -> linked (sc s) t = false -> u ∈ tlist (sc s) l ->
  (forall m', lists_repr m'
     (with_tlists (<[l := put_before u t (tlist (sc s) l)]> (s_tlists (sc s))) (sc s)) -> Q tt m') ->
  wp (rt_list_insert_before (node u) (node t)) Q m.
Proof.
  intros Ht Hf Hu HQ. pose proof (free_not_in (sc s) l t Hf) as Hn.
  pose proof (lr_head _ _ R l u Hu) as Hh. destruct (list_elem_of_split _ _ Hu) as (x & y & E).
  destruct (place_of l u x y E) as (S1 & S2 & N & Nu).
  rewrite E in HQ. rewrite put_before_split in HQ by (intros Hx; apply Nu, elem_of_app; by left).
  destruct (seg_last _ _ _ _ S1) as (p & [Lp1 Lp2] & Hp%last_in).
  assert (Hring : p ∈ anchor l :: (node <$> tlist (sc s) l) /\ node u ∈ anchor l :: (node <$> tlist (sc s) l)).
  { rewrite E, fmap_app, fmap_cons. split; right_or_in. }
  destruct Hring as [Hp' Hu'].
  assert (Np : node t <> p) by (intros E'; apply Hn; by rewrite E').
  assert (Nt : node t <> node u) by (intros E'; apply Hn; by rewrite E').
  eapply wp_insert_before; [exact Lp2|eauto|by apply (lr_node _ _ R)|done|done|].
  intros m' Sp. apply HQ. apply (repr_insert m m' (sc s) l t p (node u) x (u :: y)); try done.
  rewrite fmap_app, !fmap_cons. rewrite E, fmap_app, fmap_cons in Hn.
  apply seg_insert_mid with m p; try done.
  - rewrite <- fmap_cons, <- fmap_app. apply anchor_not_in.
  - intros E'. by apply (anchor_node l t).
Qed.

Lemma refine_remove (t : Z) (Q : unit -> nodes -> Prop) :
  is_Some (s_threads (sc s) !! t) ->
  (forall m', lists_repr m' (with_tlists (remove_tid t <$> s_tlists (sc s)) (sc s)) -> Q tt m') ->
  wp (rt_list_remove (node t)) Q m.
Proof.
  intros Ht HQ. destruct (linked (sc s) t) eqn:Hf.
  - apply bool_decide_eq_true in Hf as (l & z & Ez & Hin).
    assert (Htl : t ∈ tlist (sc s) l) by (unfold tlist; by rewrite Ez).
    destruct (list_elem_of_split _ _ Htl) as (x & y & E).
    destruct (place_of l t x y E) as (S1 & S2 & N & Nt).
    destruct (seg_last _ _ _ _ S1) as (p & [Lp1 Lp2] & Hp).
    destruct (seg_first _ _ _ _ S2) as (q & [Lq1 Lq2] & Hq).
    apply last_in in Hp. apply first_in in Hq.
    assert (Hring : p ∈ anchor l :: (node <$> tlist (sc s) l) /\ q ∈ anchor l :: (node <$> tlist (sc s) l)).
    { rewrite E, fmap_app, fmap_cons. split; right_or_in. }
    destruct Hring as [Hp' Hq'].
    assert (Np : p <> node t /\ q <> node t) by by eapply ring_apart.
    destruct Np as [Np Nq].
    eapply wp_remove; [exact Lp2|exact Lq1|eauto|by apply next_prev; eauto|by split|].
    intros m' Co. apply HQ. apply (repr_remove m m' (sc s) l t p q); try done.
    + assert (Er : remove_tid t (tlist (sc s) l) = x ++ y).
      { rewrite E. unfold remove_tid. rewrite filter_app, filter_cons, decide_False by tauto.
        rewrite <- filter_app. by apply remove_tid_notin. }
      rewrite Er, fmap_app. eapply seg_remove; try done.
      rewrite <- fmap_cons, <- fmap_app. apply anchor_not_in.
  - destruct (lr_free _ _ R t (lr_node _ _ R t Ht) Hf) as [L1 L2].
    eapply wp_remove; [exact L2|exact L1|by eauto..|done|]. intros m' [Sn Sp]. apply HQ.
    pose proof (proj1 (linked_false _ _) Hf) as Hl.
    assert (Sm : forall a, next_of m' a = next_of m a /\ prev_of m' a = prev_of m a)
      by (intros a; rewrite Sn, Sp; repeat case_decide; subst; done).
    constructor.
    + intros l. rewrite tlist_removed. apply NoDup_remove_tid, R.
    + intros l1 l2 u. rewrite !tlist_removed, !elem_of_remove_tid. intros [_ H1] [_ H2].
      by eapply (lr_disj _ _ R).
    + intros l u. rewrite tlist_removed, elem_of_remove_tid. intros [_ Hu]. by apply (lr_head _ _ R l u).
    + intros l Hh. rewrite tlist_removed, remove_tid_notin by apply Hl.
      eapply (seg_ext m); [intros; apply Sm..|by apply R].
    + intros u Hu. rewrite (proj1 (Sm _)). by apply (lr_node _ _ R).
    + intros u Hu Hfu. unfold link. rewrite (proj1 (Sm _)) in Hu. rewrite (proj1 (Sm _)), (proj2 (Sm _)).
      apply (lr_free _ _ R); [done|]. apply linked_false. intros l Hin.
      apply (proj1 (linked_false _ _) Hfu l). rewrite tlist_removed, remove_tid_notin by apply Hl. done.
Qed.

(** A thread has company exactly when its two neighbours differ. *)
Lemma not_alone_spec (t : Z) :
  not_alone (sc s) t = true <-> exists l, t ∈ tlist (sc s) l /\ (1 < length (tlist (sc s) l))%nat.
Proof.
  unfold not_alone. rewrite existsb_exists. split.
  - intros ([l x] & Hin & [Ht Hn]%andb_true_iff). apply list_elem_of_In, elem_of_map_to_list in Hin.
    apply bool_decide_eq_true in Ht. apply Z.ltb_lt in Hn. cbn in *. exists l. unfold tlist. rewrite Hin.
    cbn. split; [done|lia].
  - intros (l & Ht & Hn). unfold tlist in *. destruct (s_tlists (sc s) !! l) as [x|] eqn:E; cbn in *; [|lia].
    exists (l, x). split; [by apply list_elem_of_In, elem_of_map_to_list|]. cbn.
    rewrite bool_decide_true by done. cbn. apply Z.ltb_lt. lia.
Qed.

Lemma refine_not_alone (t : Z) :
  is_Some (s_threads (sc s) !! t) ->
  exists n p, next_of m (node t) = Some n /\ prev_of m (node t) = Some p /\
    negb (n =? p) = not_alone (sc s) t.
Proof.
  intros Ht. destruct (linked (sc s) t) eqn:Hf.
  - apply bool_decide_eq_true in Hf as (l & z & Ez & Hin).
    assert (Htl : t ∈ tlist (sc s) l) by (unfold tlist; by rewrite Ez).
    destruct (list_elem_of_split _ _ Htl) as (x & y & E).
    destruct (place_of l t x y E) as (S1 & S2 & N & Nt).
    destruct (seg_last _ _ _ _ S1) as (p & [_ Lp] & Hp).
    destruct (seg_first _ _ _ _ S2) as (q & [Lq _] & Hq).
    exists q, p. split_and!; [done..|].
    apply eq_true_iff_eq. rewrite not_alone_spec, negb_true_iff, Z.eqb_neq. split.
    + intros Hne. exists l. split; [done|]. rewrite E, length_app. cbn.
      destruct Hp as [[Hx ->]|(x' & Hx & _)], Hq as [[Hy ->]|(y' & Hy & _)]; [done|..];
        apply (f_equal length) in Hx, Hy; rewrite ?length_app, ?length_fmap in *; cbn in *; lia.
    + intros (l' & Hin' & Hl) ->. pose proof (lr_disj _ _ R l' l t Hin' Htl) as ->.
      rewrite E, length_app in Hl. cbn in Hl. change (anchor l :: (node <$> x) ++ node t :: (node <$> y)) with
        ((anchor l :: (node <$> x)) ++ node t :: (node <$> y)) in N.
      apply NoDup_app in N as (_ & N & _).
      destruct Hq as [[Hy ->]|(y' & Hy & _)], Hp as [[Hx Ep]|(x' & Hx & _)].
      * apply (f_equal length) in Hx, Hy. rewrite ?length_fmap in *. cbn in *. lia.
      * apply (anchor_not_in l x). rewrite Hx. apply elem_of_app. right. by left.
      * apply (anchor_not_in l y). rewrite Hy, Ep. by left.
      * apply (N p); [right; rewrite Hx; apply elem_of_app; right; by left|right; rewrite Hy; by left].
  - destruct (lr_free _ _ R t (lr_node _ _ R t Ht) Hf) as [L1 L2].
    exists (node t), (node t). split_and!; [done..|]. rewrite Z.eqb_refl. symmetry.
    destruct (not_alone (sc s) t) eqn:E; [|done]. apply not_alone_spec in E as (l & Hin & _).
    by apply (proj1 (linked_false _ _) Hf) in Hin.
Qed.

Lemma refine_head (l : lid) :
  l ∈ heads -> exists n, next_of m (anchor l) = Some n /\
    match tlist (sc s) l with [] => n = anchor l | t :: _ => n = node t end.
Proof.
  intros Hh. pose proof (lr_seg _ _ R l Hh) as S. destruct (tlist (sc s) l) as [|t x]; destruct S as [? ?]; eauto.
  destruct H0. eauto.
Qed.

End Steps.

(** Where [rt_list_init] has been called on every head and every node, all lists are
    empty. *)
Lemma repr_init (m : nodes) (c : sched) :
  (forall l, tlist c l = []) -> (forall a x, m !! a = Some x -> x = (a, a)) ->
  (forall l, l ∈ heads -> is_Some (m !! anchor l)) ->
  (forall t, is_Some (s_threads c !! t) -> is_Some (m !! node t)) -> lists_repr m c.
Proof.
  intros E M Hh Ht.
  assert (L : forall a, is_Some (m !! a) -> link m a a).
  { intros a [x Ex]. unfold link, next_of, prev_of. rewrite Ex, (M a x Ex). done. }
  constructor; intros; rewrite ?E in *; try constructor; try (by apply not_elem_of_nil in H0).
  - by apply L, Hh.
  - by apply L, Hh.
  - unfold next_of. apply fmap_is_Some. by apply Ht.
  - apply L. by apply fmap_is_Some in H0.
  - apply L. by apply fmap_is_Some in H0.
Qed.

(** The list an operation names exists. *)
Definition has_list (op : list_op) : Prop :=
  match op with
  | PushBack l _ | PushFront l _ | IsEmpty l | First l => l ∈ heads
  | PutBefore _ _ _ | Remove _ | NotAlone _ => True
  end.

Lemma refine_op (op : list_op) (m : nodes) (s s' : kst) (r : Z) :
  lists_repr m (sc s) -> has_list op -> abs_op op s = Ok (r, s') ->
  wp (run_op op) (fun r' m' => r' = r /\ lists_repr m' (sc s')) m.
Proof.
  intros R Hh E. destruct op as [l t|l t|l u t|t|l|l|t]; cbn in E |- *; unfold get_thread, tlist_push_back,
    tlist_push_front, tlist_remove, need_unlinked, get_list, put_list, first_entry, KState.rt_list_isempty,
    lift, gets, modify, mret, ST_ret, mbind, ST_bind, kfault in E; cbn in E;
    try (destruct (s_threads (sc s) !! t) as [th|] eqn:Eth; cbn in E; [|done]; apply mk_is_Some in Eth);
    try (destruct (linked (sc s) t) eqn:Ef; cbn in E; [done|]).
  - injection E as <- <-. apply wp_bind. eapply (refine_push_back m s R); [exact Hh|done..|]. intros m' R'. by split.
  - injection E as <- <-. apply wp_bind. eapply (refine_push_front m s R); [done..|]. intros m' R'. by split.
  - case_bool_decide as Hu; [|done]. injection E as <- <-. apply wp_bind.
    eapply (refine_put_before m s R); [done..|]. intros m' R'. by split.
  - injection E as <- <-. apply wp_bind. eapply (refine_remove m s R); [done..|]. intros m' R'. by split.
  - injection E as <- <-. apply wp_bind, wp_bind. destruct (refine_head m s R l Hh) as (n & En & Hn).
    eapply wp_get_next; [done|]. split; [|done].
    destruct (tlist (sc s) l) as [|u x]; rewrite Hn; [by rewrite Z.eqb_refl|].
    rewrite (proj2 (Z.eqb_neq _ _)); [done|]. intros Eq. by apply (anchor_node l u).
  - destruct (refine_head m s R l Hh) as (n & En & Hn).
    destruct (tlist (sc s) l) as [|u x]; [done|]. injection E as <- <-. eapply wp_get_next; eauto.
  - injection E as <- <-. destruct (refine_not_alone m s R t Eth) as (n & p & En & Ep & <-).
    apply wp_bind. eapply wp_get_next; [done|]. apply wp_bind. by eapply wp_get_prev.
Qed.

(** A sequence of operations and the results it gives. *)
Fixpoint run_all {S} (f : list_op -> ST S Z) (ops : list list_op) : ST S (list Z) :=
  match ops with
  | [] => mret []
  | op :: ops => r ← f op; rs ← run_all f ops; mret (r :: rs)
  end.

(** C3: the lists of threads of the kernel state are what the pointer code of
    rtservice.h makes of the [next] and [prev] fields: whatever sequence of
    insertions (at either end of a list that exists, and before a member), removals (also of a node that is
    in no list), emptiness tests, first entries and tests for company goes through on
    lists of threads, the pointer code run on a memory that holds these lists goes
    through too, gives the same results, and leaves a memory that holds the resulting
    lists: every list a ring through its head in both directions, no node in two
    rings, every other node linked to itself. *)
Theorem list_ops_refine (ops : list list_op) (m : nodes) (s s' : kst) (rs : list Z) :
  lists_repr m (sc s) -> Forall has_list ops -> run_all abs_op ops s = Ok (rs, s') ->
  wp (run_all run_op ops) (fun rs' m' => rs' = rs /\ lists_repr m' (sc s')) m.
Proof.
  revert m s rs. induction ops as [|op ops IH]; intros m s rs R Hh E; cbn in E |- *.
  - by injection E as <- <-.
  - apply Forall_cons in Hh as [Hop Hops]. unfold mbind, ST_bind in E. destruct (abs_op op s) as [[r s1]| |] eqn:E1; [|done..].
    destruct (run_all abs_op ops s1) as [[rs1 s2]| |] eqn:E2; [|done..]. injection E as <- <-.
    apply wp_bind. eapply wp_mono; [by eapply refine_op|]. intros r' m1 [-> R1]. cbn.
    apply wp_bind. eapply wp_mono; [by eapply IH|]. by intros rs' m2 [-> R2].
Qed.

End Refinement.

(** ** The lists at work *)

Definition lid_place (l : lid) : Z := 2 * Zpos (encode l).

(** Two lists and the four threads of [running], none of them in a list. *)
Definition two_lists : Layout.
Proof.
  refine {| heads := {[LReady 10; LSuspend 7]}; anchor := lid_place; node t := 2 * t + 1 |}.
  - intros a b E. apply (inj encode). unfold lid_place in E. lia.
  - intros a b E. cbv beta in E. lia.
  - intros l t. unfold lid_place. lia.
Defined.

Definition unlisted (s : kst) : kst := upd_sc (with_tlists ∅) s.
Definition no_lists : kst := unlisted running.

Lemma unlisted_lists (s : kst) (l : lid) : tlist (sc (unlisted s)) l = [].
Proof. done. Qed.
Lemma unlisted_threads (s : kst) : s_threads (sc (unlisted s)) = s_threads (sc s).
Proof. done. Qed.

Definition bare_nodes : nodes :=
  let ring a := (a, (a, a)) in
  list_to_map (ring <$> [lid_place (LReady 10); lid_place (LSuspend 7);
    2 * main_t + 1; 2 * peer_t + 1; 2 * work_t + 1; 2 * idle_t + 1]).

Lemma bare_repr : @lists_repr two_lists bare_nodes (sc no_lists).
Proof.
  apply (@repr_init two_lists).
  - intros l. apply unlisted_lists.
  - intros a x E%elem_of_list_to_map_2. apply list_elem_of_fmap in E as (b & E & _). by injection E as -> ->.
  - intros l [->%elem_of_singleton| ->%elem_of_singleton]%elem_of_union; vm_compute; eauto.
  - intros t [th Hth]. unfold no_lists in Hth. rewrite unlisted_threads in Hth. apply elem_of_map_to_list in Hth.
    assert (E : (map_to_list (s_threads (sc running))).*1 = [work_t; main_t; peer_t; idle_t]) by evaluate.
    apply (list_elem_of_fmap_2 fst) in Hth. rewrite E in Hth. cbn in Hth.
    repeat (apply elem_of_cons in Hth as [->|Hth]; [vm_compute; eauto|]). exact (False_ind _ (not_elem_of_nil _ Hth)).
Qed.

Definition some_ops : list list_op :=
  [PushBack (LReady 10) main_t; NotAlone main_t; PushFront (LReady 10) peer_t; NotAlone main_t;
   PutBefore (LReady 10) main_t work_t; First (LReady 10); Remove peer_t; Remove peer_t;
   First (LReady 10); IsEmpty (LSuspend 7); PushBack (LSuspend 7) peer_t; IsEmpty (LSuspend 7)].

Lemma list_ops_refine_witness :
  let s' := after (run_all (@abs_op two_lists) some_ops) no_lists in
  let rs := [0; 0; 0; 1; 0; 2 * peer_t + 1; 0; 0; 2 * work_t + 1; 1; 0; 0] in
  tlist (sc s') (LReady 10) = [work_t; main_t] /\ tlist (sc s') (LSuspend 7) = [peer_t] /\
  wp (run_all (@run_op two_lists) some_ops)
    (fun rs' m' => rs' = rs /\ @lists_repr two_lists m' (sc s')) bare_nodes.
Proof.
  cbv zeta. split; [evaluate|]. split; [evaluate|].
  apply (@list_ops_refine two_lists some_ops bare_nodes no_lists).
  - exact bare_repr.
  - repeat constructor; vm_compute; reflexivity.
  - evaluate.
Defined.
