(* ===== verification/ThreadSpec.v ===== *)
(** * What the operations on threads do

    The operations of [Thread] and [Scheduler] on a kernel that satisfies the
    invariant: they return, keep the invariant, and move the thread between the
    queues as the scheduling policy says. *)

From Stdlib Require Import Lia Sorted.
From S2P Require Import Prelude KService Heap KState Scheduler Object Timer Thread.
From S2P Require Import Invariant Sample.

(** ** Scheduling *)

Definition someone_ready (c : sched) : Prop :=
  exists u thu, s_threads c !! u = Some thu /\ t_stat thu = RT_THREAD_READY.

(** The thread that runs next, and what remains of the state. *)
Definition rescheduled (s s' : kst) : Prop :=
  exists c', scheduled (sc s) c' /\ s' = upd_sc (fun _ => c') s.

Lemma wp_reschedule (s : kst) (Q : unit -> kst -> Prop) :
  wf_kst s -> someone_ready (sc s) ->
  (forall s', rescheduled s s' -> wf_kst s' -> Q tt s') -> wp rt_schedule Q s.
Proof.
  intros W (u & thu & Hu & Hs) HQ. apply wp_schedule; [apply W|eapply group_nonzero; [apply W|..]|];
    [done..|]. intros c' S. apply HQ; [by exists c'|]. by apply wf_kst_scheduled.
Qed.

Lemma rescheduled_same (s s' : kst) :
  rescheduled s s' -> s_threads (sc s') = s_threads (sc s) /\
    (forall l, tlist (sc s') l = tlist (sc s) l) /\ s_group (sc s') = s_group (sc s) /\
    s_lock_nest (sc s') = s_lock_nest (sc s) /\
    s_interrupt_nest (sc s') = s_interrupt_nest (sc s) /\
    tm s' = tm s /\ ob s' = ob s /\ ip s' = ip s /\ hp s' = hp s /\ errno s' = errno s.
Proof.
  intros (c' & S & ->). destruct (scheduled_same _ _ S) as (E1 & E2 & E3 & E4 & E5).
  split_and!; try done. intros l. unfold tlist. cbn. by rewrite E2.
Qed.

(** The policy, on the queues the scheduler sees. *)
Lemma rescheduled_current (s s' : kst) :
  rescheduled s s' -> s_lock_nest (sc s) = 0 ->
  exists p, highest (sc s) p (s_current (sc s')).
Proof.
  intros (c' & S & ->) L. unfold scheduled in S. rewrite L in S. cbn in S |- *.
  destruct S as (p & t & H & ->). exists p. case_test; [|done]. by subst.
Qed.

Lemma highest_lists (c c' : sched) (p t : Z) :
  (forall l, tlist c' l = tlist c l) -> highest c p t -> highest c' p t.
Proof.
  intros E (H1 & H2 & H3). split; [done|]. rewrite E. split; [done|].
  intros q. rewrite E. apply H3.
Qed.

(** A thread that is in no ready queue does not run next. *)
Lemma rescheduled_next (s s' : kst) (t : Z) :
  rescheduled s s' -> s_lock_nest (sc s) = 0 -> (forall p, t ∉ tlist (sc s) (LReady p)) ->
  (exists p, highest (sc s') p (s_current (sc s'))) /\ s_current (sc s') <> t.
Proof.
  intros R L N. destruct (rescheduled_current _ _ R L) as [p H]. split.
  - exists p. eapply highest_lists; [|exact H]. apply (rescheduled_same _ _ R).
  - intros E. apply (N p). destruct H as (_ & H & _). rewrite E in H. by apply head_Some_elem_of.
Qed.

(** C12: when the scheduler is not locked and a thread is ready, [rt_schedule]
    makes the first thread of the highest-priority queue that is not empty the
    current one.  A switch is asked for exactly when this is another thread, and
    it starts from the thread whose context is in the processor even when a
    switch is already pending; while the scheduler is locked nothing changes. *)
Theorem rt_schedule_ok (s : kst) :
  wf_kst s -> someone_ready (sc s) ->
  wp rt_schedule (fun _ s' =>
    wf_kst s' /\
    (s_lock_nest (sc s) <> 0 -> s' = s) /\
    (s_lock_nest (sc s) = 0 -> exists p, highest (sc s) p (s_current (sc s')) /\
       (s_current (sc s') = s_current (sc s) -> s' = s) /\
       (s_current (sc s') <> s_current (sc s) ->
          s_current_priority (sc s') = p /\
          s_switch (sc s') = Some (match s_switch (sc s) with
                                   | Some (f, _) => f | None => s_current (sc s) end,
                                   s_current (sc s')))) /\
    s_threads (sc s') = s_threads (sc s) /\ s_tlists (sc s') = s_tlists (sc s)) s.
Proof.
  intros W R. apply wp_reschedule; [done..|]. intros s' (c' & S & ->) W'.
  destruct (scheduled_same _ _ S) as (E1 & E2 & _). split; [done|].
  split_and!; try done.
  - intros L. unfold scheduled in S. rewrite (proj2 (Z.eqb_neq _ _) L) in S. subst c'.
    apply with_sc.
  - intros L. unfold scheduled in S. rewrite L in S. cbn in S.
    destruct S as (p & t & H & ->). exists p. pose proof H as ([Hp1 Hp2] & _). cbn.
    case_test; cbn.
    + subst. split; [done|]. split; [intros _; apply with_sc|done].
    + split; [done|]. split; [done|]. intros _. split; [|done].
      apply ubits_small. lia.
Qed.

(** The main thread of the sample kernel has been suspended. *)
Definition paused : kst := after (rt_thread_suspend main_t) running.

Lemma wf_paused : wf_kst paused.
Proof. apply wf_check. vm_compute. reflexivity. Qed.

Lemma is_ready (s : kst) (t : Z) :
  bool_decide (t_stat <$> s_threads (sc s) !! t = Some RT_THREAD_READY) = true ->
  someone_ready (sc s).
Proof.
  intros H%bool_decide_eq_true. destruct (s_threads (sc s) !! t) as [th|] eqn:E; [|done].
  injection H as H. by exists t, th.
Qed.

Lemma rt_schedule_ok_witness :
  wp rt_schedule (fun _ s' => wf_kst s' /\
    exists p, highest (sc paused) p (s_current (sc s'))) paused.
Proof.
  eapply wp_mono.
  - apply rt_schedule_ok; [apply wf_paused|apply (is_ready _ idle_t); vm_compute; reflexivity].
  - intros _ s' (W & _ & H & _). destruct H as (p & H & _); [vm_compute; reflexivity|]. eauto.
Defined.

(** ** Suspending and resuming *)

Lemma suspended_lists (s : kst) (t : Z) (th : rt_thread) (l : lid) :
  tlist (sc (suspended t th s)) l = remove_tid t (tlist (sc s) l).
Proof.
  cbn. rewrite stopped_sc. unfold unready, ready_del.
  rewrite <- tlist_removed. unfold tlist. cbn. by case_bool_decide.
Qed.

Lemma resumed_lists (s : kst) (t : Z) (th : rt_thread) (l : lid) :
  tlist (sc (resumed t th s)) l =
    if decide (l = LReady (t_current_priority th))
    then remove_tid t (tlist (sc s) l) ++ [t] else remove_tid t (tlist (sc s) l).
Proof.
  assert (A : forall c, tlist (ready_add t th c) l =
    if decide (LReady (t_current_priority th) = l)
    then tlist c (LReady (t_current_priority th)) ++ [t] else tlist c l)
    by (intros c; apply (tlist_insert c)).
  cbn. rewrite stopped_sc, A. unfold unlink. rewrite !tlist_removed.
  case_decide; subst; case_decide; simplify_eq; done.
Qed.

Lemma stopped_trow (s : kst) (o : oid) : wf_kst s -> o ∉ trow (tm (timer_stopped o s)).
Proof.
  intros W. rewrite stopped_row by apply W. rewrite list_elem_of_filter. tauto.
Qed.

(** [rt_thread_suspend] takes a ready thread out of its queue and stops its
    timer; the order of the other threads is kept; the thread is then in no list
    and its timer is not running.  A thread that is not ready is refused and
    nothing changes. *)
Theorem rt_thread_suspend_ok (s : kst) (t : Z) (th : rt_thread) :
  wf_kst s -> s_threads (sc s) !! t = Some th ->
  wp (rt_thread_suspend t) (fun r s' =>
    if t_stat th =? RT_THREAD_READY then
      r = RT_EOK /\ wf_kst s' /\
      s_threads (sc s') = <[t := thr_stat RT_THREAD_SUSPEND th]> (s_threads (sc s)) /\
      (forall l, tlist (sc s') l = remove_tid t (tlist (sc s) l)) /\
      ~ (ThreadTimer t ∈ trow (tm s')) /\ s_current (sc s') = s_current (sc s) /\ ip s' = ip s
    else r = - RT_ERROR /\ s' = s) s.
Proof.
  intros W Ht. destruct (Z.eqb_spec (t_stat th) RT_THREAD_READY) as [Hs|Hs].
  - eapply wp_suspend; try done. destruct (suspended_moved s t th W Ht Hs) as [M W'].
    split_and!; try done.
    + apply M.
    + apply suspended_lists.
    + cbn. by apply stopped_trow.
    + cbn. rewrite stopped_sc. unfold unready, ready_del. by case_bool_decide.
    + cbn. apply stopped_same.
  - unfold rt_thread_suspend. pose proof (wk_addr _ W t th Ht). repeat kstep;
      [by apply neqb_null|]. repeat kstep. rewrite (proj2 (Z.eqb_neq _ _) Hs). by repeat kstep.
Qed.

Lemma rt_thread_suspend_ok_witness :
  exists th, wp (rt_thread_suspend main_t) (fun r s' => r = RT_EOK /\ wf_kst s' /\
    tlist (sc s') (LReady 10) = [peer_t]) running /\ t_stat th = RT_THREAD_READY.
Proof.
  destruct (s_threads (sc running) !! main_t) as [th|] eqn:E; [|vm_compute in E; discriminate].
  assert (Hs : t_stat <$> s_threads (sc running) !! main_t = Some RT_THREAD_READY)
    by (vm_compute; reflexivity).
  rewrite E in Hs. injection Hs as Hs. exists th. split; [|exact Hs].
  eapply wp_mono; [apply (rt_thread_suspend_ok running main_t th wf_running E)|].
  rewrite Hs. intros r s' (R & W & _ & L & _). split; [exact R|]. split; [exact W|].
  rewrite L. vm_compute. reflexivity.
Defined.

(** [rt_thread_resume] puts a suspended thread at the end of the queue of its
    priority, out of whatever it waited in, with its timer stopped; the order of
    the other threads is kept.  A thread that is not suspended is refused. *)
Theorem rt_thread_resume_ok (s : kst) (t : Z) (th : rt_thread) :
  wf_kst s -> s_threads (sc s) !! t = Some th ->
  wp (rt_thread_resume t) (fun r s' =>
    if t_stat th =? RT_THREAD_SUSPEND then
      r = RT_EOK /\ wf_kst s' /\
      s_threads (sc s') = <[t := thr_stat RT_THREAD_READY th]> (s_threads (sc s)) /\
      (forall l, tlist (sc s') l =
         if decide (l = LReady (t_current_priority th))
         then remove_tid t (tlist (sc s) l) ++ [t] else remove_tid t (tlist (sc s) l)) /\
      ~ (ThreadTimer t ∈ trow (tm s')) /\ s_current (sc s') = s_current (sc s) /\ ip s' = ip s
    else r = - RT_ERROR /\ s' = s) s.
Proof.
  intros W Ht. destruct (Z.eqb_spec (t_stat th) RT_THREAD_SUSPEND) as [Hs|Hs].
  - eapply wp_resume; try done. destruct (resumed_moved s t th W Ht Hs) as [M W'].
    split_and!; try done.
    + apply M.
    + apply resumed_lists.
    + cbn. by apply stopped_trow.
    + cbn. by rewrite stopped_sc.
    + cbn. apply stopped_same.
  - unfold rt_thread_resume. pose proof (wk_addr _ W t th Ht). repeat kstep;
      [by apply neqb_null|]. repeat kstep. rewrite (proj2 (Z.eqb_neq _ _) Hs). by repeat kstep.
Qed.

Lemma lookup_stat (s : kst) (t x : Z) :
  t_stat <$> s_threads (sc s) !! t = Some x ->
  exists th, s_threads (sc s) !! t = Some th /\ t_stat th = x.
Proof. destruct (s_threads (sc s) !! t); intros [= <-]; eauto. Qed.

Lemma rt_thread_resume_ok_witness :
  wp (rt_thread_resume main_t) (fun r s' => r = RT_EOK /\ wf_kst s' /\
    main_t ∈ tlist (sc s') (LReady 10)) paused.
Proof.
  destruct (lookup_stat paused main_t RT_THREAD_SUSPEND) as (th & E & Hs);
    [vm_compute; reflexivity|].
  assert (Hp : t_current_priority <$> s_threads (sc paused) !! main_t = Some 10)
    by (vm_compute; reflexivity).
  rewrite E in Hp. injection Hp as Hp.
  eapply wp_mono; [apply (rt_thread_resume_ok paused main_t th wf_paused E)|].
  rewrite Hs. intros r s' (R & W & _ & L & _). split; [exact R|]. split; [exact W|].
  rewrite L, Hp. rewrite decide_True by reflexivity. apply elem_of_app. right. by left.
Defined.

(** ** Yielding *)

Definition rotated (t p : Z) (c : sched) : sched :=
  with_tlists (<[LReady p := remove_tid t (tlist c (LReady p)) ++ [t]]>
    (remove_tid t <$> s_tlists c)) c.

Lemma rotated_lists (t p : Z) (c : sched) (l : lid) :
  tlist (rotated t p c) l =
    if decide (l = LReady p) then remove_tid t (tlist c l) ++ [t] else remove_tid t (tlist c l).
Proof.
  unfold rotated, tlist at 1. cbn. case_decide; subst.
  - by rewrite lookup_insert_eq.
  - rewrite lookup_insert_ne by done. apply (tlist_removed c t l).
Qed.

Lemma moved_rotated (c : sched) (t : Z) (th : rt_thread) :
  wf_sched c -> s_threads c !! t = Some th -> t_stat th = RT_THREAD_READY ->
  thread_moved t th (Some (LReady (t_current_priority th))) c (rotated t (t_current_priority th) c).
Proof.
  intros W Ht Hs. pose proof (ws_ready c W t th Ht Hs) as Hin.
  constructor; try done.
  - cbn. by rewrite insert_id.
  - intros l. rewrite rotated_lists. case_decide; [|by apply NoDup_remove_tid, W].
    apply NoDup_app. split; [by apply NoDup_remove_tid, W|]. split; [|apply NoDup_singleton].
    intros u Hu ->%list_elem_of_singleton. by apply elem_of_remove_tid in Hu as [? _].
  - intros l u Hne. rewrite rotated_lists.
    case_decide; rewrite ?elem_of_app, ?list_elem_of_singleton, elem_of_remove_tid; tauto.
  - intros l. rewrite rotated_lists.
    case_decide; rewrite ?elem_of_app, ?list_elem_of_singleton, elem_of_remove_tid.
    + subst. tauto.
    + split; [tauto|]. congruence.
  - intros _. apply (ws_prio c W t th Ht). by rewrite Hs.
  - by apply (ws_init c W t).
  - by apply (ws_stack c W t).
  - by eapply not_null.
  - apply W.
  - intros p Hp. rewrite rotated_lists. change (s_group (rotated _ _ _)) with (s_group c).
    rewrite (ws_bit c W p Hp). case_decide as E.
    + injection E as ->. split; [intros _ E; by destruct (remove_tid t _)|].
      intros _ E. rewrite E in Hin. set_solver.
    + rewrite remove_tid_notin; [done|]. intros Hin'.
      pose proof (ws_disj c W _ _ _ Hin Hin'). congruence.
Qed.

Lemma existsb_map {A B} `{Countable A} (f : A * B -> bool) (m : gmap A B) :
  existsb f (map_to_list m) = true <-> exists k x, m !! k = Some x /\ f (k, x) = true.
Proof.
  rewrite existsb_exists. split.
  - intros ([k x] & Hin & Hf). apply list_elem_of_In, elem_of_map_to_list in Hin. eauto.
  - intros (k & x & Hin & Hf). exists (k, x).
    by rewrite <- list_elem_of_In, elem_of_map_to_list.
Qed.

Lemma not_alone_ready (c : sched) (t : Z) (th : rt_thread) :
  wf_sched c -> s_threads c !! t = Some th -> t_stat th = RT_THREAD_READY ->
  not_alone c t = (1 <? Z.of_nat (length (tlist c (LReady (t_current_priority th))))).
Proof.
  intros W Ht Hs. pose proof (ws_ready c W t th Ht Hs) as Hin.
  apply eq_true_iff_eq. unfold not_alone. rewrite existsb_map. split.
  - intros (l & x & E & H). cbn in H. apply andb_true_iff in H as [Hx Hl].
    apply bool_decide_eq_true in Hx.
    assert (Hx' : t ∈ tlist c l) by (unfold tlist; by rewrite E).
    rewrite (ws_disj c W _ _ _ Hin Hx'). unfold tlist. by rewrite E.
  - intros H. destruct (tlist_lookup c _ t Hin) as (x & E & Hx).
    exists (LReady (t_current_priority th)), x. split; [done|]. cbn.
    unfold tlist in H. rewrite E in H. cbn in H. by rewrite H, bool_decide_eq_true_2.
Qed.

Lemma wp_yield (s : kst) (th : rt_thread) (Q : Z -> kst -> Prop) :
  wf_kst s -> s_threads (sc s) !! s_current (sc s) = Some th ->
  (forall s', wf_kst s' ->
     (if (t_stat th =? RT_THREAD_READY) &&
         (1 <? Z.of_nat (length (tlist (sc s) (LReady (t_current_priority th)))))
      then rescheduled (upd_sc (rotated (s_current (sc s)) (t_current_priority th)) s) s'
      else s' = s) -> Q RT_EOK s') ->
  wp rt_thread_yield Q s.
Proof.
  intros W Ht HQ. unfold rt_thread_yield. repeat kstep.
  destruct (Z.eqb_spec (t_stat th) RT_THREAD_READY) as [Hs|Hs]; cbn in HQ |- *.
  2: { kstep. by apply HQ. }
  rewrite (not_alone_ready _ _ _ (wk_sched _ W) Ht Hs).
  destruct (1 <? _) eqn:El; [|kstep; by apply HQ].
  destruct (thread_fields s _ th W Ht ltac:(by rewrite Hs)) as (Ha & Hp & _).
  repeat kstep. apply wp_ready_queue; [done|]. kstep.
  apply wp_push_back; [apply unlinked_removed|]. kstep.
  set (s1 := upd_sc _ _).
  assert (E : s1 = upd_sc (rotated (s_current (sc s)) (t_current_priority th)) s).
  { unfold s1, rotated, upd_sc. cbn. by rewrite tlist_removed. }
  clearbody s1. subst s1.
  pose proof (moved_rotated _ _ _ (wk_sched _ W) Ht Hs) as M.
  apply wp_reschedule.
  - apply (wf_kst_sched s); try done; [by eapply wf_moved; [apply W|]|by apply same_waiting_refl].
  - eexists _, th. cbn. done.
  - intros s' R W'. kstep. by apply HQ.
Qed.

(** Round robin.  When the current thread is the first of its queue, no
    higher queue holds a thread and the scheduler is not locked,
    [rt_thread_yield] sends it to the end of the queue and the next thread of
    the queue runs; a thread that is alone in its queue goes on. *)
Theorem rt_thread_yield_ok (s : kst) (th : rt_thread) (q : list Z) :
  wf_kst s -> s_threads (sc s) !! s_current (sc s) = Some th -> t_stat th = RT_THREAD_READY ->
  s_lock_nest (sc s) = 0 ->
  tlist (sc s) (LReady (t_current_priority th)) = s_current (sc s) :: q ->
  (forall p, 0 <= p < t_current_priority th -> tlist (sc s) (LReady p) = []) ->
  wp rt_thread_yield (fun r s' =>
    r = RT_EOK /\ wf_kst s' /\ s_current (sc s') = default (s_current (sc s)) (head q) /\
    (forall l, tlist (sc s') l =
       if decide (l = LReady (t_current_priority th)) then q ++ [s_current (sc s)]
       else tlist (sc s) l) /\
    s_threads (sc s') = s_threads (sc s) /\ tm s' = tm s) s.
Proof.
  intros W Ht Hs L Eq Hp. set (t := s_current (sc s)) in *.
  set (p := t_current_priority th) in *.
  assert (Hother : forall l, l <> LReady p -> remove_tid t (tlist (sc s) l) = tlist (sc s) l).
  { intros l Hne. apply remove_tid_notin. intros Hin. apply Hne.
    apply (ws_disj _ (wk_sched _ W) _ _ t Hin). rewrite Eq. by left. }
  assert (Hself : remove_tid t (tlist (sc s) (LReady p)) = q).
  { rewrite Eq. apply remove_tid_head. rewrite <- Eq. apply W. }
  eapply wp_yield; [done..|]. fold t p. rewrite Hs, Eq, Z.eqb_refl. cbn [andb].
  intros s' W'. case_test; cbn [andb].
  - intros R. destruct (rescheduled_same _ _ R) as (E1 & E2 & _ & _ & _ & E3 & _).
    assert (T : forall l, tlist (sc s') l = if decide (l = LReady p) then q ++ [t] else tlist (sc s) l).
    { intros l. rewrite E2. cbn. rewrite rotated_lists. case_decide as D; [by rewrite D, Hself|].
      by apply Hother. }
    split_and!; try done.
    destruct (rescheduled_current _ _ R L) as (p' & Hh).
    destruct q as [|u q]; [cbn in Etest; lia|]. cbn.
    apply (highest_unique (rotated t p (sc s)) p' p); [exact Hh|].
    split; [apply (thread_fields s t th W Ht ltac:(by rewrite Hs))|].
    rewrite <- !E2, T, decide_True by done. split; [done|].
    intros p0 Hp0. rewrite <- E2, T, decide_False by (intros [=]; lia). by apply Hp.
  - intros ->. destruct q as [|u q]; [|cbn in Etest; lia]. split_and!; try done.
    intros l. case_decide as D; [by rewrite D|done].
Qed.

Lemma queues_empty (s : kst) (n : Z) :
  forallb (fun p => bool_decide (tlist (sc s) (LReady p) = [])) (seqZ 0 n) = true ->
  forall p, 0 <= p < n -> tlist (sc s) (LReady p) = [].
Proof.
  intros H p Hp. apply (forallb_in _ _ p) in H; [|apply elem_of_seqZ; lia].
  by apply bool_decide_eq_true in H.
Qed.

Lemma rt_thread_yield_ok_witness :
  wp rt_thread_yield (fun r s' => r = RT_EOK /\ s_current (sc s') = peer_t /\
    tlist (sc s') (LReady 10) = [peer_t; main_t]) running.
Proof.
  destruct (lookup_stat running main_t RT_THREAD_READY) as (th & E & Hs);
    [vm_compute; reflexivity|].
  assert (Hp : t_current_priority <$> s_threads (sc running) !! main_t = Some 10)
    by (vm_compute; reflexivity).
  rewrite E in Hp. injection Hp as Hp.
  eapply wp_mono; [apply (rt_thread_yield_ok running th [peer_t] wf_running)|].
  - exact E.
  - exact Hs.
  - vm_compute. reflexivity.
  - rewrite Hp. vm_compute. reflexivity.
  - rewrite Hp. apply queues_empty. vm_compute. reflexivity.
  - intros r s' (R & _ & C & T & _). split; [exact R|]. split; [exact C|].
    rewrite T, Hp. vm_compute. reflexivity.
Defined.

(** ** Changes of a thread that is in no ready queue *)

Lemma shiftl_mask (p : Z) : 0 <= p < 32 -> u32 (Z.shiftl 1 p) = 2 ^ p.
Proof.
  intros H. rewrite Z.shiftl_1_l. apply ubits_small. split; [lia|].
  apply Z.pow_lt_mono_r; lia.
Qed.

Lemma moved_unlisted (c : sched) (t : Z) (th th' : rt_thread) :
  wf_sched c -> s_threads c !! t = Some th -> linked c t = false ->
  t_stat th' <> RT_THREAD_READY ->
  (t_stat th' <> RT_THREAD_INIT ->
     0 <= t_current_priority th' < 32 /\ t_number_mask th' = 2 ^ t_current_priority th') ->
  t_init_priority th' = t_init_priority th -> (stack_ok th -> stack_ok th') ->
  thread_moved t th' None c (with_threads (<[t := th']> (s_threads c)) c).
Proof.
  intros W Ht Hu Hr Hp Ei Es. rewrite linked_false in Hu.
  constructor; try done; try apply W.
  - intros l. change (tlist (with_threads _ c) l) with (tlist c l).
    split; [by intros ?%Hu|done].
  - rewrite Ei. by apply (ws_init c W t).
  - by apply Es, (ws_stack c W t).
  - by eapply not_null.
Qed.

Lemma init_unlinked (c : sched) (t : Z) (th : rt_thread) :
  wf_sched c -> s_threads c !! t = Some th -> t_stat th = RT_THREAD_INIT -> linked c t = false.
Proof.
  intros W Ht Hs. apply linked_false. intros l Hin. destruct (ws_loc c W l t Hin) as (x & Hx & Hl).
  simplify_eq. destruct l; cbn in Hl; rewrite Hs in Hl; [by destruct Hl|done..].
Qed.

(** The priority of a thread that is not ready is in no list. *)
Lemma wf_priority (c : sched) (t p : Z) (th : rt_thread) :
  wf_sched c -> s_threads c !! t = Some th -> t_stat th <> RT_THREAD_READY -> 0 <= p < 32 ->
  wf_sched (with_threads (<[t := set_priority p th]> (s_threads c)) c).
Proof.
  intros W Ht Hr Hp.
  assert (B : forall u x, <[t := set_priority p th]> (s_threads c) !! u = Some x ->
    (u = t /\ x = set_priority p th) \/ s_threads c !! u = Some x).
  { intros u x. rewrite lookup_insert. case_decide; intros; simplify_eq; auto. }
  constructor; try apply W; cbn.
  - intros l u H. destruct (ws_loc c W l u H) as (x & E & Hl). rewrite lookup_insert.
    case_decide; [subst|by eauto]. eexists; split; [done|]. simplify_eq.
    destruct l; cbn in *; try done. by destruct Hl.
  - intros u x E R. destruct (B u x E) as [[-> ->]|E']; [by destruct Hr|].
    by apply (ws_ready c W u x).
  - intros u x E R. destruct (B u x E) as [[-> ->]|E']; cbn; [|by apply (ws_prio c W u x)].
    split; [done|]. by apply shiftl_mask.
  - intros u x E. destruct (B u x E) as [[-> ->]|E']; cbn; [by apply (ws_init c W t)|].
    by apply (ws_init c W u).
  - intros u x E. destruct (B u x E) as [[-> ->]|E']; [exact (ws_stack c W t th Ht)|].
    by apply (ws_stack c W u).
  - rewrite lookup_insert_ne; [apply W|]. by eapply not_null.
Qed.

(** ** Starting a thread *)

Definition started_thread (th : rt_thread) : rt_thread :=
  thr_stat RT_THREAD_SUSPEND
    (thr_priority (t_init_priority th) (u32 (Z.shiftl 1 (t_init_priority th))) th).

Definition started (t : Z) (th : rt_thread) (s : kst) : kst :=
  resumed t (started_thread th)
    (set_thread t (started_thread th) s).

Lemma wf_started_thread (s : kst) (t : Z) (th : rt_thread) :
  wf_kst s -> s_threads (sc s) !! t = Some th -> t_stat th = RT_THREAD_INIT ->
  wf_kst (set_thread t (started_thread th) s).
Proof.
  intros W Ht Hs. pose proof (ws_init _ (wk_sched _ W) t th Ht) as Hi.
  apply (wf_kst_sched s); try done.
  - eapply wf_moved; [apply W|]. eapply moved_unlisted; try done; [apply W| |].
    + by eapply init_unlinked; [apply W|..].
    + intros _. cbn. split; [done|]. by apply shiftl_mask.
  - split; cbn.
    + intros u x. rewrite lookup_insert. case_decide; intros; simplify_eq; [|by eauto].
      exists th. split; [done|]. by rewrite Hs.
    + intros u x Hu Hx. rewrite lookup_insert. case_decide; [|by eauto]. subst. rewrite Ht in Hu. injection Hu as <-. by rewrite Hs in Hx.
Qed.

Lemma wp_startup (s : kst) (t : Z) (th : rt_thread) (Q : Z -> kst -> Prop) :
  wf_kst s -> s_threads (sc s) !! t = Some th -> t_stat th = RT_THREAD_INIT ->
  (forall s', wf_kst s' ->
     (if s_current (sc s) =? RT_NULL then s' = started t th s else rescheduled (started t th s) s') ->
     Q RT_EOK s') ->
  wp (rt_thread_startup t) Q s.
Proof.
  intros W Ht Hs HQ. pose proof (wk_addr _ W t th Ht). unfold rt_thread_startup.
  kstep. kstep; [by apply neqb_null|]. do 3 kstep. kstep; [by rewrite Hs|]. repeat kstep.
  eapply wp_upd_thread; [apply lookup_insert_eq|]. kstep. rewrite set_thread_twice.
  pose proof (wf_started_thread s t th W Ht Hs) as W1.
  assert (Ht1 : s_threads (sc (set_thread t (started_thread th) s)) !! t = Some (started_thread th))
    by apply lookup_insert_eq.
  eapply wp_resume; [exact W1|exact Ht1|done|].
  change (resumed _ _ _) with (started t th s).
  destruct (resumed_moved _ t _ W1 Ht1 eq_refl) as [M W2]. fold (started t th s) in M, W2.
  assert (Hc : s_current (sc (started t th s)) = s_current (sc s)).
  { unfold started. cbn. by rewrite stopped_sc. }
  repeat kstep. rewrite Hc. destruct (s_current (sc s) =? RT_NULL); cbn [negb kwhen].
  - repeat kstep. by apply HQ.
  - apply wp_reschedule; [done| |].
    + eexists t, _. split; [by eapply moved_lookup|done].
    + intros s' R W'. kstep. by apply HQ.
Qed.

(** [rt_thread_startup] makes a new thread ready, at the end of the queue of
    its initial priority; when a thread is running and the scheduler is not
    locked, the first thread of the highest queue, the new one included, runs
    then. *)
Theorem rt_thread_startup_ok (s : kst) (t : Z) (th : rt_thread) :
  wf_kst s -> s_threads (sc s) !! t = Some th -> t_stat th = RT_THREAD_INIT ->
  wp (rt_thread_startup t) (fun r s' =>
    r = RT_EOK /\ wf_kst s' /\
    (forall l, tlist (sc s') l =
       if decide (l = LReady (t_init_priority th)) then tlist (sc s) l ++ [t] else tlist (sc s) l) /\
    (exists th', s_threads (sc s') = <[t := th']> (s_threads (sc s)) /\
       t_stat th' = RT_THREAD_READY /\ t_current_priority th' = t_init_priority th) /\
    (s_current (sc s) <> RT_NULL -> s_lock_nest (sc s) = 0 ->
       exists p, highest (sc s') p (s_current (sc s'))) /\
    (s_current (sc s) = RT_NULL -> s_current (sc s') = RT_NULL)) s.
Proof.
  intros W Ht Hs. eapply wp_startup; [done..|]. intros s' W' R.
  assert (T : forall l, tlist (sc (started t th s)) l =
    if decide (l = LReady (t_init_priority th)) then tlist (sc s) l ++ [t] else tlist (sc s) l).
  { intros l. unfold started. rewrite resumed_lists. cbn.
    change (tlist (with_threads _ _) l) with (tlist (sc s) l).
    rewrite remove_tid_notin; [done|].
    apply linked_false. by eapply init_unlinked; [apply W|..]. }
  assert (C : s_current (sc (started t th s)) = s_current (sc s) /\
    s_lock_nest (sc (started t th s)) = s_lock_nest (sc s) /\
    s_threads (sc (started t th s)) =
      <[t := thr_stat RT_THREAD_READY (started_thread th)]> (s_threads (sc s))).
  { unfold started. cbn. rewrite stopped_sc. cbn. by rewrite insert_insert_eq. }
  destruct C as (C1 & C2 & C3). split_and!; [done..| | | |].
  - destruct (s_current (sc s) =? RT_NULL); [by subst|].
    intros l. destruct (rescheduled_same _ _ R) as (_ & E & _). by rewrite E.
  - eexists. destruct (s_current (sc s) =? RT_NULL); [by subst|].
    destruct (rescheduled_same _ _ R) as (E & _). rewrite E. by split.
  - intros Hn L. rewrite (proj2 (Z.eqb_neq _ _) Hn) in R.
    destruct (rescheduled_current _ _ R) as [p H]; [by rewrite C2|]. exists p.
    destruct (rescheduled_same _ _ R) as (_ & E & _). destruct H as (H1 & H2 & H3).
    split; [done|]. rewrite E. split; [done|]. intros q. rewrite E. apply H3.
  - intros Hn. rewrite Hn, Z.eqb_refl in R. subst. congruence.
Qed.

Definition fresh_t : Z := 0x20005000.
Definition fresh : kst := after (new_thread fresh_t 5) running.

Lemma wf_fresh : wf_kst fresh.
Proof. apply wf_check. vm_compute. reflexivity. Qed.

Lemma lookup_stat_prio (s : kst) (t x p : Z) :
  (fun th => (t_stat th, t_init_priority th)) <$> s_threads (sc s) !! t = Some (x, p) ->
  exists th, s_threads (sc s) !! t = Some th /\ t_stat th = x /\ t_init_priority th = p.
Proof. destruct (s_threads (sc s) !! t); intros [= <- <-]; eauto. Qed.

Lemma rt_thread_startup_ok_witness :
  wp (rt_thread_startup fresh_t) (fun r s' => r = RT_EOK /\ wf_kst s' /\
    fresh_t ∈ tlist (sc s') (LReady 5) /\ exists p, highest (sc s') p (s_current (sc s'))) fresh.
Proof.
  destruct (lookup_stat_prio fresh fresh_t RT_THREAD_INIT 5) as (th & E & Hs & Hp);
    [vm_compute; reflexivity|].
  eapply wp_mono; [apply (rt_thread_startup_ok fresh fresh_t th wf_fresh E Hs)|].
  intros r s' (R & W & T & _ & C & _). split; [exact R|]. split; [exact W|]. split.
  - rewrite T, Hp, decide_True by reflexivity. apply elem_of_app. right. by left.
  - apply C; vm_compute; [discriminate|reflexivity].
Defined.

(** ** Waiting with the timer of the thread *)

(** The timer of a waiting thread has been started. *)
Definition armed (t time : Z) (s : kst) : kst :=
  match ts_timers (tm s) !! ThreadTimer t with
  | Some x => timer_started (ThreadTimer t)
      (RtTimer (tm_func x) (tm_parameter x) (u32 time) (tm_timeout_tick x)) (timer_set t time s)
  | None => s
  end.

Section Arm.
Variables (s : kst) (t time : Z) (th : rt_thread).
Hypothesis W : wf_kst s.
Hypothesis Ht : s_threads (sc s) !! t = Some th.
Hypothesis Hs : t_stat th = RT_THREAD_SUSPEND.
Hypothesis Htime : 0 <= time < 2 ^ 31 - 1.

Lemma thread_timer : exists x y, ts_timers (tm s) !! ThreadTimer t = Some x /\
  tm_func x = F_rt_thread_timeout /\ tm_parameter x = t /\ ob_objs (ob s) !! ThreadTimer t = Some y.
Proof. apply (wk_timer _ W t th Ht). by rewrite Hs. Qed.

Lemma small_time : u32 time = time.
Proof. apply ubits_small. lia. Qed.

Lemma timer_set_lookup (x : rt_timer) :
  ts_timers (tm s) !! ThreadTimer t = Some x ->
  ts_timers (tm (timer_set t time s)) !! ThreadTimer t =
    Some (RtTimer (tm_func x) (tm_parameter x) (u32 time) (tm_timeout_tick x)).
Proof. intros E. cbn. by rewrite lookup_alter_eq, E. Qed.

Lemma wp_arm {A} (m : K A) (Q : A -> kst -> Prop) :
  wp m Q (armed t time s) ->
  wp (_ ← rt_timer_control (ThreadTimer t) RT_TIMER_CTRL_SET_TIME time;
      _ ← rt_timer_start (ThreadTimer t); m) Q s.
Proof.
  intros HQ. destruct thread_timer as (x & y & Hx & Hf & Hp & Hy).
  unfold armed in HQ. rewrite Hx in HQ.
  pose proof (wk_addr _ W t th Ht) as Ha.
  assert (Hn : oid_addr (ThreadTimer t) <> RT_NULL) by (unfold RT_NULL; cbn; lia).
  kstep. unfold rt_timer_control. kstep. kstep; [by apply negb_true_iff, Z.eqb_neq|].
  repeat kstep. cbn [RT_TIMER_CTRL_SET_TIME RT_TIMER_CTRL_GET_TIME Z.eqb]. repeat kstep.
  set (f := fun z => RtTimer (tm_func z) (tm_parameter z) (u32 time) (tm_timeout_tick z)).
  assert (E : upd_tm (fun c => with_timers (<[ThreadTimer t := f x]> (ts_timers c)) c) s =
    timer_set t time s).
  { unfold timer_set, upd_tm. do 2 f_equal. exact (alter_insert_some _ _ x f Hx). }
  change (upd_tm _ s) with
    (upd_tm (fun c => with_timers (<[ThreadTimer t := f x]> (ts_timers c)) c) s).
  rewrite E. eapply (wp_timer_start _ _ y); [done| |exact (timer_set_lookup x Hx)|done| |exact HQ].
  - apply (wf_timer_set _ t time W).
  - cbn. rewrite small_time. lia.
Qed.

Lemma wf_armed : wf_kst (armed t time s).
Proof.
  destruct thread_timer as (x & y & Hx & _). unfold armed. rewrite Hx.
  eapply wf_timer_started; [by apply wf_timer_set|exact Ht|done|exact (timer_set_lookup x Hx)|].
  cbn. rewrite small_time. lia.
Qed.

Lemma armed_same :
  sc (armed t time s) = sc s /\ ip (armed t time s) = ip s /\ hp (armed t time s) = hp s /\
  errno (armed t time s) = errno s /\ ts_tick (tm (armed t time s)) = ts_tick (tm s).
Proof. unfold armed. by destruct (ts_timers (tm s) !! ThreadTimer t). Qed.

(** The timer runs and has [time] ticks left. *)
Lemma armed_remaining :
  ThreadTimer t ∈ trow (tm (armed t time s)) /\
  remaining (tm (armed t time s)) (ThreadTimer t) = time.
Proof.
  destruct thread_timer as (x & y & Hx & _). unfold armed. rewrite Hx. split.
  - unfold timer_started, trow. cbn. apply elem_of_insert_by. by left.
  - unfold remaining. cbn. rewrite lookup_insert_eq. cbn. rewrite s32_add; rewrite small_time; lia.
Qed.

End Arm.

(** ** Sleeping *)

(** The current thread has another thread to leave the processor to. *)
Definition other_ready (t : Z) (c : sched) : Prop :=
  exists u thu, u <> t /\ s_threads c !! u = Some thu /\ t_stat thu = RT_THREAD_READY.

Lemma other_ready_moved (t : Z) (th' : rt_thread) (w : option lid) (c c' : sched) :
  thread_moved t th' w c c' -> other_ready t c -> other_ready t c'.
Proof.
  intros M (u & thu & Hne & Hu & Hs). exists u, thu. split_and!; try done.
  by rewrite (tm_threads _ _ _ _ _ M), lookup_insert_ne.
Qed.

Lemma other_someone (t : Z) (c : sched) : other_ready t c -> someone_ready c.
Proof. intros (u & thu & _ & H). by exists u, thu. Qed.

Lemma wp_sleep (s : kst) (th : rt_thread) (tick : Z) (Q : outcome Z Z -> kst -> Prop) :
  let t := s_current (sc s) in
  wf_kst s -> s_threads (sc s) !! t = Some th -> t_stat th = RT_THREAD_READY ->
  other_ready t (sc s) -> 0 <= tick < 2 ^ 31 - 1 ->
  (forall s', wf_kst s' -> rescheduled (armed t tick (suspended t th s)) s' -> Q (Wait t) s') ->
  wp (rt_thread_sleep tick) Q s.
Proof.
  intros t W Ht Hs Ho Hk HQ. pose proof (wk_addr _ W t th Ht). unfold rt_thread_sleep.
  do 2 kstep. kstep. fold t. kstep; [by apply neqb_null|]. kstep.
  eapply wp_suspend; try done. destruct (suspended_moved s t th W Ht Hs) as [M W1].
  pose proof (moved_lookup _ _ _ _ _ M) as Ht1.
  rewrite small_time by done. eapply wp_arm; try done. kstep.
  pose proof (armed_same (suspended t th s) t tick) as (Esc & _).
  apply wp_reschedule.
  - by eapply wf_armed.
  - rewrite Esc. eapply other_someone, other_ready_moved; done.
  - intros s' R W'. kstep. by apply HQ.
Qed.

(** [rt_thread_sleep] takes the current thread out of the ready queues for
    [tick] ticks: its timer runs and has [tick] ticks left, it is in no list, and
    the first thread of the highest queue of the others runs. *)
Theorem rt_thread_sleep_ok (s : kst) (th : rt_thread) (tick : Z) :
  let t := s_current (sc s) in
  wf_kst s -> s_threads (sc s) !! t = Some th -> t_stat th = RT_THREAD_READY ->
  s_lock_nest (sc s) = 0 -> other_ready t (sc s) -> 0 <= tick < 2 ^ 31 - 1 ->
  wp (rt_thread_sleep tick) (fun r s' =>
    r = Wait t /\ wf_kst s' /\
    (forall l, tlist (sc s') l = remove_tid t (tlist (sc s) l)) /\
    t_stat <$> s_threads (sc s') !! t = Some RT_THREAD_SUSPEND /\
    ThreadTimer t ∈ trow (tm s') /\ remaining (tm s') (ThreadTimer t) = tick /\
    (exists p, highest (sc s') p (s_current (sc s'))) /\ s_current (sc s') <> t) s.
Proof.
  intros t W Ht Hs L Ho Hk. eapply wp_sleep; try done. fold t. intros s' W' R.
  destruct (suspended_moved s t th W Ht Hs) as [M W1].
  pose proof (moved_lookup _ _ _ _ _ M) as Ht1.
  destruct (armed_same (suspended t th s) t tick) as (Esc & _).
  destruct (armed_remaining _ t tick _ W1 Ht1 eq_refl Hk) as [A1 A2].
  destruct (rescheduled_same _ _ R) as (E1 & E2 & _ & _ & _ & E3 & _).
  assert (T : forall l, tlist (sc s') l = remove_tid t (tlist (sc s) l)).
  { intros l. rewrite E2, Esc. apply suspended_lists. }
  destruct (rescheduled_next _ _ t R) as [Hp Hn].
  { rewrite Esc. cbn. rewrite stopped_sc. unfold unready, ready_del. by case_bool_decide. }
  { intros p. rewrite Esc, suspended_lists, elem_of_remove_tid. tauto. }
  split_and!; try done.
  - rewrite E1, Esc, Ht1. done.
  - by rewrite E3.
  - by rewrite E3.
Qed.

Lemma is_other_ready (s : kst) (t u : Z) :
  u <> t -> t_stat <$> s_threads (sc s) !! u = Some RT_THREAD_READY -> other_ready t (sc s).
Proof. intros Hne H. destruct (lookup_stat s u _ H) as (th & E & Hs). by exists u, th. Qed.

Lemma rt_thread_sleep_ok_witness :
  wp (rt_thread_sleep 50) (fun r s' => r = Wait main_t /\ wf_kst s' /\
    remaining (tm s') (ThreadTimer main_t) = 50 /\ s_current (sc s') <> main_t) running.
Proof.
  destruct (lookup_stat running main_t RT_THREAD_READY) as (th & E & Hs);
    [vm_compute; reflexivity|].
  eapply wp_mono; [apply (rt_thread_sleep_ok running th 50 wf_running)|].
  - exact E.
  - exact Hs.
  - vm_compute. reflexivity.
  - apply (is_other_ready running main_t peer_t); [discriminate|vm_compute; reflexivity].
  - lia.
  - intros r s' (R & W & _ & _ & _ & T & _ & N). split; [exact R|]. split; [exact W|].
    split; [exact T|exact N].
Defined.

(** ** The end of a thread *)

(** A thread changes its state and its place while its timer leaves the timer
    list. *)
Lemma wf_kst_removed (s s' : kst) (t : Z) (th th' : rt_thread) (w : option lid) :
  wf_kst s -> s_threads (sc s) !! t = Some th -> thread_moved t th' w (sc s) (sc s') ->
  (t_stat th' <> RT_THREAD_CLOSE -> t_stat th <> RT_THREAD_CLOSE) ->
  tm s' = tm_remove (ThreadTimer t) (tm s) ->
  ob_objs (ob s') = ob_objs (ob s) -> wf_kst s'.
Proof.
  intros W Ht M Hc Et Eo.
  assert (L : forall u x, s_threads (sc s') !! u = Some x ->
    (u = t /\ x = th') \/ (u <> t /\ s_threads (sc s) !! u = Some x)).
  { intros u x. rewrite (tm_threads _ _ _ _ _ M), lookup_insert.
    case_decide; intros; simplify_eq; auto. }
  assert (R : forall o, o ∈ trow (tm s') <-> o <> ThreadTimer t /\ o ∈ trow (tm s)).
  { intros o. rewrite Et, trow_remove by apply W. by rewrite list_elem_of_filter. }
  constructor; rewrite ?Eo.
  - by eapply wf_moved; [apply W|].
  - rewrite Et. apply wf_row_removed, W.
  - intros o [_ Ho]%R. by apply (wk_flag _ W).
  - intros u x Hu Hx. rewrite Et.
    destruct (L u x Hu) as [[-> ->]|[_ Hu']]; [apply (wk_timer _ W t th); auto|].
    by apply (wk_timer _ W u x).
  - intros u [Hne Hu]%R. destruct (wk_sleep _ W u Hu) as (x & Hx & Hs). exists x. split; [|done].
    rewrite (tm_threads _ _ _ _ _ M), lookup_insert_ne; [done|congruence].
  - intros u x Hu. destruct (L u x Hu) as [[-> ->]|[_ Hu']]; [by apply (wk_addr _ W t th)|].
    by apply (wk_addr _ W u x).
  - intros u y. rewrite Eo. apply (wk_oneshot _ W).
Qed.

Definition unregistered (o : oid) (s : kst) : kst :=
  upd_ob (fun c => Objects (ob_objs c) (filter (fun x => x <> o) <$> ob_container c)) s.

(** The state after [rt_schedule_remove_thread], [rt_timer_detach] and the
    change of [stat]. *)
Definition closed (t : Z) (th : rt_thread) (s : kst) : kst :=
  set_thread t (thr_stat RT_THREAD_CLOSE th)
    (unregistered (ThreadTimer t) (upd_tm (tm_remove (ThreadTimer t)) (upd_sc (ready_del t th) s))).

#[local] Arguments ready_del : simpl never.

Lemma ready_del_threads (t : Z) (th : rt_thread) (c : sched) :
  s_threads (ready_del t th c) = s_threads c.
Proof. unfold ready_del. by case_bool_decide. Qed.

Lemma ready_del_lists (t : Z) (th : rt_thread) (c : sched) (l : lid) :
  tlist (ready_del t th c) l = remove_tid t (tlist c l).
Proof. unfold ready_del. rewrite <- tlist_removed. unfold tlist. cbn. by case_bool_decide. Qed.

Lemma closed_moved (s : kst) (t : Z) (th : rt_thread) :
  wf_kst s -> s_threads (sc s) !! t = Some th -> t_stat th <> RT_THREAD_INIT ->
  thread_moved t (thr_stat RT_THREAD_CLOSE th) None (sc s) (sc (closed t th s)) /\
  wf_kst (closed t th s).
Proof.
  intros W Ht Hi.
  assert (M : thread_moved t (thr_stat RT_THREAD_CLOSE th) None (sc s) (sc (closed t th s))).
  { eapply (moved_ready_del _ (wk_sched _ W)); [exact Ht|done..| |done|done].
    cbn. by rewrite ready_del_threads. }
  split; [done|]. by apply (wf_kst_removed s _ t th _ None W Ht M).
Qed.

Lemma closed_lists (s : kst) (t : Z) (th : rt_thread) (l : lid) :
  tlist (sc (closed t th s)) l = remove_tid t (tlist (sc s) l).
Proof. unfold closed, ready_del. rewrite <- tlist_removed. unfold tlist. cbn. by case_bool_decide. Qed.

Lemma wf_kst_container (s : kst) (f : objects -> objects) :
  (forall c, ob_objs (f c) = ob_objs c) -> wf_kst s -> wf_kst (upd_ob f s).
Proof. intros E W. constructor; cbn; rewrite ?E; try apply W. intros t y. cbn. rewrite E. apply (wk_oneshot _ W). Qed.

(** A closed thread enters the defunct list. *)
Lemma wf_defunct (s : kst) (t : Z) (th : rt_thread) (x : list Z) :
  wf_kst s -> s_threads (sc s) !! t = Some th -> t_stat th = RT_THREAD_CLOSE ->
  linked (sc s) t = false -> tlist (sc s) LDefunct = x ->
  wf_kst (list_added LDefunct (t :: x) s).
Proof.
  intros W Ht Hs Hu E. apply (wf_kst_sched s); try done; [|by apply same_waiting_refl].
  by apply (wf_list_add _ (wk_sched _ W) LDefunct [] x t th).
Qed.

Lemma wp_object_detach (s : kst) (o : oid) (Q : unit -> kst -> Prop) :
  oid_addr o <> RT_NULL -> is_Some (ob_objs (ob s) !! o) -> Q tt (unregistered o s) ->
  wp (rt_object_detach o) Q s.
Proof.
  intros Ho Hx HQ. unfold rt_object_detach, object_unlink. kstep.
  kstep; [by apply negb_true_iff, Z.eqb_neq|]. do 2 kstep. rewrite bool_decide_true by done. by kstep.
Qed.

Lemma wp_timer_detach (s : kst) (o : oid) (Q : Z -> kst -> Prop) :
  oid_addr o <> RT_NULL -> is_Some (ob_objs (ob s) !! o) ->
  Q RT_EOK (unregistered o (upd_tm (tm_remove o) s)) -> wp (rt_timer_detach o) Q s.
Proof.
  intros Ho Hx HQ. unfold rt_timer_detach, _rt_timer_remove. kstep.
  kstep; [by apply negb_true_iff, Z.eqb_neq|]. repeat kstep.
  apply wp_object_detach; [done|done|]. by kstep.
Qed.

Section Close.
Variables (s : kst) (t : Z) (th : rt_thread).
Hypothesis W : wf_kst s.
Hypothesis Ht : s_threads (sc s) !! t = Some th.
Hypothesis Hi : t_stat th <> RT_THREAD_INIT.
(** The timer of the thread has been initialised. *)
Hypothesis Hx : is_Some (ob_objs (ob s) !! ThreadTimer t).

Lemma timer_addr : oid_addr (ThreadTimer t) <> RT_NULL.
Proof. pose proof (wk_addr _ W t th Ht). unfold RT_NULL. cbn. lia. Qed.

Lemma wp_delete (Q : Z -> kst -> Prop) :
  Q RT_EOK (list_added LDefunct (t :: remove_tid t (tlist (sc s) LDefunct)) (closed t th s)) ->
  wp (rt_thread_delete t) Q s.
Proof.
  intros HQ. destruct (thread_fields s t th W Ht Hi) as (Ha & Hp & _).
  destruct (closed_moved s t th W Ht Hi) as [M W1].
  unfold rt_thread_delete. kstep. kstep; [by apply neqb_null|]. kstep.
  eapply wp_remove_thread; [unfold RT_NULL; lia|done|done|].
  kstep. apply wp_timer_detach; [apply timer_addr|done|].
  kstep. eapply wp_upd_thread; [cbn; by rewrite ready_del_threads|].
  change (set_thread t _ _) with (closed t th s).
  kstep. apply wp_push_front; [by eapply moved_unlinked|].
  kstep. by rewrite closed_lists.
Qed.

(** [rt_thread_delete] takes a started thread, in whatever list it is, out of
    it, closes it, stops its timer for good and hands it to the idle thread at
    the head of the defunct list; the other threads keep their places. *)
Theorem rt_thread_delete_ok :
  wp (rt_thread_delete t) (fun r s' =>
    r = RT_EOK /\ wf_kst s' /\
    s_threads (sc s') = <[t := thr_stat RT_THREAD_CLOSE th]> (s_threads (sc s)) /\
    (forall l, tlist (sc s') l =
       if decide (l = LDefunct) then t :: remove_tid t (tlist (sc s) l)
       else remove_tid t (tlist (sc s) l)) /\
    ~ (ThreadTimer t ∈ trow (tm s'))) s.
Proof.
  apply wp_delete. destruct (closed_moved s t th W Ht Hi) as [M W1]. split_and!.
  - done.
  - eapply wf_defunct; [done|by eapply moved_lookup|done|by eapply moved_unlinked|].
    apply closed_lists.
  - apply M.
  - intros l. cbn. rewrite (tlist_insert (sc (closed t th s))), closed_lists.
    case_decide; case_decide; by subst.
  - cbn. rewrite trow_remove by apply W. rewrite list_elem_of_filter. tauto.
Qed.

End Close.

Lemma rt_thread_delete_ok_witness :
  wp (rt_thread_delete peer_t) (fun r s' => r = RT_EOK /\ wf_kst s' /\
    peer_t ∈ tlist (sc s') LDefunct) running.
Proof.
  destruct (lookup_stat running peer_t RT_THREAD_READY) as (th & E & Hs);
    [vm_compute; reflexivity|].
  eapply wp_mono; [apply (rt_thread_delete_ok running peer_t th wf_running E)|].
  - rewrite Hs. discriminate.
  - vm_compute. by eexists.
  - intros r s' (R & W & _ & L & _). split; [exact R|]. split; [exact W|].
    rewrite L, decide_True by reflexivity. by left.
Defined.

Lemma started_timer (s : kst) (t : Z) (th : rt_thread) :
  wf_kst s -> s_threads (sc s) !! t = Some th -> t_stat th = RT_THREAD_READY ->
  is_Some (ob_objs (ob s) !! ThreadTimer t).
Proof.
  intros W Ht Hs. destruct (wk_timer _ W t th Ht) as (x & y & _ & _ & _ & H); [by rewrite Hs|by eexists].
Qed.

(** The current thread ends. *)
Lemma wp_exit (s : kst) (th : rt_thread) (y : rt_object) (Q : unit -> kst -> Prop) :
  let t := s_current (sc s) in
  wf_kst s -> s_threads (sc s) !! t = Some th -> t_stat th = RT_THREAD_READY ->
  ob_objs (ob s) !! Obj t = Some y -> other_ready t (sc s) ->
  (forall s', wf_kst s' ->
     rescheduled (if negb (Z.land (o_type y) RT_Object_Class_Static =? 0) && (t_cleanup th =? RT_NULL)
                  then unregistered (Obj t) (closed t th s)
                  else list_added LDefunct (t :: remove_tid t (tlist (sc s) LDefunct)) (closed t th s))
       s' -> Q tt s') ->
  wp rt_thread_exit Q s.
Proof.
  intros t W Ht Hs Hy Ho HQ.
  assert (Hi : t_stat th <> RT_THREAD_INIT) by (by rewrite Hs).
  destruct (thread_fields s t th W Ht Hi) as (Ha & Hp & _).
  destruct (closed_moved s t th W Ht Hi) as [M W1].
  pose proof (moved_lookup _ _ _ _ _ M) as Ht1.
  assert (On : oid_addr (Obj t) <> RT_NULL) by (unfold RT_NULL; cbn; lia).
  unfold rt_thread_exit. do 2 kstep. fold t. kstep.
  eapply wp_remove_thread; [unfold RT_NULL; lia|done|done|].
  kstep. eapply wp_upd_thread; [cbn; by rewrite ready_del_threads|].
  kstep. apply wp_timer_detach; [by eapply timer_addr|exact (started_timer s t th W Ht Hs)|].
  change (unregistered _ _) with (closed t th s). kstep.
  unfold rt_object_is_systemobject. kstep. kstep; [by apply negb_true_iff, Z.eqb_neq|].
  kstep. eapply wp_get_object; [exact Hy|]. do 2 kstep. kstep.
  change (t_cleanup (thr_stat RT_THREAD_CLOSE th)) with (t_cleanup th). kstep.
  assert (Or : other_ready t (sc (closed t th s))) by (by eapply other_ready_moved).
  destruct (negb _ && _).
  - apply wp_object_detach; [done|by eexists|]. apply wp_reschedule; [|by eapply other_someone|auto].
    by apply wf_kst_container.
  - apply wp_push_front; [by eapply moved_unlinked|].
    change (upd_sc _ (closed t th s)) with
      (list_added LDefunct (t :: tlist (sc (closed t th s)) LDefunct) (closed t th s)).
    rewrite closed_lists. apply wp_reschedule; [|by eapply other_someone|auto].
    eapply wf_defunct; [done|exact Ht1|done|by eapply moved_unlinked|]. apply closed_lists.
Qed.

(** a thread whose entry function returns is closed, out of every queue, its
    timer is stopped, and another thread runs.  A static thread without cleanup
    function is detached at once, every other one is handed to the idle thread. *)
Theorem rt_thread_exit_ok (s : kst) (th : rt_thread) (y : rt_object) :
  let t := s_current (sc s) in
  wf_kst s -> s_threads (sc s) !! t = Some th -> t_stat th = RT_THREAD_READY ->
  ob_objs (ob s) !! Obj t = Some y -> other_ready t (sc s) -> s_lock_nest (sc s) = 0 ->
  wp rt_thread_exit (fun _ s' =>
    wf_kst s' /\ t_stat <$> s_threads (sc s') !! t = Some RT_THREAD_CLOSE /\
    (forall l, l <> LDefunct -> tlist (sc s') l = remove_tid t (tlist (sc s) l)) /\
    ~ (ThreadTimer t ∈ trow (tm s')) /\
    (if negb (Z.land (o_type y) RT_Object_Class_Static =? 0) && (t_cleanup th =? RT_NULL)
     then ~ (t ∈ tlist (sc s') LDefunct) /\ registered (ob s') (Obj t) = false
     else head (tlist (sc s') LDefunct) = Some t) /\
    (exists p, highest (sc s') p (s_current (sc s'))) /\ s_current (sc s') <> t) s.
Proof.
  intros t W Ht Hs Hy Ho L. eapply wp_exit; try done. intros s' W' R. fold t in R.
  destruct (closed_moved s t th W Ht ltac:(by rewrite Hs)) as [M W1].
  assert (Nt : ThreadTimer t ∉ trow (tm (closed t th s))).
  { cbn. rewrite trow_remove by apply W. rewrite list_elem_of_filter. tauto. }
  assert (Lk : s_lock_nest (sc (closed t th s)) = 0).
  { cbn. unfold ready_del. by case_bool_decide. }
  assert (T : forall l, tlist (sc (list_added LDefunct (t :: remove_tid t (tlist (sc s) LDefunct))
      (closed t th s))) l =
    if decide (l = LDefunct) then t :: remove_tid t (tlist (sc s) l)
    else remove_tid t (tlist (sc s) l)).
  { intros l. cbn. rewrite (tlist_insert (sc (closed t th s))), closed_lists.
    case_decide; case_decide; by subst. }
  destruct (rescheduled_same _ _ R) as (E1 & E2 & _ & _ & _ & E3 & E4 & _).
  rewrite E3, E4. split; [done|]. destruct (negb _ && _) in R, E1, E2, E3, E4 |- *.
  - destruct (rescheduled_next _ _ t R) as [Hp Hn]; [done| |].
    { intros p Hin. change (t ∈ tlist (sc (closed t th s)) (LReady p)) in Hin.
      rewrite closed_lists, elem_of_remove_tid in Hin. tauto. }
    split_and!; try done.
    + rewrite E1. cbn. by rewrite lookup_insert_eq.
    + intros l _. rewrite E2. apply closed_lists.
    + rewrite E2. change (t ∉ tlist (sc (closed t th s)) LDefunct).
      rewrite closed_lists, elem_of_remove_tid. tauto.
    + cbn. unfold registered. rewrite bool_decide_eq_false. cbn.
      intros (k & x & Hk & Hx). rewrite lookup_fmap in Hk.
      destruct (_ !! k) as [z|]; [|done]. injection Hk as <-.
      apply list_elem_of_filter in Hx as [? _]. done.
  - destruct (rescheduled_next _ _ t R) as [Hp Hn]; [done| |].
    { intros p. rewrite T, decide_False by done. rewrite elem_of_remove_tid. tauto. }
    split_and!; try done.
    + rewrite E1. cbn. by rewrite lookup_insert_eq.
    + intros l Hl. rewrite E2, T. by rewrite decide_False.
    + rewrite E2, T. by rewrite decide_True.
Qed.

Lemma thread_object (s : kst) (t f : Z) :
  o_type <$> ob_objs (ob s) !! Obj t = Some f -> exists y, ob_objs (ob s) !! Obj t = Some y /\ o_type y = f.
Proof. destruct (ob_objs (ob s) !! Obj t); intros [= <-]; eauto. Qed.

Lemma rt_thread_exit_ok_witness :
  wp rt_thread_exit (fun _ s' => wf_kst s' /\ s_current (sc s') <> main_t /\
    t_stat <$> s_threads (sc s') !! main_t = Some RT_THREAD_CLOSE) running.
Proof.
  destruct (lookup_stat running main_t RT_THREAD_READY) as (th & E & Hs);
    [vm_compute; reflexivity|].
  destruct (thread_object running main_t RT_Object_Class_Static) as (y & Hy & _);
    [vm_compute; reflexivity|].
  eapply wp_mono; [apply (rt_thread_exit_ok running th y wf_running)|].
  - exact E.
  - exact Hs.
  - exact Hy.
  - apply (is_other_ready running main_t peer_t); [discriminate|vm_compute; reflexivity].
  - vm_compute. reflexivity.
  - intros _ s' (W & C & _ & _ & _ & _ & N). split; [exact W|]. split; [exact N|exact C].
Defined.

(** ** Changing the priority *)

(** A ready thread goes to the end of its new queue, every other one keeps its
    place. *)
Definition reprioritized (t p : Z) (th : rt_thread) (s : kst) : kst :=
  if t_stat th =? RT_THREAD_READY
  then upd_sc (fun c => ready_add t (set_priority p th)
                 (with_threads (<[t := set_priority p th]> (s_threads c)) (ready_del t th c))) s
  else set_thread t (set_priority p th) s.

Section Priority.
Variables (s : kst) (t p : Z) (th : rt_thread).
Hypothesis W : wf_kst s.
Hypothesis Ht : s_threads (sc s) !! t = Some th.
Hypothesis Hi : t_stat th <> RT_THREAD_INIT.
Hypothesis Hp : 0 <= p < 32.

Lemma change_addr : 0 < t.
Proof. by apply (wk_addr _ W t th). Qed.

Lemma ready_reprioritized :
  t_stat th = RT_THREAD_READY ->
  thread_moved t (thr_stat RT_THREAD_READY (set_priority p th)) (Some (LReady p))
    (sc s) (sc (reprioritized t p th s)).
Proof.
  intros Hs. pose proof (wk_sched _ W) as Ws.
  set (x1 := thr_stat RT_THREAD_SUSPEND th).
  set (x2 := thr_stat RT_THREAD_SUSPEND (set_priority p th)).
  set (c1 := with_threads (<[t := x1]> (s_threads (sc s))) (ready_del t th (sc s))).
  assert (M1 : thread_moved t x1 None (sc s) c1).
  { eapply (moved_ready_del _ Ws); try done; by rewrite ?Hs. }
  pose proof (wf_moved _ _ _ _ _ Ws M1) as W1.
  assert (M2 : thread_moved t x2 None c1 (with_threads (<[t := x2]> (s_threads c1)) c1)).
  { eapply moved_unlisted; [done|by eapply moved_lookup|by eapply moved_unlinked|done| |done|done].
    intros _. cbn. split; [done|]. by apply shiftl_mask. }
  set (c2 := with_threads (<[t := x2]> (s_threads c1)) c1) in *.
  pose proof (wf_moved _ _ _ _ _ W1 M2) as W2.
  assert (M3 : thread_moved t (thr_stat RT_THREAD_READY x2) (Some (LReady p)) c2 (ready_add t x2 c2)).
  { apply (moved_ready_add _ W2); [by eapply moved_lookup|by eapply moved_unlinked|done|].
    by apply shiftl_mask. }
  assert (E : sc (reprioritized t p th s) = ready_add t x2 c2).
  { unfold reprioritized. rewrite Hs, Z.eqb_refl. unfold ready_add, c2, c1, x2, x1. cbn.
    unfold with_threads, with_tlists, with_group. cbn. f_equal. by rewrite !insert_insert_eq. }
  rewrite E. by eapply moved_trans; [exact M1|]; eapply moved_trans; [exact M2|].
Qed.

Lemma wf_reprioritized : wf_kst (reprioritized t p th s).
Proof.
  destruct (Z.eq_dec (t_stat th) RT_THREAD_READY) as [Hs|Hs].
  - pose proof (ready_reprioritized Hs) as M. unfold reprioritized in *.
    rewrite Hs, Z.eqb_refl in *. apply (wf_kst_sched s); try done.
    + by eapply wf_moved; [apply W|].
    + split.
      * intros u x. rewrite (tm_threads _ _ _ _ _ M), lookup_insert.
        case_decide; intros; simplify_eq; [|by eauto]. exists th. by rewrite Hs.
      * intros u x Hu Hx. rewrite (tm_threads _ _ _ _ _ M), lookup_insert.
        case_decide; [|by eauto]. subst. rewrite Ht in Hu. injection Hu as <-. by rewrite Hs in Hx.
  - unfold reprioritized. rewrite (proj2 (Z.eqb_neq _ _) Hs). apply (wf_kst_sched s); try done.
    + apply wf_priority; [apply W|done..].
    + split; cbn; intros u x Hu.
      * rewrite lookup_insert in Hu. case_decide; simplify_eq; eauto.
      * intros Hx. rewrite lookup_insert. case_decide; simplify_eq; eauto.
Qed.

Lemma wp_change_priority (Q : Z -> kst -> Prop) :
  Q RT_EOK (reprioritized t p th s) ->
  wp (rt_thread_control t RT_THREAD_CTRL_CHANGE_PRIORITY p) Q s.
Proof.
  intros HQ. destruct (thread_fields s t th W Ht Hi) as (Ha & Hpp & _).
  unfold rt_thread_control. kstep. kstep; [by apply neqb_null|]. rewrite Z.eqb_refl.
  kstep. kstep. kstep. unfold reprioritized in HQ.
  assert (Ep : u8 p = p) by (apply ubits_small; lia).
  destruct (t_stat th =? RT_THREAD_READY) eqn:Es; rewrite ?Ep.
  - kstep. eapply wp_remove_thread; [unfold RT_NULL; lia|done|done|].
    kstep. eapply wp_upd_thread; [cbn; by rewrite ready_del_threads|].
    eapply wp_insert_thread; [unfold RT_NULL; lia|apply lookup_insert_eq| |done|].
    + apply linked_false. intros l Hin. change (t ∈ tlist (ready_del t th (sc s)) l) in Hin.
      rewrite ready_del_lists, elem_of_remove_tid in Hin. tauto.
    + kstep. unfold set_thread, upd_sc in *. cbn in *. rewrite ready_del_threads. exact HQ.
  - kstep. by kstep.
Qed.

(** Changing the priority of a ready thread takes it out of its queue and puts
    it at the end of the queue of the new priority (its own included), with the
    bitmap of the queues kept; a thread that waits stays where it is and only
    gets the new priority. *)
Theorem change_priority_ok :
  wp (rt_thread_control t RT_THREAD_CTRL_CHANGE_PRIORITY p) (fun r s' =>
    r = RT_EOK /\ wf_kst s' /\
    (exists th', s_threads (sc s') = <[t := th']> (s_threads (sc s)) /\
       t_current_priority th' = p /\ t_stat th' = t_stat th) /\
    (forall l, tlist (sc s') l =
       if t_stat th =? RT_THREAD_READY then
         if decide (l = LReady p) then remove_tid t (tlist (sc s) l) ++ [t]
         else remove_tid t (tlist (sc s) l)
       else tlist (sc s) l)) s.
Proof.
  apply wp_change_priority. split; [done|]. split; [apply wf_reprioritized|].
  unfold reprioritized. destruct (Z.eqb_spec (t_stat th) RT_THREAD_READY) as [Hs|Hs].
  - pose proof (ready_reprioritized Hs) as M. unfold reprioritized in M.
    rewrite Hs, Z.eqb_refl in M. split.
    + eexists. split; [apply M|]. cbn. by rewrite Hs.
    + intros l.
      assert (A : forall c, tlist (ready_add t (set_priority p th) c) l =
        if decide (LReady p = l) then tlist c (LReady p) ++ [t] else tlist c l)
        by (intros c; apply (tlist_insert c)).
      cbn [sc upd_sc]. rewrite A. change (tlist (with_threads _ (ready_del t th (sc s)))) with
        (tlist (ready_del t th (sc s))).
      rewrite !ready_del_lists. case_decide; subst; case_decide; simplify_eq; done.
  - split; [|done]. by eexists.
Qed.

End Priority.

Lemma change_priority_ok_witness :
  wp (rt_thread_control work_t RT_THREAD_CTRL_CHANGE_PRIORITY 10) (fun r s' =>
    r = RT_EOK /\ wf_kst s' /\ tlist (sc s') (LReady 10) = [main_t; peer_t; work_t] /\
    tlist (sc s') (LReady 20) = []) running.
Proof.
  destruct (lookup_stat running work_t RT_THREAD_READY) as (th & E & Hs);
    [vm_compute; reflexivity|].
  eapply wp_mono; [apply (change_priority_ok running work_t 10 th wf_running E)|].
  - rewrite Hs. discriminate.
  - lia.
  - intros r s' (R & W & _ & T). split; [exact R|]. split; [exact W|].
    rewrite !T, Hs. split; vm_compute; reflexivity.
Defined.

(** ** Several threads made ready *)

Lemma filter_none {A} (P : A -> Prop) `{!forall x, Decision (P x)} (l : list A) :
  (forall x, x ∈ l -> ~ P x) -> filter P l = [].
Proof.
  induction l as [|x l IH]; intros Hl; [done|]. rewrite filter_cons_False by (apply Hl; by left).
  apply IH. intros y Hy. apply Hl. by right.
Qed.

Lemma sorted_map (R R' : oid -> oid -> Prop) (l : list oid) :
  (forall a b, a ∈ l -> b ∈ l -> R a b -> R' a b) -> StronglySorted R l -> StronglySorted R' l.
Proof.
  intros E. induction 1 as [|x l Hs IH Hx]; [constructor|]. constructor.
  - apply IH. intros a b Ha Hb. apply E; by right.
  - apply Forall_forall. intros y Hy. apply E; [by left|by right|].
    rewrite Forall_forall in Hx. by apply Hx.
Qed.

(** The threads [ts], in this order, have been made ready, each with the change
    [f] made by the one who woke it. *)
Record waked (f : Z -> rt_thread -> rt_thread) (ts : list Z) (c c' : sched) : Prop := {
  wa_threads : forall u, s_threads c' !! u =
    if decide (u ∈ ts)
    then (fun th => thr_stat RT_THREAD_READY (f u th)) <$> s_threads c !! u
    else s_threads c !! u;
  wa_lists : forall l, tlist c' l = filter (fun u => u ∉ ts) (tlist c l) ++
    match l with
    | LReady p => filter (fun u => t_current_priority <$> s_threads c !! u = Some p) ts
    | _ => []
    end;
}.

Lemma filter_ext_in {A} (P Q : A -> Prop) `{!forall x, Decision (P x)} `{!forall x, Decision (Q x)}
    (l : list A) : (forall x, x ∈ l -> P x <-> Q x) -> filter P l = filter Q l.
Proof.
  induction l as [|x l IH]; intros E; [done|]. rewrite !filter_cons.
  rewrite (IH ltac:(intros; apply E; by right)). specialize (E x ltac:(by left)).
  case_decide; case_decide; tauto.
Qed.

Lemma waked_nil (f : Z -> rt_thread -> rt_thread) (c c' : sched) :
  s_threads c' = s_threads c -> (forall l, tlist c' l = tlist c l) -> waked f [] c c'.
Proof.
  intros E1 E2. constructor.
  - intros u. rewrite decide_False by set_solver. by rewrite E1.
  - intros l. rewrite E2, filter_all by set_solver. by destruct l; rewrite app_nil_r.
Qed.

Lemma waked_cons (f : Z -> rt_thread -> rt_thread) (t : Z) (ts : list Z) (c1 c2 c3 : sched) :
  t ∉ ts -> waked f [t] c1 c2 -> waked f ts c2 c3 -> waked f (t :: ts) c1 c3.
Proof.
  intros Hn A B.
  assert (P : forall u, u ∈ ts -> s_threads c2 !! u = s_threads c1 !! u).
  { intros u Hu. rewrite (wa_threads _ _ _ _ A), decide_False; [done|]. set_solver. }
  constructor.
  - intros u. rewrite (wa_threads _ _ _ _ B). case_decide as D.
    + rewrite P, (decide_True (P := u ∈ t :: ts)) by set_solver. done.
    + rewrite (wa_threads _ _ _ _ A). case_decide; case_decide; set_solver.
  - intros l. rewrite (wa_lists _ _ _ _ B), (wa_lists _ _ _ _ A), filter_app, <- app_assoc. f_equal.
    + rewrite list_filter_filter. apply list_filter_iff. intros u. set_solver.
    + destruct l as [p| | |]; try done. rewrite !filter_cons.
      rewrite (filter_ext_in (fun u => t_current_priority <$> s_threads c2 !! u = Some p)
        (fun u => t_current_priority <$> s_threads c1 !! u = Some p) ts)
        by (intros u Hu; by rewrite P).
      assert (E : filter (fun u => u ∉ ts) (if decide (t_current_priority <$> s_threads c1 !! t = Some p)
        then t :: filter (fun u => t_current_priority <$> s_threads c1 !! u = Some p) [] else
        filter (fun u => t_current_priority <$> s_threads c1 !! u = Some p) []) =
        (if decide (t_current_priority <$> s_threads c1 !! t = Some p) then [t] else [])).
      { case_decide; cbn; [|done]. by rewrite decide_True. }
      rewrite E. by case_decide.
Qed.

Lemma waked_after (f : Z -> rt_thread -> rt_thread) (ts : list Z) (c2 c1 c3 : sched) :
  waked f ts c1 c2 -> s_threads c3 = s_threads c2 -> (forall l, tlist c3 l = tlist c2 l) ->
  waked f ts c1 c3.
Proof.
  intros A E1 E2. constructor.
  - intros u. rewrite E1. apply A.
  - intros l. rewrite E2. apply A.
Qed.

Lemma resumed_waked (s : kst) (t : Z) (th : rt_thread) (f : rt_thread -> rt_thread) :
  s_threads (sc s) !! t = Some th -> t_current_priority (f th) = t_current_priority th ->
  waked (fun _ => f) [t] (sc s) (sc (resumed t (f th) (set_thread t (f th) s))).
Proof.
  intros Ht Ep. constructor.
  - intros u. cbn. rewrite stopped_sc. cbn. rewrite insert_insert_eq, lookup_insert.
    case_decide; subst.
    + rewrite decide_True by set_solver. by rewrite Ht.
    + by rewrite decide_False by set_solver.
  - intros l. rewrite resumed_lists, Ep.
    change (tlist (sc (set_thread t (f th) s))) with (tlist (sc s)).
    assert (F : forall x, filter (fun u => u ∉ [t]) x = remove_tid t x).
    { intros x. apply filter_ext_in. set_solver. }
    rewrite F. destruct l as [p| | |]; try (rewrite decide_False by done; by rewrite app_nil_r).
    rewrite filter_cons, Ht. cbn. case_decide; case_decide; simplify_eq; try done.
    by rewrite app_nil_r.
Qed.

Lemma wf_rescheduled (s s' : kst) : wf_kst s -> rescheduled s s' -> wf_kst s'.
Proof. intros W (c' & S & ->). by apply wf_kst_scheduled. Qed.

