(* ===== verification/Frame.v ===== *)
(** * What an operation leaves alone

    [calm ts s s']: between [s] and [s'] only the timers of the threads [ts] were
    touched; the flags of the objects, the tick and the two nesting counts are as
    they were.  The steps the operations are made of are calm, and calm steps
    compose. *)

From Stdlib Require Import Lia.
From S2P Require Import Prelude KService Heap KState Scheduler Object Timer Thread.
From S2P Require Import Invariant Sample ThreadSpec.

Definition not_of (ts : list Z) (o : oid) : Prop := forall t, t ∈ ts -> o <> ThreadTimer t.

Record calm (ts : list Z) (s s' : kst) : Prop := {
  cm_row : forall o, not_of ts o ->
    (o ∈ trow (tm s') <-> o ∈ trow (tm s)) /\ remaining (tm s') o = remaining (tm s) o;
  cm_obj : forall a, ob_objs (ob s') !! Obj a = ob_objs (ob s) !! Obj a;
  cm_tick : ts_tick (tm s') = ts_tick (tm s);
  cm_lock : s_lock_nest (sc s') = s_lock_nest (sc s);
  cm_nest : s_interrupt_nest (sc s') = s_interrupt_nest (sc s);
}.

#[export] Instance calm_preorder (ts : list Z) : PreOrder (calm ts).
Proof.
  split; [by constructor|]. intros s1 s2 s3 A B. constructor; try (etrans; [apply B|apply A]).
  intros o Ho. destruct (cm_row _ _ _ A o Ho) as [A1 A2], (cm_row _ _ _ B o Ho) as [B1 B2].
  split; [by rewrite B1|congruence].
Qed.

Lemma calm_weaken (ts us : list Z) (s s' : kst) : ts ⊆ us -> calm ts s s' -> calm us s s'.
Proof.
  intros I C. constructor; try apply C. intros o Ho. apply C. intros t Ht. apply Ho, I, Ht.
Qed.

(** The steps. *)
Lemma calm_upd_ip (ts : list Z) (f : ipcs -> ipcs) (s : kst) : calm ts s (upd_ip f s).
Proof. done. Qed.

Lemma calm_set_thread (ts : list Z) (t : Z) (th : rt_thread) (s : kst) : calm ts s (set_thread t th s).
Proof. done. Qed.

Lemma calm_upd_sc (ts : list Z) (f : sched -> sched) (s : kst) :
  s_lock_nest (f (sc s)) = s_lock_nest (sc s) ->
  s_interrupt_nest (f (sc s)) = s_interrupt_nest (sc s) -> calm ts s (upd_sc f s).
Proof. done. Qed.

Lemma calm_rescheduled (ts : list Z) (s s' : kst) : rescheduled s s' -> calm ts s s'.
Proof.
  intros R. destruct (rescheduled_same _ _ R) as (_ & _ & _ & E1 & E2 & E3 & E4 & _).
  constructor; by rewrite ?E3, ?E4.
Qed.

Lemma calm_stopped (t : Z) (s : kst) : wf_kst s -> calm [t] s (timer_stopped (ThreadTimer t) s).
Proof.
  intros W. destruct (stopped_same s (ThreadTimer t)) as (E1 & _ & _ & _ & E2 & E3 & _).
  constructor; rewrite ?E1, ?E3; try done.
  - intros o Ho. specialize (Ho t ltac:(by left)). split.
    + rewrite stopped_row by apply W. rewrite list_elem_of_filter. tauto.
    + unfold remaining. by rewrite E2, E3.
  - intros a. by apply stopped_objs.
Qed.

Lemma calm_suspended (t : Z) (th : rt_thread) (s : kst) : wf_kst s -> calm [t] s (suspended t th s).
Proof.
  intros W. etrans; [by apply calm_stopped|]. apply calm_upd_sc;
    unfold unready, ready_del; by case_bool_decide.
Qed.

Lemma calm_resumed (t : Z) (th : rt_thread) (s : kst) : wf_kst s -> calm [t] s (resumed t th s).
Proof. intros W. etrans; [by apply calm_stopped|]. by apply calm_upd_sc. Qed.

Lemma calm_armed (t time : Z) (s : kst) : calm [t] s (armed t time s).
Proof.
  unfold armed. destruct (ts_timers (tm s) !! ThreadTimer t) as [x|]; [|done].
  constructor; try done.
  - intros o Ho. specialize (Ho t ltac:(by left)). split.
    + unfold timer_started, trow at 1. cbn. rewrite elem_of_insert_by, list_elem_of_filter. tauto.
    + unfold remaining. cbn. rewrite lookup_insert_ne by done. by rewrite lookup_alter_ne by done.
  - intros a. cbn. by rewrite lookup_alter_ne by done.
Qed.

(** ** The scheduling policy *)

(** The first thread of the highest queue that is not empty runs. *)
Definition on_policy (s : kst) : Prop := exists p, highest (sc s) p (s_current (sc s)).

Lemma on_policy_lists (s s' : kst) :
  (forall l, tlist (sc s') l = tlist (sc s) l) -> s_current (sc s') = s_current (sc s) ->
  on_policy s -> on_policy s'.
Proof. intros E Ec [p H]. exists p. rewrite Ec. by eapply highest_lists. Qed.

Lemma on_policy_rescheduled (s s' : kst) :
  rescheduled s s' -> s_lock_nest (sc s) = 0 -> on_policy s'.
Proof.
  intros R L. destruct (rescheduled_current _ _ R L) as [p H]. exists p.
  eapply highest_lists; [|exact H]. apply (rescheduled_same _ _ R).
Qed.
