(* ===== verification/Clock.v ===== *)
(** * The tick and the idle thread (Kernel/clock.c, Kernel/idle.c)

    [rt_tick_increase] is called by the clock interrupt. *)

From Stdlib Require Import Lia Sorted.
From S2P Require Import Prelude KService Heap KState Scheduler Object Timer Thread.
From S2P Require Import Invariant Sample ThreadSpec Frame.

Section UserCode.
(** What a function of the user code does: a timeout function, the cleanup
    function of a thread. *)
Variable user_fn : Z -> Z -> K unit.

Definition call_timeout (f : timeout_fn) (p : Z) : K unit :=
  match f with
  | F_rt_thread_timeout => rt_thread_timeout p
  | F_user f => user_fn f p
  end.

Definition rt_tick_set (tick : Z) : K unit := modify (upd_tm (with_tick (u32 tick))).

(** [fuel] bounds the loop of [rt_timer_check]. *)
Definition rt_tick_increase (fuel : nat) : K unit :=
  _ ← modify (upd_tm (fun c => with_tick (u32 (ts_tick c + 1)) c));
  t ← rt_thread_self;
  _ ← upd_thread t (fun th => thr_remaining (u32 (t_remaining_tick th - 1)) th);
  th ← get_thread t;
  _ ← kwhen (t_remaining_tick th =? 0)
        (_ ← upd_thread t (fun th => thr_remaining (t_init_tick th) th);
         _ ← rt_thread_yield;
         mret tt);
  rt_timer_check call_timeout fuel.

(** [SysTick_Handler]: the tick inside [rt_interrupt_enter] and
    [rt_interrupt_leave]. *)
Definition SysTick_Handler (fuel : nat) : K unit :=
  _ ← rt_interrupt_enter;
  _ ← rt_tick_increase fuel;
  rt_interrupt_leave.

Definition rt_tick_from_millisecond (ms : Z) : Z :=
  u32 (RT_TICK_PER_SECOND * ms + 999) / 1000.

(** [_has_defunct_thread] *)
Definition _has_defunct_thread : K bool := b ← rt_list_isempty LDefunct; mret (negb b).

(** One round of the loop; [false] ends it.  No interrupt handler empties the
    defunct list, so the second test of the list is true when the first is. *)
Definition idle_round : K bool :=
  _ ← RT_DEBUG_NOT_IN_INTERRUPT;
  t ← first_entry LDefunct;
  _ ← tlist_remove t;
  th ← get_thread t;
  _ ← kwhen (negb (t_cleanup th =? RT_NULL)) (user_fn (t_cleanup th) t);
  b ← rt_object_is_systemobject (Obj t);
  if (b : bool) then mret false else
  th ← get_thread t;
  _ ← RT_KERNEL_FREE (t_stack_addr th);
  _ ← rt_object_delete t;
  mret true.

(** [fuel] bounds the number of rounds. *)
Fixpoint rt_thread_idle_excute (fuel : nat) : K unit :=
  match fuel with
  | O => hang
  | S fuel =>
      b ← _has_defunct_thread;
      if (b : bool) then
        go ← idle_round;
        if (go : bool) then rt_thread_idle_excute fuel else mret tt
      else mret tt
  end.

End UserCode.

(** ** The timer list *)

(** Starting a timer moves it to its place in the list: it leaves the list
    if it was in it, its timeout is [init_tick] ticks from now, and it goes
    behind the timers that expire before it or at the same tick; the list stays
    ordered by the ticks left, over the wrap of the tick counter. *)
Theorem rt_timer_start_ok (o : oid) (x : rt_timer) (y : rt_object) (s : kst) :
  oid_addr o <> RT_NULL -> wf_row (tm s) -> ts_timers (tm s) !! o = Some x ->
  ob_objs (ob s) !! o = Some y -> 0 <= tm_init_tick x < 2 ^ 31 - 1 ->
  wp (rt_timer_start o) (fun r s' =>
    r = RT_EOK /\ wf_row (tm s') /\ remaining (tm s') o = tm_init_tick x /\
    trow (tm s') = insert_by (remaining (tm s)) (tm_init_tick x) o
                     (filter (fun p => p <> o) (trow (tm s))) /\
    (forall p, p <> o -> ts_timers (tm s') !! p = ts_timers (tm s) !! p) /\
    active <$> (ob_objs (ob s') !! o) = Some true /\
    sc s' = sc s /\ ip s' = ip s) s.
Proof.
  intros Ho W Hx Hy Hi. eapply wp_timer_start; try done. split_and!; try done.
  - by apply wf_row_started.
  - unfold remaining. cbn. rewrite lookup_insert_eq. cbn. by apply s32_add.
  - intros p Hne. cbn. by rewrite lookup_insert_ne by done.
  - cbn. rewrite lookup_alter_eq, Hy. cbn. f_equal. apply active_set.
Qed.

(** the next timeout of the system is the earliest one: no active timer has
    fewer ticks left. *)
Theorem rt_timer_next_timeout_tick_ok (s : kst) :
  wf_row (tm s) ->
  wp rt_timer_next_timeout_tick (fun r s' => s' = s /\
    match trow (tm s) with
    | [] => r = RT_TICK_MAX
    | _ => forall o, o ∈ trow (tm s) -> s32 (r - ts_tick (tm s)) <= remaining (tm s) o
    end) s.
Proof.
  intros W. unfold rt_timer_next_timeout_tick, rt_timer_list_next_timeout, last_row.
  repeat kstep. rewrite (wr_rows _ W). cbn. pose proof (wr_sorted _ W) as S.
  pose proof (wr_timer _ W) as T. destruct (trow (tm s)) as [|p row]; [by kstep|].
  destruct (T p ltac:(set_solver)) as [x Hx]. repeat kstep. split; [done|].
  assert (E : s32 (tm_timeout_tick x - ts_tick (tm s)) = remaining (tm s) p)
    by (unfold remaining; by rewrite Hx).
  rewrite E. inversion S as [|? ? _ Hp]; subst. rewrite Forall_forall in Hp.
  intros o [->|Ho]%elem_of_cons; [lia|]. by apply Hp.
Qed.

(** The main thread of the sample kernel sleeps for 50 ticks, the peer for 20. *)
Definition sleeping : kst :=
  after (rt_thread_sleep 20) (after (rt_thread_sleep 50) running).

Lemma wf_sleeping : wf_kst sleeping.
Proof. apply wf_check. vm_compute. reflexivity. Qed.

Lemma lookup_timer (s : kst) (o : oid) (k : Z) :
  tm_init_tick <$> ts_timers (tm s) !! o = Some k -> is_Some (ob_objs (ob s) !! o) ->
  exists x y, ts_timers (tm s) !! o = Some x /\ tm_init_tick x = k /\ ob_objs (ob s) !! o = Some y.
Proof. intros H [y Hy]. destruct (ts_timers (tm s) !! o) as [x|]; [|done]. injection H as <-. eauto. Qed.

Lemma rt_timer_start_ok_witness :
  wp (rt_timer_start (ThreadTimer main_t)) (fun r s' => r = RT_EOK /\ wf_row (tm s') /\
    remaining (tm s') (ThreadTimer main_t) = 50 /\
    trow (tm s') = [ThreadTimer peer_t; ThreadTimer main_t]) sleeping.
Proof.
  destruct (lookup_timer sleeping (ThreadTimer main_t) 50) as (x & y & Hx & Hk & Hy);
    [vm_compute; reflexivity|vm_compute; eauto|].
  eapply wp_mono; [apply (rt_timer_start_ok (ThreadTimer main_t) x y sleeping)|].
  - discriminate.
  - apply wf_sleeping.
  - exact Hx.
  - exact Hy.
  - rewrite Hk. lia.
  - intros r s' (R & W & T & E & _). rewrite Hk in *. split; [exact R|]. split; [exact W|].
    split; [exact T|]. rewrite E. vm_compute. reflexivity.
Defined.

Lemma rt_timer_next_timeout_tick_ok_witness :
  wp rt_timer_next_timeout_tick (fun r s' => s' = sleeping /\ s32 (r - 0) <= 20) sleeping.
Proof.
  eapply wp_mono; [apply rt_timer_next_timeout_tick_ok; apply wf_sleeping|].
  intros r s' [E H]. split; [exact E|].
  assert (Er : trow (tm sleeping) = [ThreadTimer peer_t; ThreadTimer main_t])
    by (vm_compute; reflexivity).
  rewrite Er in H. specialize (H (ThreadTimer peer_t) ltac:(by left)).
  assert (Ek : remaining (tm sleeping) (ThreadTimer peer_t) = 20) by (vm_compute; reflexivity).
  assert (E0 : ts_tick (tm sleeping) = 0) by (vm_compute; reflexivity).
  rewrite Ek, E0 in H. exact H.
Defined.

(** ** The timeout of a waiting thread *)

Definition timed_out (th : rt_thread) : rt_thread := thr_error (- RT_ETIMEOUT) th.

(** The state after the thread has been made ready. *)
Definition timeout_sched (t : Z) (th : rt_thread) (c : sched) : sched :=
  ready_add t (timed_out th) (unlink t (with_threads (<[t := timed_out th]> (s_threads c)) c)).

Lemma timeout_moved (c : sched) (t : Z) (th : rt_thread) :
  wf_sched c -> s_threads c !! t = Some th -> t_stat th = RT_THREAD_SUSPEND ->
  thread_moved t (thr_stat RT_THREAD_READY (timed_out th))
    (Some (LReady (t_current_priority th))) c (timeout_sched t th c).
Proof.
  intros W Ht Hs.
  assert (M : thread_moved t (timed_out th) None c
    (unlink t (with_threads (<[t := timed_out th]> (s_threads c)) c))).
  { eapply moved_unlink; try done; cbn; by rewrite Hs. }
  destruct (ws_prio c W t th Ht) as [Hp Hm]; [by rewrite Hs|].
  eapply moved_trans; [exact M|].
  apply (moved_ready_add _ (wf_moved _ _ _ _ _ W M) t (timed_out th)); try done.
  - by eapply moved_lookup.
  - by eapply moved_unlinked.
Qed.

Lemma timeout_waked (c : sched) (t : Z) (th : rt_thread) :
  s_threads c !! t = Some th -> waked (fun _ => timed_out) [t] c (timeout_sched t th c).
Proof.
  intros Ht. constructor.
  - intros u. cbn. rewrite insert_insert_eq. rewrite lookup_insert. case_decide; subst.
    + rewrite decide_True by set_solver. by rewrite Ht.
    + by rewrite decide_False by set_solver.
  - intros l.
    assert (A : forall c, tlist (ready_add t (timed_out th) c) l =
      if decide (LReady (t_current_priority th) = l)
      then tlist c (LReady (t_current_priority th)) ++ [t] else tlist c l)
      by (intros c'; apply (tlist_insert c')).
    unfold timeout_sched. rewrite A. unfold unlink. rewrite !tlist_removed.
    change (tlist (with_threads _ c)) with (tlist c).
    assert (F : forall x, filter (fun u => u ∉ [t]) x = remove_tid t x).
    { intros x. apply filter_ext_in. set_solver. }
    rewrite F. destruct l as [p| | |]; try (rewrite decide_False by done; by rewrite app_nil_r).
    rewrite filter_cons, Ht. cbn. case_decide; case_decide; simplify_eq; try done.
    by rewrite app_nil_r.
Qed.

Lemma wp_thread_timeout (s : kst) (t : Z) (th : rt_thread) (Q : unit -> kst -> Prop) :
  wf_sched (sc s) -> 0 < t -> s_threads (sc s) !! t = Some th -> t_stat th = RT_THREAD_SUSPEND ->
  (forall s', rescheduled (upd_sc (timeout_sched t th) s) s' -> Q tt s') ->
  wp (rt_thread_timeout t) Q s.
Proof.
  intros W Ha Ht Hs HQ. unfold rt_thread_timeout. kstep. kstep; [by apply neqb_null|].
  kstep. kstep. kstep. kstep; [by rewrite Hs|]. repeat kstep.
  destruct (ws_prio _ W t th Ht) as [Hp Hm]; [by rewrite Hs|].
  eapply (wp_insert_thread t (timed_out th)).
  - unfold RT_NULL. lia.
  - cbn. apply lookup_insert_eq.
  - exact (unlinked_removed (with_threads (<[t := timed_out th]> (s_threads (sc s))) (sc s)) t).
  - done.
  - pose proof (timeout_moved _ t th W Ht Hs) as M.
    change (upd_sc _ _) with (upd_sc (timeout_sched t th) s).
    pose proof (wf_moved _ _ _ _ _ W M) as W1.
    apply wp_schedule; [exact W1| |].
    + eapply group_nonzero; [exact W1|by eapply moved_lookup|done].
    + intros c' S. apply HQ. by exists c'.
Qed.

(** A timer that is not in the list is marked inactive. *)
Lemma wf_kst_inactive (s : kst) (o : oid) :
  wf_kst s -> o ∉ trow (tm s) -> wf_kst (upd_ob (obj_flag o (unset RT_TIMER_FLAG_ACTIVATED)) s).
Proof.
  intros W Ho. constructor; try apply W.
  - intros p Hp. cbn. rewrite lookup_alter_ne by (intros ->; done). by apply (wk_flag _ W).
  - intros t th Ht Hc. destruct (wk_timer _ W t th Ht Hc) as (x & y & H1 & H2 & H3 & H4).
    cbn. destruct (decide (o = ThreadTimer t)) as [->|].
    + rewrite lookup_alter_eq, H4. cbn. eauto 8.
    + rewrite lookup_alter_ne by done. eauto 8.
  - apply oneshot_flag; [intros x; apply unset_periodic|]. by apply wk_oneshot.
Qed.

(** The test of the code, on 32-bit differences. *)
Lemma expired_test (now b : Z) :
  -1 <= s32 (b - now) < 2 ^ 31 - 1 \/ s32 (b - now) <= 0 ->
  - (2 ^ 31 - 2) <= s32 (b - now) ->
  (u32 (now - b) <? RT_TICK_MAX / 2) = (s32 (b - now) <=? 0).
Proof.
  unfold sbits, ubits. change (32 - 1) with 31. change (RT_TICK_MAX / 2) with 2147483647.
  change (2 ^ 31) with 2147483648. change (2 ^ 32) with 4294967296.
  pose proof (Z.div_mod (b - now + 2147483648) 4294967296 ltac:(lia)) as E.
  pose proof (Z.mod_pos_bound (b - now + 2147483648) 4294967296 ltac:(lia)) as B.
  set (x := (b - now + 2147483648) mod 4294967296) in *.
  set (q := (b - now + 2147483648) / 4294967296) in *.
  intros H1 H2. replace (now - b) with (2147483648 - x + (- q) * 4294967296) by lia.
  rewrite Z.mod_add by lia. destruct (Z.leb_spec (x - 2147483648) 0).
  - rewrite Z.mod_small by lia. apply Z.ltb_lt. lia.
  - replace (2147483648 - x) with (2147483648 - x + 4294967296 + (-1) * 4294967296) by lia.
    rewrite Z.mod_add, Z.mod_small by lia. apply Z.ltb_ge. lia.
Qed.

(** ** The loop over the expired timers *)

(** What the loop leaves alone. *)
Definition kept (s s' : kst) : Prop :=
  ts_timers (tm s') = ts_timers (tm s) /\ ts_tick (tm s') = ts_tick (tm s) /\ ip s' = ip s /\
  s_lock_nest (sc s') = s_lock_nest (sc s) /\ s_interrupt_nest (sc s') = s_interrupt_nest (sc s) /\
  (forall a, ob_objs (ob s') !! Obj a = ob_objs (ob s) !! Obj a) /\
  (s_lock_nest (sc s) = 0 -> on_policy s -> on_policy s').

Lemma kept_trans (s1 s2 s3 : kst) : kept s1 s2 -> kept s2 s3 -> kept s1 s3.
Proof.
  intros (A1 & A2 & A3 & A4 & A5 & A6 & A7) (B1 & B2 & B3 & B4 & B5 & B6 & B7).
  split_and!; try congruence.
  intros L P. apply B7; [congruence|by apply A7].
Qed.

Lemma kept_remaining (s s' : kst) (o : oid) : kept s s' -> remaining (tm s') o = remaining (tm s) o.
Proof. intros (E1 & E2 & _). unfold remaining. by rewrite E1, E2. Qed.

Lemma remove_head (o : oid) (l : list oid) :
  NoDup (o :: l) -> filter (fun p => p <> o) (o :: l) = l.
Proof.
  intros N. inversion N; subst. rewrite filter_cons, decide_False by auto.
  apply filter_all. intros x Hx ->. done.
Qed.

Section Loop.
Variable user_fn : Z -> Z -> K unit.

(** One round on the timer of a waiting thread. *)
Lemma wp_check_round (s : kst) (t : Z) (row : list oid) (fuel : nat) (Q : unit -> kst -> Prop) :
  wf_kst s -> trow (tm s) = ThreadTimer t :: row -> remaining (tm s) (ThreadTimer t) <= 0 ->
  (forall s', wf_kst s' -> waked (fun _ => timed_out) [t] (sc s) (sc s') -> trow (tm s') = row -> kept s s' ->
     wp (timer_check_loop (call_timeout user_fn) fuel (ts_tick (tm s'))) Q s') ->
  wp (timer_check_loop (call_timeout user_fn) (S fuel) (ts_tick (tm s))) Q s.
Proof.
  intros W Er Hk HQ. pose proof (wk_row _ W) as Wr.
  assert (Hin : ThreadTimer t ∈ trow (tm s)) by (rewrite Er; by left).
  destruct (wk_sleep _ W t Hin) as (th & Ht & Hs).
  destruct (wk_timer _ W t th Ht ltac:(by rewrite Hs)) as (x & y & Hx & Hf & Hp & Hy).
  pose proof (wk_addr _ W t th Ht) as Ha. pose proof (wr_window _ Wr _ Hin) as Hwin.
  assert (Erem : remaining (tm s) (ThreadTimer t) = s32 (tm_timeout_tick x - ts_tick (tm s)))
    by (unfold remaining; by rewrite Hx).
  cbn [timer_check_loop]. unfold last_row. repeat kstep.
  change (default [] (ts_rows (tm s) !! _)) with (trow (tm s)). rewrite Er. repeat kstep.
  rewrite expired_test by lia. rewrite <- Erem, (proj2 (Z.leb_le _ _) Hk).
  unfold _rt_timer_remove. repeat kstep. rewrite Hf, Hp. cbn [call_timeout].
  apply (wp_thread_timeout _ t th); try done; [apply W|]. intros s' R.
  set (s0 := upd_sc (timeout_sched t th) (upd_tm (tm_remove (ThreadTimer t)) s)).
  change (rescheduled s0 s') in R.
  destruct (rescheduled_same _ _ R) as (E1 & E2 & _ & E4 & E5 & E6 & E7 & E8 & _).
  do 2 kstep. kstep. eapply wp_get_flag; [rewrite E7; exact Hy|]. kstep.
  rewrite (wk_oneshot _ W t y Hy), Z.eqb_refl. cbn [negb andb].
  eapply wp_clear_flag; [rewrite E7; exact Hy|].
  set (s1 := upd_ob _ s').
  assert (Trow : trow (tm s1) = row).
  { change (trow (tm s') = row). rewrite E6.
    change (trow (tm_remove (ThreadTimer t) (tm s)) = row).
    rewrite trow_remove, Er by apply Wr. apply remove_head. rewrite <- Er. apply Wr. }
  pose proof (timeout_moved _ t th (wk_sched _ W) Ht Hs) as M.
  change (ts_tick (tm s')) with (ts_tick (tm s1)). apply HQ.
  - apply wf_kst_inactive.
    + eapply wf_rescheduled; [|exact R].
      apply (wf_kst_removed s s0 t th _ _ W Ht M); [by rewrite Hs|done|done].
    + change (tm s') with (tm s1). rewrite Trow. pose proof (wr_nodup _ Wr) as N.
      rewrite Er in N. by inversion N.
  - apply (waked_after _ _ (timeout_sched t th (sc s))); [by apply timeout_waked|exact E1|exact E2].
  - exact Trow.
  - unfold kept. change (tm s1) with (tm s'). rewrite E6.
    split_and!; [done|done|exact E8|exact E4|exact E5| |].
    + intros a. change (ob_objs (ob s1) !! Obj a) with
        (ob_objs (obj_flag (ThreadTimer t) (unset RT_TIMER_FLAG_ACTIVATED) (ob s')) !! Obj a).
      rewrite E7. cbn. by rewrite lookup_alter_ne.
    + intros L _. by apply (on_policy_rescheduled _ _ R).
Qed.

(** All expired timers, then the loop stops at the first that is not. *)
Lemma wp_check_loop (ts : list Z) (row : list oid) (s : kst) (fuel : nat) :
  wf_kst s -> trow (tm s) = map ThreadTimer ts ++ row ->
  (forall t, t ∈ ts -> remaining (tm s) (ThreadTimer t) <= 0) ->
  (forall o, head row = Some o -> 0 < remaining (tm s) o) -> (length ts < fuel)%nat ->
  wp (timer_check_loop (call_timeout user_fn) fuel (ts_tick (tm s))) (fun _ s' =>
    wf_kst s' /\ waked (fun _ => timed_out) ts (sc s) (sc s') /\ trow (tm s') = row /\ kept s s') s.
Proof.
  revert s fuel. induction ts as [|t ts IH]; intros s fuel W Er He Hr Hf.
  - destruct fuel as [|fuel]; [cbn in Hf; lia|]. cbn [timer_check_loop]. unfold last_row.
    repeat kstep. change (default [] (ts_rows (tm s) !! _)) with (trow (tm s)). rewrite Er. cbn [map app].
    assert (Done : wf_kst s /\ waked (fun _ => timed_out) [] (sc s) (sc s) /\ trow (tm s) = row /\ kept s s)
      by (split_and!; [done|by apply waked_nil|exact Er|done..]).
    destruct row as [|o row]; [by kstep|].
    assert (Ho : o ∈ trow (tm s)) by (rewrite Er; by left).
    destruct (wr_timer _ (wk_row _ W) o Ho) as [x Hx].
    pose proof (wr_window _ (wk_row _ W) o Ho) as Hwin. specialize (Hr o eq_refl).
    unfold remaining in Hr, Hwin. rewrite Hx in Hr, Hwin.
    repeat kstep. rewrite expired_test by lia. rewrite (proj2 (Z.leb_gt _ _) Hr). by kstep.
  - destruct fuel as [|fuel]; [cbn in Hf; lia|]. cbn [map app] in Er.
    assert (Hn : t ∉ ts).
    { intros Hin. pose proof (wr_nodup _ (wk_row _ W)) as N. rewrite Er in N.
      inversion N as [|? ? Hnot _]; subst. apply Hnot, elem_of_app. left.
      by apply list_elem_of_fmap_2. }
    eapply wp_check_round; [done|exact Er|apply He; by left|].
    intros s1 W1 A1 R1 K1.
    eapply wp_mono; [apply (IH s1 fuel W1 R1)|].
    + intros u Hu. rewrite (kept_remaining _ _ _ K1). apply He. by right.
    + intros o Ho. rewrite (kept_remaining _ _ _ K1). by apply Hr.
    + cbn in Hf. lia.
    + intros _ s' (W2 & A2 & R2 & K2). split_and!; try done.
      * by eapply waked_cons.
      * by eapply kept_trans.
Qed.

End Loop.

(** ** [rt_timer_check] *)

Definition tid (o : oid) : Z := match o with ThreadTimer t => t | Obj a => a end.

(** The threads whose time is over, in the order of the timer list. *)
Definition expired (c : timers) : list Z :=
  map tid (filter (fun o => remaining c o <= 0) (trow c)).

Definition only_threads (c : timers) : Prop :=
  forall o, o ∈ trow c -> remaining c o <= 0 -> exists t, o = ThreadTimer t.

Lemma sorted_split (r : oid -> Z) (k : Z) (l : list oid) :
  StronglySorted (fun a b => r a <= r b) l ->
  l = filter (fun o => r o <= k) l ++ filter (fun o => k < r o) l.
Proof.
  induction 1 as [|x l _ IH Hx]; [done|]. rewrite !filter_cons.
  destruct (decide (r x <= k)) as [Hk|Hk].
  - rewrite (decide_False (P := k < r x)) by lia. cbn. by rewrite <- IH.
  - rewrite (decide_True (P := k < r x)) by lia. rewrite Forall_forall in Hx.
    assert (E : filter (fun o => r o <= k) l = []).
    { apply filter_none. intros y Hy. specialize (Hx y Hy). lia. }
    rewrite E in IH |- *. cbn in *. by rewrite <- IH.
Qed.

Lemma row_split (c : timers) :
  wf_row c -> only_threads c ->
  trow c = map ThreadTimer (expired c) ++ filter (fun o => 0 < remaining c o) (trow c).
Proof.
  intros W O. rewrite (sorted_split _ 0 _ (wr_sorted _ W)) at 1. f_equal.
  unfold expired. rewrite map_map. rewrite <- (map_id (filter _ _)) at 1. apply map_ext_in.
  intros o Ho%list_elem_of_In. apply list_elem_of_filter in Ho as [H1 H2].
  by destruct (O o H2 H1) as [t ->].
Qed.

Lemma in_expired (c : timers) (t : Z) :
  only_threads c -> t ∈ expired c -> ThreadTimer t ∈ trow c /\ remaining c (ThreadTimer t) <= 0.
Proof.
  intros O (o & -> & Ho)%list_elem_of_fmap. apply list_elem_of_filter in Ho as [H1 H2].
  by destruct (O o H2 H1) as [t ->].
Qed.

Lemma wp_timer_check (user_fn : Z -> Z -> K unit) (s : kst) (fuel : nat) :
  wf_kst s -> only_threads (tm s) -> (length (expired (tm s)) < fuel)%nat ->
  wp (rt_timer_check (call_timeout user_fn) fuel) (fun _ s' =>
    wf_kst s' /\ waked (fun _ => timed_out) (expired (tm s)) (sc s) (sc s') /\
    trow (tm s') = filter (fun o => 0 < remaining (tm s) o) (trow (tm s)) /\ kept s s') s.
Proof.
  intros W O Hf. unfold rt_timer_check. kstep. kstep.
  apply wp_check_loop; try done.
  - apply row_split; [apply W|done].
  - intros t Ht. by apply in_expired.
  - intros o Ho. apply head_Some_elem_of, list_elem_of_filter in Ho. apply Ho.
Qed.

(** C11: with enough rounds, [rt_timer_check] ends, and it has waked exactly the
    threads whose time is over, in the order of their timeouts: each is ready
    with error -RT_ETIMEOUT at the end of the queue of its priority and in no
    list of waiting threads, every other thread and the order of the others are
    as before, and exactly the timers that have not expired are left. *)
Theorem rt_timer_check_ok (user_fn : Z -> Z -> K unit) (s : kst) (fuel : nat) :
  wf_kst s -> only_threads (tm s) -> (length (expired (tm s)) < fuel)%nat ->
  wp (rt_timer_check (call_timeout user_fn) fuel) (fun _ s' =>
    wf_kst s' /\ waked (fun _ => timed_out) (expired (tm s)) (sc s) (sc s') /\
    trow (tm s') = filter (fun o => 0 < remaining (tm s) o) (trow (tm s)) /\
    (forall o, remaining (tm s') o = remaining (tm s) o) /\ ip s' = ip s) s.
Proof.
  intros W O Hf. eapply wp_mono; [by apply wp_timer_check|].
  intros _ s' (W' & A & R & K). split_and!; try done; [|apply K].
  intros o. by apply kept_remaining.
Qed.

(** 20 ticks later the peer is due. *)
Definition due : kst := after (rt_tick_set 20) sleeping.

Lemma wf_due : wf_kst due.
Proof. apply wf_check. vm_compute. reflexivity. Qed.

Definition only_threads_b (c : timers) : bool :=
  forallb (fun o => match o with ThreadTimer _ => true | _ => false end) (trow c).

Lemma only_threads_check (c : timers) : only_threads_b c = true -> only_threads c.
Proof.
  intros H o Ho _. apply (forallb_in _ _ o) in H; [|done]. destruct o; [done|eauto].
Qed.

Definition no_user_code : Z -> Z -> K unit := fun _ _ => mret tt.

Lemma rt_timer_check_ok_witness :
  wp (rt_timer_check (call_timeout no_user_code) 2) (fun _ s' => wf_kst s' /\
    trow (tm s') = [ThreadTimer main_t] /\ tlist (sc s') (LReady 10) = [peer_t]) due.
Proof.
  assert (E : expired (tm due) = [peer_t]) by (vm_compute; reflexivity).
  eapply wp_mono; [apply (rt_timer_check_ok no_user_code due 2 wf_due)|].
  - apply only_threads_check. vm_compute. reflexivity.
  - rewrite E. cbn. lia.
  - rewrite E. intros _ s' (W & A & R & _). split; [exact W|]. rewrite R. split.
    + vm_compute. reflexivity.
    + rewrite (wa_lists _ _ _ _ A). vm_compute. reflexivity.
Defined.

(** ** The tick *)

Definition ticked (s : kst) : kst := upd_tm (fun c => with_tick (u32 (ts_tick c + 1)) c) s.

(** Between two ticks no timer is overdue. *)
Definition settled (c : timers) : Prop := forall o, o ∈ trow c -> 0 <= remaining c o.

Lemma tick_less (b now : Z) :
  0 <= s32 (b - now) -> s32 (b - u32 (now + 1)) = s32 (b - now) - 1.
Proof.
  unfold sbits, ubits. change (32 - 1) with 31.
  change (2 ^ 31) with 2147483648. change (2 ^ 32) with 4294967296.
  pose proof (Z.div_mod (b - now + 2147483648) 4294967296 ltac:(lia)) as E1.
  pose proof (Z.mod_pos_bound (b - now + 2147483648) 4294967296 ltac:(lia)) as B.
  pose proof (Z.div_mod (now + 1) 4294967296 ltac:(lia)) as E2.
  set (x := (b - now + 2147483648) mod 4294967296) in *.
  set (q := (b - now + 2147483648) / 4294967296) in *. intros H.
  replace (b - (now + 1) mod 4294967296 + 2147483648)
    with (x - 1 + (q + (now + 1) / 4294967296) * 4294967296) by lia.
  rewrite Z.mod_add, Z.mod_small by lia. lia.
Qed.

Lemma remaining_ticked (s : kst) (o : oid) :
  wf_row (tm s) -> o ∈ trow (tm s) -> 0 <= remaining (tm s) o ->
  remaining (tm (ticked s)) o = remaining (tm s) o - 1.
Proof.
  intros W Ho. destruct (wr_timer _ W o Ho) as [x Hx]. unfold remaining. cbn. rewrite Hx.
  apply tick_less.
Qed.

Lemma wf_ticked (s : kst) : wf_kst s -> settled (tm s) -> wf_kst (ticked s).
Proof.
  intros W S. pose proof (wk_row _ W) as Wr.
  constructor; try apply W. constructor; try apply Wr.
  - intros o Ho. change (trow _) with (trow (tm s)) in Ho.
    pose proof (wr_window _ Wr o Ho). specialize (S o Ho).
    rewrite (remaining_ticked s o Wr Ho S). lia.
  - change (trow (tm (ticked s))) with (trow (tm s)).
    eapply sorted_map; [|apply Wr]. cbn beta. intros a b Ha Hb Hab.
    rewrite !remaining_ticked by auto. lia.
Qed.

(** The current thread has used one tick of its time slice. *)
Definition sliced (th : rt_thread) : rt_thread :=
  let r := u32 (t_remaining_tick th - 1) in
  thr_remaining (if r =? 0 then t_init_tick th else r) th.

Definition slice_over (th : rt_thread) : bool := u32 (t_remaining_tick th - 1) =? 0.

(** The lists after the end of the time slice of [t]. *)
Definition slice_lists (t : Z) (th : rt_thread) (c : sched) (l : lid) : list Z :=
  if slice_over th && bool_decide (l = LReady (t_current_priority th))
  then remove_tid t (tlist c l) ++ [t] else tlist c l.

Lemma rotate_alone (t : Z) (x : list Z) :
  NoDup x -> t ∈ x -> (length x <= 1)%nat -> remove_tid t x ++ [t] = x.
Proof.
  intros N Hin Hl. destruct x as [|u [|v x]]; [set_solver| |cbn in Hl; lia].
  apply list_elem_of_singleton in Hin as ->. by rewrite remove_tid_head.
Qed.

Lemma wf_thread_remaining (s : kst) (t r : Z) (th : rt_thread) :
  wf_kst s -> s_threads (sc s) !! t = Some th -> wf_kst (set_thread t (thr_remaining r th) s).
Proof. intros W Ht. by apply (wf_kst_field s t th (thr_remaining r)). Qed.

(** The first half of [rt_tick_increase]. *)
Lemma wp_slice (s : kst) (th : rt_thread) (m : K unit) (Q : unit -> kst -> Prop) :
  let t := s_current (sc s) in
  wf_kst s -> s_threads (sc s) !! t = Some th -> t_stat th = RT_THREAD_READY ->
  (forall s', wf_kst s' -> s_threads (sc s') = <[t := sliced th]> (s_threads (sc s)) ->
     (forall l, tlist (sc s') l = slice_lists t th (sc s) l) ->
     tm s' = tm s -> ip s' = ip s -> s_lock_nest (sc s') = s_lock_nest (sc s) ->
     s_interrupt_nest (sc s') = s_interrupt_nest (sc s) -> ob s' = ob s ->
     (s_lock_nest (sc s) = 0 -> on_policy s -> on_policy s') -> wp m Q s') ->
  wp (_ ← upd_thread t (fun th => thr_remaining (u32 (t_remaining_tick th - 1)) th);
      th ← get_thread t;
      _ ← kwhen (t_remaining_tick th =? 0)
        (_ ← upd_thread t (fun th => thr_remaining (t_init_tick th) th);
         _ ← rt_thread_yield;
         mret tt);
      m) Q s.
Proof.
  intros t W Ht Hs HQ. repeat kstep. eapply wp_get_thread; [apply lookup_insert_eq|].
  cbn [thr_remaining t_remaining_tick]. unfold sliced, slice_lists, slice_over in HQ.
  set (r := u32 (t_remaining_tick th - 1)) in *.
  pose proof (wf_thread_remaining s t r th W Ht) as W1.
  destruct (r =? 0) eqn:Er; cbn [andb kwhen] in *.
  2: { kstep. apply HQ; done. }
  do 2 kstep. eapply wp_upd_thread; [apply lookup_insert_eq|].
  cbn [thr_remaining t_init_tick]. rewrite set_thread_twice. kstep.
  set (th2 := thr_remaining _ _).
  pose proof (wf_thread_remaining s t (t_init_tick th) th W Ht) as W2.
  change (set_thread t _ s) with (set_thread t th2 s) in W2.
  assert (Hc : s_threads (sc (set_thread t th2 s)) !! s_current (sc (set_thread t th2 s)) = Some th2)
    by apply lookup_insert_eq.
  apply (wp_yield _ th2); try done. intros s' W' R. kstep.
  change (t_stat th2) with (t_stat th) in R. rewrite Hs, Z.eqb_refl in R. cbn [andb] in R.
  change (t_current_priority th2) with (t_current_priority th) in R.
  change (s_current (sc (set_thread t th2 s))) with t in R.
  change (tlist (sc (set_thread t th2 s))) with (tlist (sc s)) in R.
  pose proof (ws_ready _ (wk_sched _ W) t th Ht Hs) as Hin.
  assert (L : forall l, l <> LReady (t_current_priority th) ->
    remove_tid t (tlist (sc s) l) = tlist (sc s) l).
  { intros l Hne. apply remove_tid_notin. intros Hin'. apply Hne.
    by apply (ws_disj _ (wk_sched _ W) _ _ t). }
  case_hyp.
  - destruct (rescheduled_same _ _ R) as (E1 & E2 & _ & E4 & E5 & E6 & E7 & E8 & _).
    apply HQ; try done.
    + intros l. rewrite E2. cbn. rewrite rotated_lists.
      change (tlist (with_threads _ _)) with (tlist (sc s)).
      case_bool_decide; case_decide; try done. by apply L.
    + intros Lk _. by apply (on_policy_rescheduled _ _ R).
  - subst s'. apply HQ; try done. intros l. change (tlist (sc (set_thread t th2 s))) with (tlist (sc s)).
    case_bool_decide as D; [|done]. rewrite D. rewrite rotate_alone; [done|apply W|done|lia].
Qed.

Lemma expired_ticked (s : kst) :
  wf_row (tm s) -> settled (tm s) ->
  expired (tm (ticked s)) = map tid (filter (fun o => remaining (tm s) o <= 1) (trow (tm s))).
Proof.
  intros W S. unfold expired. f_equal. change (trow (tm (ticked s))) with (trow (tm s)).
  apply filter_ext_in. intros o Ho. rewrite remaining_ticked by auto. lia.
Qed.

Lemma wp_tick (user_fn : Z -> Z -> K unit) (s : kst) (th : rt_thread) (fuel : nat) :
  let t := s_current (sc s) in
  let ts := map tid (filter (fun o => remaining (tm s) o <= 1) (trow (tm s))) in
  wf_kst s -> settled (tm s) -> s_threads (sc s) !! t = Some th -> t_stat th = RT_THREAD_READY ->
  (forall o, o ∈ trow (tm s) -> remaining (tm s) o <= 1 -> exists u, o = ThreadTimer u) ->
  (length ts < fuel)%nat ->
  wp (rt_tick_increase user_fn fuel) (fun _ s' =>
    wf_kst s' /\ ts_tick (tm s') = u32 (ts_tick (tm s) + 1) /\
    trow (tm s') = filter (fun o => 1 < remaining (tm s) o) (trow (tm s)) /\
    (forall o, o ∈ trow (tm s) -> remaining (tm s') o = remaining (tm s) o - 1) /\
    (exists c, s_threads c = <[t := sliced th]> (s_threads (sc s)) /\
       (forall l, tlist c l = slice_lists t th (sc s) l) /\ waked (fun _ => timed_out) ts c (sc s')) /\
    ip s' = ip s /\ s_lock_nest (sc s') = s_lock_nest (sc s) /\
    s_interrupt_nest (sc s') = s_interrupt_nest (sc s) /\
    (forall a, ob_objs (ob s') !! Obj a = ob_objs (ob s) !! Obj a) /\
    (s_lock_nest (sc s) = 0 -> on_policy s -> on_policy s')) s.
Proof.
  intros t ts W S Ht Hs Ho Hf. pose proof (wk_row _ W) as Wr.
  pose proof (wf_ticked s W S) as W1. pose proof (expired_ticked s Wr S) as Ee. fold ts in Ee.
  unfold rt_tick_increase. kstep. kstep. fold (ticked s). kstep. kstep.
  change (s_current (sc (ticked s))) with t.
  apply (wp_slice (ticked s) th); try done.
  intros s2 W2 E1 E2 E3 E4 E5 E6 E7 E8.
  assert (O : only_threads (tm s2)).
  { rewrite E3. intros o Hin Hr. change (trow (tm (ticked s))) with (trow (tm s)) in Hin.
    rewrite remaining_ticked in Hr by auto. apply Ho; [done|lia]. }
  assert (Ee2 : expired (tm s2) = ts) by (by rewrite E3).
  eapply wp_mono; [apply (wp_timer_check user_fn s2 fuel W2 O)|]; rewrite Ee2; [done|].
  intros _ s' (W' & A & R & K).
  assert (Rem : forall o, o ∈ trow (tm s) -> remaining (tm s') o = remaining (tm s) o - 1).
  { intros o Hin. rewrite (kept_remaining s2 s' o K), E3. by apply remaining_ticked; auto. }
  destruct K as (K1 & K2 & K3 & K4 & K5 & K6 & K7). split_and!.
  - done.
  - by rewrite K2, E3.
  - rewrite R, E3. apply filter_ext_in. intros o Hin. rewrite remaining_ticked by auto. lia.
  - exact Rem.
  - by exists (sc s2).
  - by rewrite K3.
  - by rewrite K4.
  - by rewrite K5.
  - intros a. rewrite K6. by rewrite E7.
  - intros Lk P. apply K7; [by rewrite E5|]. by apply E8.
Qed.

Lemma wf_kst_nest (s : kst) (n : Z) : wf_kst s -> wf_kst (upd_sc (with_interrupt_nest n) s).
Proof.
  intros W. apply (wf_kst_sched s); try done; [|by apply same_waiting_refl].
  by apply (wf_same _ (wk_sched _ W)).
Qed.

Lemma wp_systick (user_fn : Z -> Z -> K unit) (s : kst) (th : rt_thread) (fuel : nat) :
  let t := s_current (sc s) in
  let ts := map tid (filter (fun o => remaining (tm s) o <= 1) (trow (tm s))) in
  wf_kst s -> settled (tm s) -> s_threads (sc s) !! t = Some th -> t_stat th = RT_THREAD_READY ->
  (forall o, o ∈ trow (tm s) -> remaining (tm s) o <= 1 -> exists u, o = ThreadTimer u) ->
  0 <= s_interrupt_nest (sc s) < 255 -> (length ts < fuel)%nat ->
  wp (SysTick_Handler user_fn fuel) (fun _ s' =>
    wf_kst s' /\ settled (tm s') /\ ts_tick (tm s') = u32 (ts_tick (tm s) + 1) /\
    trow (tm s') = filter (fun o => 1 < remaining (tm s) o) (trow (tm s)) /\
    (forall o, o ∈ trow (tm s) -> remaining (tm s') o = remaining (tm s) o - 1) /\
    (exists c, s_threads c = <[t := sliced th]> (s_threads (sc s)) /\
       (forall l, tlist c l = slice_lists t th (sc s) l) /\ waked (fun _ => timed_out) ts c (sc s')) /\
    ip s' = ip s /\ s_interrupt_nest (sc s') = s_interrupt_nest (sc s) /\
    s_lock_nest (sc s') = s_lock_nest (sc s) /\
    (forall a, ob_objs (ob s') !! Obj a = ob_objs (ob s) !! Obj a) /\
    (s_lock_nest (sc s) = 0 -> on_policy s -> on_policy s')) s.
Proof.
  intros t ts W S Ht Hs Ho Hn Hf. unfold SysTick_Handler, rt_interrupt_enter, rt_interrupt_leave.
  do 3 kstep. set (s1 := upd_sc _ s).
  assert (W1 : wf_kst s1) by (by apply (wf_kst_nest s)).
  eapply wp_mono; [apply (wp_tick user_fn s1 th fuel); done|].
  intros _ s' (W' & T & R & Rem & (c & C1 & C2 & C3) & I & Lk & N & Ob & Po). kstep.
  change (tm s1) with (tm s) in *. split_and!.
  - by apply (wf_kst_nest s').
  - intros o Hin. change (trow _) with (trow (tm s')) in Hin.
    rewrite R in Hin. apply list_elem_of_filter in Hin as [H1 H2].
    change (remaining _ o) with (remaining (tm s') o). rewrite Rem by done. lia.
  - exact T.
  - exact R.
  - exact Rem.
  - exists c. split; [exact C1|]. split; [exact C2|].
    eapply waked_after; [exact C3|done..].
  - exact I.
  - cbn. rewrite N. cbn. unfold ubits. change (2 ^ 8) with 256.
    rewrite (Z.mod_small (_ + 1)) by lia. rewrite Z.mod_small by lia. lia.
  - exact Lk.
  - exact Ob.
  - intros L P. apply (on_policy_lists s'); [done|done|]. apply Po; [done|].
    by apply (on_policy_lists s).
Qed.

(** C10: one clock interrupt.  The tick counter goes on by one, modulo 2^32, and
    every timer has one tick less; the threads whose time is over, and no others,
    are waked in order with -RT_ETIMEOUT; the current thread has used a tick of
    its slice, and when that was the last one it has a new slice and stands at
    the end of its queue.  The timers left are exactly the others, none is
    overdue, the nesting count of the interrupts is what it was, and the first
    thread of the highest queue runs when it did before. *)
Theorem SysTick_Handler_ok (user_fn : Z -> Z -> K unit) (s : kst) (th : rt_thread) (fuel : nat) :
  let t := s_current (sc s) in
  let ts := map tid (filter (fun o => remaining (tm s) o <= 1) (trow (tm s))) in
  wf_kst s -> settled (tm s) -> s_threads (sc s) !! t = Some th -> t_stat th = RT_THREAD_READY ->
  (forall o, o ∈ trow (tm s) -> remaining (tm s) o <= 1 -> exists u, o = ThreadTimer u) ->
  0 <= s_interrupt_nest (sc s) < 255 -> (length ts < fuel)%nat ->
  wp (SysTick_Handler user_fn fuel) (fun _ s' =>
    wf_kst s' /\ settled (tm s') /\ ts_tick (tm s') = u32 (ts_tick (tm s) + 1) /\
    trow (tm s') = filter (fun o => 1 < remaining (tm s) o) (trow (tm s)) /\
    (forall o, o ∈ trow (tm s) -> remaining (tm s') o = remaining (tm s) o - 1) /\
    (exists c, s_threads c = <[t := sliced th]> (s_threads (sc s)) /\
       (forall l, tlist c l = slice_lists t th (sc s) l) /\ waked (fun _ => timed_out) ts c (sc s')) /\
    ip s' = ip s /\ s_interrupt_nest (sc s') = s_interrupt_nest (sc s) /\
    (s_lock_nest (sc s) = 0 -> on_policy s -> on_policy s')) s.
Proof.
  intros t ts W S Ht Hs Ho Hn Hf. eapply wp_mono; [by apply (wp_systick user_fn s th fuel)|].
  intros _ s' (H1 & H2 & H3 & H4 & H5 & H6 & H7 & H8 & _ & _ & H9). by split_and!.
Qed.

(** The peer has one tick left. *)
Definition almost_due : kst := after (rt_tick_set 19) sleeping.

Lemma wf_almost_due : wf_kst almost_due.
Proof. apply wf_check. vm_compute. reflexivity. Qed.

Definition settled_b (c : timers) : bool := forallb (fun o => 0 <=? remaining c o) (trow c).

Lemma settled_check (c : timers) : settled_b c = true -> settled c.
Proof. intros H o Ho. apply (forallb_in _ _ o) in H; [|done]. by apply Z.leb_le. Qed.

Lemma thread_timers_check (c : timers) (k : Z) :
  only_threads_b c = true ->
  forall o, o ∈ trow c -> remaining c o <= k -> exists u, o = ThreadTimer u.
Proof. intros H o Ho _. apply (forallb_in _ _ o) in H; [|done]. destruct o; [done|eauto]. Qed.

Lemma SysTick_Handler_ok_witness :
  wp (SysTick_Handler no_user_code 2) (fun _ s' => wf_kst s' /\ ts_tick (tm s') = 20 /\
    trow (tm s') = [ThreadTimer main_t] /\ peer_t ∈ tlist (sc s') (LReady 10)) almost_due.
Proof.
  destruct (lookup_stat almost_due work_t RT_THREAD_READY) as (th & E & Hs);
    [vm_compute; reflexivity|].
  assert (Et : map tid (filter (fun o => remaining (tm almost_due) o <= 1) (trow (tm almost_due)))
    = [peer_t]) by (vm_compute; reflexivity).
  eapply wp_mono; [apply (SysTick_Handler_ok no_user_code almost_due th 2 wf_almost_due)|].
  - apply settled_check. vm_compute. reflexivity.
  - exact E.
  - exact Hs.
  - apply thread_timers_check. vm_compute. reflexivity.
  - vm_compute. split; [discriminate|reflexivity].
  - rewrite Et. cbn. lia.
  - rewrite Et. intros _ s' (W & _ & T & R & _ & (c & C1 & C2 & C3) & _).
    split; [exact W|]. split; [rewrite T; vm_compute; reflexivity|].
    split; [rewrite R; vm_compute; reflexivity|].
    rewrite (wa_lists _ _ _ _ C3), C1. apply elem_of_app. right. vm_compute. by left.
Defined.

(** A timer of the user code whose function starts it again. *)
Definition user_t : Z := 0x20006000.
Definition restart_fn : Z -> Z -> K unit :=
  fun _ _ => _ ← rt_timer_start (Obj user_t); mret tt.

Definition restarted : kst :=
  after (rt_timer_check (call_timeout restart_fn) 5)
    (after (rt_tick_set 3) (after (rt_timer_start (Obj user_t))
      (after (rt_timer_init (Obj user_t) [117; 0] (F_user 0x8003000) 0 3 RT_TIMER_FLAG_ONE_SHOT)
        running))).

(** A one-shot timer that its own timeout function starts again is in the timer
    list but marked inactive, so that [rt_timer_stop] refuses to stop it. *)
Lemma restart_in_timeout_unstoppable :
  trow (tm restarted) = [Obj user_t] /\ remaining (tm restarted) (Obj user_t) = 3 /\
  fst <$> (match rt_timer_stop (Obj user_t) restarted with Ok x => Some x | _ => None end)
    = Some (- RT_ERROR).
Proof. vm_compute. auto. Qed.
