(* ===== verification/Ipc.v ===== *)
(** * Semaphores, mutexes, events (Kernel/ipc.c)

    The threads that wait for an IPC object at address [a] are in the list
    [LSuspend a]. *)

From Stdlib Require Import Lia.
From S2P Require Import Prelude KService Heap KState Scheduler Object Timer Thread.

(** ** Common part *)

(** [rt_list_init] of a list head; threads that are in the list would be lost. *)
Definition list_init (l : lid) : K unit :=
  e ← rt_list_isempty l; if (e : bool) then put_list l [] else kfault.

Definition rt_ipc_object_init (a : Z) : K Z := _ ← list_init (LSuspend a); mret RT_EOK.

(** The loop over the waiting threads: [t] goes in front of the first thread
    with a lower priority (a larger number). *)
Fixpoint prio_insert (t p : Z) (x : list Z) : K (list Z) :=
  match x with
  | [] => mret [t]
  | u :: x =>
      th ← get_thread u;
      if p <? t_current_priority th then mret (t :: u :: x)
      else y ← prio_insert t p x; mret (u :: y)
  end.

Definition rt_ipc_list_suspend (l : lid) (t flag : Z) : K Z :=
  _ ← rt_thread_suspend t;
  _ ← (if flag =? RT_IPC_FLAG_FIFO then tlist_push_back l t
       else if flag =? RT_IPC_FLAG_PRIO then
         _ ← need_unlinked t;
         th ← get_thread t;
         x ← get_list l;
         y ← prio_insert t (t_current_priority th) x;
         put_list l y
       else mret tt);
  mret RT_EOK.

Definition rt_ipc_list_resume (l : lid) : K Z :=
  t ← first_entry l;
  _ ← rt_thread_resume t;
  mret RT_EOK.

(** A round that does not take the first thread out of the list is repeated for
    ever. *)
Fixpoint resume_all_loop (fuel : nat) (l : lid) : K unit :=
  e ← rt_list_isempty l;
  if (e : bool) then mret tt else
  match fuel with
  | O => hang
  | S fuel =>
      t ← first_entry l;
      _ ← upd_thread t (thr_error (- RT_ERROR));
      _ ← rt_thread_resume t;
      resume_all_loop fuel l
  end.
Definition rt_ipc_list_resume_all (l : lid) : K Z :=
  x ← get_list l; _ ← resume_all_loop (length x) l; mret RT_EOK.

(** The current thread waits in [l], with the thread timer when [time] is
    positive. *)
Definition suspend_current (l : lid) (t flag time : Z) : K unit :=
  _ ← rt_ipc_list_suspend l t flag;
  _ ← kwhen (0 <? time)
        (_ ← rt_timer_control (ThreadTimer t) RT_TIMER_CTRL_SET_TIME time;
         _ ← rt_timer_start (ThreadTimer t);
         mret tt);
  rt_schedule.

(** ** Semaphores *)

Definition rt_sem_init (sem : Z) (name : list Z) (value flag : Z) : K Z :=
  _ ← kassert (negb (sem =? RT_NULL));
  _ ← rt_object_init (Obj sem) RT_Object_Class_Semaphore name;
  _ ← rt_ipc_object_init sem;
  _ ← put_sem sem (RtSemaphore (u16 value));
  _ ← set_flag (Obj sem) flag;
  mret RT_EOK.

Definition rt_sem_detach (sem : Z) : K Z :=
  _ ← kassert (negb (sem =? RT_NULL));
  _ ← rt_ipc_list_resume_all (LSuspend sem);
  _ ← rt_object_detach (Obj sem);
  mret RT_EOK.

Definition rt_sem_create (name : list Z) (value flag : Z) : K Z :=
  _ ← RT_DEBUG_NOT_IN_INTERRUPT;
  sem ← rt_object_allocate RT_Object_Class_Semaphore name;
  if sem =? RT_NULL then mret sem else
  _ ← rt_ipc_object_init sem;
  _ ← put_sem sem (RtSemaphore (u16 value));
  _ ← set_flag (Obj sem) flag;
  mret sem.

Definition rt_sem_delete (sem : Z) : K Z :=
  _ ← RT_DEBUG_NOT_IN_INTERRUPT;
  _ ← kassert (negb (sem =? RT_NULL));
  _ ← rt_ipc_list_resume_all (LSuspend sem);
  _ ← rt_object_delete sem;
  mret RT_EOK.

(** [Wait t]: thread [t] waits. *)
Definition rt_sem_take (sem time : Z) : K (outcome Z Z) :=
  _ ← kassert (negb (sem =? RT_NULL));
  x ← get_sem sem;
  if 0 <? sem_value x then
    _ ← put_sem sem (RtSemaphore (sem_value x - 1));
    mret (Return RT_EOK)
  else if time =? 0 then mret (Return (- RT_ETIMEOUT))
  else
    _ ← RT_DEBUG_IN_THREAD_CONTEXT;
    t ← rt_thread_self;
    _ ← upd_thread t (thr_error RT_EOK);
    flag ← get_flag (Obj sem);
    _ ← suspend_current (LSuspend sem) t flag time;
    mret (Wait t).
Definition rt_sem_take_resume (t : Z) : K Z :=
  th ← get_thread t;
  if negb (t_error th =? RT_EOK) then mret (t_error th) else mret RT_EOK.

Definition rt_sem_trytake (sem : Z) : K (outcome Z Z) := rt_sem_take sem 0.

Definition rt_sem_release (sem : Z) : K Z :=
  x ← get_sem sem;
  e ← rt_list_isempty (LSuspend sem);
  need_schedule ← (if negb (e : bool) then
                     _ ← rt_ipc_list_resume (LSuspend sem); mret true
                   else
                     _ ← put_sem sem (RtSemaphore (u16 (sem_value x + 1))); mret false);
  _ ← kwhen need_schedule rt_schedule;
  mret RT_EOK.

Definition rt_sem_control (sem cmd arg : Z) : K Z :=
  _ ← kassert (negb (sem =? RT_NULL));
  if cmd =? RT_IPC_CMD_RESET then
    _ ← rt_ipc_list_resume_all (LSuspend sem);
    _ ← put_sem sem (RtSemaphore (u16 arg));
    _ ← rt_schedule;
    mret RT_EOK
  else mret (- RT_ERROR).

(** ** Mutexes *)

Definition new_mutex : rt_mutex := RtMutex 1 0xff 0 RT_NULL.

Definition rt_mutex_init (mutex : Z) (name : list Z) (flag : Z) : K Z :=
  _ ← kassert (negb (mutex =? RT_NULL));
  _ ← rt_object_init (Obj mutex) RT_Object_Class_Mutex name;
  _ ← rt_ipc_object_init mutex;
  _ ← put_mutex mutex new_mutex;
  _ ← set_flag (Obj mutex) flag;
  mret RT_EOK.

Definition rt_mutex_detach (mutex : Z) : K Z :=
  _ ← kassert (negb (mutex =? RT_NULL));
  _ ← rt_ipc_list_resume_all (LSuspend mutex);
  _ ← rt_object_detach (Obj mutex);
  mret RT_EOK.

Definition rt_mutex_create (name : list Z) (flag : Z) : K Z :=
  _ ← RT_DEBUG_NOT_IN_INTERRUPT;
  mutex ← rt_object_allocate RT_Object_Class_Mutex name;
  if mutex =? RT_NULL then mret mutex else
  _ ← rt_ipc_object_init mutex;
  _ ← put_mutex mutex new_mutex;
  _ ← set_flag (Obj mutex) flag;
  mret mutex.

Definition rt_mutex_delete (mutex : Z) : K Z :=
  _ ← RT_DEBUG_NOT_IN_INTERRUPT;
  _ ← kassert (negb (mutex =? RT_NULL));
  _ ← rt_ipc_list_resume_all (LSuspend mutex);
  _ ← rt_object_delete mutex;
  mret RT_EOK.

Definition rt_mutex_take (mutex time : Z) : K (outcome Z Z) :=
  _ ← RT_DEBUG_IN_THREAD_CONTEXT;
  _ ← kassert (negb (mutex =? RT_NULL));
  t ← rt_thread_self;
  _ ← upd_thread t (thr_error RT_EOK);
  m ← get_mutex mutex;
  if mtx_owner m =? t then
    _ ← put_mutex mutex (RtMutex (mtx_value m) (mtx_original_priority m)
          (u8 (mtx_hold m + 1)) (mtx_owner m));
    mret (Return RT_EOK)
  else if 0 <? mtx_value m then
    th ← get_thread t;
    _ ← put_mutex mutex (RtMutex (mtx_value m - 1) (t_current_priority th)
          (u8 (mtx_hold m + 1)) t);
    mret (Return RT_EOK)
  else if time =? 0 then
    _ ← upd_thread t (thr_error (- RT_ETIMEOUT));
    mret (Return (- RT_ETIMEOUT))
  else
    th ← get_thread t;
    owner ← get_thread (mtx_owner m);
    _ ← kwhen (t_current_priority th <? t_current_priority owner)
          (_ ← rt_thread_control (mtx_owner m) RT_THREAD_CTRL_CHANGE_PRIORITY
                 (t_current_priority th);
           mret tt);
    flag ← get_flag (Obj mutex);
    _ ← suspend_current (LSuspend mutex) t flag time;
    mret (Wait t).
Definition rt_mutex_take_resume (t : Z) : K Z :=
  th ← get_thread t;
  if negb (t_error th =? RT_EOK) then mret (t_error th) else mret RT_EOK.

Definition rt_mutex_release (mutex : Z) : K Z :=
  _ ← RT_DEBUG_IN_THREAD_CONTEXT;
  t ← rt_thread_self;
  m ← get_mutex mutex;
  if negb (t =? mtx_owner m) then
    _ ← upd_thread t (thr_error (- RT_ERROR));
    mret (- RT_ERROR)
  else
    let hold := u8 (mtx_hold m - 1) in
    _ ← put_mutex mutex (RtMutex (mtx_value m) (mtx_original_priority m) hold (mtx_owner m));
    need_schedule ←
      (if hold =? 0 then
         owner ← get_thread (mtx_owner m);
         _ ← kwhen (negb (mtx_original_priority m =? t_current_priority owner))
               (_ ← rt_thread_control (mtx_owner m) RT_THREAD_CTRL_CHANGE_PRIORITY
                      (mtx_original_priority m);
                mret tt);
         e ← rt_list_isempty (LSuspend mutex);
         if negb (e : bool) then
           u ← first_entry (LSuspend mutex);
           th ← get_thread u;
           _ ← put_mutex mutex (RtMutex (mtx_value m) (t_current_priority th)
                 (u8 (hold + 1)) u);
           _ ← rt_ipc_list_resume (LSuspend mutex);
           mret true
         else
           _ ← put_mutex mutex (RtMutex (u16 (mtx_value m + 1)) 0xff hold RT_NULL);
           mret false
       else mret false);
    _ ← kwhen need_schedule rt_schedule;
    mret RT_EOK.

Definition rt_mutex_control (mutex cmd arg : Z) : K Z := mret (- RT_ERROR).

(** ** Events *)

Definition RT_EVENT_FLAG_AND : Z := 1.
Definition RT_EVENT_FLAG_OR : Z := 2.
Definition RT_EVENT_FLAG_CLEAR : Z := 4.

Definition has_flag (x f : Z) : bool := negb (Z.land x f =? 0).

Definition rt_event_init (event : Z) (name : list Z) (flag : Z) : K Z :=
  _ ← kassert (negb (event =? RT_NULL));
  _ ← rt_object_init (Obj event) RT_Object_Class_Event name;
  _ ← set_flag (Obj event) flag;
  _ ← rt_ipc_object_init event;
  _ ← put_event event (RtEvent 0);
  mret RT_EOK.

Definition rt_event_detach (event : Z) : K Z :=
  _ ← kassert (negb (event =? RT_NULL));
  _ ← rt_ipc_list_resume_all (LSuspend event);
  _ ← rt_object_detach (Obj event);
  mret RT_EOK.

Definition rt_event_create (name : list Z) (flag : Z) : K Z :=
  _ ← RT_DEBUG_NOT_IN_INTERRUPT;
  event ← rt_object_allocate RT_Object_Class_Event name;
  if event =? RT_NULL then mret event else
  _ ← set_flag (Obj event) flag;
  _ ← rt_ipc_object_init event;
  _ ← put_event event (RtEvent 0);
  mret event.

Definition rt_event_delete (event : Z) : K Z :=
  _ ← kassert (negb (event =? RT_NULL));
  _ ← RT_DEBUG_NOT_IN_INTERRUPT;
  _ ← rt_ipc_list_resume_all (LSuspend event);
  _ ← rt_object_delete event;
  mret RT_EOK.

(** [event->set &= ~x] *)
Definition event_clear (event x : Z) : K unit :=
  e ← get_event event;
  put_event event (RtEvent (Z.land (ev_set e) (u32 (Z.lnot x)))).

(** One waiting thread: whether it was resumed. *)
Definition event_wake (event t : Z) : K bool :=
  th ← get_thread t;
  e ← get_event event;
  let both := Z.land (t_event_set th) (ev_set e) in
  ok ← (if has_flag (t_event_info th) RT_EVENT_FLAG_AND then
          mret (both =? t_event_set th)
        else if has_flag (t_event_info th) RT_EVENT_FLAG_OR then
          if negb (both =? 0) then
            _ ← upd_thread t (thr_event both (t_event_info th)); mret true
          else mret false
        else mret false);
  if (ok : bool) then
    th ← get_thread t;
    _ ← kwhen (has_flag (t_event_info th) RT_EVENT_FLAG_CLEAR)
          (event_clear event (t_event_set th));
    _ ← rt_thread_resume t;
    mret true
  else mret false.

(** The loop over the waiting threads; a resumed thread has left the list when
    the cursor is already on the next one. *)
Fixpoint event_send_loop (event : Z) (x : list Z) (need_schedule : bool) : K bool :=
  match x with
  | [] => mret need_schedule
  | t :: x =>
      b ← event_wake event t;
      event_send_loop event x (need_schedule || (b : bool))
  end.

Definition rt_event_send (event set : Z) : K Z :=
  _ ← kassert (negb (event =? RT_NULL));
  if u32 set =? 0 then mret (- RT_ERROR) else
  e ← get_event event;
  _ ← put_event event (RtEvent (Z.lor (ev_set e) (u32 set)));
  x ← get_list (LSuspend event);
  need_schedule ← event_send_loop event x false;
  _ ← kwhen need_schedule rt_schedule;
  mret RT_EOK.

(** The second component is what is stored through [recved]. *)
Definition rt_event_recv (event set opt timeout : Z) : K (outcome (Z * option Z) Z) :=
  _ ← RT_DEBUG_IN_THREAD_CONTEXT;
  _ ← kassert (negb (event =? RT_NULL));
  if u32 set =? 0 then mret (Return (- RT_ERROR, None)) else
  let set := u32 set in
  t ← rt_thread_self;
  _ ← upd_thread t (thr_error RT_EOK);
  e ← get_event event;
  ok ← (if has_flag opt RT_EVENT_FLAG_AND then mret (Z.land (ev_set e) set =? set)
        else if has_flag opt RT_EVENT_FLAG_OR then mret (negb (Z.land (ev_set e) set =? 0))
        else _ ← kassert false; mret false);
  if (ok : bool) then
    _ ← kwhen (has_flag opt RT_EVENT_FLAG_CLEAR) (event_clear event set);
    th ← get_thread t;
    mret (Return (t_error th, Some (Z.land (ev_set e) set)))
  else if timeout =? 0 then
    _ ← upd_thread t (thr_error (- RT_ETIMEOUT));
    th ← get_thread t;
    mret (Return (t_error th, None))
  else
    _ ← upd_thread t (thr_event set (u8 opt));
    flag ← get_flag (Obj event);
    _ ← suspend_current (LSuspend event) t flag timeout;
    mret (Wait t).
Definition rt_event_recv_resume (t : Z) : K (Z * option Z) :=
  th ← get_thread t;
  if negb (t_error th =? RT_EOK) then mret (t_error th, None)
  else mret (t_error th, Some (t_event_set th)).

Definition rt_event_control (event cmd arg : Z) : K Z :=
  _ ← kassert (negb (event =? RT_NULL));
  if cmd =? RT_IPC_CMD_RESET then
    _ ← rt_ipc_list_resume_all (LSuspend event);
    _ ← put_event event (RtEvent 0);
    _ ← rt_schedule;
    mret RT_EOK
  else mret (- RT_ERROR).
