(* ===== verification/IpcSpec.v ===== *)
(** * What semaphores and mutexes do

    The waiting lists (first-in first-out and by priority), then the operations
    of [Ipc] on a kernel that satisfies the invariant. *)

From Stdlib Require Import Lia Sorted.
From S2P Require Import Prelude KService Heap KState Scheduler Object Timer Thread.
From S2P Require Import Invariant Sample ThreadSpec Frame Clock Ipc.

(** ** Places in a waiting list *)

(** [t], of priority [p], goes in front of the first thread of lower priority. *)
Fixpoint place (r : Z -> Z) (p t : Z) (x : list Z) : list Z :=
  match x with
  | [] => [t]
  | u :: x => if p <? r u then t :: u :: x else u :: place r p t x
  end.

Definition prio_of (c : sched) (u : Z) : Z := default 0 (t_current_priority <$> s_threads c !! u).

Lemma place_split (r : Z -> Z) (p t : Z) (x : list Z) :
  exists a b, x = a ++ b /\ place r p t x = a ++ t :: b /\ (forall u, u ∈ a -> r u <= p).
Proof.
  induction x as [|u x IH]; cbn; [exists [], []; split_and!; [done..|set_solver]|]. case_test.
  - exists [], (u :: x). split_and!; [done|done|]. set_solver.
  - destruct IH as (a & b & -> & -> & Ha). exists (u :: a), b. split_and!; [done|done|].
    intros v [->|Hv]%elem_of_cons; [lia|by apply Ha].
Qed.

Lemma elem_of_place (r : Z -> Z) (p t u : Z) (x : list Z) : u ∈ place r p t x <-> u = t \/ u ∈ x.
Proof. destruct (place_split r p t x) as (a & b & -> & -> & _). set_solver. Qed.

Lemma place_sorted (r : Z -> Z) (p t : Z) (x : list Z) :
  r t = p -> StronglySorted (fun a b => r a <= r b) x ->
  StronglySorted (fun a b => r a <= r b) (place r p t x).
Proof.
  intros Et. induction 1 as [|u x Hs IH Hu]; cbn; [repeat constructor|]. case_test.
  - constructor; [by constructor|]. constructor; [lia|].
    eapply Forall_impl; [exact Hu|]. cbn. intros; lia.
  - constructor; [done|]. apply Forall_forall. intros v Hv. rewrite Forall_forall in Hu.
    apply elem_of_place in Hv as [->|Hv]; [lia|by apply Hu].
Qed.

Lemma wp_prio_insert (t p : Z) (x : list Z) (Q : list Z -> kst -> Prop) (s : kst) :
  (forall u, u ∈ x -> is_Some (s_threads (sc s) !! u)) ->
  Q (place (prio_of (sc s)) p t x) s -> wp (prio_insert t p x) Q s.
Proof.
  revert Q. induction x as [|u x IH]; intros Q Hx HQ; cbn [prio_insert place] in *; [by kstep|].
  destruct (Hx u ltac:(by left)) as [th Hth]. repeat kstep.
  assert (E : prio_of (sc s) u = t_current_priority th) by (unfold prio_of; by rewrite Hth).
  rewrite E in HQ. case_test.
  - kstep. exact HQ.
  - kstep. apply IH; [intros; apply Hx; by right|]. by kstep.
Qed.

(** ** Suspending a thread on a list *)

Definition valid_flag (flag : Z) : Prop := flag = RT_IPC_FLAG_FIFO \/ flag = RT_IPC_FLAG_PRIO.

(** Where a thread of priority [p] goes in the waiting list [x]. *)
Definition enqueue (flag : Z) (r : Z -> Z) (p t : Z) (x : list Z) : list Z :=
  if flag =? RT_IPC_FLAG_FIFO then x ++ [t] else place r p t x.

Lemma enqueue_split (flag : Z) (r : Z -> Z) (p t : Z) (x : list Z) :
  exists a b, x = a ++ b /\ enqueue flag r p t x = a ++ t :: b.
Proof.
  unfold enqueue. case_test.
  - exists x, []. by rewrite app_nil_r.
  - destruct (place_split r p t x) as (a & b & E1 & E2 & _). eauto.
Qed.

Lemma elem_of_enqueue (flag : Z) (r : Z -> Z) (p t u : Z) (x : list Z) :
  u ∈ enqueue flag r p t x <-> u = t \/ u ∈ x.
Proof. destruct (enqueue_split flag r p t x) as (a & b & -> & ->). set_solver. Qed.

(** The state in which [t] waits in [l]. *)
Definition waiting (l : lid) (flag t : Z) (th : rt_thread) (s : kst) : kst :=
  list_added l (enqueue flag (prio_of (sc s)) (t_current_priority th) t (tlist (sc s) l))
    (suspended t th s).

(** ... with its timer running when [time] is positive. *)
Definition waiting_timed (l : lid) (flag t time : Z) (th : rt_thread) (s : kst) : kst :=
  if 0 <? time then armed t time (waiting l flag t th s) else waiting l flag t th s.

Section Wait.
Variables (s : kst) (l : lid) (flag t : Z) (th : rt_thread).
Hypothesis W : wf_kst s.
Hypothesis Hl : wait_list l.
Hypothesis Hf : valid_flag flag.
Hypothesis Ht : s_threads (sc s) !! t = Some th.
Hypothesis Hs : t_stat th = RT_THREAD_READY.

Lemma place_suspended (x : list Z) (p : Z) :
  t ∉ x -> place (prio_of (sc (suspended t th s))) p t x = place (prio_of (sc s)) p t x.
Proof.
  intros Hn. destruct (suspended_moved s t th W Ht Hs) as [M _].
  induction x as [|u x IH]; [done|]. cbn [place].
  assert (E : prio_of (sc (suspended t th s)) u = prio_of (sc s) u).
  { unfold prio_of. rewrite (tm_threads _ _ _ _ _ M), lookup_insert_ne; [done|]. set_solver. }
  rewrite E, IH by set_solver. done.
Qed.

Lemma wp_ipc_suspend (Q : Z -> kst -> Prop) :
  Q RT_EOK (waiting l flag t th s) -> wp (rt_ipc_list_suspend l t flag) Q s.
Proof.
  intros HQ. unfold rt_ipc_list_suspend. kstep. eapply wp_suspend; [done..|].
  destruct (suspended_moved s t th W Ht Hs) as [M W1].
  pose proof (suspended_list s l t th W Ht Hs Hl) as El.
  pose proof (moved_unlinked _ _ _ _ M) as Hu. unfold waiting, enqueue in HQ.
  assert (Hn : t ∉ tlist (sc s) l) by (eapply ready_not_waiting; [apply W|done..]).
  pose proof Hf as F. destruct F as [F|F]; rewrite F in HQ |- *;
    cbn [RT_IPC_FLAG_FIFO RT_IPC_FLAG_PRIO Z.eqb Pos.eqb] in *.
  - kstep. apply wp_push_back; [done|]. kstep. rewrite El. exact HQ.
  - unfold need_unlinked. do 4 kstep. rewrite Hu. cbn iota. kstep. kstep.
    eapply wp_get_thread; [by eapply moved_lookup|]. do 2 kstep. kstep. rewrite El.
    apply wp_prio_insert.
    + intros u Hu'. destruct (ws_loc _ (wk_sched _ W1) l u) as (x & Hx & _); [by rewrite El|].
      by exists x.
    + kstep. kstep. rewrite place_suspended by done. exact HQ.
Qed.

Lemma waiting_lists (l' : lid) :
  tlist (sc (waiting l flag t th s)) l' =
    if decide (l' = l)
    then enqueue flag (prio_of (sc s)) (t_current_priority th) t (tlist (sc s) l)
    else remove_tid t (tlist (sc s) l').
Proof.
  unfold waiting. cbn [sc list_added upd_sc]. rewrite (tlist_insert (sc (suspended t th s))).
  case_decide; case_decide; subst; try done. apply suspended_lists.
Qed.

Lemma wf_waiting : wf_kst (waiting l flag t th s).
Proof.
  destruct (suspended_moved s t th W Ht Hs) as [M W1].
  destruct (enqueue_split flag (prio_of (sc s)) (t_current_priority th) t (tlist (sc s) l))
    as (a & b & E1 & E2).
  unfold waiting. rewrite E2. apply (wf_list_added _ l a b t (thr_stat RT_THREAD_SUSPEND th)); try done.
  - rewrite <- E1. by apply suspended_list.
  - by eapply moved_lookup.
  - by eapply moved_unlinked.
Qed.

Lemma waiting_threads :
  s_threads (sc (waiting l flag t th s)) = <[t := thr_stat RT_THREAD_SUSPEND th]> (s_threads (sc s)).
Proof. apply (suspended_moved s t th W Ht Hs). Qed.

Lemma waiting_same :
  s_current (sc (waiting l flag t th s)) = s_current (sc s) /\
  s_lock_nest (sc (waiting l flag t th s)) = s_lock_nest (sc s) /\
  s_interrupt_nest (sc (waiting l flag t th s)) = s_interrupt_nest (sc s) /\
  ip (waiting l flag t th s) = ip s.
Proof.
  cbn. rewrite stopped_sc. destruct (stopped_same s (ThreadTimer t)) as (_ & -> & _).
  unfold unready, ready_del. by case_bool_decide.
Qed.

Variable time : Z.
Hypothesis Htime : time < 2 ^ 31 - 1.

Lemma wf_waiting_timed : wf_kst (waiting_timed l flag t time th s).
Proof.
  unfold waiting_timed. case_test; [|apply wf_waiting].
  apply (wf_armed _ t time (thr_stat RT_THREAD_SUSPEND th) wf_waiting); [|done|lia].
  rewrite waiting_threads. apply lookup_insert_eq.
Qed.

Lemma waiting_timed_same :
  sc (waiting_timed l flag t time th s) = sc (waiting l flag t th s) /\
  ip (waiting_timed l flag t time th s) = ip s.
Proof.
  destruct waiting_same as (_ & _ & _ & E).
  unfold waiting_timed. case_test; [|done].
  destruct (armed_same (waiting l flag t th s) t time) as (E1 & E2 & _). by rewrite E1, E2.
Qed.

Lemma calm_waiting_timed : calm [t] s (waiting_timed l flag t time th s).
Proof.
  assert (A : calm [t] s (waiting l flag t th s)).
  { etrans; [by apply calm_suspended|]. by apply calm_upd_sc. }
  unfold waiting_timed. case_test; [|done]. etrans; [exact A|]. apply calm_armed.
Qed.

(** The timer of the thread runs exactly when [time] is positive. *)
Lemma waiting_timer :
  if 0 <? time
  then ThreadTimer t ∈ trow (tm (waiting_timed l flag t time th s)) /\
       remaining (tm (waiting_timed l flag t time th s)) (ThreadTimer t) = time
  else ThreadTimer t ∉ trow (tm (waiting_timed l flag t time th s)).
Proof.
  unfold waiting_timed. case_test; [|by apply stopped_trow].
  apply (armed_remaining _ t time (thr_stat RT_THREAD_SUSPEND th) wf_waiting); [|done|lia].
  rewrite waiting_threads. apply lookup_insert_eq.
Qed.

Hypothesis Ho : other_ready t (sc s).

Lemma wp_arm_schedule (Q : unit -> kst -> Prop) :
  (forall s', wf_kst s' -> rescheduled (waiting_timed l flag t time th s) s' -> Q tt s') ->
  wp (kwhen (0 <? time)
        (_ ← rt_timer_control (ThreadTimer t) RT_TIMER_CTRL_SET_TIME time;
         _ ← rt_timer_start (ThreadTimer t);
         mret tt)) (fun _ => wp rt_schedule Q) (waiting l flag t th s).
Proof.
  intros HQ. destruct waiting_timed_same as [E _]. pose proof wf_waiting_timed as W2.
  assert (R : wp rt_schedule Q (waiting_timed l flag t time th s)).
  { apply wp_reschedule; [done| |auto]. rewrite E.
    destruct Ho as (u & thu & Hne & Hu & Hsu). exists u, thu.
    rewrite waiting_threads, lookup_insert_ne by done. done. }
  unfold waiting_timed in *. destruct (0 <? time) eqn:Et; cbn [kwhen]; [|by kstep].
  b2p. eapply (wp_arm _ t time (thr_stat RT_THREAD_SUSPEND th) wf_waiting); [|done|lia|].
  - rewrite waiting_threads. apply lookup_insert_eq.
  - kstep. exact R.
Qed.

Lemma wp_suspend_current (Q : unit -> kst -> Prop) :
  (forall s', wf_kst s' -> rescheduled (waiting_timed l flag t time th s) s' -> Q tt s') ->
  wp (suspend_current l t flag time) Q s.
Proof.
  intros HQ. unfold suspend_current. kstep. apply wp_ipc_suspend. kstep. by apply wp_arm_schedule.
Qed.

End Wait.

(** ** The calling thread *)

(** A thread that may wait: it runs, outside of interrupts, with the scheduler
    unlocked, and there is another ready thread (the idle thread). *)
Record caller (s : kst) (t : Z) (th : rt_thread) : Prop := {
  ca_wf : wf_kst s;
  ca_current : s_current (sc s) = t;
  ca_thread : s_threads (sc s) !! t = Some th;
  ca_ready : t_stat th = RT_THREAD_READY;
  ca_other : other_ready t (sc s);
  ca_nest : s_interrupt_nest (sc s) = 0;
  ca_lock : s_lock_nest (sc s) = 0;
}.

Lemma other_ready_set (t : Z) (x : rt_thread) (s : kst) :
  other_ready t (sc s) -> other_ready t (sc (set_thread t x s)).
Proof.
  intros (u & thu & Hne & Hu & Hs). exists u, thu. split_and!; try done.
  cbn. by rewrite lookup_insert_ne.
Qed.

Lemma caller_field (s : kst) (t : Z) (th th' : rt_thread) :
  caller s t th -> t_stat th' = t_stat th -> t_current_priority th' = t_current_priority th ->
  t_number_mask th' = t_number_mask th -> t_init_priority th' = t_init_priority th ->
  (stack_ok th -> stack_ok th') -> caller (set_thread t th' s) t th'.
Proof.
  intros C E1 E2 E3 E4 E5. constructor; try apply C.
  - by apply (wf_kst_field s t th (fun _ => th')); try apply C.
  - apply lookup_insert_eq.
  - rewrite E1. apply C.
  - apply other_ready_set, C.
Qed.

Lemma caller_error (s : kst) (t e : Z) (th : rt_thread) :
  caller s t th -> caller (set_thread t (thr_error e th) s) t (thr_error e th).
Proof. intros C. by apply (caller_field s t th). Qed.

Lemma wf_kst_ip (s : kst) (f : ipcs -> ipcs) : wf_kst s -> wf_kst (upd_ip f s).
Proof. intros W. constructor; apply W. Qed.

Lemma caller_ip (s : kst) (t : Z) (th : rt_thread) (f : ipcs -> ipcs) :
  caller s t th -> caller (upd_ip f s) t th.
Proof. intros C. constructor; try apply C. apply wf_kst_ip, C. Qed.

Lemma wp_in_thread (s : kst) (t : Z) (th : rt_thread) (Q : unit -> kst -> Prop) :
  caller s t th -> Q tt s -> wp RT_DEBUG_IN_THREAD_CONTEXT Q s.
Proof.
  intros C HQ. pose proof (wk_addr _ (ca_wf _ _ _ C) t th (ca_thread _ _ _ C)).
  unfold RT_DEBUG_IN_THREAD_CONTEXT, RT_DEBUG_NOT_IN_INTERRUPT.
  do 3 kstep. kstep; [rewrite (ca_current _ _ _ C); by apply neqb_null|].
  do 2 kstep. kstep; [by rewrite (ca_nest _ _ _ C)|]. done.
Qed.

(** The caller waits in [l] and another thread runs. *)
Record blocked (l : lid) (flag t time : Z) (th : rt_thread) (s s' : kst) : Prop := {
  bl_wf : wf_kst s';
  bl_list : tlist (sc s') l =
    enqueue flag (prio_of (sc s)) (t_current_priority th) t (tlist (sc s) l);
  bl_others : forall l', l' <> l -> tlist (sc s') l' = remove_tid t (tlist (sc s) l');
  bl_threads : s_threads (sc s') = <[t := thr_stat RT_THREAD_SUSPEND th]> (s_threads (sc s));
  bl_timer : if 0 <? time
    then ThreadTimer t ∈ trow (tm s') /\ remaining (tm s') (ThreadTimer t) = time
    else ThreadTimer t ∉ trow (tm s');
  bl_next : (exists p, highest (sc s') p (s_current (sc s'))) /\ s_current (sc s') <> t;
  bl_ip : ip s' = ip s;
  bl_calm : calm [t] s s';
}.

Lemma waiting_blocked (l : lid) (flag t time : Z) (th : rt_thread) (s s' : kst) :
  caller s t th -> wait_list l -> time < 2 ^ 31 - 1 -> wf_kst s' ->
  rescheduled (waiting_timed l flag t time th s) s' -> blocked l flag t time th s s'.
Proof.
  intros C Hl Htime W' R. destruct C as [W Hc Ht Hs Ho Hn Hk].
  destruct (rescheduled_same _ _ R) as (E1 & E2 & _ & _ & _ & E3 & _ & E4 & _).
  destruct (waiting_timed_same s l flag t th time) as [Esc Eip].
  pose proof (waiting_timer s l flag t th W Hl Ht Hs time Htime) as T.
  assert (Wl := waiting_lists s l flag t th Hl).
  constructor; rewrite ?E3; try done.
  - by rewrite E2, Esc, Wl, decide_True.
  - intros l' Hne. by rewrite E2, Esc, Wl, decide_False.
  - rewrite E1, Esc. by apply waiting_threads.
  - apply (rescheduled_next _ _ t R).
    + rewrite Esc. by destruct (waiting_same s l flag t th) as (_ & -> & _).
    + intros p. rewrite Esc, Wl, decide_False by (intros <-; done).
      rewrite elem_of_remove_tid. tauto.
  - by rewrite E4, Eip.
  - etrans; [by apply calm_waiting_timed|]. by apply calm_rescheduled.
Qed.

(** The two steps of [rt_ipc_list_suspend] with [RT_IPC_FLAG_FIFO], written out. *)
Lemma wp_park (l : lid) (t : Z) (th : rt_thread) (s : kst) (Q : unit -> kst -> Prop) :
  caller s t th -> wait_list l -> Q tt (waiting l RT_IPC_FLAG_FIFO t th s) ->
  wp (rt_thread_suspend t) (fun _ => wp (tlist_push_back l t) Q) s.
Proof.
  intros C Hl HQ.
  pose proof (wp_ipc_suspend s l RT_IPC_FLAG_FIFO t th (ca_wf _ _ _ C) Hl (or_introl eq_refl)
    (ca_thread _ _ _ C) (ca_ready _ _ _ C) (fun _ => Q tt) HQ) as P.
  unfold rt_ipc_list_suspend in P. cbn [RT_IPC_FLAG_FIFO Z.eqb Pos.eqb] in P.
  unfold wp, mbind, ST_bind in *. destruct (rt_thread_suspend t s) as [[e s1]| |]; [|done..].
  by destruct (tlist_push_back l t s1) as [[[] s2]| |].
Qed.

Lemma wp_block (l : lid) (flag t time : Z) (th : rt_thread) (s : kst) (Q : unit -> kst -> Prop) :
  caller s t th -> wait_list l -> valid_flag flag -> time < 2 ^ 31 - 1 ->
  (forall s', blocked l flag t time th s s' -> Q tt s') ->
  wp (suspend_current l t flag time) Q s.
Proof.
  intros C Hl Hf Htime HQ.
  apply (wp_suspend_current s l flag t th); try done; try apply C.
  intros s' W' R. apply HQ. by apply waiting_blocked.
Qed.

(** ** Waking the first thread, or all *)

(** The first waiting thread. *)
Lemma first_waiting (s : kst) (l : lid) (u : Z) (x : list Z) :
  wf_kst s -> wait_list l -> tlist (sc s) l = u :: x ->
  exists thu, s_threads (sc s) !! u = Some thu /\ t_stat thu = RT_THREAD_SUSPEND.
Proof.
  intros W Hl E. destruct (ws_loc _ (wk_sched _ W) l u) as (thu & Hu & Hloc); [rewrite E; by left|].
  exists thu. by destruct l.
Qed.

Lemma wp_ipc_resume (s : kst) (l : lid) (u : Z) (x : list Z) (thu : rt_thread)
    (Q : Z -> kst -> Prop) :
  wf_kst s -> tlist (sc s) l = u :: x -> s_threads (sc s) !! u = Some thu ->
  t_stat thu = RT_THREAD_SUSPEND -> Q RT_EOK (resumed u thu s) -> wp (rt_ipc_list_resume l) Q s.
Proof.
  intros W E Hu Hs HQ. unfold rt_ipc_list_resume. kstep. eapply wp_first_entry; [exact E|].
  kstep. eapply wp_resume; [done..|]. by kstep.
Qed.

Lemma resumed_ip (u : Z) (thu : rt_thread) (s : kst) : ip (resumed u thu s) = ip s.
Proof. cbn. apply stopped_same. Qed.

Lemma resumed_someone (u : Z) (thu : rt_thread) (s : kst) :
  wf_kst s -> s_threads (sc s) !! u = Some thu -> t_stat thu = RT_THREAD_SUSPEND ->
  wf_kst (resumed u thu s) /\ someone_ready (sc (resumed u thu s)).
Proof.
  intros W Hu Hs. destruct (resumed_moved s u thu W Hu Hs) as [M W'].
  split; [done|]. exists u, (thr_stat RT_THREAD_READY thu). split; [by eapply moved_lookup|done].
Qed.

Lemma set_same (s : kst) (u : Z) (thu : rt_thread) :
  s_threads (sc s) !! u = Some thu -> set_thread u thu s = s.
Proof.
  intros H. unfold set_thread, upd_sc, with_threads. rewrite insert_id by done.
  by destruct s as [[] ? ? ? ? ?].
Qed.

Lemma resumed_waked_id (s : kst) (u : Z) (thu : rt_thread) :
  s_threads (sc s) !! u = Some thu -> waked (fun _ th => th) [u] (sc s) (sc (resumed u thu s)).
Proof.
  intros Hu. pose proof (resumed_waked s u thu (fun th => th) Hu eq_refl) as A.
  by rewrite set_same in A.
Qed.

Definition failed (th : rt_thread) : rt_thread := thr_error (- RT_ERROR) th.

Lemma wp_resume_all (x : list Z) (l : lid) (s : kst) (Q : unit -> kst -> Prop) :
  wf_kst s -> wait_list l -> tlist (sc s) l = x ->
  (forall s', wf_kst s' -> waked (fun _ => failed) x (sc s) (sc s') -> ip s' = ip s ->
     s_lock_nest (sc s') = s_lock_nest (sc s) -> s_current (sc s') = s_current (sc s) ->
     s_interrupt_nest (sc s') = s_interrupt_nest (sc s) ->
     hp s' = hp s -> dom (ob_objs (ob s')) = dom (ob_objs (ob s)) ->
     (x = [] -> s' = s) -> Q tt s') ->
  wp (resume_all_loop (length x) l) Q s.
Proof.
  revert s Q. induction x as [|u x IH]; intros s Q W Hl E HQ; cbn [length resume_all_loop].
  - kstep. apply wp_isempty. rewrite E. cbn. kstep. apply HQ; try done. by apply waked_nil.
  - kstep. apply wp_isempty. rewrite E. cbn. kstep. eapply wp_first_entry; [exact E|].
    destruct (first_waiting s l u x W Hl E) as (thu & Hu & Hs).
    kstep. eapply wp_upd_thread; [exact Hu|]. change (thr_error (- RT_ERROR) thu) with (failed thu).
    assert (W1 : wf_kst (set_thread u (failed thu) s))
      by (by apply (wf_kst_field s u thu failed)).
    kstep. eapply (wp_resume _ u (failed thu)); [done|apply lookup_insert_eq|done|].
    destruct (resumed_moved _ u (failed thu) W1 ltac:(apply lookup_insert_eq) Hs) as [M W2].
    pose proof (resumed_waked s u thu failed Hu eq_refl) as A.
    set (s1 := resumed u (failed thu) (set_thread u (failed thu) s)) in *.
    assert (N : NoDup (u :: x)) by (rewrite <- E; apply W).
    assert (E1 : tlist (sc s1) l = x).
    { rewrite (wa_lists _ _ _ _ A), E.
      rewrite (filter_ext_in _ (fun v => v <> u)) by set_solver.
      change (remove_tid u (u :: x) ++ match l with LReady p =>
        filter (fun u => t_current_priority <$> s_threads (sc s) !! u = Some p) [u] | _ => [] end = x).
      rewrite remove_tid_head by done. destruct l; try done; by rewrite app_nil_r. }
    assert (Same : ip s1 = ip s /\ hp s1 = hp s /\ s_lock_nest (sc s1) = s_lock_nest (sc s) /\
      s_current (sc s1) = s_current (sc s) /\ s_interrupt_nest (sc s1) = s_interrupt_nest (sc s) /\
      dom (ob_objs (ob s1)) = dom (ob_objs (ob s))).
    { unfold s1. cbn. rewrite !stopped_sc. unfold timer_stopped. cbn. case_test; [|done]. cbn.
      by rewrite dom_alter_L. }
    destruct Same as (S1 & S2 & S3 & S4 & S5 & S6).
    apply IH; try done. intros s' W' A' I1 I2 I3 I4 I5 I6 _. apply HQ; try congruence.
    + inversion N; subst. by eapply waked_cons.
Qed.

Lemma wp_get_sem (a : Z) (x : rt_semaphore) (Q : rt_semaphore -> kst -> Prop) (s : kst) :
  i_sems (ip s) !! a = Some x -> Q x s -> wp (get_sem a) Q s.
Proof. intros E H. unfold get_sem. by eapply wp_bind, wp_gets, wp_lift. Qed.

Lemma wp_get_mutex (a : Z) (x : rt_mutex) (Q : rt_mutex -> kst -> Prop) (s : kst) :
  i_mutexes (ip s) !! a = Some x -> Q x s -> wp (get_mutex a) Q s.
Proof. intros E H. unfold get_mutex. by eapply wp_bind, wp_gets, wp_lift. Qed.

Lemma wp_get_event (a : Z) (x : rt_event) (Q : rt_event -> kst -> Prop) (s : kst) :
  i_events (ip s) !! a = Some x -> Q x s -> wp (get_event a) Q s.
Proof. intros E H. unfold get_event. by eapply wp_bind, wp_gets, wp_lift. Qed.

(** Nobody waits, or the first waiting thread is waked and the scheduler runs. *)
Lemma wp_wake (s : kst) (l : lid) (Q : unit -> kst -> Prop) :
  wf_kst s -> wait_list l ->
  match tlist (sc s) l with
  | [] => Q tt s
  | u :: w => forall s', wf_kst s' -> waked (fun _ th => th) [u] (sc s) (sc s') ->
      tlist (sc s') l = w -> ip s' = ip s -> ThreadTimer u ∉ trow (tm s') -> calm [u] s s' ->
      (s_lock_nest (sc s) = 0 -> exists p, highest (sc s') p (s_current (sc s'))) -> Q tt s'
  end ->
  wp (e ← rt_list_isempty l;
      if negb (e : bool) then _ ← rt_ipc_list_resume l; rt_schedule else mret tt) Q s.
Proof.
  intros W Hl HQ. kstep. apply wp_isempty. destruct (tlist (sc s) l) as [|u w] eqn:E; cbn; [by kstep|].
  kstep. destruct (first_waiting s l u w W Hl E) as (thu & Hu & Hs).
  eapply (wp_ipc_resume s l); [done..|].
  destruct (resumed_someone u thu s W Hu Hs) as [W1 R1].
  apply wp_reschedule; [done..|]. intros s' R W'.
  destruct (rescheduled_same _ _ R) as (E1 & E2 & _ & E4 & E5 & E6 & E7 & E8 & _).
  apply HQ; try done.
  - eapply waked_after; [by apply resumed_waked_id|exact E1|exact E2].
  - rewrite E2, resumed_lists. rewrite decide_False by (intros ->; done).
    rewrite E. apply remove_tid_head. rewrite <- E. apply W.
  - by rewrite E8, resumed_ip.
  - rewrite E6. cbn. by apply stopped_trow.
  - etrans; [by apply calm_resumed|]. by apply calm_rescheduled.
  - intros L. destruct (rescheduled_current _ _ R) as [p Hp]; [cbn; by rewrite stopped_sc|].
    exists p. eapply highest_lists; [exact E2|exact Hp].
Qed.

(** ** Semaphores *)

Definition set_sem (a v : Z) (s : kst) : kst :=
  upd_ip (fun c => with_sems (<[a := RtSemaphore v]> (i_sems c)) c) s.

(** What a semaphore is to its clients: a number of units, and threads that wait
    only while there is none. *)
Definition sem_inv (s : kst) (a : Z) : Prop :=
  exists x, i_sems (ip s) !! a = Some x /\ 0 <= sem_value x < 2 ^ 16 /\
    (0 < sem_value x -> tlist (sc s) (LSuspend a) = []).

Lemma sem_inv_blocked (flag t time sem : Z) (th th' : rt_thread) (x : rt_semaphore) (s s' : kst) :
  blocked (LSuspend sem) flag t time th' (set_thread t th s) s' ->
  i_sems (ip s) !! sem = Some x -> sem_value x <= 0 -> sem_inv s sem -> sem_inv s' sem.
Proof.
  intros B Hx Hv (x' & Hx' & Hr & _). simplify_eq. exists x. rewrite (bl_ip _ _ _ _ _ _ _ B).
  split_and!; [done|lia|lia|lia].
Qed.

Lemma wp_sem_take (s : kst) (t sem time : Z) (th : rt_thread) (x : rt_semaphore)
    (y : rt_object) (Q : outcome Z Z -> kst -> Prop) :
  sem <> RT_NULL -> i_sems (ip s) !! sem = Some x ->
  ob_objs (ob s) !! Obj sem = Some y -> valid_flag (o_flag y) -> time < 2 ^ 31 - 1 ->
  (sem_value x <= 0 -> time <> 0 -> caller s t th) ->
  (0 < sem_value x -> Q (Return RT_EOK) (set_sem sem (sem_value x - 1) s)) ->
  (sem_value x <= 0 -> time = 0 -> Q (Return (- RT_ETIMEOUT)) s) ->
  (sem_value x <= 0 -> time <> 0 -> forall s',
     blocked (LSuspend sem) (o_flag y) t time (thr_error RT_EOK th)
       (set_thread t (thr_error RT_EOK th) s) s' -> Q (Wait t) s') ->
  wp (rt_sem_take sem time) Q s.
Proof.
  intros Hsem Hx Hy Hf Htime C H1 H2 H3. unfold rt_sem_take. kstep.
  kstep; [by apply negb_true_iff, Z.eqb_neq|]. kstep. eapply wp_get_sem; [exact Hx|].
  case_test; [repeat kstep; by apply H1|]. case_test; [kstep; by apply H2|].
  specialize (C Etest Etest0). kstep.
  eapply wp_in_thread; [exact C|]. do 2 kstep. rewrite (ca_current _ _ _ C). kstep.
  eapply wp_upd_thread; [apply C|]. kstep. eapply wp_get_flag; [exact Hy|]. kstep.
  eapply (wp_block _ _ t _ (thr_error RT_EOK th)); [by apply caller_error|done|exact Hf|done|].
  intros s' B. kstep. by apply H3.
Qed.

Lemma sem_inv_taken (s : kst) (sem : Z) (x : rt_semaphore) :
  i_sems (ip s) !! sem = Some x -> 0 < sem_value x -> sem_inv s sem ->
  sem_inv (set_sem sem (sem_value x - 1) s) sem.
Proof.
  intros Hx Hv (x' & Hx' & Hr & He). simplify_eq. eexists. split; [apply lookup_insert_eq|].
  cbn. split; [lia|]. intros _. by apply He.
Qed.

(** C18: [rt_sem_take] takes a unit when there is one and touches nothing else;
    without one it returns -RT_ETIMEOUT at once when it may not wait; otherwise
    the caller waits on the semaphore, at the end of the list or at the place of
    its priority according to the flag of the semaphore, with error RT_EOK and,
    for a positive time, its timer running, and another thread runs. *)
Theorem rt_sem_take_ok (s : kst) (t sem time : Z) (th : rt_thread) (x : rt_semaphore)
    (y : rt_object) :
  caller s t th -> sem <> RT_NULL -> i_sems (ip s) !! sem = Some x ->
  ob_objs (ob s) !! Obj sem = Some y -> valid_flag (o_flag y) -> time < 2 ^ 31 - 1 ->
  wp (rt_sem_take sem time) (fun r s' =>
    if 0 <? sem_value x then r = Return RT_EOK /\ s' = set_sem sem (sem_value x - 1) s /\
      (sem_inv s sem -> sem_inv s' sem)
    else if time =? 0 then r = Return (- RT_ETIMEOUT) /\ s' = s
    else r = Wait t /\
      blocked (LSuspend sem) (o_flag y) t time (thr_error RT_EOK th)
        (set_thread t (thr_error RT_EOK th) s) s' /\
      (sem_inv s sem -> sem_inv s' sem)) s.
Proof.
  intros C Hsem Hx Hy Hf Htime. eapply wp_sem_take; [done|exact Hx|exact Hy|done..| | |].
  - intros Hv. test_true. split_and!; [done|done|]. by apply sem_inv_taken.
  - intros Hv ->. by test_false.
  - intros Hv Hn s' B. do 2 test_false. split_and!; [done|done|].
    by eapply sem_inv_blocked.
Qed.

Lemma wp_sem_release (s : kst) (sem : Z) (x : rt_semaphore) (Q : Z -> kst -> Prop) :
  wf_kst s -> i_sems (ip s) !! sem = Some x ->
  (tlist (sc s) (LSuspend sem) = [] -> Q RT_EOK (set_sem sem (u16 (sem_value x + 1)) s)) ->
  (forall u w s', tlist (sc s) (LSuspend sem) = u :: w -> wf_kst s' ->
     waked (fun _ th => th) [u] (sc s) (sc s') -> tlist (sc s') (LSuspend sem) = w ->
     ip s' = ip s -> ThreadTimer u ∉ trow (tm s') -> calm [u] s s' ->
     (s_lock_nest (sc s) = 0 -> exists p, highest (sc s') p (s_current (sc s'))) ->
     Q RT_EOK s') ->
  wp (rt_sem_release sem) Q s.
Proof.
  intros W Hx H1 H2. unfold rt_sem_release. kstep. eapply wp_get_sem; [exact Hx|]. kstep.
  apply wp_isempty. kstep. destruct (tlist (sc s) (LSuspend sem)) as [|u w] eqn:E; cbn.
  - repeat kstep. by apply H1.
  - assert (B : wp (e ← rt_list_isempty (LSuspend sem);
      if negb (e : bool) then _ ← rt_ipc_list_resume (LSuspend sem); rt_schedule else mret tt)
      (fun _ => Q RT_EOK) s).
    { apply wp_wake; [done|done|]. rewrite E. intros s'. intros. by eapply H2. }
    unfold rt_list_isempty in B. unfold get_list, gets, wp, mbind, ST_bind, mret, ST_ret in *.
    rewrite E in B. cbn in B. by destruct (rt_ipc_list_resume _ _) as [[]| |];
      cbn in *; [destruct (rt_schedule _) as [[]| |]|..].
Qed.

Lemma sem_inv_given (s : kst) (sem : Z) (x : rt_semaphore) :
  tlist (sc s) (LSuspend sem) = [] -> sem_inv (set_sem sem (u16 (sem_value x + 1)) s) sem.
Proof.
  intros E. eexists. split; [apply lookup_insert_eq|]. split; [by apply (ubits_range 16)|].
  intros _. exact E.
Qed.

Lemma sem_inv_handed (s s' : kst) (sem u : Z) (w : list Z) :
  tlist (sc s) (LSuspend sem) = u :: w -> ip s' = ip s -> sem_inv s sem -> sem_inv s' sem.
Proof.
  intros E Ei (x & Hx & Hr & He). exists x. rewrite Ei. split_and!; [done|lia|lia|].
  intros Hv. rewrite (He Hv) in E. done.
Qed.

(** C19: [rt_sem_release] hands the unit to the first waiting thread, which becomes
    ready and is out of the list while the value stays, or else adds one to the
    value, modulo 2^16. *)
Theorem rt_sem_release_ok (s : kst) (sem : Z) (x : rt_semaphore) :
  wf_kst s -> i_sems (ip s) !! sem = Some x ->
  wp (rt_sem_release sem) (fun r s' =>
    r = RT_EOK /\ wf_kst s' /\
    match tlist (sc s) (LSuspend sem) with
    | u :: w =>
        waked (fun _ th => th) [u] (sc s) (sc s') /\ tlist (sc s') (LSuspend sem) = w /\
        ip s' = ip s /\ ~ (ThreadTimer u ∈ trow (tm s')) /\
        (s_lock_nest (sc s) = 0 -> exists p, highest (sc s') p (s_current (sc s')))
    | [] => s' = set_sem sem (u16 (sem_value x + 1)) s
    end /\ (sem_inv s sem -> sem_inv s' sem)) s.
Proof.
  intros W Hx. eapply wp_sem_release; [done|exact Hx|..].
  - intros E. rewrite E. split_and!; [done|by apply wf_kst_ip|done|]. intros _.
    by apply sem_inv_given.
  - intros u w s' E W' A L I T _ H. rewrite E. split_and!; try done. by eapply sem_inv_handed.
Qed.

(** ** Samples *)

Definition a_sem : Z := 0x20007000.

(** A semaphore with one unit; with no unit, and two threads that wait. *)
Definition with_sem1 : kst := after (rt_sem_init a_sem [115; 0] 1 RT_IPC_FLAG_PRIO) running.
Definition sem_waited : kst :=
  after (rt_sem_take a_sem 30) (after (rt_sem_take a_sem 30) (after (rt_sem_take a_sem 30) with_sem1)).

Lemma wf_with_sem1 : wf_kst with_sem1.
Proof. apply wf_check. vm_compute. reflexivity. Qed.
Lemma wf_sem_waited : wf_kst sem_waited.
Proof. apply wf_check. vm_compute. reflexivity. Qed.

Lemma caller_check (s : kst) (t u : Z) :
  wf_kst s -> s_current (sc s) = t -> t_stat <$> s_threads (sc s) !! t = Some RT_THREAD_READY ->
  u <> t -> t_stat <$> s_threads (sc s) !! u = Some RT_THREAD_READY ->
  s_interrupt_nest (sc s) = 0 -> s_lock_nest (sc s) = 0 -> exists th, caller s t th.
Proof.
  intros W Hc Ht Hne Hu Hn Hl. destruct (lookup_stat s t _ Ht) as (th & E & Hs).
  exists th. constructor; try done. by apply (is_other_ready s t u).
Qed.

Lemma caller_with_sem1 : exists th, caller with_sem1 main_t th.
Proof.
  apply (caller_check _ _ peer_t); [apply wf_with_sem1|evaluate|evaluate|discriminate|evaluate..].
Qed.

Lemma lookup_sem (s : kst) (a v : Z) :
  sem_value <$> i_sems (ip s) !! a = Some v ->
  exists x, i_sems (ip s) !! a = Some x /\ sem_value x = v.
Proof. destruct (i_sems (ip s) !! a); intros [= <-]; eauto. Qed.

Lemma lookup_flag (s : kst) (o : oid) (f : Z) :
  o_flag <$> ob_objs (ob s) !! o = Some f -> exists y, ob_objs (ob s) !! o = Some y /\ o_flag y = f.
Proof. destruct (ob_objs (ob s) !! o); intros [= <-]; eauto. Qed.

Lemma rt_sem_take_ok_witness :
  wp (rt_sem_take a_sem 30) (fun r s' => r = Return RT_EOK /\
    sem_value <$> i_sems (ip s') !! a_sem = Some 0) with_sem1.
Proof.
  destruct caller_with_sem1 as [th C].
  destruct (lookup_sem with_sem1 a_sem 1) as (x & Hx & Hv); [evaluate|].
  destruct (lookup_flag with_sem1 (Obj a_sem) RT_IPC_FLAG_PRIO) as (y & Hy & Hf);
    [evaluate|].
  eapply wp_mono; [apply (rt_sem_take_ok with_sem1 main_t a_sem 30 th x y C)|].
  - discriminate.
  - exact Hx.
  - exact Hy.
  - rewrite Hf. right. reflexivity.
  - lia.
  - rewrite Hv. intros r s' (R & E & _). split; [exact R|]. rewrite E. cbn.
    rewrite lookup_insert_eq. reflexivity.
Defined.

Lemma rt_sem_release_ok_witness :
  wp (rt_sem_release a_sem) (fun r s' => r = RT_EOK /\ wf_kst s' /\
    tlist (sc s') (LSuspend a_sem) = [peer_t]) sem_waited.
Proof.
  destruct (lookup_sem sem_waited a_sem 0) as (x & Hx & _); [evaluate|].
  assert (E : tlist (sc sem_waited) (LSuspend a_sem) = [main_t; peer_t])
    by evaluate.
  eapply wp_mono; [apply (rt_sem_release_ok sem_waited a_sem x wf_sem_waited Hx)|].
  rewrite E. intros r s' (R & W & (_ & T & _) & _). split; [exact R|]. split; [exact W|exact T].
Defined.

(** ** Mutexes *)

Definition set_mutex (a : Z) (m : rt_mutex) (s : kst) : kst :=
  upd_ip (fun c => with_mutexes (<[a := m]> (i_mutexes c)) c) s.

(** The owner of a mutex inherits the priority [p] of a waiting thread when that
    is higher. *)
Definition boosted (o p : Z) (s : kst) : kst :=
  match s_threads (sc s) !! o with
  | Some tho => if p <? t_current_priority tho then reprioritized o p tho s else s
  | None => s
  end.

Lemma reprioritized_same (o p : Z) (tho : rt_thread) (s : kst) :
  s_current (sc (reprioritized o p tho s)) = s_current (sc s) /\
  s_lock_nest (sc (reprioritized o p tho s)) = s_lock_nest (sc s) /\
  s_interrupt_nest (sc (reprioritized o p tho s)) = s_interrupt_nest (sc s) /\
  ip (reprioritized o p tho s) = ip s /\ ob (reprioritized o p tho s) = ob s /\
  tm (reprioritized o p tho s) = tm s.
Proof.
  unfold reprioritized, ready_del. destruct (t_stat tho =? RT_THREAD_READY); [|done].
  cbn. by case_bool_decide.
Qed.

Lemma reprioritized_threads (o p : Z) (tho : rt_thread) (s : kst) :
  exists x, s_threads (sc (reprioritized o p tho s)) = <[o := x]> (s_threads (sc s)) /\
    t_stat x = t_stat tho /\ t_current_priority x = p.
Proof.
  unfold reprioritized. destruct (t_stat tho =? RT_THREAD_READY) eqn:Es; b2p.
  - eexists. split; [cbn; by rewrite insert_insert_eq|]. done.
  - eexists. done.
Qed.

Lemma caller_reprioritized (s : kst) (t o p : Z) (th tho : rt_thread) :
  caller s t th -> o <> t -> s_threads (sc s) !! o = Some tho -> t_stat tho <> RT_THREAD_INIT ->
  0 <= p < 32 -> caller (reprioritized o p tho s) t th.
Proof.
  intros C Hne Ho Hi Hp.
  destruct (reprioritized_same o p tho s) as (E1 & E2 & E3 & _).
  destruct (reprioritized_threads o p tho s) as (x & Ex & Es & _).
  constructor.
  - apply wf_reprioritized; [apply C|done..].
  - rewrite E1. apply C.
  - rewrite Ex, lookup_insert_ne by done. apply C.
  - apply C.
  - destruct (ca_other _ _ _ C) as (u & thu & Hu1 & Hu2 & Hu3).
    destruct (decide (u = o)) as [->|Hn].
    + exists o, x. rewrite Ex, lookup_insert_eq, Es. split_and!; try done. congruence.
    + exists u, thu. rewrite Ex, lookup_insert_ne by done. done.
  - rewrite E3. apply C.
  - rewrite E2. apply C.
Qed.

(** A mutex is free, or it is held by a started thread. *)
Definition mutex_ok (s : kst) (m : rt_mutex) (w : list Z) : Prop :=
  (mtx_value m = 1 /\ mtx_owner m = RT_NULL /\ mtx_hold m = 0 /\ w = []) \/
  (mtx_value m = 0 /\ 1 <= mtx_hold m < 256 /\ 0 <= mtx_original_priority m < 32 /\
   exists tho, s_threads (sc s) !! mtx_owner m = Some tho /\ t_stat tho <> RT_THREAD_INIT).

Definition mutex_inv (s : kst) (a : Z) : Prop :=
  exists m, i_mutexes (ip s) !! a = Some m /\ mutex_ok s m (tlist (sc s) (LSuspend a)).

Lemma mutex_inv_held (s : kst) (a : Z) (m : rt_mutex) :
  i_mutexes (ip s) !! a = Some m -> mtx_value m = 0 -> 1 <= mtx_hold m < 256 ->
  0 <= mtx_original_priority m < 32 ->
  (t_stat <$> s_threads (sc s) !! mtx_owner m <> None /\
   t_stat <$> s_threads (sc s) !! mtx_owner m <> Some RT_THREAD_INIT) ->
  mutex_inv s a.
Proof.
  intros Hm Hv Hh Hp [H1 H2]. exists m. split; [done|]. right. split_and!; try lia.
  destruct (s_threads (sc s) !! mtx_owner m) as [x|]; [|done]. exists x. split; [done|].
  intros E. apply H2. cbn. by rewrite E.
Qed.

(** The owner after the inheritance, and the caller as before. *)
Lemma boosted_caller (s : kst) (t o p : Z) (th tho : rt_thread) :
  caller s t th -> o <> t -> s_threads (sc s) !! o = Some tho -> t_stat tho <> RT_THREAD_INIT ->
  0 <= p < 32 ->
  caller (boosted o p s) t th /\
  exists x, s_threads (sc (boosted o p s)) !! o = Some x /\ t_stat x <> RT_THREAD_INIT /\
    t_current_priority x <= p /\ ip (boosted o p s) = ip s /\ ob (boosted o p s) = ob s.
Proof.
  intros C Hne Ho Hi Hp. unfold boosted. rewrite Ho. case_test.
  - split; [by apply caller_reprioritized|].
    destruct (reprioritized_threads o p tho s) as (x & Ex & Es & Epr).
    destruct (reprioritized_same o p tho s) as (_ & _ & _ & E1 & E2 & _).
    exists x. rewrite Ex, lookup_insert_eq, E1, E2. split_and!; try done; [congruence|lia].
  - split; [done|]. exists tho. split_and!; try done.
Qed.

(** The caller waits for the owner, who has inherited its priority. *)
Lemma wp_mutex_wait (s : kst) (t mutex time : Z) (th tho : rt_thread) (m : rt_mutex)
    (y : rt_object) :
  caller s t th -> mtx_owner m <> t -> i_mutexes (ip s) !! mutex = Some m ->
  mtx_value m = 0 -> 1 <= mtx_hold m < 256 -> 0 <= mtx_original_priority m < 32 ->
  s_threads (sc s) !! mtx_owner m = Some tho -> t_stat tho <> RT_THREAD_INIT ->
  valid_flag (o_flag y) -> time < 2 ^ 31 - 1 ->
  wp (_ ← suspend_current (LSuspend mutex) t (o_flag y) time; mret (Wait t))
    (fun (r : outcome Z Z) s' => mutex_inv s' mutex /\ r = Wait t /\
      blocked (LSuspend mutex) (o_flag y) t time th
        (boosted (mtx_owner m) (t_current_priority th) s) s' /\
      exists tho', s_threads (sc s') !! mtx_owner m = Some tho' /\
        t_current_priority tho' <= t_current_priority th)
    (boosted (mtx_owner m) (t_current_priority th) s).
Proof.
  intros C Eo Hm Hv Hh Hop Ho Hi Hf Htime.
  destruct (thread_fields s t th (ca_wf _ _ _ C) (ca_thread _ _ _ C)) as (_ & Hp & _).
  { rewrite (ca_ready _ _ _ C). done. }
  destruct (boosted_caller s t (mtx_owner m) (t_current_priority th) th tho C Eo Ho Hi Hp)
    as (Cb & x & Hxo & Hxi & Hxp & Eip & Eob).
  kstep. eapply (wp_block _ _ t _ th); [exact Cb|done|exact Hf|done|].
  intros s' B. kstep.
  assert (Lo : s_threads (sc s') !! mtx_owner m = Some x).
  { rewrite (bl_threads _ _ _ _ _ _ _ B), lookup_insert_ne by congruence. exact Hxo. }
  split; [|split_and!; [done|done|by exists x]].
  eapply mutex_inv_held; [|exact Hv|exact Hh|exact Hop|rewrite Lo; cbn; split; congruence].
  rewrite (bl_ip _ _ _ _ _ _ _ B), Eip. exact Hm.
Qed.

(** C20: [rt_mutex_take] by the owner counts one level more; a free mutex becomes
    the caller's, whose priority is remembered; a mutex of another thread makes
    the caller fail with -RT_ETIMEOUT when it may not wait, and else the owner
    inherits the caller's priority if that is higher - after the call no owner
    has a lower priority than the caller - and the caller waits in the order of
    the mutex.  In each case the mutex stays consistent. *)
Theorem rt_mutex_take_ok (s : kst) (t mutex time : Z) (th : rt_thread) (m : rt_mutex)
    (y : rt_object) :
  caller s t th -> mutex <> RT_NULL -> i_mutexes (ip s) !! mutex = Some m ->
  mutex_ok s m (tlist (sc s) (LSuspend mutex)) -> mtx_hold m < 255 ->
  ob_objs (ob s) !! Obj mutex = Some y -> valid_flag (o_flag y) -> time < 2 ^ 31 - 1 ->
  let th1 := thr_error RT_EOK th in
  let s1 := set_thread t th1 s in
  wp (rt_mutex_take mutex time) (fun r s' =>
    mutex_inv s' mutex /\
    if mtx_owner m =? t then
      r = Return RT_EOK /\
      s' = set_mutex mutex (RtMutex (mtx_value m) (mtx_original_priority m)
                              (mtx_hold m + 1) t) s1
    else if 0 <? mtx_value m then
      r = Return RT_EOK /\ s' = set_mutex mutex (RtMutex 0 (t_current_priority th) 1 t) s1
    else if time =? 0 then
      r = Return (- RT_ETIMEOUT) /\ s' = set_thread t (thr_error (- RT_ETIMEOUT) th) s
    else
      r = Wait t /\
      blocked (LSuspend mutex) (o_flag y) t time th1
        (boosted (mtx_owner m) (t_current_priority th) s1) s' /\
      exists tho', s_threads (sc s') !! mtx_owner m = Some tho' /\
        t_current_priority tho' <= t_current_priority th) s.
Proof.
  intros C Hmu Hm Hok Hh Hy Hf Htime th1 s1.
  assert (Cs : caller s1 t th1) by (by apply caller_error).
  pose proof (ca_thread _ _ _ C) as Ht. pose proof (wk_addr _ (ca_wf _ _ _ C) t th Ht) as Ha.
  destruct (thread_fields s t th (ca_wf _ _ _ C) Ht) as (_ & Hp & _).
  { rewrite (ca_ready _ _ _ C). done. }
  assert (Hx : s_threads (sc s1) !! t = Some th1) by apply Cs.
  unfold rt_mutex_take. kstep. eapply wp_in_thread; [exact C|]. kstep.
  kstep; [by apply negb_true_iff, Z.eqb_neq|]. do 2 kstep. rewrite (ca_current _ _ _ C). kstep.
  eapply wp_upd_thread; [exact Ht|]. kstep. eapply wp_get_mutex; [exact Hm|].
  destruct (Z.eqb_spec (mtx_owner m) t) as [Eo|Eo].
  { destruct Hok as [(_ & En & _)|(Hv & Hh1 & Hop & tho & Ho & Hi)];
      [unfold RT_NULL in En; lia|].
    assert (Eh : u8 (mtx_hold m + 1) = mtx_hold m + 1) by (apply ubits_small; lia).
    repeat kstep. rewrite Eh, Eo. split; [|done].
    eexists. split; [apply lookup_insert_eq|]. right. cbn [mtx_value mtx_hold mtx_original_priority mtx_owner].
    split_and!; try lia. exists th1. split; [exact Hx|].
    rewrite (ca_ready _ _ _ Cs). done. }
  destruct (Z.ltb_spec 0 (mtx_value m)) as [Hv|Hv].
  { destruct Hok as [(Ev & En & Ehh & Ew)|(Hv' & _)]; [|lia]. rewrite Ev, Ehh.
    repeat kstep.
    split; [|done]. eexists. split; [apply lookup_insert_eq|]. right.
    cbn [mtx_value mtx_hold mtx_original_priority mtx_owner].
    change (u8 (0 + 1)) with 1. change (t_current_priority th1) with (t_current_priority th).
    split_and!; try lia. exists th1. split; [exact Hx|]. rewrite (ca_ready _ _ _ Cs). done. }
  destruct Hok as [(Ev & _)|(Hv0 & Hh1 & Hop & tho & Ho & Hi)]; [lia|].
  destruct (Z.eqb_spec time 0) as [Et|Et].
  { kstep. eapply wp_upd_thread; [exact Hx|]. kstep. rewrite set_thread_twice.
    split; [|done]. eapply mutex_inv_held; [exact Hm|exact Hv0|exact Hh1|exact Hop|].
    cbn. rewrite lookup_insert_ne by congruence. rewrite Ho. cbn.
    split; congruence. }
  kstep. eapply wp_get_thread; [exact Hx|]. kstep.
  assert (Ho1 : s_threads (sc s1) !! mtx_owner m = Some tho) by (cbn; by rewrite lookup_insert_ne by congruence).
  eapply wp_get_thread; [exact Ho1|]. kstep.
  change (t_current_priority th1) with (t_current_priority th).
  pose proof (wp_mutex_wait s1 t mutex time th1 tho m y Cs Eo Hm Hv0 Hh1 Hop Ho1 Hi Hf Htime) as B.
  unfold boosted in B at 2. rewrite Ho1 in B.
  change (t_current_priority th1) with (t_current_priority th) in B.
  destruct (t_current_priority th <? t_current_priority tho) eqn:Elt; cbn [kwhen].
  - kstep. apply (wp_change_priority s1 (mtx_owner m) (t_current_priority th) tho); try done.
    { apply Cs. } kstep. kstep.
    eapply wp_get_flag; [|exact B].
    destruct (reprioritized_same (mtx_owner m) (t_current_priority th) tho s1)
      as (_ & _ & _ & _ & -> & _). exact Hy.
  - kstep. kstep. eapply wp_get_flag; [exact Hy|exact B].
Qed.

(** The priority the owner had before it took the mutex is restored. *)
Definition restored (t p : Z) (th : rt_thread) (s : kst) : kst :=
  if negb (p =? t_current_priority th) then reprioritized t p th s else s.

Section Release.
Variables (s : kst) (t mutex : Z) (th : rt_thread) (m : rt_mutex).
Hypothesis C : caller s t th.
Hypothesis Hm : i_mutexes (ip s) !! mutex = Some m.
Hypothesis Hok : mutex_ok s m (tlist (sc s) (LSuspend mutex)).

Let w := tlist (sc s) (LSuspend mutex).

Lemma release_thread : s_threads (sc s) !! t = Some th /\ t_stat th = RT_THREAD_READY /\
  t_stat th <> RT_THREAD_INIT /\ t <> RT_NULL.
Proof.
  pose proof (ca_ready _ _ _ C) as R. split_and!; [apply C|done|by rewrite R|].
  pose proof (wk_addr _ (ca_wf _ _ _ C) t th (ca_thread _ _ _ C)). unfold RT_NULL. lia.
Qed.

(** Restoring the priority leaves the waiting threads and the mutexes alone. *)
Lemma restored_ok (p : Z) (s1 : kst) :
  caller s1 t th -> 0 <= p < 32 ->
  wf_kst (restored t p th s1) /\ ip (restored t p th s1) = ip s1 /\
  s_lock_nest (sc (restored t p th s1)) = s_lock_nest (sc s1) /\
  (forall l, wait_list l -> tlist (sc (restored t p th s1)) l = tlist (sc s1) l) /\
  (forall u, u <> t -> s_threads (sc (restored t p th s1)) !! u = s_threads (sc s1) !! u) /\
  (exists x, s_threads (sc (restored t p th s1)) !! t = Some x /\ t_stat x = RT_THREAD_READY /\
     t_current_priority x = p).
Proof.
  intros C1 Hp. destruct C1 as [W1 Hc Ht Hs Ho Hn Hk]. unfold restored.
  destruct (Z.eqb_spec p (t_current_priority th)) as [->|Hne]; cbn [negb].
  { split_and!; try done. by exists th. }
  assert (Hi : t_stat th <> RT_THREAD_INIT) by (by rewrite Hs).
  destruct (reprioritized_same t p th s1) as (_ & E2 & _ & E4 & _).
  destruct (reprioritized_threads t p th s1) as (x & Ex & Es & Epr).
  pose proof (ready_reprioritized s1 t p th W1 Ht Hi Hp Hs) as M.
  split_and!; try done.
  - by apply wf_reprioritized.
  - intros l Hl. unfold reprioritized. rewrite Hs, Z.eqb_refl. cbn [sc upd_sc].
    unfold ready_add, tlist at 1. cbn. rewrite lookup_insert_ne by (intros <-; done).
    change (default [] (s_tlists (ready_del t th (sc s1)) !! l))
      with (tlist (ready_del t th (sc s1)) l).
    rewrite ready_del_lists. apply remove_tid_notin.
    by eapply ready_not_waiting; [apply W1|exact Ht|..].
  - intros u Hu. by rewrite Ex, lookup_insert_ne.
  - exists x. rewrite Ex, lookup_insert_eq, Es, Hs. done.
Qed.

Lemma wp_restore (p : Z) (s1 : kst) (Q : unit -> kst -> Prop) :
  caller s1 t th -> 0 <= p < 32 -> Q tt (restored t p th s1) ->
  wp (kwhen (negb (p =? t_current_priority th))
        (_ ← rt_thread_control t RT_THREAD_CTRL_CHANGE_PRIORITY p; mret tt)) Q s1.
Proof.
  intros C1 Hp HQ. unfold restored in HQ. destruct (negb _); cbn [kwhen]; [|by kstep].
  kstep. eapply wp_change_priority; try done; try apply C1; [|by kstep].
  rewrite (ca_ready _ _ _ C1). done.
Qed.

Lemma mutex_ok_set (x : rt_thread) (v : list Z) :
  t_stat x <> RT_THREAD_INIT -> mutex_ok s m v -> mutex_ok (set_thread t x s) m v.
Proof.
  intros Hx [H|(H1 & H2 & H3 & tho & H4 & H5)]; [by left|right]. split_and!; try done; try lia.
  cbn. rewrite lookup_insert. case_decide; [by exists x|by exists tho].
Qed.

(** The part of [rt_mutex_release] behind the restoration, for hold count 0. *)
Lemma wp_hand_over (hold : Z) (s2 : kst) (Q : bool -> kst -> Prop) :
  wf_kst s2 -> tlist (sc s2) (LSuspend mutex) = w ->
  match w with
  | [] => Q false (set_mutex mutex (RtMutex (u16 (mtx_value m + 1)) 0xff hold RT_NULL) s2)
  | u :: _ => forall thu, s_threads (sc s2) !! u = Some thu -> t_stat thu = RT_THREAD_SUSPEND ->
      Q true (resumed u thu (set_mutex mutex
        (RtMutex (mtx_value m) (t_current_priority thu) (u8 (hold + 1)) u) s2))
  end ->
  wp (e ← rt_list_isempty (LSuspend mutex);
      if negb (e : bool) then
        u ← first_entry (LSuspend mutex);
        th ← get_thread u;
        _ ← put_mutex mutex (RtMutex (mtx_value m) (t_current_priority th) (u8 (hold + 1)) u);
        _ ← rt_ipc_list_resume (LSuspend mutex);
        mret true
      else
        _ ← put_mutex mutex (RtMutex (u16 (mtx_value m + 1)) 0xff hold RT_NULL);
        mret false) Q s2.
Proof.
  intros W2 E HQ. kstep. apply wp_isempty. rewrite E. destruct w as [|u w'] eqn:Ew; cbn.
  - by repeat kstep.
  - kstep. eapply wp_first_entry; [exact E|].
    destruct (first_waiting s2 (LSuspend mutex) u w' W2 I E) as (thu & Hu & Hsu).
    repeat kstep. eapply (wp_ipc_resume _ (LSuspend mutex) u w' thu); try done.
    + by apply wf_kst_ip.
    + kstep. by apply HQ.
Qed.

(** The first waiting thread has become the owner. *)
Lemma wp_new_owner (s2 : kst) (u : Z) (w' : list Z) (thu x : rt_thread) :
  wf_kst s2 -> tlist (sc s2) (LSuspend mutex) = u :: w' ->
  s_threads (sc s2) !! u = Some thu -> t_stat thu = RT_THREAD_SUSPEND ->
  s_threads (sc s2) !! t = Some x -> t_stat x = RT_THREAD_READY -> s_lock_nest (sc s2) = 0 ->
  wp (_ ← rt_schedule; mret RT_EOK) (fun r s' =>
    r = RT_EOK /\ mutex_inv s' mutex /\ wf_kst s' /\
    t_current_priority <$> s_threads (sc s') !! t = Some (t_current_priority x) /\
    tlist (sc s') (LSuspend mutex) = w' /\
    t_stat <$> s_threads (sc s') !! u = Some RT_THREAD_READY /\
    i_mutexes (ip s') !! mutex = Some (RtMutex 0 (t_current_priority thu) 1 u) /\
    exists p, highest (sc s') p (s_current (sc s')))
    (resumed u thu (set_mutex mutex (RtMutex 0 (t_current_priority thu) 1 u) s2)).
Proof.
  intros W2 Ew Hu Hsu Hx Hxs Hl. set (m' := RtMutex 0 _ 1 u). set (s3 := set_mutex mutex m' s2).
  assert (W3 : wf_kst s3) by (by apply wf_kst_ip).
  assert (Hne : u <> t) by (intros ->; simplify_eq; by rewrite Hxs in Hsu).
  destruct (resumed_someone u thu s3 W3 Hu Hsu) as [W4 R4].
  destruct (resumed_moved s3 u thu W3 Hu Hsu) as [M _].
  kstep. apply wp_reschedule; [exact W4|exact R4|]. intros s' R W'. kstep.
  destruct (rescheduled_same _ _ R) as (R1 & R2 & _ & R3 & _ & _ & _ & R5 & _).
  assert (Lm : i_mutexes (ip s') !! mutex = Some m').
  { rewrite R5, resumed_ip. apply lookup_insert_eq. }
  assert (Lu : s_threads (sc s') !! u = Some (thr_stat RT_THREAD_READY thu)).
  { rewrite R1. by eapply moved_lookup. }
  split_and!; try done.
  - eapply mutex_inv_held; [exact Lm|done|cbn; lia| |cbn; rewrite Lu; cbn; split; done].
    destruct (ws_prio _ (wk_sched _ W2) u thu Hu) as [Hpr _]; [by rewrite Hsu|exact Hpr].
  - rewrite R1, (tm_threads _ _ _ _ _ M), lookup_insert_ne by done. cbn. by rewrite Hx.
  - rewrite R2, resumed_lists, decide_False by done.
    change (tlist (sc s3) (LSuspend mutex)) with (tlist (sc s2) (LSuspend mutex)). rewrite Ew.
    apply remove_tid_head. rewrite <- Ew. apply W2.
  - by rewrite Lu.
  - destruct (rescheduled_current _ _ R) as [p Hp].
    { cbn. rewrite stopped_sc. exact Hl. }
    exists p. eapply highest_lists; [exact R2|exact Hp].
Qed.

(** C21: only the owner may release a mutex, any other thread gets -RT_ERROR; an
    inner release counts down; the outermost one gives the caller back the
    priority it had when it took the mutex, and hands the mutex to the first
    waiting thread, which becomes ready and owns it at level one with its own
    priority remembered, or makes it free.  The mutex stays consistent. *)
Theorem rt_mutex_release_ok :
  wp (rt_mutex_release mutex) (fun r s' =>
    mutex_inv s' mutex /\ wf_kst s' /\
    if negb (t =? mtx_owner m) then
      r = - RT_ERROR /\ s' = set_thread t (thr_error (- RT_ERROR) th) s
    else if negb (mtx_hold m =? 1) then
      r = RT_EOK /\ s' = set_mutex mutex (RtMutex (mtx_value m) (mtx_original_priority m)
                                            (mtx_hold m - 1) t) s
    else r = RT_EOK /\
      t_current_priority <$> s_threads (sc s') !! t = Some (mtx_original_priority m) /\
      match w with
      | u :: w' => tlist (sc s') (LSuspend mutex) = w' /\
          t_stat <$> s_threads (sc s') !! u = Some RT_THREAD_READY /\
          i_mutexes (ip s') !! mutex = Some (RtMutex 0 (prio_of (sc s) u) 1 u) /\
          exists p, highest (sc s') p (s_current (sc s'))
      | [] => i_mutexes (ip s') !! mutex = Some new_mutex
      end) s.
Proof.
  destruct release_thread as (Ht & Hs & Hi & Hn). pose proof (ca_wf _ _ _ C) as W.
  unfold rt_mutex_release. kstep. eapply wp_in_thread; [exact C|]. do 3 kstep.
  rewrite (ca_current _ _ _ C). eapply wp_get_mutex; [exact Hm|].
  destruct (Z.eqb_spec t (mtx_owner m)) as [Eo|Eo]; cbn [negb].
  2: { kstep. eapply wp_upd_thread; [exact Ht|]. kstep. split_and!; try done.
    - exists m. split; [exact Hm|]. by apply mutex_ok_set.
    - by apply (wf_kst_field s t th (thr_error (- RT_ERROR))). }
  destruct Hok as [(_ & En & _)|(Hv & Hh & Hop & _)]; [congruence|].
  assert (Eh : u8 (mtx_hold m - 1) = mtx_hold m - 1) by (apply ubits_small; lia).
  rewrite Eh, <- Eo. do 2 kstep.
  destruct (Z.eqb_spec (mtx_hold m) 1) as [E1|E1]; cbn [negb].
  2: { test_false. repeat kstep. cbn [kwhen]. repeat kstep. split_and!; [|by apply wf_kst_ip|done..].
    eapply mutex_inv_held; [apply lookup_insert_eq|exact Hv|cbn; lia|exact Hop|].
    cbn. rewrite Ht. cbn. split; congruence. }
  rewrite E1. change (1 - 1) with 0. rewrite Z.eqb_refl. kstep.
  set (s1 := upd_ip _ s).
  assert (C1 : caller s1 t th) by (by apply (caller_ip s)).
  kstep. eapply wp_get_thread; [exact Ht|]. kstep. apply (wp_restore _ s1); [done|done|].
  destruct (restored_ok (mtx_original_priority m) s1 C1 Hop)
    as (W2 & Eip & Elk & El & Eth & x & Hx & Hxs & Hxp).
  set (s2 := restored _ _ _ _) in *. clearbody s2.
  assert (Ew : tlist (sc s2) (LSuspend mutex) = w) by (by rewrite El).
  apply wp_hand_over; [done|done|].
  destruct w as [|u w'] eqn:Eww.
  - rewrite Hv. repeat kstep. cbn [kwhen]. repeat kstep. split_and!; [|by apply wf_kst_ip|done| |].
    + exists new_mutex. split; [apply lookup_insert_eq|]. left. split_and!; try done.
    + cbn. rewrite Hx. cbn. congruence.
    + apply lookup_insert_eq.
  - intros thu Hu Hsu. change (u8 (0 + 1)) with 1. rewrite Hv. cbn [kwhen].
    eapply wp_mono; [apply (wp_new_owner s2 u w' thu x); try done; rewrite Elk; apply C|].
    intros r s' (R & Inv & W' & Hpt & Hw & Hus & Hmu & Hh'). split_and!; try done.
    + by rewrite <- Hxp.
    + rewrite Hmu. do 2 f_equal. unfold prio_of.
      change (s_threads (sc s)) with (s_threads (sc s1)). rewrite <- Eth; [by rewrite Hu|].
      intros ->. simplify_eq. by rewrite Hxs in Hsu.
Qed.

End Release.

Definition a_mutex : Z := 0x20007100.

(** The low-priority thread takes a mutex while the others sleep; then the peer
    is waked and runs. *)
Definition held : kst :=
  after (rt_mutex_take a_mutex 10)
    (after (rt_mutex_init a_mutex [109; 0] RT_IPC_FLAG_PRIO) sleeping).
Definition contended : kst :=
  after (rt_timer_check (call_timeout no_user_code) 5) (after (rt_tick_set 20) held).
(** The peer waits, its priority inherited by the owner. *)
Definition inherited : kst := after (rt_mutex_take a_mutex 10) contended.

Lemma wf_contended : wf_kst contended.
Proof. apply wf_check. evaluate. Qed.
Lemma wf_inherited : wf_kst inherited.
Proof. apply wf_check. evaluate. Qed.

Lemma caller_contended : exists th, caller contended peer_t th.
Proof.
  apply (caller_check _ _ work_t); [apply wf_contended|evaluate|evaluate|discriminate|evaluate..].
Qed.
Lemma caller_inherited : exists th, caller inherited work_t th.
Proof.
  apply (caller_check _ _ idle_t); [apply wf_inherited|evaluate|evaluate|discriminate|evaluate..].
Qed.

Lemma held_mutex (s : kst) (a o p : Z) (w : list Z) :
  i_mutexes (ip s) !! a = Some (RtMutex 0 p 1 o) -> 0 <= p < 32 ->
  t_stat <$> s_threads (sc s) !! o = Some RT_THREAD_READY ->
  mutex_ok s (RtMutex 0 p 1 o) w.
Proof.
  intros H Hp Ho. right. destruct (lookup_stat s o _ Ho) as (th & E & Hs).
  cbn. split_and!; try lia. exists th. split; [done|by rewrite Hs].
Qed.

Lemma rt_mutex_take_ok_witness :
  wp (rt_mutex_take a_mutex 10) (fun r s' => r = Wait peer_t /\
    exists tho, s_threads (sc s') !! work_t = Some tho /\ t_current_priority tho <= 10) contended.
Proof.
  destruct caller_contended as [th C].
  assert (Hm : i_mutexes (ip contended) !! a_mutex = Some (RtMutex 0 20 1 work_t)) by evaluate.
  assert (Hok : mutex_ok contended (RtMutex 0 20 1 work_t)
    (tlist (sc contended) (LSuspend a_mutex))).
  { apply (held_mutex contended a_mutex); [exact Hm|lia|evaluate]. }
  destruct (lookup_flag contended (Obj a_mutex) RT_IPC_FLAG_PRIO) as (y & Hy & Hf); [evaluate|].
  assert (Hp : t_current_priority <$> s_threads (sc contended) !! peer_t = Some 10) by evaluate.
  rewrite (ca_thread _ _ _ C) in Hp. injection Hp as Hp.
  eapply wp_mono;
    [apply (rt_mutex_take_ok contended peer_t a_mutex 10 th (RtMutex 0 20 1 work_t) y C)|].
  - discriminate.
  - exact Hm.
  - exact Hok.
  - cbn. lia.
  - exact Hy.
  - rewrite Hf. right. reflexivity.
  - lia.
  - rewrite Hp. intros r s' (_ & R & _ & T). split; [exact R|exact T].
Defined.

Lemma rt_mutex_release_ok_witness :
  wp (rt_mutex_release a_mutex) (fun r s' => r = RT_EOK /\ mutex_inv s' a_mutex /\
    t_current_priority <$> s_threads (sc s') !! work_t = Some 20 /\
    i_mutexes (ip s') !! a_mutex = Some (RtMutex 0 10 1 peer_t)) inherited.
Proof.
  destruct caller_inherited as [th C].
  assert (Hm : i_mutexes (ip inherited) !! a_mutex = Some (RtMutex 0 20 1 work_t)) by evaluate.
  assert (Hok : mutex_ok inherited (RtMutex 0 20 1 work_t)
    (tlist (sc inherited) (LSuspend a_mutex))).
  { apply (held_mutex inherited a_mutex); [exact Hm|lia|evaluate]. }
  assert (Hw : tlist (sc inherited) (LSuspend a_mutex) = [peer_t]) by evaluate.
  assert (Hp : prio_of (sc inherited) peer_t = 10) by evaluate.
  eapply wp_mono;
    [apply (rt_mutex_release_ok inherited work_t a_mutex th (RtMutex 0 20 1 work_t) C Hm Hok)|].
  rewrite Hw, Hp. intros r s' (I & _ & R & T & _ & _ & M & _).
  split; [exact R|]. split; [exact I|]. split; [exact T|exact M].
Defined.

(** The waiting peer gives up after its time, but the owner keeps the priority it
    inherited until it releases the mutex. *)
Definition given_up : kst :=
  after (rt_timer_check (call_timeout no_user_code) 5) (after (rt_tick_set 30) inherited).

Lemma boost_survives_timeout :
  tlist (sc given_up) (LSuspend a_mutex) = [] /\ prio_of (sc given_up) work_t = 10 /\
  i_mutexes (ip given_up) !! a_mutex = Some (RtMutex 0 20 1 work_t).
Proof. split_and!; evaluate. Qed.
