(* ===== verification/EventSpec.v ===== *)
(** * What events do

    The scan of the waiting threads by [rt_event_send] as a pure function on the
    list, and the operations on a kernel that satisfies the invariant. *)

From Stdlib Require Import Lia.
From S2P Require Import Prelude KService Heap KState Scheduler Object Timer Thread.
From S2P Require Import Invariant Sample ThreadSpec Frame Clock Ipc IpcSpec.

(** ** The scan *)

(** What a thread that waits gets from the event set [set]. *)
Definition event_matches (th : rt_thread) (set : Z) : option Z :=
  let both := Z.land (t_event_set th) set in
  if has_flag (t_event_info th) RT_EVENT_FLAG_AND then
    if both =? t_event_set th then Some (t_event_set th) else None
  else if has_flag (t_event_info th) RT_EVENT_FLAG_OR then
    if negb (both =? 0) then Some both else None
  else None.

Definition event_left (th : rt_thread) (got set : Z) : Z :=
  if has_flag (t_event_info th) RT_EVENT_FLAG_CLEAR then Z.land set (u32 (Z.lnot got)) else set.

(** The threads of [x] that are waked, in order, with what they got, and the
    event set in the end: a thread sees what the ones before it have left. *)
Fixpoint event_scan (c : sched) (x : list Z) (set : Z) : list (Z * Z) * Z :=
  match x with
  | [] => ([], set)
  | t :: x =>
      match s_threads c !! t with
      | Some th =>
          match event_matches th set with
          | Some got => let '(ws, final) := event_scan c x (event_left th got set) in
                        ((t, got) :: ws, final)
          | None => event_scan c x set
          end
      | None => event_scan c x set
      end
  end.

(** The event set of a waked thread is what it got. *)
Definition got_event (ws : list (Z * Z)) (u : Z) (th : rt_thread) : rt_thread :=
  match (list_to_map ws : gmap Z Z) !! u with
  | Some got => thr_event got (t_event_info th) th
  | None => th
  end.

Lemma event_scan_sub (c : sched) (x : list Z) (set : Z) :
  fst <$> (event_scan c x set).1 ⊆ x.
Proof.
  revert set. induction x as [|t x IH]; intros set; [set_solver|]. cbn.
  destruct (s_threads c !! t) as [th|]; [|set_solver].
  destruct (event_matches th set) as [got|]; [|set_solver].
  specialize (IH (event_left th got set)). destruct (event_scan c x _) as [ws final].
  cbn in *. set_solver.
Qed.

Lemma event_scan_ext (c c' : sched) (x : list Z) (set : Z) :
  (forall u, u ∈ x -> s_threads c' !! u = s_threads c !! u) ->
  event_scan c' x set = event_scan c x set.
Proof.
  revert set. induction x as [|t x IH]; intros set E; [done|]. cbn.
  rewrite (E t ltac:(by left)). assert (E' : forall u, u ∈ x -> s_threads c' !! u = s_threads c !! u) by (intros; apply E; by right).
  destruct (s_threads c !! t) as [th|]; [|by apply IH].
  destruct (event_matches th set) as [got|]; [|by apply IH]. by rewrite IH.
Qed.

Lemma waked_ext (f g : Z -> rt_thread -> rt_thread) (ts : list Z) (c c' : sched) :
  (forall u th, u ∈ ts -> f u th = g u th) -> waked f ts c c' -> waked g ts c c'.
Proof.
  intros E A. constructor; [|apply A]. intros u. rewrite (wa_threads _ _ _ _ A).
  case_decide; [|done]. destruct (s_threads c !! u); cbn; [|done]. by rewrite E.
Qed.

Lemma got_event_head (t got : Z) (ws : list (Z * Z)) (th : rt_thread) :
  got_event ((t, got) :: ws) t th = thr_event got (t_event_info th) th.
Proof. unfold got_event. cbn. by rewrite lookup_insert_eq. Qed.

Lemma got_event_tail (t got u : Z) (ws : list (Z * Z)) (th : rt_thread) :
  u <> t -> got_event ((t, got) :: ws) u th = got_event ws u th.
Proof. intros H. unfold got_event. cbn. by rewrite lookup_insert_ne. Qed.

Lemma thr_event_same (th : rt_thread) : thr_event (t_event_set th) (t_event_info th) th = th.
Proof. by destruct th. Qed.

(** ** One thread, then all *)

Definition set_event (a v : Z) (s : kst) : kst :=
  upd_ip (fun c => with_events (<[a := RtEvent v]> (i_events c)) c) s.

Lemma set_event_same (a v : Z) (s : kst) :
  i_events (ip s) !! a = Some (RtEvent v) -> set_event a v s = s.
Proof.
  intros H. unfold set_event, upd_ip, with_events. rewrite insert_id by done.
  by destruct s as [? ? ? [] ? ?].
Qed.

(** The state after thread [t] has been waked with [got]. *)
Definition event_waked (a t got : Z) (th : rt_thread) (set : Z) (s : kst) : kst :=
  let th' := thr_event got (t_event_info th) th in
  resumed t th' (set_thread t th' (set_event a (event_left th got set) s)).

(** The part of [event_wake] behind the test, when the thread has got [got]. *)
Lemma wp_event_resume (s : kst) (a t got set : Z) (th : rt_thread) (Q : bool -> kst -> Prop) :
  wf_kst s -> i_events (ip s) !! a = Some (RtEvent set) ->
  s_threads (sc s) !! t = Some th -> t_stat th = RT_THREAD_SUSPEND -> t_event_set th = got ->
  Q true (resumed t th (set_event a (event_left th got set) s)) ->
  wp (th ← get_thread t;
      _ ← kwhen (has_flag (t_event_info th) RT_EVENT_FLAG_CLEAR) (event_clear a (t_event_set th));
      _ ← rt_thread_resume t;
      mret true) Q s.
Proof.
  intros W He Ht Hs Eg HQ. do 3 kstep. unfold event_left in HQ. rewrite Eg.
  destruct (has_flag (t_event_info th) RT_EVENT_FLAG_CLEAR); cbn [kwhen].
  - unfold event_clear. kstep. eapply wp_get_event; [exact He|]. repeat kstep.
    eapply (wp_resume (set_event a (Z.land set (u32 (Z.lnot got))) s));
      [by apply wf_kst_ip|exact Ht|done|]. by kstep.
  - kstep. kstep. rewrite set_event_same in HQ by done.
    eapply wp_resume; [done|exact Ht|done|]. by kstep.
Qed.

Lemma wp_event_wake (s : kst) (a t set : Z) (th : rt_thread) (Q : bool -> kst -> Prop) :
  wf_kst s -> i_events (ip s) !! a = Some (RtEvent set) ->
  s_threads (sc s) !! t = Some th -> t_stat th = RT_THREAD_SUSPEND ->
  match event_matches th set with
  | Some got => Q true (event_waked a t got th set s)
  | None => Q false s
  end -> wp (event_wake a t) Q s.
Proof.
  intros W He Ht Hs HQ. unfold event_wake. do 2 kstep. kstep. eapply wp_get_event; [exact He|].
  cbn [ev_set]. unfold event_matches in HQ. kstep.
  destruct (has_flag (t_event_info th) RT_EVENT_FLAG_AND).
  - kstep. destruct (Z.eqb_spec (Z.land (t_event_set th) set) (t_event_set th)); [|exact HQ].
    eapply (wp_event_resume s a t (t_event_set th) set); [done..|]. unfold event_waked in HQ. cbv zeta in HQ.
    rewrite thr_event_same, set_same in HQ by exact Ht. exact HQ.
  - destruct (has_flag (t_event_info th) RT_EVENT_FLAG_OR); [|by repeat kstep].
    destruct (negb (Z.land (t_event_set th) set =? 0)); [|by repeat kstep].
    do 3 kstep. eapply wp_event_resume.
    + by apply (wf_kst_field s t th (fun th => thr_event (Z.land (t_event_set th) set) (t_event_info th) th)).
    + exact He.
    + apply lookup_insert_eq.
    + done.
    + done.
    + exact HQ.
Qed.

Lemma event_waked_ok (s : kst) (a t got set : Z) (th : rt_thread) :
  wf_kst s -> s_threads (sc s) !! t = Some th -> t_stat th = RT_THREAD_SUSPEND ->
  let s' := event_waked a t got th set s in
  wf_kst s' /\ waked (fun _ th => thr_event got (t_event_info th) th) [t] (sc s) (sc s') /\
  ip s' = ip (set_event a (event_left th got set) s) /\
  s_current (sc s') = s_current (sc s) /\ calm [t] s s'.
Proof.
  intros W Ht Hs s'. set (s1 := set_event a (event_left th got set) s).
  assert (W1 : wf_kst s1) by (by apply wf_kst_ip).
  assert (W2 : wf_kst (set_thread t (thr_event got (t_event_info th) th) s1))
    by (by apply (wf_kst_field s1 t th (thr_event got (t_event_info th)))).
  split_and!.
  - apply resumed_someone; [exact W2|apply lookup_insert_eq|exact Hs].
  - exact (resumed_waked s1 t th (fun th => thr_event got (t_event_info th) th) Ht eq_refl).
  - unfold s'. unfold event_waked. cbv zeta. by rewrite resumed_ip.
  - cbn. by rewrite stopped_sc.
  - etrans; [apply calm_upd_ip|]. etrans; [apply calm_set_thread|]. by apply calm_resumed.
Qed.

Lemma wp_event_loop (x : list Z) (s : kst) (a set : Z) (b : bool) :
  wf_kst s -> NoDup x -> i_events (ip s) !! a = Some (RtEvent set) ->
  (forall t, t ∈ x -> t_stat <$> s_threads (sc s) !! t = Some RT_THREAD_SUSPEND) ->
  let '(ws, final) := event_scan (sc s) x set in
  wp (event_send_loop a x b) (fun r s' =>
    wf_kst s' /\ r = b || negb (bool_decide (ws = [])) /\
    waked (got_event ws) (fst <$> ws) (sc s) (sc s') /\ ip s' = ip (set_event a final s) /\
    s_current (sc s') = s_current (sc s) /\ calm (fst <$> ws) s s') s.
Proof.
  revert s set b. induction x as [|t x IH]; intros s set b W N He Hx; cbn [event_scan event_send_loop].
  - kstep. split_and!; try done; [by rewrite orb_false_r|by apply waked_nil|by rewrite set_event_same].
  - destruct (lookup_stat s t _ (Hx t ltac:(by left))) as (th & Ht & Hs). rewrite Ht.
    pose proof (NoDup_cons_1_1 _ _ N) as Hn. pose proof (NoDup_cons_1_2 _ _ N) as Nx.
    assert (Hx' : forall u, u ∈ x -> t_stat <$> s_threads (sc s) !! u = Some RT_THREAD_SUSPEND)
      by (intros; apply Hx; by right).
    pose proof (wp_event_wake s a t set th) as Wk.
    destruct (event_matches th set) as [got|] eqn:Em.
    + destruct (event_waked_ok s a t got set th W Ht Hs) as (W1 & A1 & I1 & L1 & L2).
      set (s1 := event_waked a t got th set s) in *.
      assert (Keep : forall u, u ∈ x -> s_threads (sc s1) !! u = s_threads (sc s) !! u).
      { intros u Hu. rewrite (wa_threads _ _ _ _ A1), decide_False; [done|]. set_solver. }
      clearbody s1. specialize (IH s1 (event_left th got set) true W1 Nx).
      rewrite (event_scan_ext (sc s) (sc s1)) in IH by done.
      pose proof (event_scan_sub (sc s) x (event_left th got set)) as Sub.
      destruct (event_scan (sc s) x _) as [ws final]. cbn in Sub.
      kstep. apply Wk; try done. rewrite orb_true_r. eapply wp_mono; [apply IH|].
      * rewrite I1. apply lookup_insert_eq.
      * intros u Hu. rewrite Keep by done. by apply Hx'.
      * intros r s' (W' & Hr & A & I & J1 & J2). split_and!; try congruence.
        -- rewrite Hr. by rewrite orb_true_r.
        -- rewrite fmap_cons. cbn [fst]. eapply waked_cons.
           ++ set_solver.
           ++ eapply waked_ext; [|exact A1]. intros u z ->%list_elem_of_singleton.
              by rewrite got_event_head.
           ++ eapply waked_ext; [|exact A]. intros u z Hu. symmetry. apply got_event_tail. set_solver.
        -- rewrite I. unfold set_event in *. cbn. rewrite I1. cbn. unfold with_events. cbn.
           by rewrite insert_insert_eq.
        -- etrans; eapply calm_weaken; [|exact L2| |exact J2]; set_solver.
    + specialize (IH s set (b || false) W Nx He Hx'). destruct (event_scan (sc s) x set) as [ws final].
      kstep. apply Wk; try done. rewrite orb_false_r in *. exact IH.
Qed.

Lemma waked_someone (f : Z -> rt_thread -> rt_thread) (ts : list Z) (c c' : sched) (u : Z) :
  waked f ts c c' -> u ∈ ts -> is_Some (s_threads c !! u) -> someone_ready c'.
Proof.
  intros A Hu [th Hth]. exists u, (thr_stat RT_THREAD_READY (f u th)). split; [|done].
  by rewrite (wa_threads _ _ _ _ A), decide_True, Hth.
Qed.

Lemma waiting_stat (s : kst) (l : lid) (u : Z) :
  wf_kst s -> wait_list l -> u ∈ tlist (sc s) l ->
  t_stat <$> s_threads (sc s) !! u = Some RT_THREAD_SUSPEND.
Proof.
  intros W Hl Hu. destruct (ws_loc _ (wk_sched _ W) l u Hu) as (th & E & Hloc). rewrite E. cbn.
  f_equal. by destruct l.
Qed.

Lemma wp_event_send (s : kst) (event set e final : Z) (ws : list (Z * Z)) (Q : Z -> kst -> Prop) :
  wf_kst s -> event <> RT_NULL -> u32 set <> 0 ->
  i_events (ip s) !! event = Some (RtEvent e) ->
  event_scan (sc s) (tlist (sc s) (LSuspend event)) (Z.lor e (u32 set)) = (ws, final) ->
  (forall s', wf_kst s' -> waked (got_event ws) (fst <$> ws) (sc s) (sc s') ->
     ip s' = ip (set_event event final s) -> calm (fst <$> ws) s s' ->
     (ws = [] -> s_current (sc s') = s_current (sc s)) ->
     (ws <> [] -> s_lock_nest (sc s) = 0 -> exists p, highest (sc s') p (s_current (sc s'))) ->
     Q RT_EOK s') ->
  wp (rt_event_send event set) Q s.
Proof.
  intros W Ha Hset He Es HQ. set (x := tlist (sc s) (LSuspend event)) in *.
  set (s1 := set_event event (Z.lor e (u32 set)) s).
  pose proof (wp_event_loop x s1 event (Z.lor e (u32 set)) false) as L.
  pose proof (event_scan_sub (sc s) x (Z.lor e (u32 set))) as Sub.
  change (event_scan (sc s1)) with (event_scan (sc s)) in L. rewrite Es in L, Sub. cbn in Sub.
  unfold rt_event_send. kstep. kstep; [by apply negb_true_iff, Z.eqb_neq|].
  rewrite (proj2 (Z.eqb_neq _ _) Hset). kstep. eapply wp_get_event; [exact He|]. repeat kstep.
  change (upd_ip _ s) with s1. change (tlist (sc s1) (LSuspend event)) with x.
  eapply wp_mono; [apply L|].
  - by apply wf_kst_ip.
  - apply W.
  - apply lookup_insert_eq.
  - intros t Ht. by apply (waiting_stat s (LSuspend event)).
  - intros b s2 (W2 & -> & A & I & L1 & Ca). cbn [orb]. change (sc s1) with (sc s) in *.
    assert (Ca' : calm (fst <$> ws) s s2) by (etrans; [apply calm_upd_ip|exact Ca]).
    assert (Ip : ip s2 = ip (set_event event final s)).
    { rewrite I. unfold set_event, with_events. cbn. by rewrite insert_insert_eq. }
    case_bool_decide as D; cbn [negb kwhen]; [kstep; kstep; by apply HQ|].
    kstep. apply wp_reschedule; [done| |].
    + destruct ws as [|[u got] ws]; [done|]. eapply waked_someone; [exact A|by left|].
      assert (Hu : u ∈ x) by (cbn in Sub; set_solver).
      destruct (ws_loc _ (wk_sched _ W) _ _ Hu) as (th & E & _). by exists th.
    + intros s' R W'. kstep.
      destruct (rescheduled_same _ _ R) as (E1 & E2 & _ & _ & _ & _ & _ & E8 & _).
      apply HQ; try done.
      * eapply waked_after; [exact A|done|done].
      * by rewrite E8.
      * etrans; [exact Ca'|]. by apply calm_rescheduled.
      * intros _ Lk. destruct (rescheduled_current _ _ R) as [p Hp].
        { by rewrite (cm_lock _ _ _ Ca'). }
        exists p. eapply highest_lists; [exact E2|exact Hp].
Qed.

(** C22: [rt_event_send] adds its events to the set and goes once through the
    waiting threads in the order of the list: a thread is waked exactly when the
    set, less what the threads before it have consumed, holds all of its events
    (AND) or one of them (OR); it is told which events it got and, with CLEAR,
    takes these out of the set.  The others go on waiting in their order. *)
Theorem rt_event_send_ok (s : kst) (event set e : Z) :
  wf_kst s -> event <> RT_NULL -> u32 set <> 0 ->
  i_events (ip s) !! event = Some (RtEvent e) ->
  let '(ws, final) :=
    event_scan (sc s) (tlist (sc s) (LSuspend event)) (Z.lor e (u32 set)) in
  wp (rt_event_send event set) (fun r s' =>
    r = RT_EOK /\ wf_kst s' /\
    waked (got_event ws) (fst <$> ws) (sc s) (sc s') /\
    i_events (ip s') !! event = Some (RtEvent final) /\
    (ws <> [] -> s_lock_nest (sc s) = 0 -> exists p, highest (sc s') p (s_current (sc s')))) s.
Proof.
  intros W Ha Hset He. destruct (event_scan _ _ _) as [ws final] eqn:Es.
  eapply wp_event_send; [done..|exact He|exact Es|]. intros s' W' A I _ _ H. split_and!; try done.
  rewrite I. apply lookup_insert_eq.
Qed.

(** What the caller of [rt_event_recv] asks for. *)
Definition event_ready (set opt e : Z) : bool :=
  if has_flag opt RT_EVENT_FLAG_AND then Z.land e set =? set else negb (Z.land e set =? 0).

Lemma wp_event_recv (s : kst) (t event set opt time e : Z) (th : rt_thread) (y : rt_object)
    (Q : outcome (Z * option Z) Z -> kst -> Prop) :
  wf_kst s -> s_current (sc s) = t -> s_interrupt_nest (sc s) = 0 ->
  s_threads (sc s) !! t = Some th -> event <> RT_NULL -> 0 < set < 2 ^ 32 ->
  i_events (ip s) !! event = Some (RtEvent e) -> ob_objs (ob s) !! Obj event = Some y ->
  valid_flag (o_flag y) -> time < 2 ^ 31 - 1 ->
  has_flag opt RT_EVENT_FLAG_AND || has_flag opt RT_EVENT_FLAG_OR = true ->
  let th1 := thr_error RT_EOK th in
  let th2 := thr_event set (u8 opt) th1 in
  (event_ready set opt e = false -> time <> 0 -> caller s t th) ->
  (event_ready set opt e = true -> Q (Return (RT_EOK, Some (Z.land e set)))
     (set_event event (if has_flag opt RT_EVENT_FLAG_CLEAR then Z.land e (u32 (Z.lnot set)) else e)
             (set_thread t th1 s))) ->
  (event_ready set opt e = false -> time = 0 ->
     Q (Return (- RT_ETIMEOUT, None)) (set_thread t (thr_error (- RT_ETIMEOUT) th) s)) ->
  (event_ready set opt e = false -> time <> 0 -> forall s',
     blocked (LSuspend event) (o_flag y) t time th2 (set_thread t th2 s) s' -> Q (Wait t) s') ->
  wp (rt_event_recv event set opt time) Q s.
Proof.
  intros W Hc Hn Ht Ha Hset He Hy Hf Htime Hopt th1 th2 C H1 H2 H3.
  assert (Es : u32 set = set) by (apply ubits_small; lia).
  pose proof (wk_addr _ W t th Ht) as Haddr.
  unfold rt_event_recv. kstep.
  unfold RT_DEBUG_IN_THREAD_CONTEXT, RT_DEBUG_NOT_IN_INTERRUPT.
  do 3 kstep. kstep; [rewrite Hc; by apply neqb_null|]. do 2 kstep. kstep; [by rewrite Hn|].
  kstep. kstep; [by apply negb_true_iff, Z.eqb_neq|]. rewrite Es. test_false.
  do 2 kstep. rewrite Hc. kstep. eapply wp_upd_thread; [exact Ht|].
  kstep. eapply wp_get_event; [exact He|]. cbn [ev_set]. kstep.
  fold th1. set (s1 := set_thread t th1 s) in *.
  assert (Ht1 : s_threads (sc s1) !! t = Some th1) by apply lookup_insert_eq.
  assert (T : wp (if has_flag opt RT_EVENT_FLAG_AND then mret (Z.land e set =? set)
        else if has_flag opt RT_EVENT_FLAG_OR then mret (negb (Z.land e set =? 0))
        else _ ← kassert false; mret false) (fun b s' => b = event_ready set opt e /\ s' = s1) s1).
  { unfold event_ready. destruct (has_flag opt RT_EVENT_FLAG_AND); [by kstep|].
    cbn [orb] in Hopt. rewrite Hopt. by kstep. }
  eapply wp_mono; [exact T|]. intros b s2 [-> ->]. destruct (event_ready set opt e).
  - kstep. unfold event_clear. specialize (H1 eq_refl).
    destruct (has_flag opt RT_EVENT_FLAG_CLEAR); cbn [kwhen].
    + kstep. eapply wp_get_event; [exact He|]. do 3 kstep. by kstep.
    + repeat kstep. by rewrite set_event_same in H1.
  - case_test.
    + kstep. eapply wp_upd_thread; [exact Ht1|]. kstep.
      eapply wp_get_thread; [apply lookup_insert_eq|]. kstep. unfold s1. rewrite set_thread_twice.
      by apply H2.
    + kstep. eapply wp_upd_thread; [exact Ht1|]. unfold s1. rewrite set_thread_twice.
      kstep. eapply wp_get_flag; [exact Hy|]. kstep.
      eapply (wp_block _ _ t _ th2); [|done|exact Hf|done|].
      * specialize (C eq_refl Etest). by apply (caller_field s t th).
      * intros s' B. kstep. by apply H3.
Qed.

(** C23: [rt_event_recv] returns at once, with the events it asked for that are in
    the set, when all of them (AND) or one of them (OR) are there, and with CLEAR
    takes them out; it fails with -RT_ETIMEOUT at once when it may not wait; else
    the caller waits in the order of the event with its request noted in the
    thread, its timer running for a positive time. *)
Theorem rt_event_recv_ok (s : kst) (t event set opt time e : Z) (th : rt_thread) (y : rt_object) :
  caller s t th -> event <> RT_NULL -> 0 < set < 2 ^ 32 ->
  i_events (ip s) !! event = Some (RtEvent e) -> ob_objs (ob s) !! Obj event = Some y ->
  valid_flag (o_flag y) -> time < 2 ^ 31 - 1 ->
  has_flag opt RT_EVENT_FLAG_AND || has_flag opt RT_EVENT_FLAG_OR = true ->
  let th1 := thr_error RT_EOK th in
  let th2 := thr_event set (u8 opt) th1 in
  wp (rt_event_recv event set opt time) (fun r s' =>
    if event_ready set opt e then
      r = Return (RT_EOK, Some (Z.land e set)) /\
      s' = set_event event (if has_flag opt RT_EVENT_FLAG_CLEAR then Z.land e (u32 (Z.lnot set)) else e)
             (set_thread t th1 s)
    else if time =? 0 then
      r = Return (- RT_ETIMEOUT, None) /\ s' = set_thread t (thr_error (- RT_ETIMEOUT) th) s
    else r = Wait t /\
      blocked (LSuspend event) (o_flag y) t time th2 (set_thread t th2 s) s') s.
Proof.
  intros C Ha Hset He Hy Hf Htime Hopt th1 th2.
  eapply wp_event_recv; try apply C; [done|done|exact He|exact Hy|done..| | |].
  - intros E. by rewrite E.
  - intros E Hz. by rewrite E, Hz.
  - intros E Hz s' B. rewrite E. by rewrite (proj2 (Z.eqb_neq _ _) Hz).
Qed.

(** ** Samples *)

Definition an_event : Z := 0x20007200.

(** The main thread waits for events 1 and 2, the peer for one of 2 and 4. *)
Definition event_waited : kst :=
  after (rt_event_recv an_event 6 (RT_EVENT_FLAG_OR + RT_EVENT_FLAG_CLEAR) 10)
    (after (rt_event_recv an_event 3 (RT_EVENT_FLAG_AND + RT_EVENT_FLAG_CLEAR) 10)
      (after (rt_event_init an_event [101; 0] RT_IPC_FLAG_FIFO) running)).

Lemma wf_event_waited : wf_kst event_waited.
Proof. apply wf_check. evaluate. Qed.

Lemma rt_event_send_ok_witness :
  wp (rt_event_send an_event 7) (fun r s' => r = RT_EOK /\ wf_kst s' /\
    tlist (sc s') (LSuspend an_event) = [] /\
    i_events (ip s') !! an_event = Some (RtEvent 0)) event_waited.
Proof.
  assert (He : i_events (ip event_waited) !! an_event = Some (RtEvent 0)) by evaluate.
  assert (Esc : event_scan (sc event_waited) (tlist (sc event_waited) (LSuspend an_event))
    (Z.lor 0 (u32 7)) = ([(main_t, 3); (peer_t, 4)], 0)) by evaluate.
  assert (Ew : tlist (sc event_waited) (LSuspend an_event) = [main_t; peer_t]) by evaluate.
  pose proof (rt_event_send_ok event_waited an_event 7 0 wf_event_waited) as T.
  rewrite Esc in T. eapply wp_mono; [apply T|].
  - discriminate.
  - discriminate.
  - exact He.
  - intros r s' (R & W & A & E & _). split; [exact R|]. split; [exact W|]. split; [|exact E].
    rewrite (wa_lists _ _ _ _ A), Ew. evaluate.
Defined.

Lemma caller_event_waited : exists th, caller event_waited work_t th.
Proof.
  apply (caller_check _ _ idle_t); [apply wf_event_waited|evaluate|evaluate|discriminate|evaluate..].
Qed.

Lemma rt_event_recv_ok_witness :
  wp (rt_event_recv an_event 1 RT_EVENT_FLAG_OR 0) (fun r s' =>
    r = Return (- RT_ETIMEOUT, None)) event_waited.
Proof.
  destruct caller_event_waited as [th C].
  assert (He : i_events (ip event_waited) !! an_event = Some (RtEvent 0)) by evaluate.
  destruct (lookup_flag event_waited (Obj an_event) RT_IPC_FLAG_FIFO) as (y & Hy & Hf); [evaluate|].
  eapply wp_mono;
    [apply (rt_event_recv_ok event_waited work_t an_event 1 RT_EVENT_FLAG_OR 0 0 th y C)|].
  - discriminate.
  - lia.
  - exact He.
  - exact Hy.
  - rewrite Hf. left. reflexivity.
  - lia.
  - reflexivity.
  - intros r s' [R _]. exact R.
Defined.
