(* ===== verification/DfsPath.v ===== *)
(** * Paths of the virtual file system (Filesystems/dfs.c)

    [dfs_normalize_path] joins a directory and a file name and takes the empty
    components, [.] and [..] out of the path in place, with a read and a write cursor
    in one buffer.  Below the code: what a path means, where the cursors go, and the proof
    that they compute the path as long as it does not go up from the root. *)

From Stdlib Require Import Lia.
From S2P Require Import Prelude KService Printf Heap.

(** ** The code *)

(** The characters [/] and [.]. *)
Definition SLASH : Z := 47.
Definition DOT : Z := 46.

(** [while ((c = *src++) != '\0' && c != '/') *dst++ = c;]: the buffer, the cursors and
    the last [c]. *)
Fixpoint copy_part (fuel : nat) (buf : list Z) (src dst : Z) : res (list Z * Z * Z * Z) :=
  match fuel with
  | O => AssertFail
  | S fuel =>
      c ← load_at buf src;
      if negb (c =? 0) && negb (c =? SLASH) then
        buf ← store_at buf dst c; copy_part fuel buf (src + 1) (dst + 1)
      else mret (buf, src + 1, dst, c)
  end.

(** [src] goes over slashes, one at a time. *)
Fixpoint skip_slashes (fuel : nat) (buf : list Z) (src : Z) : res Z :=
  match fuel with
  | O => AssertFail
  | S fuel =>
      c ← load_at buf src;
      if (c =? SLASH) && negb (c =? 0) then skip_slashes fuel buf (src + 1) else mret src
  end.

(** [while (c == '/') c = *src++;] *)
Fixpoint eat_slashes (fuel : nat) (buf : list Z) (src c : Z) : res Z :=
  if c =? SLASH then
    match fuel with
    | O => AssertFail
    | S fuel => c ← load_at buf src; eat_slashes fuel buf (src + 1) c
    end
  else mret src.

(** [while (dst0 < dst && dst[-1] != '/') dst--;] *)
Fixpoint back_up (fuel : nat) (buf : list Z) (dst : Z) : res Z :=
  match fuel with
  | O => AssertFail
  | S fuel =>
      if 0 <? dst then
        c ← load_at buf (dst - 1);
        if negb (c =? SLASH) then back_up fuel buf (dst - 1) else mret dst
      else mret dst
  end.

(** What the look at the dots decides: to start over, to go up, or to copy. *)
Inductive dots := Skip (src : Z) | UpOne (src : Z) | Copy (src : Z).

Definition look_at_dots (fuel : nat) (buf : list Z) (src : Z) : res dots :=
  c ← load_at buf src;
  if c =? DOT then
    c1 ← load_at buf (src + 1);
    if c1 =? 0 then mret (Copy (src + 1))
    else if c1 =? SLASH then src ← skip_slashes fuel buf (src + 2); mret (Skip src)
    else if c1 =? DOT then
      c2 ← load_at buf (src + 2);
      if c2 =? 0 then mret (UpOne (src + 2))
      else if c2 =? SLASH then src ← skip_slashes fuel buf (src + 3); mret (UpOne src)
      else mret (Copy src)
    else mret (Copy src)
  else mret (Copy src).

(** The loop; [None] when the path goes up from its start.  [len] bounds the inner
    loops, [fuel] the rounds. *)
Fixpoint normalize_loop (fuel len : nat) (buf : list Z) (src dst : Z) : res (option (list Z * Z)) :=
  match fuel with
  | O => AssertFail
  | S fuel =>
      d ← look_at_dots len buf src;
      match d with
      | Skip src => normalize_loop fuel len buf src dst
      | UpOne src =>
          let dst := dst - 1 in
          if dst <? 0 then mret None else
          dst ← back_up len buf dst; normalize_loop fuel len buf src dst
      | Copy src =>
          '(buf, src, dst, c) ← copy_part len buf src dst;
          if c =? SLASH then
            buf ← store_at buf dst SLASH;
            src ← eat_slashes len buf src c;
            normalize_loop fuel len buf (src - 1) (dst + 1)
          else mret (Some (buf, dst))
      end
  end.

(** From [src = fullpath] on. *)
Definition normalize (fullpath : list Z) : res (option (list Z)) :=
  let len := S (length fullpath) in
  r ← normalize_loop len len fullpath 0 0;
  match r with
  | None => mret None
  | Some (buf, dst) =>
      buf ← store_at buf dst 0;
      let dst := dst - 1 in
      if negb (dst =? 0) then
        c ← load_at buf dst;
        if c =? SLASH then buf ← store_at buf dst 0; mret (Some buf) else mret (Some buf)
      else mret (Some buf)
  end.

Section Heap.
Context `{Allocator H}.
(** What a new block of a size holds. *)
Variable raw : Z -> list Z.

Definition rt_strdup (s : list Z) : ST H (option (Z * list Z)) :=
  n ← lift (Str.rt_strlen s);
  let len := n + 1 in
  tmp ← al_malloc len;
  if tmp =? 0 then mret None else
  mem ← lift (memcpy_at (raw len) 0 s 0 len);
  mret (Some (tmp, mem)).

Definition path_format : list Z := [37; 115; 47; 37; 115; 0].

(** The address of the result and the bytes there; [None]: [RT_NULL]. *)
Definition dfs_normalize_path (working_directory : list Z) (directory : option (list Z))
    (filename : list Z) : ST H (option (Z * list Z)) :=
  let directory := default working_directory directory in
  c ← lift (load_at filename 0);
  fullpath ← (if negb (c =? SLASH) then
      n ← lift (Str.rt_strlen directory);
      m ← lift (Str.rt_strlen filename);
      let len := n + m + 2 in
      p ← al_malloc len;
      if p =? 0 then mret None else
      '(_, mem) ← lift (rt_snprintf p (raw len) len path_format
                          [AStr (Some directory); AStr (Some filename)]);
      mret (Some (p, mem))
    else rt_strdup filename);
  match fullpath with
  | None => mret None
  | Some (p, mem) =>
      r ← lift (normalize mem);
      match r with
      | None => _ ← al_free p; mret None
      | Some mem => mret (Some (p, mem))
      end
  end.

End Heap.

Definition dfs_subdir (directory filename : list Z) : res (option Z) :=
  n ← Str.rt_strlen directory;
  m ← Str.rt_strlen filename;
  if n =? m then mret None else
  c ← load_at filename n;
  mret (Some (if negb (c =? SLASH) && negb (n =? 0) then n - 1 else n)).

(** ** Components *)

(** The parts of a text between the slashes. *)
Fixpoint split (p : list Z) : list (list Z) :=
  match p with
  | [] => [[]]
  | c :: p =>
      if c =? SLASH then [] :: split p
      else match split p with t :: ts => (c :: t) :: ts | [] => [[c]] end
  end.

(** One component, on a stack of directories with the innermost first; [None] where it
    goes up from the root. *)
Definition walk (stack : list (list Z)) (t : list Z) : option (list (list Z)) :=
  if bool_decide (t = []) || bool_decide (t = [DOT]) then Some stack
  else if bool_decide (t = [DOT; DOT]) then
    match stack with _ :: stack => Some stack | [] => None end
  else Some (t :: stack).

Fixpoint walk_all (stack ts : list (list Z)) : option (list (list Z)) :=
  match ts with
  | [] => Some stack
  | t :: ts => stack ← walk stack t; walk_all stack ts
  end.

(** The directories a path from the root leads through, the innermost first. *)
Definition resolve (p : list Z) : option (list (list Z)) := walk_all [] (split p).

(** The absolute path with these directories: each behind a slash. *)
Definition absolute_text (stack : list (list Z)) : list Z :=
  match stack with
  | [] => [SLASH]
  | _ => concat (map (cons SLASH) (reverse stack))
  end.

(** ** Where the cursors go

    The same for the code, to be followed in the proof.  It has no notion of a root: in
    front of the buffer's start there is the text with a slash or the text without one.
    Going up from the first leaves the second, and only going up from there is an
    error. *)
Definition trace_one (root : bool) (stack : list (list Z)) (t : list Z) : option (bool * list (list Z)) :=
  if bool_decide (t = []) || bool_decide (t = [DOT]) then Some (root, stack)
  else if bool_decide (t = [DOT; DOT]) then
    match stack with
    | _ :: stack => Some (root, stack)
    | [] => if root then Some (false, []) else None
    end
  else Some (root, t :: stack).

Fixpoint trace_all (root : bool) (stack ts : list (list Z)) : option (bool * list (list Z)) :=
  match ts with
  | [] => Some (root, stack)
  | t :: ts => '(root, stack) ← trace_one root stack t; trace_all root stack ts
  end.

Definition absolute (p : list Z) : bool := match p with c :: _ => c =? SLASH | [] => false end.

Definition trace (p : list Z) : option (bool * list (list Z)) := trace_all (absolute p) [] (split p).

(** Every component with a slash behind it; and without the last slash. *)
Definition render (root : bool) (stack : list (list Z)) : list Z :=
  (if root then [SLASH] else []) ++ concat (map (fun t => t ++ [SLASH]) (reverse stack)).

Definition path_text (root : bool) (stack : list (list Z)) : list Z :=
  match stack with
  | [] => render root []
  | t :: stack => render root stack ++ t
  end.

Example normalize_small :
  normalize [47; 97; 47; 47; 46; 47; 98; 47; 46; 46; 47; 99; 47; 0] =
    Ok (Some [47; 97; 47; 99; 0; 0; 98; 47; 46; 46; 47; 99; 47; 0]).
Proof. reflexivity. Qed.

(** Up from the root: [/../a] is [a], which is no absolute path, and on [/..] the code
    reads the byte in front of the block. *)
Example up_from_root :
  normalize [47; 46; 46; 47; 97; 0] = Ok (Some [97; 0; 46; 47; 97; 0]) /\
  normalize [47; 46; 46; 0] = Fault.
Proof. split; reflexivity. Qed.

(** ** The buffer *)

Abbreviation len l := (Z.of_nat (length (l : list Z))).

(** Lengths of lists, for [lia]. *)
Ltac lens := repeat (rewrite ?length_app, ?length_replicate in *; progress cbn [length] in *);
  repeat rewrite length_app in *; rewrite ?length_replicate in *; lia.

(** Writing a character that was read at or behind the write cursor. *)
Lemma store_back (out junk post : list Z) (c i : Z) :
  i = len out -> exists junk', length junk' = length junk /\
    store_at (out ++ junk ++ c :: post) i c = Ok ((out ++ [c]) ++ junk' ++ post).
Proof.
  intros ->. destruct junk as [|j junk]; cbn [app].
  - exists []. split; [done|]. rewrite store_mid by done. by rewrite <- app_assoc.
  - exists (junk ++ [c]). split; [rewrite length_app; cbn; lia|]. rewrite store_mid by done.
    by rewrite <- !app_assoc.
Qed.

Definition plain (t : list Z) : Prop := Forall (fun c => c <> 0 /\ c <> SLASH) t.

Lemma copy_part_ok (t out junk post : list Z) (x src dst : Z) (fuel : nat) :
  (length t < fuel)%nat -> plain t -> x = 0 \/ x = SLASH -> dst = len out -> src = dst + len junk ->
  exists junk', length junk' = length junk /\
    copy_part fuel (out ++ junk ++ t ++ x :: post) src dst =
      Ok ((out ++ t) ++ junk' ++ x :: post, src + len t + 1, dst + len t, x).
Proof.
  revert out junk src dst fuel. induction t as [|c t IH]; intros out junk src dst fuel Hf Ht Hx Ed Es;
    (destruct fuel as [|fuel]; [cbn in Hf; lia|]); cbn [copy_part app].
  - exists junk. split; [done|]. rewrite (app_assoc out). rewrite load_mid by lens. cbn.
    assert (E : negb (x =? 0) && negb (x =? SLASH) = false) by (by destruct Hx as [->| ->]).
    rewrite E, app_nil_r, <- app_assoc, !Z.add_0_r. done.
  - apply Forall_cons in Ht as [[H1 H2] Ht]. rewrite (app_assoc out). rewrite load_mid by lens. cbn.
    rewrite (proj2 (Z.eqb_neq _ _) H1), (proj2 (Z.eqb_neq _ _) H2). cbn [negb andb].
    rewrite <- app_assoc. destruct (store_back out junk (t ++ x :: post) c dst Ed) as (junk1 & El & ->).
    cbn [mbind res_bind]. destruct (IH (out ++ [c]) junk1 (src + 1) (dst + 1) fuel) as (junk2 & El2 & ->);
      try done; [cbn in Hf; lia|lens|lia|]. exists junk2. split; [lia|].
    replace (src + 1 + len t + 1) with (src + len (c :: t) + 1) by (cbn [length]; lia).
    replace (dst + 1 + len t) with (dst + len (c :: t)) by (cbn [length]; lia).
    by rewrite <- (app_assoc out).
Qed.

Lemma skip_slashes_ok (k fuel : nat) (pre post : list Z) (x src : Z) :
  (k < fuel)%nat -> x <> SLASH -> src = len pre ->
  skip_slashes fuel (pre ++ replicate k SLASH ++ x :: post) src = Ok (src + Z.of_nat k).
Proof.
  revert fuel pre src. induction k as [|k IH]; intros fuel pre src Hf Hx ->;
    (destruct fuel as [|fuel]; [lia|]); cbn [skip_slashes replicate app]; rewrite load_mid by done; cbn.
  - rewrite (proj2 (Z.eqb_neq _ _) Hx). cbn. f_equal. lia.
  - rewrite cons_middle, app_assoc, IH by (done || lia || lens). f_equal. lia.
Qed.

Lemma eat_slashes_ok (k fuel : nat) (pre post : list Z) (x src : Z) :
  (k < fuel)%nat -> x <> SLASH -> src = len pre ->
  eat_slashes fuel (pre ++ replicate k SLASH ++ x :: post) src SLASH = Ok (src + Z.of_nat k + 1).
Proof.
  revert fuel pre src. induction k as [|k IH]; intros fuel pre src Hf Hx ->;
    (destruct fuel as [|fuel]; [lia|]); cbn [eat_slashes replicate app]; rewrite Z.eqb_refl,
    load_mid by done; cbn [mbind res_bind].
  - destruct fuel; cbn [eat_slashes]; rewrite (proj2 (Z.eqb_neq _ _) Hx); cbn; f_equal; lia.
  - rewrite cons_middle, app_assoc, IH by (done || lia || lens). f_equal. lia.
Qed.

(** The write cursor goes back to the last slash of [pre]. *)
Lemma back_up_ok (t pre post : list Z) (fuel : nat) (dst : Z) :
  (length t < fuel)%nat -> plain t -> (pre = [] \/ exists p, pre = p ++ [SLASH]) ->
  dst = len (pre ++ t) -> back_up fuel (pre ++ t ++ post) dst = Ok (len pre).
Proof.
  revert fuel dst post. induction t as [|c t IH] using rev_ind; intros fuel dst post Hf Ht Hp ->;
    (destruct fuel as [|fuel]; [lia|]); cbn [back_up].
  - rewrite app_nil_r. destruct Hp as [->|[p ->]]; cbn [app].
    + done.
    + rewrite (proj2 (Z.ltb_lt _ _)) by lens. rewrite <- app_assoc. cbn [app].
      rewrite load_mid by lens. cbn. done.
  - rewrite (proj2 (Z.ltb_lt _ _)) by lens. apply Forall_app in Ht as [Ht [[H1 H2] _]%Forall_cons].
    replace (pre ++ (t ++ [c]) ++ post) with ((pre ++ t) ++ c :: post) by (by rewrite <- !app_assoc).
    rewrite load_mid by lens. cbn [mbind res_bind]. rewrite (proj2 (Z.eqb_neq _ _) H2). cbn [negb].
    rewrite <- app_assoc. apply IH; [lens|done|done|lens].
Qed.

Lemma back_up_start (buf : list Z) (fuel : nat) : (0 < fuel)%nat -> back_up fuel buf 0 = Ok 0.
Proof. by destruct fuel; [lia|]. Qed.

(** ** Components of a text *)

Lemma render_cons (root : bool) (t : list Z) (stack : list (list Z)) :
  render root (t :: stack) = render root stack ++ t ++ [SLASH].
Proof.
  unfold render. rewrite reverse_cons, map_app, concat_app. cbn. by rewrite app_nil_r, <- !app_assoc.
Qed.

Lemma render_end (root : bool) (stack : list (list Z)) :
  render root stack = [] \/ exists p, render root stack = p ++ [SLASH].
Proof.
  destruct stack as [|t stack].
  - destruct root; [right; by exists []|by left].
  - right. rewrite render_cons, app_assoc. eauto.
Qed.

Lemma split_plain (t : list Z) : plain t -> split t = [t].
Proof.
  induction 1 as [|c t [_ Hc] _ IH]; [done|]. cbn. rewrite (proj2 (Z.eqb_neq _ _) Hc). by rewrite IH.
Qed.

Lemma split_slash (t r : list Z) : plain t -> split (t ++ SLASH :: r) = t :: split r.
Proof.
  induction 1 as [|c t [_ Hc] _ IH]; cbn; [done|]. rewrite (proj2 (Z.eqb_neq _ _) Hc). by rewrite IH.
Qed.

Lemma trace_slashes (root : bool) (stack : list (list Z)) (k : nat) (r : list Z) :
  trace_all root stack (split (replicate k SLASH ++ r)) = trace_all root stack (split r).
Proof. induction k as [|k IH]; [done|]. by cbn. Qed.

Lemma trace_token (root : bool) (stack : list (list Z)) (t : list Z) (k : nat) (r : list Z) :
  plain t -> trace_all root stack (split (t ++ SLASH :: replicate k SLASH ++ r)) =
    ('(root, stack) ← trace_one root stack t; trace_all root stack (split r)).
Proof.
  intros Ht. rewrite split_slash by done. cbn. destruct (trace_one root stack t) as [[root' stack']|]; [|done].
  cbn. apply trace_slashes.
Qed.

(** A text is a first component, and behind slashes a text that starts with none. *)
Lemma first_component (r : list Z) :
  Forall (fun c => c <> 0) r -> exists t, plain t /\ (r = t \/
    exists k r', r = t ++ SLASH :: replicate k SLASH ++ r' /\ absolute r' = false).
Proof.
  induction 1 as [|c r Hc Hr IH]; [exists []; split; [constructor|by left]|].
  destruct (Z.eq_dec c SLASH) as [->|Hs].
  - exists []. split; [constructor|]. right. clear IH.
    assert (exists k r', r = replicate k SLASH ++ r' /\ absolute r' = false) as (k & r' & -> & Ha); [|by eauto].
    clear. induction r as [|c r (k & r' & -> & Ha)]; [by exists O, []|].
    destruct (Z.eq_dec c SLASH) as [->|Hs]; [by exists (S k), r'|]. exists O. eexists. split; [done|].
    by apply Z.eqb_neq.
  - destruct IH as (t & Ht & Hr'). exists (c :: t). split; [by constructor|].
    destruct Hr' as [->|(k & r' & -> & Ha)]; [by left|]. right. by exists k, r'.
Qed.

(** ** The loop *)

Lemma look_copy (L : nat) (pre t post : list Z) (x src : Z) :
  plain t -> t <> [DOT] -> t <> [DOT; DOT] -> x = 0 \/ x = SLASH -> src = len pre ->
  look_at_dots L (pre ++ t ++ x :: post) src = Ok (Copy src).
Proof.
  intros Ht N1 N2 Hx Es. unfold look_at_dots. destruct t as [|c t]; cbn [app].
  { rewrite (load_mid _ _ _ src) by done. by destruct Hx as [-> | ->]. }
  rewrite (load_mid _ _ _ src) by done. cbn [mbind res_bind]. case_test; [subst c|done].
  apply Forall_cons in Ht as [_ Ht]. destruct t as [|c1 t]; [done|]. cbn [app].
  rewrite cons_middle, app_assoc, (load_mid _ _ _ (src + 1)) by lens. cbn [mbind res_bind].
  apply Forall_cons in Ht as [[H1 H2] Ht]. rewrite (proj2 (Z.eqb_neq _ _) H1), (proj2 (Z.eqb_neq _ _) H2).
  case_test; [subst c1|done]. destruct t as [|c2 t]; [done|]. cbn [app].
  rewrite cons_middle, app_assoc, (load_mid _ _ _ (src + 2)) by lens. cbn [mbind res_bind].
  apply Forall_cons in Ht as [[H3 H4] Ht]. by rewrite (proj2 (Z.eqb_neq _ _) H3), (proj2 (Z.eqb_neq _ _) H4).
Qed.

Lemma look_dot_end (L : nat) (pre post : list Z) (src : Z) :
  src = len pre -> look_at_dots L (pre ++ DOT :: 0 :: post) src = Ok (Copy (src + 1)).
Proof.
  intros Es. unfold look_at_dots. rewrite (load_mid _ _ _ src) by done. cbn [mbind res_bind]. rewrite Z.eqb_refl.
  rewrite cons_middle, app_assoc, (load_mid _ _ _ (src + 1)) by lens. done.
Qed.

Lemma look_dot (L k : nat) (pre post : list Z) (x src : Z) :
  (k < L)%nat -> x <> SLASH -> src = len pre ->
  look_at_dots L (pre ++ DOT :: SLASH :: replicate k SLASH ++ x :: post) src
    = Ok (Skip (src + 2 + Z.of_nat k)).
Proof.
  intros Hk Hx Es. unfold look_at_dots. rewrite (load_mid _ _ _ src) by done. cbn [mbind res_bind]. rewrite Z.eqb_refl.
  rewrite cons_middle, app_assoc, (load_mid _ _ _ (src + 1)) by lens. cbn [mbind res_bind Z.eqb SLASH].
  rewrite cons_middle, app_assoc, skip_slashes_ok by (done || lens). done.
Qed.

Lemma look_up_end (L : nat) (pre post : list Z) (src : Z) :
  src = len pre -> look_at_dots L (pre ++ DOT :: DOT :: 0 :: post) src = Ok (UpOne (src + 2)).
Proof.
  intros Es. unfold look_at_dots. rewrite (load_mid _ _ _ src) by done. cbn [mbind res_bind]. rewrite Z.eqb_refl.
  rewrite cons_middle, app_assoc, (load_mid _ _ _ (src + 1)) by lens. cbn [mbind res_bind].
  rewrite cons_middle, app_assoc, (load_mid _ _ _ (src + 2)) by lens. done.
Qed.

Lemma look_up (L k : nat) (pre post : list Z) (x src : Z) :
  (k < L)%nat -> x <> SLASH -> src = len pre ->
  look_at_dots L (pre ++ DOT :: DOT :: SLASH :: replicate k SLASH ++ x :: post) src
    = Ok (UpOne (src + 3 + Z.of_nat k)).
Proof.
  intros Hk Hx Es. unfold look_at_dots. rewrite (load_mid _ _ _ src) by done. cbn [mbind res_bind]. rewrite Z.eqb_refl.
  rewrite cons_middle, app_assoc, (load_mid _ _ _ (src + 1)) by lens. cbn [mbind res_bind].
  rewrite cons_middle, app_assoc, (load_mid _ _ _ (src + 2)) by lens. cbn [mbind res_bind Z.eqb SLASH].
  pose proof (skip_slashes_ok k L (((pre ++ [DOT]) ++ [DOT]) ++ [SLASH]) post x (src + 3) Hk Hx ltac:(lens)) as E.
  rewrite <- (app_assoc _ [SLASH]) in E. cbn [app] in E. by rewrite E.
Qed.

(** Where the loop ends: what it wrote is the path, with or without a slash at its
    end, and the buffer has room behind it. *)
Definition settled (buf : list Z) (dst : Z) (root : bool) (stack : list (list Z)) (n : nat) : Prop :=
  exists out junk, buf = out ++ junk /\ junk <> [] /\ length buf = n /\ dst = len out /\
    (out = render root stack \/ out = path_text root stack /\ stack <> []).

Definition loop_result (n : nat) (o : option (bool * list (list Z))) (r : res (option (list Z * Z))) : Prop :=
  match o with
  | None => r = Ok None
  | Some (root, stack) => exists buf dst, r = Ok (Some (buf, dst)) /\ settled buf dst root stack n
  end.

Section Loop.
Variables (L : nat) (tl : list Z).

(** The state of the loop in front of the text [r]. *)
Definition loop_at (fuel : nat) (out junk r : list Z) : res (option (list Z * Z)) :=
  normalize_loop fuel L (out ++ junk ++ r ++ 0 :: tl) (len (out ++ junk)) (len out).

(** Going up. *)
Lemma up_one (fuel : nat) (root : bool) (stack : list (list Z)) (junk r : list Z) (n : nat)
    (buf : list Z) (src dst : Z) :
  Forall plain stack -> (length buf < L)%nat ->
  buf = render root stack ++ junk ++ r ++ 0 :: tl -> src = len (render root stack ++ junk) ->
  dst = len (render root stack) ->
  (forall root' stack' junk', trace_one root stack [DOT; DOT] = Some (root', stack') -> Forall plain stack' ->
     length (render root' stack' ++ junk') = length (render root stack ++ junk) ->
     loop_result n (trace_all root' stack' (split r)) (loop_at fuel (render root' stack') junk' r)) ->
  loop_result n ('(root', stack') ← trace_one root stack [DOT; DOT]; trace_all root' stack' (split r))
    (if dst - 1 <? 0 then mret None
     else dst ← back_up L buf (dst - 1); normalize_loop fuel L buf src dst).
Proof.
  intros Hp HL -> -> -> IH. destruct stack as [|t stack].
  - destruct root; cbn in IH |- *.
    + change (Z.of_nat 1 - 1) with 0. rewrite back_up_start by lens. cbn [Z.ltb Z.compare].
      specialize (IH false [] (SLASH :: junk) eq_refl Hp). cbn in IH. specialize (IH eq_refl).
      change (trace_one true [] [DOT; DOT]) with (Some (false, @nil (list Z))). cbn [mbind res_bind option_bind mret res_ret].
      exact IH.
    + done.
  - apply Forall_cons in Hp as [Ht Hp]. cbn in IH. rewrite render_cons in *.
    rewrite (proj2 (Z.ltb_ge _ _)) by lens.
    replace ((render root stack ++ t ++ [SLASH]) ++ junk ++ r ++ 0 :: tl) with
      (render root stack ++ t ++ (SLASH :: junk) ++ r ++ 0 :: tl) by (by rewrite <- !app_assoc).
    rewrite back_up_ok; [|lens|done|apply render_end|lens]. cbn [mbind res_bind].
    specialize (IH root stack (t ++ SLASH :: junk) eq_refl Hp).
    rewrite !length_app in IH. cbn in IH.
    replace (render root stack ++ t ++ (SLASH :: junk) ++ r ++ 0 :: tl) with
      (render root stack ++ (t ++ SLASH :: junk) ++ r ++ 0 :: tl) by (by rewrite <- !app_assoc).
    unfold loop_at in IH. replace (len ((render root stack ++ t ++ [SLASH]) ++ junk)) with
      (len (render root stack ++ t ++ SLASH :: junk)) by lens. apply IH. lia.
Qed.

Lemma absolute_next (r : list Z) :
  absolute r = false -> exists x post, r ++ 0 :: tl = x :: post /\ x <> SLASH.
Proof.
  destruct r as [|c r]; cbn; [by exists 0, tl|]. intros H%Z.eqb_neq. by exists c, (r ++ 0 :: tl).
Qed.

(** A round that copies the last component. *)
Lemma round_end (fuel : nat) (out junk t : list Z) :
  (length (out ++ junk ++ t ++ 0%Z :: tl) < L)%nat -> plain t -> t <> [DOT] -> t <> [DOT; DOT] ->
  exists junk', length junk' = length junk /\
    loop_at (S fuel) out junk t = Ok (Some ((out ++ t) ++ junk' ++ 0 :: tl, len (out ++ t))).
Proof.
  intros HL Ht N1 N2. unfold loop_at. cbn [normalize_loop].
  rewrite (app_assoc out), look_copy by (done || by left). cbn [mbind res_bind]. rewrite <- app_assoc.
  destruct (copy_part_ok t out junk tl 0 (len (out ++ junk)) (len out) L) as (junk' & Ej & E);
    [lens|done|by left|done|lens|]. rewrite E. cbn [mbind res_bind Z.eqb SLASH].
  exists junk'. split; [done|]. by rewrite length_app, Nat2Z.inj_add.
Qed.

(** A round that copies a component and goes over the slashes behind it. *)
Lemma round_copy (fuel k : nat) (out junk t r : list Z) :
  (length (out ++ junk ++ t ++ SLASH :: replicate k SLASH ++ r ++ 0%Z :: tl) < L)%nat ->
  plain t -> t <> [DOT] -> t <> [DOT; DOT] -> absolute r = false ->
  exists junk', length junk' = (length junk + k)%nat /\
    loop_at (S fuel) out junk (t ++ SLASH :: replicate k SLASH ++ r) = loop_at fuel (out ++ t ++ [SLASH]) junk' r.
Proof.
  intros HL Ht N1 N2 Ha. destruct (absolute_next r Ha) as (x & post & Ex & Hx).
  unfold loop_at. cbn [normalize_loop]. rewrite <- (app_assoc t). cbn [app]. rewrite <- (app_assoc _ r), Ex in *.
  rewrite (app_assoc out), look_copy by (done || by right). cbn [mbind res_bind]. rewrite <- app_assoc.
  destruct (copy_part_ok t out junk (replicate k SLASH ++ x :: post) SLASH (len (out ++ junk)) (len out) L)
    as (junk1 & Ej & E); [lens|done|by right|done|lens|]. rewrite E. cbn [mbind res_bind]. rewrite Z.eqb_refl.
  destruct (store_back (out ++ t) junk1 (replicate k SLASH ++ x :: post) SLASH (len out + len t)) as (junk2 & Ej2 & ->);
    [lens|]. cbn [mbind res_bind]. rewrite (app_assoc _ junk2).
  rewrite eat_slashes_ok; [|lens|done|lens]. cbn [mbind res_bind].
  exists (junk2 ++ replicate k SLASH). split; [lens|]. rewrite <- !app_assoc.
  f_equal; [f_equal; f_equal; lens|lens..].
Qed.

(** Where a last component [.] ends. *)
Lemma round_dot (fuel : nat) (out junk : list Z) :
  (length (out ++ junk ++ DOT :: 0%Z :: tl) < L)%nat ->
  exists junk', length junk' = S (length junk) /\
    loop_at (S fuel) out junk [DOT] = Ok (Some (out ++ junk' ++ 0 :: tl, len out)).
Proof.
  intros HL. unfold loop_at. cbn [normalize_loop app].
  rewrite (app_assoc out), look_dot_end by done. cbn [mbind res_bind]. rewrite <- app_assoc, (cons_middle DOT junk).
  destruct (copy_part_ok [] out (junk ++ [DOT]) tl 0 (len (out ++ junk) + 1) (len out) L) as (junk' & Ej & E);
    [lens|constructor|by left|done|lens|]. rewrite <- (app_assoc junk) in E. cbn [app] in E |- *.
  rewrite E. cbn [mbind res_bind Z.eqb SLASH]. exists junk'. split; [rewrite Ej; lens|].
  by rewrite app_nil_r, Z.add_0_r.
Qed.

(** Where a component [.] is skipped. *)
Lemma round_skip (fuel k : nat) (out junk r : list Z) :
  (k < L)%nat -> absolute r = false ->
  loop_at (S fuel) out junk (DOT :: SLASH :: replicate k SLASH ++ r)
    = loop_at fuel out (junk ++ DOT :: SLASH :: replicate k SLASH) r.
Proof.
  intros Hk Ha. destruct (absolute_next r Ha) as (x & post & Ex & Hx). unfold loop_at. cbn [normalize_loop app].
  rewrite <- (app_assoc _ r), <- (app_assoc junk). cbn [app]. rewrite Ex, (app_assoc out), look_dot by done.
  cbn [mbind res_bind]. f_equal. lens.
Qed.

(** What a component does to the stack. *)
Lemma trace_dot (root : bool) (stack : list (list Z)) : trace_one root stack [DOT] = Some (root, stack).
Proof. done. Qed.

Lemma trace_name (root : bool) (stack : list (list Z)) (t : list Z) :
  t <> [] -> t <> [DOT] -> t <> [DOT; DOT] -> trace_one root stack t = Some (root, t :: stack).
Proof. intros N0 N1 N2. unfold trace_one. by rewrite !bool_decide_eq_false_2 by done. Qed.

Lemma settle (buf out junk : list Z) (n : nat) (root : bool) (stack : list (list Z)) :
  buf = out ++ junk ++ 0 :: tl -> length buf = n ->
  out = render root stack \/ out = path_text root stack /\ stack <> [] ->
  loop_result n (Some (root, stack)) (Ok (Some (buf, len out))).
Proof.
  intros -> <- Ho. exists (out ++ junk ++ 0 :: tl), (len out). split; [done|].
  exists out, (junk ++ 0 :: tl). repeat split; [by destruct junk|done].
Qed.

Lemma loop_ok (fuel : nat) (r : list Z) (root : bool) (stack : list (list Z)) (out junk : list Z) (n : nat) :
  (length r < fuel)%nat -> Forall (fun c => c <> 0) r -> absolute r = false ->
  n = length (out ++ junk ++ r ++ 0%Z :: tl) -> (n < L)%nat -> Forall plain stack -> out = render root stack ->
  loop_result n (trace_all root stack (split r)) (loop_at fuel out junk r).
Proof.
  revert r root stack out junk n. induction fuel as [|fuel IH]; intros r root stack out junk n Hf Hr Ha En HL Hp ->; [lia|].
  destruct (first_component r Hr) as (t & Ht & [->|(k & r' & -> & Ha')]).
  - rewrite split_plain by done. destruct (decide (t = [DOT])) as [->|N1].
    { destruct (round_dot fuel (render root stack) junk) as (junk' & Ej & ->); [lens|]. cbn [trace_all]. rewrite trace_dot.
      eapply settle; [done|lens|by left]. }
    destruct (decide (t = [DOT; DOT])) as [->|N2].
    { unfold loop_at. cbn [normalize_loop app]. rewrite (app_assoc (render _ _)), look_up_end by done. cbn [mbind res_bind].
      apply (up_one fuel root stack (junk ++ [DOT; DOT]) [] n); [done|lens|by rewrite <- !app_assoc|lens|done|].
      intros root' stack' junk' _ Hp' El. apply (IH []); [cbn in Hf |- *; lia|by apply Forall_nil|done|lens|done|done|done]. }
    destruct (round_end fuel (render root stack) junk t) as (junk' & Ej & ->); [lens|done|done|done|].
    destruct (decide (t = [])) as [->|N0].
    { cbn [trace_all]. rewrite app_nil_r. eapply settle; [done|lens|by left]. }
    cbn [trace_all]. rewrite trace_name by done. eapply settle; [done|lens|].
    by right.
  - rewrite trace_token by done. assert (N0 : t <> []) by (by destruct t).
    apply Forall_app in Hr as [_ [_ [_ Hr]%Forall_app]%Forall_cons].
    destruct (decide (t = [DOT])) as [->|N1].
    { rewrite trace_dot. cbn [app]. rewrite round_skip by (done || lens). cbn [mbind option_bind].
      apply IH; [lens|done|done|lens|done|done|done]. }
    destruct (decide (t = [DOT; DOT])) as [->|N2].
    { unfold loop_at. destruct (absolute_next r' Ha') as (x & post & Ex & Hx). cbn [normalize_loop app].
      rewrite <- (app_assoc _ r'), Ex, (app_assoc (render _ _)), look_up by (done || lens). rewrite <- Ex. cbn [mbind res_bind].
      apply (up_one fuel root stack (junk ++ DOT :: DOT :: SLASH :: replicate k SLASH) r' n);
        [done|lens|rewrite <- !app_assoc; done|lens|done|].
      intros root' stack' junk' _ Hp' El. apply IH; [lens|done|done|lens|done|done|done]. }
    destruct (round_copy fuel k (render root stack) junk t r') as (junk' & Ej & ->); [lens|done|done|done|done|].
    rewrite trace_name by done. cbn [mbind option_bind].
    apply IH; [lens|done|done|lens|done|by constructor|]. by rewrite render_cons.
Qed.

End Loop.

(** ** The theorems *)

Definition name (t : list Z) : Prop := plain t /\ t <> [].

Lemma split_names (p : list Z) : Forall (fun c => c <> 0) p -> Forall plain (split p).
Proof.
  induction 1 as [|c p Hc _ IH]; cbn; [by repeat constructor|].
  destruct (Z.eqb_spec c SLASH); [by constructor; [constructor|]|].
  destruct (split p) as [|t ts]; inversion_clear IH; repeat constructor; done.
Qed.

Lemma trace_names (root root' : bool) (stack stack' ts : list (list Z)) :
  Forall plain ts -> Forall name stack -> trace_all root stack ts = Some (root', stack') -> Forall name stack'.
Proof.
  intros Ht. revert root stack. induction Ht as [|t ts Ht _ IH]; intros root stack Hs; cbn; [congruence|].
  unfold trace_one. repeat case_bool_decide; cbn; try (by apply IH).
  - destruct Hs as [|t' stack ? Hs]; [|by apply IH]. destruct root; [by apply IH|done].
  - apply IH. by repeat constructor.
Qed.

Lemma path_text_cons (root : bool) (t : list Z) (stack : list (list Z)) :
  render root (t :: stack) = path_text root (t :: stack) ++ [SLASH].
Proof. by rewrite render_cons, app_assoc. Qed.

Lemma path_text_empty (root : bool) (stack : list (list Z)) :
  Forall name stack -> path_text root stack = [] -> root = false /\ stack = [].
Proof.
  intros N E. destruct stack as [|t stack]; [by destruct root|].
  apply app_eq_nil in E as [_ ->]. by apply Forall_cons in N as [[_ N] _].
Qed.

(** The loop on a whole text. *)
Lemma loop_start (p tl : list Z) :
  let L := S (length (p ++ 0%Z :: tl)) in
  Forall (fun c => c <> 0) p ->
  loop_result (length (p ++ 0%Z :: tl)) (trace p) (normalize_loop L L (p ++ 0 :: tl) 0 0).
Proof.
  intros L Hp. destruct (absolute p) eqn:Ea.
  - destruct (first_component p Hp) as (t & Ht & Er).
    assert (exists k r, p = SLASH :: replicate k SLASH ++ r /\ absolute r = false) as (k & r & -> & Ha).
    { destruct t as [|c t]; [destruct Er as [->|(k & r & -> & Ha)]; [done|by exists k, r]|].
      apply Forall_cons in Ht as [[_ Hc] _].
      destruct Er as [->|(k & r & -> & Ha)]; cbn in Ea; by apply Z.eqb_eq in Ea. }
    apply Forall_cons in Hp as [_ [_ Hr]%Forall_app].
    pose proof (round_copy L tl (length (SLASH :: (replicate k SLASH ++ r) ++ 0 :: tl)) k [] [] [] r) as E.
    destruct E as (junk & Ej & E); [unfold L; lens|constructor|done|done|done|].
    unfold trace. cbn [absolute split]. rewrite Z.eqb_refl. cbn [trace_all].
    change (trace_one true [] []) with (Some (true, @nil (list Z))). cbn [mbind option_bind]. rewrite trace_slashes.
    unfold loop_at in E at 1. cbn [app length] in E. change (Z.of_nat 0) with 0 in E.
    unfold L in *. cbn [app length] in *. rewrite E.
    apply loop_ok; [lens|done|done|lens|lens|constructor|done].
  - unfold trace. rewrite Ea. apply (loop_ok L tl L p false [] [] []); [unfold L; lens|done|done|done|unfold L; lia|constructor|done].
Qed.

(** What [normalize] leaves, by the cursors: it faults where that is the empty text. *)
Lemma normalize_ok (p tl : list Z) :
  Forall (fun c => c <> 0) p ->
  match trace p with
  | None => normalize (p ++ 0 :: tl) = Ok None
  | Some (root, stack) =>
      if decide (path_text root stack = []) then normalize (p ++ 0 :: tl) = Fault
      else exists junk, length (path_text root stack ++ 0%Z :: junk) = length (p ++ 0%Z :: tl) /\
        normalize (p ++ 0 :: tl) = Ok (Some (path_text root stack ++ 0 :: junk))
  end.
Proof.
  intros Hp. unfold normalize. pose proof (loop_start p tl Hp) as R. cbn zeta in R.
  unfold loop_result in R.
  destruct (trace p) as [[root stack]|] eqn:Ec; [|by rewrite R].
  assert (N : Forall name stack).
  { eapply (trace_names _ _ []); [by apply split_names|constructor|exact Ec]. }
  destruct R as (buf & dst & -> & out & junk & -> & Hj & El & -> & Ho). cbn [mbind res_bind].
  destruct junk as [|j junk]; [done|]. rewrite store_mid by done. cbn [mbind res_bind].
  destruct (decide (path_text root stack = [])) as [E0|N0].
  - assert (Eo : out = []).
    { destruct (path_text_empty root stack N E0) as [-> ->]. by destruct Ho as [->|[-> _]]. }
    by subst.
  - assert (C : out = path_text root stack /\ (length out = 1%nat \/ exists o c, out = o ++ [c] /\ c <> SLASH) \/
      out = path_text root stack ++ [SLASH]).
    { destruct stack as [|t stack].
      { left. destruct root; [|done]. destruct Ho as [->|[_ ?]]; [by split; [|left]|done]. }
      apply Forall_cons in N as [[Np Nt] _]. destruct Ho as [->|[-> _]]; [right; apply path_text_cons|].
      left. split; [done|right]. destruct t as [|c t _] using rev_ind; [done|].
      apply Forall_app in Np as [_ [[_ Nc] _]%Forall_cons]. exists (render root stack ++ t), c. cbn.
      by rewrite app_assoc. }
    destruct C as [[-> [E1|(o & c & Eo & Hc)]]| ->].
    + rewrite E1. cbn. exists junk. split; [lens|done].
    + exists junk. split; [lens|]. destruct (Z.eqb_spec (len (path_text root stack) - 1) 0); cbn [negb]; [done|].
      assert (El' : load_at (path_text root stack ++ 0 :: junk) (len (path_text root stack) - 1) = Ok c).
      { rewrite Eo, <- (app_assoc o). apply load_mid. lens. }
      rewrite El'. cbn [mbind res_bind]. by rewrite (proj2 (Z.eqb_neq _ _) Hc).
    + rewrite (proj2 (Z.eqb_neq _ 0)) by (destruct (path_text root stack); [done|lens]). cbn [negb].
      rewrite <- !app_assoc. cbn [app]. rewrite load_mid by lens. cbn [mbind res_bind]. rewrite Z.eqb_refl.
      rewrite store_mid by lens. exists (0 :: junk). split; [lens|done].
Qed.

(** The text [rt_snprintf] joins two names to. *)
Lemma string_directive (s t fmt : list Z) (args : list arg) :
  Str.cstring t s ->
  exists d, parse_directive (115 :: fmt) (AStr (Some s) :: args) = Ok (d, fmt, args) /\ directive_text d = t.
Proof.
  intros Hs. exists (DText s (len t) (-1) 0). split.
  - unfold parse_directive. cbn -[Str.rt_strlen isdigit]. change (isdigit 115) with false.
    cbn -[Str.rt_strlen]. by rewrite (Str.rt_strlen_ok t s Hs).
  - destruct Hs as [_ [rest ->]]. cbn. rewrite Nat2Z.id, take_app_length.
    unfold spaces. by rewrite replicate_neg by lia.
Qed.

Lemma join_text (d f : list Z) (dt ft : list Z) :
  Str.cstring dt d -> Str.cstring ft f ->
  format_text path_format [AStr (Some d); AStr (Some f)] = Ok (dt ++ SLASH :: ft).
Proof.
  intros Hd Hf. unfold format_text, path_format. 
  destruct (string_directive d dt [47; 37; 115; 0] [AStr (Some f)] Hd) as (d1 & E1 & T1).
  destruct (string_directive f ft [0] [] Hf) as (d2 & E2 & T2).
  cbn -[parse_directive directive_text app]. rewrite E1. cbn -[parse_directive directive_text app]. rewrite E2.
  cbn -[directive_text app]. rewrite T1, T2. by rewrite app_nil_r.
Qed.

(** A component that stays where it is. *)
Definition proper (t : list Z) : Prop := name t /\ t <> [DOT] /\ t <> [DOT; DOT].

Lemma trace_proper (root root' : bool) (stack stack' ts : list (list Z)) :
  Forall plain ts -> Forall proper stack -> trace_all root stack ts = Some (root', stack') -> Forall proper stack'.
Proof.
  intros Ht. revert root stack. induction Ht as [|t ts Ht _ IH]; intros root stack Hs; cbn; [congruence|].
  unfold trace_one. repeat case_bool_decide; cbn; try (by apply IH).
  - destruct Hs as [|t' stack ? Hs]; [|by apply IH]. destruct root; [by apply IH|done].
  - apply IH. by repeat constructor.
Qed.

Lemma trace_rendered (root : bool) (stack below : list (list Z)) (r : list Z) :
  Forall proper stack ->
  trace_all root below (split (concat (map (fun t => t ++ [SLASH]) (reverse stack)) ++ r)) =
    trace_all root (stack ++ below) (split r).
Proof.
  intros Hs. revert r. induction Hs as [|t stack [[Ht N0] [N1 N2]] _ IH]; intros r; [done|].
  rewrite reverse_cons, map_app, concat_app, <- (app_assoc _ _ r), IH. cbn. rewrite app_nil_r, <- app_assoc. cbn [app].
  rewrite split_slash by done. cbn [trace_all]. by rewrite trace_name.
Qed.

Lemma name_absolute (t r : list Z) : name t -> absolute (t ++ r) = false.
Proof. intros [Ht N]. destruct Ht as [|c t [_ Hc] _]; [done|]. by apply Z.eqb_neq. Qed.

Lemma render_absolute (stack : list (list Z)) (r : list Z) :
  Forall proper stack -> absolute r = false -> absolute (render false stack ++ r) = false.
Proof.
  intros Hs. revert r. induction Hs as [|t stack [Ht _] _ IH]; intros r Ha; [done|].
  rewrite render_cons, <- app_assoc. apply IH. rewrite <- app_assoc. by apply name_absolute.
Qed.

(** The cursors find the directories of a path's text. *)
Lemma traced_path_text (root : bool) (stack : list (list Z)) :
  Forall proper stack -> path_text root stack <> [] -> trace (path_text root stack) = Some (root, stack).
Proof.
  intros Hs Hn. destruct stack as [|t stack]; [by destruct root|].
  inversion_clear Hs as [|? ? Ht Hs']. destruct Ht as [[Ht N0] [N1 N2]].
  assert (E : forall root, trace_all root [] (split (concat (map (fun t => t ++ [SLASH]) (reverse stack)) ++ t)) =
    Some (root, t :: stack)).
  { intros b. rewrite trace_rendered, split_plain by done. cbn [trace_all]. rewrite app_nil_r. by rewrite trace_name. }
  unfold trace, path_text. destruct root.
  - unfold render. cbn [app absolute split]. rewrite Z.eqb_refl. cbn [trace_all].
    change (trace_one true [] []) with (Some (true, @nil (list Z))). apply E.
  - rewrite render_absolute; [apply E|done|]. rewrite <- (app_nil_r t). by apply name_absolute.
Qed.

Lemma path_text_nonzero (root : bool) (stack : list (list Z)) :
  Forall proper stack -> Forall (fun c => c <> 0) (path_text root stack).
Proof.
  assert (P : forall t, plain t -> Forall (fun c => c <> 0) t).
  { intros t Ht. eapply Forall_impl; [exact Ht|]. by intros c []. }
  assert (R : forall stack, Forall proper stack -> Forall (fun c => c <> 0) (render root stack)).
  { induction 1 as [|t l [[Ht _] _] _ IH]; [by destruct root; repeat constructor|].
    rewrite render_cons. apply Forall_app. split; [done|]. apply Forall_app. split; [by apply P|].
    by repeat constructor. }
  intros Hs. destruct stack as [|t stack]; [by apply R|]. inversion_clear Hs as [|? ? [[Ht _] _] Hs'].
  apply Forall_app. split; [by apply R|by apply P].
Qed.

(** [dfs_normalize_path] on a text it made before leaves that text: the path it
    makes is in normal form. *)
Theorem normalize_idempotent (p tl mem : list Z) :
  Forall (fun c => c <> 0) p -> normalize (p ++ 0 :: tl) = Ok (Some mem) ->
  exists text junk junk', mem = text ++ 0 :: junk /\ Forall (fun c => c <> 0) text /\
    normalize mem = Ok (Some (text ++ 0 :: junk')) /\ length junk' = length junk.
Proof.
  intros Hp E. pose proof (normalize_ok p tl Hp) as N. destruct (trace p) as [[root stack]|] eqn:Ec; [|congruence].
  destruct (decide _) as [E0|N0]; [congruence|]. destruct N as (junk & El & E').
  assert (mem = path_text root stack ++ 0 :: junk) as -> by congruence.
  assert (Hs : Forall proper stack).
  { eapply (trace_proper _ _ []); [by apply split_names|constructor|exact Ec]. }
  pose proof (normalize_ok (path_text root stack) junk (path_text_nonzero root stack Hs)) as N.
  rewrite traced_path_text in N by done. rewrite decide_False in N by done.
  destruct N as (junk' & El' & N). exists (path_text root stack), junk, junk'.
  repeat split; [by apply path_text_nonzero|done|]. lens.
Qed.

Lemma normalize_idempotent_witness : exists mem text junk junk',
  normalize [47; 97; 47; 47; 46; 47; 98; 47; 46; 46; 47; 99; 47; 0] = Ok (Some mem) /\
  mem = text ++ 0 :: junk /\ Forall (fun c => c <> 0) text /\
  normalize mem = Ok (Some (text ++ 0 :: junk')) /\ length junk' = length junk.
Proof.
  exists [47; 97; 47; 99; 0; 0; 98; 47; 46; 46; 47; 99; 47; 0].
  destruct (normalize_idempotent [47; 97; 47; 47; 46; 47; 98; 47; 46; 46; 47; 99; 47] []
    [47; 97; 47; 99; 0; 0; 98; 47; 46; 46; 47; 99; 47; 0]) as (text & junk & junk' & H).
  - by repeat constructor.
  - reflexivity.
  - exists text, junk, junk'. split; [reflexivity|exact H].
Defined.

(** ** The cursors and the meaning of a path *)

Lemma trace_root (stack stack' ts : list (list Z)) (root : bool) :
  trace_all root stack ts = Some (true, stack') -> root = true.
Proof.
  revert root stack. induction ts as [|t ts IH]; intros root stack; cbn; [by intros [= ->]|].
  unfold trace_one. repeat case_bool_decide; cbn; try (by intros ?%IH).
  destruct stack as [|u stack]; [|by intros ?%IH]. by destruct root.
Qed.

Lemma walk_traced (stack stack' ts : list (list Z)) :
  walk_all stack ts = Some stack' <-> trace_all true stack ts = Some (true, stack').
Proof.
  revert stack. induction ts as [|t ts IH]; intros stack; cbn; [split; congruence|].
  unfold walk, trace_one. repeat case_bool_decide; cbn; try apply IH.
  destruct stack as [|u stack]; cbn; [|apply IH]. split; [done|]. by intros ?%trace_root.
Qed.

Lemma resolve_trace (p : list Z) (stack : list (list Z)) :
  absolute p = true -> resolve p = Some stack -> trace p = Some (true, stack).
Proof. intros Ha E. unfold trace. rewrite Ha. by apply walk_traced. Qed.

Lemma traced_resolve (p : list Z) (stack : list (list Z)) :
  trace p = Some (true, stack) -> resolve p = Some stack.
Proof. intros E. apply walk_traced. unfold trace in E. by rewrite (trace_root _ _ _ _ E) in E. Qed.

Lemma path_text_absolute (stack : list (list Z)) : path_text true stack = absolute_text stack.
Proof.
  assert (E : forall l : list (list Z), [SLASH] ++ concat (map (fun t => t ++ [SLASH]) l) = concat (map (cons SLASH) l) ++ [SLASH]).
  { induction l as [|t l IH]; [done|]. cbn in *. rewrite <- !app_assoc. cbn. do 2 f_equal. by rewrite IH. }
  destruct stack as [|t stack]; [done|]. unfold path_text, render, absolute_text.
  rewrite E, reverse_cons, map_app, concat_app. cbn. by rewrite app_nil_r, <- app_assoc.
Qed.

Section Spec.
Context {H : Type} {AL : Allocator H}.
Variable raw : Z -> list Z.
Hypothesis raw_length : forall n, 0 <= n -> len (raw n) = n.

(** The path a call is about. *)
Definition joined (directory filename : list Z) : list Z :=
  if absolute filename then filename else directory ++ SLASH :: filename.

(** What the caller gets, by the cursors: a block of the heap with a text; or nothing,
    where they go up from the start or the heap [h0] has no room. *)
Definition normalized (h0 : H) (A : list (Z * Z)) (p : list Z) (r : option (Z * list Z)) (h : H) : Prop :=
  match r with
  | Some (a, mem) => exists n root stack junk, al_inv h ((a, n) :: A) /\ len mem <= n /\
      trace p = Some (root, stack) /\ mem = path_text root stack ++ 0 :: junk
  | None => al_inv h A /\ (trace p = None \/ h = h0)
  end.

(** From the block on. *)
Lemma wp_normalize (h0 h : H) (A : list (Z * Z)) (a n : Z) (p tl : list Z) :
  al_inv h ((a, n) :: A) -> len (p ++ 0 :: tl) <= n -> Forall (fun c => c <> 0) p ->
  trace p <> Some (false, []) ->
  wp (r ← lift (normalize (p ++ 0 :: tl));
      match r with
      | None => _ ← al_free a; mret None
      | Some mem => mret (Some (a, mem))
      end) (normalized h0 A p) h.
Proof.
  intros Hi Hl Hp Hc. pose proof (normalize_ok p tl Hp) as N.
  destruct (trace p) as [[root stack]|] eqn:Ec.
  - destruct (decide _) as [E0|N0].
    + exfalso. assert (Hs : Forall name stack).
      { eapply (trace_names _ _ []); [by apply split_names|constructor|exact Ec]. }
      destruct (path_text_empty root stack Hs E0) as [-> ->]. done.
    + destruct N as (junk & El & N). eapply wp_bind, wp_lift_ok; [exact N|]. apply wp_ret.
      exists n, root, stack, junk. repeat split; [done|lia|done].
  - eapply wp_bind, wp_lift_ok; [exact N|]. apply wp_bind.
    eapply wp_mono; [exact (al_free_spec h _ A a n Hi (Permutation_refl _))|]. intros ? h' Hi'. apply wp_ret. split; [done|by left].
Qed.

(** A block of [n] bytes, or nothing. *)
Lemma wp_alloc_block {B} (h : H) (A : list (Z * Z)) (n : Z) (m : Z -> ST H (option B)) (Q : option B -> H -> Prop) :
  al_inv h A -> 0 <= n < 2 ^ 32 - 3 -> Q None h ->
  (forall a k h', 0 < a -> a + k <= 2 ^ 32 -> n <= k -> al_inv h' ((a, k) :: A) -> wp (m a) Q h') ->
  wp (a ← al_malloc n; if a =? 0 then mret None else m a) Q h.
Proof.
  intros Hi Hn HQ Hm. apply wp_bind. eapply wp_mono; [by apply al_malloc_spec|].
  intros a h' [[-> ->]|(k & Ha & Hk & Hi')]; [done|]. test_false.
  pose proof (al_area h' _ a k Hi' (list_elem_of_here _ _)) as Ar. apply (Hm a k h'); [done|lia|done|done].
Qed.

(** A block with the text [p], or nothing new. *)
Definition holds (h0 : H) (A : list (Z * Z)) (p : list Z) (r : option (Z * list Z)) (h : H) : Prop :=
  match r with
  | Some (a, mem) => exists n tl, al_inv h ((a, n) :: A) /\ mem = p ++ 0 :: tl /\ len mem <= n
  | None => al_inv h A /\ h = h0
  end.

Lemma wp_rt_strdup (h : H) (A : list (Z * Z)) (t s : list Z) :
  al_inv h A -> Str.cstring t s -> len t + 1 < 2 ^ 32 - 3 -> wp (rt_strdup raw s) (holds h A t) h.
Proof.
  intros Hi Hs Hl. apply wp_bind. eapply wp_lift_ok; [by apply Str.rt_strlen_ok|].
  apply wp_alloc_block with (A := A); [done|lia|done|]. intros a k h' Ha _ Hk Hi'. destruct Hs as [_ [rest ->]].
  pose proof (raw_length (len t + 1) ltac:(lia)) as Hr.
  eapply wp_bind, wp_lift_ok; [apply memcpy_at_ok; lens|]. apply wp_ret. exists k, [].
  assert (E : slice 0 (len t + 1) (t ++ 0 :: rest) = t ++ [0]).
  { rewrite slice_0, (cons_middle 0 t), app_assoc. apply take_app_length'. lens. }
  rewrite E. change (Z.to_nat 0) with 0%nat. rewrite list_inserts_0 by lens. rewrite drop_ge by lens.
  rewrite app_nil_r. repeat split; [done|lens].
Qed.

Lemma wp_join (h : H) (A : list (Z * Z)) (dt ft d f : list Z) :
  al_inv h A -> Str.cstring dt d -> Str.cstring ft f -> len dt + len ft + 2 < 2 ^ 32 - 3 ->
  wp (n ← lift (Str.rt_strlen d);
      m ← lift (Str.rt_strlen f);
      let len := n + m + 2 in
      p ← al_malloc len;
      if p =? 0 then mret None else
      '(_, mem) ← lift (rt_snprintf p (raw len) len path_format [AStr (Some d); AStr (Some f)]);
      mret (Some (p, mem))) (holds h A (dt ++ SLASH :: ft)) h.
Proof.
  intros Hi Hd Hf Hl. apply wp_bind. eapply wp_lift_ok; [by apply Str.rt_strlen_ok|].
  apply wp_bind. eapply wp_lift_ok; [by apply Str.rt_strlen_ok|]. cbv zeta.
  apply wp_alloc_block with (A := A); [done|lia|done|]. intros a k h' Ha Hw Hk Hi'.
  pose proof (raw_length (len dt + len ft + 2) ltac:(lia)) as Hr.
  destruct (vsnprintf_ok a (len dt + len ft + 2) (raw (len dt + len ft + 2)) path_format _ _
    ltac:(lia) ltac:(lia) ltac:(lia) (join_text d f dt ft Hd Hf)) as (r & E & _).
  rewrite take_ge in E by lens.
  eapply wp_bind, wp_lift_ok; [exact E|]. apply wp_ret. exists k, []. split; [done|].
  unfold Mem.wr. rewrite list_inserts_0 by lens. rewrite drop_ge by lens.
  rewrite app_nil_r, <- app_assoc. split; [done|lens].
Qed.

(** On every path but one whose cursors end on the empty text. *)
Lemma wp_dfs_normalize_path (h : H) (A : list (Z * Z)) (wd dt ft f : list Z) (dir : option (list Z)) :
  al_inv h A -> Str.cstring dt (default wd dir) -> Str.cstring ft f ->
  len dt + len ft + 2 < 2 ^ 32 - 3 -> trace (joined dt ft) <> Some (false, []) ->
  wp (dfs_normalize_path raw wd dir f) (normalized h A (joined dt ft)) h.
Proof.
  intros Hi Hd Hf Hl Hc. unfold dfs_normalize_path.
  assert (NZ : forall t s, Str.cstring t s -> Forall (fun c => c <> 0) t).
  { intros t s [Ht _]. eapply Forall_impl; [exact Ht|]. cbn. lia. }
  assert (First : exists c, load_at f 0 = Ok c /\ (c =? SLASH) = absolute ft).
  { destruct Hf as [_ [rest ->]]. by destruct ft as [|c ft]; eexists. }
  destruct First as (c & El & Ec). eapply wp_bind, wp_lift_ok; [exact El|]. apply wp_bind. rewrite Ec.
  eapply (wp_mono _ (holds h A (joined dt ft))).
  - unfold joined. destruct (absolute ft); cbn [negb]; [apply wp_rt_strdup; [done|done|lia]|by apply wp_join].
  - intros [[a mem]|] h'; [|intros [? ->]; by split; [|right]]. intros (n & tl & Hi' & -> & Hn). apply (wp_normalize h h' A a n); try done.
    unfold joined. destruct (absolute ft); [by eapply NZ|]. apply Forall_app. split; [by eapply NZ|].
    constructor; [done|by eapply NZ].
Qed.

(** C39: for a path from the root that does not go up from the root (a file name that
    starts with a slash, or one behind such a directory), [dfs_normalize_path] returns a
    block of the heap with the full absolute path: the directories the path leads through,
    no empty component, no [.] and no [..], and no slash at its end; or [RT_NULL] with the
    heap as it was, when the heap has no room.  (A path that goes up from the root loses
    the root, see [root_is_lost].) *)
Theorem dfs_normalize_path_ok (h : H) (A : list (Z * Z)) (wd dt ft f : list Z) (dir : option (list Z))
    (stack : list (list Z)) :
  al_inv h A -> Str.cstring dt (default wd dir) -> Str.cstring ft f ->
  len dt + len ft + 2 < 2 ^ 32 - 3 ->
  absolute (joined dt ft) = true -> resolve (joined dt ft) = Some stack ->
  wp (dfs_normalize_path raw wd dir f) (fun r h' =>
    match r with
    | Some (a, mem) => exists n junk, al_inv h' ((a, n) :: A) /\ len mem <= n /\
        mem = absolute_text stack ++ 0 :: junk
    | None => al_inv h' A /\ h' = h
    end) h.
Proof.
  intros Hi Hd Hf Hl Ha Hr. pose proof (resolve_trace _ _ Ha Hr) as E.
  eapply wp_mono; [apply (wp_dfs_normalize_path h A wd dt ft f dir); try done; by rewrite E|].
  intros [[a mem]|] h'; unfold normalized; rewrite E.
  - intros (n & root & stack' & junk & Hi' & Hn & [= <- <-] & ->). rewrite path_text_absolute in *.
    by exists n, junk.
  - by intros [? [?|?]].
Qed.

End Spec.

(** A path that goes up from the root never gives an absolute path: the result is
    [RT_NULL], a text without the slash in front, or, where that text is empty, an access
    in front of the block. *)
Lemma root_is_lost (p tl : list Z) :
  Forall (fun c => c <> 0) p -> absolute p = true -> resolve p = None ->
  normalize (p ++ 0 :: tl) = Ok None \/ normalize (p ++ 0 :: tl) = Fault \/
  exists text junk, normalize (p ++ 0 :: tl) = Ok (Some (text ++ 0 :: junk)) /\ absolute text = false.
Proof.
  intros Hp Ha Hr. pose proof (normalize_ok p tl Hp) as N. destruct (trace p) as [[root stack]|] eqn:Ec; [|by left].
  right. destruct (decide _) as [E0|N0]; [by left|]. right. destruct N as (junk & _ & N).
  assert (root = false) as ->.
  { destruct root; [|done]. apply traced_resolve in Ec. congruence. }
  exists (path_text false stack), junk. split; [done|]. destruct stack as [|t stack]; [done|].
  assert (Hs : Forall proper (t :: stack)) by (eapply (trace_proper _ _ []); [by apply split_names|constructor|exact Ec]).
  inversion_clear Hs as [|? ? [Ht _] Hs']. apply render_absolute; [done|].
  rewrite <- (app_nil_r t). by apply name_absolute.
Qed.

Lemma dfs_normalize_path_ok_witness :
  wp (dfs_normalize_path (fun n => replicate (Z.to_nat n) 170) [47; 0] (Some [47; 97; 0]) [46; 46; 47; 98; 0])
    (fun r h' =>
      match r with
      | Some (a, mem) => exists n junk, al_inv h' [(a, n)] /\ len mem <= n /\ mem = [47; 98] ++ 0 :: junk
      | None => al_inv h' [] /\ h' = small_heap
      end) small_heap.
Proof.
  apply (dfs_normalize_path_ok (fun n => replicate (Z.to_nat n) 170)
    ltac:(intros ? ?; cbn beta; rewrite length_replicate; lia) small_heap [] [47; 0] [47; 97] [46; 46; 47; 98]
    [46; 46; 47; 98; 0] (Some [47; 97; 0]) [[98]]).
  - exists [(112, false)]. split; [exact small_heap_ok|]. split; [by vm_compute|]. by repeat constructor.
  - split; [by repeat constructor|]. by exists [].
  - split; [by repeat constructor|]. by exists [].
  - by vm_compute.
  - done.
  - done.
Defined.
