(* ===== verification/Dfs.v ===== *)
(** * The virtual file system (Filesystems/dfs.c, dfs_fs.c, dfs_file.c, dfs_posix.c)

    The tables of file system types, of mounted file systems and of open files, and
    the functions on them.  What a file system does itself is behind the structure of
    functions it registers, the interface [FileSystems]; devices are opened and closed
    through [DeviceTable]; memory comes from an [Allocator].  [DfsSpec.v] has the
    theorems. *)

From Stdlib Require Import Lia.
From S2P Require Import Prelude KService Printf Heap DfsPath.

(** ** Data *)

Definition DFS_FILESYSTEMS_MAX : Z := 2.
Definition DFS_FILESYSTEM_TYPES_MAX : Z := 4.
Definition DFS_FD_MAX : Z := 4.
Definition DFS_PATH_MAX : Z := 256.
Definition DFS_FD_MAGIC : Z := 0xfdfd.
Definition DFS_FS_FLAG_FULLPATH : Z := 1.
Definition DFS_F_OPEN : Z := 0x01000000.
Definition DFS_F_DIRECTORY : Z := 0x02000000.
Definition DFS_F_EOF : Z := 0x04000000.
Definition DFS_O_RDONLY : Z := 0.
Definition DFS_O_CREAT : Z := 0x100.
Definition DFS_O_DIRECTORY : Z := 0x200000.
Definition DFS_SEEK_SET : Z := 0.
Definition DFS_SEEK_CUR : Z := 1.
Definition DFS_SEEK_END : Z := 2.
Definition FT_REGULAR : Z := 0.
Definition FT_DIRECTORY : Z := 2.
Definition DFS_STATUS_OK : Z := 0.
Definition DFS_STATUS_ENOENT : Z := 2.
Definition DFS_STATUS_EBADF : Z := 9.
Definition DFS_STATUS_ENOMEM : Z := 12.
Definition DFS_STATUS_EBUSY : Z := 16.
Definition DFS_STATUS_EXDEV : Z := 18.
Definition DFS_STATUS_ENODEV : Z := 19.
Definition DFS_STATUS_ENOTDIR : Z := 20.
Definition DFS_STATUS_EINVAL : Z := 22.
Definition DFS_STATUS_ENOSPC : Z := 28.
Definition DFS_STATUS_ENOSYS : Z := 38.
Definition DFS_S_IFREG : Z := 0x8000.
Definition DFS_S_IFDIR : Z := 0x4000.
Definition DFS_S_IRW : Z := 0x1b6.
Definition DFS_S_IX : Z := 0x49.
Definition RT_DEVICE_OFLAG_RDWR : Z := 3.

(** A string in the heap: [RT_NULL], or its address and the bytes there. *)
Definition str : Type := option (Z * list Z).

(** [ops] is the address of the structure of functions. *)
Record dfs_filesystem := DfsFilesystem { fs_dev_id : Z; fs_path : str; fs_ops : Z; fs_data : Z }.

(** [fs] is an index of [filesystem_table]. *)
Record dfs_fd := DfsFd {
  fd_magic : Z; fd_type : Z; fd_path : str; fd_ref_count : Z; fd_fs : option Z;
  fd_flags : Z; fd_size : Z; fd_pos : Z; fd_data : Z }.

Record DIR := Dir { dir_fd : Z; dir_buf : list Z; dir_num : Z; dir_cur : Z }.
Definition SIZEOF_DIR : Z := 524.

Record stat_buf := StatBuf { st_dev : Z; st_mode : Z; st_size : Z; st_mtime : Z }.

Definition fs_empty : dfs_filesystem := DfsFilesystem 0 None 0 0.
Definition fd_empty : dfs_fd := DfsFd 0 0 None 0 None 0 0 0 0.

Definition fd_set_path (s : str) (x : dfs_fd) : dfs_fd :=
  DfsFd (fd_magic x) (fd_type x) s (fd_ref_count x) (fd_fs x) (fd_flags x) (fd_size x) (fd_pos x) (fd_data x).
Definition fd_set_refs (n : Z) (x : dfs_fd) : dfs_fd :=
  DfsFd (fd_magic x) (fd_type x) (fd_path x) n (fd_fs x) (fd_flags x) (fd_size x) (fd_pos x) (fd_data x).
Definition fd_set_magic (m : Z) (x : dfs_fd) : dfs_fd :=
  DfsFd m (fd_type x) (fd_path x) (fd_ref_count x) (fd_fs x) (fd_flags x) (fd_size x) (fd_pos x) (fd_data x).
Definition fd_set_fs (i : option Z) (x : dfs_fd) : dfs_fd :=
  DfsFd (fd_magic x) (fd_type x) (fd_path x) (fd_ref_count x) i (fd_flags x) (fd_size x) (fd_pos x) (fd_data x).
Definition fd_set_flags (f : Z) (x : dfs_fd) : dfs_fd :=
  DfsFd (fd_magic x) (fd_type x) (fd_path x) (fd_ref_count x) (fd_fs x) f (fd_size x) (fd_pos x) (fd_data x).
Definition fd_set_type (t : Z) (x : dfs_fd) : dfs_fd :=
  DfsFd (fd_magic x) t (fd_path x) (fd_ref_count x) (fd_fs x) (fd_flags x) (fd_size x) (fd_pos x) (fd_data x).

(** What a file system keeps in a descriptor: the size, the position and its own data. *)
Definition kept : Type := Z * Z * Z.
Definition fd_set_kept (k : kept) (x : dfs_fd) : dfs_fd :=
  DfsFd (fd_magic x) (fd_type x) (fd_path x) (fd_ref_count x) (fd_fs x) (fd_flags x) (k.1.1) (k.1.2) (k.2).
Definition fd_set_pos (p : Z) (x : dfs_fd) : dfs_fd := fd_set_kept (fd_size x, p, fd_data x) x.

(** The state: that of the system below, and the tables.  [v_fd] is the descriptor
    that is no entry of the table, the local one of [dfs_mount]; [fslock] counts how
    often the caller holds the lock, a mutex; [v_dirs] are the directory streams by
    their addresses. *)
Record vfs (W : Type) := Vfs {
  v_sys : W;
  filesystem_operation_table : list Z;
  filesystem_table : list dfs_filesystem;
  fd_table : list dfs_fd;
  v_fd : dfs_fd;
  v_dirs : gmap Z DIR;
  working_directory : list Z;
  fslock : Z;
  v_errno : Z }.
Arguments Vfs {W}.
Arguments v_sys {W}.
Arguments filesystem_operation_table {W}.
Arguments filesystem_table {W}.
Arguments fd_table {W}.
Arguments v_fd {W}.
Arguments v_dirs {W}.
Arguments working_directory {W}.
Arguments fslock {W}.
Arguments v_errno {W}.

(** A pointer to a descriptor that is not [RT_NULL]. *)
Inductive fdref := Entry (i : Z) | Local.

(** ** The interfaces *)

(** What a registered structure of functions holds, by its address: [None] for a
    function that is [RT_NULL].  A function gets the file system or descriptor it is
    given a pointer to, and the strings; it returns its result and what it writes. *)
Class FileSystems (W : Type) := {
  ops_name : Z -> list Z;
  ops_flags : Z -> Z;
  ops_mount : Z -> option (dfs_filesystem -> Z -> Z -> ST W (Z * Z));
  ops_unmount : Z -> option (dfs_filesystem -> ST W (Z * Z));
  ops_mkfs : Z -> option (Z -> ST W Z);
  ops_statfs : Z -> option (dfs_filesystem -> Z -> ST W Z);
  ops_open : Z -> option (dfs_filesystem -> dfs_fd -> ST W (Z * kept));
  ops_close : Z -> option (dfs_filesystem -> dfs_fd -> ST W (Z * kept));
  ops_ioctl : Z -> option (dfs_filesystem -> dfs_fd -> Z -> Z -> ST W (Z * kept));
  ops_read : Z -> option (dfs_filesystem -> dfs_fd -> Z -> Z -> ST W (Z * kept));
  ops_write : Z -> option (dfs_filesystem -> dfs_fd -> Z -> Z -> ST W (Z * kept));
  ops_flush : Z -> option (dfs_filesystem -> dfs_fd -> ST W (Z * kept));
  ops_lseek : Z -> option (dfs_filesystem -> dfs_fd -> Z -> ST W (Z * kept));
  ops_getdents : Z -> option (dfs_filesystem -> dfs_fd -> list Z -> Z -> ST W (Z * list Z * kept));
  ops_unlink : Z -> option (dfs_filesystem -> list Z -> ST W Z);
  ops_stat : Z -> option (dfs_filesystem -> list Z -> stat_buf -> ST W (Z * stat_buf));
  ops_rename : Z -> option (dfs_filesystem -> option (list Z) -> option (list Z) -> ST W Z);
}.

(** The devices of the system. *)
Class DeviceTable (W : Type) := {
  device_find : list Z -> ST W Z;
  device_open : Z -> Z -> ST W Z;
  device_close : Z -> ST W Z;
}.

Section Vfs.
Context {W : Type} {AL : Allocator W} {FSO : FileSystems W} {DT : DeviceTable W}.
(** What a new block of a size holds. *)
Variable raw : Z -> list Z.

Abbreviation V := (ST (vfs W)).

(** ** The state *)

Definition with_sys (s : W) (v : vfs W) : vfs W :=
  Vfs s (filesystem_operation_table v) (filesystem_table v) (fd_table v) (v_fd v) (v_dirs v)
    (working_directory v) (fslock v) (v_errno v).
Definition with_types (t : list Z) (v : vfs W) : vfs W :=
  Vfs (v_sys v) t (filesystem_table v) (fd_table v) (v_fd v) (v_dirs v) (working_directory v) (fslock v) (v_errno v).
Definition with_mounts (t : list dfs_filesystem) (v : vfs W) : vfs W :=
  Vfs (v_sys v) (filesystem_operation_table v) t (fd_table v) (v_fd v) (v_dirs v)
    (working_directory v) (fslock v) (v_errno v).
Definition with_fds (t : list dfs_fd) (v : vfs W) : vfs W :=
  Vfs (v_sys v) (filesystem_operation_table v) (filesystem_table v) t (v_fd v) (v_dirs v)
    (working_directory v) (fslock v) (v_errno v).
Definition with_fd (x : dfs_fd) (v : vfs W) : vfs W :=
  Vfs (v_sys v) (filesystem_operation_table v) (filesystem_table v) (fd_table v) x (v_dirs v)
    (working_directory v) (fslock v) (v_errno v).
Definition with_dirs (m : gmap Z DIR) (v : vfs W) : vfs W :=
  Vfs (v_sys v) (filesystem_operation_table v) (filesystem_table v) (fd_table v) (v_fd v) m
    (working_directory v) (fslock v) (v_errno v).
Definition with_cwd (d : list Z) (v : vfs W) : vfs W :=
  Vfs (v_sys v) (filesystem_operation_table v) (filesystem_table v) (fd_table v) (v_fd v) (v_dirs v)
    d (fslock v) (v_errno v).
Definition with_lock (n : Z) (v : vfs W) : vfs W :=
  Vfs (v_sys v) (filesystem_operation_table v) (filesystem_table v) (fd_table v) (v_fd v) (v_dirs v)
    (working_directory v) n (v_errno v).
Definition with_errno (e : Z) (v : vfs W) : vfs W :=
  Vfs (v_sys v) (filesystem_operation_table v) (filesystem_table v) (fd_table v) (v_fd v) (v_dirs v)
    (working_directory v) (fslock v) e.

(** What runs in the system below. *)
Definition on_sys {A} (m : ST W A) : V A := fun v =>
  match m (v_sys v) with
  | Ok (a, s) => Ok (a, with_sys s v)
  | AssertFail => AssertFail
  | Fault => Fault
  end.

Definition set_errno (e : Z) : V unit := modify (with_errno e).

(** [rt_free] of a string. *)
Definition free_str (p : str) : V unit :=
  match p with None => mret tt | Some (a, _) => on_sys (al_free a) end.

Definition get_fs (i : Z) : V dfs_filesystem := t ← gets filesystem_table; lift (load_at t i).
Definition put_fs (i : Z) (x : dfs_filesystem) : V unit :=
  t ← gets filesystem_table; t ← lift (store_at t i x); modify (with_mounts t).
Definition get_fd (p : fdref) : V dfs_fd :=
  match p with Local => gets v_fd | Entry i => t ← gets fd_table; lift (load_at t i) end.
Definition put_fd (p : fdref) (x : dfs_fd) : V unit :=
  match p with
  | Local => modify (with_fd x)
  | Entry i => t ← gets fd_table; t ← lift (store_at t i x); modify (with_fds t)
  end.
Definition upd_fd (p : fdref) (f : dfs_fd -> dfs_fd) : V unit := x ← get_fd p; put_fd p (f x).

(** Through a pointer that must not be [RT_NULL]. *)
Definition the {A} (o : option A) : V A := lift (deref o).
(** [fs->ops] where a function of it is used. *)
Definition ops_of (x : dfs_filesystem) : V Z := if fs_ops x =? 0 then kfault else mret (fs_ops x).
(** [fs->path] where its bytes are used. *)
Definition path_of (x : dfs_filesystem) : V (list Z) := p ← the (fs_path x); mret (p.2).

(** The lock is a mutex the caller may take more than once. *)
Definition dfs_lock : V unit := n ← gets fslock; modify (with_lock (n + 1)).
Definition dfs_unlock : V unit := n ← gets fslock; modify (with_lock (n - 1)).

Definition dfs_init : V Z :=
  _ ← modify (with_types (replicate (Z.to_nat DFS_FILESYSTEM_TYPES_MAX) 0));
  _ ← modify (with_mounts (replicate (Z.to_nat DFS_FILESYSTEMS_MAX) fs_empty));
  _ ← modify (with_fds (replicate (Z.to_nat DFS_FD_MAX) fd_empty));
  _ ← modify (with_lock 0);
  _ ← modify (with_cwd (<[O := SLASH]> (replicate (Z.to_nat DFS_PATH_MAX) 0)));
  mret 0.

Definition full_path (path : list Z) : V str :=
  d ← gets working_directory; on_sys (dfs_normalize_path raw d None path).

(** ** Descriptors (dfs.c) *)

(** The first entry that is not in use; the number of entries when there is none. *)
Fixpoint unused (t : list dfs_fd) (idx : Z) : Z :=
  match t with
  | [] => idx
  | x :: t => if 0 <? fd_ref_count x then unused t (idx + 1) else idx
  end.

Definition fd_new : V Z :=
  _ ← dfs_lock;
  t ← gets fd_table;
  let idx := unused t 0 in
  if idx =? DFS_FD_MAX then _ ← dfs_unlock; mret (-1) else
  _ ← upd_fd (Entry idx) (fd_set_refs 1);
  _ ← upd_fd (Entry idx) (fd_set_magic DFS_FD_MAGIC);
  _ ← dfs_unlock;
  mret idx.

Definition fd_get (fd : Z) : V (option fdref) :=
  if (fd <? 0) || (DFS_FD_MAX <=? fd) then mret None else
  _ ← dfs_lock;
  d ← get_fd (Entry fd);
  if negb (fd_magic d =? DFS_FD_MAGIC) then _ ← dfs_unlock; mret None else
  _ ← put_fd (Entry fd) (fd_set_refs (s32 (fd_ref_count d + 1)) d);
  _ ← dfs_unlock;
  mret (Some (Entry fd)).

Definition fd_put (fd : option fdref) : V unit :=
  _ ← kassert (is_some fd);
  p ← the fd;
  _ ← dfs_lock;
  _ ← upd_fd p (fun d => fd_set_refs (s32 (fd_ref_count d - 1)) d);
  d ← get_fd p;
  _ ← kwhen (fd_ref_count d =? 0) (put_fd p fd_empty);
  dfs_unlock.

(** ** File systems (dfs_fs.c) *)

(** The loop of [dfs_register]: the first empty entry, or [None] where the name is
    already there. *)
Fixpoint register_loop (t : list Z) (idx : Z) (empty : option Z) (name : list Z) : res (option (option Z)) :=
  match t with
  | [] => mret (Some empty)
  | ops :: t =>
      if ops =? 0 then
        register_loop t (idx + 1) (if is_some empty then empty else Some idx) name
      else
        r ← Str.rt_strcmp (ops_name ops) name;
        if r =? 0 then mret None else register_loop t (idx + 1) empty name
  end.

Definition dfs_register (ops : Z) : V Z :=
  _ ← dfs_lock;
  t ← gets filesystem_operation_table;
  r ← lift (register_loop t 0 None (ops_name ops));
  ret ← (match r with
         | None => mret (-1)
         | Some None => mret 0
         | Some (Some i) =>
             t ← lift (store_at t i ops); _ ← modify (with_types t); mret 0
         end);
  _ ← dfs_unlock;
  mret ret.

Fixpoint lookup_loop (t : list dfs_filesystem) (idx : Z) (path : list Z) (fs : option Z) (prefixlen : Z)
  : res (option Z) :=
  match t with
  | [] => mret fs
  | iter :: t =>
      let skip := lookup_loop t (idx + 1) path fs prefixlen in
      match fs_path iter with
      | None => skip
      | Some (_, p) =>
          if fs_ops iter =? 0 then skip else
          fspath ← Str.rt_strlen p;
          if fspath <? prefixlen then skip else
          r ← Str.rt_strncmp p path fspath;
          if negb (r =? 0) then skip else
          stop ← (if 1 <? fspath then
                    n ← Str.rt_strlen path;
                    if fspath <? n then c ← load_at path fspath; mret (negb (c =? SLASH)) else mret false
                  else mret false);
          if stop : bool then skip else lookup_loop t (idx + 1) path (Some idx) fspath
      end
  end.

Definition dfs_filesystem_lookup (path : list Z) : V (option Z) :=
  _ ← dfs_lock;
  t ← gets filesystem_table;
  fs ← lift (lookup_loop t 0 path None 0);
  _ ← dfs_unlock;
  mret fs.

Fixpoint mounted_path (t : list dfs_filesystem) (device : Z) : str :=
  match t with
  | [] => None
  | iter :: t =>
      if fs_ops iter =? 0 then mounted_path t device
      else if fs_dev_id iter =? device then fs_path iter else mounted_path t device
  end.

Definition dfs_filesystem_get_mounted_path (device : Z) : V str :=
  _ ← dfs_lock;
  t ← gets filesystem_table;
  let path := mounted_path t device in
  _ ← dfs_unlock;
  mret path.

(** [part->type], [offset] and [size] of the entry [pindex] of the partition table in
    [buf]; the messages to the console are left out. *)
Definition le32 (buf : list Z) (p : Z) : res Z :=
  b0 ← load_at buf p; b1 ← load_at buf (p + 1); b2 ← load_at buf (p + 2); b3 ← load_at buf (p + 3);
  mret (Z.lor (Z.lor (Z.lor b0 (Z.shiftl b1 8)) (Z.shiftl b2 16)) (s32 (Z.shiftl b3 24))).

Definition dfs_filesystem_get_partition (buf : list Z) (pindex : Z) : res (option (Z * Z * Z)) :=
  let dpt := 0x1be + pindex * 16 in
  active ← load_at buf dpt;
  if negb (active =? 0x80) && negb (active =? 0x00) then mret None else
  type ← load_at buf (dpt + 4);
  if type =? 0 then mret None else
  offset ← le32 buf (dpt + 8);
  size ← le32 buf (dpt + 12);
  mret (Some (type, offset, u32 size)).

(** ** Open files (dfs.c) *)

Fixpoint open_loop (t : list dfs_fd) (fs : Z) (path : list Z) : res bool :=
  match t with
  | [] => mret false
  | fd :: t =>
      match fd_fs fd with
      | None => open_loop t fs path
      | Some i =>
          if i =? fs then
            p ← deref (fd_path fd);
            r ← Str.rt_strcmp (p.2) path;
            if r =? 0 then mret true else open_loop t fs path
          else open_loop t fs path
      end
  end.

(** [s[0] == '/' && s[1] == '\0'] *)
Definition is_root (mem : list Z) : V bool :=
  c0 ← lift (load_at mem 0);
  if c0 =? SLASH then c1 ← lift (load_at mem 1); mret (c1 =? 0) else mret false.

(** Where the path starts under the mount point. *)
Definition mount_path (x : dfs_filesystem) (mem : list Z) : V (list Z) :=
  p ← path_of x;
  root ← is_root p;
  if root : bool then mret mem else
  n ← lift (Str.rt_strlen p);
  mret (drop (Z.to_nat n) mem).

Definition fd_is_open (pathname : list Z) : V Z :=
  fullpath ← full_path pathname;
  match fullpath with
  | None => mret (-1)
  | Some (_, mem) =>
      fs ← dfs_filesystem_lookup mem;
      match fs with
      | None => _ ← free_str fullpath; mret (-1)
      | Some i =>
          x ← get_fs i;
          mountpath ← mount_path x mem;
          _ ← dfs_lock;
          t ← gets fd_table;
          found ← lift (open_loop t i mountpath);
          if found : bool then _ ← free_str fullpath; _ ← dfs_unlock; mret 0 else
          _ ← dfs_unlock;
          _ ← free_str fullpath;
          mret (-1)
      end
  end.

(** ** Files (dfs_file.c) *)

(** [dfs_subdir(fs->path, fullpath)]: the string it points to. *)
Definition sub_path (x : dfs_filesystem) (mem : list Z) : V (option (list Z)) :=
  p ← path_of x;
  k ← lift (dfs_subdir p mem);
  mret (match k with None => None | Some k => Some (drop (Z.to_nat k) mem) end).

Definition full_paths (ops : Z) : bool := negb (Z.land (ops_flags ops) DFS_FS_FLAG_FULLPATH =? 0).

Definition ROOT : list Z := [SLASH; 0].

Definition dfs_file_open (fd : option fdref) (path : list Z) (flags : Z) : V Z :=
  match fd with
  | None => mret (- DFS_STATUS_EINVAL)
  | Some p =>
      fullpath ← full_path path;
      match fullpath with
      | None => mret (-1)
      | Some (_, mem) =>
          fs ← dfs_filesystem_lookup mem;
          match fs with
          | None => _ ← free_str fullpath; mret (- DFS_STATUS_ENOENT)
          | Some i =>
              _ ← upd_fd p (fd_set_fs (Some i));
              _ ← upd_fd p (fd_set_type FT_REGULAR);
              _ ← upd_fd p (fd_set_flags (u32 flags));
              _ ← upd_fd p (fun x => fd_set_kept (0, 0, fd_data x) x);
              x ← get_fs i;
              ops ← ops_of x;
              _ ← (if negb (full_paths ops) then
                     sub ← sub_path x mem;
                     s ← on_sys (rt_strdup raw (default ROOT sub));
                     _ ← upd_fd p (fd_set_path s);
                     free_str fullpath
                   else upd_fd p (fd_set_path fullpath));
              match ops_open ops with
              | None =>
                  d ← get_fd p;
                  _ ← free_str (fd_path d);
                  _ ← upd_fd p (fd_set_path None);
                  mret (- DFS_STATUS_ENOSYS)
              | Some open =>
                  d ← get_fd p;
                  '(result, k) ← on_sys (open x d);
                  _ ← upd_fd p (fd_set_kept k);
                  if result <? 0 then
                    d ← get_fd p;
                    _ ← free_str (fd_path d);
                    _ ← upd_fd p (fd_set_path None);
                    mret result
                  else
                    _ ← upd_fd p (fun d => fd_set_flags (Z.lor (fd_flags d) DFS_F_OPEN) d);
                    _ ← kwhen (negb (Z.land flags DFS_O_DIRECTORY =? 0))
                          (_ ← upd_fd p (fd_set_type FT_DIRECTORY);
                           upd_fd p (fun d => fd_set_flags (Z.lor (fd_flags d) DFS_F_DIRECTORY) d));
                    mret 0
              end
          end
      end
  end.

(** [fd->fs], and its functions. *)
Definition fs_of (p : fdref) : V dfs_filesystem := d ← get_fd p; i ← the (fd_fs d); get_fs i.

(** A function of the file system that works on a descriptor. *)
Definition call_fd (p : fdref) (f : dfs_filesystem -> dfs_fd -> ST W (Z * kept)) : V Z :=
  x ← fs_of p;
  d ← get_fd p;
  '(result, k) ← on_sys (f x d);
  _ ← upd_fd p (fd_set_kept k);
  mret result.

Definition dfs_file_close (fd : option fdref) : V Z :=
  result ← (match fd with
            | None => mret 0
            | Some p =>
                x ← fs_of p;
                ops ← ops_of x;
                match ops_close ops with None => mret 0 | Some close => call_fd p close end
            end);
  if result <? 0 then mret result else
  p ← the fd;
  d ← get_fd p;
  _ ← free_str (fd_path d);
  _ ← upd_fd p (fd_set_path None);
  mret result.

Definition dfs_file_ioctl (fd : option fdref) (cmd args : Z) : V Z :=
  match fd with
  | None => mret (- DFS_STATUS_EINVAL)
  | Some p =>
      d ← get_fd p;
      if negb (fd_type d =? FT_REGULAR) then mret (- DFS_STATUS_EINVAL) else
      x ← fs_of p;
      ops ← ops_of x;
      match ops_ioctl ops with
      | Some ioctl => call_fd p (fun x d => ioctl x d cmd args)
      | None => mret (- DFS_STATUS_ENOSYS)
      end
  end.

Definition dfs_file_read (fd : option fdref) (buf len : Z) : V Z :=
  match fd with
  | None => mret (- DFS_STATUS_EINVAL)
  | Some p =>
      x ← fs_of p;
      ops ← ops_of x;
      match ops_read ops with
      | None => mret (- DFS_STATUS_ENOSYS)
      | Some read =>
          result ← call_fd p (fun x d => read x d buf len);
          _ ← kwhen (result <? 0) (upd_fd p (fun d => fd_set_flags (Z.lor (fd_flags d) DFS_F_EOF) d));
          mret result
      end
  end.

(** The bytes at [dirp] afterwards, too. *)
Definition dfs_file_getdents (fd : option fdref) (dirp : list Z) (nbytes : Z) : V (Z * list Z) :=
  match fd with
  | None => mret (- DFS_STATUS_EINVAL, dirp)
  | Some p =>
      d ← get_fd p;
      if negb (fd_type d =? FT_DIRECTORY) then mret (- DFS_STATUS_EINVAL, dirp) else
      x ← fs_of p;
      ops ← ops_of x;
      match ops_getdents ops with
      | Some getdents =>
          '(result, dirp, k) ← on_sys (getdents x d dirp nbytes);
          _ ← upd_fd p (fd_set_kept k);
          mret (result, dirp)
      | None => mret (- DFS_STATUS_ENOSYS, dirp)
      end
  end.

Definition dfs_file_unlink (path : list Z) : V Z :=
  fullpath ← full_path path;
  match fullpath with
  | None => mret (- DFS_STATUS_EINVAL)
  | Some (_, mem) =>
      fs ← dfs_filesystem_lookup mem;
      result ← (match fs with
                | None => mret (- DFS_STATUS_ENOENT)
                | Some i =>
                    o ← fd_is_open mem;
                    if o =? 0 then mret (- DFS_STATUS_EBUSY) else
                    x ← get_fs i;
                    ops ← ops_of x;
                    match ops_unlink ops with
                    | Some unlink =>
                        if negb (full_paths ops) then
                          sub ← sub_path x mem; on_sys (unlink x (default ROOT sub))
                        else on_sys (unlink x mem)
                    | None => mret (- DFS_STATUS_ENOSYS)
                    end
                end);
      _ ← free_str fullpath;
      mret result
  end.

Definition dfs_file_write (fd : option fdref) (buf len : Z) : V Z :=
  match fd with
  | None => mret (- DFS_STATUS_EINVAL)
  | Some p =>
      x ← fs_of p;
      ops ← ops_of x;
      match ops_write ops with
      | None => mret (- DFS_STATUS_ENOSYS)
      | Some write => call_fd p (fun x d => write x d buf len)
      end
  end.

Definition dfs_file_flush (fd : option fdref) : V Z :=
  match fd with
  | None => mret (- DFS_STATUS_EINVAL)
  | Some p =>
      x ← fs_of p;
      ops ← ops_of x;
      match ops_flush ops with
      | None => mret (- DFS_STATUS_ENOSYS)
      | Some flush => call_fd p flush
      end
  end.

Definition dfs_file_lseek (fd : option fdref) (offset : Z) : V Z :=
  p ← the fd;
  d ← get_fd p;
  match fd_fs d with
  | None => mret (- DFS_STATUS_EINVAL)
  | Some i =>
      x ← get_fs i;
      ops ← ops_of x;
      match ops_lseek ops with
      | None => mret (- DFS_STATUS_ENOSYS)
      | Some lseek =>
          result ← call_fd p (fun x d => lseek x d offset);
          _ ← kwhen (0 <=? result) (upd_fd p (fd_set_pos result));
          mret result
      end
  end.

Definition DIRECTORY_STAT : stat_buf := StatBuf 0 (Z.lor DFS_S_IRW (Z.lor DFS_S_IFDIR DFS_S_IX)) 0 0.

Definition dfs_file_stat (path : list Z) (buf : stat_buf) : V (Z * stat_buf) :=
  fullpath ← full_path path;
  match fullpath with
  | None => mret (-1, buf)
  | Some (_, mem) =>
      fs ← dfs_filesystem_lookup mem;
      match fs with
      | None => _ ← free_str fullpath; mret (- DFS_STATUS_ENOENT, buf)
      | Some i =>
          x ← get_fs i;
          root ← is_root mem;
          sub ← (if root : bool then mret None else sub_path x mem);
          match sub with
          | None => _ ← free_str fullpath; mret (DFS_STATUS_OK, DIRECTORY_STAT)
          | Some sub =>
              ops ← ops_of x;
              match ops_stat ops with
              | None => _ ← free_str fullpath; mret (- DFS_STATUS_ENOSYS, buf)
              | Some stat =>
                  r ← on_sys (stat x (if full_paths ops then mem else sub) buf);
                  _ ← free_str fullpath;
                  mret r
              end
          end
      end
  end.

Definition dfs_file_rename (oldpath newpath : list Z) : V Z :=
  oldfullpath ← full_path oldpath;
  match oldfullpath with
  | None => mret (- DFS_STATUS_ENOENT)
  | Some (_, old) =>
      newfullpath ← full_path newpath;
      match newfullpath with
      | None => _ ← free_str oldfullpath; mret (- DFS_STATUS_ENOENT)
      | Some (_, new) =>
          oldfs ← dfs_filesystem_lookup old;
          newfs ← dfs_filesystem_lookup new;
          result ← (if bool_decide (oldfs = newfs) then
                      i ← the oldfs;
                      x ← get_fs i;
                      ops ← ops_of x;
                      match ops_rename ops with
                      | None => mret (- DFS_STATUS_ENOSYS)
                      | Some rename =>
                          if full_paths ops then on_sys (rename x (Some old) (Some new)) else
                          sub ← sub_path x old;
                          sub' ← sub_path x new;
                          on_sys (rename x sub sub')
                      end
                    else mret (- DFS_STATUS_EXDEV));
          _ ← free_str oldfullpath;
          _ ← free_str newfullpath;
          mret result
      end
  end.

(** ** Mounting (dfs_fs.c) *)

(** The loop that looks a file system type up: its index in the table. *)
Fixpoint type_loop (t : list Z) (idx : Z) (name : list Z) : res Z :=
  match t with
  | [] => mret idx
  | ops :: t =>
      if ops =? 0 then Fault else
      r ← Str.rt_strcmp (ops_name ops) name;
      if r =? 0 then mret idx else type_loop t (idx + 1) name
  end.

(** The loop that looks for an empty entry; [None] where the path is mounted. *)
Fixpoint mount_loop (t : list dfs_filesystem) (idx : Z) (fs : option Z) (path : list Z) : res (option (option Z)) :=
  match t with
  | [] => mret (Some fs)
  | iter :: t =>
      if fs_ops iter =? 0 then mount_loop t (idx + 1) (if is_some fs then fs else Some idx) path
      else
        p ← deref (fs_path iter);
        r ← Str.rt_strcmp (p.2) path;
        if r =? 0 then mret None else mount_loop t (idx + 1) fs path
  end.

Definition DEV : list Z := [47; 100; 101; 118; 0].

(** Whether the path is a directory that can be opened. *)
Definition mount_point (mem : list Z) : V bool :=
  r ← lift (Str.rt_strcmp mem ROOT);
  r' ← lift (Str.rt_strcmp mem DEV);
  if negb (r =? 0) && negb (r' =? 0) then
    o ← dfs_file_open (Some Local) mem (Z.lor DFS_O_RDONLY DFS_O_DIRECTORY);
    if o <? 0 then mret false else _ ← dfs_file_close (Some Local); mret true
  else mret true.

(** The error exit: the lock is held. *)
Definition mount_err (fullpath : str) : V Z := _ ← dfs_unlock; _ ← free_str fullpath; mret (-1).

Definition dfs_mount (device_name : option (list Z)) (path filesystemtype : list Z) (rwflag data : Z) : V Z :=
  dev_id ← (match device_name with
            | None => mret (Some 0)
            | Some name => d ← on_sys (device_find name); mret (if d =? 0 then None else Some d)
            end);
  match dev_id with
  | None => _ ← set_errno (- DFS_STATUS_ENODEV); mret (-1)
  | Some dev_id =>
      _ ← dfs_lock;
      t ← gets filesystem_operation_table;
      i ← lift (type_loop t 0 filesystemtype);
      _ ← dfs_unlock;
      if i =? DFS_FILESYSTEM_TYPES_MAX then _ ← set_errno (- DFS_STATUS_ENODEV); mret (-1) else
      ops ← lift (load_at t i);
      match ops_mount ops with
      | None => _ ← set_errno (- DFS_STATUS_ENOSYS); mret (-1)
      | Some mount =>
          fullpath ← full_path path;
          match fullpath with
          | None => _ ← set_errno (- DFS_STATUS_ENOTDIR); mret (-1)
          | Some (_, mem) =>
              ok ← mount_point mem;
              if negb ok then _ ← free_str fullpath; _ ← set_errno (- DFS_STATUS_ENOTDIR); mret (-1) else
              _ ← dfs_lock;
              t ← gets filesystem_table;
              fs ← lift (mount_loop t 0 None path);
              match fs with
              | None => _ ← set_errno (- DFS_STATUS_EINVAL); mount_err fullpath
              | Some None => _ ← set_errno (- DFS_STATUS_ENOSPC); mount_err fullpath
              | Some (Some fs) =>
                  x ← get_fs fs;
                  _ ← put_fs fs (DfsFilesystem dev_id fullpath ops (fs_data x));
                  _ ← dfs_unlock;
                  opened ← (if negb (dev_id =? 0) then
                              r ← on_sys (device_open dev_id RT_DEVICE_OFLAG_RDWR); mret (r =? 0)
                            else mret true);
                  if negb opened then _ ← dfs_lock; _ ← put_fs fs fs_empty; mount_err fullpath else
                  x ← get_fs fs;
                  '(r, data) ← on_sys (mount x rwflag data);
                  _ ← put_fs fs (DfsFilesystem (fs_dev_id x) (fs_path x) (fs_ops x) data);
                  if r <? 0 then
                    _ ← kwhen (negb (dev_id =? 0)) (_ ← on_sys (device_close (fs_dev_id x)); mret tt);
                    _ ← dfs_lock; _ ← put_fs fs fs_empty; mount_err fullpath
                  else mret 0
              end
          end
      end
  end.

Fixpoint unmount_loop (t : list dfs_filesystem) (idx : Z) (path : list Z) : res (option Z) :=
  match t with
  | [] => mret None
  | iter :: t =>
      match fs_path iter with
      | None => unmount_loop t (idx + 1) path
      | Some (_, p) =>
          r ← Str.rt_strcmp p path;
          if r =? 0 then mret (Some idx) else unmount_loop t (idx + 1) path
      end
  end.

Definition dfs_unmount (specialfile : list Z) : V Z :=
  fullpath ← full_path specialfile;
  match fullpath with
  | None => _ ← set_errno (- DFS_STATUS_ENOTDIR); mret (-1)
  | Some (_, mem) =>
      _ ← dfs_lock;
      t ← gets filesystem_table;
      fs ← lift (unmount_loop t 0 mem);
      match fs with
      | None => mount_err fullpath
      | Some fs =>
          x ← get_fs fs;
          ops ← ops_of x;
          match ops_unmount ops with
          | None => mount_err fullpath
          | Some unmount =>
              '(r, data) ← on_sys (unmount x);
              _ ← put_fs fs (DfsFilesystem (fs_dev_id x) (fs_path x) (fs_ops x) data);
              if r <? 0 then mount_err fullpath else
              _ ← kwhen (negb (fs_dev_id x =? 0)) (_ ← on_sys (device_close (fs_dev_id x)); mret tt);
              _ ← free_str (fs_path x);
              _ ← put_fs fs fs_empty;
              _ ← dfs_unlock;
              _ ← free_str fullpath;
              mret 0
          end
      end
  end.

(** As [type_loop], with a test of the entry. *)
Fixpoint mkfs_loop (t : list Z) (index : Z) (name : list Z) : res Z :=
  match t with
  | [] => mret index
  | ops :: t =>
      if ops =? 0 then mkfs_loop t (index + 1) name else
      r ← Str.rt_strcmp (ops_name ops) name;
      if r =? 0 then mret index else mkfs_loop t (index + 1) name
  end.

Definition dfs_mkfs (fs_name : list Z) (device_name : option (list Z)) : V Z :=
  dev_id ← (match device_name with Some name => on_sys (device_find name) | None => mret 0 end);
  if dev_id =? 0 then _ ← set_errno (- DFS_STATUS_ENODEV); mret (-1) else
  _ ← dfs_lock;
  t ← gets filesystem_operation_table;
  index ← lift (mkfs_loop t 0 fs_name);
  _ ← dfs_unlock;
  if index <? DFS_FILESYSTEM_TYPES_MAX then
    ops ← lift (load_at t index);
    match ops_mkfs ops with
    | None => _ ← set_errno (- DFS_STATUS_ENOSYS); mret (-1)
    | Some mkfs => on_sys (mkfs dev_id)
    end
  else mret (-1).

Definition dfs_statfs (path : list Z) (buffer : Z) : V Z :=
  fs ← dfs_filesystem_lookup path;
  match fs with
  | None => mret (-1)
  | Some i =>
      x ← get_fs i;
      ops ← ops_of x;
      match ops_statfs ops with Some statfs => on_sys (statfs x buffer) | None => mret (-1) end
  end.

(** ** The interface of POSIX (dfs_posix.c) *)

(** A call that reports the error in [errno]. *)
Definition fail (e : Z) : V Z := _ ← set_errno e; mret (-1).

Definition open (file : list Z) (flags : Z) : V Z :=
  fd ← fd_new;
  if fd <? 0 then fail (- DFS_STATUS_ENOMEM) else
  d ← fd_get fd;
  result ← dfs_file_open d file flags;
  if result <? 0 then _ ← fd_put d; _ ← fd_put d; fail result else
  _ ← fd_put d;
  mret fd.

Definition close (fd : Z) : V Z :=
  d ← fd_get fd;
  if negb (is_some d) then fail (- DFS_STATUS_EBADF) else
  result ← dfs_file_close d;
  _ ← fd_put d;
  if result <? 0 then fail result else
  _ ← fd_put d;
  mret 0.

Definition read (fd buf len : Z) : V Z :=
  d ← fd_get fd;
  if negb (is_some d) then fail (- DFS_STATUS_EBADF) else
  result ← dfs_file_read d buf len;
  if result <? 0 then _ ← fd_put d; fail result else
  _ ← fd_put d;
  mret result.

Definition write (fd buf len : Z) : V Z :=
  d ← fd_get fd;
  if negb (is_some d) then fail (- DFS_STATUS_EBADF) else
  result ← dfs_file_write d buf len;
  if result <? 0 then _ ← fd_put d; fail result else
  _ ← fd_put d;
  mret result.

Definition lseek (fd offset whence : Z) : V Z :=
  p ← fd_get fd;
  match p with
  | None => fail (- DFS_STATUS_EBADF)
  | Some r =>
      d ← get_fd r;
      let offset' :=
        if whence =? DFS_SEEK_SET then Some offset
        else if whence =? DFS_SEEK_CUR then Some (s32 (offset + fd_pos d))
        else if whence =? DFS_SEEK_END then Some (s32 (offset + fd_size d))
        else None in
      match offset' with
      | None => _ ← fd_put p; fail (- DFS_STATUS_EINVAL)
      | Some offset =>
          if offset <? 0 then _ ← fd_put p; fail (- DFS_STATUS_EINVAL) else
          result ← dfs_file_lseek p offset;
          if result <? 0 then _ ← fd_put p; fail result else
          _ ← fd_put p;
          mret offset
      end
  end.

Definition rename (old new : list Z) : V Z :=
  result ← dfs_file_rename old new; if result <? 0 then fail result else mret 0.

Definition unlink (pathname : list Z) : V Z :=
  result ← dfs_file_unlink pathname; if result <? 0 then fail result else mret 0.

Definition stat (file : list Z) (buf : stat_buf) : V (Z * stat_buf) :=
  '(result, buf) ← dfs_file_stat file buf;
  if result <? 0 then _ ← set_errno result; mret (-1, buf) else mret (result, buf).

Definition fstat (fildes : Z) (buf : stat_buf) : V (Z * stat_buf) :=
  p ← fd_get fildes;
  match p with
  | None => _ ← set_errno (- DFS_STATUS_EBADF); mret (-1, buf)
  | Some r =>
      d ← get_fd r;
      let mode := Z.lor DFS_S_IFREG DFS_S_IRW in
      let mode :=
        if fd_type d =? FT_DIRECTORY then
          Z.lor (Z.land mode (Z.lnot DFS_S_IFREG)) (Z.lor DFS_S_IFDIR DFS_S_IX)
        else mode in
      _ ← fd_put p;
      mret (DFS_STATUS_OK, StatBuf 0 mode (fd_size d) 0)
  end.

Definition fsync (fildes : Z) : V Z :=
  d ← fd_get fildes;
  if negb (is_some d) then fail (- DFS_STATUS_EBADF) else
  ret ← dfs_file_flush d;
  _ ← fd_put d;
  mret ret.

Definition ioctl (fildes cmd data : Z) : V Z :=
  d ← fd_get fildes;
  if negb (is_some d) then fail (- DFS_STATUS_EBADF) else
  ret ← dfs_file_ioctl d (s32 cmd) data;
  ret ← (if negb (ret =? DFS_STATUS_OK) then fail ret else mret ret);
  _ ← fd_put d;
  mret ret.

Definition statfs (path : list Z) (buf : Z) : V Z :=
  result ← dfs_statfs path buf; if result <? 0 then fail result else mret result.

Definition mkdir (path : list Z) : V Z :=
  fd ← fd_new;
  if fd =? -1 then fail (- DFS_STATUS_ENOMEM) else
  d ← fd_get fd;
  result ← dfs_file_open d path (Z.lor DFS_O_DIRECTORY DFS_O_CREAT);
  if result <? 0 then _ ← fd_put d; _ ← fd_put d; fail result else
  _ ← dfs_file_close d;
  _ ← fd_put d;
  _ ← fd_put d;
  mret 0.

Definition rmdir (pathname : list Z) : V Z :=
  result ← dfs_file_unlink pathname; if result <? 0 then fail result else mret 0.

(** *** Directory streams *)

(** The stream at [d]. *)
Definition get_dir (d : Z) : V DIR := m ← gets v_dirs; the (m !! d).
Definition put_dir (d : Z) (x : DIR) : V unit := m ← gets v_dirs; modify (with_dirs (<[d := x]> m)).

Definition opendir (name : list Z) : V Z :=
  fd ← fd_new;
  if fd =? -1 then _ ← set_errno (- DFS_STATUS_ENOMEM); mret 0 else
  d ← fd_get fd;
  result ← dfs_file_open d name (Z.lor DFS_O_RDONLY DFS_O_DIRECTORY);
  if 0 <=? result then
    t ← on_sys (al_malloc SIZEOF_DIR);
    _ ← (if t =? 0 then _ ← dfs_file_close d; fd_put d
         else put_dir t (Dir fd (replicate 512 0) 0 0));
    _ ← fd_put d;
    mret t
  else
    _ ← fd_put d; _ ← fd_put d;
    _ ← set_errno result;
    mret 0.

(** The length of the record at [cur]. *)
Definition d_reclen (buf : list Z) (cur : Z) : res Z :=
  a ← load_at buf (cur + 2); b ← load_at buf (cur + 3); mret (a + 256 * b).

(** The place in [buf] of the entry; [None]: [RT_NULL]. *)
Definition readdir (d : Z) : V (option Z) :=
  x ← get_dir d;
  fd ← fd_get (dir_fd x);
  if negb (is_some fd) then _ ← set_errno (- DFS_STATUS_EBADF); mret None else
  _ ← (if negb (dir_num x =? 0) then
         n ← lift (d_reclen (dir_buf x) (dir_cur x));
         put_dir d (Dir (dir_fd x) (dir_buf x) (dir_num x) (dir_cur x + n))
       else mret tt);
  x ← get_dir d;
  if (dir_num x =? 0) || (dir_num x <=? dir_cur x) then
    '(result, buf) ← dfs_file_getdents fd (dir_buf x) 511;
    _ ← put_dir d (Dir (dir_fd x) buf (dir_num x) (dir_cur x));
    if result <=? 0 then _ ← fd_put fd; _ ← set_errno result; mret None else
    _ ← put_dir d (Dir (dir_fd x) buf result 0);
    _ ← fd_put fd;
    mret (Some 0)
  else
    _ ← fd_put fd;
    mret (Some (dir_cur x)).

Definition telldir (d : Z) : V Z :=
  x ← get_dir d;
  p ← fd_get (dir_fd x);
  match p with
  | None => _ ← set_errno (- DFS_STATUS_EBADF); mret 0
  | Some r =>
      fd ← get_fd r;
      let result := s32 (fd_pos fd - dir_num x + dir_cur x) in
      _ ← fd_put p;
      mret result
  end.

Definition seekdir (d offset : Z) : V unit :=
  x ← get_dir d;
  fd ← fd_get (dir_fd x);
  if negb (is_some fd) then set_errno (- DFS_STATUS_EBADF) else
  r ← dfs_file_lseek fd offset;
  _ ← kwhen (0 <=? r) (put_dir d (Dir (dir_fd x) (dir_buf x) 0 0));
  fd_put fd.

Definition rewinddir (d : Z) : V unit :=
  x ← get_dir d;
  fd ← fd_get (dir_fd x);
  if negb (is_some fd) then set_errno (- DFS_STATUS_EBADF) else
  r ← dfs_file_lseek fd 0;
  _ ← kwhen (0 <=? r) (put_dir d (Dir (dir_fd x) (dir_buf x) 0 0));
  fd_put fd.

Definition closedir (d : Z) : V Z :=
  x ← get_dir d;
  fd ← fd_get (dir_fd x);
  if negb (is_some fd) then fail (- DFS_STATUS_EBADF) else
  result ← dfs_file_close fd;
  _ ← fd_put fd;
  _ ← fd_put fd;
  m ← gets v_dirs;
  _ ← modify (with_dirs (delete d m));
  _ ← on_sys (al_free d);
  if result <? 0 then fail result else mret 0.

(** [None]: [RT_NULL], which prints the working directory. *)
Definition chdir (path : option (list Z)) : V Z :=
  match path with
  | None => _ ← dfs_lock; _ ← dfs_unlock; mret 0
  | Some path =>
      n ← lift (Str.rt_strlen path);
      if DFS_PATH_MAX <? n then fail (- DFS_STATUS_ENOTDIR) else
      fullpath ← full_path path;
      match fullpath with
      | None => fail (- DFS_STATUS_ENOTDIR)
      | Some (_, mem) =>
          _ ← dfs_lock;
          d ← opendir mem;
          if d =? 0 then _ ← free_str fullpath; _ ← dfs_unlock; mret (-1) else
          _ ← closedir d;
          w ← gets working_directory;
          w ← lift (Str.rt_strncpy w mem DFS_PATH_MAX);
          _ ← modify (with_cwd w);
          _ ← free_str fullpath;
          _ ← dfs_unlock;
          mret 0
      end
  end.

(** The bytes at [buf] afterwards. *)
Definition getcwd (buf : list Z) (size : Z) : V (list Z) :=
  w ← gets working_directory; lift (Str.rt_strncpy buf w size).

End Vfs.
