(* ===== verification/DfsSpec.v ===== *)
(** * Open files and mounted file systems

    The descriptors of [Dfs.v] as a table of open files, the choice of the file system
    for a path, and who owns the strings in the heap. *)

From Stdlib Require Import Lia.
From S2P Require Import Prelude KService Printf Heap DfsPath Dfs.

(** One step of a call. *)
Ltac vstep :=
  first [ wstep
        | lazymatch goal with
          | |- wp (set_errno _) _ _ => apply wp_modify
          | |- wp dfs_lock _ _ => unfold dfs_lock
          | |- wp dfs_unlock _ _ => unfold dfs_unlock
          end; cbv beta ].

(** ** Strings *)

Definition chars (t : list Z) : Prop := Forall (fun c => 1 <= c <= 255) t.

Lemma cstring_chars (t r : list Z) : chars t -> Str.cstring t (t ++ 0 :: r).
Proof. intros H. split; [done|eauto]. Qed.

Lemma strcmp_ok (a b sa sb : list Z) :
  Str.cstring a sa -> Str.cstring b sb -> exists r, Str.rt_strcmp sa sb = Ok r /\ (r = 0 <-> a = b).
Proof.
  revert b sa sb. induction a as [|x a IH]; intros [|y b] sa sb Ha Hb.
  - apply Str.cstring_nil in Ha as [? ->], Hb as [? ->]. by exists 0.
  - apply Str.cstring_nil in Ha as [? ->]. apply Str.cstring_cons in Hb as (? & -> & Hy & _).
    exists (0 - y). split; [done|]. split; [lia|done].
  - apply Str.cstring_nil in Hb as [? ->]. apply Str.cstring_cons in Ha as (? & -> & Hx & _).
    exists (x - 0). cbn [Str.rt_strcmp]. rewrite (proj2 (Z.eqb_neq x 0)) by lia. cbn [negb andb].
    split; [done|]. split; [lia|done].
  - apply Str.cstring_cons in Ha as (sa' & -> & Hx & Ha), Hb as (sb' & -> & Hy & Hb).
    cbn [Str.rt_strcmp]. rewrite (proj2 (Z.eqb_neq x 0)) by lia. cbn [negb andb].
    destruct (Z.eqb_spec x y) as [->|N].
    + destruct (IH b sa' sb' Ha Hb) as (r & -> & Hr). exists r. split; [done|]. rewrite Hr. split; congruence.
    + exists (x - y). split; [done|]. split; [lia|congruence].
Qed.

Lemma cstring_load (t s : list Z) (i : Z) :
  Str.cstring t s -> 0 <= i <= len t -> load_at s i = Ok (default 0 (t !! Z.to_nat i)).
Proof.
  intros [_ [r ->]] Hi. apply load_at_ok; [lia|]. destruct (decide (Z.to_nat i < length t)%nat) as [L|L].
  - rewrite lookup_app_l by done. by destruct (lookup_lt_is_Some_2 t (Z.to_nat i) L) as [c ->].
  - replace (Z.to_nat i) with (length t) by lia. rewrite (lookup_ge_None_2 t) by lia.
    by rewrite list_lookup_middle.
Qed.

(** The comparison of [strlen(a)] characters. *)
(** ** The file system of a path *)

(** The entry [j] is mounted at [t]. *)
Definition mounted (tab : list dfs_filesystem) (j : nat) (t : list Z) : Prop :=
  exists x a p, tab !! j = Some x /\ fs_ops x <> 0 /\ fs_path x = Some (a, p) /\ Str.cstring t p.

(** A mount point covers a path when the path goes on below it. *)
Definition covers (t p : list Z) : Prop :=
  t `prefix_of` p /\ ((1 < length t < length p)%nat -> p !! length t = Some SLASH).

Definition fs_ok (x : dfs_filesystem) : Prop :=
  x = fs_empty \/ (fs_ops x <> 0 /\ exists a t p, fs_path x = Some (a, p) /\ Str.cstring t p /\ t <> []).

(** The best mount point of a table: it covers the path, none that does is longer, and
    of those of its length it is the last. *)
Definition best (tab : list dfs_filesystem) (p : list Z) (r : option Z) (n : Z) : Prop :=
  match r with
  | None => n = 0 /\ forall j t, mounted tab j t -> ~ covers t p
  | Some i => exists t, 0 <= i /\ mounted tab (Z.to_nat i) t /\ covers t p /\ n = len t /\
      forall j t', mounted tab j t' -> covers t' p ->
        (length t' < length t)%nat \/ (length t' = length t /\ (j <= Z.to_nat i)%nat)
  end.

Lemma mounted_fun (tab : list dfs_filesystem) (j : nat) (t t' : list Z) :
  mounted tab j t -> mounted tab j t' -> t = t'.
Proof.
  intros (x & a & p & E1 & _ & E2 & C1) (x' & a' & p' & E1' & _ & E2' & C2).
  assert (p' = p) as -> by congruence. 
  pose proof (Str.rt_strlen_ok _ _ C1) as L1. pose proof (Str.rt_strlen_ok _ _ C2) as L2.
  assert (length t = length t') by (assert (len t = len t') by congruence; lia).
  destruct C1 as [_ [r ->]], C2 as [_ [r' E]]. apply app_inj_1 in E as [-> _]; done.
Qed.

Lemma mounted_snoc (tab : list dfs_filesystem) (x : dfs_filesystem) (j : nat) (t : list Z) :
  mounted (tab ++ [x]) j t <->
    mounted tab j t \/ (j = length tab /\ fs_ops x <> 0 /\ exists a p, fs_path x = Some (a, p) /\ Str.cstring t p).
Proof.
  unfold mounted. split.
  - intros (y & a & p & E & H). apply lookup_snoc_Some in E as [[L E]|[-> <-]]; [left; eauto 10|right].
    destruct H as (? & ? & ?). eauto 10.
  - intros [(y & a & p & E & H)|(-> & Ho & a & p & H)].
    + exists y, a, p. rewrite lookup_app_l by (by eapply lookup_lt_Some). done.
    + exists x, a, p. by rewrite list_lookup_middle.
Qed.

(** An entry that is passed over. *)
Lemma best_skip (tab : list dfs_filesystem) (x : dfs_filesystem) (p : list Z) (r : option Z) (n : Z) :
  best tab p r n ->
  (forall t a s, fs_ops x <> 0 -> fs_path x = Some (a, s) -> Str.cstring t s -> covers t p ->
     len t < n) ->
  best (tab ++ [x]) p r n.
Proof.
  intros B Hx. destruct r as [i|]; cbn in *.
  - destruct B as (t & Hi & M & C & -> & B). exists t. split; [done|]. split; [|split; [done|split; [done|]]].
    + apply mounted_snoc. by left.
    + intros j t' [M'|(-> & Ho & a & s & E & Hs)]%mounted_snoc C'; [by apply B|].
      specialize (Hx t' a s Ho E Hs C'). left. lia.
  - destruct B as [-> B]. split; [done|]. intros j t [M|(-> & Ho & a & s & E & Hs)]%mounted_snoc C; [by eapply B|].
    specialize (Hx t a s Ho E Hs C). lia.
Qed.

Lemma lookup_loop_ok (done tab : list dfs_filesystem) (p s : list Z) (r : option Z) (n : Z) :
  Str.cstring p s -> Forall fs_ok tab -> best done p r n ->
  exists r' n', lookup_loop tab (Z.of_nat (length done)) s r n = Ok r' /\ best (done ++ tab) p r' n'.
Proof.
  intros Hp Ht. revert done r n. induction Ht as [|x tab Hx Ht IH]; intros done r n B.
  { exists r, n. by rewrite app_nil_r. }
  assert (Skip : best (done ++ [x]) p r n -> exists r' n',
    lookup_loop tab (Z.of_nat (length done) + 1) s r n = Ok r' /\ best (done ++ x :: tab) p r' n').
  { intros B'. destruct (IH (done ++ [x]) r n B') as (r' & n' & E & B''). exists r', n'.
    rewrite <- app_assoc in B''. split; [|done]. rewrite <- E. f_equal. rewrite length_app. cbn. lia. }
  cbn [lookup_loop]. destruct Hx as [->|(Ho & a & t & q & Eq & Ct & Hn)].
  { cbn. apply Skip. apply best_skip; [done|]. done. }
  rewrite Eq, (proj2 (Z.eqb_neq _ _) Ho), (Str.rt_strlen_ok t q Ct). cbn [mbind res_bind].
  assert (U : forall t' a' q', fs_path x = Some (a', q') -> Str.cstring t' q' -> t' = t).
  { intros t' a' q' E' C'. apply (mounted_fun [x] O); exists x; eauto 10. }
  destruct (Z.ltb_spec (len t) n) as [L|L].
  { apply Skip. apply best_skip; [done|]. intros t' a' q' _ E' C' _. by rewrite (U t' a' q' E' C'). }
  destruct (Str.strncmp_prefix_of t p q s Ct Hp) as (c & -> & Hc). cbn [mbind res_bind].
  destruct (Z.eqb_spec c 0) as [E0|E0]; cbn [negb].
  2:{ apply Skip. apply best_skip; [done|]. intros t' a' q' _ E' C' [Cv _]. rewrite (U t' a' q' E' C') in Cv. tauto. }
  assert (Pre : t `prefix_of` p) by tauto.
  assert (Stop : exists b : bool, (if 1 <? len t then
      n ← Str.rt_strlen s; if len t <? n then c ← load_at s (len t); mret (negb (c =? SLASH)) else mret false
      else mret false) = Ok b /\ (b = false <-> covers t p)).
  { unfold covers. destruct (Z.ltb_spec 1 (len t)); [|exists false; split; [done|]; split; [split; [done|lia]|done]].
    rewrite (Str.rt_strlen_ok p s Hp). cbn [mbind res_bind].
    destruct (Z.ltb_spec (len t) (len p)); [|exists false; split; [done|]; split; [split; [done|lia]|done]].
    rewrite (cstring_load p s) by (done || lia). cbn [mbind res_bind]. eexists. split; [done|].
    rewrite Nat2Z.id. destruct (lookup_lt_is_Some_2 p (length t)) as [d Ed]; [lia|]. rewrite Ed. cbn.
    rewrite negb_false_iff, Z.eqb_eq. split; [intros ->; split; [done|done]|].
    intros [_ H']. specialize (H' ltac:(lia)). congruence. }
  destruct Stop as (b & -> & Hb). cbn [mbind res_bind]. destruct b.
  { apply Skip. apply best_skip; [done|]. intros t' a' q' _ E' C' Cv. rewrite (U t' a' q' E' C') in Cv.
    apply Hb in Cv. done. }
  assert (Cv : covers t p) by (by apply Hb).
  destruct (IH (done ++ [x]) (Some (Z.of_nat (length done))) (len t)) as (r' & n' & E & B').
  - exists t. rewrite Nat2Z.id. split; [lia|]. split; [apply mounted_snoc; right; eauto 10|].
    split; [done|]. split; [done|]. intros j t' [M|(-> & _ & a' & q' & E' & C')]%mounted_snoc Cv'.
    + assert (J : (j < length done)%nat) by (destruct M as (z & ? & ? & Ez & _); by eapply lookup_lt_Some).
      destruct r as [i|]; [|by destruct B as [_ B]; destruct (B j t' M)].
      destruct B as (u & _ & _ & _ & -> & B). specialize (B j t' M Cv'). lia.
    + rewrite (U t' a' q' E' C'). right. lia.
  - exists r', n'. rewrite <- app_assoc in B'. split; [|done]. rewrite <- E. f_equal. rewrite length_app. cbn. lia.
Qed.

Lemma unlock_lock {W} (v : vfs W) : with_lock (fslock v) v = v.
Proof. by destruct v. Qed.

Lemma wp_lookup {W} (v : vfs W) (p s : list Z) (Q : option Z -> vfs W -> Prop) :
  Str.cstring p s -> Forall fs_ok (filesystem_table v) ->
  (forall r n, best (filesystem_table v) p r n -> Q r v) -> wp (dfs_filesystem_lookup s) Q v.
Proof.
  intros Hp Ht HQ. destruct (lookup_loop_ok [] (filesystem_table v) p s None 0 Hp Ht) as (r & n & E & B).
  { split; [done|]. by intros j t (x & ? & ? & Ex & _). }
  unfold dfs_filesystem_lookup. do 8 vstep. eapply wp_lift_ok; [exact E|]. do 4 vstep.
  vstep.
  cbn. replace (fslock v + 1 - 1) with (fslock v) by lia. unfold with_lock. cbn.
  change (wp (mret r) Q (with_lock (fslock v) v)). rewrite unlock_lock. vstep. by eapply HQ.
Qed.

(** C38: the file system of a path is the one mounted at the longest mount point that
    covers the path. *)
Theorem dfs_filesystem_lookup_ok {W} (v : vfs W) (p s : list Z) :
  Str.cstring p s -> Forall fs_ok (filesystem_table v) ->
  exists r n, dfs_filesystem_lookup s v = Ok (r, v) /\ best (filesystem_table v) p r n.
Proof.
  intros Hp Ht. assert (R : wp (dfs_filesystem_lookup s)
    (fun r v' => v' = v /\ exists n, best (filesystem_table v) p r n) v) by (apply (wp_lookup v p); eauto).
  apply wp_elim in R as (r & v' & E & -> & n & B). eauto.
Qed.

(** ** Who owns the strings *)

Section Owns.
Context {W : Type} {AL : Allocator W}.

(** The blocks at [ptrs] are in use, beside [F]. *)
Definition owns (s : W) (ptrs : list Z) (F : list (Z * Z)) : Prop :=
  exists P, P.*1 ≡ₚ ptrs /\ al_inv s (P ++ F).

#[local] Instance owns_proper (s : W) : Proper ((≡ₚ) ==> eq ==> iff) (owns s).
Proof. intros p p' E F ? <-. unfold owns. by setoid_rewrite E. Qed.

(** What a function of a file system or of a device does to the heap. *)
Definition keeps {A} (m : ST W A) : Prop :=
  forall s F, al_inv s F -> wp m (fun _ s' => al_inv s' F) s.

Lemma wp_keeps {A} (m : ST W A) (s : W) (ptrs : list Z) (F : list (Z * Z)) (Q : A -> W -> Prop) :
  keeps m -> owns s ptrs F -> (forall r s', owns s' ptrs F -> Q r s') -> wp m Q s.
Proof.
  intros Hm (P & E & Hi) HQ. eapply wp_mono; [by apply Hm|]. cbn. intros r s' Hi'. apply HQ. by exists P.
Qed.

Lemma wp_own_malloc (s : W) (ptrs : list Z) (F : list (Z * Z)) (n : Z) (Q : Z -> W -> Prop) :
  owns s ptrs F -> 0 <= n < 2 ^ 32 - 3 -> Q 0 s ->
  (forall a s', 0 < a -> owns s' (a :: ptrs) F -> Q a s') -> wp (al_malloc n) Q s.
Proof.
  intros (P & E & Hi) Hn Q0 HQ. eapply wp_mono; [by apply al_malloc_spec|]. cbn.
  intros a s' [[-> ->]|(k & Ha & _ & Hi')]; [done|]. apply HQ; [done|]. exists ((a, k) :: P). cbn. by rewrite E.
Qed.

Lemma wp_own_free (s : W) (ptrs : list Z) (F : list (Z * Z)) (a : Z) (Q : unit -> W -> Prop) :
  owns s (a :: ptrs) F -> (forall s', owns s' ptrs F -> Q tt s') -> wp (al_free a) Q s.
Proof.
  intros (P & E & Hi) HQ.
  assert (Hin : a ∈ P.*1) by (rewrite E; by left). apply list_elem_of_fmap in Hin as ([a' k] & -> & Hin).
  apply elem_of_Permutation in Hin as [P' EP]. cbn in *.
  eapply wp_mono; [apply (al_free_spec s (P ++ F) (P' ++ F) a' k Hi); by rewrite EP|]. cbn.
  intros [] s' Hi'. apply HQ. exists P'. split; [|done]. rewrite EP in E. cbn in E. by apply Permutation_cons_inv in E.
Qed.

Lemma wp_own_normalize (raw : Z -> list Z) (s : W) (ptrs : list Z) (F : list (Z * Z)) (wd w t f : list Z)
    (Q : str -> W -> Prop) :
  (forall n, 0 <= n -> len (raw n) = n) -> owns s ptrs F ->
  Str.cstring w wd -> Str.cstring t f -> len w + len t + 2 < 2 ^ 32 - 3 -> trace (joined w t) <> Some (false, []) ->
  (forall a root stack junk s', owns s' (a :: ptrs) F -> trace (joined w t) = Some (root, stack) ->
     Q (Some (a, path_text root stack ++ 0 :: junk)) s') ->
  (forall s', owns s' ptrs F -> Q None s') ->
  wp (dfs_normalize_path raw wd None f) Q s.
Proof.
  intros Hr (P & E & Hi) Hw Ht Hl Hc HQ HN.
  eapply wp_mono; [by apply (wp_dfs_normalize_path raw Hr s (P ++ F) wd w t f None)|]. cbn.
  intros [[a mem]|] s'; cbn.
  - intros (n & root & stack & junk & Hi' & _ & Ec & ->). apply HQ; [|done]. exists ((a, n) :: P). cbn. by rewrite E.
  - intros [Hi' _]. apply HN. by exists P.
Qed.

Lemma wp_own_strdup (raw : Z -> list Z) (s : W) (ptrs : list Z) (F : list (Z * Z)) (t c : list Z)
    (Q : str -> W -> Prop) :
  (forall n, 0 <= n -> len (raw n) = n) -> owns s ptrs F -> Str.cstring t c -> len t + 1 < 2 ^ 32 - 3 ->
  (forall a junk s', owns s' (a :: ptrs) F -> Q (Some (a, t ++ 0 :: junk)) s') ->
  (forall s', owns s' ptrs F -> Q None s') ->
  wp (rt_strdup raw c) Q s.
Proof.
  intros Hr (P & E & Hi) Ht Hl HQ HN. eapply wp_mono; [by apply (wp_rt_strdup raw Hr s (P ++ F) t)|]. cbn.
  intros [[a mem]|] s'; cbn.
  - intros (n & junk & Hi' & -> & _). apply HQ. exists ((a, n) :: P). cbn. by rewrite E.
  - intros [Hi' _]. apply HN. by exists P.
Qed.

End Owns.

(** ** Paths in normal form *)

(** An absolute path without empty components, [.] and [..]. *)
Definition normal (t : list Z) : Prop := exists stack, t = path_text true stack /\ Forall proper stack.

Lemma normal_start (t : list Z) : normal t -> absolute t = true /\ t <> [].
Proof. intros ([|u stack] & -> & _); done. Qed.

Lemma normal_components (stack : list (list Z)) :
  Forall proper stack -> trace (path_text true stack) = Some (true, stack).
Proof. intros H. apply traced_path_text; [done|]. by destruct stack. Qed.

(** A path is not longer than what it was made of. *)
Fixpoint weight (ts : list (list Z)) : Z := match ts with [] => 0 | t :: ts => len t + 1 + weight ts end.

Lemma weight_nonneg (ts : list (list Z)) : 0 <= weight ts.
Proof. induction ts; cbn; lia. Qed.

Lemma weight_split (p : list Z) : weight (split p) = len p + 1.
Proof.
  induction p as [|c p IH]; [done|]. cbn. destruct (c =? SLASH); cbn; [lia|].
  destruct (split p); cbn in *; lia.
Qed.

Lemma trace_weight (root root' : bool) (stack stack' ts : list (list Z)) :
  trace_all root stack ts = Some (root', stack') -> weight stack' <= weight stack + weight ts.
Proof.
  revert root stack. induction ts as [|t ts IH]; intros root stack; cbn; [intros [= -> ->]; lia|].
  unfold trace_one. pose proof (weight_nonneg stack).
  repeat case_bool_decide; cbn; try (intros E%IH; cbn in E; lia).
  destruct stack as [|u stack]; [destruct root; [|done]|]; intros E%IH; cbn in *; lia.
Qed.

Lemma length_render (root : bool) (stack : list (list Z)) :
  len (render root stack) = weight stack + (if root then 1 else 0).
Proof.
  induction stack as [|t stack IH]; [by destruct root|]. rewrite render_cons. cbn. lens.
Qed.

Lemma traced_length (p : list Z) (stack : list (list Z)) :
  absolute p = true -> trace p = Some (true, stack) -> len (path_text true stack) <= len p.
Proof.
  intros Ha E. destruct p as [|c p]; [done|]. apply Z.eqb_eq in Ha as ->.
  unfold trace in E. cbn [absolute split trace_all] in E. rewrite Z.eqb_refl in E. cbn [trace_all] in E.
  change (trace_one true [] []) with (Some (true, @nil (list Z))) in E. cbn [mbind option_bind] in E.
  apply trace_weight in E. rewrite weight_split in E. cbn in E.
  destruct stack as [|t stack]; [cbn; lia|]. pose proof (length_render true stack) as L. cbn in E. unfold path_text. lens.
Qed.

Lemma traced_root (p : list Z) (stack : list (list Z)) :
  trace p = Some (true, stack) -> absolute p = true.
Proof. unfold trace. apply trace_root. Qed.

Lemma split_all (P : Z -> Prop) (p : list Z) : Forall P p -> Forall (Forall P) (split p).
Proof.
  induction 1 as [|c p Hc _ IH]; cbn; [by repeat constructor|]. destruct (c =? SLASH); [by constructor|].
  destruct (split p) as [|t ts]; inversion_clear IH; repeat constructor; done.
Qed.

Lemma trace_chars (P : Z -> Prop) (root root' : bool) (stack stack' ts : list (list Z)) :
  Forall (Forall P) ts -> Forall (Forall P) stack -> trace_all root stack ts = Some (root', stack') ->
  Forall (Forall P) stack'.
Proof.
  intros Ht. revert root stack. induction Ht as [|t ts Ht _ IH]; intros root stack Hs; cbn; [congruence|].
  unfold trace_one. repeat case_bool_decide; cbn; try (by apply IH).
  - destruct Hs as [|t' stack ? Hs]; [|by apply IH]. destruct root; [by apply IH|done].
  - apply IH. by constructor.
Qed.

Lemma path_text_chars (P : Z -> Prop) (root : bool) (stack : list (list Z)) :
  P SLASH -> Forall (Forall P) stack -> Forall P (path_text root stack).
Proof.
  intros H Hs. assert (R : forall l, Forall (Forall P) l -> Forall P (render root l)).
  { induction 1 as [|t l Ht _ IH]; [destruct root; repeat constructor; done|].
    rewrite render_cons, !Forall_app. by repeat constructor. }
  destruct Hs as [|t stack Ht Hs]; [by apply R|]. apply Forall_app. split; [by apply R|done].
Qed.

Lemma traced_chars (p : list Z) (root : bool) (stack : list (list Z)) :
  chars p -> trace p = Some (root, stack) -> chars (path_text root stack).
Proof.
  intros Hp E. apply path_text_chars; [done|]. unfold trace in E.
  eapply trace_chars; [by apply split_all|constructor|exact E].
Qed.

Lemma traced_proper (p : list Z) (root : bool) (stack : list (list Z)) :
  chars p -> trace p = Some (root, stack) -> Forall proper stack.
Proof.
  intros Hp E. unfold trace in E. eapply trace_proper; [|constructor|exact E]. apply split_names.
  eapply Forall_impl; [exact Hp|]. cbn. lia.
Qed.

(** ** What the interfaces promise

    No function of a file system or of a device touches the strings of the virtual
    file system, and no file system opens a file without a name. *)

Class FileSystemsOk (W : Type) {AL : Allocator W} {FSO : FileSystems W} : Prop := {
  ops_name_ok ops : exists t, Str.cstring t (ops_name ops);
  ops_mount_ok ops f : ops_mount ops = Some f -> forall x rwflag data, keeps (f x rwflag data);
  ops_unmount_ok ops f : ops_unmount ops = Some f -> forall x, keeps (f x);
  ops_mkfs_ok ops f : ops_mkfs ops = Some f -> forall dev, keeps (f dev);
  ops_statfs_ok ops f : ops_statfs ops = Some f -> forall x buf, keeps (f x buf);
  ops_open_ok ops f : ops_open ops = Some f -> forall x d s F, al_inv s F ->
    wp (f x d) (fun r s' => al_inv s' F /\ (fd_path d = None -> r.1 < 0)) s;
  ops_close_ok ops f : ops_close ops = Some f -> forall x d, keeps (f x d);
  ops_ioctl_ok ops f : ops_ioctl ops = Some f -> forall x d cmd args, keeps (f x d cmd args);
  ops_read_ok ops f : ops_read ops = Some f -> forall x d buf len, keeps (f x d buf len);
  ops_write_ok ops f : ops_write ops = Some f -> forall x d buf len, keeps (f x d buf len);
  ops_flush_ok ops f : ops_flush ops = Some f -> forall x d, keeps (f x d);
  ops_lseek_ok ops f : ops_lseek ops = Some f -> forall x d offset, keeps (f x d offset);
  ops_getdents_ok ops f : ops_getdents ops = Some f -> forall x d dirp n, keeps (f x d dirp n);
  ops_unlink_ok ops f : ops_unlink ops = Some f -> forall x path, keeps (f x path);
  ops_stat_ok ops f : ops_stat ops = Some f -> forall x path buf, keeps (f x path buf);
  ops_rename_ok ops f : ops_rename ops = Some f -> forall x old new, keeps (f x old new);
}.

Class DeviceTableOk (W : Type) {AL : Allocator W} {DT : DeviceTable W} : Prop := {
  device_find_ok name : keeps (device_find name);
  device_open_ok dev flags : keeps (device_open dev flags);
  device_close_ok dev : keeps (device_close dev);
}.

(** ** A call in progress

    [at_ p x s v]: the call began in [v]; the descriptor it works on is now [x], the
    system below is in [s], and nothing else has changed. *)

Section Progress.
Context {W : Type} {AL : Allocator W}.
Implicit Types (v : vfs W) (s : W) (x : dfs_fd).

Definition at_ (p : fdref) x s v : vfs W :=
  match p with
  | Local => with_fd x (with_sys s v)
  | Entry i => with_fds (<[Z.to_nat i := x]> (fd_table v)) (with_sys s v)
  end.

Definition valid (p : fdref) v : Prop :=
  match p with Local => True | Entry i => 0 <= i < Z.of_nat (length (fd_table v)) end.

Definition fd_at (p : fdref) v : option dfs_fd :=
  match p with Local => Some (v_fd v) | Entry i => fd_table v !! Z.to_nat i end.

Lemma at_now (p : fdref) x v : fd_at p v = Some x -> at_ p x (v_sys v) v = v.
Proof.
  destruct p; cbn; intros E; [|injection E as <-; by destruct v].
  unfold with_fds, with_sys. cbn. rewrite list_insert_id by done. by destruct v.
Qed.

Lemma at_sys (p : fdref) x s v : v_sys (at_ p x s v) = s.
Proof. by destruct p. Qed.
Lemma at_mounts (p : fdref) x s v : filesystem_table (at_ p x s v) = filesystem_table v.
Proof. by destruct p. Qed.
Lemma at_types (p : fdref) x s v : filesystem_operation_table (at_ p x s v) = filesystem_operation_table v.
Proof. by destruct p. Qed.
Lemma at_cwd (p : fdref) x s v : working_directory (at_ p x s v) = working_directory v.
Proof. by destruct p. Qed.
Lemma at_lock (p : fdref) x s v : fslock (at_ p x s v) = fslock v.
Proof. by destruct p. Qed.
Lemma at_dirs (p : fdref) x s v : v_dirs (at_ p x s v) = v_dirs v.
Proof. by destruct p. Qed.
Lemma at_with_lock (p : fdref) x s (n : Z) v : with_lock n (at_ p x s v) = at_ p x s (with_lock n v).
Proof. by destruct p. Qed.
Lemma at_with_errno (p : fdref) x s (n : Z) v : with_errno n (at_ p x s v) = at_ p x s (with_errno n v).
Proof. by destruct p. Qed.

Lemma wp_at_get (p : fdref) x s v (Q : dfs_fd -> vfs W -> Prop) :
  valid p v -> Q x (at_ p x s v) -> wp (get_fd p) Q (at_ p x s v).
Proof.
  intros Hp HQ. destruct p as [i|]; [|done]. cbn in Hp. unfold get_fd. do 2 vstep. eapply wp_lift_ok; [|exact HQ].
  apply load_at_ok; [lia|]. cbn. apply list_lookup_insert_eq. lia.
Qed.

Lemma wp_at_put (p : fdref) x y s v (Q : unit -> vfs W -> Prop) :
  valid p v -> Q tt (at_ p y s v) -> wp (put_fd p y) Q (at_ p x s v).
Proof.
  intros Hp HQ. destruct p as [i|]; [|done]. cbn in Hp. unfold put_fd. do 3 vstep. eapply wp_lift_ok.
  - apply store_at_ok. cbn. rewrite length_insert. lia.
  - vstep. unfold at_, with_fds, with_sys in *. cbn in *. rewrite list_insert_insert_eq. exact HQ.
Qed.

Lemma wp_at_upd (p : fdref) (f : dfs_fd -> dfs_fd) x s v (Q : unit -> vfs W -> Prop) :
  valid p v -> Q tt (at_ p (f x) s v) -> wp (upd_fd p f) Q (at_ p x s v).
Proof. intros Hp HQ. unfold upd_fd. vstep. apply wp_at_get; [done|]. by apply wp_at_put. Qed.

Lemma wp_on_sys {A} (m : ST W A) v (Q : A -> vfs W -> Prop) :
  wp m (fun r s => Q r (with_sys s v)) (v_sys v) -> wp (on_sys m) Q v.
Proof. unfold wp, on_sys. by destruct (m (v_sys v)) as [[a s]| |]. Qed.

Lemma at_with_sys (p : fdref) x s s' v : with_sys s' (at_ p x s v) = at_ p x s' v.
Proof. by destruct p. Qed.

Lemma wp_at_sys {A} (m : ST W A) (p : fdref) x s v (Q : A -> vfs W -> Prop) :
  wp m (fun r s' => Q r (at_ p x s' v)) s -> wp (on_sys m) Q (at_ p x s v).
Proof.
  intros H. apply wp_on_sys. rewrite at_sys. eapply wp_mono; [exact H|]. cbn. intros r s'. by rewrite at_with_sys.
Qed.

Lemma wp_get_fs (i : Z) (y : dfs_filesystem) v (Q : dfs_filesystem -> vfs W -> Prop) :
  0 <= i -> filesystem_table v !! Z.to_nat i = Some y -> Q y v -> wp (get_fs i) Q v.
Proof. intros Hi E HQ. unfold get_fs. do 2 vstep. eapply wp_lift_ok; [by apply load_at_ok|done]. Qed.

Lemma wp_the {A} (o : option A) (a : A) v (Q : A -> vfs W -> Prop) : o = Some a -> Q a v -> wp (the o) Q v.
Proof. by intros ->. Qed.

Lemma wp_ops_of (y : dfs_filesystem) v (Q : Z -> vfs W -> Prop) :
  fs_ops y <> 0 -> Q (fs_ops y) v -> wp (ops_of y) Q v.
Proof. intros H HQ. unfold ops_of. by rewrite (proj2 (Z.eqb_neq _ _) H). Qed.

(** The strings in use but that of [p]. *)
Definition ptr (o : str) : list Z := match o with Some (a, _) => [a] | None => [] end.
Definition fs_ptrs (t : list dfs_filesystem) : list Z := t ≫= fun y => ptr (fs_path y).
Definition fd_ptrs (t : list dfs_fd) : list Z := t ≫= fun x => ptr (fd_path x).
Definition ptrs v : list Z := fs_ptrs (filesystem_table v) ++ fd_ptrs (fd_table v) ++ (map_to_list (v_dirs v)).*1.
Definition rest (p : fdref) v : list Z :=
  match p with
  | Local => ptrs v
  | Entry i => fs_ptrs (filesystem_table v) ++ fd_ptrs (delete (Z.to_nat i) (fd_table v)) ++
      (map_to_list (v_dirs v)).*1
  end.

Lemma rest_entry (i : Z) x v : fd_table v !! Z.to_nat i = Some x -> ptrs v ≡ₚ ptr (fd_path x) ++ rest (Entry i) v.
Proof.
  intros E. unfold ptrs, rest, fd_ptrs. pose proof (delete_Permutation _ _ _ E) as P.
  rewrite (bind_Permutation (fun x => ptr (fd_path x)) _ _ P). cbn. solve_Permutation.
Qed.

Lemma ptrs_entry (i : Z) x s v :
  0 <= i < Z.of_nat (length (fd_table v)) -> ptrs (at_ (Entry i) x s v) ≡ₚ ptr (fd_path x) ++ rest (Entry i) v.
Proof.
  intros Hi. rewrite (rest_entry i x (at_ (Entry i) x s v)).
  - unfold rest. cbn. by rewrite !delete_take_drop, take_insert_ge, drop_insert_lt by lia.
  - cbn. apply list_lookup_insert_eq. lia.
Qed.

Lemma wp_at_free (p : fdref) x s v (own : list Z) (F : list (Z * Z)) (o : str) (Q : unit -> vfs W -> Prop) :
  owns s (ptr o ++ own) F -> (forall s', owns s' own F -> Q tt (at_ p x s' v)) -> wp (free_str o) Q (at_ p x s v).
Proof.
  intros Ho HQ. destruct o as [[a c]|]; cbn; [|vstep; by apply HQ].
  apply wp_at_sys. by apply (wp_own_free s own F a).
Qed.

End Progress.

(** ** The tables *)

(** The text up to the NUL. *)
Fixpoint ctext (s : list Z) : list Z :=
  match s with [] => [] | c :: s => if c =? 0 then [] else c :: ctext s end.

Lemma ctext_ok (t s : list Z) : Str.cstring t s -> ctext s = t.
Proof.
  revert s. induction t as [|c t IH]; intros s H.
  - apply Str.cstring_nil in H as [? ->]. done.
  - apply Str.cstring_cons in H as (s' & -> & Hc & H). cbn. rewrite (proj2 (Z.eqb_neq c 0)) by lia.
    by rewrite (IH s' H).
Qed.

(** A descriptor of an open file. *)
Definition opened (tab : list dfs_filesystem) (x : dfs_fd) : Prop :=
  exists i y a c t, fd_fs x = Some i /\ 0 <= i /\ tab !! Z.to_nat i = Some y /\ fs_ops y <> 0 /\
    fd_path x = Some (a, c) /\ Str.cstring t c.

Definition fd_ok (tab : list dfs_filesystem) (x : dfs_fd) : Prop :=
  x = fd_empty \/ (fd_magic x = DFS_FD_MAGIC /\ fd_ref_count x = 1 /\ opened tab x).

Definition cwd {W} (v : vfs W) : list Z := ctext (working_directory v).

(** Between two calls; [n]: how often the lock is held. *)
Record tables {W} (n : Z) (v : vfs W) : Prop := {
  tb_types : length (filesystem_operation_table v) = 4%nat;
  tb_mounts : length (filesystem_table v) = 2%nat;
  tb_fs : Forall fs_ok (filesystem_table v);
  tb_fds : length (fd_table v) = 4%nat;
  tb_fd : Forall (fd_ok (filesystem_table v)) (fd_table v);
  tb_cwd : Str.cstring (cwd v) (working_directory v) /\ normal (cwd v) /\ length (working_directory v) = 256%nat;
  tb_lock : fslock v = n;
}.

Definition vfs_ok {W} {AL : Allocator W} (n : Z) (F : list (Z * Z)) (v : vfs W) : Prop :=
  tables n v /\ owns (v_sys v) (ptrs v) F.

(** The path [t] does not lose the root: it does not go up from there, or goes up so far
    that [dfs_normalize_path] finds no path. *)
Definition fine {W} (v : vfs W) (t : list Z) : Prop :=
  len (joined (cwd v) t) < 2 ^ 31 /\ forall r, trace (joined (cwd v) t) = Some r -> r.1 = true.

(** [u] is the full path of [t]. *)
Definition full {W} (v : vfs W) (t u : list Z) : Prop :=
  len u < 2 ^ 31 /\ exists stack, absolute (joined (cwd v) t) = true /\ resolve (joined (cwd v) t) = Some stack /\
    u = absolute_text stack /\ Forall proper stack.

(** The file system of [u] is [y], the entry [i], mounted at [q]. *)
Definition found (tab : list dfs_filesystem) (u : list Z) (i : Z) (y : dfs_filesystem) (q : list Z) : Prop :=
  (exists n, best tab u (Some i) n) /\ 0 <= i /\ tab !! Z.to_nat i = Some y /\ fs_ops y <> 0 /\
  q <> [] /\ q `prefix_of` u /\ exists a c, fs_path y = Some (a, c) /\ Str.cstring q c.

(** The path [u] under the mount point [q]. *)
Definition sub_text (q u : list Z) : list Z :=
  if decide (length q = length u) then [SLASH]
  else if decide (u !! length q = Some SLASH) then drop (length q) u else drop (length q - 1) u.

Lemma cwd_short {W} (n : Z) (v : vfs W) : tables n v -> len (cwd v) < 256.
Proof. intros T. destruct (tb_cwd _ _ T) as ([_ [r E]] & _ & L). rewrite E in L. lens. Qed.

(** As the cursors see it. *)
Lemma full_traced {W} (v : vfs W) (t u : list Z) :
  full v t u <-> len u < 2 ^ 31 /\ exists stack, trace (joined (cwd v) t) = Some (true, stack) /\
    u = path_text true stack /\ Forall proper stack.
Proof.
  unfold full. split; intros (L & stack & H); (split; [done|]); exists stack.
  - destruct H as (Ha & E & -> & Hp). rewrite path_text_absolute. split; [by apply resolve_trace|done].
  - destruct H as (E & -> & Hp). rewrite <- path_text_absolute. split; [by eapply traced_root|].
    split; [by apply traced_resolve|done].
Qed.

Lemma full_normal {W} (v : vfs W) (t u : list Z) : full v t u -> normal u.
Proof. intros (_ & stack & _ & -> & H)%full_traced. by exists stack. Qed.

Lemma full_fine {W} (v : vfs W) (t u : list Z) : full v t u -> fine v u.
Proof.
  intros (L & stack & _ & -> & H)%full_traced. assert (N : normal (path_text true stack)) by (by exists stack).
  unfold fine, joined. rewrite (proj1 (normal_start _ N)), normal_components by done.
  split; [done|]. by intros r [= <-].
Qed.

Section Calls.
Context {W : Type} {AL : Allocator W} {FSO : FileSystems W} {DT : DeviceTable W}.
Context {FOK : FileSystemsOk W} {DOK : DeviceTableOk W}.
Variable raw : Z -> list Z.
Hypothesis raw_length : forall n, 0 <= n -> len (raw n) = n.
Implicit Types (v : vfs W) (s : W) (x : dfs_fd).


Lemma wp_full_path (n : Z) v s x (own : list Z) (F : list (Z * Z)) (p : fdref) (t path : list Z)
    (Q : str -> vfs W -> Prop) :
  tables n v -> owns s own F -> Str.cstring t path -> fine v t ->
  (forall a u mem s', owns s' (a :: own) F -> Str.cstring u mem -> full v t u -> Q (Some (a, mem)) (at_ p x s' v)) ->
  (forall s', owns s' own F -> Q None (at_ p x s' v)) ->
  wp (full_path raw path) Q (at_ p x s v).
Proof.
  intros T Ho Ct [Fl Fr] HQ HN. destruct (tb_cwd _ _ T) as (Cw & Nw & _). pose proof (cwd_short _ _ T) as Lw.
  unfold full_path. vstep. vstep. rewrite at_cwd. apply wp_at_sys.
  eapply (wp_own_normalize raw s own F _ (cwd v) t); [done|done|done|done| | | |].
  - unfold joined in Fl. destruct (absolute t); [lia|lens].
  - intros E. by specialize (Fr _ E).
  - intros a root stack junk s' Ho' Ec. pose proof (Fr _ Ec) as Er. cbn in Er. subst root.
    assert (Cj : chars (joined (cwd v) t)).
    { unfold joined. destruct (absolute t); [apply Ct|]. apply Forall_app. split; [apply Cw|].
      constructor; [done|apply Ct]. }
    apply (HQ a (path_text true stack)); [done| |].
    + apply cstring_chars. by eapply traced_chars.
    + apply full_traced. split; [|exists stack; split; [done|split; [done|by eapply traced_proper]]].
      pose proof (traced_length _ _ (traced_root _ _ Ec) Ec). lia.
  - intros s' Ho'. by apply HN.
Qed.

Lemma wp_found (n : Z) v s x (p : fdref) (u mem : list Z) (Q : option Z -> vfs W -> Prop) :
  tables n v -> Str.cstring u mem ->
  (best (filesystem_table v) u None 0 -> Q None (at_ p x s v)) ->
  (forall i y q, found (filesystem_table v) u i y q -> Q (Some i) (at_ p x s v)) ->
  wp (dfs_filesystem_lookup mem) Q (at_ p x s v).
Proof.
  intros T Cu HN HQ. apply (wp_lookup _ u); [done|rewrite at_mounts; apply T|]. rewrite at_mounts.
  intros [i|] m B; [|apply HN; cbn in B |- *; by destruct B].
  pose proof B as (t & Hi & (y & a & c & Ey & Ho & Ep & Ct) & [Pf _] & _).
  apply (HQ i y t). split; [by exists m|]. split; [done|]. split; [done|]. split; [done|].
  split; [|split; [done|by exists a, c]].
  pose proof (tb_fs _ _ T) as Ff. rewrite Forall_lookup in Ff. destruct (Ff _ _ Ey) as [->|(_ & a' & t' & c' & E & Ct' & Nt)]; [done|].
  assert (E1 : ctext c = ctext c') by congruence. rewrite (ctext_ok t c Ct), (ctext_ok t' c' Ct') in E1. congruence.
Qed.

Lemma wp_path_of (tab : list dfs_filesystem) (u q : list Z) (i : Z) (y : dfs_filesystem) v
    (Q : list Z -> vfs W -> Prop) :
  found tab u i y q -> (forall c, Str.cstring q c -> Q c v) -> wp (path_of y) Q v.
Proof.
  intros (_ & _ & _ & _ & _ & _ & a & c & E & Cq) HQ. unfold path_of. vstep. eapply wp_the; [exact E|].
  vstep. by apply HQ.
Qed.

Lemma dfs_subdir_ok (q u d f : list Z) :
  Str.cstring q d -> Str.cstring u f -> q <> [] -> q `prefix_of` u ->
  exists o, dfs_subdir d f = Ok o /\
    Str.cstring (sub_text q u) (default ROOT ((fun k => drop (Z.to_nat k) f) <$> o)).
Proof.
  intros Cq Cu Nq Pf. pose proof (prefix_length _ _ Pf) as L. unfold dfs_subdir, sub_text.
  rewrite (Str.rt_strlen_ok q d Cq), (Str.rt_strlen_ok u f Cu). cbn [mbind res_bind].
  destruct (decide (length q = length u)) as [E|E].
  { rewrite (proj2 (Z.eqb_eq _ _)) by lia. exists None. split; [done|]. apply (cstring_chars [SLASH] []).
    by repeat constructor. }
  rewrite (proj2 (Z.eqb_neq _ _)) by lia. rewrite (cstring_load u f) by (done || lia). cbn [mbind res_bind].
  rewrite Nat2Z.id. destruct (lookup_lt_is_Some_2 u (length q)) as [c Ec]; [lia|]. rewrite Ec. cbn [default].
  assert (len q <> 0) by (destruct q; [done|cbn; lia]). rewrite (proj2 (Z.eqb_neq (len q) 0)) by done.
  eexists. split; [done|]. cbn -[Z.to_nat sub_text].
  destruct (Z.eqb_spec c SLASH) as [->|N]; cbn [negb andb].
  - rewrite decide_True by done. rewrite Nat2Z.id. apply Str.cstring_drop; [lia|done].
  - rewrite decide_False by congruence. replace (Z.to_nat (len q - 1)) with (length q - 1)%nat by lia.
    apply Str.cstring_drop; [lia|done].
Qed.

Lemma length_sub_text (q u : list Z) : q <> [] -> u <> [] -> (length (sub_text q u) <= length u)%nat.
Proof.
  intros Hq Hu. unfold sub_text. destruct u; [done|]. repeat case_decide; rewrite ?length_drop; cbn in *; lia.
Qed.

Lemma wp_sub_path (tab : list dfs_filesystem) (u q mem : list Z) (i : Z) (y : dfs_filesystem) v
    (Q : option (list Z) -> vfs W -> Prop) :
  found tab u i y q -> Str.cstring u mem ->
  (forall o, Str.cstring (sub_text q u) (default ROOT o) -> Q o v) -> wp (sub_path y mem) Q v.
Proof.
  intros Fd Cu HQ. unfold sub_path. vstep. eapply wp_path_of; [exact Fd|]. intros c Cq. vstep.
  destruct Fd as (_ & _ & _ & _ & Nq & Pf & _).
  destruct (dfs_subdir_ok q u c mem Cq Cu Nq Pf) as (o & E & Co). eapply wp_lift_ok; [exact E|]. vstep.
  by destruct o; apply HQ.
Qed.

(** The name a file system gets for the path [u]. *)
Definition file_text (y : dfs_filesystem) (q u : list Z) : list Z :=
  if full_paths (fs_ops y) then u else sub_text q u.

Definition same_id (x x' : dfs_fd) : Prop := fd_magic x' = fd_magic x /\ fd_ref_count x' = fd_ref_count x.

(** The descriptor [x'] is open on the path [u]. *)
Definition opened_as (tab : list dfs_filesystem) (u : list Z) (x' : dfs_fd) : Prop :=
  exists i y q a c, found tab u i y q /\ fd_fs x' = Some i /\ fd_path x' = Some (a, c) /\
    Str.cstring (file_text y q u) c.

Lemma opened_as_opened (tab : list dfs_filesystem) (u : list Z) x' : opened_as tab u x' -> opened tab x'.
Proof.
  intros (i & y & q & a & c & (_ & Hi & Ey & Ho & _) & Ef & Ep & Cc). exists i, y, a, c. eauto 10.
Qed.

Lemma wp_set_name (v : vfs W) s x (own : list Z) (F : list (Z * Z)) (p : fdref) (a i : Z) (u mem q : list Z)
    (y : dfs_filesystem) (Q : unit -> vfs W -> Prop) :
  valid p v -> owns s (a :: own) F -> Str.cstring u mem -> u <> [] -> len u < 2 ^ 31 ->
  found (filesystem_table v) u i y q ->
  (forall o s', owns s' (ptr o ++ own) F ->
     (forall b c, o = Some (b, c) -> Str.cstring (file_text y q u) c) -> Q tt (at_ p (fd_set_path o x) s' v)) ->
  wp (if negb (full_paths (fs_ops y)) then
        sub ← sub_path y mem; s ← on_sys (rt_strdup raw (default ROOT sub));
        _ ← upd_fd p (fd_set_path s); free_str (Some (a, mem))
      else upd_fd p (fd_set_path (Some (a, mem)))) Q (at_ p x s v).
Proof.
  intros Vp Ho Cu Nu Lu Fd HQ. unfold file_text in HQ. destruct (full_paths (fs_ops y)); cbn [negb].
  { apply wp_at_upd; [done|]. apply HQ; [done|]. by intros b c [= <- <-]. }
  vstep. eapply (wp_sub_path _ u q); [exact Fd|done|]. intros o Co. vstep. apply wp_at_sys.
  pose proof (length_sub_text q u ltac:(apply Fd) Nu) as Ls.
  eapply (wp_own_strdup raw s (a :: own) F); [done|done|exact Co|lia| |].
  - intros b junk s1 Ho1. vstep. apply wp_at_upd; [done|]. eapply wp_at_free with (own := b :: own).
    + cbn. eapply owns_proper; [apply Permutation_swap|reflexivity|exact Ho1].
    + intros s2 Ho2. apply HQ; [done|]. intros ? ? [= <- <-]. apply cstring_chars. apply Co.
  - intros s1 Ho1. vstep. apply wp_at_upd; [done|]. eapply wp_at_free with (own := own); [exact Ho1|].
    intros s2 Ho2. by apply HQ.
Qed.

Lemma wp_file_open (n : Z) v s x (own : list Z) (F : list (Z * Z)) (p : fdref) (t path : list Z) (flags : Z)
    (Q : Z -> vfs W -> Prop) :
  tables n v -> valid p v -> owns s own F -> Str.cstring t path -> fine v t ->
  (forall r x' s', r < 0 -> same_id x x' -> owns s' own F -> Q r (at_ p x' s' v)) ->
  (forall u x' s', same_id x x' -> full v t u -> opened_as (filesystem_table v) u x' ->
     owns s' (ptr (fd_path x') ++ own) F -> Q 0 (at_ p x' s' v)) ->
  wp (dfs_file_open raw (Some p) path flags) Q (at_ p x s v).
Proof.
  intros T Vp Ho Ct Ft HN HQ. unfold dfs_file_open. vstep.
  eapply (wp_full_path n v s x own F p t); try done; [|by intros s1 Ho1; vstep; apply HN].
  intros a u mem s1 Ho1 Cu Fu. vstep. eapply (wp_found n v s1 x p u); [done|done| |].
  { intros _. vstep. eapply wp_at_free; [exact Ho1|]. intros s2 Ho2. vstep. by apply HN. }
  intros i y q Fd. do 4 (vstep; apply wp_at_upd; [done|]). vstep.
  eapply wp_get_fs; [apply Fd|rewrite at_mounts; apply Fd|]. vstep. apply wp_ops_of; [apply Fd|]. vstep.
  pose proof (full_normal _ _ _ Fu) as Nu.
  eapply (wp_set_name v s1 _ own F p a i u mem q y); [done|done|done|apply (normal_start _ Nu)|apply Fu|done|].
  intros o s2 Ho2 Co. destruct (ops_open (fs_ops y)) as [f|] eqn:Ef.
  - vstep. apply wp_at_get; [done|]. vstep. apply wp_at_sys. destruct Ho2 as (P & EP & Hi).
    eapply wp_mono; [by eapply ops_open_ok|]. cbn. intros [r k] s3 [Hi3 Hr]. cbn in Hr.
    assert (Ho3 : owns s3 (ptr o ++ own) F) by (by exists P).
    vstep. apply wp_at_upd; [done|]. destruct (Z.ltb_spec r 0) as [L|L].
    + vstep. apply wp_at_get; [done|]. vstep. eapply wp_at_free; [exact Ho3|]. intros s4 Ho4. vstep.
      apply wp_at_upd; [done|]. vstep. by apply HN.
    + destruct o as [[b c]|]; [|specialize (Hr eq_refl); lia]. vstep. apply wp_at_upd; [done|].
      assert (G : forall x', same_id x x' -> fd_fs x' = Some i -> fd_path x' = Some (b, c) -> Q 0 (at_ p x' s3 v)).
      { intros x' Hs Hf Hp. apply (HQ u); [done|done| |by rewrite Hp]. exists i, y, q, b, c. split; [done|].
        split; [done|]. split; [done|]. by apply (Co b). }
      vstep. destruct (negb _); vstep.
      * vstep. apply wp_at_upd; [done|]. apply wp_at_upd; [done|]. vstep. by apply G.
      * vstep. by apply G.
  - vstep. apply wp_at_get; [done|]. vstep. eapply wp_at_free; [exact Ho2|]. intros s3 Ho3. vstep.
    apply wp_at_upd; [done|]. vstep. by apply HN.
Qed.

(** *** Calls on an open file *)

(** The same open file, further on. *)
Definition same_file (x x' : dfs_fd) : Prop :=
  same_id x x' /\ fd_fs x' = fd_fs x /\ fd_path x' = fd_path x.

Lemma opened_same (tab : list dfs_filesystem) x x' : same_file x x' -> opened tab x -> opened tab x'.
Proof. intros (_ & E1 & E2). unfold opened. by rewrite E1, E2. Qed.

Lemma wp_fs_of (v : vfs W) s x (p : fdref) (Q : dfs_filesystem -> vfs W -> Prop) :
  valid p v -> opened (filesystem_table v) x -> (forall y, fs_ops y <> 0 -> Q y (at_ p x s v)) ->
  wp (fs_of p) Q (at_ p x s v).
Proof.
  intros Vp (i & y & a & c & t & Ei & Hi & Ey & Ho & _) HQ. unfold fs_of. vstep. apply wp_at_get; [done|].
  vstep. eapply wp_the; [exact Ei|]. eapply wp_get_fs; [done|rewrite at_mounts; exact Ey|]. by apply HQ.
Qed.

Lemma wp_call_fd (v : vfs W) s x (own : list Z) (F : list (Z * Z)) (p : fdref)
    (f : dfs_filesystem -> dfs_fd -> ST W (Z * kept)) (Q : Z -> vfs W -> Prop) :
  valid p v -> opened (filesystem_table v) x -> owns s own F -> (forall y d, keeps (f y d)) ->
  (forall r x' s', same_file x x' -> owns s' own F -> Q r (at_ p x' s' v)) -> wp (call_fd p f) Q (at_ p x s v).
Proof.
  intros Vp Hx Ho Hf HQ. unfold call_fd. vstep. eapply wp_fs_of; [done|done|]. intros y _. vstep.
  apply wp_at_get; [done|]. vstep. apply wp_at_sys. eapply wp_keeps; [apply Hf|exact Ho|]. intros [r k] s' Ho'.
  vstep. apply wp_at_upd; [done|]. vstep. by apply HQ.
Qed.

(** A function of [dfs_file.c] that hands its call on. *)
Definition passes (m : option fdref -> ST (vfs W) Z) : Prop :=
  forall v s x own F p Q, valid p v -> opened (filesystem_table v) x -> owns s own F ->
    (forall r x' s', same_file x x' -> owns s' own F -> Q r (at_ p x' s' v)) -> wp (m (Some p)) Q (at_ p x s v).

Lemma same_file_refl x : same_file x x.
Proof. done. Qed.
#[local] Hint Resolve same_file_refl : core.

Ltac pass :=
  intros v s x own F p Q Vp Hx Ho HQ;
  repeat (vstep || (eapply wp_fs_of; [done|done|]; intros ? ?) || (apply wp_ops_of; [done|]) ||
          (apply wp_at_get; [done|])).

Lemma dfs_file_read_ok (buf len : Z) : passes (fun fd => dfs_file_read fd buf len).
Proof.
  unfold dfs_file_read. pass. destruct (ops_read _) as [f|] eqn:E; [|vstep; by apply HQ]. vstep.
  eapply wp_call_fd; [done|done|done|intros; by eapply ops_read_ok|]. intros r x' s' Hx' Ho'. vstep.
  destruct (r <? 0); cbn [kwhen]; [apply wp_at_upd; [done|]|]; vstep; by apply HQ.
Qed.

Lemma dfs_file_write_ok (buf len : Z) : passes (fun fd => dfs_file_write fd buf len).
Proof.
  unfold dfs_file_write. pass. destruct (ops_write _) as [f|] eqn:E; [|vstep; by apply HQ].
  eapply wp_call_fd; [done|done|done|intros; by eapply ops_write_ok|done].
Qed.

Lemma dfs_file_flush_ok : passes dfs_file_flush.
Proof.
  unfold dfs_file_flush. pass. destruct (ops_flush _) as [f|] eqn:E; [|vstep; by apply HQ].
  eapply wp_call_fd; [done|done|done|intros; by eapply ops_flush_ok|done].
Qed.

Lemma dfs_file_ioctl_ok (cmd args : Z) : passes (fun fd => dfs_file_ioctl fd cmd args).
Proof.
  unfold dfs_file_ioctl. pass. destruct (negb _); [vstep; by apply HQ|]. vstep.
  eapply wp_fs_of; [done|done|]; intros y Hy. vstep. apply wp_ops_of; [done|].
  destruct (ops_ioctl _) as [f|] eqn:E; [|vstep; by apply HQ].
  eapply wp_call_fd; [done|done|done|intros; by eapply ops_ioctl_ok|done].
Qed.

Lemma dfs_file_lseek_ok (offset : Z) : passes (fun fd => dfs_file_lseek fd offset).
Proof.
  unfold dfs_file_lseek. pass. eapply wp_the; [done|]. vstep. apply wp_at_get; [done|].
  pose proof Hx as (i & y & a & c & t & Ei & Hi & Ey & Hy & _). rewrite Ei. vstep.
  eapply wp_get_fs; [done|rewrite at_mounts; exact Ey|]. vstep. apply wp_ops_of; [done|].
  destruct (ops_lseek _) as [f|] eqn:E; [|vstep; by apply HQ]. vstep.
  eapply wp_call_fd; [done|done|done|intros; by eapply ops_lseek_ok|]. intros r x' s' Hx' Ho'. vstep.
  destruct (0 <=? r); cbn [kwhen]; [apply wp_at_upd; [done|]|]; vstep; by apply HQ.
Qed.

Lemma wp_file_getdents (v : vfs W) s x (own : list Z) (F : list (Z * Z)) (p : fdref) (dirp : list Z) (n : Z)
    (Q : Z * list Z -> vfs W -> Prop) :
  valid p v -> opened (filesystem_table v) x -> owns s own F ->
  (forall r dirp' x' s', same_file x x' -> owns s' own F -> Q (r, dirp') (at_ p x' s' v)) ->
  wp (dfs_file_getdents (Some p) dirp n) Q (at_ p x s v).
Proof.
  intros Vp Hx Ho HQ. unfold dfs_file_getdents. vstep. apply wp_at_get; [done|].
  destruct (negb _); [vstep; by apply HQ|]. vstep. eapply wp_fs_of; [done|done|]. intros y Hy. vstep.
  apply wp_ops_of; [done|]. destruct (ops_getdents _) as [f|] eqn:E; [|vstep; by apply HQ]. vstep.
  apply wp_at_sys. eapply wp_keeps; [by eapply ops_getdents_ok|exact Ho|]. intros [[r dirp'] k] s' Ho'. vstep.
  apply wp_at_upd; [done|]. vstep. by apply HQ.
Qed.

Lemma wp_file_close (v : vfs W) s x (own : list Z) (F : list (Z * Z)) (p : fdref) (Q : Z -> vfs W -> Prop) :
  valid p v -> opened (filesystem_table v) x -> owns s (ptr (fd_path x) ++ own) F ->
  (forall r x' s', r < 0 -> same_file x x' -> owns s' (ptr (fd_path x) ++ own) F -> Q r (at_ p x' s' v)) ->
  (forall r x' s', 0 <= r -> same_id x x' -> owns s' own F -> Q r (at_ p x' s' v)) ->
  wp (dfs_file_close (Some p)) Q (at_ p x s v).
Proof.
  intros Vp Hx Ho HN HQ. unfold dfs_file_close. vstep.
  assert (G : forall r x' s', same_file x x' -> owns s' (ptr (fd_path x) ++ own) F ->
    wp (if r <? 0 then mret r else
        p ← the (Some p); d ← get_fd p; _ ← free_str (fd_path d); _ ← upd_fd p (fd_set_path None); mret r)
      Q (at_ p x' s' v)).
  { intros r x' s' Hx' Ho'. destruct (Z.ltb_spec r 0); [vstep; by apply HN|]. vstep. eapply wp_the; [done|].
    vstep. apply wp_at_get; [done|]. vstep. eapply wp_at_free.
    - destruct Hx' as (_ & _ & ->). exact Ho'.
    - intros s2 Ho2. vstep. apply wp_at_upd; [done|]. vstep. apply HQ; [done|apply Hx'|done]. }
  vstep. eapply wp_fs_of; [done|done|]. intros y Hy. vstep. apply wp_ops_of; [done|].
  destruct (ops_close _) as [f|] eqn:E; [|vstep; by apply G].
  eapply wp_call_fd; [done|done|done|intros; by eapply ops_close_ok|done].
Qed.

(** *** Descriptors *)

Lemma unlock_twice (n : Z) v : with_lock n (with_lock (fslock v + 1) v) = with_lock n v.
Proof. by destruct v. Qed.

Lemma wp_fd_get_at (v : vfs W) s x (i : Z) (Q : option fdref -> vfs W -> Prop) :
  0 <= i < DFS_FD_MAX -> length (fd_table v) = 4%nat -> fd_magic x = DFS_FD_MAGIC ->
  Q (Some (Entry i)) (at_ (Entry i) (fd_set_refs (s32 (fd_ref_count x + 1)) x) s v) ->
  wp (fd_get i) Q (at_ (Entry i) x s v).
Proof.
  intros Hi L Em HQ. unfold fd_get, DFS_FD_MAX in *.
  rewrite (proj2 (Z.ltb_ge _ _)), (proj2 (Z.leb_gt _ _)) by lia. cbn [orb]. repeat vstep.
  rewrite at_lock, at_with_lock. apply wp_at_get; [cbn; lia|]. rewrite Em, Z.eqb_refl. cbn [negb].
  vstep. apply wp_at_put; [cbn; lia|]. repeat vstep. rewrite at_lock, at_with_lock. cbn [fslock with_lock].
  replace (fslock v + 1 - 1) with (fslock v) by lia. by rewrite unlock_twice, unlock_lock.
Qed.

Lemma wp_fd_put_at (v : vfs W) s x (i : Z) (Q : unit -> vfs W -> Prop) :
  0 <= i < DFS_FD_MAX -> length (fd_table v) = 4%nat ->
  (let n := s32 (fd_ref_count x - 1) in
   Q tt (at_ (Entry i) (if n =? 0 then fd_empty else fd_set_refs n x) s v)) ->
  wp (fd_put (Some (Entry i))) Q (at_ (Entry i) x s v).
Proof.
  intros Hi L HQ. unfold fd_put, DFS_FD_MAX in *. do 2 vstep. vstep. eapply wp_the; [done|]. repeat vstep.
  rewrite at_lock, at_with_lock. apply wp_at_upd; [cbn; lia|]. vstep. apply wp_at_get; [cbn; lia|].
  cbn [fd_ref_count fd_set_refs].
  assert (G : forall y, Q tt (at_ (Entry i) y s v) ->
    wp dfs_unlock Q (at_ (Entry i) y s (with_lock (fslock v + 1) v))).
  { intros y H. repeat vstep. rewrite at_lock, at_with_lock. cbn [fslock with_lock].
    replace (fslock v + 1 - 1) with (fslock v) by lia. by rewrite unlock_twice, unlock_lock. }
  cbv zeta in HQ. vstep. destruct (s32 (fd_ref_count x - 1) =? 0); cbn [kwhen].
  - apply wp_at_put; [cbn; lia|]. by apply G.
  - vstep. by apply G.
Qed.

(** The same tables but for the descriptors. *)
Definition same_tables v v' : Prop :=
  filesystem_table v' = filesystem_table v /\ filesystem_operation_table v' = filesystem_operation_table v /\
  working_directory v' = working_directory v /\ v_dirs v' = v_dirs v.

Lemma entry_now (n : Z) (F : list (Z * Z)) v (i : Z) x :
  vfs_ok n F v -> fd_table v !! Z.to_nat i = Some x ->
  at_ (Entry i) x (v_sys v) v = v /\ owns (v_sys v) (ptr (fd_path x) ++ rest (Entry i) v) F.
Proof.
  intros [T Ho] E. split; [by apply at_now|]. eapply owns_proper; [symmetry; by apply rest_entry|reflexivity|done].
Qed.

Lemma entry_done (n : Z) (F : list (Z * Z)) v (i : Z) x s :
  tables n v -> 0 <= i < DFS_FD_MAX -> fd_ok (filesystem_table v) x ->
  owns s (ptr (fd_path x) ++ rest (Entry i) v) F ->
  vfs_ok n F (at_ (Entry i) x s v) /\ same_tables v (at_ (Entry i) x s v).
Proof.
  intros [T1 T2 T3 T4 T5 T6 T7] Hi Hx Ho. unfold DFS_FD_MAX in Hi. split; [split|done].
  - constructor; cbn; try done; [by rewrite length_insert|]. by apply Forall_insert.
  - rewrite at_sys. eapply owns_proper; [apply ptrs_entry; lia|reflexivity|done].
Qed.

Lemma errno_done (n : Z) (F : list (Z * Z)) v v' (e : Z) :
  vfs_ok n F v' /\ same_tables v v' -> vfs_ok n F (with_errno e v') /\ same_tables v (with_errno e v').
Proof. intros [[[T1 T2 T3 T4 T5 T6 T7] Ho] S]. split; [split; [by constructor|done]|done]. Qed.

(** *** The table of open files *)

(** The file system of a descriptor, and the name there. *)
Definition file_of x : option (Z * list Z) :=
  match fd_fs x, fd_path x with Some i, Some (_, c) => Some (i, ctext c) | _, _ => None end.
Definition files v : list (option (Z * list Z)) := file_of <$> fd_table v.

Lemma files_at (i : Z) x s v : files (at_ (Entry i) x s v) = <[Z.to_nat i := file_of x]> (files v).
Proof. apply list_fmap_insert. Qed.

Lemma files_same (i : Z) x y s v :
  fd_table v !! Z.to_nat i = Some x -> file_of y = file_of x -> files (at_ (Entry i) y s v) = files v.
Proof.
  intros E Ef. rewrite files_at, Ef. apply list_insert_id. unfold files. by rewrite list_lookup_fmap, E.
Qed.

Lemma opened_file (tab : list dfs_filesystem) x : opened tab x -> is_Some (file_of x).
Proof. intros (i & y & a & c & t & Ei & _ & _ & _ & Ep & _). unfold file_of. rewrite Ei, Ep. by eexists. Qed.

(** [r] is the lowest descriptor that is free. *)
Definition lowest (f : list (option (Z * list Z))) (r : Z) : Prop :=
  0 <= r < DFS_FD_MAX /\ f !! Z.to_nat r = Some None /\
  forall j : nat, Z.of_nat j < r -> exists g, f !! j = Some (Some g).

Lemma unused_ok (tab : list dfs_filesystem) (t : list dfs_fd) (idx : Z) :
  Forall (fd_ok tab) t ->
  exists k : nat, unused t idx = idx + Z.of_nat k /\ (k <= length t)%nat /\
    ((k < length t)%nat -> t !! k = Some fd_empty) /\
    forall j, (j < k)%nat -> exists x, t !! j = Some x /\ opened tab x.
Proof.
  intros H. revert idx. induction H as [|x t Hx _ IH]; intros idx; cbn.
  { exists O. split; [lia|]. split; [lia|]. split; [lia|]. intros j; lia. }
  destruct Hx as [->|(_ & Er & Hx)].
  - exists O. cbn. split; [lia|]. split; [lia|]. split; [done|]. intros j; lia.
  - rewrite Er. cbn. destruct (IH (idx + 1)) as (k & -> & Hk & Hf & Hj). exists (S k).
    split; [lia|]. split; [lia|]. split; [intros; apply Hf; lia|]. intros [|j] Hjk; [by exists x|]. apply Hj. lia.
Qed.

Definition fresh : dfs_fd := fd_set_magic DFS_FD_MAGIC (fd_set_refs 1 fd_empty).

Lemma wp_fd_new (n : Z) v (Q : Z -> vfs W -> Prop) :
  tables n v -> Q (-1) v ->
  (forall i, lowest (files v) i -> fd_table v !! Z.to_nat i = Some fd_empty ->
     Q i (at_ (Entry i) fresh (v_sys v) v)) ->
  wp fd_new Q v.
Proof.
  intros T HN HQ. unfold fd_new. repeat vstep. cbn [fd_table with_lock].
  destruct (unused_ok _ (fd_table v) 0 (tb_fd _ _ T)) as (k & -> & Hk & Hf & Hj). rewrite (tb_fds _ _ T) in *.
  destruct (Z.eqb_spec (0 + Z.of_nat k) DFS_FD_MAX) as [E|E].
  - repeat vstep. cbn [fslock with_lock]. replace (fslock v + 1 - 1) with (fslock v) by lia.
    by rewrite unlock_twice, unlock_lock.
  - unfold DFS_FD_MAX in E. assert (L : (k < 4)%nat) by lia. pose proof (Hf L) as Ek.
    set (i := 0 + Z.of_nat k). assert (Ei : Z.to_nat i = k) by (unfold i; lia).
    assert (Lo : lowest (files v) i).
    { split; [unfold DFS_FD_MAX; lia|]. unfold files. rewrite Ei. split; [by rewrite list_lookup_fmap, Ek|].
      intros j Hji. destruct (Hj j) as (x & Ex & Ox); [lia|]. destruct (opened_file _ _ Ox) as [g Eg].
      exists g. by rewrite list_lookup_fmap, Ex; cbn; rewrite Eg. }
    rewrite <- Ei in Ek. specialize (HQ i Lo Ek).
    rewrite <- (at_now (Entry i) fd_empty (with_lock (fslock v + 1) v)) by done. vstep.
    apply wp_at_upd; [cbn; rewrite (tb_fds _ _ T); lia|]. vstep.
    apply wp_at_upd; [cbn; rewrite (tb_fds _ _ T); lia|]. repeat vstep.
    rewrite at_lock, at_with_lock. cbn [fslock with_lock]. replace (fslock v + 1 - 1) with (fslock v) by lia.
    by rewrite unlock_twice, unlock_lock.
Qed.

Lemma wp_fail (e : Z) v (Q : Z -> vfs W -> Prop) : Q (-1) (with_errno e v) -> wp (fail e) Q v.
Proof. intros H. unfold fail. by repeat vstep. Qed.

(** Taking a descriptor that may not be open. *)
Lemma wp_fd_get (n : Z) (F : list (Z * Z)) v (fd : Z) (Q : option fdref -> vfs W -> Prop) :
  vfs_ok n F v -> ((files v !! Z.to_nat fd = Some None \/ ~ 0 <= fd < DFS_FD_MAX) -> Q None v) ->
  (forall x, 0 <= fd < DFS_FD_MAX -> fd_table v !! Z.to_nat fd = Some x -> fd_magic x = DFS_FD_MAGIC ->
     fd_ref_count x = 1 -> opened (filesystem_table v) x ->
     owns (v_sys v) (ptr (fd_path x) ++ rest (Entry fd) v) F ->
     Q (Some (Entry fd)) (at_ (Entry fd) (fd_set_refs 2 x) (v_sys v) v)) ->
  wp (fd_get fd) Q v.
Proof.
  intros Hv HN HQ. pose proof (proj1 Hv) as T. destruct (decide (0 <= fd < DFS_FD_MAX)) as [Hi|Hi].
  - destruct (lookup_lt_is_Some_2 (fd_table v) (Z.to_nat fd)) as [x Ex]; [rewrite (tb_fds _ _ T); unfold DFS_FD_MAX in Hi; lia|].
    destruct (entry_now n F v fd x Hv Ex) as [E Ho].
    pose proof (tb_fd _ _ T) as Ff. rewrite Forall_lookup in Ff. destruct (Ff _ _ Ex) as [->|(Em & Er & Ox)].
    + unfold fd_get, DFS_FD_MAX in *. rewrite (proj2 (Z.ltb_ge _ _)), (proj2 (Z.leb_gt _ _)) by lia. cbn [orb].
      repeat vstep. rewrite <- (at_now (Entry fd) fd_empty (with_lock (fslock v + 1) v)) by done.
      apply wp_at_get; [cbn; rewrite (tb_fds _ _ T); lia|]. cbn [negb fd_magic fd_empty Z.eqb DFS_FD_MAGIC].
      repeat vstep. rewrite at_lock, at_with_lock. cbn [fslock with_lock].
      replace (fslock v + 1 - 1) with (fslock v) by lia. rewrite unlock_twice, unlock_lock.
      change (v_sys (with_lock _ v)) with (v_sys v). rewrite at_now by done. apply HN. left.
      unfold files. by rewrite list_lookup_fmap, Ex.
    + rewrite <- E at 1. apply wp_fd_get_at; [done|apply T|done|]. rewrite Er. by apply HQ.
  - unfold fd_get. assert (Eb : (fd <? 0) || (DFS_FD_MAX <=? fd) = true) by lia. rewrite Eb. vstep. apply HN. by right.
Qed.

(** Giving a descriptor back that is held twice, and once. *)
Lemma wp_put_held (n : Z) v s x (i : Z) (Q : unit -> vfs W -> Prop) :
  tables n v -> 0 <= i < DFS_FD_MAX -> fd_ref_count x = 2 ->
  Q tt (at_ (Entry i) (fd_set_refs 1 x) s v) -> wp (fd_put (Some (Entry i))) Q (at_ (Entry i) x s v).
Proof. intros T Hi E HQ. apply wp_fd_put_at; [done|apply T|]. by rewrite E. Qed.

Lemma wp_put_last (n : Z) v s x (i : Z) (Q : unit -> vfs W -> Prop) :
  tables n v -> 0 <= i < DFS_FD_MAX -> fd_ref_count x = 1 ->
  Q tt (at_ (Entry i) fd_empty s v) -> wp (fd_put (Some (Entry i))) Q (at_ (Entry i) x s v).
Proof. intros T Hi E HQ. apply wp_fd_put_at; [done|apply T|]. by rewrite E. Qed.

(** A new descriptor is opened; where that fails it is given back twice. *)
Lemma wp_new_open {A} (n : Z) (F : list (Z * Z)) v (t path : list Z) (flags fd : Z)
    (m : option fdref -> Z -> ST (vfs W) A) (k : Z -> ST (vfs W) A) (Q : A -> vfs W -> Prop) :
  vfs_ok n F v -> Str.cstring t path -> fine v t -> lowest (files v) fd -> fd_table v !! Z.to_nat fd = Some fd_empty ->
  (forall d r, r < 0 -> m d r = (_ ← fd_put d; _ ← fd_put d; k r)) ->
  (forall r v', r < 0 -> vfs_ok n F v' /\ same_tables v v' -> files v' = files v -> wp (k r) Q v') ->
  (forall x u s', fd_ref_count x = 2 -> fd_magic x = DFS_FD_MAGIC -> full v t u ->
     opened_as (filesystem_table v) u x -> owns s' (ptr (fd_path x) ++ rest (Entry fd) v) F ->
     wp (m (Some (Entry fd)) 0) Q (at_ (Entry fd) x s' v)) ->
  wp (d ← fd_get fd; result ← dfs_file_open raw d path flags; m d result) Q (at_ (Entry fd) fresh (v_sys v) v).
Proof.
  intros Hv Ct Ft [Hi _] E0 Hm HN HQ. pose proof (proj1 Hv) as T. destruct (entry_now n F v fd _ Hv E0) as [_ Ho].
  vstep. apply wp_fd_get_at; [done|apply T|done|]. vstep.
  eapply (wp_file_open n v _ _ (rest (Entry fd) v) F (Entry fd) t); try done.
  - unfold valid, DFS_FD_MAX in *. rewrite (tb_fds _ _ T). lia.
  - intros r x s' Hr [_ Hrc] Ho'. rewrite Hm by done. vstep.
    eapply wp_put_held; [done|done|exact Hrc|]. vstep. eapply wp_put_last; [done|done|done|].
    apply HN; [done|apply entry_done; [done|done|by left|done]|]. by eapply files_same.
  - intros u x s' [Hm' Hrc] Fu Ox Ho'. by apply (HQ x u).
Qed.

Lemma wp_open (n : Z) (F : list (Z * Z)) v (t path : list Z) (flags : Z) (Q : Z -> vfs W -> Prop) :
  vfs_ok n F v -> Str.cstring t path -> fine v t ->
  (forall v', vfs_ok n F v' /\ same_tables v v' -> files v' = files v -> Q (-1) v') ->
  (forall fd u x s', lowest (files v) fd -> full v t u -> opened_as (filesystem_table v) u x ->
     vfs_ok n F (at_ (Entry fd) x s' v) /\ same_tables v (at_ (Entry fd) x s' v) -> Q fd (at_ (Entry fd) x s' v)) ->
  wp (open raw path flags) Q v.
Proof.
  intros Hv Ct Ft HN HQ. pose proof (proj1 Hv) as T. unfold open. vstep. eapply wp_fd_new; [done| |].
  { cbn. apply wp_fail. apply HN; [apply errno_done|]; done. }
  intros fd Lo E0. pose proof Lo as [Hi _]. rewrite (proj2 (Z.ltb_ge _ _)) by lia.
  eapply (wp_new_open n F v t _ _ _ _ fail); try done.
  - intros d r Hr. by rewrite (proj2 (Z.ltb_lt _ _) Hr).
  - intros r v' _ Hv' Ef. apply wp_fail. apply HN; [by apply errno_done|done].
  - intros x u s' Hrc Hm Fu Ox Ho. cbn. vstep. eapply wp_put_held; [done|done|exact Hrc|]. vstep.
    apply (HQ fd u); [done|done|done|]. apply entry_done; [done|done| |done]. right. split; [done|]. split; [done|].
    by eapply opened_as_opened.
Qed.

(** The same open file, given back. *)
Lemma file_back (n : Z) (F : list (Z * Z)) v (fd : Z) x x' s' :
  tables n v -> 0 <= fd < DFS_FD_MAX -> fd_table v !! Z.to_nat fd = Some x -> fd_magic x = DFS_FD_MAGIC ->
  opened (filesystem_table v) x -> same_file (fd_set_refs 2 x) x' -> owns s' (ptr (fd_path x) ++ rest (Entry fd) v) F ->
  (vfs_ok n F (at_ (Entry fd) (fd_set_refs 1 x') s' v) /\ same_tables v (at_ (Entry fd) (fd_set_refs 1 x') s' v)) /\
  files (at_ (Entry fd) (fd_set_refs 1 x') s' v) = files v /\ fd_ref_count x' = 2.
Proof.
  intros T Hi Ex Em Ox Hx' Ho. pose proof Hx' as ((E1 & E2) & E3 & E4). cbn in E1, E2, E3, E4.
  split; [|split; [|done]].
  - apply entry_done; [done|done| |cbn; by rewrite E4]. right. split; [cbn; congruence|]. split; [done|].
    unfold opened. cbn. by rewrite E3, E4.
  - eapply (files_same fd x); [done|]. unfold file_of. cbn. by rewrite E3, E4.
Qed.

Lemma wp_close (n : Z) (F : list (Z * Z)) v (fd : Z) (Q : Z -> vfs W -> Prop) :
  vfs_ok n F v ->
  (forall v', vfs_ok n F v' /\ same_tables v v' -> files v' = files v -> Q (-1) v') ->
  (forall v' g, 0 <= fd < DFS_FD_MAX -> files v !! Z.to_nat fd = Some (Some g) ->
     vfs_ok n F v' /\ same_tables v v' -> files v' = <[Z.to_nat fd := None]> (files v) -> Q 0 v') ->
  wp (close fd) Q v.
Proof.
  intros Hv HN HQ. pose proof (proj1 Hv) as T. unfold close. vstep. eapply wp_fd_get; [exact Hv| |].
  { intros _. cbn [is_some negb]. apply wp_fail. apply HN; [apply errno_done|]; done. }
  intros x Hi Ex Em Er Ox Ho. cbn [is_some negb]. vstep.
  assert (Vp : valid (Entry fd) v) by (unfold valid, DFS_FD_MAX in *; rewrite (tb_fds _ _ T); lia).
  eapply (wp_file_close v _ (fd_set_refs 2 x)); [done|done|done| |].
  - intros r x' s' Hr Hx' Ho'. vstep.
    destruct (file_back n F v fd x x' s') as (Hv' & Ef & E2); try done.
    eapply wp_put_held; [done|done|done|]. rewrite (proj2 (Z.ltb_lt _ _) Hr). apply wp_fail.
    apply HN; [by apply errno_done|done].
  - intros r x' s' Hr [E1 E2] Ho'. vstep. eapply wp_put_held; [done|done|done|].
    rewrite (proj2 (Z.ltb_ge _ _) Hr). vstep. eapply wp_put_last; [done|done|done|]. vstep.
    destruct (opened_file _ _ Ox) as [g Eg]. apply (HQ _ g); [done|by unfold files; rewrite list_lookup_fmap, Ex; cbn; rewrite Eg| |].
    + apply entry_done; [done|done|by left|done].
    + by rewrite files_at.
Qed.

(** The calls that hand on to the file system. *)
Lemma wp_passed {A} (n : Z) (F : list (Z * Z)) v (fd : Z) (m : option fdref -> ST (vfs W) Z)
    (k : option fdref -> Z -> ST (vfs W) A) (no : ST (vfs W) A) (Q : A -> vfs W -> Prop) :
  vfs_ok n F v -> passes m ->
  ((files v !! Z.to_nat fd = Some None \/ ~ 0 <= fd < DFS_FD_MAX) -> wp no Q v) ->
  (forall r x x' s', 0 <= fd < DFS_FD_MAX -> fd_table v !! Z.to_nat fd = Some x ->
     opened (filesystem_table v) x -> fd_ref_count x' = 2 ->
     (vfs_ok n F (at_ (Entry fd) (fd_set_refs 1 x') s' v) /\ same_tables v (at_ (Entry fd) (fd_set_refs 1 x') s' v)) ->
     files (at_ (Entry fd) (fd_set_refs 1 x') s' v) = files v ->
     wp (k (Some (Entry fd)) r) Q (at_ (Entry fd) x' s' v)) ->
  wp (d ← fd_get fd; if negb (is_some d) then no else result ← m d; k d result) Q v.
Proof.
  intros Hv Hm HN HQ. pose proof (proj1 Hv) as T. vstep. eapply wp_fd_get; [exact Hv|exact HN|].
  intros x Hi Ex Em Er Ox Ho. cbn [is_some negb]. vstep.
  assert (Vp : valid (Entry fd) v) by (unfold valid, DFS_FD_MAX in *; rewrite (tb_fds _ _ T); lia).
  eapply (Hm v _ (fd_set_refs 2 x)); [done|done|exact Ho|]. intros r x' s' Hx' Ho'.
  destruct (file_back n F v fd x x' s') as (Hv' & Ef & E2); try done. by apply (HQ r x).
Qed.

(** *** The calls on descriptors refine a table of open files *)

Inductive fcall :=
| FOpen (path : list Z) (flags : Z)
| FClose (fd : Z)
| FRead (fd buf n : Z)
| FWrite (fd buf n : Z)
| FSeek (fd offset whence : Z)
| FSync (fd : Z)
| FIoctl (fd cmd data : Z).

Definition run_fcall (c : fcall) : ST (vfs W) Z :=
  match c with
  | FOpen path flags => open raw path flags
  | FClose fd => close fd
  | FRead fd buf n => read fd buf n
  | FWrite fd buf n => write fd buf n
  | FSeek fd offset whence => lseek fd offset whence
  | FSync fd => fsync fd
  | FIoctl fd cmd data => ioctl fd cmd data
  end.

Definition not_open (f : list (option (Z * list Z))) (fd : Z) : Prop :=
  f !! Z.to_nat fd = Some None \/ ~ 0 <= fd < DFS_FD_MAX.

(** What a call does to the table: [open] enters the file at the lowest free place, with
    the file system that is mounted nearest and the name there; [close] takes it out;
    the other calls leave the table alone, and fail on a place that is free. *)
Definition fstep v (c : fcall) (r : Z) (f f' : list (option (Z * list Z))) : Prop :=
  match c with
  | FOpen path _ =>
      (r = -1 /\ f' = f) \/
      (lowest f r /\ exists u i y q, full v (ctext path) u /\ found (filesystem_table v) u i y q /\
         f' = <[Z.to_nat r := Some (i, file_text y q u)]> f)
  | FClose fd =>
      (r = -1 /\ f' = f) \/
      (r = 0 /\ 0 <= fd < DFS_FD_MAX /\ (exists g, f !! Z.to_nat fd = Some (Some g)) /\ f' = <[Z.to_nat fd := None]> f)
  | FRead fd _ _ | FWrite fd _ _ | FSeek fd _ _ | FSync fd | FIoctl fd _ _ =>
      f' = f /\ (not_open f fd -> r = -1)
  end.

Definition fcall_pre v (c : fcall) : Prop :=
  match c with FOpen path _ => exists t, Str.cstring t path /\ fine v t | _ => True end.

Lemma open_not (f : list (option (Z * list Z))) (fd : Z) v x :
  f = files v -> 0 <= fd < DFS_FD_MAX -> fd_table v !! Z.to_nat fd = Some x -> opened (filesystem_table v) x -> ~ not_open f fd.
Proof.
  intros -> Hi Ex Ox [E|H]; [|done]. unfold files in E. rewrite list_lookup_fmap, Ex in E. cbn in E.
  destruct (opened_file _ _ Ox) as [g Eg]. congruence.
Qed.

Lemma wp_lseek (n : Z) (F : list (Z * Z)) v (fd offset whence : Z) (Q : Z -> vfs W -> Prop) :
  vfs_ok n F v ->
  (forall v', vfs_ok n F v' /\ same_tables v v' -> files v' = files v -> Q (-1) v') ->
  (forall r v', ~ not_open (files v) fd -> vfs_ok n F v' /\ same_tables v v' -> files v' = files v -> Q r v') ->
  wp (lseek fd offset whence) Q v.
Proof.
  intros Hv HN HQ. pose proof (proj1 Hv) as T. unfold lseek. vstep. eapply wp_fd_get; [exact Hv| |].
  { intros _. apply wp_fail. apply HN; [by apply errno_done|done]. }
  intros x Hi Ex Em Er Ox Ho.
  assert (Vp : valid (Entry fd) v) by (unfold valid, DFS_FD_MAX in *; rewrite (tb_fds _ _ T); lia).
  pose proof (open_not _ _ _ _ eq_refl Hi Ex Ox) as Op.
  assert (Bad : forall e x' s', same_file (fd_set_refs 2 x) x' -> owns s' (ptr (fd_path x) ++ rest (Entry fd) v) F ->
    wp (_ ← fd_put (Some (Entry fd)); fail e) Q (at_ (Entry fd) x' s' v)).
  { intros e x' s' Hx' Ho'. destruct (file_back n F v fd x x' s') as (Hv' & Ef & E2); try done. vstep.
    eapply wp_put_held; [done|done|done|]. apply wp_fail. apply HN; [by apply errno_done|done]. }
  vstep. apply wp_at_get; [done|]. cbv zeta.
  match goal with |- wp (match ?o with _ => _ end) _ _ => destruct o as [off|] end; [|by apply Bad].
  destruct (off <? 0); [by apply Bad|]. vstep.
  eapply (dfs_file_lseek_ok off v _ (fd_set_refs 2 x)); [done|done|exact Ho|]. intros r x' s' Hx' Ho'.
  destruct (r <? 0); [by apply Bad|]. destruct (file_back n F v fd x x' s') as (Hv' & Ef & E2); try done. vstep.
  eapply wp_put_held; [done|done|done|]. vstep. by apply HQ.
Qed.

Lemma wp_fcall (n : Z) (F : list (Z * Z)) v (c : fcall) :
  vfs_ok n F v -> fcall_pre v c ->
  wp (run_fcall c) (fun r v' => (vfs_ok n F v' /\ same_tables v v') /\ fstep v c r (files v) (files v')) v.
Proof.
  intros Hv Hc. pose proof (proj1 Hv) as T.
  assert (Same : vfs_ok n F v /\ same_tables v v) by done.
  assert (Io : forall fd m (k : option fdref -> Z -> ST (vfs W) Z), passes m ->
    (forall x' s' i (Q : Z -> vfs W -> Prop), 0 <= i < DFS_FD_MAX -> fd_ref_count x' = 2 ->
       (forall z, Q z (at_ (Entry i) (fd_set_refs 1 x') s' v)) ->
       (forall e, Q (-1) (with_errno e (at_ (Entry i) (fd_set_refs 1 x') s' v))) ->
       forall z, wp (k (Some (Entry i)) z) Q (at_ (Entry i) x' s' v)) ->
    wp (d ← fd_get fd; if negb (is_some d) then fail (- DFS_STATUS_EBADF) else result ← m d; k d result)
      (fun r v' => (vfs_ok n F v' /\ same_tables v v') /\ files v' = files v /\ (not_open (files v) fd -> r = -1)) v).
  { intros fd m k Hm Hk. eapply wp_passed; [exact Hv|exact Hm| |].
    - intros H. apply wp_fail. split; [by apply errno_done|]. done.
    - intros r x x' s' Hi Ex Ox Hrc Hv' Ef. pose proof (open_not _ _ _ _ eq_refl Hi Ex Ox) as Op.
      apply Hk; [done|done| |]; intros; (split; [try apply errno_done; done|]; split; [done|]; intros H; by destruct Op). }
  destruct c as [path flags|fd|fd buf k|fd buf k|fd offset whence|fd|fd cmd data]; cbn [run_fcall fstep].
  - destruct Hc as (t & Ct & Ft). apply (wp_open n F v t); [done|done|done| |].
    + intros v' Hv' Ef. split; [done|]. by left.
    + intros fd u x s' Lo Fu Ox Hv'. split; [done|]. right. split; [done|]. rewrite (ctext_ok t path Ct).
      destruct Ox as (i & y & q & a & c & Fd & Ef & Ep & Cc). exists u, i, y, q. split; [done|]. split; [done|].
      rewrite files_at. unfold file_of. by rewrite Ef, Ep, (ctext_ok _ _ Cc).
  - apply (wp_close n F); [done| |].
    + intros v' Hv' Ef. split; [done|]. by left.
    + intros v' g Hi Eg Hv' Ef. split; [done|]. right. eauto 10.
  - apply Io; [apply dfs_file_read_ok|]. intros x' s' i Q Hi Hrc HQ HE z.
    destruct (z <? 0); vstep; eapply wp_put_held; try done; [apply wp_fail, HE|vstep; apply HQ].
  - apply Io; [apply dfs_file_write_ok|]. intros x' s' i Q Hi Hrc HQ HE z.
    destruct (z <? 0); vstep; eapply wp_put_held; try done; [apply wp_fail, HE|vstep; apply HQ].
  - apply (wp_lseek n F); [done| |].
    + intros v' Hv' Ef. done.
    + intros r v' Op Hv' Ef. split; [done|]. split; [done|]. intros H. by destruct Op.
  - apply Io; [apply dfs_file_flush_ok|]. intros x' s' i Q Hi Hrc HQ HE z.
    vstep. eapply wp_put_held; try done. vstep. apply HQ.
  - apply Io; [apply dfs_file_ioctl_ok|]. intros x' s' i Q Hi Hrc HQ HE z. vstep.
    destruct (negb _).
    + apply wp_fail. vstep. rewrite at_with_errno.
      eapply (wp_put_held n); [by destruct T; constructor|done|done|]. vstep. rewrite <- at_with_errno. apply HE.
    + vstep. vstep. eapply wp_put_held; [done|done|done|]. vstep. apply HQ.
Qed.

Fixpoint run_fcalls (cs : list fcall) : ST (vfs W) (list Z) :=
  match cs with [] => mret [] | c :: cs => r ← run_fcall c; rs ← run_fcalls cs; mret (r :: rs) end.

Fixpoint fsteps v (cs : list fcall) (rs : list Z) (f f' : list (option (Z * list Z))) : Prop :=
  match cs, rs with
  | [], [] => f' = f
  | c :: cs, r :: rs => exists f1, fstep v c r f f1 /\ fsteps v cs rs f1 f'
  | _, _ => False
  end.

Lemma fstep_tables v v' (c : fcall) (r : Z) (f f' : list (option (Z * list Z))) :
  same_tables v v' -> fstep v' c r f f' <-> fstep v c r f f'.
Proof.
  intros (E1 & _ & E2 & _). destruct c; try done. cbn. unfold full, cwd. by rewrite E1, E2.
Qed.

Lemma fsteps_tables v v' (cs : list fcall) (rs : list Z) (f f' : list (option (Z * list Z))) :
  same_tables v v' -> fsteps v' cs rs f f' -> fsteps v cs rs f f'.
Proof.
  intros S. revert rs f. induction cs as [|c cs IH]; intros [|r rs] f; try done. cbn. intros (f1 & H1 & H2).
  exists f1. split; [by eapply (fstep_tables v v')|by apply IH].
Qed.

(** C37: the calls of POSIX on descriptors are operations on a table of open files, and
    no string of the virtual file system is lost or freed twice on the way. *)
Theorem descriptors_refine_table (n : Z) (F : list (Z * Z)) v (cs : list fcall) :
  vfs_ok n F v -> Forall (fcall_pre v) cs ->
  wp (run_fcalls cs) (fun rs v' => vfs_ok n F v' /\ fsteps v cs rs (files v) (files v')) v.
Proof.
  intros Hv Hc. revert v Hv Hc. induction cs as [|c cs IH]; intros v Hv Hc; cbn [run_fcalls].
  { by vstep. }
  apply Forall_cons in Hc as [Hc Hcs]. vstep. eapply wp_mono; [by apply wp_fcall|]. cbn beta.
  intros r v1 [[Hv1 S] H1]. vstep. eapply wp_mono; [apply IH; [done|]|].
  - eapply Forall_impl; [exact Hcs|]. intros [path flags| | | | | |]; try done. cbn. unfold fine, cwd.
    by destruct S as (_ & _ & -> & _).
  - cbn beta. intros rs v2 [Hv2 H2]. vstep. split; [done|]. cbn. exists (files v1). split; [done|].
    by eapply fsteps_tables.
Qed.

End Calls.

(** ** A small system

    One file system in memory that accepts every call, mounted on [/]. *)

Definition ok_fd (d : dfs_fd) : ST heap (Z * kept) :=
  mret (if is_some (fd_path d) then 0 else - DFS_STATUS_EINVAL, (fd_size d, fd_pos d, fd_data d)).

#[export] Instance ram_fs : FileSystems heap := {|
  ops_name := fun _ => [114; 97; 109; 0];
  ops_flags := fun _ => 0;
  ops_mount := fun _ => Some (fun _ _ data => mret (0, data));
  ops_unmount := fun _ => Some (fun x => mret (0, fs_data x));
  ops_mkfs := fun _ => None;
  ops_statfs := fun _ => Some (fun _ _ => mret 0);
  ops_open := fun _ => Some (fun _ d => ok_fd d);
  ops_close := fun _ => Some (fun _ d => ok_fd d);
  ops_ioctl := fun _ => None;
  ops_read := fun _ => Some (fun _ d _ _ => ok_fd d);
  ops_write := fun _ => Some (fun _ d _ _ => ok_fd d);
  ops_flush := fun _ => Some (fun _ d => ok_fd d);
  ops_lseek := fun _ => Some (fun _ d offset => mret (offset, (fd_size d, offset, fd_data d)));
  ops_getdents := fun _ => None;
  ops_unlink := fun _ => Some (fun _ _ => mret 0);
  ops_stat := fun _ => Some (fun _ _ buf => mret (0, buf));
  ops_rename := fun _ => Some (fun _ _ _ => mret 0);
|}.

#[export] Instance no_devices : DeviceTable heap := {|
  device_find := fun _ => mret 0;
  device_open := fun _ _ => mret 0;
  device_close := fun _ => mret 0;
|}.

#[export] Instance ram_fs_ok : FileSystemsOk heap.
Proof.
  constructor; try (intros ops f [= <-]; intros; by intros s F Hi).
  - intros ops. exists [114; 97; 109]. apply (cstring_chars [114; 97; 109] []). by repeat constructor.
  - intros ops f [= <-] x d s F Hi. split; [done|]. intros E. cbn. by rewrite E.
Qed.

#[export] Instance no_devices_ok : DeviceTableOk heap.
Proof. constructor; intros; by intros s F Hi. Qed.

Definition raw_bytes (n : Z) : list Z := replicate (Z.to_nat n) 170.

Lemma raw_bytes_length (n : Z) : 0 <= n -> len (raw_bytes n) = n.
Proof. intros H. unfold raw_bytes. rewrite length_replicate. lia. Qed.

Definition small_vfs : vfs heap :=
  Vfs small_heap_used [1; 0; 0; 0] [DfsFilesystem 0 (Some (4108, [47; 0])) 1 0; fs_empty]
    (replicate 4 fd_empty) fd_empty ∅ (47 :: replicate 255 0) 0 0.

Lemma small_vfs_ok : vfs_ok 0 [] small_vfs.
Proof.
  split; [constructor; try done|].
  - apply Forall_cons; split; [|apply Forall_singleton; by left]. right. split; [done|].
    exists 4108, [47], [47; 0]. split; [done|]. split; [|done]. apply (cstring_chars [47] []). by repeat constructor.
  - apply Forall_replicate. by left.
  - split; [|split; [|done]].
    + apply (cstring_chars [47] (replicate 254 0)). by repeat constructor.
    + exists []. split; [done|constructor].
  - exists [(4108, 12)]. split; [done|]. exists [(24, true); (88, false)]. split; [exact small_heap_used_ok|].
    split; [by vm_compute|]. split; [by repeat constructor|]. done.
Qed.

Lemma dfs_filesystem_lookup_ok_witness :
  exists r n, dfs_filesystem_lookup [47; 97; 0] small_vfs = Ok (r, small_vfs) /\
    best (filesystem_table small_vfs) [47; 97] r n.
Proof.
  apply (dfs_filesystem_lookup_ok small_vfs [47; 97] [47; 97; 0]).
  - apply (cstring_chars [47; 97] []). by repeat constructor.
  - apply (tb_fs 0 _ (proj1 small_vfs_ok)).
Defined.

Definition small_calls : list fcall :=
  [FOpen [97; 0] 0; FRead 0 0 4; FClose 0; FClose 0].

Lemma descriptors_refine_table_witness :
  wp (run_fcalls raw_bytes small_calls)
    (fun rs v' => vfs_ok 0 [] v' /\
       fsteps small_vfs small_calls rs (files small_vfs) (files v')) small_vfs.
Proof.
  apply (descriptors_refine_table raw_bytes raw_bytes_length 0 [] small_vfs _ small_vfs_ok).
  repeat constructor; try done. exists [97]. split; [apply (cstring_chars [97] []); by repeat constructor|].
  split; [by vm_compute|]. by intros r [= <-].
Defined.

(** What the calls return: descriptor 0, nothing read, closed, and no longer open. *)
Example small_calls_run :
  exists v', run_fcalls raw_bytes small_calls small_vfs = Ok ([0; 0; 0; -1], v') /\ files v' = files small_vfs.
Proof. eexists. split; vm_compute; reflexivity. Qed.
