(* ===== verification/Completion.v ===== *)
(** * Completions (DeviceDrivers/completion.c)

    A completion is a flag and at most one thread that waits for it, in the list
    [LSuspend] of the completion's address; then what the three operations do. *)

From Stdlib Require Import Lia.
From S2P Require Import Prelude KService Heap KState Scheduler Object Timer Thread.
From S2P Require Import Invariant Sample ThreadSpec Frame Clock Ipc IpcSpec.

(** ** The code *)

Definition RT_COMPLETED : Z := 1.
Definition RT_UNCOMPLETED : Z := 0.

Definition rt_completion_init (completion : Z) : K unit :=
  _ ← kassert (negb (completion =? RT_NULL));
  _ ← put_completion completion RT_UNCOMPLETED;
  list_init (LSuspend completion).

(** Waits with the thread that called it. *)
Definition rt_completion_wait (completion timeout : Z) : K (outcome Z Z) :=
  _ ← kassert (negb (completion =? RT_NULL));
  thread ← rt_thread_self;
  flag ← get_completion completion;
  if negb (flag =? RT_COMPLETED) then
    e ← rt_list_isempty (LSuspend completion);
    _ ← kassert e;
    if timeout =? 0 then mret (Return (- RT_ETIMEOUT)) else
    _ ← upd_thread thread (thr_error RT_EOK);
    _ ← rt_thread_suspend thread;
    _ ← tlist_push_back (LSuspend completion) thread;
    _ ← RT_DEBUG_NOT_IN_INTERRUPT;
    _ ← kwhen (0 <? timeout)
          (_ ← rt_timer_control (ThreadTimer thread) RT_TIMER_CTRL_SET_TIME timeout;
           _ ← rt_timer_start (ThreadTimer thread);
           mret tt);
    _ ← rt_schedule;
    mret (Wait thread)
  else
    _ ← put_completion completion RT_UNCOMPLETED;
    mret (Return RT_EOK).

Definition rt_completion_wait_resume (completion thread : Z) : K Z :=
  th ← get_thread thread;
  _ ← get_completion completion;
  _ ← put_completion completion RT_UNCOMPLETED;
  mret (t_error th).

Definition rt_completion_done (completion : Z) : K unit :=
  _ ← kassert (negb (completion =? RT_NULL));
  flag ← get_completion completion;
  if flag =? RT_COMPLETED then mret tt else
  _ ← put_completion completion RT_COMPLETED;
  e ← rt_list_isempty (LSuspend completion);
  if negb (e : bool) then
    thread ← first_entry (LSuspend completion);
    _ ← rt_thread_resume thread;
    rt_schedule
  else mret tt.

(** ** What it does *)

Lemma wp_get_completion (a x : Z) (Q : Z -> kst -> Prop) (s : kst) :
  i_completions (ip s) !! a = Some x -> Q x s -> wp (get_completion a) Q s.
Proof. intros E H. unfold get_completion. by eapply wp_bind, wp_gets, wp_lift. Qed.

Definition set_completion (a x : Z) (s : kst) : kst :=
  upd_ip (fun c => with_completions (<[a := x]> (i_completions c)) c) s.

(** [rt_completion_done] wakes as [rt_ipc_list_resume] does. *)
Lemma wp_wake_entry (s : kst) (l : lid) (Q : unit -> kst -> Prop) :
  wp (e ← rt_list_isempty l;
      if negb (e : bool) then _ ← rt_ipc_list_resume l; rt_schedule else mret tt) Q s ->
  wp (e ← rt_list_isempty l;
      if negb (e : bool) then t ← first_entry l; _ ← rt_thread_resume t; rt_schedule
      else mret tt) Q s.
Proof.
  unfold wp, rt_ipc_list_resume, mbind, ST_bind.
  destruct (rt_list_isempty l s) as [[[] s1]| |]; [done| |done..]. cbn [negb].
  destruct (first_entry l s1) as [[t s2]| |]; [|done..].
  by destruct (rt_thread_resume t s2) as [[e s3]| |].
Qed.

Section Completion.
Variables (s : kst) (c : Z).
Hypothesis W : wf_kst s.
Hypothesis Hc : c <> RT_NULL.

(** What one call of [rt_completion_done] on a completion that is not done does. *)
Record completed (s' : kst) : Prop := {
  cd_wf : wf_kst s';
  cd_ip : ip s' = ip (set_completion c RT_COMPLETED s);
  cd_calm : calm (take 1 (tlist (sc s) (LSuspend c))) s s';
  cd_wake : match tlist (sc s) (LSuspend c) with
    | [] => sc s' = sc s
    | u :: rest => waked (fun _ th => th) [u] (sc s) (sc s') /\
        tlist (sc s') (LSuspend c) = rest /\ (ThreadTimer u ∉ trow (tm s')) /\
        (s_lock_nest (sc s) = 0 -> on_policy s')
    end;
}.

Lemma wp_completion_done (x : Z) (Q : unit -> kst -> Prop) :
  i_completions (ip s) !! c = Some x ->
  (x = RT_COMPLETED -> Q tt s) ->
  (x <> RT_COMPLETED -> forall s', completed s' -> Q tt s') ->
  wp (rt_completion_done c) Q s.
Proof.
  intros Hx H1 H2. unfold rt_completion_done. kstep. kstep; [by apply negb_true_iff, Z.eqb_neq|].
  kstep. eapply wp_get_completion; [exact Hx|].
  destruct (Z.eqb_spec x RT_COMPLETED) as [E|E]; [kstep; by apply H1|].
  do 2 kstep. apply wp_wake_entry.
  apply (wp_wake (set_completion c RT_COMPLETED s)); [by apply wf_kst_ip|done|].
  change (sc (set_completion c RT_COMPLETED s)) with (sc s).
  destruct (tlist (sc s) (LSuspend c)) as [|u rest] eqn:El.
  - apply H2; [done|]. constructor; try done; [by apply wf_kst_ip|by rewrite El].
  - intros s' W' A T I N Ca Hh. apply H2; [done|]. constructor; try done; rewrite ?El; try done.
    etrans; [apply calm_upd_ip|exact Ca].
Qed.

Variables (t time x : Z) (th : rt_thread).
Hypothesis Ec : s_current (sc s) = t.
Hypothesis Hx : i_completions (ip s) !! c = Some x.
Hypothesis Htime : time < 2 ^ 31 - 1.

Lemma wp_completion_wait (Q : outcome Z Z -> kst -> Prop) :
  (x <> RT_COMPLETED -> tlist (sc s) (LSuspend c) = [] /\ (time <> 0 -> caller s t th)) ->
  (x = RT_COMPLETED -> Q (Return RT_EOK) (set_completion c RT_UNCOMPLETED s)) ->
  (x <> RT_COMPLETED -> time = 0 -> Q (Return (- RT_ETIMEOUT)) s) ->
  (x <> RT_COMPLETED -> time <> 0 -> forall s',
     blocked (LSuspend c) RT_IPC_FLAG_FIFO t time (thr_error RT_EOK th)
       (set_thread t (thr_error RT_EOK th) s) s' -> Q (Wait t) s') ->
  wp (rt_completion_wait c time) Q s.
Proof.
  intros Hw H1 H2 H3. unfold rt_completion_wait. kstep. kstep; [by apply negb_true_iff, Z.eqb_neq|].
  do 2 kstep. rewrite Ec. kstep. eapply wp_get_completion; [exact Hx|].
  destruct (Z.eqb_spec x RT_COMPLETED) as [E|E]; cbn [negb]; [do 2 kstep; by apply H1|].
  destruct (Hw E) as [El C]. kstep. apply wp_isempty. rewrite El. do 2 kstep.
  destruct (Z.eqb_spec time 0) as [E0|E0]; [kstep; by apply H2|]. specialize (C E0).
  kstep. eapply wp_upd_thread; [apply C|].
  assert (C1 : caller (set_thread t (thr_error RT_EOK th) s) t (thr_error RT_EOK th))
    by by apply caller_error.
  kstep. eapply wp_mono.
  { eapply (wp_park (LSuspend c)); [exact C1|done|].
    instantiate (1 := fun _ s' => s' = _). reflexivity. }
  intros e s1 H. kstep. eapply wp_mono; [exact H|]. intros [] s2 ->.
  unfold RT_DEBUG_NOT_IN_INTERRUPT. do 3 kstep. kstep.
  { destruct (waiting_same (set_thread t (thr_error RT_EOK th) s) (LSuspend c) RT_IPC_FLAG_FIFO t
      (thr_error RT_EOK th)) as (_ & _ & -> & _). apply Z.eqb_eq, C1. }
  kstep. eapply wp_mono.
  { apply wp_arm_schedule with (Q := fun _ => Q (Wait t)); [apply C1|done|apply C1|apply C1|exact Htime|apply C1|].
    intros s' W' R. apply (H3 E E0 s'). by apply waiting_blocked. }
  cbn. intros e' s' R. kstep. eapply wp_mono; [exact R|]. intros [] s'' HQ. by kstep.
Qed.

(** [rt_completion_wait] takes a completion that is done, fails at once when it
    may not wait, and otherwise waits, with its error number cleared and its timer
    running when there is a time. *)
Theorem rt_completion_wait_ok :
  (x <> RT_COMPLETED -> tlist (sc s) (LSuspend c) = [] /\ (time <> 0 -> caller s t th)) ->
  wp (rt_completion_wait c time) (fun r s' =>
    if x =? RT_COMPLETED then r = Return RT_EOK /\ s' = set_completion c RT_UNCOMPLETED s
    else if time =? 0 then r = Return (- RT_ETIMEOUT) /\ s' = s
    else r = Wait t /\ blocked (LSuspend c) RT_IPC_FLAG_FIFO t time (thr_error RT_EOK th)
           (set_thread t (thr_error RT_EOK th) s) s') s.
Proof.
  intros Hw. apply wp_completion_wait; [done| | |].
  - by intros ->.
  - intros E ->. by rewrite (proj2 (Z.eqb_neq _ _) E).
  - intros E E0 s' B. by rewrite (proj2 (Z.eqb_neq _ _) E), (proj2 (Z.eqb_neq _ _) E0).
Qed.

(** A second thread that waits is stopped by an assertion. *)
Lemma completion_second_waiter :
  x <> RT_COMPLETED -> tlist (sc s) (LSuspend c) <> [] ->
  rt_completion_wait c time s = AssertFail.
Proof.
  intros E El. unfold rt_completion_wait, rt_thread_self, get_completion, rt_list_isempty, get_list,
    kassert, lift, gets, mbind, ST_bind. cbn. rewrite (proj2 (Z.eqb_neq c _) Hc). cbn. rewrite Hx. cbn.
  rewrite (proj2 (Z.eqb_neq x _) E). cbn. by rewrite bool_decide_false.
Qed.

End Completion.

(** [rt_completion_done] on a completion that is done changes nothing; otherwise it
    is done afterwards, and the thread that waits, if any, is ready with its timer
    stopped and the scheduler has run. *)
Theorem rt_completion_done_ok (s : kst) (c x : Z) :
  wf_kst s -> c <> RT_NULL -> i_completions (ip s) !! c = Some x ->
  wp (rt_completion_done c) (fun _ s' =>
    if x =? RT_COMPLETED then s' = s else completed s c s') s.
Proof.
  intros W Hc Hx. eapply wp_completion_done; [done..| |]; intros E.
  - by rewrite (proj2 (Z.eqb_eq _ _) E).
  - by rewrite (proj2 (Z.eqb_neq _ _) E).
Qed.

(** A thread waits for a completion, another one (or an interrupt) says that it is
    done, and the thread goes on. *)
Definition handshake (c time : Z) : K Z :=
  r ← rt_completion_wait c time;
  match r with
  | Return e => mret e
  | Wait t => _ ← rt_completion_done c; rt_completion_wait_resume c t
  end.

(** A thread that waits for a completion is made ready by [rt_completion_done] and
    then gets [RT_EOK]; the completion can be used again: it is not done, nobody waits
    for it, and no timer of the thread is left running. *)
Theorem completion_handshake (s : kst) (c t time x : Z) (th : rt_thread) :
  caller s t th -> c <> RT_NULL -> time < 2 ^ 31 - 1 -> time <> 0 ->
  i_completions (ip s) !! c = Some x -> x <> RT_COMPLETED -> tlist (sc s) (LSuspend c) = [] ->
  wp (handshake c time) (fun e s' =>
    e = RT_EOK /\ wf_kst s' /\ i_completions (ip s') !! c = Some RT_UNCOMPLETED /\
    tlist (sc s') (LSuspend c) = [] /\ (ThreadTimer t ∉ trow (tm s')) /\ on_policy s' /\
    exists th', s_threads (sc s') !! t = Some th' /\ t_stat th' = RT_THREAD_READY) s.
Proof.
  intros C Hc Htime Ht0 Hx Hne El. unfold handshake. kstep.
  apply (wp_completion_wait s c Hc t time x th); try done; [apply C|].
  intros _ _ s1 B. kstep.
  assert (L1 : tlist (sc s1) (LSuspend c) = [t]).
  { rewrite (bl_list _ _ _ _ _ _ _ B). change (tlist (sc s) (LSuspend c) ++ [t] = [t]). by rewrite El. }
  assert (Hx1 : i_completions (ip s1) !! c = Some x) by (by rewrite (bl_ip _ _ _ _ _ _ _ B)).
  eapply wp_completion_done; [apply B|done|exact Hx1|done|].
  intros _ s2 D. pose proof (cd_wake _ _ _ D) as Wk. rewrite L1 in Wk.
  destruct Wk as (A & T & N & P). unfold rt_completion_wait_resume.
  assert (Ht2 : s_threads (sc s2) !! t =
    Some (thr_stat RT_THREAD_READY (thr_stat RT_THREAD_SUSPEND (thr_error RT_EOK th)))).
  { rewrite (wa_threads _ _ _ _ A), decide_True by (by left).
    rewrite (bl_threads _ _ _ _ _ _ _ B), lookup_insert_eq. done. }
  kstep. eapply wp_get_thread; [exact Ht2|]. kstep. eapply wp_get_completion.
  { rewrite (cd_ip _ _ _ D). apply lookup_insert_eq. }
  do 3 kstep. split_and!; [done|apply wf_kst_ip, D|apply lookup_insert_eq|done|done| |by eauto].
  apply (on_policy_lists s2); [done|done|]. apply P.
  rewrite (cm_lock _ _ _ (bl_calm _ _ _ _ _ _ _ B)). apply C.
Qed.

(** ** Samples *)

Definition a_completion : Z := 0x20007500.

Definition with_completion : kst := after (rt_completion_init a_completion) running.
(** A thread waits for it for 20 ticks. *)
Definition completion_waited : kst := after (rt_completion_wait a_completion 20) with_completion.

Lemma wf_with_completion : wf_kst with_completion.
Proof. apply wf_check. evaluate. Qed.
Lemma wf_completion_waited : wf_kst completion_waited.
Proof. apply wf_check. evaluate. Qed.

Lemma caller_with_completion : exists th, caller with_completion main_t th.
Proof. apply (caller_check _ _ peer_t); [apply wf_with_completion|discriminate || evaluate..]. Qed.

Lemma rt_completion_wait_ok_witness :
  wp (rt_completion_wait a_completion 20) (fun r s' => r = Wait main_t /\ wf_kst s') with_completion.
Proof.
  destruct caller_with_completion as [th C].
  eapply wp_mono; [apply (rt_completion_wait_ok with_completion a_completion ltac:(discriminate)
    main_t 20 RT_UNCOMPLETED th)|].
  - evaluate.
  - evaluate.
  - lia.
  - intros _. split; [evaluate|]. intros _. exact C.
  - intros r s' [R B]. split; [exact R|apply B].
Defined.

Lemma rt_completion_done_ok_witness :
  wp (rt_completion_done a_completion) (fun _ s' => wf_kst s' /\
    tlist (sc s') (LSuspend a_completion) = []) completion_waited.
Proof.
  assert (El : tlist (sc completion_waited) (LSuspend a_completion) = [main_t]) by evaluate.
  eapply wp_mono; [apply (rt_completion_done_ok completion_waited a_completion RT_UNCOMPLETED)|].
  - apply wf_completion_waited.
  - discriminate.
  - evaluate.
  - intros [] s' [Wf _ _ K]. rewrite El in K. destruct K as (_ & K & _). split; [exact Wf|exact K].
Defined.

Lemma completion_handshake_witness :
  wp (handshake a_completion 20) (fun e s' => e = RT_EOK /\
    i_completions (ip s') !! a_completion = Some RT_UNCOMPLETED) with_completion.
Proof.
  destruct caller_with_completion as [th C].
  eapply wp_mono; [apply (completion_handshake with_completion a_completion main_t 20
    RT_UNCOMPLETED th C); first [discriminate|lia|evaluate]|].
  intros e s' (E & _ & Hx & _). split; [exact E|exact Hx].
Defined.
