(* ===== verification/DataQueue.v ===== *)
(** * Data queues (DeviceDrivers/dataqueue.c)

    A queue of descriptors of data (a pointer and a size) in a ring whose two
    indices run freely through 16 bits, with a low water mark below which one
    writer is waked.  The readers that wait are in [LSuspend queue] (the
    suspended_pop_list), the writers in [LSender queue] (the suspended_push_list).
    Below the code: the ring, what one operation does to it and to the threads, and where
    the ring stops being a queue.  Whole runs are in DataQueueSpec.v. *)

From Stdlib Require Import Lia.
From S2P Require Import Prelude KService Heap KState Scheduler Object Timer Thread.
From S2P Require Import Invariant Sample ThreadSpec Frame Clock Ipc IpcSpec Completion.

(** ** The code *)

Definition RT_DATAQUEUE_EVENT_POP : Z := 1.
Definition RT_DATAQUEUE_EVENT_PUSH : Z := 2.
Definition RT_DATAQUEUE_EVENT_LWM : Z := 3.

(** What a call that waits goes on with: its arguments and locals. *)
Record dq_push_k := DqPushK {
  kp_queue : Z; kp_data : Z * Z; kp_timeout : Z; kp_thread : Z; kp_mask : Z }.
Record dq_pop_k := DqPopK { ko_queue : Z; ko_timeout : Z; ko_thread : Z; ko_mask : Z }.

Definition dq_set_waiting (b : bool) (x : rt_data_queue) : rt_data_queue :=
  RtDataQueue (dq_size x) (dq_lwm x) b (dq_get_index x) (dq_put_index x) (dq_queue x) (dq_items x)
    (dq_evt_notify x).
Definition dq_set_get (i : Z) (x : rt_data_queue) : rt_data_queue :=
  RtDataQueue (dq_size x) (dq_lwm x) (dq_waiting_lwm x) i (dq_put_index x) (dq_queue x) (dq_items x)
    (dq_evt_notify x).
Definition dq_set_put (i : Z) (items : list (Z * Z)) (x : rt_data_queue) : rt_data_queue :=
  RtDataQueue (dq_size x) (dq_lwm x) (dq_waiting_lwm x) (dq_get_index x) i (dq_queue x) items
    (dq_evt_notify x).

(** [items]: what the allocated memory holds. *)
Definition rt_data_queue_init (queue size lwm evt_notify : Z) (items : list (Z * Z)) : K Z :=
  _ ← kassert (negb (queue =? RT_NULL));
  _ ← put_dq queue (RtDataQueue (u16 size) (u16 lwm) false 0 0 RT_NULL [] evt_notify);
  _ ← list_init (LSender queue);
  _ ← list_init (LSuspend queue);
  p ← RT_KERNEL_MALLOC (8 * u16 size);
  _ ← put_dq queue (RtDataQueue (u16 size) (u16 lwm) false 0 0 p
        (if p =? RT_NULL then [] else items) evt_notify);
  if p =? RT_NULL then mret (- RT_ENOMEM) else mret RT_EOK.

(** The calling thread waits in [l]. *)
Definition dq_wait (l : lid) (thread timeout : Z) : K unit :=
  _ ← RT_DEBUG_NOT_IN_INTERRUPT;
  _ ← upd_thread thread (thr_error RT_EOK);
  _ ← rt_thread_suspend thread;
  _ ← tlist_push_back l thread;
  _ ← kwhen (0 <? timeout)
        (_ ← rt_timer_control (ThreadTimer thread) RT_TIMER_CTRL_SET_TIME timeout;
         _ ← rt_timer_start (ThreadTimer thread);
         mret tt);
  rt_schedule.

Section Notify.
(** The functions a driver can be notified with: address, queue, event. *)
Variable call_notify : Z -> Z -> Z -> K unit.

Definition dq_notify (queue event : Z) : K unit :=
  x ← get_dq queue;
  if negb (dq_evt_notify x =? RT_NULL) then call_notify (dq_evt_notify x) queue event else mret tt.

(** The loop of [rt_data_queue_push] and what follows it. *)
Definition dq_push_loop (queue : Z) (data : Z * Z) (timeout thread mask : Z) : K (outcome Z dq_push_k) :=
  x ← get_dq queue;
  if dq_put_index x - dq_get_index x =? dq_size x then
    _ ← put_dq queue (dq_set_waiting true x);
    if timeout =? 0 then mret (Return (- RT_ETIMEOUT)) else
    _ ← dq_wait (LSender queue) thread timeout;
    mret (Wait (DqPushK queue data timeout thread mask))
  else
    items ← lift (store_at (dq_items x) (Z.land (dq_put_index x) mask) data);
    _ ← put_dq queue (dq_set_put (u16 (dq_put_index x + 1)) items x);
    e ← rt_list_isempty (LSuspend queue);
    if negb (e : bool) then
      thread ← first_entry (LSuspend queue);
      _ ← rt_thread_resume thread;
      _ ← rt_schedule;
      mret (Return RT_EOK)
    else
      _ ← dq_notify queue RT_DATAQUEUE_EVENT_PUSH;
      mret (Return RT_EOK).

Definition rt_data_queue_push (queue data_ptr data_size timeout : Z) : K (outcome Z dq_push_k) :=
  _ ← kassert (negb (queue =? RT_NULL));
  thread ← rt_thread_self;
  x ← get_dq queue;
  dq_push_loop queue (data_ptr, data_size) timeout thread (u16 (dq_size x - 1)).
Definition rt_data_queue_push_resume (k : dq_push_k) : K (outcome Z dq_push_k) :=
  th ← get_thread (kp_thread k);
  if negb (t_error th =? RT_EOK) then mret (Return (t_error th)) else
  dq_push_loop (kp_queue k) (kp_data k) (kp_timeout k) (kp_thread k) (kp_mask k).

(** What a pop returns: the error code, what is stored through [data_ptr] and [size], and
    whether the interrupts are enabled again.  They are not where the queue falls to its
    low water mark and no writer waits: the function returns from between
    [rt_hw_interrupt_disable] and [rt_hw_interrupt_enable], and the driver is notified in
    between. *)
Definition dq_popped_result : Type := Z * option (Z * Z) * bool.

Definition dq_pop_loop (queue timeout thread mask : Z) : K (outcome dq_popped_result dq_pop_k) :=
  x ← get_dq queue;
  if dq_get_index x =? dq_put_index x then
    if timeout =? 0 then mret (Return (- RT_ETIMEOUT, None, true)) else
    _ ← dq_wait (LSuspend queue) thread timeout;
    mret (Wait (DqPopK queue timeout thread mask))
  else
    data ← lift (load_at (dq_items x) (Z.land (dq_get_index x) mask));
    let x := dq_set_get (u16 (dq_get_index x + 1)) x in
    _ ← put_dq queue x;
    if dq_waiting_lwm x && (dq_put_index x - dq_get_index x <=? dq_lwm x) then
      _ ← put_dq queue (dq_set_waiting false x);
      e ← rt_list_isempty (LSender queue);
      if negb (e : bool) then
        thread ← first_entry (LSender queue);
        _ ← rt_thread_resume thread;
        _ ← rt_schedule;
        _ ← dq_notify queue RT_DATAQUEUE_EVENT_LWM;
        mret (Return (RT_EOK, Some data, true))
      else
        _ ← dq_notify queue RT_DATAQUEUE_EVENT_LWM;
        mret (Return (RT_EOK, Some data, false))
    else
      _ ← dq_notify queue RT_DATAQUEUE_EVENT_POP;
      mret (Return (RT_EOK, Some data, true)).

Definition rt_data_queue_pop (queue timeout : Z) : K (outcome dq_popped_result dq_pop_k) :=
  _ ← kassert (negb (queue =? RT_NULL));
  thread ← rt_thread_self;
  x ← get_dq queue;
  dq_pop_loop queue timeout thread (u16 (dq_size x - 1)).
Definition rt_data_queue_pop_resume (k : dq_pop_k) : K (outcome dq_popped_result dq_pop_k) :=
  th ← get_thread (ko_thread k);
  if negb (t_error th =? RT_EOK) then mret (Return (t_error th, None, true)) else
  dq_pop_loop (ko_queue k) (ko_timeout k) (ko_thread k) (ko_mask k).

End Notify.

Definition rt_data_queue_peak (queue : Z) : K (Z * option (Z * Z)) :=
  _ ← kassert (negb (queue =? RT_NULL));
  x ← get_dq queue;
  let mask := u16 (dq_size x - 1) in
  if dq_get_index x =? dq_put_index x then mret (- RT_EEMPTY, None) else
  data ← lift (load_at (dq_items x) (Z.land (dq_get_index x) mask));
  mret (RT_EOK, Some data).

Definition rt_data_queue_reset (queue : Z) : K unit :=
  _ ← rt_enter_critical;
  x ← get_list (LSuspend queue); _ ← resume_all_loop (length x) (LSuspend queue);
  x ← get_list (LSender queue); _ ← resume_all_loop (length x) (LSender queue);
  _ ← rt_exit_critical;
  rt_schedule.

(** ** The ring *)

Record dq_ok (x : rt_data_queue) : Prop := {
  do_size : exists k, 0 <= k < 16 /\ dq_size x = 2 ^ k;
  do_items : Z.of_nat (length (dq_items x)) = dq_size x;
  do_index : 0 <= dq_get_index x <= dq_put_index x;
  do_put : dq_put_index x < 2 ^ 16;
  do_level : dq_put_index x - dq_get_index x <= dq_size x;
}.

Definition dq_contents (x : rt_data_queue) : list (Z * Z) :=
  ring (0, 0) (dq_items x) (dq_size x) (dq_get_index x) (Z.to_nat (dq_put_index x - dq_get_index x)).

Lemma dq_length (x : rt_data_queue) :
  dq_ok x -> Z.of_nat (length (dq_contents x)) = dq_put_index x - dq_get_index x.
Proof. intros M. unfold dq_contents. rewrite length_ring. pose proof (do_index _ M). lia. Qed.

(** [index & mask] for a size that is a power of two. *)
Lemma dq_slot (i k size : Z) :
  size = 2 ^ k -> 0 <= k < 16 -> Z.land i (u16 (size - 1)) = i mod size.
Proof.
  intros -> Hk. assert (2 ^ k <= 2 ^ 15) by (apply Z.pow_le_mono_r; lia).
  assert (0 < 2 ^ k) by (apply Z.pow_pos_nonneg; lia).
  rewrite (ubits_small 16) by lia. rewrite Z.sub_1_r, <- Z.ones_equiv. apply Z.land_ones. lia.
Qed.

Definition dq_pushed (d : Z * Z) (x : rt_data_queue) : rt_data_queue :=
  dq_set_put (dq_put_index x + 1) (<[Z.to_nat (dq_put_index x mod dq_size x) := d]> (dq_items x)) x.
Definition dq_popped (x : rt_data_queue) : rt_data_queue := dq_set_get (dq_get_index x + 1) x.

Section Queue.
Variable x : rt_data_queue.
Hypothesis M : dq_ok x.

Lemma dq_size_range : 0 < dq_size x <= 2 ^ 15.
Proof.
  destruct (do_size _ M) as (k & Hk & ->). split; [apply Z.pow_pos_nonneg; lia|].
  apply Z.pow_le_mono_r; lia.
Qed.

Lemma dq_pushed_ok (d : Z * Z) :
  dq_put_index x - dq_get_index x < dq_size x -> dq_put_index x + 1 < 2 ^ 16 -> dq_ok (dq_pushed d x).
Proof.
  intros Hf Hr. destruct M as [M1 M2 M3 M4 M5]. constructor; cbn; try done; try lia.
  by rewrite length_insert.
Qed.

Lemma dq_pushed_contents (d : Z * Z) :
  dq_put_index x - dq_get_index x < dq_size x -> dq_contents (dq_pushed d x) = dq_contents x ++ [d].
Proof.
  intros Hf. destruct M as [M1 M2 M3 M4 M5]. unfold dq_contents. cbn.
  set (n := Z.to_nat (dq_put_index x - dq_get_index x)).
  replace (Z.to_nat (dq_put_index x + 1 - dq_get_index x)) with (S n) by lia.
  replace (dq_put_index x) with (dq_get_index x + Z.of_nat n) by lia.
  apply ring_push; lia.
Qed.

Lemma dq_popped_ok : dq_get_index x < dq_put_index x -> dq_ok (dq_popped x).
Proof. intros Hf. destruct M as [M1 M2 M3 M4 M5]. constructor; cbn; (done || lia). Qed.

Lemma dq_first (d : Z * Z) (w : list (Z * Z)) :
  dq_contents x = d :: w ->
  dq_items x !! Z.to_nat (dq_get_index x mod dq_size x) = Some d /\
  dq_get_index x < dq_put_index x /\ dq_contents (dq_popped x) = w.
Proof.
  intros E. pose proof dq_size_range. pose proof M as [M1 M2 M3 M4 M5]. unfold dq_contents in *.
  destruct (ring_pop (0, 0) _ _ _ d _ w M2 ltac:(lia) E) as (Ed & Hn & Ew).
  split; [done|]. split; [lia|]. cbn. rewrite <- Ew. f_equal. lia.
Qed.

Lemma dq_waiting_ok (b : bool) : dq_ok (dq_set_waiting b x).
Proof. by destruct M. Qed.

End Queue.

(** ** The operations *)

Lemma wp_get_dq (a : Z) (x : rt_data_queue) (Q : rt_data_queue -> kst -> Prop) (s : kst) :
  i_dqs (ip s) !! a = Some x -> Q x s -> wp (get_dq a) Q s.
Proof. intros E H. unfold get_dq. by eapply wp_bind, wp_gets, wp_lift. Qed.

Definition set_dq (a : Z) (x : rt_data_queue) (s : kst) : kst :=
  upd_ip (fun c => with_dqs (<[a := x]> (i_dqs c)) c) s.

Lemma set_dq_lookup (a : Z) (x : rt_data_queue) (s : kst) : i_dqs (ip (set_dq a x s)) !! a = Some x.
Proof. apply lookup_insert_eq. Qed.

Lemma set_dq_twice (a : Z) (x y : rt_data_queue) (s : kst) :
  set_dq a y (set_dq a x s) = set_dq a y s.
Proof. unfold set_dq, upd_ip, with_dqs. cbn. by rewrite insert_insert_eq. Qed.

Lemma wp_dq_wait (l : lid) (t time : Z) (th : rt_thread) (s : kst) (Q : unit -> kst -> Prop) :
  caller s t th -> wait_list l -> time < 2 ^ 31 - 1 ->
  (forall s', blocked l RT_IPC_FLAG_FIFO t time (thr_error RT_EOK th)
     (set_thread t (thr_error RT_EOK th) s) s' -> Q tt s') ->
  wp (dq_wait l t time) Q s.
Proof.
  intros C Hl Htime HQ. unfold dq_wait, RT_DEBUG_NOT_IN_INTERRUPT. do 3 kstep.
  kstep; [apply Z.eqb_eq, C|]. kstep. eapply wp_upd_thread; [apply C|].
  assert (C1 : caller (set_thread t (thr_error RT_EOK th) s) t (thr_error RT_EOK th))
    by by apply caller_error.
  kstep. eapply wp_mono; [eapply (wp_park l); [exact C1|done|]|].
  { instantiate (1 := fun _ s' => s' = _). reflexivity. }
  intros e s1 H. kstep. eapply wp_mono; [exact H|]. intros [] s2 ->.
  kstep. apply wp_arm_schedule; [apply C1|done|apply C1|apply C1|exact Htime|apply C1|].
  intros s' W' R. apply HQ. by apply waiting_blocked.
Qed.

(** What an operation that did not wait leaves: the queue is [x'], and the first
    thread that waited in the list [l], if any, has been waked. *)
Record dq_step (l : option lid) (queue : Z) (x' : rt_data_queue) (s s' : kst) : Prop := {
  ds_wf : wf_kst s';
  ds_dq : i_dqs (ip s') !! queue = Some x';
  ds_wake : match l with
    | None => sc s' = sc s
    | Some l => match tlist (sc s) l with
      | [] => sc s' = sc s
      | u :: rest => waked (fun _ th => th) [u] (sc s) (sc s') /\ tlist (sc s') l = rest /\
          (s_lock_nest (sc s) = 0 -> on_policy s')
      end
    end;
}.

Section Operations.
Variable call_notify : Z -> Z -> Z -> K unit.
(** The function of a driver that is notified returns, and leaves the scheduler and
    the data queues alone. *)
Hypothesis notify_ok : forall f queue event s, wf_kst s ->
  wp (call_notify f queue event)
    (fun _ s' => wf_kst s' /\ sc s' = sc s /\ i_dqs (ip s') = i_dqs (ip s)) s.

Lemma wp_dq_notify (queue event : Z) (l : option lid) (x : rt_data_queue) (s0 s : kst)
    (Q : unit -> kst -> Prop) :
  dq_step l queue x s0 s -> (forall s', dq_step l queue x s0 s' -> Q tt s') ->
  wp (dq_notify call_notify queue event) Q s.
Proof.
  intros D HQ. unfold dq_notify. kstep. eapply wp_get_dq; [apply D|].
  destruct (negb (dq_evt_notify x =? RT_NULL)); [|kstep; by apply HQ].
  eapply wp_mono; [apply notify_ok, D|]. intros [] s' (W' & E & I). apply HQ.
  destruct D as [D1 D2 D3]. constructor; [done|by rewrite I|]. rewrite E.
  destruct l as [l|]; [|done]. destruct (tlist (sc s0) l) as [|u rest]; [done|].
  destruct D3 as (A & T & P). split_and!; [done..|]. intros L. destruct (P L) as [p Hp].
  exists p. by rewrite E.
Qed.

(** The first thread of [l] is waked, when there is one. *)
Lemma wp_dq_wake (l : lid) (queue : Z) (x : rt_data_queue) (s : kst) (Q : unit -> kst -> Prop) :
  wf_kst s -> wait_list l ->
  (forall s', dq_step (Some l) queue x s s' -> Q tt s') ->
  wp (e ← rt_list_isempty l;
      if negb (e : bool) then t ← first_entry l; _ ← rt_thread_resume t; rt_schedule
      else mret tt) Q (set_dq queue x s).
Proof.
  intros W Hl HQ. apply wp_wake_entry. apply wp_wake; [by apply wf_kst_ip|done|].
  change (sc (set_dq queue x s)) with (sc s). destruct (tlist (sc s) l) as [|u rest] eqn:El.
  - apply HQ. constructor; [by apply wf_kst_ip|apply set_dq_lookup|by rewrite El].
  - intros s' W' A T I _ _ P. apply HQ. constructor; [done| |by rewrite El].
    rewrite I. apply set_dq_lookup.
Qed.

(** The same where the code goes on differently in the two cases. *)
Lemma wp_dq_wake_then {A} (l : lid) (queue : Z) (x : rt_data_queue) (s : kst) (m1 m2 : K A)
    (Q : A -> kst -> Prop) :
  wf_kst s -> wait_list l ->
  (tlist (sc s) l = [] -> dq_step (Some l) queue x s (set_dq queue x s) ->
     wp m2 Q (set_dq queue x s)) ->
  (tlist (sc s) l <> [] -> forall s', dq_step (Some l) queue x s s' -> wp m1 Q s') ->
  wp (e ← rt_list_isempty l;
      if negb (e : bool) then t ← first_entry l; _ ← rt_thread_resume t; _ ← rt_schedule; m1
      else m2) Q (set_dq queue x s).
Proof.
  intros W Hl H2 H1.
  pose proof (wp_dq_wake l queue x s (fun _ s' => dq_step (Some l) queue x s s') W Hl ltac:(done)) as P.
  kstep. apply wp_isempty. unfold wp at 1, mbind at 1, ST_bind at 1 in P.
  change (rt_list_isempty l (set_dq queue x s)) with
    (Ok (bool_decide (tlist (sc s) l = []), set_dq queue x s)) in P.
  change (tlist (sc (set_dq queue x s)) l) with (tlist (sc s) l).
  case_bool_decide as El; cbn [negb] in *.
  - apply H2; [done|]. constructor; [by apply wf_kst_ip|apply set_dq_lookup|by rewrite El].
  - unfold wp, mbind, ST_bind in *. destruct (first_entry l _) as [[t s1]| |]; [|done..].
    destruct (rt_thread_resume t s1) as [[e s2]| |]; [|done..].
    destruct (rt_schedule s2) as [[[] s3]| |]; [|done..]. by apply H1.
Qed.

Section Call.
Variables (s : kst) (queue t time : Z) (x : rt_data_queue) (th : rt_thread).
Hypothesis W : wf_kst s.
Hypothesis Hq : queue <> RT_NULL.
Hypothesis Hx : i_dqs (ip s) !! queue = Some x.
Hypothesis M : dq_ok x.
Hypothesis Htime : time < 2 ^ 31 - 1.

Let mask := u16 (dq_size x - 1).
Let th1 := thr_error RT_EOK th.
Let full := dq_put_index x - dq_get_index x =? dq_size x.
Let stalled := set_dq queue (dq_set_waiting true x) s.

Lemma wp_dq_push_loop (d : Z * Z) (Q : outcome Z dq_push_k -> kst -> Prop) :
  (full = true -> time <> 0 -> caller s t th) ->
  (full = true -> time = 0 -> Q (Return (- RT_ETIMEOUT)) stalled) ->
  (full = true -> time <> 0 -> forall s',
     blocked (LSender queue) RT_IPC_FLAG_FIFO t time th1 (set_thread t th1 stalled) s' ->
     Q (Wait (DqPushK queue d time t mask)) s') ->
  (full = false -> dq_put_index x + 1 < 2 ^ 16 -> forall s',
     dq_step (Some (LSuspend queue)) queue (dq_pushed d x) s s' -> Q (Return RT_EOK) s') ->
  (full = false -> dq_put_index x + 1 < 2 ^ 16) ->
  wp (dq_push_loop call_notify queue d time t mask) Q s.
Proof.
  intros Hc H0 H1 H2 Hr. unfold dq_push_loop. kstep. eapply wp_get_dq; [exact Hx|].
  fold full. destruct full eqn:Ef.
  - do 2 kstep. change (upd_ip _ s) with stalled.
    destruct (Z.eqb_spec time 0) as [E0|E0]; [kstep; by apply H0|].
    kstep. eapply (wp_dq_wait _ t time th); [by apply caller_ip, Hc|done|done|].
    intros s' B. kstep. by apply H1.
  - unfold full in Ef. apply Z.eqb_neq in Ef. specialize (Hr eq_refl).
    pose proof (dq_size_range x M) as Hs. pose proof M as [(k & Hk & Ek) M2 M3 M4 M5].
    kstep. unfold lift. rewrite (dq_slot _ k _ Ek Hk). rewrite store_at_ok.
    2: { rewrite M2. apply Z.mod_pos_bound. lia. }
    unfold wp at 1. cbn [mbind res_bind]. do 2 kstep. rewrite (ubits_small 16) by lia.
    change (upd_ip _ s) with (set_dq queue (dq_pushed d x) s).
    apply wp_dq_wake_then; [done|done| |].
    + intros _ D. kstep. eapply wp_dq_notify; [exact D|]. intros s' D'. kstep. by apply H2.
    + intros _ s' D. kstep. by apply H2.
Qed.

(** Are the interrupts enabled when a pop leaves [w]? *)
Let unlocked (w : list (Z * Z)) : bool :=
  negb (dq_waiting_lwm x && (Z.of_nat (length w) <=? dq_lwm x)) ||
  negb (bool_decide (tlist (sc s) (LSender queue) = [])).

Lemma wp_dq_pop_loop (Q : outcome dq_popped_result dq_pop_k -> kst -> Prop) :
  (dq_contents x = [] -> time <> 0 -> caller s t th) ->
  (dq_contents x = [] -> time = 0 -> Q (Return (- RT_ETIMEOUT, None, true)) s) ->
  (dq_contents x = [] -> time <> 0 -> forall s',
     blocked (LSuspend queue) RT_IPC_FLAG_FIFO t time th1 (set_thread t th1 s) s' ->
     Q (Wait (DqPopK queue time t mask)) s') ->
  (forall d w, dq_contents x = d :: w -> forall s',
     (if dq_waiting_lwm x && (Z.of_nat (length w) <=? dq_lwm x)
      then dq_step (Some (LSender queue)) queue (dq_set_waiting false (dq_popped x)) s s'
      else dq_step None queue (dq_popped x) s s') ->
     Q (Return (RT_EOK, Some d, unlocked w)) s') ->
  wp (dq_pop_loop call_notify queue time t mask) Q s.
Proof.
  intros Hc H0 H1 H2. unfold dq_pop_loop. kstep. eapply wp_get_dq; [exact Hx|].
  pose proof (dq_length x M) as L. destruct (dq_contents x) as [|d w] eqn:E; cbn [length] in L.
  - rewrite (proj2 (Z.eqb_eq _ _)) by lia.
    destruct (Z.eqb_spec time 0) as [E0|E0]; [kstep; by apply H0|].
    kstep. eapply (wp_dq_wait _ t time th); [by apply Hc|done|done|].
    intros s' B. kstep. by apply H1.
  - rewrite (proj2 (Z.eqb_neq _ _)) by lia. destruct (dq_first x M d w E) as (Ed & Hlt & Ew).
    pose proof M as [(k & Hk & Ek) M2 M3 M4 M5].
    kstep. unfold lift. rewrite (dq_slot _ k _ Ek Hk).
    rewrite (load_at_ok _ _ d); [|apply Z.mod_pos_bound; pose proof (dq_size_range x M); lia|done].
    unfold wp at 1. cbn [mbind res_bind]. do 2 kstep. rewrite (ubits_small 16) by lia.
    change (dq_set_get (dq_get_index x + 1) x) with (dq_popped x).
    change (upd_ip _ s) with (set_dq queue (dq_popped x) s). cbn [dq_popped dq_set_get dq_waiting_lwm
      dq_put_index dq_get_index dq_lwm].
    replace (dq_put_index x - (dq_get_index x + 1)) with (Z.of_nat (length w)) by lia.
    specialize (H2 d w eq_refl). unfold unlocked in H2.
    destruct (dq_waiting_lwm x && (Z.of_nat (length w) <=? dq_lwm x)); cbn [negb orb] in H2.
    + do 2 kstep. change (upd_ip _ (set_dq queue (dq_popped x) s)) with
        (set_dq queue (dq_set_waiting false (dq_popped x)) (set_dq queue (dq_popped x) s)).
      rewrite set_dq_twice. apply wp_dq_wake_then; [done|done| |].
      * intros El D. kstep. eapply wp_dq_notify; [exact D|]. intros s2 D2. kstep.
        rewrite bool_decide_true in H2 by done. by apply H2.
      * intros El s' D. kstep. eapply wp_dq_notify; [exact D|]. intros s2 D2. kstep.
        rewrite bool_decide_false in H2 by done. by apply H2.
    + kstep. eapply (wp_dq_notify _ _ None _ s).
      { constructor; [by apply wf_kst_ip|apply set_dq_lookup|done]. }
      intros s' D. kstep. by apply H2.
Qed.

(** pushing on a data queue with room puts the item behind the others and wakes the
    first reader that waits; on a full one it fails at once when it may not wait, and
    otherwise waits in the list of the writers; both leave the note that a writer
    waits for the low water mark. *)
Theorem rt_data_queue_push_ok (d : Z * Z) :
  s_current (sc s) = t -> dq_put_index x + 1 < 2 ^ 16 -> (full = true -> time <> 0 -> caller s t th) ->
  wp (rt_data_queue_push call_notify queue d.1 d.2 time) (fun r s' =>
    if Z.of_nat (length (dq_contents x)) =? dq_size x then
      if time =? 0 then r = Return (- RT_ETIMEOUT) /\ s' = stalled
      else r = Wait (DqPushK queue d time t mask) /\
        blocked (LSender queue) RT_IPC_FLAG_FIFO t time th1 (set_thread t th1 stalled) s'
    else r = Return RT_EOK /\ exists x', dq_ok x' /\ dq_contents x' = dq_contents x ++ [d] /\
      dq_step (Some (LSuspend queue)) queue x' s s') s.
Proof.
  intros Ec Hr Hc. rewrite (dq_length x M). fold full. unfold rt_data_queue_push.
  kstep. kstep; [by apply negb_true_iff, Z.eqb_neq|]. do 2 kstep. rewrite Ec.
  kstep. eapply wp_get_dq; [exact Hx|]. fold mask. destruct d as [d1 d2]. cbn [fst snd].
  apply wp_dq_push_loop; [done| | | |done]; intros Ef; rewrite Ef.
  - by intros ->.
  - intros E0 s' B. by rewrite (proj2 (Z.eqb_neq _ _) E0).
  - intros _ s' D. split; [done|]. exists (dq_pushed (d1, d2) x). unfold full in Ef. b2p.
    pose proof (do_level _ M). split_and!; [apply dq_pushed_ok|apply dq_pushed_contents|]; (done || lia).
Qed.

(** popping gives the oldest item; when that brings the queue down to the low water
    mark while there is the note that a writer waits for it, the note is taken away and the
    first writer is waked, and with no writer there the function returns with the
    interrupts disabled.  On an empty queue a reader fails at once when it may not wait,
    and otherwise waits. *)
Theorem rt_data_queue_pop_ok :
  s_current (sc s) = t -> (dq_contents x = [] -> time <> 0 -> caller s t th) ->
  wp (rt_data_queue_pop call_notify queue time) (fun r s' =>
    match dq_contents x with
    | [] => if time =? 0 then r = Return (- RT_ETIMEOUT, None, true) /\ s' = s
            else r = Wait (DqPopK queue time t mask) /\
              blocked (LSuspend queue) RT_IPC_FLAG_FIFO t time th1 (set_thread t th1 s) s'
    | d :: w => r = Return (RT_EOK, Some d, unlocked w) /\ exists x', dq_ok x' /\ dq_contents x' = w /\
        dq_step (if dq_waiting_lwm x && (Z.of_nat (length w) <=? dq_lwm x)
                 then Some (LSender queue) else None) queue x' s s'
    end) s.
Proof.
  intros Ec Hc. unfold rt_data_queue_pop. kstep. kstep; [by apply negb_true_iff, Z.eqb_neq|].
  do 2 kstep. rewrite Ec. kstep. eapply wp_get_dq; [exact Hx|]. fold mask.
  apply wp_dq_pop_loop; [done|..]; intros E.
  - rewrite E. by intros ->.
  - intros E0 s' B. by rewrite E, (proj2 (Z.eqb_neq _ _) E0).
  - intros w Ew s' D. rewrite Ew. split; [done|]. destruct (dq_first x M E w Ew) as (_ & Hlt & Ec').
    destruct (dq_waiting_lwm x && _); eexists; split_and!; try exact D; try done.
    + by apply dq_waiting_ok, dq_popped_ok.
    + by apply dq_popped_ok.
Qed.

End Call.

(** C33: where the queue stops being one.  Once the write index has wrapped around and the
    read index has not, the test for a full queue never holds: a push on a full queue
    reports success, and the new item overwrites the oldest one. *)
Theorem push_overwrites_when_wrapped (queue k : Z) (x : rt_data_queue) (d : Z * Z) (s : kst) :
  wf_kst s -> queue <> RT_NULL -> i_dqs (ip s) !! queue = Some x -> 0 <= k < 16 ->
  dq_size x = 2 ^ k -> Z.of_nat (length (dq_items x)) = dq_size x ->
  0 <= dq_put_index x < dq_get_index x -> dq_get_index x < 2 ^ 16 ->
  u16 (dq_put_index x - dq_get_index x) = dq_size x ->
  wp (rt_data_queue_push call_notify queue d.1 d.2 0) (fun r s' => r = Return RT_EOK /\
    exists x', i_dqs (ip s') !! queue = Some x' /\
      dq_items x' = <[Z.to_nat (dq_get_index x mod dq_size x) := d]> (dq_items x)) s.
Proof.
  intros W Hq Hx Hk Ek M2 H1 H2 Hf. assert (0 < 2 ^ k) by (apply Z.pow_pos_nonneg; lia).
  assert (Es : dq_put_index x mod dq_size x = dq_get_index x mod dq_size x).
  { assert (E : dq_put_index x = dq_get_index x + dq_size x - 2 ^ 16).
    { enough (u16 (dq_put_index x - dq_get_index x) = dq_put_index x - dq_get_index x + 2 ^ 16) by lia.
      symmetry. apply (Z.mod_unique _ _ (-1)); lia. }
    replace (2 ^ 16) with (2 ^ (16 - k) * 2 ^ k) in E by (rewrite <- Z.pow_add_r by lia; f_equal; lia).
    rewrite E, Ek. replace (dq_get_index x + 2 ^ k - 2 ^ (16 - k) * 2 ^ k) with
      (dq_get_index x + (1 - 2 ^ (16 - k)) * 2 ^ k) by lia. apply Z_mod_plus_full. }
  unfold rt_data_queue_push. kstep. kstep; [by apply negb_true_iff, Z.eqb_neq|]. do 2 kstep.
  kstep. eapply wp_get_dq; [exact Hx|]. unfold dq_push_loop. kstep. eapply wp_get_dq; [exact Hx|].
  rewrite (proj2 (Z.eqb_neq _ _)) by lia. kstep. unfold lift. rewrite (dq_slot _ k _ Ek Hk), Es.
  rewrite store_at_ok by (rewrite M2; apply Z.mod_pos_bound; lia).
  unfold wp at 1. cbn [mbind res_bind]. do 2 kstep.
  change (upd_ip _ s) with (set_dq queue (dq_set_put (u16 (dq_put_index x + 1))
    (<[Z.to_nat (dq_get_index x mod dq_size x) := (d.1, d.2)]> (dq_items x)) x) s).
  rewrite <- surjective_pairing.
  apply wp_dq_wake_then; [done|done| |].
  - intros _ D. kstep. eapply wp_dq_notify; [exact D|]. intros s' D'. kstep. split; [done|].
    eexists. split; [apply D'|done].
  - intros _ s' D. kstep. split; [done|]. eexists. split; [apply D|done].
Qed.

End Operations.

(** ** Samples *)

Definition a_dq : Z := 0x20007600.
Definition not_notified : Z -> Z -> Z -> K unit := fun _ _ _ => mret tt.

Lemma not_notified_ok (f queue event : Z) (s : kst) : wf_kst s ->
  wp (not_notified f queue event)
    (fun _ s' => wf_kst s' /\ sc s' = sc s /\ i_dqs (ip s') = i_dqs (ip s)) s.
Proof. intros W. unfold not_notified. by kstep. Qed.

#[local] Abbreviation push := (rt_data_queue_push not_notified a_dq).
#[local] Abbreviation pop := (rt_data_queue_pop not_notified a_dq).

(** A data queue of two items with the low water mark 1: empty, with one item, and
    full with a writer that waits. *)
Definition with_dq : kst :=
  after (rt_data_queue_init a_dq 2 1 RT_NULL [(0, 0); (0, 0)]) (upd_hp small_heap running).
Definition dq_one : kst := after (push 100 7 0) with_dq.
Definition dq_full : kst := after (push 300 9 30) (after (push 200 8 0) dq_one).

Lemma wf_dq_one : wf_kst dq_one.
Proof. apply wf_check. evaluate. Qed.
Lemma wf_dq_full : wf_kst dq_full.
Proof. apply wf_check. evaluate. Qed.

Definition dq_of (s : kst) : rt_data_queue :=
  default (RtDataQueue 0 0 false 0 0 0 [] 0) (i_dqs (ip s) !! a_dq).

Lemma dq_one_ok : dq_ok (dq_of dq_one) /\ dq_size (dq_of dq_one) = 2 /\
  dq_contents (dq_of dq_one) = [(100, 7)] /\ dq_put_index (dq_of dq_one) = 1.
Proof.
  assert (E : dq_of dq_one = RtDataQueue 2 1 false 0 1 4108 [(100, 7); (0, 0)] 0) by evaluate.
  rewrite E. clear E. split_and!; try reflexivity.
  constructor; cbn; try lia. exists 1. split; [lia|reflexivity].
Qed.

Lemma dq_full_ok : dq_ok (dq_of dq_full) /\ dq_size (dq_of dq_full) = 2 /\
  dq_contents (dq_of dq_full) = [(100, 7); (200, 8)] /\ dq_waiting_lwm (dq_of dq_full) = true /\
  dq_lwm (dq_of dq_full) = 1.
Proof.
  assert (E : dq_of dq_full = RtDataQueue 2 1 true 0 2 4108 [(100, 7); (200, 8)] 0) by evaluate.
  rewrite E. clear E. split_and!; try reflexivity.
  constructor; cbn; try lia. exists 1. split; [lia|reflexivity].
Qed.

Lemma rt_data_queue_push_ok_witness :
  wp (push 200 8 0) (fun r s' => r = Return RT_EOK /\ exists x', dq_contents x' = [(100, 7); (200, 8)] /\
    i_dqs (ip s') !! a_dq = Some x') dq_one.
Proof.
  destruct dq_one_ok as (M & Es & Ec & Ep).
  eapply wp_mono; [apply (rt_data_queue_push_ok not_notified not_notified_ok dq_one a_dq main_t 0
    (dq_of dq_one) zero_thread wf_dq_one ltac:(discriminate) ltac:(evaluate) M ltac:(lia) (200, 8))|].
  - evaluate.
  - rewrite Ep. lia.
  - intros _ H. destruct (H eq_refl).
  - intros r s'. rewrite Ec, Es. intros (R & x' & _ & Ec' & D). split; [exact R|].
    exists x'. split; [exact Ec'|]. apply (ds_dq _ _ _ _ _ D).
Defined.

(** The pop brings the queue to its low water mark, and the writer is waked. *)
Lemma rt_data_queue_pop_ok_witness :
  wp (pop 0) (fun r s' => r = Return (RT_EOK, Some (100, 7), true) /\
    tlist (sc s') (LSender a_dq) = []) dq_full.
Proof.
  destruct dq_full_ok as (M & Es & Ec & Ew & El).
  assert (T : tlist (sc dq_full) (LSender a_dq) = [main_t]) by evaluate.
  eapply wp_mono; [apply (rt_data_queue_pop_ok not_notified not_notified_ok dq_full a_dq peer_t 0
    (dq_of dq_full) zero_thread wf_dq_full ltac:(discriminate) ltac:(evaluate) M ltac:(lia))|].
  - evaluate.
  - intros _ H. destruct (H eq_refl).
  - intros r s'. rewrite Ec, Ew, El. intros (R & x' & _ & _ & D). split; [exact R|].
    pose proof (ds_wake _ _ _ _ _ D) as K. cbn in K. rewrite T in K. apply K.
Defined.

(** The write index has wrapped around: 65535 items have been read, two more are in
    the queue. *)
Definition dq_wrapped : kst :=
  after (put_dq a_dq (RtDataQueue 2 1 false 65535 1 4108 [(100, 7); (200, 8)] RT_NULL)) with_dq.

Lemma wf_dq_wrapped : wf_kst dq_wrapped.
Proof. apply wf_check. evaluate. Qed.

Lemma push_overwrites_when_wrapped_witness :
  wp (push 300 9 0) (fun r s' => r = Return RT_EOK /\
    exists x', i_dqs (ip s') !! a_dq = Some x' /\ dq_items x' = [(100, 7); (300, 9)]) dq_wrapped.
Proof.
  eapply wp_mono; [apply (push_overwrites_when_wrapped not_notified not_notified_ok a_dq 1
    (RtDataQueue 2 1 false 65535 1 4108 [(100, 7); (200, 8)] RT_NULL) (300, 9) dq_wrapped wf_dq_wrapped)|].
  - discriminate.
  - evaluate.
  - lia.
  - reflexivity.
  - reflexivity.
  - cbn. lia.
  - cbn. lia.
  - reflexivity.
  - intros r s' (R & x' & Hx & E). split; [exact R|]. exists x'. split; [exact Hx|exact E].
Defined.

(** Two writers wait for room; the first pop wakes one of them and takes the note back,
    so that the other one sleeps on while the queue is drained. *)
Definition lost_writer_run : K unit :=
  _ ← push 100 1 0; _ ← push 200 2 0;
  k ← push 300 3 RT_WAITING_FOREVER;
  _ ← push 400 4 RT_WAITING_FOREVER;
  _ ← pop 0;
  match k with
  | Wait k => _ ← rt_data_queue_push_resume not_notified k; mret tt
  | Return _ => kfault
  end;;
  _ ← rt_thread_sleep 100;
  _ ← pop 0; _ ← pop 0;
  mret tt.

Example lost_writer :
  let s' := after lost_writer_run with_dq in
  s_current (sc s') = work_t /\ dq_contents (dq_of s') = [] /\
  tlist (sc s') (LSender a_dq) = [peer_t] /\ bool_decide (ThreadTimer peer_t ∈ trow (tm s')) = false.
Proof. vm_compute. repeat split. Qed.
