(* ===== verification/Device.v ===== *)
(** * Devices (Kernel/device.c)

    The registry of devices by name, and the common interface that opens a device on
    its first use and closes it after the last.  The functions of a driver are known
    by their addresses and run through the interface [Driver]; messages to the
    console are left out.  Below the code: the registry as a table of names, and the
    life of a device. *)

From Stdlib Require Import Lia.
From S2P Require Import Prelude KService Heap KState Scheduler Object Timer Thread.
From S2P Require Import Invariant Sample ThreadSpec Frame Clock Ipc IpcSpec.

(** ** The code *)

Definition RT_DEVICE_FLAG_STANDALONE : Z := 0x008.
Definition RT_DEVICE_FLAG_ACTIVATED : Z := 0x010.
Definition RT_DEVICE_OFLAG_CLOSE : Z := 0x000.
Definition RT_DEVICE_OFLAG_OPEN : Z := 0x008.

Definition dev_flag (f : Z) (x : rt_device) : rt_device :=
  RtDevice f (d_open_flag x) (d_ref_count x) (d_rx_indicate x) (d_tx_complete x)
    (d_init x) (d_open x) (d_close x) (d_read x) (d_write x) (d_control x).
Definition dev_open_flag (f : Z) (x : rt_device) : rt_device :=
  RtDevice (d_flag x) f (d_ref_count x) (d_rx_indicate x) (d_tx_complete x)
    (d_init x) (d_open x) (d_close x) (d_read x) (d_write x) (d_control x).
Definition dev_ref_count (n : Z) (x : rt_device) : rt_device :=
  RtDevice (d_flag x) (d_open_flag x) n (d_rx_indicate x) (d_tx_complete x)
    (d_init x) (d_open x) (d_close x) (d_read x) (d_write x) (d_control x).
Definition dev_indicate (rx tx : Z) (x : rt_device) : rt_device :=
  RtDevice (d_flag x) (d_open_flag x) (d_ref_count x) rx tx
    (d_init x) (d_open x) (d_close x) (d_read x) (d_write x) (d_control x).

Definition upd_device (dev : Z) (f : rt_device -> rt_device) : K unit :=
  x ← get_device dev; put_device dev (f x).

Definition rt_device_find (name : list Z) : K Z :=
  t ← rt_thread_self;
  _ ← kwhen (negb (t =? RT_NULL)) rt_enter_critical;
  information ← rt_object_get_information RT_Object_Class_Device;
  l ← get_container (information.1);
  r ← find_loop l name;
  t ← rt_thread_self;
  _ ← kwhen (negb (t =? RT_NULL)) rt_exit_critical;
  mret (match r with Some o => oid_addr o | None => RT_NULL end).

Definition rt_device_register (dev : Z) (name : list Z) (flags : Z) : K Z :=
  if dev =? RT_NULL then mret (- RT_ERROR) else
  d ← rt_device_find name;
  if negb (d =? RT_NULL) then mret (- RT_ERROR) else
  _ ← rt_object_init (Obj dev) RT_Object_Class_Device name;
  _ ← upd_device dev (dev_flag (u16 flags));
  _ ← upd_device dev (dev_ref_count 0);
  _ ← upd_device dev (dev_open_flag 0);
  mret RT_EOK.

Definition rt_device_unregister (dev : Z) : K Z :=
  _ ← kassert (negb (dev =? RT_NULL));
  _ ← rt_object_detach (Obj dev);
  mret RT_EOK.

Definition rt_device_init_all : K Z := mret RT_EOK.

(** The functions of the drivers: the address of the function, the device, and the
    arguments. *)
Class Driver := {
  drv_init : Z -> Z -> K Z;
  drv_open : Z -> Z -> Z -> K Z;
  drv_close : Z -> Z -> K Z;
  drv_read : Z -> Z -> Z -> Z -> Z -> K Z;
  drv_write : Z -> Z -> Z -> Z -> Z -> K Z;
  drv_control : Z -> Z -> Z -> Z -> K Z;
}.

Section Drivers.
Context `{Driver}.

Definition rt_device_init (dev : Z) : K Z :=
  _ ← kassert (negb (dev =? RT_NULL));
  x ← get_device dev;
  if negb (d_init x =? RT_NULL) then
    if Z.land (d_flag x) RT_DEVICE_FLAG_ACTIVATED =? 0 then
      result ← drv_init (d_init x) dev;
      if negb (result =? RT_EOK) then mret result else
      _ ← upd_device dev (fun x => dev_flag (Z.lor (d_flag x) RT_DEVICE_FLAG_ACTIVATED) x);
      mret result
    else mret RT_EOK
  else mret RT_EOK.

(** [ref_count] is a byte. *)
Definition rt_device_open (dev oflag : Z) : K Z :=
  _ ← kassert (negb (dev =? RT_NULL));
  x ← get_device dev;
  result ← (if Z.land (d_flag x) RT_DEVICE_FLAG_ACTIVATED =? 0 then
              result ← (if negb (d_init x =? RT_NULL) then drv_init (d_init x) dev else mret RT_EOK);
              if negb (result =? RT_EOK) then mret result else
              _ ← upd_device dev (fun x => dev_flag (Z.lor (d_flag x) RT_DEVICE_FLAG_ACTIVATED) x);
              mret RT_EOK
            else mret RT_EOK);
  if negb (result =? RT_EOK) then mret result else
  x ← get_device dev;
  if negb (Z.land (d_flag x) RT_DEVICE_FLAG_STANDALONE =? 0) &&
     negb (Z.land (d_open_flag x) RT_DEVICE_OFLAG_OPEN =? 0) then mret (- RT_EBUSY) else
  result ← (if negb (d_open x =? RT_NULL) then drv_open (d_open x) dev (u16 oflag) else mret RT_EOK);
  if (result =? RT_EOK) || (result =? - RT_ENOSYS) then
    _ ← upd_device dev (dev_open_flag (Z.lor (u16 oflag) RT_DEVICE_OFLAG_OPEN));
    _ ← upd_device dev (fun x => dev_ref_count (u8 (d_ref_count x + 1)) x);
    x ← get_device dev;
    _ ← kassert (negb (d_ref_count x =? 0));
    mret result
  else mret result.

Definition rt_device_close (dev : Z) : K Z :=
  _ ← kassert (negb (dev =? RT_NULL));
  x ← get_device dev;
  if d_ref_count x =? 0 then mret (- RT_ERROR) else
  _ ← put_device dev (dev_ref_count (d_ref_count x - 1) x);
  if negb (d_ref_count x - 1 =? 0) then mret RT_EOK else
  result ← (if negb (d_close x =? RT_NULL) then drv_close (d_close x) dev else mret RT_EOK);
  _ ← kwhen ((result =? RT_EOK) || (result =? - RT_ENOSYS))
        (upd_device dev (dev_open_flag RT_DEVICE_OFLAG_CLOSE));
  mret result.

Definition rt_device_read (dev pos buffer size : Z) : K Z :=
  _ ← kassert (negb (dev =? RT_NULL));
  x ← get_device dev;
  if d_ref_count x =? 0 then _ ← rt_set_errno (- RT_ERROR); mret 0 else
  if negb (d_read x =? RT_NULL) then drv_read (d_read x) dev pos buffer size else
  _ ← rt_set_errno (- RT_ENOSYS); mret 0.

Definition rt_device_write (dev pos buffer size : Z) : K Z :=
  _ ← kassert (negb (dev =? RT_NULL));
  x ← get_device dev;
  if d_ref_count x =? 0 then _ ← rt_set_errno (- RT_ERROR); mret 0 else
  if negb (d_write x =? RT_NULL) then drv_write (d_write x) dev pos buffer size else
  _ ← rt_set_errno (- RT_ENOSYS); mret 0.

Definition rt_device_control (dev cmd arg : Z) : K Z :=
  _ ← kassert (negb (dev =? RT_NULL));
  x ← get_device dev;
  if negb (d_control x =? RT_NULL) then drv_control (d_control x) dev (u8 cmd) arg else mret RT_EOK.

Definition rt_device_set_rx_indicate (dev rx_ind : Z) : K Z :=
  _ ← kassert (negb (dev =? RT_NULL));
  _ ← upd_device dev (fun x => dev_indicate rx_ind (d_tx_complete x) x);
  mret RT_EOK.

Definition rt_device_set_tx_complete (dev tx_done : Z) : K Z :=
  _ ← kassert (negb (dev =? RT_NULL));
  _ ← upd_device dev (fun x => dev_indicate (d_rx_indicate x) tx_done x);
  mret RT_EOK.

End Drivers.

(** ** Names

    A name is kept in eight bytes, cut or padded with NULs; two names are the same
    when they agree in eight characters. *)

Definition text (t : list Z) : Prop := Forall (fun c => 1 <= c <= 255) t.
Definition field (t : list Z) : list Z := take 8 (t ++ replicate 8 0).
Definition key (t : list Z) : list Z := take 8 t.

Lemma take_nul (n : nat) (a b : list Z) :
  text a -> text b -> take n (a ++ [0]) = take n (b ++ [0]) <-> take n a = take n b.
Proof.
  revert a b. induction n as [|n IH]; intros [|x a] [|y b] Ha Hb; cbn; try done.
  - inversion Hb; subst. split; [intros [= E _]; lia|done].
  - inversion Ha; subst. split; [intros [= E _]; lia|done].
  - inversion Ha; inversion Hb; subst. split; intros [= -> E]; f_equal; by apply IH.
Qed.

(** The comparison reads no more than its count from either string. *)
Lemma strncmp_prefix (n : nat) (sa sa' sb : list Z) (r : Z) :
  take n sa = take n sa' -> Str.strncmp_loop sa sb n r = Str.strncmp_loop sa' sb n r.
Proof.
  revert sa sa' sb r. induction n as [|n IH]; intros [|x sa] [|y sa'] sb r E; cbn in *; try done.
  injection E as -> E. destruct sb as [|z sb]; [done|]. by rewrite (IH sa sa').
Qed.

Lemma strncmp_field (a b sb : list Z) :
  text a -> Str.cstring b sb ->
  exists r, Str.rt_strncmp (field a) sb RT_NAME_MAX = Ok r /\ (r = 0 <-> key a = key b).
Proof.
  intros Ha Hb.
  destruct (Str.rt_strncmp_zero a b (a ++ replicate 8 0) sb 8) as (r & E & Hr); [|done|lia|].
  { split; [done|]. by exists (replicate 7 0). }
  exists r. rewrite Hr. unfold RT_NAME_MAX. split; [|apply take_nul; [done|apply Hb]].
  rewrite <- E. apply strncmp_prefix. unfold field. by rewrite take_take.
Qed.

Lemma length_field (t : list Z) : length (field t) = 8%nat.
Proof. unfold field. rewrite length_take, length_app, length_replicate. lia. Qed.

Lemma strncpy_field (t name old : list Z) :
  Str.cstring t name -> length old = 8%nat -> Str.rt_strncpy old name RT_NAME_MAX = Ok (field t).
Proof.
  intros Hn Hl. unfold RT_NAME_MAX. rewrite (Str.rt_strncpy_ok t) by (done || (rewrite Hl; lia)).
  f_equal. change (take (Z.to_nat 8) (t ++ replicate (Z.to_nat 8) 0)) with (field t).
  unfold Mem.wr. cbn. rewrite list_inserts_0 by (rewrite length_field, Hl; lia).
  rewrite length_field, drop_ge by lia. apply app_nil_r.
Qed.

Lemma wp_get_device (dev : Z) (x : rt_device) (Q : rt_device -> kst -> Prop) (s : kst) :
  i_devices (ip s) !! dev = Some x -> Q x s -> wp (get_device dev) Q s.
Proof. intros E H. unfold get_device. by eapply wp_bind, wp_gets, wp_lift. Qed.

Definition set_device (dev : Z) (x : rt_device) (s : kst) : kst :=
  upd_ip (fun c => with_devices (<[dev := x]> (i_devices c)) c) s.

Lemma set_device_lookup (dev : Z) (x : rt_device) (s : kst) :
  i_devices (ip (set_device dev x s)) !! dev = Some x.
Proof. apply lookup_insert_eq. Qed.

Lemma set_device_twice (dev : Z) (x y : rt_device) (s : kst) :
  set_device dev y (set_device dev x s) = set_device dev y s.
Proof. unfold set_device, upd_ip, with_devices. cbn. by rewrite insert_insert_eq. Qed.

Lemma wp_upd_device (dev : Z) (f : rt_device -> rt_device) (x : rt_device) (Q : unit -> kst -> Prop)
    (s : kst) :
  i_devices (ip s) !! dev = Some x -> Q tt (set_device dev (f x) s) -> wp (upd_device dev f) Q s.
Proof. intros E H. unfold upd_device. kstep. eapply wp_get_device; [exact E|]. by kstep. Qed.

(** ** Critical sections *)

Definition locked (s : kst) : kst :=
  upd_sc (fun c => with_lock_nest (s16 (s_lock_nest c + 1)) c) s.

(** Giving the scheduler's lock back; the last one reschedules. *)
Lemma wp_exit_critical (s : kst) (Q : unit -> kst -> Prop) :
  wf_kst s -> someone_ready (sc s) -> 0 <= s_lock_nest (sc s) < 2 ^ 15 - 1 ->
  (s_lock_nest (sc s) <> 0 -> Q tt s) ->
  (s_lock_nest (sc s) = 0 -> forall s', rescheduled s s' -> wf_kst s' -> Q tt s') ->
  wp rt_exit_critical Q (locked s).
Proof.
  intros W S L H1 H0. unfold rt_exit_critical. do 4 kstep. unfold locked.
  cbn [sc upd_sc s_lock_nest with_lock_nest].
  rewrite (sbits_small 16 (s_lock_nest (sc s) + 1)) by lia.
  replace (s_lock_nest (sc s) + 1 - 1) with (s_lock_nest (sc s)) by lia. rewrite sbits_small by lia.
  assert (E : forall c, with_lock_nest (s_lock_nest c) c = c) by (by intros []).
  assert (Es : upd_sc (fun c => with_lock_nest (s16 (s_lock_nest c - 1)) c)
    (upd_sc (fun c => with_lock_nest (s16 (s_lock_nest c + 1)) c) s) = s).
  { unfold upd_sc, with_lock_nest. cbn. rewrite (sbits_small 16 (_ + 1)) by lia.
    replace (s_lock_nest (sc s) + 1 - 1) with (s_lock_nest (sc s)) by lia. rewrite sbits_small by lia.
    by destruct s as [[] ? ? ? ? ?]. }
  rewrite Es. case_test; [|kstep; apply H1; lia]. do 2 kstep.
  assert (E0 : upd_sc (with_lock_nest 0) s = s).
  { unfold upd_sc. replace 0 with (s_lock_nest (sc s)) by lia. rewrite E. by destruct s. }
  rewrite E0. apply wp_reschedule; [done..|]. apply H0. lia.
Qed.

(** ** The registry *)

(** The device of a name in a table of devices and names, newest first. *)
Fixpoint device_named (tab : list (Z * list Z)) (t : list Z) : option Z :=
  match tab with
  | [] => None
  | (d, u) :: tab => if bool_decide (key u = key t) then Some d else device_named tab t
  end.

Section Registry.
(** The addresses of the device structures of the program. *)
Variable devs : list Z.

Record registry (tab : list (Z * list Z)) (s : kst) : Prop := {
  rg_wf : wf_kst s;
  rg_ready : someone_ready (sc s);
  rg_lock : 0 <= s_lock_nest (sc s) < 2 ^ 15 - 1;
  rg_list : default [] (ob_container (ob s) !! RT_Object_Class_Device) = Obj <$> tab.*1;
  rg_name : forall d t, (d, t) ∈ tab -> d ∈ devs /\ text t /\ o_name <$> ob_objs (ob s) !! Obj d = Some (field t);
  rg_keys : NoDup (key <$> tab.*2);
  rg_devs : forall d, d ∈ devs -> d <> RT_NULL /\ is_Some (i_devices (ip s) !! d) /\
    (forall x, ob_objs (ob s) !! Obj d = Some x -> length (o_name x) = 8%nat) /\
    (d ∉ tab.*1 -> registered (ob s) (Obj d) = false);
}.

Lemma wp_find_loop (tab : list (Z * list Z)) (t name : list Z) (s : kst)
    (Q : option oid -> kst -> Prop) :
  (forall d u, (d, u) ∈ tab -> text u /\ o_name <$> ob_objs (ob s) !! Obj d = Some (field u)) ->
  Str.cstring t name -> Q (Obj <$> device_named tab t) s -> wp (find_loop (Obj <$> tab.*1) name) Q s.
Proof.
  intros Ht Hn HQ. induction tab as [|[d u] tab IH]; cbn in *; [by kstep|].
  destruct (Ht d u ltac:(by left)) as [Hu Hx].
  destruct (ob_objs (ob s) !! Obj d) as [x|] eqn:Ex; [|done]. injection Hx as Hx.
  destruct (strncmp_field u t name Hu Hn) as (r & Er & Hr). rewrite <- Hx in Er.
  kstep. eapply wp_get_object; [exact Ex|]. kstep. unfold lift. rewrite Er. unfold wp at 1. cbn.
  destruct (Z.eqb_spec r 0) as [E|E].
  - kstep. by rewrite bool_decide_true in HQ by (by apply Hr).
  - rewrite bool_decide_false in HQ by tauto. apply IH; [|done]. intros d' u' Hin. apply Ht. by right.
Qed.

(** Looking a name up takes the scheduler's lock and gives it back. *)
Lemma registry_ob (tab : list (Z * list Z)) (s s' : kst) :
  registry tab s -> wf_kst s' -> s_threads (sc s') = s_threads (sc s) ->
  s_lock_nest (sc s') = s_lock_nest (sc s) -> ob s' = ob s -> ip s' = ip s -> registry tab s'.
Proof.
  intros R W E1 E2 E3 E4. destruct R as [R1 R2 R3 R4 R5 R6 R7].
  constructor; rewrite ?E2, ?E3, ?E4; try done. destruct R2 as (u & th & H). exists u, th. by rewrite E1.
Qed.

Lemma wp_unlock (tab : list (Z * list Z)) (s : kst) (Q : unit -> kst -> Prop) :
  registry tab s -> (forall s', registry tab s' -> ob s' = ob s -> ip s' = ip s -> Q tt s') ->
  wp rt_exit_critical Q (locked s).
Proof.
  intros R HQ. apply wp_exit_critical; try apply R; intros L; [by apply HQ|]. intros s' Rs W'.
  destruct (rescheduled_same _ _ Rs) as (E1 & _ & _ & E2 & _ & _ & E3 & E4 & _).
  apply HQ; [|done|done]. by eapply registry_ob.
Qed.

Lemma wp_device_find (tab : list (Z * list Z)) (t name : list Z) (s : kst) (Q : Z -> kst -> Prop) :
  registry tab s -> Str.cstring t name ->
  (forall s', registry tab s' -> ob s' = ob s -> ip s' = ip s ->
     Q (default RT_NULL (device_named tab t)) s') ->
  wp (rt_device_find name) Q s.
Proof.
  intros R Hn HQ. pose proof R as [W S L Rl Rn Rk Rd]. unfold rt_device_find.
  assert (F : forall s1 (f : option oid -> K Z), ob s1 = ob s ->
    wp (f (Obj <$> device_named tab t)) Q s1 ->
    wp (information ← rt_object_get_information RT_Object_Class_Device;
        l ← get_container (information.1); r ← find_loop l name; f r) Q s1).
  { intros s1 f E H1. kstep. eapply wp_lift_ok; [reflexivity|]. kstep. apply wp_gets. kstep. rewrite E.
    cbn [fst]. rewrite Rl. apply (wp_find_loop tab t); [|done|done]. rewrite E. intros d u Hin.
    by destruct (Rn d u Hin) as (_ & ? & ?). }
  assert (Ea : match Obj <$> device_named tab t with Some o => oid_addr o | None => RT_NULL end =
    default RT_NULL (device_named tab t)) by (by destruct (device_named tab t)).
  do 2 kstep. kstep. destruct (Z.eqb_spec (s_current (sc s)) RT_NULL) as [E|E]; cbn [negb kwhen].
  - kstep. apply F; [done|]. do 2 kstep. rewrite E. cbn [negb kwhen Z.eqb RT_NULL]. do 2 kstep.
    kstep. rewrite Ea. by apply HQ.
  - unfold rt_enter_critical. kstep. change (upd_sc _ s) with (locked s). apply F; [done|]. do 2 kstep.
    change (s_current (sc (locked s))) with (s_current (sc s)).
    rewrite (proj2 (Z.eqb_neq _ _) E). cbn [negb kwhen]. kstep. eapply wp_unlock; [exact R|].
    intros s' R' E1 E2. kstep. rewrite Ea. by apply HQ.
Qed.

(** *** Registering *)

(** An object gets a name and enters a container. *)
Lemma wf_kst_object (s : kst) (a : Z) (x : rt_object) (g : gmap Z (list oid) -> gmap Z (list oid)) :
  wf_kst s -> (forall y, ob_objs (ob s) !! Obj a = Some y -> o_flag x = o_flag y) ->
  wf_kst (upd_ob (fun c => Objects (<[Obj a := x]> (ob_objs c)) (g (ob_container c))) s).
Proof.
  intros W Hx. constructor; try apply W; cbn.
  - intros o Ho. pose proof (wk_flag _ W o Ho) as F. destruct (decide (o = Obj a)) as [->|Hne].
    + rewrite lookup_insert_eq. destruct (ob_objs (ob s) !! Obj a) as [y|] eqn:E; [|done].
      cbn in *. unfold active in *. by rewrite (Hx y).
    + by rewrite lookup_insert_ne.
  - intros t th Ht Hc. destruct (wk_timer _ W t th Ht Hc) as (tx & y & H1 & H2 & H3 & H4).
    exists tx, y. by rewrite lookup_insert_ne.
  - intros t y. cbn. rewrite lookup_insert_ne by done. apply (wk_oneshot _ W).
Qed.

Definition named_object (dev : Z) (t : list Z) (s : kst) : kst :=
  let x := RtObject (field t) (Z.lor RT_Object_Class_Device RT_Object_Class_Static)
             (match ob_objs (ob s) !! Obj dev with Some y => o_flag y | None => 0 end) in
  upd_ob (fun c => Objects (<[Obj dev := x]> (ob_objs c))
    (<[RT_Object_Class_Device := Obj dev ::
        default [] (ob_container c !! RT_Object_Class_Device)]> (ob_container c))) s.

Lemma registered_false (c : objects) (o : oid) :
  registered c o = false <-> forall k, o ∉ default [] (ob_container c !! k).
Proof.
  unfold registered. rewrite bool_decide_eq_false. split.
  - intros H k Hin. apply H. destruct (ob_container c !! k) as [x|] eqn:E; [|by apply not_elem_of_nil in Hin].
    by exists k, x.
  - intros H (k & x & E & Hx). apply (H k). by rewrite E.
Qed.

Lemma named_in (tab : list (Z * list Z)) (t : list Z) :
  device_named tab t = None <-> key t ∉ (key <$> tab.*2).
Proof.
  induction tab as [|[d u] tab IH]; cbn; [by set_solver|]. rewrite not_elem_of_cons, <- IH.
  case_bool_decide; naive_solver.
Qed.

Lemma registry_named (tab : list (Z * list Z)) (dev : Z) (t : list Z) (s : kst) :
  registry tab s -> dev ∈ devs -> text t -> device_named tab t = None -> dev ∉ tab.*1 ->
  registry ((dev, t) :: tab) (named_object dev t s).
Proof.
  intros R Hd Ht Hn%named_in Hfree. pose proof R as [W S L Rl Rn Rk Rd]. unfold named_object.
  constructor; try done.
  - apply (wf_kst_object s dev _ (fun c => <[_ := Obj dev :: default [] (c !! _)]> c)); [done|].
    intros y Hy. cbn. by rewrite Hy.
  - cbn. rewrite lookup_insert_eq. cbn. by rewrite Rl.
  - intros d u [[= -> ->]|Hin]%elem_of_cons; cbn.
    + by rewrite lookup_insert_eq.
    + rewrite lookup_insert_ne; [by apply Rn|]. intros [= ->]. apply Hfree.
      by apply (list_elem_of_fmap_2 fst) in Hin.
  - cbn. by constructor.
  - intros d Hd'. destruct (Rd d Hd') as (H1 & H2 & H3 & H4). split_and!; [done|done| |].
    + intros x. cbn. destruct (decide (dev = d)) as [->|Hne].
      * rewrite lookup_insert_eq. intros [= <-]. apply length_field.
      * rewrite lookup_insert_ne by congruence. apply H3.
    + cbn. intros [Hne Hd2]%not_elem_of_cons. specialize (H4 Hd2).
      rewrite registered_false in H4. apply registered_false. intros k. cbn.
      destruct (decide (k = RT_Object_Class_Device)) as [->|Hk].
      * rewrite lookup_insert_eq. cbn. apply not_elem_of_cons. split; [congruence|apply H4].
      * rewrite lookup_insert_ne by done. apply H4.
Qed.

Lemma registry_device (tab : list (Z * list Z)) (dev : Z) (x : rt_device) (s : kst) :
  registry tab s -> registry tab (set_device dev x s).
Proof.
  intros [W S L Rl Rn Rk Rd]. constructor; try done; [by apply wf_kst_ip|].
  intros d Hd. destruct (Rd d Hd) as (H1 & H2 & H3 & H4). split_and!; try done. cbn.
  rewrite lookup_insert_is_Some'. by right.
Qed.

Lemma wp_register (tab : list (Z * list Z)) (dev flags : Z) (t name : list Z) (s : kst)
    (Q : Z -> kst -> Prop) :
  registry tab s -> Str.cstring t name -> dev ∈ devs ->
  (device_named tab t = None -> dev ∉ tab.*1) ->
  (is_Some (device_named tab t) -> forall s', registry tab s' -> Q (- RT_ERROR) s') ->
  (device_named tab t = None -> forall s' x, registry ((dev, t) :: tab) s' ->
     i_devices (ip s') !! dev = Some x -> d_flag x = u16 flags -> d_ref_count x = 0 ->
     d_open_flag x = 0 -> Q RT_EOK s') ->
  wp (rt_device_register dev name flags) Q s.
Proof.
  intros R Hn Hd Hfree H1 H2. unfold rt_device_register.
  destruct (rg_devs _ _ R dev Hd) as (Hnz & [x0 Hx0] & Hlen & Hreg).
  rewrite (proj2 (Z.eqb_neq _ _) Hnz). kstep. eapply wp_device_find; [done..|].
  intros s1 R1 Eo Ei. destruct (device_named tab t) as [d|] eqn:Ef; cbn [default from_option id].
  - assert (Hd0 : d <> RT_NULL).
    { clear -R Ef. pose proof (rg_name _ _ R) as Rn. pose proof (rg_devs _ _ R) as Rd.
      assert (exists u, (d, u) ∈ tab) as [u Hin].
      { clear -Ef. induction tab as [|[e u] tab IH]; [done|]. cbn in Ef. case_bool_decide.
        - injection Ef as ->. exists u. by left.
        - destruct (IH Ef) as [v Hv]. exists v. by right. }
      by apply (Rd d), (Rn d u). }
    rewrite (proj2 (Z.eqb_neq _ _) Hd0). cbn [negb]. kstep. by apply H1.
  - cbn [negb Z.eqb RT_NULL]. specialize (Hreg (Hfree eq_refl)). rewrite <- Eo in Hlen, Hreg.
    kstep. unfold rt_object_init. kstep. eapply wp_lift_ok; [reflexivity|]. do 2 kstep.
    kstep. eapply wp_lift_ok.
    { apply (strncpy_field t); [done|]. destruct (ob_objs (ob s1) !! Obj dev) eqn:E; [by apply Hlen|done]. }
    do 2 kstep. unfold object_link. do 2 kstep.
    assert (Hr : forall y, registered (ob (upd_ob (fun c => Objects (<[Obj dev := y]> (ob_objs c))
      (ob_container c)) s1)) (Obj dev) = false) by done.
    rewrite Hr. kstep. apply wp_gets. apply wp_modify. cbn [fst].
    match goal with |- wp _ _ ?s2 => change s2 with (named_object dev t s1) end.
    pose proof (registry_named tab dev t s1 R1 Hd (proj1 Hn) Ef (Hfree eq_refl)) as R2.
    assert (Hx2 : i_devices (ip (named_object dev t s1)) !! dev = Some x0) by (cbn; by rewrite Ei).
    kstep. eapply wp_upd_device; [exact Hx2|]. kstep. eapply wp_upd_device; [apply set_device_lookup|].
    rewrite set_device_twice. kstep. eapply wp_upd_device; [apply set_device_lookup|].
    rewrite set_device_twice. kstep. eapply H2; [done|by apply registry_device|apply set_device_lookup|..];
    done.
Qed.

Lemma wp_unregister (tab : list (Z * list Z)) (dev : Z) (s : kst) (Q : Z -> kst -> Prop) :
  registry tab s -> dev ∈ tab.*1 ->
  (forall s', registry (filter (fun x => x.1 <> dev) tab) s' -> Q RT_EOK s') ->
  wp (rt_device_unregister dev) Q s.
Proof.
  intros R Hin HQ.
  assert (dev <> RT_NULL /\ is_Some (ob_objs (ob s) !! Obj dev)) as [Hd Hx].
  { apply list_elem_of_fmap in Hin as ([d u] & -> & Hin). destruct (rg_name _ _ R d u Hin) as (Hd & _ & Hx).
    split; [by apply (rg_devs _ _ R d)|]. cbn. by destruct (ob_objs (ob s) !! Obj d). }
  unfold rt_device_unregister, rt_object_detach. kstep.
  kstep; [by apply negb_true_iff, Z.eqb_neq|]. kstep. kstep. kstep; [by apply negb_true_iff, Z.eqb_neq|].
  unfold object_unlink. do 2 kstep. rewrite bool_decide_true by done. kstep. apply HQ. clear Hin Hx.
  destruct R as [W S L Rl Rn Rk Rd]. constructor; try done.
  - by apply wf_kst_container.
  - cbn. rewrite lookup_fmap. destruct (ob_container (ob s) !! RT_Object_Class_Device) as [x|]; cbn in *.
    + subst x. clear. induction tab as [|[d u] tab IH]; [done|]. cbn [fmap list_fmap fst].
      rewrite !filter_cons. cbn [fst]. repeat case_decide; try congruence. cbn. by rewrite IH.
    + destruct tab; [done|done].
  - intros d u [_ Hin]%list_elem_of_filter. by apply Rn.
  - apply (sublist_NoDup _ (key <$> tab.*2)); [done|]. do 2 apply fmap_sublist. apply sublist_filter.
  - intros d Hd'. destruct (Rd d Hd') as (H1 & H2 & H3 & H4). split_and!; try done.
    intros Hn. apply registered_false. intros k. cbn. rewrite lookup_fmap.
    destruct (ob_container (ob s) !! k) as [x|] eqn:E; cbn; [|apply not_elem_of_nil].
    rewrite list_elem_of_filter. intros [Hne Hin].
    assert (Hd2 : d ∉ tab.*1).
    { intros ([e u] & -> & Hin')%list_elem_of_fmap. apply Hn. cbn. apply (list_elem_of_fmap_2 fst _ (e, u)).
      apply list_elem_of_filter. split; [|done]. cbn. intros ->. by apply Hne. }
    specialize (H4 Hd2). rewrite registered_false in H4. apply (H4 k). by rewrite E.
Qed.

(** *** The registry as a table *)

Inductive reg_op := RRegister (dev : Z) (t : list Z) (flags : Z) | RUnregister (dev : Z) | RFind (t : list Z).

Definition run_reg_op (op : reg_op) : K Z :=
  match op with
  | RRegister dev t flags => rt_device_register dev (t ++ [0]) flags
  | RUnregister dev => rt_device_unregister dev
  | RFind t => rt_device_find (t ++ [0])
  end.

(** The specification; [None]: a device that is in the table is registered again, or one
    that is not there is unregistered. *)
Definition table_op (op : reg_op) (tab : list (Z * list Z)) : option (Z * list (Z * list Z)) :=
  match op with
  | RRegister dev t _ =>
      match device_named tab t with
      | Some _ => Some (- RT_ERROR, tab)
      | None => if bool_decide (dev ∈ tab.*1) then None else Some (RT_EOK, (dev, t) :: tab)
      end
  | RUnregister dev =>
      if bool_decide (dev ∈ tab.*1) then Some (RT_EOK, filter (fun x => x.1 <> dev) tab) else None
  | RFind t => Some (default RT_NULL (device_named tab t), tab)
  end.

Definition reg_op_ok (op : reg_op) : Prop :=
  match op with
  | RRegister dev t _ => dev ∈ devs /\ text t
  | RUnregister _ => True
  | RFind t => text t
  end.

Fixpoint run_reg_ops (ops : list reg_op) : K (list Z) :=
  match ops with
  | [] => mret []
  | op :: ops => r ← run_reg_op op; rs ← run_reg_ops ops; mret (r :: rs)
  end.

Fixpoint table_ops (ops : list reg_op) (tab : list (Z * list Z))
  : option (list Z * list (Z * list Z)) :=
  match ops with
  | [] => Some ([], tab)
  | op :: ops => '(r, tab) ← table_op op tab; '(rs, tab) ← table_ops ops tab; Some (r :: rs, tab)
  end.

Lemma wp_run_reg_op (op : reg_op) (tab tab' : list (Z * list Z)) (r : Z) (s : kst) :
  registry tab s -> reg_op_ok op -> table_op op tab = Some (r, tab') ->
  wp (run_reg_op op) (fun r' s' => r' = r /\ registry tab' s') s.
Proof.
  intros R Ok E. assert (C : forall t, text t -> Str.cstring t (t ++ [0])) by (split; [done|by exists []]).
  destruct op as [dev t flags|dev|t]; cbn in *.
  - destruct Ok as [Hd Ht].
    apply (wp_register tab dev flags t); [done|by apply C|done|..]; intros En.
    + rewrite En in E. by case_bool_decide.
    + destruct En as [d En]. rewrite En in E. simplify_eq. intros s' R'. done.
    + rewrite En in E. case_bool_decide; [done|]. simplify_eq. by intros s' x R'.
  - case_bool_decide; [|done]. simplify_eq. by eapply wp_unregister.
  - simplify_eq. eapply wp_device_find; [done|by apply C|auto].
Qed.

(** C35: refinement.  Every sequence of registering, unregistering and finding devices,
    in which no device is registered twice at once and only registered devices are
    unregistered (for others see [unregister_unknown]), gives the results of a table of
    names: a name (its first eight characters) is refused exactly while another device
    has it, and finding it gives the device that was registered with it. *)
Theorem device_registry_refines_table (ops : list reg_op) (tab tab' : list (Z * list Z))
    (rs : list Z) (s : kst) :
  registry tab s -> Forall reg_op_ok ops -> table_ops ops tab = Some (rs, tab') ->
  wp (run_reg_ops ops) (fun rs' s' => rs' = rs /\ registry tab' s') s.
Proof.
  revert tab rs s. induction ops as [|op ops IH]; intros tab rs s R Ok E; cbn [run_reg_ops table_ops] in *.
  - simplify_eq. by kstep.
  - apply Forall_cons in Ok as [Ok1 Ok].
    destruct (table_op op tab) as [[r tab1]|] eqn:E1; cbn in E; [|done].
    destruct (table_ops ops tab1) as [[rs1 tab2]|] eqn:E2; cbn in E; [|done]. simplify_eq.
    kstep. eapply wp_mono; [by apply (wp_run_reg_op op tab tab1 r)|]. intros r' s1 [-> R1].
    kstep. eapply wp_mono; [by apply (IH tab1 rs1)|]. intros rs' s2 [-> R2]. by kstep.
Qed.

End Registry.

(** ** Opening and closing *)

Ltac dfields := cbn [d_ref_count d_open_flag d_flag dev_ref_count dev_open_flag dev_flag].

Section Life.
Context `{Driver}.

(** The functions of the driver succeed (or are not there), and leave the device
    structures to the common interface. *)
Definition fine (r : Z) : Prop := r = RT_EOK \/ r = - RT_ENOSYS.
Hypothesis init_fine : forall f dev s,
  wp (drv_init f dev) (fun r s' => r = RT_EOK /\ i_devices (ip s') = i_devices (ip s)) s.
Hypothesis open_fine : forall f dev oflag s,
  wp (drv_open f dev oflag) (fun r s' => fine r /\ i_devices (ip s') = i_devices (ip s)) s.
Hypothesis close_fine : forall f dev s,
  wp (drv_close f dev) (fun r s' => fine r /\ i_devices (ip s') = i_devices (ip s)) s.

(** The device is open [n] times; a stand-alone device at most once. *)
Record device_open (dev : Z) (alone : bool) (n : Z) (s : kst) : Prop := {
  vo_dev : exists x, i_devices (ip s) !! dev = Some x /\ d_ref_count x = n /\
    (Z.land (d_open_flag x) RT_DEVICE_OFLAG_OPEN =? 0) = (n =? 0) /\
    negb (Z.land (d_flag x) RT_DEVICE_FLAG_STANDALONE =? 0) = alone;
  vo_count : 0 <= n;
}.

Lemma open_bit (o : Z) : (Z.land (Z.lor o RT_DEVICE_OFLAG_OPEN) RT_DEVICE_OFLAG_OPEN =? 0) = false.
Proof.
  apply Z.eqb_neq. rewrite Z.land_lor_distr_l, Z.land_diag. intros [_ E]%Z.lor_eq_0_iff. done.
Qed.

Lemma alone_bit (f : Z) :
  Z.land (Z.lor f RT_DEVICE_FLAG_ACTIVATED) RT_DEVICE_FLAG_STANDALONE = Z.land f RT_DEVICE_FLAG_STANDALONE.
Proof. rewrite Z.land_lor_distr_l. apply Z.lor_0_r. Qed.

(** The part of [rt_device_open] that calls the driver and counts. *)
Lemma wp_device_open (dev oflag n : Z) (alone : bool) (s : kst) (Q : Z -> kst -> Prop) :
  dev <> RT_NULL -> device_open dev alone n s -> n < 255 ->
  (alone = true -> 0 < n -> forall s', device_open dev alone n s' -> Q (- RT_EBUSY) s') ->
  (alone = false \/ n = 0 -> forall r s', fine r -> device_open dev alone (n + 1) s' -> Q r s') ->
  wp (rt_device_open dev oflag) Q s.
Proof.
  intros Hd [(x & Hx & En & Eo & Ea) Hn] Hlt H1 H2. unfold rt_device_open.
  kstep. kstep; [by apply negb_true_iff, Z.eqb_neq|]. kstep. eapply wp_get_device; [exact Hx|].
  kstep. eapply (wp_mono _ (fun r s1 => r = RT_EOK /\ exists x1, i_devices (ip s1) !! dev = Some x1 /\
    d_ref_count x1 = n /\ d_open_flag x1 = d_open_flag x /\ d_open x1 = d_open x /\
    Z.land (d_flag x1) RT_DEVICE_FLAG_STANDALONE = Z.land (d_flag x) RT_DEVICE_FLAG_STANDALONE)).
  { destruct (Z.land (d_flag x) RT_DEVICE_FLAG_ACTIVATED =? 0); [|kstep; split; [done|by exists x]].
    kstep. eapply (wp_mono _ (fun r s1 => r = RT_EOK /\ i_devices (ip s1) !! dev = Some x)).
    - destruct (negb (d_init x =? RT_NULL)); [|by kstep]. eapply wp_mono; [apply init_fine|].
      intros r s1 [-> E]. by rewrite E.
    - intros r s1 [-> E]. cbn [negb Z.eqb RT_EOK]. kstep. eapply wp_upd_device; [exact E|]. kstep.
      split; [done|]. eexists. split; [apply set_device_lookup|]. cbn. by rewrite alone_bit. }
  intros r s1 (-> & x1 & Hx1 & En1 & Eo1 & Ep1 & Ea1). cbn [negb Z.eqb RT_EOK].
  kstep. eapply wp_get_device; [exact Hx1|]. rewrite Ea1, Eo1, Ea, Eo.
  assert (D1 : device_open dev alone n s1).
  { constructor; [|done]. exists x1. by rewrite Eo1, Ea1. }
  destruct (alone && negb (n =? 0)) eqn:Eb.
  { kstep. b2p. destruct alone; [|done]. apply H1; [done|lia|done]. }
  assert (Hok : alone = false \/ n = 0) by (destruct alone; [right; cbn in Eb; b2p; lia|by left]).
  kstep. eapply (wp_mono _ (fun r s2 => fine r /\ i_devices (ip s2) !! dev = Some x1)).
  { destruct (negb (d_open x1 =? RT_NULL)).
    - eapply wp_mono; [apply open_fine|]. intros r s2 [F E]. by rewrite E.
    - kstep. split; [by left|done]. }
  intros r s2 [F Hx2].
  assert (Er : (r =? RT_EOK) || (r =? - RT_ENOSYS) = true) by (by destruct F as [->| ->]).
  rewrite Er. kstep. eapply wp_upd_device; [exact Hx2|].
  kstep. eapply wp_upd_device; [apply set_device_lookup|]. rewrite set_device_twice.
  kstep. eapply wp_get_device; [apply set_device_lookup|]. dfields. rewrite En1, (ubits_small 8) by lia.
  kstep. kstep; [by apply negb_true_iff, Z.eqb_neq; lia|]. kstep. apply H2; [done|done|].
  constructor; [|lia]. eexists. split; [apply set_device_lookup|]. dfields.
  rewrite open_bit, Ea1, Ea. split_and!; try done.
  symmetry. apply Z.eqb_neq. lia.
Qed.

Lemma wp_device_close (dev n : Z) (alone : bool) (s : kst) (Q : Z -> kst -> Prop) :
  dev <> RT_NULL -> device_open dev alone n s ->
  (n = 0 -> Q (- RT_ERROR) s) ->
  (0 < n -> forall r s', fine r -> device_open dev alone (n - 1) s' -> Q r s') ->
  wp (rt_device_close dev) Q s.
Proof.
  intros Hd [(x & Hx & En & Eo & Ea) Hn] H1 H2. unfold rt_device_close.
  kstep. kstep; [by apply negb_true_iff, Z.eqb_neq|]. kstep. eapply wp_get_device; [exact Hx|].
  rewrite En. destruct (Z.eqb_spec n 0) as [E0|E0]; [kstep; by apply H1|]. do 2 kstep.
  change (upd_ip _ s) with (set_device dev (dev_ref_count (n - 1) x) s).
  destruct (Z.eqb_spec (n - 1) 0) as [E1|E1]; cbn [negb].
  - kstep. eapply (wp_mono _ (fun r s2 => fine r /\
      i_devices (ip s2) !! dev = Some (dev_ref_count (n - 1) x))).
    { destruct (negb (d_close x =? RT_NULL)).
      - eapply wp_mono; [apply close_fine|]. intros r s2 [F E]. rewrite E. by rewrite set_device_lookup.
      - kstep. split; [by left|apply set_device_lookup]. }
    intros r s2 [F Hx2].
    assert (Er : (r =? RT_EOK) || (r =? - RT_ENOSYS) = true) by (by destruct F as [->| ->]).
    rewrite Er. cbn [kwhen]. kstep. eapply wp_upd_device; [exact Hx2|]. kstep. apply H2; [lia|done|].
    constructor; [|lia]. eexists. split; [apply set_device_lookup|]. cbn. by rewrite E1.
  - kstep. apply H2; [lia|by left|]. constructor; [|lia]. eexists. split; [apply set_device_lookup|].
    cbn. split_and!; try done. rewrite Eo.
    symmetry. by apply Z.eqb_neq.
Qed.

Inductive life_op := LOpen (oflag : Z) | LClose.

Definition run_life_op (dev : Z) (op : life_op) : K Z :=
  match op with LOpen oflag => rt_device_open dev oflag | LClose => rt_device_close dev end.

Fixpoint run_life_ops (dev : Z) (ops : list life_op) : K (list Z) :=
  match ops with
  | [] => mret []
  | op :: ops => r ← run_life_op dev op; rs ← run_life_ops dev ops; mret (r :: rs)
  end.

(** What a call may return on a device that is open [n] times, and how often it is open
    afterwards. *)
Definition life_step (alone : bool) (n : Z) (op : life_op) : (Z -> Prop) * Z :=
  match op with
  | LOpen _ => if alone && (0 <? n) then (fun r => r = - RT_EBUSY, n) else (fine, n + 1)
  | LClose => if n =? 0 then (fun r => r = - RT_ERROR, n) else (fine, n - 1)
  end.

Fixpoint life_steps (alone : bool) (n : Z) (ops : list life_op) : list (Z -> Prop) * Z :=
  match ops with
  | [] => ([], n)
  | op :: ops => let '(p, n) := life_step alone n op in
      let '(ps, n) := life_steps alone n ops in (p :: ps, n)
  end.

Lemma wp_run_life_op (dev n : Z) (alone : bool) (op : life_op) (s : kst) :
  dev <> RT_NULL -> device_open dev alone n s -> n < 255 ->
  wp (run_life_op dev op) (fun r s' => (life_step alone n op).1 r /\
    device_open dev alone (life_step alone n op).2 s') s.
Proof.
  intros Hd D Hn. pose proof (vo_count _ _ _ _ D). destruct op as [oflag|]; cbn [run_life_op life_step].
  - eapply wp_device_open; [done..| |].
    + intros -> Hp s' D'. rewrite (proj2 (Z.ltb_lt 0 n)) by done. done.
    + intros Ho r s' F D'. assert (Eb : alone && (0 <? n) = false); [|by rewrite Eb].
      destruct Ho as [->| ->]; [done|]. by destruct alone.
  - eapply wp_device_close; [done..| |].
    + intros ->. done.
    + intros Hp r s' F D'. by rewrite (proj2 (Z.eqb_neq n 0)) by lia.
Qed.

(** The life of a device.  With drivers that succeed, in every sequence of opening
    and closing a device the reference count is the number of openings that were not
    closed yet, and the device is marked open exactly while that is not zero; closing a
    device that is not open fails, and so does opening a stand-alone device twice. *)
Theorem device_opens_counted (dev n : Z) (alone : bool) (ops : list life_op) (s : kst) :
  dev <> RT_NULL -> device_open dev alone n s -> n + Z.of_nat (length ops) <= 255 ->
  wp (run_life_ops dev ops) (fun rs s' =>
    Forall2 (fun (p : Z -> Prop) r => p r) (life_steps alone n ops).1 rs /\
    device_open dev alone (life_steps alone n ops).2 s') s.
Proof.
  revert n s. induction ops as [|op ops IH]; intros n s Hd D Hn; cbn [run_life_ops life_steps length] in *.
  - kstep. by split.
  - kstep. eapply wp_mono; [apply (wp_run_life_op dev n alone op); [done|done|lia]|].
    intros r s1 [P D1].
    assert (Hm : (life_step alone n op).2 <= n + 1).
    { destruct op; cbn; repeat case_match; cbn; lia. }
    destruct (life_step alone n op) as [p m]. cbn [fst snd] in *.
    kstep. eapply wp_mono; [apply (IH m); [done|done|lia]|]. intros rs s2 [F D2].
    kstep. destruct (life_steps alone m ops) as [ps k]. cbn [fst snd] in *. split; [by constructor|done].
Qed.

End Life.

(** ** Samples *)

Definition uart : Z := 0x20008000.
Definition flash : Z := 0x20008100.

(** A device structure whose functions are all there; a stand-alone one. *)
Definition a_device (flag : Z) : rt_device := RtDevice flag 0 0 0 0 1 2 3 4 5 6.

Definition with_devices_2 : kst :=
  after (_ ← put_device uart (a_device 0); put_device flash (a_device RT_DEVICE_FLAG_STANDALONE)) running.

Lemma empty_registry : registry [uart; flash] [] with_devices_2.
Proof.
  constructor.
  - apply wf_check. evaluate.
  - exists main_t. destruct (s_threads (sc with_devices_2) !! main_t) as [th|] eqn:E.
    + exists th. split; [reflexivity|]. assert (F : t_stat <$> s_threads (sc with_devices_2) !! main_t =
        Some RT_THREAD_READY) by evaluate. rewrite E in F. by injection F.
    + assert (F : is_Some (s_threads (sc with_devices_2) !! main_t)) by (vm_compute; eauto).
      rewrite E in F. by destruct F.
  - vm_compute. split; [discriminate|reflexivity].
  - evaluate.
  - intros d t H. by apply not_elem_of_nil in H.
  - constructor.
  - intros d [->|[->|H]%elem_of_cons]%elem_of_cons; [| |by apply not_elem_of_nil in H].
    + split_and!; [discriminate|vm_compute; eauto| |intros _; evaluate].
      intros x E. assert (F : ob_objs (ob with_devices_2) !! Obj uart = None) by evaluate. congruence.
    + split_and!; [discriminate|vm_compute; eauto| |intros _; evaluate].
      intros x E. assert (F : ob_objs (ob with_devices_2) !! Obj flash = None) by evaluate. congruence.
Qed.

Definition name_uart1 : list Z := [117; 97; 114; 116; 49].

Lemma device_registry_refines_table_witness :
  wp (run_reg_ops [RRegister uart name_uart1 3; RRegister flash name_uart1 3; RFind name_uart1;
        RUnregister uart; RFind name_uart1; RRegister flash name_uart1 3; RFind name_uart1])
    (fun rs _ => rs = [RT_EOK; - RT_ERROR; uart; RT_EOK; RT_NULL; RT_EOK; flash]) with_devices_2.
Proof.
  eapply wp_mono; [eapply (device_registry_refines_table [uart; flash] _ [] _ _ with_devices_2)|].
  - exact empty_registry.
  - repeat constructor; try lia; try discriminate.
  - evaluate.
  - intros rs s' [R _]. exact R.
Defined.

Definition quiet : Driver := {|
  drv_init _ _ := mret RT_EOK; drv_open _ _ _ := mret RT_EOK; drv_close _ _ := mret (- RT_ENOSYS);
  drv_read _ _ _ _ _ := mret 0; drv_write _ _ _ _ _ := mret 0; drv_control _ _ _ _ := mret RT_EOK |}.

Lemma device_opens_counted_witness :
  wp (@run_life_ops quiet flash [LOpen 3; LOpen 3; LClose; LClose; LOpen 3]) (fun rs s' =>
    device_open flash true 1 s' /\ rs !! 1%nat = Some (- RT_EBUSY) /\ rs !! 3%nat = Some (- RT_ERROR))
    with_devices_2.
Proof.
  assert (E : i_devices (ip with_devices_2) !! flash = Some (a_device RT_DEVICE_FLAG_STANDALONE)) by evaluate.
  eapply wp_mono; [apply (@device_opens_counted quiet) with (n := 0) (alone := true)|].
  - intros f dev s. cbn. kstep. split; reflexivity.
  - intros f dev o s. cbn. kstep. split; [left|]; reflexivity.
  - intros f dev s. cbn. kstep. split; [right|]; reflexivity.
  - discriminate.
  - constructor; [|lia]. eexists. split; [exact E|]. split; [reflexivity|]. split; reflexivity.
  - cbn. lia.
  - intros rs s' [F D]. split; [exact D|]. cbn in F.
    inversion F as [|? ? ? ? P1 F1]; subst. inversion F1 as [|? ? ? ? P2 F2]; subst.
    inversion F2 as [|? ? ? ? P3 F3]; subst. inversion F3 as [|? ? ? ? P4 F4]; subst.
    split; [exact eq_refl|exact eq_refl].
Defined.

(** A driver whose close function fails: the device is not open any more and marked
    open for good, so that it can neither be closed nor opened again. *)
Definition stubborn : Driver := {|
  drv_init _ _ := mret RT_EOK; drv_open _ _ _ := mret RT_EOK; drv_close _ _ := mret (- RT_ERROR);
  drv_read _ _ _ _ _ := mret 0; drv_write _ _ _ _ _ := mret 0; drv_control _ _ _ _ := mret RT_EOK |}.

Example close_failure_sticks :
  match @run_life_ops stubborn flash [LOpen 3; LClose; LClose; LOpen 3] with_devices_2 with
  | Ok (rs, _) => rs = [RT_EOK; - RT_ERROR; - RT_ERROR; - RT_EBUSY]
  | _ => False
  end.
Proof. vm_compute. reflexivity. Qed.

(** A device that was never registered has no links yet to be taken out of a list. *)
Example unregister_unknown : rt_device_unregister flash with_devices_2 = Fault.
Proof. vm_compute. reflexivity. Qed.
