(* ===== verification/Serial.v ===== *)
(** * The serial framework (DeviceDrivers/serial.c)

    A serial device stands between the device interface of device.c and a driver that
    moves single characters, by polling, by interrupts or by DMA.  [serial_rx] and
    [serial_tx] point to what the mode of each direction needs, a block of the heap whose
    type only the mode tells: reading it as another one is a [Fault] here.  The
    functions of the driver are the interface [UartOps] on a state of their own; the
    functions that are told of characters are known by their addresses.

    A buffer is what it holds; for DMA its address is passed on. *)

From Stdlib Require Import Lia.
From S2P Require Import Prelude KService Heap KState Scheduler Object Timer Thread Invariant Sample Ipc Completion DataQueue Device.

Definition RT_DEVICE_FLAG_SUSPENDED : Z := 0x020.
Definition RT_DEVICE_FLAG_STREAM : Z := 0x040.
Definition RT_DEVICE_FLAG_INT_RX : Z := 0x100.
Definition RT_DEVICE_FLAG_DMA_RX : Z := 0x200.
Definition RT_DEVICE_FLAG_INT_TX : Z := 0x400.
Definition RT_DEVICE_FLAG_DMA_TX : Z := 0x800.
Definition RT_DEVICE_CTRL_RESUME : Z := 0x01.
Definition RT_DEVICE_CTRL_SUSPEND : Z := 0x02.
Definition RT_DEVICE_CTRL_CONFIG : Z := 0x03.
Definition RT_DEVICE_CTRL_SET_INT : Z := 0x10.
Definition RT_DEVICE_CTRL_CLR_INT : Z := 0x11.
Definition RT_SERIAL_EVENT_RX_IND : Z := 1.
Definition RT_SERIAL_EVENT_TX_DONE : Z := 2.
Definition RT_SERIAL_EVENT_RX_DMADONE : Z := 3.
Definition RT_SERIAL_EVENT_TX_DMADONE : Z := 4.
Definition RT_SERIAL_DMA_RX : Z := 1.
Definition RT_SERIAL_DMA_TX : Z := 2.
Definition RT_EIO : Z := 8.

(** The functions of a driver ([struct rt_uart_ops]); [uart_configure] may be missing. *)
Class UartOps (U : Type) := {
  uart_configure : option (Z -> ST U Z);
  uart_control : Z -> Z -> ST U Z;
  uart_putc : Z -> ST U Z;
  uart_getc : ST U Z;
  uart_dma_transmit : Z -> Z -> Z -> ST U Z }.

(** What [serial_rx] and [serial_tx] point to.  The completion of a transmit fifo and the
    data queue of a DMA are kernel objects at an address in the block. *)
Inductive sblock :=
| RxFifo (buffer : list Z) (put_index get_index : Z)
| TxFifo
| RxDma (activated : bool)
| TxDma (activated : bool).

Definition SIZEOF_RX_FIFO : Z := 8.
Definition SIZEOF_TX_FIFO : Z := 12.
Definition SIZEOF_RX_DMA : Z := 4.
Definition SIZEOF_TX_DMA : Z := 40.
Definition tx_completion (tx : Z) : Z := tx.
Definition tx_data_queue (tx : Z) : Z := tx + 4.

Record rt_serial_device := RtSerial { s_bufsz : Z; serial_rx : Z; serial_tx : Z }.

Section Serial.
Context {U : Type} {UO : UartOps U}.

Record sstate := SState { s_dev : rt_serial_device; s_blocks : gmap Z sblock; s_uart : U; s_kst : kst }.

Definition with_dev (d : rt_serial_device) (s : sstate) : sstate := SState d (s_blocks s) (s_uart s) (s_kst s).
Definition with_blocks (b : gmap Z sblock) (s : sstate) : sstate := SState (s_dev s) b (s_uart s) (s_kst s).
Definition with_uart (u : U) (s : sstate) : sstate := SState (s_dev s) (s_blocks s) u (s_kst s).
Definition with_kst (k : kst) (s : sstate) : sstate := SState (s_dev s) (s_blocks s) (s_uart s) k.

Definition on_uart {A} (m : ST U A) : ST sstate A := fun s =>
  match m (s_uart s) with Ok (a, u) => Ok (a, with_uart u s) | AssertFail => AssertFail | Fault => Fault end.
Definition on_kernel {A} (m : K A) : ST sstate A := fun s =>
  match m (s_kst s) with Ok (a, k) => Ok (a, with_kst k s) | AssertFail => AssertFail | Fault => Fault end.

Definition set_rx (p : Z) : ST sstate unit :=
  modify (fun s => with_dev (RtSerial (s_bufsz (s_dev s)) p (serial_tx (s_dev s))) s).
Definition set_tx (p : Z) : ST sstate unit :=
  modify (fun s => with_dev (RtSerial (s_bufsz (s_dev s)) (serial_rx (s_dev s)) p) s).

Definition get_block (p : Z) : ST sstate sblock := b ← gets s_blocks; lift (deref (b !! p)).
Definition put_block (p : Z) (x : sblock) : ST sstate unit := modify (fun s => with_blocks (<[p := x]> (s_blocks s)) s).
Definition get_rx_fifo (p : Z) : ST sstate (list Z * Z * Z) :=
  b ← get_block p; match b with RxFifo l put get => mret (l, put, get) | _ => kfault end.
Definition get_rx_dma (p : Z) : ST sstate bool := b ← get_block p; match b with RxDma a => mret a | _ => kfault end.
Definition get_tx_dma (p : Z) : ST sstate bool := b ← get_block p; match b with TxDma a => mret a | _ => kfault end.

Definition rt_malloc_block (size : Z) (x : sblock) : ST sstate Z :=
  p ← on_kernel (RT_KERNEL_MALLOC size);
  _ ← kassert (negb (p =? RT_NULL));
  _ ← put_block p x; mret p.
Definition rt_free_block (p : Z) : ST sstate unit :=
  _ ← kassert (negb (p =? RT_NULL));
  _ ← on_kernel (RT_KERNEL_FREE p); modify (fun s => with_blocks (delete p (s_blocks s)) s).

(** The address of the device, which is that of its parent; the functions that can be
    told: address, device, argument; and those of data queues. *)
Variable serial : Z.
Variable call_indicate : Z -> Z -> Z -> K Z.
Variable call_notify : Z -> Z -> Z -> K unit.

Definition parent : ST sstate rt_device := on_kernel (get_device serial).
Definition has (flag x : Z) : bool := negb (Z.land x flag =? 0).
Definition upd_parent (f : rt_device -> rt_device) : ST sstate unit := on_kernel (upd_device serial f).

(** ** Polling *)

Fixpoint _serial_poll_rx (length : nat) : ST sstate (list Z) :=
  match length with
  | O => mret []
  | S length =>
      ch ← on_uart uart_getc;
      if ch =? -1 then mret [] else
      if ch =? 10 then mret [u8 ch] else
      data ← _serial_poll_rx length; mret (u8 ch :: data)
  end.

Fixpoint poll_tx_loop (data : list Z) : ST sstate unit :=
  match data with
  | [] => mret tt
  | c :: data =>
      x ← parent;
      _ ← (if (c =? 10) && has RT_DEVICE_FLAG_STREAM (d_open_flag x) then _ ← on_uart (uart_putc 13); mret tt else mret tt);
      _ ← on_uart (uart_putc c);
      poll_tx_loop data
  end.
Definition _serial_poll_tx (data : list Z) : ST sstate Z := _ ← poll_tx_loop data; mret (Z.of_nat (length data)).

(** ** Interrupts *)

(** What [_serial_int_rx] does with interrupts disabled. *)
Definition rx_take (rx_fifo : Z) : ST sstate (option Z) :=
  '(buffer, put_index, get_index) ← get_rx_fifo rx_fifo;
  bufsz ← gets (fun s => s_bufsz (s_dev s));
  if negb (get_index =? put_index) then
    ch ← lift (load_at buffer get_index);
    let get_index := u16 (get_index + 1) in
    _ ← put_block rx_fifo (RxFifo buffer put_index (if bufsz <=? get_index then 0 else get_index));
    mret (Some ch)
  else mret None.

Fixpoint int_rx_loop (rx_fifo : Z) (length : nat) : ST sstate (list Z) :=
  match length with
  | O => mret []
  | S length =>
      ch ← rx_take rx_fifo;
      match ch with
      | Some ch => data ← int_rx_loop rx_fifo length; mret (Z.land ch 0xff :: data)
      | None => mret []
      end
  end.
Definition _serial_int_rx (length : nat) : ST sstate (list Z) :=
  rx_fifo ← gets (fun s => serial_rx (s_dev s));
  _ ← kassert (negb (rx_fifo =? RT_NULL));
  int_rx_loop rx_fifo length.

(** The characters that are left, and the thread that waits. *)
Record int_tx_k := IntTxK { it_size : Z; it_tx : Z; it_data : list Z; it_thread : Z }.

Fixpoint int_tx_loop (fuel : nat) (size tx : Z) (data : list Z) : ST sstate (outcome Z int_tx_k) :=
  match fuel with
  | O => hang
  | S fuel =>
      match data with
      | [] => mret (Return size)
      | c :: rest =>
          r ← on_uart (uart_putc c);
          if r =? -1 then
            o ← on_kernel (rt_completion_wait (tx_completion tx) RT_WAITING_FOREVER);
            match o with
            | Return _ => int_tx_loop fuel size tx data
            | Wait thread => mret (Wait (IntTxK size tx data thread))
            end
          else int_tx_loop fuel size tx rest
      end
  end.
Definition _serial_int_tx (fuel : nat) (data : list Z) : ST sstate (outcome Z int_tx_k) :=
  tx ← gets (fun s => serial_tx (s_dev s));
  _ ← kassert (negb (tx =? RT_NULL));
  int_tx_loop fuel (Z.of_nat (length data)) tx data.
Definition _serial_int_tx_resume (fuel : nat) (k : int_tx_k) : ST sstate (outcome Z int_tx_k) :=
  _ ← on_kernel (rt_completion_wait_resume (tx_completion (it_tx k)) (it_thread k));
  int_tx_loop fuel (it_size k) (it_tx k) (it_data k).

(** ** DMA *)

Definition _serial_dma_rx (data length : Z) : ST sstate Z :=
  _ ← kassert (negb (data =? RT_NULL));
  rx_dma ← gets (fun s => serial_rx (s_dev s));
  _ ← kassert (negb (rx_dma =? RT_NULL));
  activated ← get_rx_dma rx_dma;
  if negb activated then
    _ ← put_block rx_dma (RxDma true);
    _ ← on_uart (uart_dma_transmit data length RT_SERIAL_DMA_RX);
    mret length
  else _ ← on_kernel (rt_set_errno (- RT_EBUSY)); mret 0.

Record dma_tx_k := DmaTxK { dt_tx : Z; dt_data : Z; dt_length : Z; dt_push : dq_push_k }.

(** Behind [rt_data_queue_push]. *)
Definition dma_tx_pushed (tx data length : Z) (o : outcome Z dq_push_k) : ST sstate (outcome Z dma_tx_k) :=
  match o with
  | Wait k => mret (Wait (DmaTxK tx data length k))
  | Return result =>
      if result =? RT_EOK then
        activated ← get_tx_dma tx;
        if negb activated then
          _ ← put_block tx (TxDma true);
          _ ← on_uart (uart_dma_transmit data length RT_SERIAL_DMA_TX);
          mret (Return length)
        else mret (Return length)
      else _ ← on_kernel (rt_set_errno result); mret (Return 0)
  end.
Definition _serial_dma_tx (data length : Z) : ST sstate (outcome Z dma_tx_k) :=
  tx ← gets (fun s => serial_tx (s_dev s));
  o ← on_kernel (rt_data_queue_push call_notify (tx_data_queue tx) data length RT_WAITING_FOREVER);
  dma_tx_pushed tx data length o.
Definition _serial_dma_tx_resume (k : dma_tx_k) : ST sstate (outcome Z dma_tx_k) :=
  o ← on_kernel (rt_data_queue_push_resume call_notify (dt_push k));
  dma_tx_pushed (dt_tx k) (dt_data k) (dt_length k) o.

(** ** The device *)

Definition rt_serial_init (config : Z) : ST sstate Z :=
  _ ← set_rx RT_NULL; _ ← set_tx RT_NULL;
  match uart_configure with Some configure => on_uart (configure config) | None => mret RT_EOK end.

(** A mode that is asked for and that the device does not have. *)
Definition mode_missing (oflag flag mode : Z) : bool := has mode oflag && negb (has mode flag).

Definition open_rx (oflag : Z) : ST sstate unit :=
  rx ← gets (fun s => serial_rx (s_dev s));
  if negb (rx =? RT_NULL) then mret tt else
  if has RT_DEVICE_FLAG_DMA_RX oflag then
    p ← rt_malloc_block SIZEOF_RX_DMA (RxDma false);
    _ ← set_rx p;
    upd_parent (fun x => dev_open_flag (Z.lor (d_open_flag x) RT_DEVICE_FLAG_DMA_RX) x)
  else if has RT_DEVICE_FLAG_INT_RX oflag then
    bufsz ← gets (fun s => s_bufsz (s_dev s));
    p ← rt_malloc_block (SIZEOF_RX_FIFO + bufsz) (RxFifo (replicate (Z.to_nat bufsz) 0) 0 0);
    _ ← set_rx p;
    _ ← upd_parent (fun x => dev_open_flag (Z.lor (d_open_flag x) RT_DEVICE_FLAG_INT_RX) x);
    _ ← on_uart (uart_control RT_DEVICE_CTRL_SET_INT RT_DEVICE_FLAG_INT_RX); mret tt
  else set_rx RT_NULL.

(** [items]: what the memory of the data queue holds. *)
Definition open_tx (oflag : Z) (items : list (Z * Z)) : ST sstate unit :=
  tx ← gets (fun s => serial_tx (s_dev s));
  if negb (tx =? RT_NULL) then mret tt else
  if has RT_DEVICE_FLAG_DMA_TX oflag then
    p ← rt_malloc_block SIZEOF_TX_DMA (TxDma false);
    _ ← on_kernel (rt_data_queue_init (tx_data_queue p) 8 4 RT_NULL items);
    _ ← set_tx p;
    upd_parent (fun x => dev_open_flag (Z.lor (d_open_flag x) RT_DEVICE_FLAG_DMA_TX) x)
  else if has RT_DEVICE_FLAG_INT_TX oflag then
    p ← rt_malloc_block SIZEOF_TX_FIFO TxFifo;
    _ ← on_kernel (rt_completion_init (tx_completion p));
    _ ← set_tx p;
    _ ← upd_parent (fun x => dev_open_flag (Z.lor (d_open_flag x) RT_DEVICE_FLAG_INT_TX) x);
    _ ← on_uart (uart_control RT_DEVICE_CTRL_SET_INT RT_DEVICE_FLAG_INT_TX); mret tt
  else set_tx RT_NULL.

Definition rt_serial_open (oflag : Z) (items : list (Z * Z)) : ST sstate Z :=
  x ← parent;
  let missing := mode_missing oflag (d_flag x) in
  if missing RT_DEVICE_FLAG_DMA_RX || missing RT_DEVICE_FLAG_DMA_TX ||
     missing RT_DEVICE_FLAG_INT_RX || missing RT_DEVICE_FLAG_INT_TX then mret (- RT_EIO) else
  _ ← upd_parent (dev_open_flag (Z.land oflag 0xff));
  _ ← open_rx oflag;
  _ ← open_tx oflag items;
  mret RT_EOK.

(** A mode is no longer open. *)
Definition clear_mode (flag : Z) : ST sstate unit :=
  upd_parent (fun x => dev_open_flag (Z.land (d_open_flag x) (u16 (Z.lnot flag))) x).

(** Each branch takes its block from where the code takes it. *)
Definition close_rx : ST sstate unit :=
  x ← parent;
  if has RT_DEVICE_FLAG_INT_RX (d_open_flag x) then
    rx_fifo ← gets (fun s => serial_rx (s_dev s));
    _ ← rt_free_block rx_fifo;
    _ ← set_rx RT_NULL;
    _ ← clear_mode RT_DEVICE_FLAG_INT_RX;
    _ ← on_uart (uart_control RT_DEVICE_CTRL_CLR_INT RT_DEVICE_FLAG_INT_TX); mret tt
  else if has RT_DEVICE_FLAG_DMA_RX (d_open_flag x) then
    rx_dma ← gets (fun s => serial_tx (s_dev s));
    _ ← rt_free_block rx_dma;
    _ ← set_rx RT_NULL;
    clear_mode RT_DEVICE_FLAG_DMA_RX
  else mret tt.
Definition close_tx : ST sstate unit :=
  x ← parent;
  if has RT_DEVICE_FLAG_INT_TX (d_open_flag x) then
    tx_fifo ← gets (fun s => serial_rx (s_dev s));
    _ ← rt_free_block tx_fifo;
    _ ← set_tx RT_NULL;
    _ ← clear_mode RT_DEVICE_FLAG_INT_TX;
    _ ← on_uart (uart_control RT_DEVICE_CTRL_CLR_INT RT_DEVICE_FLAG_INT_TX); mret tt
  else if has RT_DEVICE_FLAG_DMA_TX (d_open_flag x) then
    tx_dma ← gets (fun s => serial_tx (s_dev s));
    _ ← rt_free_block tx_dma;
    _ ← set_tx RT_NULL;
    clear_mode RT_DEVICE_FLAG_DMA_TX
  else mret tt.
Definition rt_serial_close : ST sstate Z :=
  x ← parent;
  if 1 <? d_ref_count x then mret RT_EOK else
  _ ← close_rx; _ ← close_tx; mret RT_EOK.

(** The characters that are read, or the number that DMA is to bring. *)
Definition rt_serial_read (buffer : Z) (size : Z) : ST sstate (list Z + Z) :=
  if size =? 0 then mret (inl []) else
  x ← parent;
  if has RT_DEVICE_FLAG_INT_RX (d_open_flag x) then data ← _serial_int_rx (Z.to_nat size); mret (inl data) else
  if has RT_DEVICE_FLAG_DMA_RX (d_open_flag x) then n ← _serial_dma_rx buffer size; mret (inr n) else
  data ← _serial_poll_rx (Z.to_nat size); mret (inl data).

Definition rt_serial_write (fuel : nat) (buffer : Z) (data : list Z) : ST sstate (outcome Z (int_tx_k + dma_tx_k)) :=
  if Z.of_nat (length data) =? 0 then mret (Return 0) else
  x ← parent;
  if has RT_DEVICE_FLAG_INT_TX (d_open_flag x) then
    o ← _serial_int_tx fuel data; mret (match o with Return n => Return n | Wait k => Wait (inl k) end) else
  if has RT_DEVICE_FLAG_DMA_TX (d_open_flag x) then
    o ← _serial_dma_tx buffer (Z.of_nat (length data)); mret (match o with Return n => Return n | Wait k => Wait (inr k) end) else
  n ← _serial_poll_tx data; mret (Return n).

Definition rt_serial_control (cmd args : Z) : ST sstate Z :=
  _ ← (if cmd =? RT_DEVICE_CTRL_SUSPEND then
         upd_parent (fun x => dev_flag (Z.lor (d_flag x) RT_DEVICE_FLAG_SUSPENDED) x)
       else if cmd =? RT_DEVICE_CTRL_RESUME then
         upd_parent (fun x => dev_flag (Z.land (d_flag x) (u16 (Z.lnot RT_DEVICE_FLAG_SUSPENDED))) x)
       else if cmd =? RT_DEVICE_CTRL_CONFIG then
         match uart_configure with Some configure => _ ← on_uart (configure args); mret tt | None => kfault end
       else _ ← on_uart (uart_control cmd args); mret tt);
  mret RT_EOK.

(** The addresses of the functions above are [fns]. *)
Definition rt_hw_serial_register (fns : rt_device) (name : list Z) (flag : Z) : ST sstate Z :=
  _ ← kassert (negb (serial =? RT_NULL));
  _ ← upd_parent (fun x => RtDevice (d_flag x) (d_open_flag x) (d_ref_count x) RT_NULL RT_NULL
        (d_init fns) (d_open fns) (d_close fns) (d_read fns) (d_write fns) (d_control fns));
  on_kernel (rt_device_register serial name flag).

(** ** The interrupt *)

(** What it does with a character with interrupts disabled. *)
Definition rx_store (rx_fifo ch : Z) : ST sstate unit :=
  '(buffer, put_index, get_index) ← get_rx_fifo rx_fifo;
  bufsz ← gets (fun s => s_bufsz (s_dev s));
  buffer ← lift (store_at buffer put_index (u8 ch));
  let put_index := u16 (put_index + 1) in
  let put_index := if bufsz <=? put_index then 0 else put_index in
  let get_index := if put_index =? get_index then
                     let get_index := u16 (get_index + 1) in if bufsz <=? get_index then 0 else get_index
                   else get_index in
  put_block rx_fifo (RxFifo buffer put_index get_index).

Fixpoint isr_loop (fuel : nat) (rx_fifo : Z) : ST sstate unit :=
  match fuel with
  | O => hang
  | S fuel =>
      ch ← on_uart uart_getc;
      if ch =? -1 then mret tt else _ ← rx_store rx_fifo ch; isr_loop fuel rx_fifo
  end.

Definition rx_length (rx_fifo : Z) : ST sstate Z :=
  '(_, put_index, get_index) ← get_rx_fifo rx_fifo;
  bufsz ← gets (fun s => s_bufsz (s_dev s));
  mret (if get_index <=? put_index then put_index - get_index else bufsz - (get_index - put_index)).

Definition isr_rx_ind (fuel : nat) : ST sstate unit :=
  rx_fifo ← gets (fun s => serial_rx (s_dev s));
  _ ← kassert (negb (rx_fifo =? RT_NULL));
  _ ← isr_loop fuel rx_fifo;
  x ← parent;
  if negb (d_rx_indicate x =? RT_NULL) then
    n ← rx_length rx_fifo; _ ← on_kernel (call_indicate (d_rx_indicate x) serial n); mret tt
  else mret tt.

Definition isr_tx_dmadone : ST sstate unit :=
  tx ← gets (fun s => serial_tx (s_dev s));
  o ← on_kernel (rt_data_queue_pop call_notify (tx_data_queue tx) 0);
  last ← (match o with Return (_, last, _) => mret last | Wait _ => kfault end);
  '(result, next) ← on_kernel (rt_data_queue_peak (tx_data_queue tx));
  _ ← get_tx_dma tx;
  _ ← (if result =? RT_EOK then
         '(ptr, size) ← lift (deref next);
         _ ← put_block tx (TxDma true); _ ← on_uart (uart_dma_transmit ptr size RT_SERIAL_DMA_TX); mret tt
       else put_block tx (TxDma false));
  x ← parent;
  if negb (d_tx_complete x =? RT_NULL) then
    last ← lift (deref last); _ ← on_kernel (call_indicate (d_tx_complete x) serial (last.1)); mret tt
  else mret tt.

Definition rt_hw_serial_isr (fuel : nat) (event : Z) : ST sstate unit :=
  let e := Z.land event 0xff in
  if e =? RT_SERIAL_EVENT_RX_IND then isr_rx_ind fuel else
  if e =? RT_SERIAL_EVENT_TX_DONE then
    tx ← gets (fun s => serial_tx (s_dev s)); on_kernel (rt_completion_done (tx_completion tx))
  else if e =? RT_SERIAL_EVENT_TX_DMADONE then isr_tx_dmadone
  else if e =? RT_SERIAL_EVENT_RX_DMADONE then
    rx_dma ← gets (fun s => serial_rx (s_dev s));
    x ← parent;
    _ ← (if d_rx_indicate x =? RT_NULL then kfault else mret tt);
    _ ← on_kernel (call_indicate (d_rx_indicate x) serial (Z.shiftr (Z.land event (Z.lnot 0xff)) 8));
    _ ← get_rx_dma rx_dma;
    put_block rx_dma (RxDma false)
  else mret tt.

End Serial.

(** ** The receive fifo

    A queue of at most [bufsz - 1] characters that loses the oldest ones when more
    arrive. *)

(** The last characters there is room for. *)
Definition keep (b : Z) (l : list Z) : list Z := drop (length l - Z.to_nat (b - 1)) l.

Record fifo_ok (b : Z) (buffer : list Z) (put_index get_index : Z) : Prop := {
  fi_size : 0 < b < 2 ^ 16;
  fi_length : Z.of_nat (length buffer) = b;
  fi_put : 0 <= put_index < b;
  fi_get : 0 <= get_index < b }.

Definition fifo_level (b put_index get_index : Z) : nat := Z.to_nat ((put_index - get_index) mod b).

(** [x] is a fifo that holds [l]. *)
Definition fifo (b : Z) (x : sblock) (l : list Z) : Prop :=
  exists buffer put_index get_index, x = RxFifo buffer put_index get_index /\ fifo_ok b buffer put_index get_index /\
    l = ring 0 buffer b get_index (fifo_level b put_index get_index).

Lemma keep_short (b : Z) (l : list Z) : Z.of_nat (length l) < b -> keep b l = l.
Proof. intros H. unfold keep. replace (length l - Z.to_nat (b - 1))%nat with 0%nat by lia. done. Qed.

Lemma length_keep (b : Z) (l : list Z) : 0 < b -> Z.of_nat (length (keep b l)) < b.
Proof. intros H. unfold keep. rewrite length_drop. lia. Qed.

Lemma keep_app (b : Z) (l m : list Z) : 0 < b -> keep b (keep b l ++ m) = keep b (l ++ m).
Proof.
  intros H. unfold keep. rewrite !length_app, length_drop. set (n := Z.to_nat (b - 1)).
  rewrite !drop_app, drop_drop, !length_drop. f_equal; f_equal; lia.
Qed.

(** The next place, around the end. *)
Lemma next_index (b i : Z) : 0 < b < 2 ^ 16 -> 0 <= i < b -> (if b <=? u16 (i + 1) then 0 else u16 (i + 1)) = (i + 1) mod b.
Proof.
  intros Hb Hi. rewrite (ubits_small 16) by lia. destruct (Z.leb_spec b (i + 1)).
  - replace (i + 1) with b by lia. by rewrite Z.mod_same by lia.
  - by rewrite Z.mod_small by lia.
Qed.

Lemma level_put (b put_index get_index : Z) : 0 < b -> 0 <= put_index < b -> 0 <= get_index < b ->
  put_index = (get_index + Z.of_nat (fifo_level b put_index get_index)) mod b.
Proof.
  intros Hb Hp Hg. unfold fifo_level. rewrite Z2Nat.id by (apply Z.mod_pos_bound; lia).
  rewrite Zplus_mod_idemp_r. replace (get_index + (put_index - get_index)) with put_index by lia. by rewrite Z.mod_small.
Qed.

Lemma level_bound (b put_index get_index : Z) : 0 < b -> Z.of_nat (fifo_level b put_index get_index) < b.
Proof. intros Hb. unfold fifo_level. pose proof (Z.mod_pos_bound (put_index - get_index) b Hb). lia. Qed.

Lemma level_zero (b put_index get_index : Z) : 0 < b -> 0 <= put_index < b -> 0 <= get_index < b ->
  fifo_level b put_index get_index = 0%nat <-> put_index = get_index.
Proof.
  intros Hb Hp Hg. pose proof (level_put b put_index get_index Hb Hp Hg) as E. split.
  - intros L. rewrite L, Z.add_0_r, Z.mod_small in E by lia. done.
  - intros ->. unfold fifo_level. by rewrite Z.sub_diag, Z.mod_0_l by lia.
Qed.

Lemma level_add (b get_index : Z) (n : nat) : 0 < b -> 0 <= get_index < b -> Z.of_nat n < b ->
  fifo_level b ((get_index + Z.of_nat n) mod b) get_index = n.
Proof.
  intros Hb Hg Hn. unfold fifo_level. rewrite Zminus_mod_idemp_l. replace (get_index + Z.of_nat n - get_index) with (Z.of_nat n) by lia.
  rewrite Z.mod_small by lia. lia.
Qed.

(** A character is stored, and the oldest one goes when there was no room. *)
Lemma fifo_store (b : Z) buffer put_index get_index (c : Z) : fifo_ok b buffer put_index get_index ->
  let put' := (put_index + 1) mod b in
  let get' := if put' =? get_index then (get_index + 1) mod b else get_index in
  fifo b (RxFifo (<[Z.to_nat put_index := c]> buffer) put' get')
    (keep b (ring 0 buffer b get_index (fifo_level b put_index get_index) ++ [c])).
Proof.
  intros [Hs Hl Hp Hg] put' get'. set (n := fifo_level b put_index get_index).
  pose proof (level_put b put_index get_index ltac:(lia) Hp Hg) as Ep. fold n in Ep.
  pose proof (level_bound b put_index get_index ltac:(lia)) as Ln. fold n in Ln.
  pose proof (ring_push 0 buffer b get_index c n Hl Ln) as R. rewrite <- Ep in R. rewrite <- R.
  assert (E' : put' = (get_index + Z.of_nat (S n)) mod b).
  { unfold put'. rewrite Ep, Zplus_mod_idemp_l. f_equal. lia. }
  pose proof (Z.mod_pos_bound (put_index + 1) b ltac:(lia)) as B1. pose proof (Z.mod_pos_bound (get_index + 1) b ltac:(lia)) as B2.
  exists (<[Z.to_nat put_index := c]> buffer), put', get'. split; [done|]. split.
  { split; [done|by rewrite length_insert|done|]. unfold get'. by destruct (put' =? get_index). }
  unfold keep. rewrite length_ring. unfold get'. clear get'. destruct (Z.eqb_spec put' get_index) as [E|E].
  - assert (Sn : Z.of_nat (S n) = b).
    { destruct (Z.eq_dec (Z.of_nat (S n)) b) as [|Ne]; [done|]. exfalso.
      assert (put' = get_index + Z.of_nat (S n) \/ put' = get_index + Z.of_nat (S n) - b) as [H|H]; [|lia..].
      rewrite E'. destruct (Z_lt_le_dec (get_index + Z.of_nat (S n)) b); [left; apply Z.mod_small; lia|right].
      symmetry. apply Z.mod_unique with 1; lia. }
    replace (S n - Z.to_nat (b - 1))%nat with 1%nat by lia. cbn [ring drop].
    assert (Lv : fifo_level b put' ((get_index + 1) mod b) = n).
    { replace put' with (((get_index + 1) mod b + Z.of_nat n) mod b).
      - apply level_add; lia.
      - rewrite E', Zplus_mod_idemp_l. f_equal. lia. }
    rewrite Lv. symmetry. by apply ring_mod; lia.
  - assert (Sn : Z.of_nat (S n) < b).
    { destruct (Z_lt_le_dec (Z.of_nat (S n)) b) as [|Ge]; [done|]. exfalso. apply E. rewrite E'.
      replace (Z.of_nat (S n)) with (1 * b) by lia. by rewrite Z.mod_add, Z.mod_small by lia. }
    replace (S n - Z.to_nat (b - 1))%nat with 0%nat by lia. rewrite drop_0. f_equal. rewrite E'. symmetry. by apply level_add; lia.
Qed.

(** What is asked of the hardware: [getc] gives what has arrived, in order, and -1 when
    there is nothing. *)
Class UartLaws (U : Type) {UO : UartOps U} := {
  uart_pending : U -> list Z;
  uart_arrive : list Z -> U -> U;
  uart_arrive_ok cs u : uart_pending (uart_arrive cs u) = uart_pending u ++ cs;
  uart_getc_ok u : wp uart_getc (fun c u' =>
    match uart_pending u with [] => c = -1 /\ uart_pending u' = [] | c' :: l => c = c' /\ uart_pending u' = l end) u }.

Section Receive.
Context {U : Type} {UO : UartOps U} {UL : UartLaws U}.
Variable serial : Z.
Variable call_indicate : Z -> Z -> Z -> K Z.
Variable call_notify : Z -> Z -> Z -> K unit.

(** The function that is told of characters leaves the devices alone. *)
Hypothesis indicate_ok : forall f dev n k, wp (call_indicate f dev n) (fun _ k' => i_devices (ip k') = i_devices (ip k)) k.

Abbreviation sst := (@sstate U).
Implicit Types (s : sst) (l cs : list Z).

(** The device is open for reading by interrupts, [l] has been received, and [x] is its
    parent. *)
Record receives s l (x : rt_device) : Prop := {
  rc_null : serial_rx (s_dev s) <> RT_NULL;
  rc_fifo : exists b, s_blocks s !! serial_rx (s_dev s) = Some b /\ fifo (s_bufsz (s_dev s)) b l;
  rc_parent : i_devices (ip (s_kst s)) !! serial = Some x;
  rc_mode : has RT_DEVICE_FLAG_INT_RX (d_open_flag x) = true;
  rc_bytes : Forall (fun c => 0 <= c < 256) l }.

Lemma wp_on_uart {A} (m : ST U A) s (Q : A -> sst -> Prop) : wp m (fun a u => Q a (with_uart u s)) (s_uart s) -> wp (on_uart m) Q s.
Proof. unfold wp, on_uart. by destruct (m _) as [[a u]| |]. Qed.
Lemma wp_on_kernel {A} (m : K A) s (Q : A -> sst -> Prop) : wp m (fun a k => Q a (with_kst k s)) (s_kst s) -> wp (on_kernel m) Q s.
Proof. unfold wp, on_kernel. by destruct (m _) as [[a k]| |]. Qed.

Lemma wp_parent s l x (Q : rt_device -> sst -> Prop) : receives s l x -> Q x s -> wp (parent serial) Q s.
Proof. intros R H. apply wp_on_kernel. eapply wp_get_device; [apply (rc_parent _ _ _ R)|]. by destruct s. Qed.

Lemma wp_get_rx_fifo p buffer put_index get_index s (Q : list Z * Z * Z -> sst -> Prop) :
  s_blocks s !! p = Some (RxFifo buffer put_index get_index) -> Q (buffer, put_index, get_index) s -> wp (get_rx_fifo p) Q s.
Proof. intros E H. unfold get_rx_fifo, get_block. do 3 wstep. eapply wp_lift_ok; [by rewrite E|]. cbv beta iota. by wstep. Qed.

Definition with_fifo (x : sblock) s : sst := with_blocks (<[serial_rx (s_dev s) := x]> (s_blocks s)) s.

Lemma receives_fifo s l l' x y : receives s l x -> fifo (s_bufsz (s_dev s)) y l' -> Forall (fun c => 0 <= c < 256) l' -> receives (with_fifo y s) l' x.
Proof. intros [] F B. split; try done. exists y. split; [apply lookup_insert_eq|done]. Qed.

Lemma keep_bytes (b : Z) l : Forall (fun c => 0 <= c < 256) l -> Forall (fun c => 0 <= c < 256) (keep b l).
Proof. apply Forall_drop. Qed.

Lemma wp_rx_store s l x c (Q : unit -> sst -> Prop) : receives s l x -> 0 <= c < 256 ->
  (forall s', s_uart s' = s_uart s -> s_dev s' = s_dev s -> receives s' (keep (s_bufsz (s_dev s)) (l ++ [c])) x -> Q tt s') ->
  wp (rx_store (serial_rx (s_dev s)) c) Q s.
Proof.
  intros R Hc H. destruct (rc_fifo _ _ _ R) as (b & Eb & buffer & p & g & -> & F & El). pose proof F as [Hs Hl Hp Hg].
  unfold rx_store. wstep. eapply wp_get_rx_fifo; [exact Eb|]. cbv beta iota. do 3 wstep. rewrite (ubits_small 8) by lia.
  eapply wp_lift_ok; [apply store_at_ok; lia|]. rewrite !next_index by lia. unfold put_block. wstep.
  apply H; [done|done|]. eapply receives_fifo; [exact R| |].
  - rewrite El. by apply fifo_store.
  - apply keep_bytes. rewrite Forall_app, Forall_singleton. split; [apply (rc_bytes _ _ _ R)|done].
Qed.

Lemma wp_rx_take s l x (Q : option Z -> sst -> Prop) : receives s l x ->
  match l with
  | [] => Q None s
  | c :: l => forall s', s_uart s' = s_uart s -> s_dev s' = s_dev s -> receives s' l x -> Q (Some c) s'
  end -> wp (rx_take (serial_rx (s_dev s))) Q s.
Proof.
  intros R H. destruct (rc_fifo _ _ _ R) as (b & Eb & buffer & p & g & -> & F & El). pose proof F as [Hs Hl Hp Hg].
  unfold rx_take. wstep. eapply wp_get_rx_fifo; [exact Eb|]. cbv beta iota. do 2 wstep.
  pose proof (level_zero (s_bufsz (s_dev s)) p g ltac:(lia) Hp Hg) as L0. destruct (Z.eqb_spec g p) as [E|E]; cbn [negb].
  - wstep. rewrite (proj2 L0 (eq_sym E)) in El. by subst l.
  - destruct l as [|c l].
    { symmetry in El. apply (f_equal length) in El. rewrite length_ring in El. by apply L0 in El. }
    symmetry in El. destruct (ring_pop 0 buffer _ g c _ l Hl ltac:(lia) El) as (Hc & Hn & El'). rewrite Z.mod_small in Hc by lia.
    wstep. eapply wp_lift_ok; [apply load_at_ok; [lia|exact Hc]|]. rewrite next_index by lia. unfold put_block. do 3 wstep.
    apply H; [done|done|]. eapply receives_fifo; [exact R| |by pose proof (rc_bytes _ _ _ R) as B; inversion B].
    pose proof (Z.mod_pos_bound (g + 1) (s_bufsz (s_dev s)) ltac:(lia)) as B1.
    exists buffer, p, ((g + 1) mod s_bufsz (s_dev s)). split; [done|]. split; [by split|].
    rewrite <- El'. rewrite <- ring_mod by lia. f_equal. symmetry.
    pose proof (level_put (s_bufsz (s_dev s)) p g ltac:(lia) Hp Hg) as Ep. pose proof (level_bound (s_bufsz (s_dev s)) p g ltac:(lia)) as Ln.
    generalize dependent (fifo_level (s_bufsz (s_dev s)) p g). intros n L0 El Hn El' Ep Ln.
    replace p with (((g + 1) mod s_bufsz (s_dev s) + Z.of_nat (pred n)) mod s_bufsz (s_dev s)).
    + apply level_add; lia.
    + rewrite Ep, Zplus_mod_idemp_l. f_equal. lia.
Qed.

Lemma isr_loop_ok (fuel : nat) x : forall cs s l (Q : unit -> sst -> Prop), receives s l x -> uart_pending (s_uart s) = cs ->
  Forall (fun c => 0 <= c < 256) cs -> (length cs < fuel)%nat ->
  (forall s', uart_pending (s_uart s') = [] -> s_dev s' = s_dev s -> receives s' (keep (s_bufsz (s_dev s)) (l ++ cs)) x -> Q tt s') ->
  wp (isr_loop fuel (serial_rx (s_dev s))) Q s.
Proof.
  induction fuel as [|fuel IH]; intros cs s l Q R Ep F Hf H; [lia|]. cbn [isr_loop]. wstep. apply wp_on_uart.
  assert (Hb : 0 < s_bufsz (s_dev s)) by (destruct (rc_fifo _ _ _ R) as (b & _ & ? & ? & ? & _ & [] & _); lia).
  assert (Rk : receives s (keep (s_bufsz (s_dev s)) l) x).
  { rewrite keep_short; [done|]. destruct (rc_fifo _ _ _ R) as (b & _ & ? & p & g & _ & _ & ->). rewrite length_ring. by apply level_bound. }
  eapply wp_mono; [apply uart_getc_ok|]. rewrite Ep. cbn beta. intros c u Hc. destruct cs as [|c' cs].
  - destruct Hc as [-> Eu]. cbn [Z.eqb Z.opp Pos.eqb]. wstep. apply H; [done|done|]. rewrite app_nil_r. destruct Rk; by split.
  - destruct Hc as [-> Eu]. apply Forall_cons in F as [Fc Fs]. rewrite (proj2 (Z.eqb_neq c' (-1))) by lia. wstep.
    change (serial_rx (s_dev s)) with (serial_rx (s_dev (with_uart u s))).
    eapply (wp_rx_store _ l x); [destruct R; by split|done|]. intros s1 E1 D1 R1. cbn [s_dev with_uart] in *.
    rewrite <- D1. eapply (IH cs); [exact R1|by rewrite E1; cbn|done|cbn in Hf; lia|]. intros s2 E2 D2 R2. apply H; [done|by rewrite D2, D1|].
    rewrite D1 in R2. rewrite keep_app, <- app_assoc in R2 by done. exact R2.
Qed.

Lemma wp_rx_length s l x (Q : Z -> sst -> Prop) : receives s l x -> Q (Z.of_nat (length l)) s -> wp (rx_length (serial_rx (s_dev s))) Q s.
Proof.
  intros R H. destruct (rc_fifo _ _ _ R) as (b & Eb & buffer & p & g & -> & [Hs Hl Hp Hg] & El).
  unfold rx_length. wstep. eapply wp_get_rx_fifo; [exact Eb|]. cbv beta iota. do 3 wstep.
  rewrite El, length_ring in H. unfold fifo_level in H. rewrite Z2Nat.id in H by (apply Z.mod_pos_bound; lia).
  destruct (Z.leb_spec g p); [by rewrite Z.mod_small in H by lia|].
  replace (s_bufsz (s_dev s) - (g - p)) with ((p - g) mod s_bufsz (s_dev s)); [done|].
  symmetry. apply Z.mod_unique with (-1); lia.
Qed.

(** The receive interrupt takes all that has arrived, and tells how much there is. *)
Lemma isr_rx_ind_ok (fuel : nat) s l cs x (Q : unit -> sst -> Prop) : receives s l x -> uart_pending (s_uart s) = cs ->
  Forall (fun c => 0 <= c < 256) cs -> (length cs < fuel)%nat ->
  (forall s', uart_pending (s_uart s') = [] -> s_dev s' = s_dev s -> receives s' (keep (s_bufsz (s_dev s)) (l ++ cs)) x -> Q tt s') ->
  wp (rt_hw_serial_isr serial call_indicate call_notify fuel RT_SERIAL_EVENT_RX_IND) Q s.
Proof.
  intros R Ep F Hf H. change (wp (isr_rx_ind serial call_indicate fuel) Q s). unfold isr_rx_ind. do 3 wstep.
  wstep; [apply negb_true_iff, Z.eqb_neq, (rc_null _ _ _ R)|]. wstep. eapply isr_loop_ok; [exact R|done|done|done|].
  intros s1 E1 D1 R1. wstep. eapply wp_parent; [exact R1|]. destruct (d_rx_indicate x =? RT_NULL); cbn [negb]; [wstep; by apply H|].
  rewrite <- D1. wstep. eapply wp_rx_length; [exact R1|]. wstep. apply wp_on_kernel. eapply wp_mono; [apply indicate_ok|].
  cbn beta. intros r k Ek. wstep. apply H; [done|done|]. destruct R1. rewrite <- D1 in *. split; try done. cbn. by rewrite Ek.
Qed.

(** Reading takes the oldest characters. *)
Lemma int_rx_loop_ok (n : nat) x : forall s l (Q : list Z -> sst -> Prop), receives s l x ->
  (forall s', s_uart s' = s_uart s -> s_dev s' = s_dev s -> receives s' (drop n l) x -> Q (take n l) s') ->
  wp (int_rx_loop (serial_rx (s_dev s)) n) Q s.
Proof.
  induction n as [|n IH]; intros s l Q R H; cbn [int_rx_loop]; [wstep; by apply H|].
  wstep. eapply wp_rx_take; [exact R|]. destruct l as [|c l]; [wstep; by apply H|].
  intros s1 E1 D1 R1. wstep. rewrite <- D1. eapply IH; [exact R1|]. intros s2 E2 D2 R2. wstep.
  pose proof (rc_bytes _ _ _ R) as B. inversion B as [|? ? Bc _]; subst.
  change 0xff with (Z.ones 8). rewrite Z.land_ones, Z.mod_small by lia. apply H; [by rewrite E2|by rewrite D2|done].
Qed.

Lemma serial_read_ok (buffer n : Z) s l x (Q : list Z + Z -> sst -> Prop) : receives s l x -> 0 <= n ->
  (forall s', s_uart s' = s_uart s -> s_dev s' = s_dev s -> receives s' (drop (Z.to_nat n) l) x -> Q (inl (take (Z.to_nat n) l)) s') ->
  wp (rt_serial_read serial buffer n) Q s.
Proof.
  intros R Hn H. unfold rt_serial_read. destruct (Z.eqb_spec n 0) as [->|N]; [wstep; by apply H|].
  wstep. eapply wp_parent; [exact R|]. rewrite (rc_mode _ _ _ R). wstep. unfold _serial_int_rx. do 3 wstep.
  wstep; [apply negb_true_iff, Z.eqb_neq, (rc_null _ _ _ R)|]. eapply int_rx_loop_ok; [exact R|]. intros s1 E1 D1 R1. wstep. by apply H.
Qed.

(** ** The stream of characters

    Characters arrive and interrupt; a thread takes characters one by one, and can be
    interrupted between any two, or reads as many as there are up to a number. *)

Inductive event := Interrupt (cs : list Z) | Take | Read (n : Z).

Definition happens (fuel : nat) (e : event) : ST sst (list Z) :=
  match e with
  | Interrupt cs =>
      _ ← modify (fun s : sst => with_uart (uart_arrive cs (s_uart s)) s);
      _ ← rt_hw_serial_isr serial call_indicate call_notify fuel RT_SERIAL_EVENT_RX_IND; mret []
  | Take => p ← gets (fun s : sst => serial_rx (s_dev s)); c ← rx_take p; mret (match c with Some c => [c] | None => [] end)
  | Read n => r ← rt_serial_read serial 0 n; mret (match r with inl l => l | inr _ => [] end)
  end.
Fixpoint happen (fuel : nat) (es : list event) : ST sst (list Z) :=
  match es with [] => mret [] | e :: es => a ← happens fuel e; b ← happen fuel es; mret (a ++ b) end.

(** What is read, and what is left, of a queue that keeps less than [b]. *)
Fixpoint stream_of (b : Z) (l : list Z) (es : list event) : list Z * list Z :=
  match es with
  | [] => ([], l)
  | Interrupt cs :: es => stream_of b (keep b (l ++ cs)) es
  | Take :: es => let '(out, l') := stream_of b (drop 1 l) es in (take 1 l ++ out, l')
  | Read n :: es => let '(out, l') := stream_of b (drop (Z.to_nat n) l) es in (take (Z.to_nat n) l ++ out, l')
  end.

Definition event_ok (fuel : nat) (e : event) : Prop :=
  match e with
  | Interrupt cs => Forall (fun c => 0 <= c < 256) cs /\ (length cs < fuel)%nat
  | Take => True
  | Read n => 0 <= n
  end.

(** C13: however interrupts that bring characters, and the characters a thread takes, follow
    each other, the device is a queue of characters that keeps the newest [bufsz - 1]:
    nothing asserts, faults or hangs, what is read is what has arrived, in order and
    once, and only what there was no room for is lost. *)
Theorem serial_rx_refines_queue (fuel : nat) (es : list event) s l x : receives s l x -> uart_pending (s_uart s) = [] ->
  Forall (event_ok fuel) es ->
  wp (happen fuel es) (fun out s' => out = fst (stream_of (s_bufsz (s_dev s)) l es) /\
    receives s' (snd (stream_of (s_bufsz (s_dev s)) l es)) x /\ s_dev s' = s_dev s) s.
Proof.
  intros R Ep F. revert s l R Ep. induction F as [|e es He F IH]; intros s l R Ep; cbn [happen stream_of]; [by wstep|].
  wstep. enough (wp (happens fuel e) (fun out s1 => uart_pending (s_uart s1) = [] /\ s_dev s1 = s_dev s /\ exists l1, receives s1 l1 x /\
      stream_of (s_bufsz (s_dev s)) l (e :: es) = (out ++ fst (stream_of (s_bufsz (s_dev s)) l1 es), snd (stream_of (s_bufsz (s_dev s)) l1 es))) s) as W.
  { eapply wp_mono; [exact W|]. cbn beta. intros out s1 (P1 & D1 & l1 & R1 & E). cbn [stream_of] in E. rewrite E. wstep.
    eapply wp_mono; [apply (IH s1 l1 R1 P1)|]. cbn beta. rewrite D1. intros out2 s2 (-> & R2 & D2). by wstep. }
  destruct e as [cs| |n]; cbn [happens].
  - destruct He as [Hb Hf]. do 3 wstep. eapply (isr_rx_ind_ok fuel _ l cs x); [destruct R; by split|cbn; by rewrite uart_arrive_ok, Ep|done|done|].
    intros s1 P1 D1 R1. wstep. split; [done|]. split; [done|]. eexists. split; [exact R1|]. cbn. by destruct (stream_of _ _ es).
  - do 3 wstep. eapply wp_rx_take; [exact R|]. destruct l as [|c l].
    + wstep. split; [done|]. split; [done|]. exists []. split; [done|]. cbn. by destruct (stream_of _ _ es).
    + intros s1 E1 D1 R1. wstep. split; [by rewrite E1|]. split; [done|]. exists l. split; [done|]. cbn. rewrite drop_0. by destruct (stream_of _ _ es).
  - wstep. eapply serial_read_ok; [exact R|done|]. intros s1 E1 D1 R1. wstep. split; [by rewrite E1|]. split; [done|].
    eexists. split; [exact R1|]. cbn. by destruct (stream_of _ _ es).
Qed.

End Receive.

(** ** An example

    A device with a buffer of 4 bytes on the kernel of Sample.v; its hardware is what is
    to come, and what has been sent. *)

Module Demo.

Record hardware := Hardware { incoming : list Z; sent : list Z; enabled : list Z }.

#[local] Instance uart_ops : UartOps hardware := {|
  uart_configure := Some (fun _ => mret RT_EOK);
  uart_control cmd arg :=
    _ ← modify (fun u => Hardware (incoming u) (sent u)
          (if cmd =? RT_DEVICE_CTRL_SET_INT then arg :: enabled u else filter (fun a => a <> arg) (enabled u))); mret RT_EOK;
  uart_putc c := _ ← modify (fun u => Hardware (incoming u) (sent u ++ [c]) (enabled u)); mret 1;
  uart_getc :=
    l ← gets incoming;
    match l with
    | [] => mret (-1)
    | c :: l => _ ← modify (fun u => Hardware l (sent u) (enabled u)); mret c
    end;
  uart_dma_transmit _ n _ := mret n |}.

#[local] Instance uart_laws : UartLaws hardware.
Proof.
  refine {| uart_pending := incoming; uart_arrive cs u := Hardware (incoming u ++ cs) (sent u) (enabled u) |}; [done|].
  intros [[|c l] o e]; by vm_compute.
Defined.

Definition serial : Z := 0x20007800.
Definition told (f dev n : Z) : K Z := mret RT_EOK.
Definition notified (queue data event : Z) : K unit := mret tt.

Definition all_modes : Z := 0xf00.
Definition closed : @sstate hardware :=
  SState (RtSerial 4 0 0) ∅ (Hardware [] [] [])
    (after (_ ← lift_heap (rt_system_heap_init 0x20009000 0x20009200 (replicate 512 0));
            put_device serial (RtDevice all_modes 0 1 9 0 1 2 3 4 5 6)) running).
Definition opened (oflag : Z) : option (@sstate hardware) :=
  match rt_serial_open serial oflag [] closed with Ok (r, s) => if r =? RT_EOK then Some s else None | _ => None end.
Definition reader : @sstate hardware := default closed (opened RT_DEVICE_FLAG_INT_RX).

Lemma reader_receives : receives serial reader [] (RtDevice all_modes RT_DEVICE_FLAG_INT_RX 1 9 0 1 2 3 4 5 6).
Proof.
  split; [by vm_compute| |by vm_compute|done|constructor].
  exists (RxFifo [0; 0; 0; 0] 0 0). split; [by vm_compute|]. exists [0; 0; 0; 0], 0, 0. split; [done|].
  change (s_bufsz (s_dev reader)) with 4. split; [|done]. split; cbn; lia.
Qed.

(** Two characters, one of which is taken; then five, of which three are kept. *)
Lemma serial_rx_refines_queue_witness :
  wp (happen serial told notified 10 [Interrupt [65; 66]; Take; Interrupt [67; 68; 69; 70; 71]; Read 2; Take; Take])
    (fun out s' => out = [65; 69; 70; 71] /\ receives serial s' [] (RtDevice all_modes RT_DEVICE_FLAG_INT_RX 1 9 0 1 2 3 4 5 6) /\
       s_dev s' = s_dev reader) reader.
Proof.
  apply (serial_rx_refines_queue serial told notified ltac:(done) 10
    [Interrupt [65; 66]; Take; Interrupt [67; 68; 69; 70; 71]; Read 2; Take; Take] reader []
    (RtDevice all_modes RT_DEVICE_FLAG_INT_RX 1 9 0 1 2 3 4 5 6)).
  - exact reader_receives.
  - by vm_compute.
  - repeat constructor; cbn; lia.
Defined.

(** What [rt_serial_close] does after [rt_serial_open] with these modes. *)
Definition closes (oflag : Z) : option (res (Z * @sstate hardware)) := rt_serial_close serial <$> opened oflag.

(** The transmit fifo is looked for in [serial_rx], which has just been cleared, and the
    block of receive DMA in [serial_tx]: closing asserts. *)
Lemma close_asserts :
  closes (Z.lor RT_DEVICE_FLAG_INT_RX RT_DEVICE_FLAG_INT_TX) = Some AssertFail /\
  closes RT_DEVICE_FLAG_INT_TX = Some AssertFail /\ closes RT_DEVICE_FLAG_DMA_RX = Some AssertFail.
Proof. by vm_compute. Qed.

(** Closing a device that receives by interrupts leaves its interrupt enabled, and the
    next one asserts. *)
Lemma close_leaves_interrupt : exists s, closes RT_DEVICE_FLAG_INT_RX = Some (Ok (RT_EOK, s)) /\
  enabled (s_uart s) = [RT_DEVICE_FLAG_INT_RX] /\
  rt_hw_serial_isr serial told notified 10 RT_SERIAL_EVENT_RX_IND s = AssertFail.
Proof. eexists. split; [by vm_compute|]. by vm_compute. Qed.

(** A second opening without the mode takes it from the first. *)
Lemma open_again_drops_mode :
  match rt_serial_open serial 0 [] reader with
  | Ok (_, s) => d_open_flag <$> (i_devices (ip (s_kst s)) !! serial)
  | _ => None
  end = Some 0.
Proof. by vm_compute. Qed.

End Demo.
