(* ===== verification/Beside.v ===== *)
(** * A kernel beside the state of a component

    The components above the kernel that wait keep what is theirs beside it. *)

From S2P Require Import Prelude KService Heap KState Scheduler Object Timer Thread.
From S2P Require Import Invariant Sample ThreadSpec Frame Clock Ipc IpcSpec.

Record beside (X : Type) := Beside { kernel : kst; own : X }.
Arguments Beside {X} _ _.
Arguments kernel {X} _.
Arguments own {X} _.

Section Beside.
Context {X : Type}.

Definition with_kernel (k : kst) (s : beside X) : beside X := Beside k (own s).
Definition with_own (x : X) (s : beside X) : beside X := Beside (kernel s) x.

Lemma with_kernel_same (s : beside X) : with_kernel (kernel s) s = s.
Proof. by destruct s. Qed.

(** What the kernel does. *)
Definition on_kernel {A} (m : K A) : ST (beside X) A := fun s =>
  match m (kernel s) with Ok (a, k) => Ok (a, with_kernel k s) | AssertFail => AssertFail | Fault => Fault end.

Lemma wp_kernel {A} (m : K A) (Q : A -> beside X -> Prop) (s : beside X) :
  wp m (fun a k => Q a (with_kernel k s)) (kernel s) -> wp (on_kernel m) Q s.
Proof. unfold wp, on_kernel. by destruct (m (kernel s)) as [[a k]| |]. Qed.

End Beside.

(** ** The lists of the threads that wait *)

Lemma blocked_wait_lists (l l' : lid) (t time : Z) (th : rt_thread) (k k' : kst) :
  caller k t th -> blocked l RT_IPC_FLAG_FIFO t time th k k' -> wait_list l' ->
  tlist (sc k') l' = if decide (l' = l) then tlist (sc k) l ++ [t] else tlist (sc k) l'.
Proof.
  intros C B Hl'. case_decide as E; [subst; apply B|].
  rewrite (bl_others _ _ _ _ _ _ _ B) by done. apply remove_tid_notin.
  eapply ready_not_waiting; [apply C|apply C|apply C|done].
Qed.

Lemma waked_wait_lists (f : Z -> rt_thread -> rt_thread) (l l' : lid) (u : Z) (rest : list Z) (k k' : kst) :
  wf_kst k -> wait_list l -> tlist (sc k) l = u :: rest -> waked f [u] (sc k) (sc k') -> wait_list l' -> l' <> l ->
  tlist (sc k') l' = tlist (sc k) l'.
Proof.
  intros W Hl E A Hl' N. rewrite (wa_lists _ _ _ _ A). rewrite filter_all.
  - destruct l'; try apply app_nil_r; done.
  - intros v Hv ->%list_elem_of_singleton. apply N. eapply (ws_disj _ (wk_sched _ W)); [exact Hv|]. rewrite E. by left.
Qed.

(** ** Devices of the drivers *)

Definition RT_DEVICE_FLAG_RDWR : Z := 0x003.
Definition zero_device : rt_device := RtDevice 0 0 0 0 0 0 0 0 0 0 0.

(** The functions of a [struct rt_device], set before it is registered; the other fields
    keep what the memory holds. *)
Definition device_functions (dinit dopen dclose dread dwrite dcontrol : Z) (dev : Z) : K unit :=
  x ← gets (fun k => default zero_device (i_devices (ip k) !! dev));
  put_device dev (RtDevice (d_flag x) (d_open_flag x) (d_ref_count x) (d_rx_indicate x) (d_tx_complete x)
    dinit dopen dclose dread dwrite dcontrol).

(** ** Runs *)

(** A closed state in which [t] runs and [u] is ready too. *)
Lemma runs_at {X} (s : beside X) (t u : Z) :
  wf_kst_b (kernel s) = true -> s_current (sc (kernel s)) = t ->
  t_stat <$> s_threads (sc (kernel s)) !! t = Some RT_THREAD_READY -> u <> t ->
  t_stat <$> s_threads (sc (kernel s)) !! u = Some RT_THREAD_READY ->
  s_interrupt_nest (sc (kernel s)) = 0 -> s_lock_nest (sc (kernel s)) = 0 ->
  exists th, caller (kernel s) t th.
Proof. intros W. apply caller_check. by apply wf_check. Qed.

Ltac running_thread := apply (runs_at _ _ idle_t); first [discriminate|evaluate].

(** The state behind a run. *)
Definition then_ {X A} (m : ST (beside X) A) (s : beside X) : beside X :=
  match m s with Ok (_, s') => s' | _ => s end.

(** One step of straight-line code, or of the kernel. *)
Ltac on_k := apply wp_kernel; cbn [kernel own with_kernel with_own].
Ltac ostep := first [wstep | on_k].
