(* ===== verification/DataQueueSpec.v ===== *)
(** * Data queues: runs of a system with one

    Threads that push, pop and look, wait and go on, in whatever order, against a bounded
    queue with a note, two lists of threads, and the interrupts. *)

From Stdlib Require Import Lia.
From S2P Require Import Prelude KService Heap KState Scheduler Object Timer Thread.
From S2P Require Import Invariant Sample ThreadSpec Frame Clock Ipc IpcSpec Completion DataQueue Beside.

Abbreviation len l := (Z.of_nat (length l)).

(** ** The specification *)

(** The items, the note that somebody found no room, and the threads that wait for items
    and for room, in their order. *)
Record aqueue := AQueue { items : list (Z * Z); note : bool; readers : list Z; writers : list Z }.

(** A call that returns or begins to wait ([None]), and what it gets; a call that gives up
    because the thread was sent on with an error; threads that stop waiting without the
    queue's doing (their time is over). *)
Inductive devent :=
| Push (t : Z) (d : Z * Z) (time : Z) (r : option Z)
| Pop (t time : Z) (r : option dq_popped_result)
| Peak (r : Z * option (Z * Z))
| GiveUp (t e : Z)
| Gone (rs ws : list Z).

Section Abstract.
Variables size lwm : Z.

(** A thread that does something is not one that waits.  A push that finds no room leaves
    the note; a pop that leaves no more than [lwm] items takes the note away and wakes the
    first writer, and with no writer there it leaves the interrupts disabled. *)
Inductive astep : aqueue -> devent -> aqueue -> Prop :=
| a_push t d time w n rs ws : len w < size -> t ∉ rs -> t ∉ ws ->
    astep (AQueue w n rs ws) (Push t d time (Some RT_EOK)) (AQueue (w ++ [d]) n (tail rs) ws)
| a_push_full t d w n rs ws : len w = size -> t ∉ rs -> t ∉ ws ->
    astep (AQueue w n rs ws) (Push t d 0 (Some (- RT_ETIMEOUT))) (AQueue w true rs ws)
| a_push_wait t d time w n rs ws : len w = size -> time <> 0 -> t ∉ rs -> t ∉ ws ->
    astep (AQueue w n rs ws) (Push t d time None) (AQueue w true rs (ws ++ [t]))
| a_pop t time d w n rs ws : n = false \/ lwm < len w -> t ∉ rs -> t ∉ ws ->
    astep (AQueue (d :: w) n rs ws) (Pop t time (Some (RT_EOK, Some d, true))) (AQueue w n rs ws)
| a_pop_low t time d w u rs ws : len w <= lwm -> t ∉ rs -> t ∉ u :: ws ->
    astep (AQueue (d :: w) true rs (u :: ws)) (Pop t time (Some (RT_EOK, Some d, true))) (AQueue w false rs ws)
| a_pop_masked t time d w rs : len w <= lwm -> t ∉ rs ->
    astep (AQueue (d :: w) true rs []) (Pop t time (Some (RT_EOK, Some d, false))) (AQueue w false rs [])
| a_pop_empty t n rs ws : t ∉ rs -> t ∉ ws ->
    astep (AQueue [] n rs ws) (Pop t 0 (Some (- RT_ETIMEOUT, None, true))) (AQueue [] n rs ws)
| a_pop_wait t time n rs ws : time <> 0 -> t ∉ rs -> t ∉ ws ->
    astep (AQueue [] n rs ws) (Pop t time None) (AQueue [] n (rs ++ [t]) ws)
| a_peak d w n rs ws :
    astep (AQueue (d :: w) n rs ws) (Peak (RT_EOK, Some d)) (AQueue (d :: w) n rs ws)
| a_peak_empty n rs ws :
    astep (AQueue [] n rs ws) (Peak (- RT_EEMPTY, None)) (AQueue [] n rs ws)
| a_give_up t e a : e <> RT_EOK -> astep a (GiveUp t e) a
| a_gone w n rs ws rs' ws' : rs' `sublist_of` rs -> ws' `sublist_of` ws ->
    astep (AQueue w n rs ws) (Gone rs' ws') (AQueue w n rs' ws').

Inductive aruns : aqueue -> list devent -> aqueue -> Prop :=
| ar_refl a : aruns a [] a
| ar_step a1 es a2 e a3 : aruns a1 es a2 -> astep a2 e a3 -> aruns a1 (es ++ [e]) a3.

(** The items that were put in, and that came out. *)
Definition put (e : devent) : list (Z * Z) :=
  match e with Push _ d _ (Some r) => if r =? RT_EOK then [d] else [] | _ => [] end.
Definition got (e : devent) : list (Z * Z) :=
  match e with Pop _ _ (Some (_, Some d, _)) => [d] | _ => [] end.
Definition all_put (es : list devent) : list (Z * Z) := concat (put <$> es).
Definition all_got (es : list devent) : list (Z * Z) := concat (got <$> es).

Lemma dq_runs_stream (a a' : aqueue) (es : list devent) :
  aruns a es a' -> items a ++ all_put es = all_got es ++ items a'.
Proof.
  unfold all_got, all_put. induction 1 as [a|a1 es a2 e a3 R IH St]; cbn; [apply app_nil_r|].
  rewrite !fmap_app, !concat_app, app_assoc, IH, <- !app_assoc. f_equal.
  destruct St; cbn; rewrite ?app_nil_r; done.
Qed.

End Abstract.

(** ** The data queue refines it *)

Section Spec.
Variable call_notify : Z -> Z -> Z -> K unit.
Hypothesis notify_ok : forall f queue event s, wf_kst s ->
  wp (call_notify f queue event)
    (fun _ s' => wf_kst s' /\ sc s' = sc s /\ i_dqs (ip s') = i_dqs (ip s)) s.
Variables queue size lwm : Z.

(** The state of the kernel represents the queue; [dq_ok] has the sizes that are powers of
    two. *)
Record dq_repr (a : aqueue) (s : kst) : Prop := {
  dr_wf : wf_kst s;
  dr_queue : queue <> RT_NULL;
  dr_dq : exists x, i_dqs (ip s) !! queue = Some x /\ dq_ok x /\ dq_size x = size /\ dq_lwm x = lwm /\
    dq_contents x = items a /\ dq_waiting_lwm x = note a;
  dr_readers : tlist (sc s) (LSuspend queue) = readers a;
  dr_writers : tlist (sc s) (LSender queue) = writers a;
}.

Definition does (a : aqueue) (e : devent) (s' : kst) : Prop :=
  exists a', dq_repr a' s' /\ astep size lwm a e a'.

(** The write index has not come to its end yet. *)
Definition index_room (s : kst) : Prop :=
  forall x, i_dqs (ip s) !! queue = Some x -> dq_put_index x + 1 < 2 ^ 16.

Definition push_answer (r : outcome Z dq_push_k) : option Z :=
  match r with Return e => Some e | Wait _ => None end.
Definition pop_answer (r : outcome dq_popped_result dq_pop_k) : option dq_popped_result :=
  match r with Return r => Some r | Wait _ => None end.
(** Does a call leave the interrupts enabled? *)
Definition enabled (r : outcome dq_popped_result dq_pop_k) : bool :=
  match r with Return (_, _, b) => b | Wait _ => true end.

Lemma dq_caller_idle (a : aqueue) (s : kst) (t : Z) (th : rt_thread) :
  dq_repr a s -> caller s t th -> (t ∉ readers a) /\ (t ∉ writers a).
Proof.
  intros O C. rewrite <- (dr_readers _ _ O), <- (dr_writers _ _ O).
  split; (eapply ready_not_waiting; [apply C|apply C|apply C|done]).
Qed.

(** What a step of the queue does to the lists. *)
Lemma dq_step_lists (l : lid) (x' : rt_data_queue) (s s' : kst) :
  wf_kst s -> wait_list l -> dq_step (Some l) queue x' s s' ->
  tlist (sc s') l = tail (tlist (sc s) l) /\
  forall l', wait_list l' -> l' <> l -> tlist (sc s') l' = tlist (sc s) l'.
Proof.
  intros W Hl D. pose proof (ds_wake _ _ _ _ _ D) as K. cbn in K.
  destruct (tlist (sc s) l) as [|u rest] eqn:E.
  - rewrite K. by split.
  - destruct K as (A & T & _). split; [done|]. intros l' Hl' N. by apply (waked_wait_lists _ l l' u rest s s' W Hl E A).
Qed.

(** The queue after a call that waits. *)
Lemma repr_blocked (a a' : aqueue) (l : lid) (time : Z) (t : Z) (th : rt_thread) (s s' : kst) :
  dq_repr a s -> caller s t th -> wait_list l ->
  blocked l RT_IPC_FLAG_FIFO t time (thr_error RT_EOK th) (set_thread t (thr_error RT_EOK th) s) s' ->
  items a' = items a -> note a' = note a ->
  readers a' = (if decide (LSuspend queue = l) then readers a ++ [t] else readers a) ->
  writers a' = (if decide (LSender queue = l) then writers a ++ [t] else writers a) ->
  dq_repr a' s'.
Proof.
  intros [W Hq (x & Hx & M & Es & El & Ec & En) Hr Hw] C Hl B E1 E2 E3 E4.
  pose proof (caller_error s t RT_EOK th C) as C1.
  constructor; [apply B|done|..].
  - exists x. rewrite (bl_ip _ _ _ _ _ _ _ B), E1, E2. done.
  - rewrite (blocked_wait_lists _ _ _ _ _ _ _ C1 B), E3 by done.
    repeat case_decide; subst; try done; first [exact Hr|f_equal; exact Hr].
  - rewrite (blocked_wait_lists _ _ _ _ _ _ _ C1 B), E4 by done.
    repeat case_decide; subst; try done; first [exact Hw|f_equal; exact Hw].
Qed.

Section Calls.
Variables (a : aqueue) (s : kst) (t : Z) (th : rt_thread) (time : Z).
Hypothesis O : dq_repr a s.
Hypothesis C : caller s t th.
Hypothesis Htime : time < 2 ^ 31 - 1.

Lemma wp_push_loop (d : Z * Z) :
  index_room s ->
  wp (dq_push_loop call_notify queue d time t (u16 (size - 1)))
    (fun r s' => does a (Push t d time (push_answer r)) s') s.
Proof.
  intros Hi. destruct (dq_caller_idle a s t th O C) as [Ir Iw].
  pose proof O as [W Hq (x & Hx & M & Es & El & Ec & En) Hr Hw].
  pose proof (dq_length x M) as L. rewrite Ec in L. pose proof (do_level _ M) as V.
  assert (O1 : dq_repr (AQueue (items a) true (readers a) (writers a)) (set_dq queue (dq_set_waiting true x) s)).
  { constructor; [by apply wf_kst_ip|done| |exact Hr|exact Hw]. eexists. split; [apply set_dq_lookup|].
    by split_and!; [apply dq_waiting_ok|..]. }
  destruct a as [w n rs ws]. cbn [items note readers writers] in *. rewrite <- Es.
  apply (wp_dq_push_loop call_notify notify_ok s queue t time x th); try done; intros Ef; rewrite ?Z.eqb_eq, ?Z.eqb_neq in Ef.
  - intros ->. eexists. split; [exact O1|]. apply a_push_full; (done || lia).
  - intros Ht s' B. exists (AQueue w true rs (ws ++ [t])). split; [|apply a_push_wait; (done || lia)].
    eapply (repr_blocked _ _ (LSender queue) _ t th); [exact O1|by apply caller_ip|done|exact B|done|done| |]; cbn.
    + by rewrite decide_False.
    + by rewrite decide_True.
  - intros Hp s' D. exists (AQueue (w ++ [d]) n (tail rs) ws). split; [|apply a_push; (done || lia)].
    destruct (dq_step_lists (LSuspend queue) _ s s' W I D) as [E1 E2].
    constructor; [apply D|done| |by rewrite E1, Hr|by rewrite E2, Hw].
    eexists. split; [apply D|]. split_and!; [apply dq_pushed_ok; (done || lia)|done|done| |done].
    rewrite dq_pushed_contents by (done || lia). by rewrite Ec.
  - by apply Hi.
Qed.

Lemma wp_pop_loop :
  wp (dq_pop_loop call_notify queue time t (u16 (size - 1)))
    (fun r s' => does a (Pop t time (pop_answer r)) s') s.
Proof.
  destruct (dq_caller_idle a s t th O C) as [Ir Iw].
  pose proof O as [W Hq (x & Hx & M & Es & El & Ec & En) Hr Hw].
  destruct a as [w n rs ws]. cbn [items note readers writers] in *. rewrite <- Es.
  apply (wp_dq_pop_loop call_notify notify_ok s queue t time x th); try done; rewrite Ec.
  - intros -> ->. eexists. split; [exact O|]. by apply a_pop_empty.
  - intros -> Ht s' B. exists (AQueue [] n (rs ++ [t]) ws). split; [|by apply a_pop_wait].
    eapply (repr_blocked _ _ (LSuspend queue) _ t th); [exact O|done|done|exact B|done|done| |]; cbn.
    + by rewrite decide_True.
    + by rewrite decide_False.
  - intros d w' -> s' D. rewrite Hw, En, El in *.
    destruct (dq_first x M d w' Ec) as (_ & Hlt & Ew). cbn [pop_answer].
    destruct (n && (len w' <=? lwm)) eqn:Elow; cbn [negb orb].
    + destruct n; [|done]. b2p. destruct (dq_step_lists (LSender queue) _ s s' W I D) as [E1 E2].
      exists (AQueue w' false rs (tail ws)). split.
      * constructor; [apply D|done| |by rewrite E2, Hr|by rewrite E1, Hw].
        eexists. split; [apply D|]. by split_and!; [apply dq_waiting_ok, dq_popped_ok|..].
      * destruct ws as [|u ws]; [rewrite bool_decide_true by done|rewrite bool_decide_false by done];
          [by apply a_pop_masked|by apply a_pop_low].
    + exists (AQueue w' n rs ws). pose proof (ds_wake _ _ _ _ _ D) as K. cbn in K. split.
      * constructor; [apply D|done| |by rewrite K|by rewrite K].
        eexists. split; [apply D|]. by split_and!; [apply dq_popped_ok|..].
      * apply a_pop; [|done..]. destruct n; [right|by left]. b2p. lia.
Qed.

Lemma wp_dq_push (d : Z * Z) :
  index_room s ->
  wp (rt_data_queue_push call_notify queue d.1 d.2 time)
    (fun r s' => does a (Push t d time (push_answer r)) s') s.
Proof.
  intros Hi. pose proof O as [_ Hq (x & Hx & _ & Es & _) _ _]. unfold rt_data_queue_push.
  kstep. kstep; [by apply negb_true_iff, Z.eqb_neq|]. do 2 kstep. rewrite (ca_current _ _ _ C).
  kstep. eapply wp_get_dq; [exact Hx|]. rewrite Es, <- surjective_pairing. by apply wp_push_loop.
Qed.

Lemma wp_dq_pop :
  wp (rt_data_queue_pop call_notify queue time)
    (fun r s' => does a (Pop t time (pop_answer r)) s') s.
Proof.
  pose proof O as [_ Hq (x & Hx & _ & Es & _) _ _]. unfold rt_data_queue_pop.
  kstep. kstep; [by apply negb_true_iff, Z.eqb_neq|]. do 2 kstep. rewrite (ca_current _ _ _ C).
  kstep. eapply wp_get_dq; [exact Hx|]. rewrite Es. by apply wp_pop_loop.
Qed.

End Calls.

Lemma wp_peak (a : aqueue) (s : kst) :
  dq_repr a s -> wp (rt_data_queue_peak queue) (fun r s' => does a (Peak r) s') s.
Proof.
  intros O. pose proof O as [W Hq (x & Hx & M & Es & El & Ec & En) Hr Hw].
  pose proof (dq_length x M) as L. rewrite Ec in L. unfold rt_data_queue_peak.
  kstep. kstep; [by apply negb_true_iff, Z.eqb_neq|]. kstep. eapply wp_get_dq; [exact Hx|].
  destruct a as [[|d w] n rs ws]; cbn [items length] in *.
  - rewrite (proj2 (Z.eqb_eq _ _)) by lia. kstep. eexists. split; [exact O|]. apply a_peak_empty.
  - rewrite (proj2 (Z.eqb_neq _ _)) by lia. destruct (dq_first x M d w Ec) as (Ed & _ & _).
    pose proof (dq_size_range x M). pose proof M as [(k & Hk & Ek) _ _ _ _]. kstep.
    eapply wp_lift_ok; [rewrite (dq_slot _ k _ Ek Hk); apply load_at_ok; [|exact Ed]; apply Z.mod_pos_bound; lia|].
    kstep. eexists. split; [exact O|]. apply a_peak.
Qed.

(** ** Runs *)

(** One step, and whether the interrupts are enabled after it: a thread that runs calls one
    of the functions, or goes on with a call it waited in (with what it found in its error
    number); the rest of the system does anything to the kernel but to the queue, and takes
    threads out of its lists. *)
Inductive dstep : kst -> devent -> kst -> bool -> Prop :=
| d_push s t th d time r s' :
    caller s t th -> time < 2 ^ 31 - 1 -> index_room s ->
    rt_data_queue_push call_notify queue d.1 d.2 time s = Ok (r, s') ->
    dstep s (Push t d time (push_answer r)) s' true
| d_push_on s t th d time r s' :
    caller s t th -> time < 2 ^ 31 - 1 -> index_room s ->
    rt_data_queue_push_resume call_notify (DqPushK queue d time t (u16 (size - 1))) s = Ok (r, s') ->
    dstep s (if t_error th =? RT_EOK then Push t d time (push_answer r) else GiveUp t (t_error th)) s' true
| d_pop s t th time r s' :
    caller s t th -> time < 2 ^ 31 - 1 ->
    rt_data_queue_pop call_notify queue time s = Ok (r, s') ->
    dstep s (Pop t time (pop_answer r)) s' (enabled r)
| d_pop_on s t th time r s' :
    caller s t th -> time < 2 ^ 31 - 1 ->
    rt_data_queue_pop_resume call_notify (DqPopK queue time t (u16 (size - 1))) s = Ok (r, s') ->
    dstep s (if t_error th =? RT_EOK then Pop t time (pop_answer r) else GiveUp t (t_error th)) s' (enabled r)
| d_peak s r s' : rt_data_queue_peak queue s = Ok (r, s') -> dstep s (Peak r) s' true
| d_other s s' :
    wf_kst s' -> i_dqs (ip s') !! queue = i_dqs (ip s) !! queue ->
    tlist (sc s') (LSuspend queue) `sublist_of` tlist (sc s) (LSuspend queue) ->
    tlist (sc s') (LSender queue) `sublist_of` tlist (sc s) (LSender queue) ->
    dstep s (Gone (tlist (sc s') (LSuspend queue)) (tlist (sc s') (LSender queue))) s' true.

(** A run goes on as long as the interrupts are enabled. *)
Inductive druns : kst -> list devent -> kst -> bool -> Prop :=
| dn_refl s : druns s [] s true
| dn_step s1 es s2 e s3 b : druns s1 es s2 true -> dstep s2 e s3 b -> druns s1 (es ++ [e]) s3 b.

Lemma dstep_simulated (a : aqueue) (s s' : kst) (e : devent) (b : bool) :
  dq_repr a s -> dstep s e s' b -> does a e s'.
Proof.
  intros O St. destruct St as [s t th d time r s' C Ht Hi E|s t th d time r s' C Ht Hi E|s t th time r s' C Ht E|
    s t th time r s' C Ht E|s r s' E|s s' W E1 E2 E3].
  - pose proof (wp_dq_push a s t th time O C Ht d Hi) as P. unfold wp in P. by rewrite E in P.
  - unfold rt_data_queue_push_resume, get_thread in E. cbn in E. unfold mbind, ST_bind, gets, lift in E. cbn in E.
    rewrite (ca_thread _ _ _ C) in E. cbn in E. destruct (t_error th =? RT_EOK) eqn:Ee; cbn in E.
    + pose proof (wp_push_loop a s t th time O C Ht d Hi) as P. unfold wp in P. by rewrite E in P.
    + injection E as <- <-. exists a. split; [done|]. apply a_give_up. by apply Z.eqb_neq.
  - pose proof (wp_dq_pop a s t th time O C Ht) as P. unfold wp in P. by rewrite E in P.
  - unfold rt_data_queue_pop_resume, get_thread in E. cbn in E. unfold mbind, ST_bind, gets, lift in E. cbn in E.
    rewrite (ca_thread _ _ _ C) in E. cbn in E. destruct (t_error th =? RT_EOK) eqn:Ee; cbn in E.
    + pose proof (wp_pop_loop a s t th time O C Ht) as P. unfold wp in P. by rewrite E in P.
    + injection E as <- <-. exists a. split; [done|]. apply a_give_up. by apply Z.eqb_neq.
  - pose proof (wp_peak a s O) as P. unfold wp in P. by rewrite E in P.
  - destruct a as [w n rs ws]. pose proof O as [_ Hq Hx Hr Hw]. cbn in *.
    exists (AQueue w n (tlist (sc s') (LSuspend queue)) (tlist (sc s') (LSender queue))).
    split; [constructor; cbn; by rewrite ?E1|]. rewrite Hr in E2. rewrite Hw in E3. by apply a_gone.
Qed.

Lemma druns_simulated (a0 : aqueue) (s0 s : kst) (es : list devent) (b : bool) :
  dq_repr a0 s0 -> druns s0 es s b -> exists a, aruns size lwm a0 es a /\ dq_repr a s.
Proof.
  intros O. induction 1 as [s|s1 es s2 e s3 b R IH St]; [exists a0; split; [constructor|done]|].
  destruct (IH O) as (a & Ra & Oa). destruct (dstep_simulated a s2 s3 e b Oa St) as (a' & O' & S').
  exists a'. split; [by eapply ar_step|done].
Qed.

(** C32: refinement.  For a data queue whose size is a power of two, as long as the write
    index stays below 2^16: whatever threads push, pop and look, with whatever timeouts, in
    whatever order they call, wait, go on and give up, and whatever happens to the kernel in
    between, the data queue does what the abstract queue does.  So the items come out as
    they were put in, in order, nothing lost and nothing twice, never more than the size of
    them are there, each push wakes the first reader, a pop that reaches the low water mark
    with the note set takes the note away and wakes the first writer or, when none waits,
    returns with the interrupts disabled (where the run stops); and while they are enabled no
    call of a running thread asserts, faults or hangs. *)
Theorem data_queue_refines_queue (a0 : aqueue) (s0 s : kst) (es : list devent) (b : bool) :
  dq_repr a0 s0 -> druns s0 es s b ->
  exists a, aruns size lwm a0 es a /\ dq_repr a s /\
    items a0 ++ all_put es = all_got es ++ items a /\ len (items a) <= size /\
    (forall t th time, b = true -> caller s t th -> time < 2 ^ 31 - 1 ->
       (forall d, index_room s -> wp (rt_data_queue_push call_notify queue d.1 d.2 time)
          (fun r s' => does a (Push t d time (push_answer r)) s') s) /\
       wp (rt_data_queue_pop call_notify queue time)
         (fun r s' => does a (Pop t time (pop_answer r)) s') s /\
       wp (rt_data_queue_peak queue) (fun r s' => does a (Peak r) s') s).
Proof.
  intros O0 R. destruct (druns_simulated a0 s0 s es b O0 R) as (a & Ra & O). exists a.
  split; [done|]. split; [done|]. split; [by eapply dq_runs_stream|]. split.
  { destruct O as [_ _ (x & _ & M & <- & _ & <- & _) _ _]. rewrite (dq_length x M). apply M. }
  intros t th time _ C Ht. split; [intros; by eapply wp_dq_push|]. split; [by eapply wp_dq_pop|by apply wp_peak].
Qed.

End Spec.

(** ** A run

    Two items of room, the low water mark 1.  A writer finds the queue full and waits; a pop
    brings the queue to the mark and wakes it, and it puts its item in; the next push finds
    no room, does not wait and leaves the note; and the pop after it reaches the mark while
    nobody waits, so that it returns with the interrupts disabled. *)

Module Demo.

#[local] Abbreviation push := (rt_data_queue_push not_notified a_dq).
#[local] Abbreviation pop := (rt_data_queue_pop not_notified a_dq).

Definition two_items : kst := after (push 200 8 0) dq_one.
Definition writer_waits : kst := after (push 300 9 30) two_items.
Definition popped : kst := after (pop 0) writer_waits.
Definition writer_runs : kst := after (rt_thread_sleep 5) popped.
Definition writer_done : kst :=
  after (rt_data_queue_push_resume not_notified (DqPushK a_dq (300, 9) 30 main_t 1)) writer_runs.
Definition refused : kst := after (push 400 1 0) writer_done.
Definition masked : kst := after (pop 0) refused.

Definition run_events : list devent :=
  [Push main_t (200, 8) 0 (Some RT_EOK); Push main_t (300, 9) 30 None;
   Pop peer_t 0 (Some (RT_EOK, Some (100, 7), true)); Gone [] [];
   Push main_t (300, 9) 30 (Some RT_EOK); Push main_t (400, 1) 0 (Some (- RT_ETIMEOUT));
   Pop main_t 0 (Some (RT_EOK, Some (200, 8), false))].

Lemma room_at (s : kst) :
  (match i_dqs (ip s) !! a_dq with Some x => dq_put_index x + 1 <? 2 ^ 16 | None => true end) = true ->
  index_room a_dq s.
Proof. intros H x Hx. rewrite Hx in H. by b2p. Qed.

(** A state in which [t] runs and another thread is ready. *)
Lemma runs_on (s : kst) (t : Z) :
  wf_kst_b s = true -> s_current (sc s) = t -> t_stat <$> s_threads (sc s) !! t = Some RT_THREAD_READY ->
  idle_t <> t -> t_stat <$> s_threads (sc s) !! idle_t = Some RT_THREAD_READY ->
  s_interrupt_nest (sc s) = 0 -> s_lock_nest (sc s) = 0 -> exists th, caller s t th.
Proof. intros W. apply caller_check. by apply wf_check. Qed.

Ltac runs := apply runs_on; first [discriminate|evaluate].

Lemma none_left (l l' : list Z) : l = [] -> l `sublist_of` l'.
Proof. intros ->. apply sublist_nil_l. Qed.

(** The error number of a thread that is sent on. *)
Lemma writer_resumes (th : rt_thread) : caller writer_runs main_t th -> t_error th = RT_EOK.
Proof.
  intros C. assert (E : t_error <$> s_threads (sc writer_runs) !! main_t = Some RT_EOK) by evaluate.
  rewrite (ca_thread _ _ _ C) in E. by injection E.
Qed.

Lemma masked_run : druns not_notified a_dq 2 dq_one run_events masked false.
Proof.
  assert (exists th, caller dq_one main_t th) as [th0 C0] by runs.
  assert (exists th, caller two_items main_t th) as [th1 C1] by runs.
  assert (exists th, caller writer_waits peer_t th) as [th2 C2] by runs.
  assert (exists th, caller writer_runs main_t th) as [th3 C3] by runs.
  assert (exists th, caller writer_done main_t th) as [th4 C4] by runs.
  assert (exists th, caller refused main_t th) as [th5 C5] by runs.
  apply (dn_step _ _ _ _ (take 6 run_events) refused _ masked false);
    [|apply (d_pop _ _ _ refused main_t th5 0 (Return (RT_EOK, Some (200, 8), false))); [exact C5|lia|evaluate]].
  apply (dn_step _ _ _ _ (take 5 run_events) writer_done _ refused true);
    [|apply (d_push _ _ _ writer_done main_t th4 (400, 1) 0 (Return (- RT_ETIMEOUT)));
      [exact C4|lia|apply room_at; evaluate|evaluate]].
  apply (dn_step _ _ _ _ (take 4 run_events) writer_runs _ writer_done true).
  2: { pose proof (d_push_on not_notified a_dq 2 writer_runs main_t th3 (300, 9) 30 (Return RT_EOK) writer_done C3
         ltac:(lia) ltac:(apply room_at; evaluate) ltac:(evaluate)) as St.
       rewrite (writer_resumes _ C3) in St. exact St. }
  apply (dn_step _ _ _ _ (take 3 run_events) popped _ writer_runs true);
    [|refine (d_other not_notified a_dq 2 popped writer_runs _ _ _ _);
      [apply wf_check; evaluate|evaluate|by apply none_left; evaluate..]].
  apply (dn_step _ _ _ _ (take 2 run_events) writer_waits _ popped true);
    [|apply (d_pop _ _ _ writer_waits peer_t th2 0 (Return (RT_EOK, Some (100, 7), true))); [exact C2|lia|evaluate]].
  apply (dn_step _ _ _ _ (take 1 run_events) two_items _ writer_waits true);
    [|apply (d_push _ _ _ two_items main_t th1 (300, 9) 30 (Wait (DqPushK a_dq (300, 9) 30 main_t 1)));
      [exact C1|lia|apply room_at; evaluate|evaluate]].
  apply (dn_step _ _ _ _ [] dq_one _ two_items true); [apply dn_refl|].
  apply (d_push _ _ _ dq_one main_t th0 (200, 8) 0 (Return RT_EOK)); [exact C0|lia|apply room_at; evaluate|evaluate].
Qed.

Lemma dq_one_repr : dq_repr a_dq 2 1 (AQueue [(100, 7)] false [] []) dq_one.
Proof.
  destruct dq_one_ok as (M & Es & Ec & _).
  constructor; [apply wf_dq_one|discriminate| |evaluate|evaluate]. exists (dq_of dq_one).
  split; [evaluate|]. split; [exact M|]. split; [exact Es|]. split; [evaluate|]. split; [exact Ec|evaluate].
Qed.

Lemma data_queue_refines_queue_witness :
  exists a, aruns 2 1 (AQueue [(100, 7)] false [] []) run_events a /\ dq_repr a_dq 2 1 a masked /\
    [(100, 7)] ++ all_put run_events = all_got run_events ++ items a.
Proof.
  destruct (data_queue_refines_queue not_notified not_notified_ok a_dq 2 1 (AQueue [(100, 7)] false [] [])
    dq_one masked run_events false) as (a & R & O & E & _).
  - apply dq_one_repr.
  - apply masked_run.
  - exists a. split; [exact R|]. split; [exact O|exact E].
Defined.

(** The queue is at its low water mark with the note set and no writer: the pop gives the
    item, and the interrupts stay disabled. *)
Example pop_leaves_interrupts_disabled :
  match pop 0 (after (push 300 9 0) two_items) with
  | Ok (r, _) => r = Return (RT_EOK, Some (100, 7), false)
  | _ => False
  end.
Proof. vm_compute. reflexivity. Qed.

End Demo.
