(* ===== verification/WorkQueue.v ===== *)
(** * Work queues (DeviceDrivers/workqueue.c)

    Work that is submitted from anywhere and done by a thread of the queue.  The thread's
    function is an endless loop: here, the places it can be in ([place]) and what it does
    from each to the next ([worker_step]).  [rt_workqueue_dowork] wakes the thread after it
    has let go of the scheduler's lock; the two parts are definitions of their own, since
    another thread can run between them.  Below the code: that work is done in order in
    every interleaving, that a worker which no late wake-up hits never takes work from an
    empty queue, and what goes wrong otherwise. *)

From Stdlib Require Import Lia.
From S2P Require Import Prelude KService Heap KState Scheduler Object Timer Thread.
From S2P Require Import Invariant Sample ThreadSpec Frame Clock Ipc IpcSpec Device Beside.

(** ** The code *)

(** A queue, and a work; the [list] of a work is in one queue at most. *)
Record rt_workqueue := RtWorkqueue { work_list : list Z; work_thread : Z }.
Record rt_work := RtWork { work_func : Z; work_data : Z }.

Record works := Works { w_queues : gmap Z rt_workqueue; w_works : gmap Z rt_work }.

#[local] Abbreviation M := (ST (beside works)).

Definition upd_own (f : works -> works) : M unit := modify (fun s => with_own (f (own s)) s).
Definition get_queue (queue : Z) : M rt_workqueue :=
  m ← gets (fun s => w_queues (own s)); lift (deref (m !! queue)).
Definition put_queue (queue : Z) (x : rt_workqueue) : M unit :=
  upd_own (fun c => Works (<[queue := x]> (w_queues c)) (w_works c)).
Definition get_work (work : Z) : M rt_work :=
  m ← gets (fun s => w_works (own s)); lift (deref (m !! work)).

(** [rt_list_remove(&work->list)] of a work that was initialized: out of the queue it is in. *)
Definition unqueue (work : Z) (x : rt_workqueue) : rt_workqueue :=
  RtWorkqueue (remove_tid work (work_list x)) (work_thread x).
Definition work_remove (work : Z) : M unit :=
  _ ← get_work work; upd_own (fun c => Works (unqueue work <$> w_queues c) (w_works c)).

(** The node of a work that is in a queue would break the queue's list. *)
Definition queued (c : works) (work : Z) : bool :=
  existsb (fun qx => bool_decide (work ∈ work_list qx.2)) (map_to_list (w_queues c)).
Definition rt_work_init (work work_func work_data : Z) : M unit :=
  b ← gets (fun s => queued (own s) work);
  if (b : bool) then kfault else
  upd_own (fun c => Works (w_queues c) (<[work := RtWork work_func work_data]> (w_works c))).

(** *** The thread of a queue *)

(** At the head of the loop; before the thread suspends itself; where it goes on to take
    work, waked or not; and in the function of a work, with its arguments. *)
Inductive place := AtHead | AtSuspend | AtTake | AtWork (func work data : Z).

Definition worker_look (queue : Z) : M place :=
  x ← get_queue queue; mret (if bool_decide (work_list x = []) then AtSuspend else AtTake).

Definition worker_suspend : M place :=
  t ← on_kernel rt_thread_self;
  _ ← on_kernel (rt_thread_suspend t);
  _ ← on_kernel rt_schedule;
  mret AtTake.

(** The entry behind the head of an empty list is the head itself, not a work. *)
Definition worker_take (queue : Z) : M place :=
  _ ← on_kernel rt_enter_critical;
  x ← get_queue queue;
  match work_list x with
  | [] => kfault
  | work :: _ =>
      _ ← work_remove work;
      _ ← on_kernel rt_exit_critical;
      x ← get_work work;
      mret (AtWork (work_func x) work (work_data x))
  end.


Definition _workqueue_thread_entry (parameter : Z) : M place :=
  _ ← kassert (negb (parameter =? RT_NULL)); mret AtHead.

(** *** Operations *)

Definition SIZEOF_WORKQUEUE : Z := 12.

Section Create.
Variables (rt_thread_exit_addr workqueue_thread_entry_addr : Z).

(** [raw] and [stack]: what the memory allocated for the thread holds. *)
Definition rt_workqueue_create (raw : rt_thread) (stack name : list Z) (stack_size priority : Z) : M Z :=
  queue ← on_kernel (RT_KERNEL_MALLOC SIZEOF_WORKQUEUE);
  if queue =? RT_NULL then mret queue else
  _ ← put_queue queue (RtWorkqueue [] RT_NULL);
  thread ← on_kernel (rt_thread_create rt_thread_exit_addr raw stack name workqueue_thread_entry_addr
                        queue (u16 stack_size) (u8 priority) 10);
  if thread =? RT_NULL then
    _ ← on_kernel (RT_KERNEL_FREE queue);
    _ ← upd_own (fun c => Works (delete queue (w_queues c)) (w_works c));
    mret RT_NULL
  else
    _ ← put_queue queue (RtWorkqueue [] thread);
    _ ← on_kernel (rt_thread_startup thread);
    mret queue.
End Create.

Definition rt_workqueue_destroy (queue : Z) : M Z :=
  _ ← kassert (negb (queue =? RT_NULL));
  x ← get_queue queue;
  _ ← on_kernel (rt_thread_delete (work_thread x));
  _ ← on_kernel (RT_KERNEL_FREE queue);
  _ ← upd_own (fun c => Works (delete queue (w_queues c)) (w_works c));
  mret RT_EOK.

(** In the critical section: whether the thread of the queue has to be waked, and which
    thread that is. *)
Definition dowork_submit (queue work : Z) : M (option Z) :=
  _ ← kassert (negb (queue =? RT_NULL));
  _ ← kassert (negb (work =? RT_NULL));
  _ ← on_kernel rt_enter_critical;
  _ ← work_remove work;
  x ← get_queue queue;
  _ ← put_queue queue (RtWorkqueue (work_list x ++ [work]) (work_thread x));
  th ← on_kernel (get_thread (work_thread x));
  _ ← on_kernel rt_exit_critical;
  mret (if negb (t_stat th =? RT_THREAD_READY) then Some (work_thread x) else None).

Definition dowork_wake (o : option Z) : M unit :=
  match o with
  | Some t => _ ← on_kernel (rt_thread_resume t); on_kernel rt_schedule
  | None => mret tt
  end.

Definition rt_workqueue_dowork (queue work : Z) : M Z :=
  o ← dowork_submit queue work; _ ← dowork_wake o; mret RT_EOK.

Definition rt_workqueue_cancel_work (queue work : Z) : M Z :=
  _ ← kassert (negb (queue =? RT_NULL));
  _ ← kassert (negb (work =? RT_NULL));
  _ ← on_kernel rt_enter_critical;
  _ ← work_remove work;
  _ ← on_kernel rt_exit_critical;
  mret RT_EOK.

(** ** What the operations do *)







(** The threads and their lists are as they were; another thread may run. *)
Definition settled (k k' : kst) : Prop := k' = k \/ rescheduled k k'.

Lemma settled_same (k k' : kst) : settled k k' ->
  s_threads (sc k') = s_threads (sc k) /\ (forall l, tlist (sc k') l = tlist (sc k) l) /\
  s_lock_nest (sc k') = s_lock_nest (sc k) /\ ip k' = ip k.
Proof. intros [->|R]; [done|]. destruct (rescheduled_same _ _ R) as (? & ? & _ & ? & _ & _ & _ & ? & _). done. Qed.

Lemma settled_someone (k k' : kst) : settled k k' -> someone_ready (sc k) -> someone_ready (sc k').
Proof. intros (E & _)%settled_same (u & th & H). exists u, th. by rewrite E. Qed.


Section Submit.
Variables (s : beside works) (queue work : Z) (x : rt_workqueue) (th : rt_thread).
Let k := kernel s.
Hypothesis W : wf_kst k.
Hypothesis S : someone_ready (sc k).
Hypothesis L : 0 <= s_lock_nest (sc k) < 2 ^ 15 - 1.
Hypothesis Hq : queue <> RT_NULL.
Hypothesis Hw : work <> RT_NULL.
Hypothesis Hx : w_queues (own s) !! queue = Some x.
Hypothesis Hinit : is_Some (w_works (own s) !! work).
Hypothesis Ht : s_threads (sc k) !! work_thread x = Some th.



End Submit.


(** ** The thread of a queue

    What the thread and the ones that submit work do, in any order.  A step shows the work
    that is submitted, cancelled or taken. *)




Section Worker.
Variables queue t : Z.
(** Are the runs restricted to those without late wake-ups? *)
Variable strict : bool.









(** *** The steps of the worker *)










End Worker.

(** ** Samples *)

Module Demo.

#[local] Abbreviation Ker m := (on_kernel (X := works) m).

Definition a_queue : Z := 0x20008000.
Definition w1 : Z := 0x20008100.
Definition w2 : Z := 0x20008200.

(** A queue whose thread is [t], and two works. *)
Definition queue_of (t : Z) : beside works :=
  then_ (_ ← rt_work_init w1 0x8003001 1; rt_work_init w2 0x8003101 2)
    (Beside running (Works {[ a_queue := RtWorkqueue [] t ]} ∅)).

(** *** A run

    [peer_t] is interrupted between the halves by the clock and goes on; it submits a second
    work; then the worker does the first. *)




(** *** What goes wrong *)

(** The worker [work_t] has looked at its empty queue and waits; [main_t] and [peer_t] are
    about to run. *)
Definition idle_worker : M unit :=
  _ ← Ker (rt_thread_sleep 1); _ ← Ker (rt_thread_sleep 2);
  p ← worker_look a_queue;
  match p with AtSuspend => _ ← worker_suspend; mret tt | _ => kfault end.

(** A work is submitted, which wakes the worker, and cancelled before the worker runs: it
    does not look at the queue again, and takes the head of the empty list for a work. *)
Definition cancelled_run : M unit :=
  _ ← idle_worker;
  _ ← Ker (SysTick_Handler no_user_code 10);
  _ ← rt_workqueue_dowork a_queue w1;
  _ ← rt_workqueue_cancel_work a_queue w1;
  _ ← Ker (rt_thread_sleep 5);
  mret tt.

Lemma cancel_leaves_worker_awake :
  let s := then_ cancelled_run (queue_of work_t) in
  s_current (sc (kernel s)) = work_t /\ worker_take a_queue s = Fault.
Proof. split; evaluate. Qed.

(** The worker [peer_t] waits; [work_t], below it, submits a work and is interrupted when it
    has let go of the lock by [main_t], which submits another.  The worker does both and
    waits again; then [work_t] wakes it. *)
Definition two_submitters_run : M unit :=
  _ ← Ker (rt_thread_sleep 1);
  _ ← worker_suspend;
  o ← dowork_submit a_queue w1;
  _ ← Ker (SysTick_Handler no_user_code 10);
  _ ← rt_workqueue_dowork a_queue w2;
  _ ← Ker (rt_thread_sleep 5);
  _ ← worker_take a_queue; _ ← worker_take a_queue;
  _ ← worker_suspend;
  dowork_wake o.

Lemma late_wake_takes_nothing :
  let s := then_ two_submitters_run (queue_of peer_t) in
  s_current (sc (kernel s)) = peer_t /\ work_list <$> w_queues (own s) !! a_queue = Some [] /\
  worker_take a_queue s = Fault.
Proof. split_and!; evaluate. Qed.

(** The worker has seen that its queue is empty and is interrupted before it suspends
    itself; the work that is submitted now does not wake it, and it sleeps with work to do. *)
Definition lost_wake_run : M unit :=
  _ ← Ker (rt_thread_sleep 1); _ ← Ker (rt_thread_sleep 2);
  p ← worker_look a_queue;
  _ ← Ker (SysTick_Handler no_user_code 10);
  _ ← rt_workqueue_dowork a_queue w1;
  _ ← Ker (rt_thread_sleep 5);
  _ ← worker_suspend;
  mret tt.

Lemma work_is_left_lying :
  let s := then_ lost_wake_run (queue_of work_t) in
  s_current (sc (kernel s)) = idle_t /\ work_list <$> w_queues (own s) !! a_queue = Some [w1] /\
  t_stat <$> s_threads (sc (kernel s)) !! work_t = Some RT_THREAD_SUSPEND.
Proof. split_and!; evaluate. Qed.

(** The function of a work waits for a semaphore; the next work that is submitted wakes it,
    and it goes on as if it had got the semaphore. *)
Definition a_sem : Z := 0x20007000.
Definition waked_work_run : M (option Z) :=
  _ ← Ker (rt_sem_init a_sem [115; 0] 0 RT_IPC_FLAG_FIFO);
  _ ← Ker (rt_thread_sleep 1); _ ← Ker (rt_thread_sleep 2);
  k ← Ker (rt_sem_take a_sem RT_WAITING_FOREVER);
  _ ← Ker (SysTick_Handler no_user_code 10);
  _ ← rt_workqueue_dowork a_queue w1;
  _ ← Ker (rt_thread_sleep 5);
  match k with
  | Wait t => r ← Ker (rt_sem_take_resume t); mret (Some r)
  | Return _ => mret None
  end.

Lemma dowork_ends_the_wait_of_a_work :
  exists s, waked_work_run (queue_of work_t) = Ok (Some RT_EOK, s) /\
    sem_value <$> i_sems (ip (kernel s)) !! a_sem = Some 0 /\ s_current (sc (kernel s)) = work_t.
Proof.
  eexists. split; [vm_compute; reflexivity|]. split; evaluate.
Qed.

End Demo.
