(* ===== verification/Pipe.v ===== *)
(** * Pipes and portals (DeviceDrivers/pipe.c, portal.c)

    A pipe is a device over a ring buffer, on whose ends threads wait: the readers in
    [LSuspend pipe] (the suspended_read_list), the writers in [LSender pipe] (the
    suspended_write_list).  A portal is a device that writes into one pipe and reads from
    another, and passes on what the pipes indicate.  [struct rt_device], with which both
    structures start, is in the kernel's table of devices; the class of a device is the
    table it is in.  A thread that waits in a pipe goes on with the loop it was in.

    Below the code: what comes out of a pipe is what was put in, in order, whoever waits;
    and with one thread at each end nobody waits for what is there. *)

From Stdlib Require Import Lia.
From S2P Require Import Prelude RingBuffer KService Heap KState Scheduler Object Timer Thread.
From S2P Require Import Invariant Sample ThreadSpec Frame Clock Ipc IpcSpec Completion Device Beside.

(** ** The code *)

Definition RT_PIPE_FLAG_BLOCK_RD : Z := 0x01.
Definition RT_PIPE_FLAG_BLOCK_WR : Z := 0x02.
Definition RT_PIPE_FLAG_FORCE_WR : Z := 0x04.
Definition PIPE_CTRL_GET_SPACE : Z := 0x14.
Definition RT_DEVICE_OFLAG_RDONLY : Z := 0x001.
Definition RT_DEVICE_OFLAG_WRONLY : Z := 0x002.

(** [buffer_ptr] is the address of the memory the ring buffer has. *)
Record rt_pipe_device := RtPipe {
  p_ring : ringbuffer; p_buffer : Z; p_flag : Z; p_write_portal : Z; p_read_portal : Z }.
Record rt_portal_device := RtPortal { pt_write_dev : Z; pt_read_dev : Z }.

Record pipes := Pipes { ps_pipes : gmap Z rt_pipe_device; ps_portals : gmap Z rt_portal_device }.

#[local] Abbreviation M := (ST (beside pipes)).

Definition get_pipe (dev : Z) : M rt_pipe_device :=
  m ← gets (fun s => ps_pipes (own s)); lift (deref (m !! dev)).
Definition put_pipe (dev : Z) (x : rt_pipe_device) : M unit :=
  modify (fun s => with_own (Pipes (<[dev := x]> (ps_pipes (own s))) (ps_portals (own s))) s).
Definition get_portal (dev : Z) : M rt_portal_device :=
  m ← gets (fun s => ps_portals (own s)); lift (deref (m !! dev)).
Definition put_portal (dev : Z) (x : rt_portal_device) : M unit :=
  modify (fun s => with_own (Pipes (ps_pipes (own s)) (<[dev := x]> (ps_portals (own s)))) s).

Definition pipe_ring (rb : ringbuffer) (x : rt_pipe_device) : rt_pipe_device :=
  RtPipe rb (p_buffer x) (p_flag x) (p_write_portal x) (p_read_portal x).
Definition pipe_write_portal (p : Z) (x : rt_pipe_device) : rt_pipe_device :=
  RtPipe (p_ring x) (p_buffer x) (p_flag x) p (p_read_portal x).
Definition pipe_read_portal (p : Z) (x : rt_pipe_device) : rt_pipe_device :=
  RtPipe (p_ring x) (p_buffer x) (p_flag x) (p_write_portal x) p.

(** [dev->type == RT_Device_Class_Pipe] *)
Definition is_pipe (dev : Z) : M bool := gets (fun s => bool_decide (is_Some (ps_pipes (own s) !! dev))).
Definition has (flag x : Z) : bool := negb (Z.land x flag =? 0).

(** What the compiler gives: the addresses of the functions of the two files, and the sizes
    of the two structures. *)
Class PipeCode := {
  sizeof_rt_pipe_device : Z; sizeof_rt_portal_device : Z;
  rt_pipe_read_addr : Z; rt_pipe_write_addr : Z; rt_pipe_control_addr : Z;
  portal_init_addr : Z; portal_open_addr : Z; portal_close_addr : Z;
  portal_read_addr : Z; portal_write_addr : Z;
  portal_rx_indicate_addr : Z; portal_tx_complete_addr : Z }.

Section Pipe.
Context `{PipeCode}.
(** The functions of others that are told of data, and of buffers that were sent: address,
    device, argument. *)
Variable user_indicate : Z -> Z -> Z -> M Z.
Variable user_complete : Z -> Z -> Z -> M Z.

(** *** Indications

    A function is called by its address; [fuel] bounds the portals that pass an indication
    on, which is two at most, since a portal is not a pipe. *)

Definition _portal_rx_indicate (call : Z -> Z -> Z -> M Z) (dev size : Z) : M Z :=
  b ← is_pipe dev;
  _ ← kassert (negb (dev =? RT_NULL) && b);
  pipe ← get_pipe dev;
  x ← on_kernel (get_device (p_read_portal pipe));
  if negb (d_rx_indicate x =? RT_NULL) then call (d_rx_indicate x) (p_read_portal pipe) size
  else mret (- RT_ENOSYS).

Definition _portal_tx_complete (call : Z -> Z -> Z -> M Z) (dev buf : Z) : M Z :=
  b ← is_pipe dev;
  _ ← kassert (negb (dev =? RT_NULL) && b);
  pipe ← get_pipe dev;
  x ← on_kernel (get_device (p_write_portal pipe));
  if negb (d_tx_complete x =? RT_NULL) then call (d_tx_complete x) (p_write_portal pipe) buf
  else mret (- RT_ENOSYS).

Fixpoint call_rx_indicate (fuel : nat) (f dev size : Z) : M Z :=
  match fuel with
  | O => hang
  | S fuel =>
      if f =? portal_rx_indicate_addr then _portal_rx_indicate (call_rx_indicate fuel) dev size
      else user_indicate f dev size
  end.
Fixpoint call_tx_complete (fuel : nat) (f dev buf : Z) : M Z :=
  match fuel with
  | O => hang
  | S fuel =>
      if f =? portal_tx_complete_addr then _portal_tx_complete (call_tx_complete fuel) dev buf
      else user_complete f dev buf
  end.

(** *** Pipes *)

Definition _rt_pipe_resume_writer (dev : Z) : M unit :=
  e ← on_kernel (rt_list_isempty (LSender dev));
  if negb (e : bool) then
    x ← get_pipe dev;
    _ ← kassert (has RT_PIPE_FLAG_BLOCK_WR (p_flag x));
    thread ← on_kernel (first_entry (LSender dev));
    _ ← on_kernel (rt_thread_resume thread);
    on_kernel rt_schedule
  else mret tt.

Definition _rt_pipe_resume_reader (dev : Z) : M unit :=
  x ← on_kernel (get_device dev);
  _ ← (if negb (d_rx_indicate x =? RT_NULL) then
         pipe ← get_pipe dev;
         _ ← call_rx_indicate 2 (d_rx_indicate x) dev (rt_ringbuffer_data_len (p_ring pipe)); mret tt
       else mret tt);
  e ← on_kernel (rt_list_isempty (LSuspend dev));
  if negb (e : bool) then
    x ← get_pipe dev;
    _ ← kassert (has RT_PIPE_FLAG_BLOCK_RD (p_flag x));
    thread ← on_kernel (first_entry (LSuspend dev));
    _ ← on_kernel (rt_thread_resume thread);
    on_kernel rt_schedule
  else mret tt.

(** A call that waits goes on with its loop: the arguments and [thread]. *)
Record read_k := ReadK { rk_dev : Z; rk_size : Z; rk_thread : Z }.
Record write_k := WriteK { wr_dev : Z; wr_buffer : list Z; wr_thread : Z }.

Definition ring_get (dev size : Z) : M (Z * list Z) :=
  x ← get_pipe dev;
  '(n, data, rb) ← lift (rt_ringbuffer_get (p_ring x) (u16 size));
  _ ← put_pipe dev (pipe_ring rb x);
  mret (n, data).

Definition pipe_park (l : lid) (thread : Z) : M unit :=
  _ ← on_kernel (rt_thread_suspend thread);
  _ ← on_kernel (tlist_push_back l thread);
  on_kernel rt_schedule.

(** One round of the loop of [rt_pipe_read]: the number of bytes and the bytes. *)
Definition pipe_read_loop (dev size thread : Z) : M (outcome (Z * list Z) read_k) :=
  r ← ring_get dev size;
  if r.1 =? 0 then
    _ ← pipe_park (LSuspend dev) thread;
    mret (Wait (ReadK dev size thread))
  else
    _ ← _rt_pipe_resume_writer dev;
    mret (Return r).

Definition rt_pipe_read (dev size : Z) : M (outcome (Z * list Z) read_k) :=
  _ ← kassert (negb (dev =? RT_NULL));
  x ← get_pipe dev;
  if negb (has RT_PIPE_FLAG_BLOCK_RD (p_flag x)) then
    r ← ring_get dev size;
    _ ← (if negb (r.1 =? 0) then _rt_pipe_resume_writer dev else mret tt);
    mret (Return r)
  else
    thread ← on_kernel rt_thread_self;
    _ ← on_kernel RT_DEBUG_NOT_IN_INTERRUPT;
    pipe_read_loop dev size thread.
Definition rt_pipe_read_resume (k : read_k) : M (outcome (Z * list Z) read_k) :=
  pipe_read_loop (rk_dev k) (rk_size k) (rk_thread k).

Definition ring_put (dev : Z) (buffer : list Z) (put : ringbuffer -> list Z -> Z -> res (Z * ringbuffer)) : M Z :=
  x ← get_pipe dev;
  '(n, rb) ← lift (put (p_ring x) buffer (u16 (Z.of_nat (length buffer))));
  _ ← put_pipe dev (pipe_ring rb x);
  mret n.

Definition pipe_write_loop (dev : Z) (buffer : list Z) (thread : Z) : M (outcome Z write_k) :=
  write_nbytes ← ring_put dev buffer rt_ringbuffer_put;
  if write_nbytes =? 0 then
    _ ← pipe_park (LSender dev) thread;
    mret (Wait (WriteK dev buffer thread))
  else
    _ ← _rt_pipe_resume_reader dev;
    mret (Return write_nbytes).

Definition rt_pipe_write (dev : Z) (buffer : list Z) : M (outcome Z write_k) :=
  _ ← kassert (negb (dev =? RT_NULL));
  x ← get_pipe dev;
  if has RT_PIPE_FLAG_FORCE_WR (p_flag x) || negb (has RT_PIPE_FLAG_BLOCK_WR (p_flag x)) then
    write_nbytes ← ring_put dev buffer
      (if has RT_PIPE_FLAG_FORCE_WR (p_flag x) then rt_ringbuffer_put_force else rt_ringbuffer_put);
    _ ← _rt_pipe_resume_reader dev;
    mret (Return write_nbytes)
  else
    thread ← on_kernel rt_thread_self;
    _ ← on_kernel RT_DEBUG_NOT_IN_INTERRUPT;
    pipe_write_loop dev buffer thread.
Definition rt_pipe_write_resume (k : write_k) : M (outcome Z write_k) :=
  pipe_write_loop (wr_dev k) (wr_buffer k) (wr_thread k).

(** What is stored through [args]. *)
Definition rt_pipe_control (dev cmd args : Z) : M (Z * option Z) :=
  if (cmd =? PIPE_CTRL_GET_SPACE) && negb (args =? RT_NULL) then
    x ← get_pipe dev; mret (RT_EOK, Some (rt_ringbuffer_space_len (p_ring x)))
  else mret (RT_EOK, None).

(** [pool]: the memory at [buf]; [raw]: what the structure of the pipe holds. *)
Definition rt_pipe_init (raw : rt_pipe_device) (pipe : Z) (name : list Z) (flag buf : Z) (pool : list Z) (size : Z) : M Z :=
  _ ← kassert (negb (pipe =? RT_NULL));
  _ ← kassert (negb (buf =? RT_NULL));
  _ ← on_kernel (list_init (LSuspend pipe));
  _ ← on_kernel (list_init (LSender pipe));
  rb ← lift (rt_ringbuffer_init pool (s16 size));
  _ ← put_pipe pipe (RtPipe rb buf flag (p_write_portal raw) (p_read_portal raw));
  _ ← on_kernel (device_functions RT_NULL RT_NULL RT_NULL rt_pipe_read_addr rt_pipe_write_addr
                   rt_pipe_control_addr pipe);
  on_kernel (rt_device_register pipe name RT_DEVICE_FLAG_RDWR).

Definition rt_pipe_detach (pipe : Z) : M Z := on_kernel (rt_device_unregister pipe).

Definition zero_pipe : rt_pipe_device := RtPipe (Ringbuffer [] 0 0 0 0 0) 0 0 0 0.

(** [rt_calloc], which calls [rt_malloc]; it clears the structure. *)
Definition calloc (size : Z) : K Z := _ ← RT_DEBUG_NOT_IN_INTERRUPT; lift_heap (rt_calloc 1 size).

(** [pool]: what the memory of the ring buffer holds. *)
Definition rt_pipe_create (name : list Z) (flag : Z) (pool : list Z) (size : Z) : M Z :=
  let size := RT_ALIGN (u32 size) RT_ALIGN_SIZE in
  pipe ← on_kernel (calloc sizeof_rt_pipe_device);
  if pipe =? RT_NULL then mret (- RT_ENOMEM) else
  _ ← on_kernel (put_device pipe zero_device);
  rb_memptr ← on_kernel (RT_KERNEL_MALLOC size);
  if rb_memptr =? RT_NULL then
    _ ← on_kernel (RT_KERNEL_FREE pipe); _ ← on_kernel (modify (forget pipe));
    mret (- RT_ENOMEM)
  else rt_pipe_init zero_pipe pipe name flag rb_memptr pool size.

Definition drop_pipe (pipe : Z) : M unit :=
  _ ← on_kernel (modify (forget pipe));
  modify (fun s => with_own (Pipes (delete pipe (ps_pipes (own s))) (ps_portals (own s))) s).
Definition rt_pipe_destroy (pipe : Z) : M unit :=
  if pipe =? RT_NULL then mret tt else
  _ ← rt_pipe_detach pipe;
  x ← get_pipe pipe;
  _ ← on_kernel (RT_KERNEL_FREE (p_buffer x));
  _ ← on_kernel (RT_KERNEL_FREE pipe);
  drop_pipe pipe.

(** *** Devices whose functions are those of a pipe

    [rt_device_read] and [rt_device_write] of device.c for them; the functions can wait,
    which those of the interface [Driver] do not. *)

Definition device_read (dev size : Z) : M (outcome (Z * list Z) read_k) :=
  _ ← kassert (negb (dev =? RT_NULL));
  x ← on_kernel (get_device dev);
  if d_ref_count x =? 0 then _ ← on_kernel (rt_set_errno (- RT_ERROR)); mret (Return (0, [])) else
  if negb (d_read x =? RT_NULL) then
    if d_read x =? rt_pipe_read_addr then rt_pipe_read dev size else kfault
  else _ ← on_kernel (rt_set_errno (- RT_ENOSYS)); mret (Return (0, [])).

Definition device_write (dev : Z) (buffer : list Z) : M (outcome Z write_k) :=
  _ ← kassert (negb (dev =? RT_NULL));
  x ← on_kernel (get_device dev);
  if d_ref_count x =? 0 then _ ← on_kernel (rt_set_errno (- RT_ERROR)); mret (Return 0) else
  if negb (d_write x =? RT_NULL) then
    if d_write x =? rt_pipe_write_addr then rt_pipe_write dev buffer else kfault
  else _ ← on_kernel (rt_set_errno (- RT_ENOSYS)); mret (Return 0).

(** *** Portals *)

Section Portal.
Context `{Driver}.

Definition _portal_init (dev : Z) : M Z :=
  _ ← kassert (negb (dev =? RT_NULL));
  portal ← get_portal dev;
  err ← on_kernel (rt_device_init (pt_write_dev portal));
  if negb (err =? RT_EOK) then mret err else on_kernel (rt_device_init (pt_read_dev portal)).

Definition open_side (asked : bool) (dev oflag : Z) : M Z :=
  if asked then on_kernel (rt_device_open dev oflag) else mret RT_EOK.
Definition _portal_open (dev oflag : Z) : M Z :=
  _ ← kassert (negb (dev =? RT_NULL));
  if oflag =? 0 then mret (- RT_ERROR) else
  portal ← get_portal dev;
  err ← open_side (has RT_DEVICE_OFLAG_RDONLY oflag) (pt_read_dev portal) RT_DEVICE_OFLAG_RDONLY;
  if negb (err =? RT_EOK) then mret err else
  err ← open_side (has RT_DEVICE_OFLAG_WRONLY oflag) (pt_write_dev portal) RT_DEVICE_OFLAG_WRONLY;
  if negb (err =? RT_EOK) then mret err else mret RT_EOK.

Definition _portal_close (dev : Z) : M Z :=
  _ ← kassert (negb (dev =? RT_NULL));
  portal ← get_portal dev;
  _ ← on_kernel (rt_device_close (pt_write_dev portal));
  _ ← on_kernel (rt_device_close (pt_read_dev portal));
  mret RT_EOK.

End Portal.

Definition _portal_read (dev size : Z) : M (outcome (Z * list Z) read_k) :=
  portal ← get_portal dev; device_read (pt_read_dev portal) size.
Definition _portal_write (dev : Z) (buffer : list Z) : M (outcome Z write_k) :=
  portal ← get_portal dev; device_write (pt_write_dev portal) buffer.

(** The end of a portal at a pipe: what the pipe indicates goes to the portal, and what it
    was told to call before is called by the portal. *)
Definition connect_write (portal dev : Z) : M unit :=
  b ← is_pipe dev;
  _ ← kassert b;
  x ← get_portal portal;
  _ ← put_portal portal (RtPortal dev (pt_read_dev x));
  y ← on_kernel (get_device dev);
  _ ← on_kernel (rt_device_set_tx_complete portal (d_tx_complete y));
  _ ← on_kernel (rt_device_set_tx_complete dev portal_tx_complete_addr);
  pipe ← get_pipe dev; put_pipe dev (pipe_write_portal portal pipe).
Definition connect_read (portal dev : Z) : M unit :=
  b ← is_pipe dev;
  _ ← kassert b;
  x ← get_portal portal;
  _ ← put_portal portal (RtPortal (pt_write_dev x) dev);
  y ← on_kernel (get_device dev);
  _ ← on_kernel (rt_device_set_rx_indicate portal (d_rx_indicate y));
  _ ← on_kernel (rt_device_set_rx_indicate dev portal_rx_indicate_addr);
  pipe ← get_pipe dev; put_pipe dev (pipe_read_portal portal pipe).

Definition rt_portal_init (raw : rt_portal_device) (portal : Z) (portal_name write_dev read_dev : list Z) : M Z :=
  _ ← kassert (negb (portal =? RT_NULL));
  _ ← put_portal portal raw;
  _ ← on_kernel (device_functions portal_init_addr portal_open_addr portal_close_addr portal_read_addr
                   portal_write_addr RT_NULL portal);
  dev ← on_kernel (rt_device_find write_dev);
  if dev =? RT_NULL then mret (- RT_ENOSYS) else
  _ ← connect_write portal dev;
  dev ← on_kernel (rt_device_find read_dev);
  if dev =? RT_NULL then
    x ← on_kernel (get_device portal);
    _ ← on_kernel (rt_device_set_tx_complete dev (d_tx_complete x));
    mret (- RT_ENOSYS)
  else
  _ ← connect_read portal dev;
  on_kernel (rt_device_register portal portal_name RT_DEVICE_FLAG_RDWR).

Definition rt_portal_detach (portal : Z) : M Z := on_kernel (rt_device_unregister portal).

Definition rt_portal_create (name write_dev read_dev : list Z) : M Z :=
  portal ← on_kernel (calloc sizeof_rt_portal_device);
  if portal =? RT_NULL then mret (- RT_ENOMEM) else
  _ ← on_kernel (put_device portal zero_device);
  rt_portal_init (RtPortal RT_NULL RT_NULL) portal name write_dev read_dev.

Definition rt_portal_destroy (portal : Z) : M unit :=
  if portal =? RT_NULL then mret tt else
  _ ← rt_portal_detach portal;
  _ ← on_kernel (RT_KERNEL_FREE portal);
  _ ← on_kernel (modify (forget portal));
  modify (fun s => with_own (Pipes (ps_pipes (own s)) (delete portal (ps_portals (own s)))) s).

End Pipe.

(** ** What an operation does *)

(** The first thread of a list is waked. *)
Lemma wp_wake_first (l : lid) (u : Z) (rest : list Z) (k : kst) (Q : unit -> kst -> Prop) :
  wf_kst k -> wait_list l -> tlist (sc k) l = u :: rest ->
  (forall k', wf_kst k' -> waked (fun _ th => th) [u] (sc k) (sc k') -> ip k' = ip k ->
     (forall l', wait_list l' -> tlist (sc k') l' = if decide (l' = l) then rest else tlist (sc k) l') ->
     (s_lock_nest (sc k) = 0 -> on_policy k') -> Q tt k') ->
  wp (first_entry l) (fun t => wp (rt_thread_resume t) (fun _ => wp rt_schedule Q)) k.
Proof.
  intros W Hl E HQ. eapply wp_first_entry; [exact E|].
  destruct (first_waiting k l u rest W Hl E) as (thu & Hu & Hs).
  eapply wp_resume; [done..|]. destruct (resumed_someone u thu k W Hu Hs) as [W1 R1].
  apply wp_reschedule; [done..|]. intros k' R W'.
  destruct (rescheduled_same _ _ R) as (E1 & E2 & _ & _ & _ & _ & _ & E8 & _). apply HQ; [done| | | |].
  - eapply waked_after; [by apply resumed_waked_id|exact E1|exact E2].
  - by rewrite E8, resumed_ip.
  - intros l' Hl'. rewrite E2, resumed_lists, decide_False by (intros ->; done). case_decide as El.
    + subst. rewrite E. apply remove_tid_head. rewrite <- E. apply W.
    + apply remove_tid_notin. intros Hin. apply El. eapply (ws_disj _ (wk_sched _ W)); [exact Hin|].
      rewrite E. by left.
  - intros L. apply (on_policy_rescheduled _ _ R). cbn. by rewrite stopped_sc.
Qed.

(** The caller waits in a list for as long as it takes. *)
Lemma wp_pipe_park (l : lid) (t : Z) (th : rt_thread) (s : beside pipes) (Q : unit -> beside pipes -> Prop) :
  caller (kernel s) t th -> wait_list l ->
  (forall k', blocked l RT_IPC_FLAG_FIFO t RT_WAITING_FOREVER th (kernel s) k' -> Q tt (with_kernel k' s)) ->
  wp (pipe_park l t) Q s.
Proof.
  intros C Hl HQ. unfold pipe_park. ostep. on_k.
  assert (P : wp (rt_thread_suspend t) (fun _ => wp (tlist_push_back l t)
    (fun _ => wp rt_schedule (fun _ k' => Q tt (with_kernel k' s)))) (kernel s)).
  { eapply wp_park; [done..|].
    pose proof (wp_arm_schedule (kernel s) l RT_IPC_FLAG_FIFO t th (ca_wf _ _ _ C) Hl
      (ca_thread _ _ _ C) (ca_ready _ _ _ C) RT_WAITING_FOREVER ltac:(done)
      (ca_other _ _ _ C) (fun _ k' => Q tt (with_kernel k' s))) as A.
    apply A. intros k' W' R. apply HQ. by apply waiting_blocked. }
  eapply wp_mono; [exact P|]. intros e k1 P1. ostep. on_k. eapply wp_mono; [exact P1|].
  intros [] k2 P2. on_k. eapply wp_mono; [exact P2|]. by intros [] k3.
Qed.

Section Spec.
Context `{PipeCode}.
Variable user_indicate : Z -> Z -> Z -> M Z.

(** What the function that is told of data leaves alone: pipes and portals, and the
    threads that wait in pipes.  It may wake others. *)
Record told (s s' : beside pipes) : Prop := {
  tl_wf : wf_kst (kernel s');
  tl_own : own s' = own s;
  tl_devices : i_devices (ip (kernel s')) = i_devices (ip (kernel s));
  tl_lists : forall p, is_Some (ps_pipes (own s) !! p) ->
    tlist (sc (kernel s')) (LSuspend p) = tlist (sc (kernel s)) (LSuspend p) /\
    tlist (sc (kernel s')) (LSender p) = tlist (sc (kernel s)) (LSender p);
}.
Hypothesis user_ok : forall f dev size s,
  wf_kst (kernel s) -> wp (user_indicate f dev size) (fun _ s' => told s s') s.

Variable dev : Z.

(** What is told of the data of the pipe: nothing, a function of others, or a portal at the
    reading end that passes it on to one. *)
Definition chain_ok (s : beside pipes) : Prop :=
  exists x, i_devices (ip (kernel s)) !! dev = Some x /\
    (d_rx_indicate x = portal_rx_indicate_addr -> exists p y, ps_pipes (own s) !! dev = Some p /\
       i_devices (ip (kernel s)) !! p_read_portal p = Some y /\
       d_rx_indicate y <> portal_rx_indicate_addr).

Lemma wp_get_pipe (x : rt_pipe_device) (Q : rt_pipe_device -> beside pipes -> Prop) s :
  ps_pipes (own s) !! dev = Some x -> Q x s -> wp (get_pipe dev) Q s.
Proof. intros E H1. unfold get_pipe. by eapply wp_bind, wp_gets, wp_lift. Qed.

Lemma told_refl (s : beside pipes) : wf_kst (kernel s) -> told s s.
Proof. by constructor. Qed.

Lemma wp_rx_indicate (x : rt_device) (n : Z) (s : beside pipes) :
  wf_kst (kernel s) -> dev <> RT_NULL -> chain_ok s -> i_devices (ip (kernel s)) !! dev = Some x ->
  is_Some (ps_pipes (own s) !! dev) ->
  wp (call_rx_indicate user_indicate 2 (d_rx_indicate x) dev n) (fun _ s' => told s s') s.
Proof.
  intros W Hd (x' & Hx' & Hc) Hx Hp. rewrite Hx in Hx'. injection Hx' as <-. cbn [call_rx_indicate].
  destruct (Z.eqb_spec (d_rx_indicate x) portal_rx_indicate_addr) as [E|E]; [|by apply user_ok].
  destruct (Hc E) as (p & y & Hp' & Hy & Hn). unfold _portal_rx_indicate, is_pipe. do 3 ostep.
  ostep; [by rewrite bool_decide_true, (proj2 (Z.eqb_neq _ _) Hd)|]. ostep.
  eapply wp_get_pipe; [exact Hp'|]. ostep. on_k. eapply wp_get_device; [exact Hy|].
  rewrite with_kernel_same. destruct (negb (d_rx_indicate y =? RT_NULL)); [|ostep; by apply told_refl].
  rewrite (proj2 (Z.eqb_neq _ _) Hn). by apply user_ok.
Qed.

(** *** The pipe as data and two lists of threads *)

Record apipe := APipe { data : list Z; readers : list Z; writers : list Z }.

Record pipe_ok (size flag : Z) (a : apipe) (s : beside pipes) : Prop := {
  po_wf : wf_kst (kernel s);
  po_dev : dev <> RT_NULL;
  po_pipe : exists x, ps_pipes (own s) !! dev = Some x /\ p_flag x = flag /\ wf (p_ring x) /\
    buffer_size (p_ring x) = size /\ contents (p_ring x) = data a;
  po_chain : chain_ok s;
  po_readers : tlist (sc (kernel s)) (LSuspend dev) = readers a;
  po_writers : tlist (sc (kernel s)) (LSender dev) = writers a;
  po_block_rd : readers a <> [] -> has RT_PIPE_FLAG_BLOCK_RD flag = true;
  po_block_wr : writers a <> [] -> has RT_PIPE_FLAG_BLOCK_WR flag = true;
}.

Section Ops.
Variables size flag : Z.
#[local] Abbreviation ok := (pipe_ok size flag).

Lemma pipe_bound (a : apipe) (s : beside pipes) : ok a s -> Z.of_nat (length (data a)) <= size < 2 ^ 15.
Proof.
  intros [_ _ (x & _ & _ & Wx & Es & Ed) _ _ _ _ _]. rewrite <- Ed, <- Es.
  rewrite (length_contents _ Wx). pose proof (data_len_ahead _ Wx). pose proof (wf_size _ Wx). lia.
Qed.

(** The ring buffer of the pipe is another. *)
Lemma pipe_ok_ring (a : apipe) (x : rt_pipe_device) (rb : ringbuffer) (w : list Z) (s : beside pipes) :
  ok a s -> ps_pipes (own s) !! dev = Some x -> leaves (p_ring x) w rb ->
  ok (APipe w (readers a) (writers a))
    (with_own (Pipes (<[dev := pipe_ring rb x]> (ps_pipes (own s))) (ps_portals (own s))) s).
Proof.
  intros [W Hd (x' & Hx & Ef & Wx & Es & Ed) (y & Hy & Hc) Hr Hw Br Bw] Hx' (Wr & Esz & Ew).
  rewrite Hx' in Hx. injection Hx as <-. constructor; cbn; try done.
  - eexists. rewrite lookup_insert_eq. split; [done|]. split_and!; cbn; (done || congruence).
  - exists y. split; [done|]. intros E. destruct (Hc E) as (p & z & Hp & Hz & Hn). cbn.
    rewrite lookup_insert_eq. rewrite Hx' in Hp. injection Hp as <-. by exists (pipe_ring rb x), z.
Qed.

Lemma wp_ring_get (a : apipe) (n : Z) (s : beside pipes) (Q : Z * list Z -> beside pipes -> Prop) :
  ok a s -> 0 <= n < 2 ^ 16 ->
  (forall s', kernel s' = kernel s ->
     ok (APipe (drop (Z.to_nat n) (data a)) (readers a) (writers a)) s' ->
     Q (Z.min n (Z.of_nat (length (data a))), take (Z.to_nat n) (data a)) s') ->
  wp (ring_get dev n) Q s.
Proof.
  intros O Hn HQ. pose proof O as [W Hd (x & Hx & Ef & Wx & Es & Ed) Hc Hr Hw Br Bw].
  unfold ring_get. ostep. eapply wp_get_pipe; [exact Hx|]. rewrite (ubits_small 16) by lia. ostep.
  destruct (rt_ringbuffer_get_ok (p_ring x) n Wx ltac:(lia)) as (rb & E & L).
  eapply wp_lift_ok; [exact E|]. cbv beta iota. ostep. apply wp_modify. ostep. rewrite Ed in *. apply HQ; [done|].
  by apply pipe_ok_ring.
Qed.

Lemma wp_ring_put (a : apipe) (buffer : list Z) (s : beside pipes) (Q : Z -> beside pipes -> Prop) :
  let n := Z.min (Z.of_nat (length buffer)) (size - Z.of_nat (length (data a))) in
  ok a s -> Z.of_nat (length buffer) < 2 ^ 16 ->
  (forall s', kernel s' = kernel s ->
     ok (APipe (data a ++ take (Z.to_nat n) buffer) (readers a) (writers a)) s' -> Q n s') ->
  wp (ring_put dev buffer rt_ringbuffer_put) Q s.
Proof.
  intros n O Hn HQ. pose proof O as [W Hd (x & Hx & Ef & Wx & Es & Ed) Hc Hr Hw Br Bw].
  unfold ring_put. ostep. eapply wp_get_pipe; [exact Hx|]. rewrite (ubits_small 16) by lia. ostep.
  destruct (rt_ringbuffer_put_ok (p_ring x) buffer (Z.of_nat (length buffer)) Wx ltac:(lia)) as (rb & E & L).
  eapply wp_lift_ok; [exact E|]. cbv beta iota. ostep. apply wp_modify. ostep. rewrite Ed, Es in *. apply HQ; [done|].
  by apply pipe_ok_ring.
Qed.

(** The kernel goes on, the pipe stays, the waiting threads are others. *)
Lemma pipe_ok_kernel (a : apipe) (k' : kst) (rs ws : list Z) (s : beside pipes) :
  ok a s -> wf_kst k' -> i_devices (ip k') = i_devices (ip (kernel s)) ->
  tlist (sc k') (LSuspend dev) = rs -> tlist (sc k') (LSender dev) = ws ->
  (rs <> [] -> has RT_PIPE_FLAG_BLOCK_RD flag = true) ->
  (ws <> [] -> has RT_PIPE_FLAG_BLOCK_WR flag = true) ->
  ok (APipe (data a) rs ws) (with_kernel k' s).
Proof.
  intros [W Hd Hx (y & Hy & Hc) Hr Hw Br Bw] W' Ei E1 E2 B1 B2. constructor; try done.
  exists y. cbn. by rewrite Ei.
Qed.

Lemma wp_resume_writer (a : apipe) (s : beside pipes) (Q : unit -> beside pipes -> Prop) :
  ok a s -> (forall s', ok (APipe (data a) (readers a) (tail (writers a))) s' -> Q tt s') ->
  wp (_rt_pipe_resume_writer dev) Q s.
Proof.
  intros O HQ. pose proof O as [W Hd (x & Hx & Ef & _) Hc Hr Hw Br Bw]. unfold _rt_pipe_resume_writer.
  ostep. on_k. apply wp_isempty. rewrite Hw. destruct (writers a) as [|u rest] eqn:Ea;
    [rewrite bool_decide_true by done|rewrite bool_decide_false by done]; cbn [negb].
  - ostep. rewrite with_kernel_same. apply HQ. by destruct a as [w rs ws]; cbn in *; subst.
  - ostep. eapply wp_get_pipe; [exact Hx|]. ostep. ostep; [rewrite Ef; by apply Bw|]. ostep. on_k.
    eapply wp_mono; [apply (wp_wake_first (LSender dev) u rest (kernel s)
      (fun _ k' => Q tt (with_kernel k' s)) W I Hw)|].
    { intros k' W' _ Ei El _. apply HQ. apply pipe_ok_kernel; try done.
      - by rewrite Ei.
      - by rewrite El, decide_False.
      - by rewrite El, decide_True.
      - intros _. by apply Bw. }
    intros t k1 P1. ostep. on_k. eapply wp_mono; [exact P1|]. intros e k2 P2. on_k.
    eapply wp_mono; [exact P2|]. by intros [] k3.
Qed.

Lemma wp_resume_reader (a : apipe) (s : beside pipes) (Q : unit -> beside pipes -> Prop) :
  ok a s -> (forall s', ok (APipe (data a) (tail (readers a)) (writers a)) s' -> Q tt s') ->
  wp (_rt_pipe_resume_reader user_indicate dev) Q s.
Proof.
  intros O HQ. pose proof O as [W Hd (x & Hx & Ef & Wx) Hc Hr Hw Br Bw]. unfold _rt_pipe_resume_reader.
  pose proof Hc as (y & Hy & _). ostep. on_k. eapply wp_get_device; [exact Hy|].
  assert (F : forall s1, told s s1 ->
    wp (e ← on_kernel (rt_list_isempty (LSuspend dev));
        if negb (e : bool) then
          x ← get_pipe dev;
          _ ← kassert (has RT_PIPE_FLAG_BLOCK_RD (p_flag x));
          thread ← on_kernel (first_entry (LSuspend dev));
          _ ← on_kernel (rt_thread_resume thread);
          on_kernel rt_schedule
        else mret tt) Q s1).
  { intros s1 [W1 Eo Ed El]. destruct (El dev ltac:(by exists x)) as [El1 El2].
    assert (Es : s1 = with_kernel (kernel s1) s) by (destruct s1, s; cbn in *; by subst).
    assert (O1 : ok a s1).
    { destruct a as [w rs ws]. rewrite Es. apply (pipe_ok_kernel (APipe w rs ws)); try done; cbn in *; congruence. }
    clear O. pose proof O1 as [_ _ (x1 & Hx1 & Ef1 & _) _ Hr1 _ _ _].
    ostep. on_k. apply wp_isempty. rewrite Hr1. destruct (readers a) as [|u rest] eqn:Ea;
      [rewrite bool_decide_true by done|rewrite bool_decide_false by done]; cbn [negb].
    - ostep. rewrite with_kernel_same. apply HQ. by destruct a as [w rs ws]; cbn in *; subst.
    - ostep. eapply wp_get_pipe; [exact Hx1|]. ostep. ostep; [rewrite Ef1; by apply Br|]. ostep. on_k.
      eapply wp_mono; [apply (wp_wake_first (LSuspend dev) u rest (kernel s1)
        (fun _ k' => Q tt (with_kernel k' s1)) W1 I Hr1)|].
      { intros k' W' _ Ei El' _. apply HQ. apply pipe_ok_kernel; try done.
        - by rewrite Ei.
        - by rewrite El', decide_True.
        - rewrite El', decide_False by done. apply O1.
        - intros _. by apply Br. }
      intros t k1 P1. ostep. on_k. eapply wp_mono; [exact P1|]. intros e k2 P2. on_k.
      eapply wp_mono; [exact P2|]. by intros [] k3. }
  rewrite with_kernel_same. destruct (negb (d_rx_indicate y =? RT_NULL)).
  - ostep. ostep. eapply wp_get_pipe; [exact Hx|]. ostep.
    eapply wp_mono; [apply (wp_rx_indicate y); (done || by exists x)|]. intros r s1 T. ostep. by apply F.
  - ostep. ostep. apply F. by apply told_refl.
Qed.

(** *** The abstract pipe *)

(** A call that returns or begins to wait: the thread, what it asks for, and what it gets:
    the bytes that are read, the number that is written, or nothing. *)
Inductive pevent :=
| Read (t n : Z) (r : option (list Z))
| Write (t : Z) (b : list Z) (r : option Z).

Let block_rd := has RT_PIPE_FLAG_BLOCK_RD flag.
Let block_wr := has RT_PIPE_FLAG_BLOCK_WR flag.

(** A thread that does something is not one that waits. *)
Inductive astep : apipe -> pevent -> apipe -> Prop :=
| a_read t n w rs ws : w <> [] -> t ∉ rs -> t ∉ ws ->
    astep (APipe w rs ws) (Read t n (Some (take (Z.to_nat n) w))) (APipe (drop (Z.to_nat n) w) rs (tail ws))
| a_read_none t n rs ws : block_rd = false -> t ∉ rs -> t ∉ ws ->
    astep (APipe [] rs ws) (Read t n (Some [])) (APipe [] rs ws)
| a_read_wait t n rs ws : block_rd = true -> t ∉ rs -> t ∉ ws ->
    astep (APipe [] rs ws) (Read t n None) (APipe [] (rs ++ [t]) ws)
| a_write t b k w rs ws :
    k = Z.min (Z.of_nat (length b)) (size - Z.of_nat (length w)) -> (0 < k \/ block_wr = false) ->
    t ∉ rs -> t ∉ ws ->
    astep (APipe w rs ws) (Write t b (Some k)) (APipe (w ++ take (Z.to_nat k) b) (tail rs) ws)
| a_write_wait t b w rs ws : block_wr = true -> Z.of_nat (length w) = size -> t ∉ rs -> t ∉ ws ->
    astep (APipe w rs ws) (Write t b None) (APipe w rs (ws ++ [t])).

Definition read_answer (r : outcome (Z * list Z) read_k) : option (list Z) :=
  match r with Return (_, d) => Some d | Wait _ => None end.
Definition write_answer (r : outcome Z write_k) : option Z :=
  match r with Return n => Some n | Wait _ => None end.

(** The states that are reached in a step of the abstract pipe. *)
Definition does (a : apipe) (e : pevent) (s' : beside pipes) : Prop := exists a', ok a' s' /\ astep a e a'.

Lemma caller_idle (a : apipe) (s : beside pipes) (t : Z) (th : rt_thread) :
  ok a s -> caller (kernel s) t th -> (t ∉ readers a) /\ (t ∉ writers a).
Proof.
  intros O C. rewrite <- (po_readers _ _ _ _ O), <- (po_writers _ _ _ _ O).
  split; (eapply ready_not_waiting; [apply C|apply C|apply C|done]).
Qed.

Lemma wp_park_on (a : apipe) (l : lid) (rs ws : list Z) (t : Z) (th : rt_thread) (s : beside pipes)
    (Q : unit -> beside pipes -> Prop) :
  ok a s -> caller (kernel s) t th ->
  (l = LSuspend dev /\ block_rd = true /\ rs = readers a ++ [t] /\ ws = writers a \/
   l = LSender dev /\ block_wr = true /\ rs = readers a /\ ws = writers a ++ [t]) ->
  (forall s', ok (APipe (data a) rs ws) s' -> Q tt s') -> wp (pipe_park l t) Q s.
Proof.
  intros O C Hl HQ. pose proof (po_readers _ _ _ _ O) as Er. pose proof (po_writers _ _ _ _ O) as Ew.
  destruct Hl as [(-> & B & -> & ->)|(-> & B & -> & ->)];
    (eapply wp_pipe_park; [exact C|done|]; intros k' Bl; apply HQ;
     apply (pipe_ok_kernel a); [exact O|apply Bl|by rewrite (bl_ip _ _ _ _ _ _ _ Bl)|..];
     rewrite ?(blocked_wait_lists _ _ _ _ _ _ _ C Bl) by done).
  - by rewrite decide_True, Er.
  - by rewrite decide_False.
  - done.
  - apply O.
  - by rewrite decide_False.
  - by rewrite decide_True, Ew.
  - apply O.
  - done.
Qed.

Section Calls.
Variables (a : apipe) (s : beside pipes) (t : Z) (th : rt_thread).
Hypothesis O : ok a s.
Hypothesis C : caller (kernel s) t th.

Lemma wp_read_loop (n : Z) :
  0 < n < 2 ^ 16 -> block_rd = true ->
  wp (pipe_read_loop dev n t) (fun r s' => does a (Read t n (read_answer r)) s') s.
Proof.
  intros Hn B. destruct (caller_idle a s t th O C) as [Ir Iw]. unfold pipe_read_loop.
  ostep. eapply wp_ring_get; [exact O|lia|]. intros s1 Ek O1. cbn [fst].
  destruct a as [w rs ws]. cbn [data readers writers] in *. destruct w as [|c w].
  - rewrite (proj2 (Z.eqb_eq _ _)) by (cbn; lia). rewrite drop_nil in O1. ostep.
    eapply (wp_park_on _ _ (rs ++ [t]) ws t th); [exact O1|by rewrite Ek|by left|].
    intros s2 O2. ostep. eexists. split; [exact O2|]. by apply a_read_wait.
  - rewrite (proj2 (Z.eqb_neq _ _)) by (cbn [length]; lia). ostep.
    eapply wp_resume_writer; [exact O1|]. intros s2 O2. ostep. eexists. split; [exact O2|]. by apply a_read.
Qed.

Lemma wp_pipe_read (n : Z) :
  0 < n < 2 ^ 16 -> wp (rt_pipe_read dev n) (fun r s' => does a (Read t n (read_answer r)) s') s.
Proof.
  intros Hn. pose proof O as [_ Hd (x & Hx & Ef & _) _ _ _ _ _]. unfold rt_pipe_read.
  ostep. ostep; [by apply negb_true_iff, Z.eqb_neq|]. ostep. eapply wp_get_pipe; [exact Hx|].
  rewrite Ef. fold block_rd. destruct block_rd eqn:B; cbn [negb].
  - ostep. on_k. apply wp_gets. rewrite (ca_current _ _ _ C). ostep. on_k.
    unfold RT_DEBUG_NOT_IN_INTERRUPT. wstep. apply wp_gets. wstep; [by rewrite (ca_nest _ _ _ C)|].
    rewrite !with_kernel_same. by apply wp_read_loop.
  - destruct (caller_idle a s t th O C) as [Ir Iw]. ostep. eapply wp_ring_get; [exact O|lia|].
    intros s1 _ O1. cbn [fst]. destruct a as [w rs ws]. cbn [data readers writers] in *. destruct w as [|c w].
    + rewrite (proj2 (Z.eqb_eq _ _)) by (cbn; lia). rewrite drop_nil in O1. cbn [negb]. ostep. ostep. ostep.
      eexists. split; [exact O1|]. cbn [read_answer]. rewrite take_nil. by apply a_read_none.
    + rewrite (proj2 (Z.eqb_neq _ _)) by (cbn [length]; lia). cbn [negb]. ostep.
      eapply wp_resume_writer; [exact O1|]. intros s2 O2. ostep. eexists. split; [exact O2|]. by apply a_read.
Qed.

Lemma wp_write_loop (b : list Z) :
  0 < Z.of_nat (length b) < 2 ^ 16 -> block_wr = true ->
  wp (pipe_write_loop user_indicate dev b t) (fun r s' => does a (Write t b (write_answer r)) s') s.
Proof.
  intros Hb B. destruct (caller_idle a s t th O C) as [Ir Iw]. pose proof (pipe_bound a s O) as Bd.
  unfold pipe_write_loop. ostep. eapply wp_ring_put; [exact O|lia|]. intros s1 Ek O1.
  destruct a as [w rs ws]. cbn [data readers writers] in *.
  destruct (Z.eqb_spec (Z.min (Z.of_nat (length b)) (size - Z.of_nat (length w))) 0) as [E|E].
  - rewrite E in O1. cbn [Z.to_nat take] in O1. rewrite app_nil_r in O1. ostep.
    eapply (wp_park_on _ _ rs (ws ++ [t]) t th); [exact O1|by rewrite Ek|by right|].
    intros s2 O2. ostep. eexists. split; [exact O2|]. apply a_write_wait; cbn [data]; (done || lia).
  - ostep. eapply wp_resume_reader; [exact O1|]. intros s2 O2. ostep. eexists. split; [exact O2|].
    apply a_write; try done. lia.
Qed.

Lemma wp_pipe_write (b : list Z) :
  0 < Z.of_nat (length b) < 2 ^ 16 -> has RT_PIPE_FLAG_FORCE_WR flag = false ->
  wp (rt_pipe_write user_indicate dev b) (fun r s' => does a (Write t b (write_answer r)) s') s.
Proof.
  intros Hb F. pose proof O as [_ Hd (x & Hx & Ef & _) _ _ _ _ _]. unfold rt_pipe_write.
  ostep. ostep; [by apply negb_true_iff, Z.eqb_neq|]. ostep. eapply wp_get_pipe; [exact Hx|].
  rewrite Ef, F. cbn [orb]. fold block_wr. destruct block_wr eqn:B; cbn [negb].
  - ostep. on_k. apply wp_gets. rewrite (ca_current _ _ _ C). ostep. on_k.
    unfold RT_DEBUG_NOT_IN_INTERRUPT. wstep. apply wp_gets. wstep; [by rewrite (ca_nest _ _ _ C)|].
    rewrite !with_kernel_same. by apply wp_write_loop.
  - destruct (caller_idle a s t th O C) as [Ir Iw]. ostep. eapply wp_ring_put; [exact O|lia|].
    intros s1 _ O1. ostep. eapply wp_resume_reader; [exact O1|]. intros s2 O2. ostep.
    eexists. split; [exact O2|]. destruct a as [w rs ws]. apply a_write; try done. by right.
Qed.

End Calls.

(** *** Runs *)

(** A thread that runs calls one of the functions, or goes on with a call it waited in; the
    rest of the system does anything to the kernel but to the two lists of the pipe. *)
Inductive pstep : beside pipes -> list pevent -> beside pipes -> Prop :=
| p_read s t th n r s' :
    caller (kernel s) t th -> 0 < n < 2 ^ 16 -> rt_pipe_read dev n s = Ok (r, s') ->
    pstep s [Read t n (read_answer r)] s'
| p_read_on s t th n r s' :
    block_rd = true -> caller (kernel s) t th -> 0 < n < 2 ^ 16 ->
    rt_pipe_read_resume (ReadK dev n t) s = Ok (r, s') -> pstep s [Read t n (read_answer r)] s'
| p_write s t th b r s' :
    caller (kernel s) t th -> 0 < Z.of_nat (length b) < 2 ^ 16 ->
    rt_pipe_write user_indicate dev b s = Ok (r, s') -> pstep s [Write t b (write_answer r)] s'
| p_write_on s t th b r s' :
    block_wr = true -> caller (kernel s) t th -> 0 < Z.of_nat (length b) < 2 ^ 16 ->
    rt_pipe_write_resume user_indicate (WriteK dev b t) s = Ok (r, s') ->
    pstep s [Write t b (write_answer r)] s'
| p_other s s' :
    wf_kst (kernel s') -> ps_pipes (own s') !! dev = ps_pipes (own s) !! dev -> chain_ok s' ->
    tlist (sc (kernel s')) (LSuspend dev) = tlist (sc (kernel s)) (LSuspend dev) ->
    tlist (sc (kernel s')) (LSender dev) = tlist (sc (kernel s)) (LSender dev) -> pstep s [] s'.

Inductive pruns : beside pipes -> list pevent -> beside pipes -> Prop :=
| pr_refl s : pruns s [] s
| pr_step s1 e1 s2 e2 s3 : pruns s1 e1 s2 -> pstep s2 e2 s3 -> pruns s1 (e1 ++ e2) s3.

Inductive aruns : apipe -> list pevent -> apipe -> Prop :=
| ar_refl a : aruns a [] a
| ar_step a1 es a2 e a3 : aruns a1 es a2 -> astep a2 e a3 -> aruns a1 (es ++ [e]) a3.

(** The bytes that were read, and that were put in. *)
Definition got (e : pevent) : list Z := match e with Read _ _ (Some d) => d | _ => [] end.
Definition put (e : pevent) : list Z := match e with Write _ b (Some k) => take (Z.to_nat k) b | _ => [] end.
Definition all_got (es : list pevent) : list Z := concat (got <$> es).
Definition all_put (es : list pevent) : list Z := concat (put <$> es).

Lemma aruns_stream (a a' : apipe) (es : list pevent) :
  aruns a es a' -> data a ++ all_put es = all_got es ++ data a'.
Proof.
  unfold all_got, all_put.
  induction 1 as [a|a1 es a2 e a3 R IH St]; cbn; [apply app_nil_r|].
  rewrite !fmap_app, !concat_app, app_assoc, IH, <- !app_assoc. f_equal.
  destruct St; cbn; rewrite ?app_nil_r; try done. by rewrite take_drop.
Qed.

(** With a single reader [rd] and a single writer [wr]: a thread waits for data only while
    there is none, and for room only while there is none. *)
Definition waits_for_nothing (rd wr : Z) (a : apipe) : Prop :=
  (readers a = [] \/ readers a = [rd] /\ data a = []) /\
  (writers a = [] \/ writers a = [wr] /\ Z.of_nat (length (data a)) = size).
Definition ends (rd wr : Z) (e : pevent) : Prop :=
  match e with Read t _ _ => t = rd | Write t _ _ => t = wr end.

Lemma aruns_waits (rd wr : Z) (a a' : apipe) (es : list pevent) :
  aruns a es a' -> Forall (ends rd wr) es -> waits_for_nothing rd wr a -> waits_for_nothing rd wr a'.
Proof.
  induction 1 as [a|a1 es a2 e a3 R IH St]; [done|]. intros [F [Fe _]%Forall_cons]%Forall_app Ia.
  destruct (IH F Ia) as [Hr Hw]. unfold waits_for_nothing.
  destruct St; cbn [data readers writers ends] in *; subst; (split;
    [destruct Hr as [->|[-> E]]|destruct Hw as [->|[-> E]]]); try set_solver by eauto; cbn; auto.
Qed.

Lemma pruns_simulated (a0 : apipe) (s0 s : beside pipes) (es : list pevent) :
  has RT_PIPE_FLAG_FORCE_WR flag = false -> ok a0 s0 -> pruns s0 es s -> exists a, aruns a0 es a /\ ok a s.
Proof.
  intros F O0. induction 1 as [s|s1 e1 s2 e2 s3 R IH St]; [exists a0; split; [constructor|done]|].
  destruct (IH O0) as (a & Ra & O).
  assert (D : forall e, does a e s3 -> exists a', aruns a0 (e1 ++ [e]) a' /\ ok a' s3).
  { intros e (a' & O' & Sa). exists a'. split; [by econstructor|done]. }
  destruct St as [s t th n r s' C Hn E|s t th n r s' B C Hn E|s t th b r s' C Hb E|s t th b r s' B C Hb E|s s' W Ep Hc E1 E2].
  - apply D. pose proof (wp_pipe_read a s t th O C n Hn) as P. unfold wp in P. by rewrite E in P.
  - apply D. pose proof (wp_read_loop a s t th O C n Hn B) as P. unfold wp in P.
    unfold rt_pipe_read_resume in E. cbn in E. by rewrite E in P.
  - apply D. pose proof (wp_pipe_write a s t th O C b Hb F) as P. unfold wp in P. by rewrite E in P.
  - apply D. pose proof (wp_write_loop a s t th O C b Hb B) as P. unfold wp in P.
    unfold rt_pipe_write_resume in E. cbn in E. by rewrite E in P.
  - exists a. rewrite app_nil_r. split; [done|]. destruct O as [_ Hd Hx _ Hr Hw Br Bw].
    constructor; try done; by rewrite ?Ep, ?E1, ?E2.
Qed.

(** C6: refinement.  Whatever threads read and write a pipe (one without
    RT_PIPE_FLAG_FORCE_WR, with calls of more than 0 and less than 2^16 bytes), in whatever order they call, wait and go on, and whatever happens to the kernel
    in between, the pipe does what the abstract pipe does: a read takes the oldest bytes, as
    many as are asked for and there are, a write puts in as many as there is room for, who
    finds nothing waits, and each call wakes the first that waits at the other end.  So what
    comes out is what was put in, in order, nothing lost and nothing twice; no call asserts,
    faults or hangs; and with one reader and one writer nobody waits for data or for room
    that is there. *)
Theorem pipe_refines_stream (a0 : apipe) (s0 s : beside pipes) (es : list pevent) :
  has RT_PIPE_FLAG_FORCE_WR flag = false -> ok a0 s0 -> pruns s0 es s ->
  exists a, aruns a0 es a /\ ok a s /\
    data a0 ++ all_put es = all_got es ++ data a /\ Z.of_nat (length (data a)) <= size /\
    (forall rd wr, Forall (ends rd wr) es -> waits_for_nothing rd wr a0 -> waits_for_nothing rd wr a) /\
    (forall t th, caller (kernel s) t th ->
       (forall n, 0 < n < 2 ^ 16 ->
          wp (rt_pipe_read dev n) (fun r s' => does a (Read t n (read_answer r)) s') s) /\
       (forall b, 0 < Z.of_nat (length b) < 2 ^ 16 ->
          wp (rt_pipe_write user_indicate dev b) (fun r s' => does a (Write t b (write_answer r)) s') s)).
Proof.
  intros F O0 R. destruct (pruns_simulated a0 s0 s es F O0 R) as (a & Ra & O). exists a.
  split; [done|]. split; [done|]. split; [by apply aruns_stream|]. split; [by apply (pipe_bound a s)|].
  split; [by intros; eapply aruns_waits|]. intros t th C.
  split; intros; [by eapply wp_pipe_read|by eapply wp_pipe_write].
Qed.

End Ops.
End Spec.

(** ** Samples *)

Module Demo.

#[local] Instance code : PipeCode := {|
  sizeof_rt_pipe_device := 104; sizeof_rt_portal_device := 72;
  rt_pipe_read_addr := 0x8004000; rt_pipe_write_addr := 0x8004100; rt_pipe_control_addr := 0x8004200;
  portal_init_addr := 0x8005000; portal_open_addr := 0x8005100; portal_close_addr := 0x8005200;
  portal_read_addr := 0x8005300; portal_write_addr := 0x8005400;
  portal_rx_indicate_addr := 0x8005500; portal_tx_complete_addr := 0x8005600 |}.

#[local] Existing Instance quiet.

Definition nobody_told : Z -> Z -> Z -> M Z := fun _ _ _ => mret RT_EOK.

Lemma nobody_told_ok (f dev size : Z) (s : beside pipes) :
  wf_kst (kernel s) -> wp (nobody_told f dev size) (fun _ s' => told s s') s.
Proof. intros W. unfold nobody_told. wstep. by constructor. Qed.

#[local] Abbreviation Ker m := (on_kernel (X := pipes) m).
#[local] Abbreviation write := (rt_pipe_write nobody_told).

Definition a_heap : heap :=
  Heap 4096 1012 0 1 1000 0 0
    (<[0 := HeapMem HEAP_MAGIC 0 1012 0]> (<[1012 := HeapMem HEAP_MAGIC 1 1012 1012]> ∅))
    (replicate 1024 0).
Definition start : beside pipes := Beside (upd_hp a_heap running) (Pipes ∅ ∅).

Definition pipe0 : Z := 0x20008000.
Definition pipe1 : Z := 0x20008100.
Definition name0 : list Z := [112; 48; 0].
Definition name1 : list Z := [112; 49; 0].
Definition new_pipe (pipe : Z) (name : list Z) (flag : Z) : M Z :=
  rt_pipe_init zero_pipe pipe name flag (pipe + 0x80) (replicate 8 0) 8.

(** *** A run

    Reads wait and writes wait.  A thread waits for data; the next writes six bytes, which
    wakes it, and then four, of which two have room; the reader gets five of the eight. *)

Definition with_pipe : beside pipes := then_ (new_pipe pipe0 name0 3) start.
Definition waits : beside pipes := then_ (rt_pipe_read pipe0 5) with_pipe.
Definition one_write : beside pipes := then_ (write pipe0 [1; 2; 3; 4; 5; 6]) waits.
Definition two_writes : beside pipes := then_ (write pipe0 [7; 8; 9; 10]) one_write.
Definition reader_runs : beside pipes := then_ (Ker (rt_thread_sleep 5)) two_writes.
Definition reader_done : beside pipes := then_ (rt_pipe_read_resume (ReadK pipe0 5 main_t)) reader_runs.

Definition run_events : list pevent :=
  [Read main_t 5 None; Write peer_t [1; 2; 3; 4; 5; 6] (Some 6); Write peer_t [7; 8; 9; 10] (Some 2);
   Read main_t 5 (Some [1; 2; 3; 4; 5])].

Lemma chain_at (s : beside pipes) :
  d_rx_indicate <$> i_devices (ip (kernel s)) !! pipe0 = Some RT_NULL -> chain_ok pipe0 s.
Proof.
  intros E. destruct (i_devices (ip (kernel s)) !! pipe0) as [x|] eqn:Ex; [|done]. exists x. split; [done|].
  injection E as ->. discriminate.
Qed.

Lemma pipe_run : pruns nobody_told pipe0 3 with_pipe run_events reader_done.
Proof.
  assert (exists th, caller (kernel with_pipe) main_t th) as [th0 C0] by running_thread.
  assert (exists th, caller (kernel waits) peer_t th) as [th1 C1] by running_thread.
  assert (exists th, caller (kernel one_write) peer_t th) as [th2 C2] by running_thread.
  assert (exists th, caller (kernel reader_runs) main_t th) as [th3 C3] by running_thread.
  apply (pr_step _ _ _ _ [Read main_t 5 None; Write peer_t [1; 2; 3; 4; 5; 6] (Some 6);
      Write peer_t [7; 8; 9; 10] (Some 2)] reader_runs [Read main_t 5 (Some [1; 2; 3; 4; 5])]);
    [|apply (p_read_on _ _ _ _ main_t th3 5 (Return (5, [1; 2; 3; 4; 5]))); [evaluate|exact C3|lia|evaluate]].
  apply (pr_step _ _ _ _ [Read main_t 5 None; Write peer_t [1; 2; 3; 4; 5; 6] (Some 6);
      Write peer_t [7; 8; 9; 10] (Some 2)] two_writes []);
    [|apply p_other; [apply wf_check; evaluate|evaluate|apply chain_at; evaluate|evaluate|evaluate]].
  apply (pr_step _ _ _ _ [Read main_t 5 None; Write peer_t [1; 2; 3; 4; 5; 6] (Some 6)] one_write
      [Write peer_t [7; 8; 9; 10] (Some 2)]);
    [|apply (p_write _ _ _ _ peer_t th2 _ (Return 2)); [exact C2|cbn; lia|evaluate]].
  apply (pr_step _ _ _ _ [Read main_t 5 None] waits [Write peer_t [1; 2; 3; 4; 5; 6] (Some 6)]);
    [|apply (p_write _ _ _ _ peer_t th1 _ (Return 6)); [exact C1|cbn; lia|evaluate]].
  apply (pr_step _ _ _ _ [] with_pipe [Read main_t 5 None]); [apply pr_refl|].
  apply (p_read _ _ _ _ main_t th0 5 (Wait (ReadK pipe0 5 main_t))); [exact C0|lia|evaluate].
Qed.

Lemma with_pipe_ok : pipe_ok pipe0 8 3 (APipe [] [] []) with_pipe.
Proof.
  constructor.
  - apply wf_check. evaluate.
  - discriminate.
  - eexists. split; [evaluate|]. split_and!; try evaluate. constructor; cbn; lia.
  - apply chain_at. evaluate.
  - evaluate.
  - evaluate.
  - done.
  - done.
Qed.

Lemma pipe_refines_stream_witness :
  exists a, pipe_ok pipe0 8 3 a reader_done /\
    [] ++ all_put run_events = all_got run_events ++ data a /\ waits_for_nothing 8 main_t peer_t a.
Proof.
  destruct (pipe_refines_stream nobody_told nobody_told_ok pipe0 8 3 (APipe [] [] []) with_pipe reader_done
    run_events) as (a & _ & O & E & _ & N & _).
  - reflexivity.
  - apply with_pipe_ok.
  - apply pipe_run.
  - exists a. split; [exact O|]. split; [exact E|]. apply N; [repeat constructor|]. split; by left.
Defined.

(** *** What goes wrong *)

(** A read of no bytes from a pipe whose reads wait finds no bytes, whatever is in the
    pipe, and waits; so does a write of none. *)
Lemma read_of_nothing_waits :
  let s := then_ (write pipe0 [1; 2; 3]) with_pipe in
  let s' := then_ (rt_pipe_read pipe0 0) s in
  (fun x => contents (p_ring x)) <$> ps_pipes (own s') !! pipe0 = Some [1; 2; 3] /\
  tlist (sc (kernel s')) (LSuspend pipe0) = [main_t] /\
  tlist (sc (kernel (then_ (write pipe0 []) with_pipe))) (LSender pipe0) = [main_t].
Proof. split_and!; evaluate. Qed.

(** Two threads wait for data; a write wakes one of them, which takes a part of what has
    come: the other sleeps on, with data in the pipe. *)
Definition two_readers_run : M unit :=
  k ← rt_pipe_read pipe0 2;
  _ ← rt_pipe_read pipe0 2;
  _ ← write pipe0 [1; 2; 3; 4];
  match k with Wait k => _ ← rt_pipe_read_resume k; mret tt | Return _ => kfault end.

Lemma second_reader_sleeps_on :
  let s' := then_ two_readers_run with_pipe in
  (fun x => contents (p_ring x)) <$> ps_pipes (own s') !! pipe0 = Some [3; 4] /\
  tlist (sc (kernel s')) (LSuspend pipe0) = [peer_t] /\ s_current (sc (kernel s')) = main_t.
Proof. split_and!; evaluate. Qed.

(** The count is cut to 16 bits on its way to the ring buffer: of 65536 bytes none are
    written, although the pipe is empty. *)
Lemma length_is_cut :
  exists s', write pipe0 (replicate (Z.to_nat 65536) 0) (then_ (new_pipe pipe0 name0 0) start) = Ok (Return 0, s').
Proof. eexists. vm_compute. reflexivity. Qed.

(** Two pipes, and portals between them. *)
Definition portal0 : Z := 0x20008200.
Definition portal1 : Z := 0x20008300.
Definition no_portal : rt_portal_device := RtPortal 0 0.
Definition two_pipes : M unit := _ ← new_pipe pipe0 name0 0; _ ← new_pipe pipe1 name1 0; mret tt.
Definition portals : M unit :=
  _ ← two_pipes;
  _ ← rt_portal_init no_portal portal0 [97; 0] name1 name0;
  _ ← rt_portal_init no_portal portal1 [98; 0] name0 name1;
  mret tt.

(** What is written into a portal is read from the other. *)
Lemma portals_connect :
  let s := then_ (_ ← portals; _ ← _portal_open portal0 3; _ ← _portal_open portal1 3;
                  _portal_write nobody_told portal0 [7; 8; 9]) start in
  exists s', _portal_read portal1 5 s = Ok (Return (3, [7; 8; 9]), s').
Proof. eexists. vm_compute. reflexivity. Qed.

(** The pipe to read from does not exist: the callback is given back to the device that was
    not found, which asserts; -RT_ENOSYS is never returned. *)
Lemma missing_read_device_asserts :
  rt_portal_init no_portal portal0 [97; 0] name0 [120; 0] (then_ two_pipes start) = AssertFail.
Proof. vm_compute. reflexivity. Qed.

(** Two portals that read from the same pipe: what the second is to call is the function of
    the first, which asserts that it is called for a pipe. *)
Lemma second_portal_asserts :
  let s := then_ (_ ← two_pipes;
                  _ ← rt_portal_init no_portal portal0 [97; 0] name1 name0;
                  rt_portal_init no_portal portal1 [98; 0] name1 name0) start in
  write pipe0 [1] s = AssertFail.
Proof. vm_compute. reflexivity. Qed.

(** A portal that is destroyed stays connected: the next write to the pipe reads its freed
    memory. *)
Definition destroyed_run : M unit :=
  _ ← two_pipes;
  _ ← rt_portal_create [97; 0] name1 name0;
  portal ← Ker (rt_device_find [97; 0]);
  rt_portal_destroy portal.

Lemma destroyed_portal_is_used :
  (exists s', destroyed_run start = Ok (tt, s')) /\ write pipe0 [1] (then_ destroyed_run start) = Fault.
Proof. split; [eexists|]; vm_compute; reflexivity. Qed.

(** [portal1] is open for reading and writing, [portal0] for reading only.  Closing
    [portal0] closes both pipes, also the one it did not open, from which [portal1] reads. *)
Definition closed_run : M unit :=
  _ ← portals;
  _ ← _portal_open portal1 3; _ ← _portal_open portal0 1;
  _ ← write pipe1 [5; 6];
  _ ← _portal_close portal0;
  mret tt.

Lemma close_takes_the_other_side :
  (exists s', _portal_read portal1 2 (then_ closed_run start) = Ok (Return (0, []), s')) /\
  (fun x => contents (p_ring x)) <$> ps_pipes (own (then_ closed_run start)) !! pipe1 = Some [5; 6].
Proof. split; [eexists|]; vm_compute; reflexivity. Qed.

(** A pipe that is destroyed leaves the threads that wait in it. *)
Definition heap_pipe_run : M unit :=
  _ ← rt_pipe_create name0 3 (replicate 8 0) 8;
  pipe ← Ker (rt_device_find name0);
  _ ← rt_pipe_read pipe 1;
  rt_pipe_destroy pipe.

Lemma destroyed_pipe_keeps_its_reader :
  exists s', heap_pipe_run start = Ok (tt, s') /\ map_to_list (ps_pipes (own s')) = [] /\
    t_stat <$> s_threads (sc (kernel s')) !! main_t = Some RT_THREAD_SUSPEND.
Proof. eexists. split; [vm_compute; reflexivity|]. split; evaluate. Qed.

End Demo.
