(* ===== verification/Mailbox.v ===== *)
(** * Mailboxes and message queues (Kernel/ipc.c)

    A call that finds the mailbox full (or empty) waits and then starts over, so
    what it waits with holds the arguments of its loop.  In a message queue a
    message is an index of the pool; sending and receiving copy the payload with
    interrupts enabled, between two critical sections: the message is then in
    neither list of the queue. *)

From Stdlib Require Import Lia.
From S2P Require Import Prelude KService Heap KState Scheduler Object Timer Thread Ipc.

(** [timeout -= tick_delta; if (timeout < 0) timeout = 0] when it is positive. *)
Definition retime (timeout start now : Z) : Z :=
  if 0 <? timeout then
    let t := s32 (timeout - u32 (now - start)) in
    if t <? 0 then 0 else t
  else timeout.

(** ** Mailboxes *)

(** [msgpool] is the address of the pool, [words] the words it holds. *)
Definition rt_mb_init (mb : Z) (name : list Z) (msgpool : Z) (words : list Z) (size flag : Z) : K Z :=
  _ ← kassert (negb (mb =? RT_NULL));
  _ ← rt_object_init (Obj mb) RT_Object_Class_MailBox name;
  _ ← set_flag (Obj mb) flag;
  _ ← rt_ipc_object_init mb;
  _ ← put_mb mb (RtMailbox msgpool words (u16 size) 0 0 0);
  _ ← list_init (LSender mb);
  mret RT_EOK.

Definition rt_mb_detach (mb : Z) : K Z :=
  _ ← kassert (negb (mb =? RT_NULL));
  _ ← rt_ipc_list_resume_all (LSuspend mb);
  _ ← rt_ipc_list_resume_all (LSender mb);
  _ ← rt_object_detach (Obj mb);
  mret RT_EOK.

(** [words]: what the allocated pool holds. *)
Definition rt_mb_create (name : list Z) (words : list Z) (size flag : Z) : K Z :=
  _ ← RT_DEBUG_NOT_IN_INTERRUPT;
  mb ← rt_object_allocate RT_Object_Class_MailBox name;
  if mb =? RT_NULL then mret mb else
  _ ← set_flag (Obj mb) flag;
  _ ← rt_ipc_object_init mb;
  msg_pool ← RT_KERNEL_MALLOC (u16 size * 4);
  if msg_pool =? RT_NULL then
    _ ← rt_object_delete mb; mret RT_NULL
  else
    _ ← put_mb mb (RtMailbox msg_pool words (u16 size) 0 0 0);
    _ ← list_init (LSender mb);
    mret mb.

Definition rt_mb_delete (mb : Z) : K Z :=
  _ ← RT_DEBUG_NOT_IN_INTERRUPT;
  _ ← kassert (negb (mb =? RT_NULL));
  _ ← rt_ipc_list_resume_all (LSuspend mb);
  _ ← rt_ipc_list_resume_all (LSender mb);
  x ← get_mb mb;
  _ ← RT_KERNEL_FREE (mb_pool_addr x);
  _ ← rt_object_delete mb;
  mret RT_EOK.

(** Up to [rt_schedule]: the thread waits in [l]; the result is the tick at
    which its timer was started (0 without one). *)
Definition wait_timed (l : lid) (t flag timeout : Z) : K Z :=
  _ ← rt_ipc_list_suspend l t flag;
  tick_delta ← (if 0 <? timeout then
                  tick ← rt_tick_get;
                  _ ← rt_timer_control (ThreadTimer t) RT_TIMER_CTRL_SET_TIME timeout;
                  _ ← rt_timer_start (ThreadTimer t);
                  mret tick
                else mret 0);
  _ ← rt_schedule;
  mret tick_delta.

Record mb_send_k := MbSendK { ks_mb : Z; ks_value : Z; ks_timeout : Z; ks_tick : Z; ks_thread : Z }.
Record mb_recv_k := MbRecvK { kr_mb : Z; kr_timeout : Z; kr_tick : Z; kr_thread : Z }.

Definition mb_put (mb value : Z) : K unit :=
  x ← get_mb mb;
  pool ← lift (store_at (mb_msg_pool x) (mb_in_offset x) (u32 value));
  let in_offset := u16 (mb_in_offset x + 1) in
  let in_offset := if mb_size x <=? in_offset then 0 else in_offset in
  put_mb mb (RtMailbox (mb_pool_addr x) pool (mb_size x) (u16 (mb_entry x + 1))
    in_offset (mb_out_offset x)).

Definition mb_get (mb : Z) : K Z :=
  x ← get_mb mb;
  v ← lift (load_at (mb_msg_pool x) (mb_out_offset x));
  let out_offset := u16 (mb_out_offset x + 1) in
  let out_offset := if mb_size x <=? out_offset then 0 else out_offset in
  _ ← put_mb mb (RtMailbox (mb_pool_addr x) (mb_msg_pool x) (mb_size x)
        (u16 (mb_entry x - 1)) (mb_in_offset x) out_offset);
  mret v.

(** Resumes the first thread of [l], if any, and schedules. *)
Definition wake_first (l : lid) : K unit :=
  e ← rt_list_isempty l;
  if negb (e : bool) then _ ← rt_ipc_list_resume l; rt_schedule else mret tt.

(** The loop of [rt_mb_send_wait] and what follows it. *)
Definition mb_send_loop (mb value timeout thread : Z) : K (outcome Z mb_send_k) :=
  x ← get_mb mb;
  if mb_entry x =? mb_size x then
    _ ← upd_thread thread (thr_error RT_EOK);
    if timeout =? 0 then mret (Return (- RT_EFULL)) else
    _ ← RT_DEBUG_IN_THREAD_CONTEXT;
    flag ← get_flag (Obj mb);
    tick ← wait_timed (LSender mb) thread flag timeout;
    mret (Wait (MbSendK mb value timeout tick thread))
  else
    _ ← mb_put mb value;
    _ ← wake_first (LSuspend mb);
    mret (Return RT_EOK).

Definition rt_mb_send_wait (mb value timeout : Z) : K (outcome Z mb_send_k) :=
  _ ← kassert (negb (mb =? RT_NULL));
  thread ← rt_thread_self;
  x ← get_mb mb;
  if (mb_entry x =? mb_size x) && (timeout =? 0) then mret (Return (- RT_EFULL)) else
  mb_send_loop mb value timeout thread.
Definition rt_mb_send_resume (k : mb_send_k) : K (outcome Z mb_send_k) :=
  th ← get_thread (ks_thread k);
  if negb (t_error th =? RT_EOK) then mret (Return (t_error th)) else
  tick ← rt_tick_get;
  mb_send_loop (ks_mb k) (ks_value k) (retime (ks_timeout k) (ks_tick k) tick) (ks_thread k).

Definition rt_mb_send (mb value : Z) : K (outcome Z mb_send_k) := rt_mb_send_wait mb value 0.

(** The second component is what is stored through [value]. *)
Definition mb_recv_loop (mb timeout thread : Z) : K (outcome (Z * option Z) mb_recv_k) :=
  x ← get_mb mb;
  if mb_entry x =? 0 then
    _ ← upd_thread thread (thr_error RT_EOK);
    if timeout =? 0 then
      _ ← upd_thread thread (thr_error (- RT_ETIMEOUT));
      mret (Return (- RT_ETIMEOUT, None))
    else
    _ ← RT_DEBUG_IN_THREAD_CONTEXT;
    flag ← get_flag (Obj mb);
    tick ← wait_timed (LSuspend mb) thread flag timeout;
    mret (Wait (MbRecvK mb timeout tick thread))
  else
    v ← mb_get mb;
    _ ← wake_first (LSender mb);
    mret (Return (RT_EOK, Some v)).

Definition rt_mb_recv (mb timeout : Z) : K (outcome (Z * option Z) mb_recv_k) :=
  _ ← kassert (negb (mb =? RT_NULL));
  thread ← rt_thread_self;
  x ← get_mb mb;
  if (mb_entry x =? 0) && (timeout =? 0) then mret (Return (- RT_ETIMEOUT, None)) else
  mb_recv_loop mb timeout thread.
Definition rt_mb_recv_resume (k : mb_recv_k) : K (outcome (Z * option Z) mb_recv_k) :=
  th ← get_thread (kr_thread k);
  if negb (t_error th =? RT_EOK) then mret (Return (t_error th, None)) else
  tick ← rt_tick_get;
  mb_recv_loop (kr_mb k) (retime (kr_timeout k) (kr_tick k) tick) (kr_thread k).

Definition rt_mb_control (mb cmd arg : Z) : K Z :=
  _ ← kassert (negb (mb =? RT_NULL));
  if cmd =? RT_IPC_CMD_RESET then
    _ ← rt_ipc_list_resume_all (LSuspend mb);
    _ ← rt_ipc_list_resume_all (LSender mb);
    x ← get_mb mb;
    _ ← put_mb mb (RtMailbox (mb_pool_addr x) (mb_msg_pool x) (mb_size x) 0 0 0);
    _ ← rt_schedule;
    mret RT_EOK
  else mret (- RT_ERROR).

(** ** Message queues *)

Definition get_msg (q : rt_messagequeue) (i : Z) : K rt_mq_message :=
  lift (deref (mq_pool q !! i)).

(** [msg->next = n] *)
Definition msg_set_next (i : Z) (n : option Z) (q : rt_messagequeue) : res rt_messagequeue :=
  m ← deref (mq_pool q !! i);
  mret (RtMessagequeue (mq_pool_addr q) (<[i := RtMqMessage n (msg_body m)]> (mq_pool q))
    (mq_msg_size q) (mq_max_msgs q) (mq_entry q) (mq_head q) (mq_tail q) (mq_free q)).
Definition mq_set_body (i : Z) (b : list Z) (q : rt_messagequeue) : res rt_messagequeue :=
  m ← deref (mq_pool q !! i);
  mret (RtMessagequeue (mq_pool_addr q) (<[i := RtMqMessage (msg_next m) b]> (mq_pool q))
    (mq_msg_size q) (mq_max_msgs q) (mq_entry q) (mq_head q) (mq_tail q) (mq_free q)).
Definition mq_set_lists (entry : Z) (head tail free : option Z) (q : rt_messagequeue)
  : rt_messagequeue :=
  RtMessagequeue (mq_pool_addr q) (mq_pool q) (mq_msg_size q) (mq_max_msgs q)
    entry head tail free.

(** The pool as [rt_mq_init] and [rt_mq_create] link it: every message in the
    free list, the last one first.  [bodies] is what the memory of the pool
    holds, message by message. *)
Fixpoint mq_link_free (n : nat) (i : Z) (bodies : list (list Z)) (free : option Z)
    (pool : gmap Z rt_mq_message) : res (gmap Z rt_mq_message * option Z) :=
  match n with
  | O => mret (pool, free)
  | S n =>
      match bodies with
      | [] => Fault
      | b :: bodies => mq_link_free n (i + 1) bodies (Some i) (<[i := RtMqMessage free b]> pool)
      end
  end.

Definition mq_setup (mq addr : Z) (bodies : list (list Z)) (msg_size max_msgs : Z) : K unit :=
  '(pool, free) ← lift (mq_link_free (Z.to_nat max_msgs) 0 bodies None ∅);
  put_mq mq (RtMessagequeue addr pool msg_size max_msgs 0 None None free).

Definition rt_mq_init (mq : Z) (name : list Z) (msgpool : Z) (bodies : list (list Z))
    (msg_size pool_size flag : Z) : K Z :=
  _ ← kassert (negb (mq =? RT_NULL));
  _ ← rt_object_init (Obj mq) RT_Object_Class_MessageQueue name;
  _ ← set_flag (Obj mq) flag;
  _ ← rt_ipc_object_init mq;
  let msg_size := u16 (RT_ALIGN msg_size RT_ALIGN_SIZE) in
  let max_msgs := u16 (pool_size / (msg_size + 4)) in
  _ ← mq_setup mq msgpool bodies msg_size max_msgs;
  mret RT_EOK.

Definition rt_mq_detach (mq : Z) : K Z :=
  _ ← kassert (negb (mq =? RT_NULL));
  _ ← rt_ipc_list_resume_all (LSuspend mq);
  _ ← rt_object_detach (Obj mq);
  mret RT_EOK.

(** [pool] is [mq->msg_pool]. *)
Definition mq_delete (mq pool : Z) : K Z :=
  _ ← RT_DEBUG_NOT_IN_INTERRUPT;
  _ ← kassert (negb (mq =? RT_NULL));
  _ ← rt_ipc_list_resume_all (LSuspend mq);
  _ ← RT_KERNEL_FREE pool;
  _ ← rt_object_delete mq;
  mret RT_EOK.
Definition rt_mq_delete (mq : Z) : K Z := q ← get_mq mq; mq_delete mq (mq_pool_addr q).

Definition rt_mq_create (name : list Z) (bodies : list (list Z)) (msg_size max_msgs flag : Z) : K Z :=
  _ ← RT_DEBUG_NOT_IN_INTERRUPT;
  mq ← rt_object_allocate RT_Object_Class_MessageQueue name;
  if mq =? RT_NULL then mret mq else
  _ ← set_flag (Obj mq) flag;
  _ ← rt_ipc_object_init mq;
  let msg_size := u16 (RT_ALIGN msg_size RT_ALIGN_SIZE) in
  let max_msgs := u16 max_msgs in
  msg_pool ← RT_KERNEL_MALLOC (u32 ((msg_size + 4) * max_msgs));
  if msg_pool =? RT_NULL then
    _ ← mq_delete mq RT_NULL; mret RT_NULL
  else
    _ ← mq_setup mq msg_pool bodies msg_size max_msgs;
    mret mq.

(** The first critical section of sending: a message leaves the free list. *)
Definition mq_take_free (mq : Z) : K (option Z) :=
  q ← get_mq mq;
  match mq_free q with
  | None => mret None
  | Some i =>
      m ← get_msg q i;
      _ ← put_mq mq (mq_set_lists (mq_entry q) (mq_head q) (mq_tail q) (msg_next m) q);
      mret (Some i)
  end.

(** Between the critical sections: [msg->next = RT_NULL] and the copy. *)
Definition mq_clear_next (mq i : Z) : K unit :=
  q ← get_mq mq; q ← lift (msg_set_next i None q); put_mq mq q.
Definition mq_fill (mq i : Z) (buffer : list Z) (size : Z) : K unit :=
  q ← get_mq mq;
  m ← get_msg q i;
  b ← lift (memcpy_at (msg_body m) 0 buffer 0 size);
  q ← lift (mq_set_body i b q);
  put_mq mq q.

(** The second critical section: at the tail, or at the head. *)
Definition mq_link_tail (mq i : Z) : K unit :=
  q ← get_mq mq;
  q ← (match mq_tail q with
       | Some t => lift (msg_set_next t (Some i) q)
       | None => mret q
       end);
  put_mq mq (mq_set_lists (u16 (mq_entry q + 1))
    (match mq_head q with None => Some i | h => h end) (Some i) (mq_free q) q).
Definition mq_link_head (mq i : Z) : K unit :=
  q ← get_mq mq;
  q ← lift (msg_set_next i (mq_head q) q);
  put_mq mq (mq_set_lists (u16 (mq_entry q + 1)) (Some i)
    (match mq_tail q with None => Some i | t => t end) (mq_free q) q).

Definition mq_check_args (mq buffer size : Z) : K unit :=
  _ ← kassert (negb (mq =? RT_NULL));
  _ ← kassert (negb (buffer =? RT_NULL));
  kassert (negb (size =? 0)).

(** [buf] is the address [buffer], [buffer] the bytes there. *)
Definition rt_mq_send (mq buf : Z) (buffer : list Z) (size : Z) : K Z :=
  _ ← mq_check_args mq buf size;
  q ← get_mq mq;
  if mq_msg_size q <? size then mret (- RT_ERROR) else
  msg ← mq_take_free mq;
  match msg with
  | None => mret (- RT_EFULL)
  | Some i =>
      _ ← mq_clear_next mq i;
      _ ← mq_fill mq i buffer size;
      _ ← mq_link_tail mq i;
      _ ← wake_first (LSuspend mq);
      mret RT_EOK
  end.

Definition rt_mq_urgent (mq buf : Z) (buffer : list Z) (size : Z) : K Z :=
  _ ← mq_check_args mq buf size;
  q ← get_mq mq;
  if mq_msg_size q <? size then mret (- RT_ERROR) else
  msg ← mq_take_free mq;
  match msg with
  | None => mret (- RT_EFULL)
  | Some i =>
      _ ← mq_fill mq i buffer size;
      _ ← mq_link_head mq i;
      _ ← wake_first (LSuspend mq);
      mret RT_EOK
  end.

(** The first critical section of receiving. *)
Definition mq_take_head (mq : Z) : K Z :=
  q ← get_mq mq;
  match mq_head q with
  | None => kfault
  | Some i =>
      m ← get_msg q i;
      let tail := if bool_decide (mq_tail q = Some i) then None else mq_tail q in
      _ ← put_mq mq (mq_set_lists (u16 (mq_entry q - 1)) (msg_next m) tail (mq_free q) q);
      mret i
  end.
(** The copy to the buffer, then the second critical section. *)
Definition mq_read (mq i : Z) (buffer : list Z) (size : Z) : K (list Z) :=
  q ← get_mq mq;
  m ← get_msg q i;
  lift (memcpy_at buffer 0 (msg_body m) 0 (if mq_msg_size q <? size then mq_msg_size q else size)).
Definition mq_put_free (mq i : Z) : K unit :=
  q ← get_mq mq;
  q ← lift (msg_set_next i (mq_free q) q);
  put_mq mq (mq_set_lists (mq_entry q) (mq_head q) (mq_tail q) (Some i) q).

Record mq_recv_k := MqRecvK {
  kq_mq : Z; kq_buffer : list Z; kq_size : Z; kq_timeout : Z; kq_tick : Z; kq_thread : Z }.

(** The result: the error code and the bytes at [buffer] afterwards. *)
Definition mq_recv_loop (mq : Z) (buffer : list Z) (size timeout thread : Z)
  : K (outcome (Z * list Z) mq_recv_k) :=
  q ← get_mq mq;
  if mq_entry q =? 0 then
    _ ← RT_DEBUG_IN_THREAD_CONTEXT;
    _ ← upd_thread thread (thr_error RT_EOK);
    if timeout =? 0 then
      _ ← upd_thread thread (thr_error (- RT_ETIMEOUT));
      mret (Return (- RT_ETIMEOUT, buffer))
    else
    flag ← get_flag (Obj mq);
    tick ← wait_timed (LSuspend mq) thread flag timeout;
    mret (Wait (MqRecvK mq buffer size timeout tick thread))
  else
    i ← mq_take_head mq;
    buffer ← mq_read mq i buffer size;
    _ ← mq_put_free mq i;
    mret (Return (RT_EOK, buffer)).

Definition rt_mq_recv (mq buf : Z) (buffer : list Z) (size timeout : Z)
  : K (outcome (Z * list Z) mq_recv_k) :=
  _ ← mq_check_args mq buf size;
  thread ← rt_thread_self;
  q ← get_mq mq;
  if (mq_entry q =? 0) && (timeout =? 0) then mret (Return (- RT_ETIMEOUT, buffer)) else
  mq_recv_loop mq buffer size timeout thread.
Definition rt_mq_recv_resume (k : mq_recv_k) : K (outcome (Z * list Z) mq_recv_k) :=
  th ← get_thread (kq_thread k);
  if negb (t_error th =? RT_EOK) then mret (Return (t_error th, kq_buffer k)) else
  tick ← rt_tick_get;
  mq_recv_loop (kq_mq k) (kq_buffer k) (kq_size k)
    (retime (kq_timeout k) (kq_tick k) tick) (kq_thread k).

(** The loop of [rt_mq_control] that releases all messages.  More rounds than
    there are messages mean a cycle. *)
Fixpoint mq_release_all (fuel : nat) (mq : Z) : K unit :=
  q ← get_mq mq;
  match mq_head q with
  | None => mret tt
  | Some i =>
      match fuel with
      | O => hang
      | S fuel =>
          m ← get_msg q i;
          let tail := if bool_decide (mq_tail q = Some i) then None else mq_tail q in
          _ ← put_mq mq (mq_set_lists (mq_entry q) (msg_next m) tail (mq_free q) q);
          _ ← mq_put_free mq i;
          mq_release_all fuel mq
      end
  end.

Definition rt_mq_control (mq cmd arg : Z) : K Z :=
  _ ← kassert (negb (mq =? RT_NULL));
  if cmd =? RT_IPC_CMD_RESET then
    _ ← rt_ipc_list_resume_all (LSuspend mq);
    q ← get_mq mq;
    _ ← mq_release_all (base.size (mq_pool q)) mq;
    q ← get_mq mq;
    _ ← put_mq mq (mq_set_lists 0 (mq_head q) (mq_tail q) (mq_free q) q);
    _ ← rt_schedule;
    mret RT_EOK
  else mret (- RT_ERROR).
