(* ===== verification/MailboxSpec.v ===== *)
(** * What mailboxes do

    A mailbox is a bounded first-in first-out queue of words; the ring of
    [Mailbox] implements it, and the operations move words and threads. *)

From Stdlib Require Import Lia.
From S2P Require Import Prelude KService Heap KState Scheduler Object Timer Thread.
From S2P Require Import Invariant Sample ThreadSpec Frame Clock Ipc IpcSpec Mailbox.

(** ** The queue in the ring *)

Record mb_ok (x : rt_mailbox) : Prop := {
  mo_size : 0 < mb_size x < 2 ^ 16;
  mo_pool : Z.of_nat (length (mb_msg_pool x)) = mb_size x;
  mo_entry : 0 <= mb_entry x <= mb_size x;
  mo_out : 0 <= mb_out_offset x < mb_size x;
  mo_in : mb_in_offset x = (mb_out_offset x + mb_entry x) mod mb_size x;
}.

Definition mb_contents (x : rt_mailbox) : list Z :=
  ring 0 (mb_msg_pool x) (mb_size x) (mb_out_offset x) (Z.to_nat (mb_entry x)).

Lemma mb_length_contents (x : rt_mailbox) :
  mb_ok x -> Z.of_nat (length (mb_contents x)) = mb_entry x.
Proof. intros M. unfold mb_contents. rewrite length_ring. pose proof (mo_entry _ M). lia. Qed.

(** Offsets in the ring are advanced as the code does it. *)
Lemma next_offset (o size : Z) :
  0 <= o < size -> size < 2 ^ 16 ->
  (if size <=? u16 (o + 1) then 0 else u16 (o + 1)) = (o + 1) mod size.
Proof.
  intros Ho Hs. rewrite (ubits_small 16) by lia. case_test.
  - assert (o + 1 = size) as -> by lia. by rewrite Z.mod_same by lia.
  - by rewrite Z.mod_small by lia.
Qed.

Definition mb_pushed (x : rt_mailbox) (v : Z) : rt_mailbox :=
  RtMailbox (mb_pool_addr x) (<[Z.to_nat (mb_in_offset x) := u32 v]> (mb_msg_pool x)) (mb_size x)
    (mb_entry x + 1) ((mb_in_offset x + 1) mod mb_size x) (mb_out_offset x).

Definition mb_popped (x : rt_mailbox) : rt_mailbox :=
  RtMailbox (mb_pool_addr x) (mb_msg_pool x) (mb_size x) (mb_entry x - 1) (mb_in_offset x)
    ((mb_out_offset x + 1) mod mb_size x).

Section Ring.
Variable x : rt_mailbox.
Hypothesis M : mb_ok x.

Lemma in_range : 0 <= mb_in_offset x < mb_size x.
Proof. rewrite (mo_in _ M). apply Z.mod_pos_bound, M. Qed.

Lemma pushed_ok (v : Z) : mb_entry x < mb_size x -> mb_ok (mb_pushed x v).
Proof.
  intros Hf. destruct M as [M1 M2 M3 M4 M5]. constructor; cbn; try done; [|lia|].
  - by rewrite length_insert.
  - rewrite M5, Zplus_mod_idemp_l. f_equal. lia.
Qed.

Lemma pushed_contents (v : Z) :
  mb_entry x < mb_size x -> mb_contents (mb_pushed x v) = mb_contents x ++ [u32 v].
Proof.
  intros Hf. destruct M as [M1 M2 M3 M4 M5]. unfold mb_contents. cbn. rewrite M5.
  replace (mb_entry x) with (Z.of_nat (Z.to_nat (mb_entry x))) at 1 by lia.
  replace (Z.to_nat (mb_entry x + 1)) with (S (Z.to_nat (mb_entry x))) by lia.
  apply ring_push; lia.
Qed.

Lemma popped_ok : 0 < mb_entry x -> mb_ok (mb_popped x).
Proof.
  intros He. destruct M as [M1 M2 M3 M4 M5]. constructor; cbn; try done; [lia| |].
  - apply Z.mod_pos_bound. lia.
  - rewrite Zplus_mod_idemp_l, M5. f_equal. lia.
Qed.

Lemma popped_contents (v : Z) (w : list Z) :
  mb_contents x = v :: w ->
  0 < mb_entry x /\ mb_msg_pool x !! Z.to_nat (mb_out_offset x) = Some v /\
  mb_contents (mb_popped x) = w.
Proof.
  intros E. destruct M as [M1 M2 M3 M4 M5]. unfold mb_contents in *.
  destruct (ring_pop 0 _ _ _ v _ w M2 ltac:(lia) E) as (Ev & Hn & Ew).
  rewrite Z.mod_small in Ev by done. split; [lia|]. split; [done|]. cbn.
  rewrite ring_mod by lia. rewrite <- Ew. f_equal. lia.
Qed.

End Ring.

(** ** The operations *)

Lemma wp_get_mb (a : Z) (x : rt_mailbox) (Q : rt_mailbox -> kst -> Prop) (s : kst) :
  i_mbs (ip s) !! a = Some x -> Q x s -> wp (get_mb a) Q s.
Proof. intros E H. unfold get_mb. by eapply wp_bind, wp_gets, wp_lift. Qed.

Definition set_mb (a : Z) (x : rt_mailbox) (s : kst) : kst :=
  upd_ip (fun c => with_mbs (<[a := x]> (i_mbs c)) c) s.

Lemma wp_mb_put (a v : Z) (x : rt_mailbox) (Q : unit -> kst -> Prop) (s : kst) :
  i_mbs (ip s) !! a = Some x -> mb_ok x -> mb_entry x < mb_size x ->
  Q tt (set_mb a (mb_pushed x v) s) -> wp (mb_put a v) Q s.
Proof.
  intros Hx M Hf HQ. pose proof (in_range x M) as Hi. destruct M as [M1 M2 M3 M4 M5].
  unfold mb_put. kstep. eapply wp_get_mb; [exact Hx|]. kstep.
  unfold lift. rewrite store_at_ok by lia. unfold wp at 1. cbn.
  kstep. unfold mb_pushed in HQ. rewrite next_offset by lia.
  rewrite (ubits_small 16 (mb_entry x + 1)) by lia. exact HQ.
Qed.

Lemma wp_mb_get (a v : Z) (w : list Z) (x : rt_mailbox) (Q : Z -> kst -> Prop) (s : kst) :
  i_mbs (ip s) !! a = Some x -> mb_ok x -> mb_contents x = v :: w ->
  Q v (set_mb a (mb_popped x) s) -> wp (mb_get a) Q s.
Proof.
  intros Hx M E HQ. destruct (popped_contents x M v w E) as (He & Ev & _).
  destruct M as [M1 M2 M3 M4 M5].
  unfold mb_get. kstep. eapply wp_get_mb; [exact Hx|]. kstep.
  unfold lift. rewrite (load_at_ok _ _ v) by (lia || done). unfold wp at 1. cbn.
  do 2 kstep. kstep. unfold mb_popped in HQ. rewrite next_offset by lia.
  rewrite (ubits_small 16 (mb_entry x - 1)) by lia. exact HQ.
Qed.

(** The caller waits, with the tick it started at. *)
Lemma wp_wait_timed (l : lid) (flag t time : Z) (th : rt_thread) (s : kst) (Q : Z -> kst -> Prop) :
  caller s t th -> wait_list l -> valid_flag flag -> time < 2 ^ 31 - 1 ->
  (forall s', blocked l flag t time th s s' ->
     Q (if 0 <? time then ts_tick (tm s) else 0) s') ->
  wp (wait_timed l t flag time) Q s.
Proof.
  intros C Hl Hf Htime HQ. pose proof C as [W Hc Ht Hs Ho Hn Hk]. unfold wait_timed.
  kstep. apply (wp_ipc_suspend s l flag t th); try done.
  pose proof (wf_waiting s l flag t th W Hl Ht Hs) as W1.
  assert (R : wp (_ ← rt_schedule; mret (if 0 <? time then ts_tick (tm s) else 0)) Q
    (waiting_timed l flag t time th s)).
  { kstep. apply wp_reschedule.
    - by apply wf_waiting_timed.
    - destruct (waiting_timed_same s l flag t th time) as [E _]. rewrite E.
      destruct Ho as (u & thu & Hne & Hu & Hsu). exists u, thu.
      rewrite waiting_threads, lookup_insert_ne by done. done.
    - intros s' W' R. kstep. apply HQ. by apply waiting_blocked. }
  unfold waiting_timed in R. kstep. destruct (0 <? time) eqn:Et; b2p.
  - do 2 kstep. eapply (wp_arm _ t time (thr_stat RT_THREAD_SUSPEND th) W1); [|done|lia|].
    + rewrite waiting_threads by done. apply lookup_insert_eq.
    + kstep. assert (E : ts_tick (tm (waiting l flag t th s)) = ts_tick (tm s)).
      { cbn. apply (stopped_same s (ThreadTimer t)). }
      rewrite E. exact R.
  - kstep. exact R.
Qed.

(** What a call that did not have to wait leaves: the mailbox holds [w], and the
    first thread that waited in [l] has been waked. *)
Record mb_moved (l : lid) (mb size : Z) (w : list Z) (s s' : kst) : Prop := {
  mm_wf : wf_kst s';
  mm_mb : exists x, i_mbs (ip s') !! mb = Some x /\ mb_ok x /\ mb_size x = size /\ mb_contents x = w;
  mm_calm : calm (take 1 (tlist (sc s) l)) s s';
  mm_ip : with_mbs ∅ (ip s') = with_mbs ∅ (ip s) /\
    (forall a, a <> mb -> i_mbs (ip s') !! a = i_mbs (ip s) !! a);
  mm_wake : match tlist (sc s) l with
    | [] => sc s' = sc s
    | u :: rest => waked (fun _ th => th) [u] (sc s) (sc s') /\ tlist (sc s') l = rest /\
        (s_lock_nest (sc s) = 0 -> exists p, highest (sc s') p (s_current (sc s')))
    end;
}.

Lemma wp_wake_moved (l : lid) (mb : Z) (w : list Z) (s : kst) (x : rt_mailbox)
    (Q : unit -> kst -> Prop) :
  wf_kst s -> wait_list l -> mb_ok x -> mb_contents x = w ->
  (forall s', mb_moved l mb (mb_size x) w s s' -> Q tt s') -> wp (wake_first l) Q (set_mb mb x s).
Proof.
  intros W Hl M E HQ. unfold wake_first. apply wp_wake; [by apply wf_kst_ip|done|].
  change (sc (set_mb mb x s)) with (sc s). destruct (tlist (sc s) l) as [|u rest] eqn:El.
  - apply HQ. constructor; [by apply wf_kst_ip| |done| |by rewrite El].
    + exists x. split; [apply lookup_insert_eq|done].
    + split; [done|]. intros a Ha. cbn. by rewrite lookup_insert_ne.
  - intros s' W' A T I _ Ca Hh. apply HQ.
    assert (Ca' : calm (take 1 (tlist (sc s) l)) s s') 
      by (rewrite El; etrans; [apply calm_upd_ip|exact Ca]).
    constructor; [done| |exact Ca'| |by rewrite El].
    + exists x. rewrite I. split; [apply lookup_insert_eq|done].
    + rewrite I. split; [done|]. intros a Ha. cbn. by rewrite lookup_insert_ne.
Qed.

Section Send.
Variables (s : kst) (mb : Z) (x : rt_mailbox) (y : rt_object) (t : Z) (th : rt_thread) (time : Z).
Hypothesis W : wf_kst s.
Hypothesis Hmb : mb <> RT_NULL.
Hypothesis Hx : i_mbs (ip s) !! mb = Some x.
Hypothesis M : mb_ok x.
Hypothesis Hy : ob_objs (ob s) !! Obj mb = Some y.
Hypothesis Hf : valid_flag (o_flag y).
Hypothesis Htime : time < 2 ^ 31 - 1.

Let th1 := thr_error RT_EOK th.

Lemma wp_send_loop (value : Z) (Q : outcome Z mb_send_k -> kst -> Prop) :
  (mb_entry x = mb_size x -> s_threads (sc s) !! t = Some th /\ (time <> 0 -> caller s t th)) ->
  (mb_entry x = mb_size x -> time = 0 -> Q (Return (- RT_EFULL)) (set_thread t th1 s)) ->
  (mb_entry x < mb_size x -> forall s',
     mb_moved (LSuspend mb) mb (mb_size x) (mb_contents x ++ [u32 value]) s s' -> Q (Return RT_EOK) s') ->
  (mb_entry x = mb_size x -> time <> 0 -> forall s',
     blocked (LSender mb) (o_flag y) t time th1 (set_thread t th1 s) s' ->
     Q (Wait (MbSendK mb value time (if 0 <? time then ts_tick (tm s) else 0) t)) s') ->
  wp (mb_send_loop mb value time t) Q s.
Proof.
  intros Hc H0 H1 H2. unfold mb_send_loop. kstep. eapply wp_get_mb; [exact Hx|].
  pose proof (mo_entry _ M).
  destruct (Z.eqb_spec (mb_entry x) (mb_size x)) as [E|E].
  - destruct (Hc E) as [Ht C]. kstep. eapply wp_upd_thread; [exact Ht|].
    destruct (Z.eqb_spec time 0) as [Hz|Hne]; [kstep; by apply H0|]. specialize (C Hne). fold th1.
    assert (C1 : caller (set_thread t th1 s) t th1) by (by apply caller_error).
    kstep. eapply wp_in_thread; [exact C1|]. kstep. eapply wp_get_flag; [exact Hy|]. kstep.
    eapply wp_wait_timed; [exact C1|done|exact Hf|done|]. intros s' B. kstep. by apply H2.
  - kstep. eapply wp_mb_put; [exact Hx|done|lia|]. kstep.
    apply (wp_wake_moved (LSuspend mb) mb (mb_contents x ++ [u32 value])); try done.
    + apply pushed_ok; [done|lia].
    + apply pushed_contents; [done|lia].
    + intros s' B. kstep. apply H1; [lia|done].
Qed.

Lemma wp_recv_loop (Q : outcome (Z * option Z) mb_recv_k -> kst -> Prop) :
  (mb_contents x = [] -> s_threads (sc s) !! t = Some th /\ (time <> 0 -> caller s t th)) ->
  (mb_contents x = [] -> time = 0 ->
     Q (Return (- RT_ETIMEOUT, None)) (set_thread t (thr_error (- RT_ETIMEOUT) th) s)) ->
  (forall v w, mb_contents x = v :: w -> forall s',
     mb_moved (LSender mb) mb (mb_size x) w s s' -> Q (Return (RT_EOK, Some v)) s') ->
  (mb_contents x = [] -> time <> 0 -> forall s',
     blocked (LSuspend mb) (o_flag y) t time th1 (set_thread t th1 s) s' ->
     Q (Wait (MbRecvK mb time (if 0 <? time then ts_tick (tm s) else 0) t)) s') ->
  wp (mb_recv_loop mb time t) Q s.
Proof.
  intros Hc H0 H1 H2. unfold mb_recv_loop. kstep. eapply wp_get_mb; [exact Hx|].
  pose proof (mb_length_contents x M) as L.
  destruct (mb_contents x) as [|v w] eqn:E.
  - destruct (Hc eq_refl) as [Ht C]. rewrite <- L. cbn [length Z.of_nat]. rewrite Z.eqb_refl.
    kstep. eapply wp_upd_thread; [exact Ht|].
    destruct (Z.eqb_spec time 0) as [Hz|Hne].
    { kstep. eapply wp_upd_thread; [apply lookup_insert_eq|]. rewrite set_thread_twice. kstep.
      by apply H0. }
    specialize (C Hne). fold th1.
    assert (C1 : caller (set_thread t th1 s) t th1) by (by apply caller_error).
    kstep. eapply wp_in_thread; [exact C1|]. kstep. eapply wp_get_flag; [exact Hy|]. kstep.
    eapply wp_wait_timed; [exact C1|done|exact Hf|done|]. intros s' B. kstep. by apply H2.
  - cbn in L. destruct (mb_entry x =? 0) eqn:E0; b2p; [lia|].
    destruct (popped_contents x M v w E) as (He & _ & Ec).
    kstep. eapply wp_mb_get; [exact Hx|done|exact E|]. kstep.
    apply (wp_wake_moved (LSender mb) mb w); try done.
    + by apply popped_ok.
    + intros s' B. kstep. by apply (H1 v w).
Qed.

(** Sending a word puts it at the end of the mailbox and wakes the first
    thread that waits for one; a full mailbox makes a sender that may not wait
    fail with -RT_EFULL and nothing changes, and every other sender waits in the
    list of the senders. *)
Theorem rt_mb_send_wait_ok (value : Z) :
  s_current (sc s) = t -> (mb_entry x = mb_size x -> time <> 0 -> caller s t th) ->
  wp (rt_mb_send_wait mb value time) (fun r s' =>
    if mb_entry x =? mb_size x then
      if time =? 0 then r = Return (- RT_EFULL) /\ s' = s
      else r = Wait (MbSendK mb value time (if 0 <? time then ts_tick (tm s) else 0) t) /\
        blocked (LSender mb) (o_flag y) t time th1 (set_thread t th1 s) s'
    else r = Return RT_EOK /\ mb_moved (LSuspend mb) mb (mb_size x) (mb_contents x ++ [u32 value]) s s') s.
Proof.
  intros Ec Hc. unfold rt_mb_send_wait. kstep. kstep; [by apply negb_true_iff, Z.eqb_neq|].
  do 2 kstep. rewrite Ec. kstep. eapply wp_get_mb; [exact Hx|].
  destruct (Z.eqb_spec (mb_entry x) (mb_size x)) as [E|E]; cbn [andb].
  - destruct (Z.eqb_spec time 0) as [E0|E0]; [by kstep|].
    apply wp_send_loop; [|done|lia|by auto]. intros _. split; [apply (Hc E E0)|by auto].
  - apply wp_send_loop; [done..|by auto|done].
Qed.

(** Receiving takes the oldest word of the mailbox and wakes the first sender
    that waits for room; on an empty mailbox a receiver that may not wait fails
    with -RT_ETIMEOUT and nothing changes, every other one waits. *)
Theorem rt_mb_recv_ok :
  s_current (sc s) = t -> (mb_contents x = [] -> time <> 0 -> caller s t th) ->
  wp (rt_mb_recv mb time) (fun r s' =>
    match mb_contents x with
    | [] => if time =? 0 then r = Return (- RT_ETIMEOUT, None) /\ s' = s
            else r = Wait (MbRecvK mb time (if 0 <? time then ts_tick (tm s) else 0) t) /\
              blocked (LSuspend mb) (o_flag y) t time th1 (set_thread t th1 s) s'
    | v :: w => r = Return (RT_EOK, Some v) /\ mb_moved (LSender mb) mb (mb_size x) w s s'
    end) s.
Proof.
  intros Ec Hc. unfold rt_mb_recv. kstep. kstep; [by apply negb_true_iff, Z.eqb_neq|].
  do 2 kstep. rewrite Ec. kstep. eapply wp_get_mb; [exact Hx|].
  pose proof (mb_length_contents x M) as L.
  destruct (mb_contents x) as [|v w] eqn:E; cbn [length] in L.
  - rewrite <- L. cbn [Z.of_nat]. rewrite Z.eqb_refl. cbn [andb].
    destruct (Z.eqb_spec time 0) as [E0|E0]; [by kstep|].
    apply wp_recv_loop; [|done|congruence|by auto]. intros _. split; [apply (Hc eq_refl E0)|by auto].
  - rewrite (proj2 (Z.eqb_neq (mb_entry x) 0)) by lia. cbn [andb].
    apply wp_recv_loop; rewrite E; [done..| |done]. intros v' w' [= -> ->]. auto.
Qed.

End Send.

(** ** Calls that do not wait, as operations of a bounded queue *)

Inductive mb_op := MbSend (v : Z) | MbRecv.

(** The results of the calls: an error code, and the word that was received. *)
Definition run_mb_op (mb : Z) (op : mb_op) : K (Z * option Z) :=
  match op with
  | MbSend v => r ← rt_mb_send mb v;
      match r with Return e => mret (e, None) | Wait _ => kfault end
  | MbRecv => r ← rt_mb_recv mb 0;
      match r with Return r => mret r | Wait _ => kfault end
  end.

Fixpoint run_mb_ops (mb : Z) (ops : list mb_op) : K (list (Z * option Z)) :=
  match ops with
  | [] => mret []
  | op :: ops => r ← run_mb_op mb op; rs ← run_mb_ops mb ops; mret (r :: rs)
  end.

(** The specification: a queue of at most [size] words. *)
Definition queue_op (size : Z) (op : mb_op) (w : list Z) : (Z * option Z) * list Z :=
  match op with
  | MbSend v => if Z.of_nat (length w) =? size then ((- RT_EFULL, None), w)
                else ((RT_EOK, None), w ++ [u32 v])
  | MbRecv => match w with
              | [] => ((- RT_ETIMEOUT, None), [])
              | v :: w => ((RT_EOK, Some v), w)
              end
  end.

Fixpoint queue_ops (size : Z) (ops : list mb_op) (w : list Z) : list (Z * option Z) * list Z :=
  match ops with
  | [] => ([], w)
  | op :: ops =>
      let '(r, w) := queue_op size op w in
      let '(rs, w) := queue_ops size ops w in (r :: rs, w)
  end.

(** The state represents the queue [w] of [size] words. *)
Definition mb_repr (mb size : Z) (w : list Z) (s : kst) : Prop :=
  wf_kst s /\ mb <> RT_NULL /\
  (exists y, ob_objs (ob s) !! Obj mb = Some y /\ valid_flag (o_flag y)) /\
  exists x, i_mbs (ip s) !! mb = Some x /\ mb_ok x /\ mb_size x = size /\ mb_contents x = w.

Lemma moved_repr (l : lid) (mb size : Z) (w : list Z) (y : rt_object) (s s' : kst) :
  mb <> RT_NULL -> ob_objs (ob s) !! Obj mb = Some y -> valid_flag (o_flag y) ->
  mb_moved l mb size w s s' -> mb_repr mb size w s'.
Proof.
  intros Hmb Hy Hf B. split; [apply B|]. split; [done|]. split; [|apply B].
  exists y. by rewrite (cm_obj _ _ _ (mm_calm _ _ _ _ _ _ B)).
Qed.

Lemma wp_run_mb_op (mb size : Z) (op : mb_op) (w : list Z) (s : kst) :
  mb_repr mb size w s ->
  wp (run_mb_op mb op) (fun r s' =>
    mb_repr mb size (queue_op size op w).2 s' /\ r = (queue_op size op w).1) s.
Proof.
  intros Rep. pose proof Rep as (W & Hmb & (y & Hy & Hf) & x & Hx & M & Hs & Hw).
  pose proof (mb_length_contents x M) as L. rewrite Hw in L.
  destruct op as [v|]; cbn [run_mb_op queue_op].
  - unfold rt_mb_send, rt_mb_send_wait. do 2 kstep. kstep; [by apply negb_true_iff, Z.eqb_neq|].
    do 2 kstep. kstep. eapply wp_get_mb; [exact Hx|]. rewrite L, <- Hs.
    destruct (Z.eqb_spec (mb_entry x) (mb_size x)) as [E|E]; cbn [andb].
    + rewrite Z.eqb_refl. repeat kstep. rewrite Hs. done.
    + apply (wp_send_loop s mb x y _ zero_thread 0); try done.
      intros _ s' B. kstep. rewrite Hw in B. cbn. split; [|done]. by eapply moved_repr.
  - unfold rt_mb_recv. do 2 kstep. kstep; [by apply negb_true_iff, Z.eqb_neq|].
    do 2 kstep. kstep. eapply wp_get_mb; [exact Hx|].
    destruct w as [|v w]; cbn [length] in L.
    + rewrite <- L. cbn [Z.of_nat]. rewrite Z.eqb_refl. cbn [andb]. by repeat kstep.
    + rewrite (proj2 (Z.eqb_neq (mb_entry x) 0)) by lia. cbn [andb].
      apply (wp_recv_loop s mb x y _ zero_thread 0); try done; rewrite Hw; try done.
      intros v' w' [= -> ->] s' B. kstep. cbn. split; [|done]. subst size. by eapply moved_repr.
Qed.

(** C24: refinement.  On a running kernel, every sequence of calls of [rt_mb_send]
    and of [rt_mb_recv] without waiting on a mailbox, whatever threads wait for
    it, gives exactly the results of a queue of words bounded by the size of the
    mailbox: nothing is lost, doubled or reordered. *)
Theorem mailbox_refines_queue (mb size : Z) (ops : list mb_op) (w : list Z) (s : kst) :
  mb_repr mb size w s ->
  wp (run_mb_ops mb ops) (fun rs s' =>
    rs = (queue_ops size ops w).1 /\ mb_repr mb size (queue_ops size ops w).2 s') s.
Proof.
  revert w s. induction ops as [|op ops IH]; intros w s R; cbn [run_mb_ops queue_ops]; [by kstep|].
  kstep. eapply wp_mono; [by apply wp_run_mb_op|]. intros r s1 [R1 ->].
  destruct (queue_op size op w) as [r1 w1]. cbn [fst snd] in *.
  kstep. eapply wp_mono; [by apply IH|]. intros rs s2 [-> R2].
  kstep. by destruct (queue_ops size ops w1) as [rs w2].
Qed.

(** ** Samples *)

Definition a_mb : Z := 0x20007300.

(** A mailbox of two words, with one word in it; two receivers wait for another
    one. *)
Definition with_mb : kst :=
  after (rt_mb_send a_mb 41)
    (after (rt_mb_init a_mb [98; 0] 0x20007400 [0; 0] 2 RT_IPC_FLAG_FIFO) running).
Definition mb_waited : kst :=
  after (rt_mb_recv a_mb 20) (after (rt_mb_recv a_mb 0) with_mb).

Lemma wf_with_mb : wf_kst with_mb.
Proof. apply wf_check. evaluate. Qed.
Lemma wf_mb_waited : wf_kst mb_waited.
Proof. apply wf_check. evaluate. Qed.

Definition mb_one : rt_mailbox := RtMailbox 0x20007400 [41; 0] 2 1 1 0.
Definition mb_empty : rt_mailbox := RtMailbox 0x20007400 [41; 0] 2 0 1 1.

Lemma mb_one_ok : mb_ok mb_one.
Proof. constructor; cbn; (lia || reflexivity). Qed.
Lemma mb_empty_ok : mb_ok mb_empty.
Proof. constructor; cbn; (lia || reflexivity). Qed.

Lemma rt_mb_send_wait_ok_witness :
  wp (rt_mb_send_wait a_mb 42 0) (fun r s' => r = Return RT_EOK /\ wf_kst s' /\
    tlist (sc s') (LSuspend a_mb) = []) mb_waited.
Proof.
  assert (Hx : i_mbs (ip mb_waited) !! a_mb = Some mb_empty) by evaluate.
  destruct (lookup_flag mb_waited (Obj a_mb) RT_IPC_FLAG_FIFO) as (y & Hy & Hf); [evaluate|].
  assert (El : tlist (sc mb_waited) (LSuspend a_mb) = [main_t]) by evaluate.
  eapply wp_mono; [apply (rt_mb_send_wait_ok mb_waited a_mb mb_empty y peer_t zero_thread 0)|].
  - apply wf_mb_waited.
  - discriminate.
  - exact Hx.
  - apply mb_empty_ok.
  - exact Hy.
  - rewrite Hf. left. reflexivity.
  - lia.
  - evaluate.
  - discriminate.
  - intros r s' [R [W _ _ _ K]]. rewrite El in K. destruct K as (_ & K & _).
    split; [exact R|]. split; [exact W|exact K].
Defined.

Lemma rt_mb_recv_ok_witness :
  wp (rt_mb_recv a_mb 0) (fun r s' => r = Return (RT_EOK, Some 41) /\ wf_kst s') with_mb.
Proof.
  assert (Hx : i_mbs (ip with_mb) !! a_mb = Some mb_one) by evaluate.
  destruct (lookup_flag with_mb (Obj a_mb) RT_IPC_FLAG_FIFO) as (y & Hy & Hf); [evaluate|].
  eapply wp_mono; [apply (rt_mb_recv_ok with_mb a_mb mb_one y main_t zero_thread 0)|].
  - apply wf_with_mb.
  - discriminate.
  - exact Hx.
  - apply mb_one_ok.
  - exact Hy.
  - rewrite Hf. left. reflexivity.
  - lia.
  - evaluate.
  - discriminate.
  - intros r s' [R [W _ _ _ _]]. split; [exact R|exact W].
Defined.

Lemma mailbox_refines_queue_witness :
  wp (run_mb_ops a_mb [MbSend 42; MbSend 43; MbRecv; MbRecv; MbRecv]) (fun rs _ =>
    rs = [(RT_EOK, None); (- RT_EFULL, None); (RT_EOK, Some 41); (RT_EOK, Some 42);
          (- RT_ETIMEOUT, None)]) with_mb.
Proof.
  assert (Hx : i_mbs (ip with_mb) !! a_mb = Some mb_one) by evaluate.
  destruct (lookup_flag with_mb (Obj a_mb) RT_IPC_FLAG_FIFO) as (y & Hy & Hf); [evaluate|].
  eapply wp_mono; [apply (mailbox_refines_queue a_mb 2 _ [41] with_mb)|].
  - split; [apply wf_with_mb|]. split; [discriminate|]. split.
    + exists y. split; [exact Hy|]. rewrite Hf. left. reflexivity.
    + exists mb_one. split; [exact Hx|]. split; [apply mb_one_ok|]. split; reflexivity.
  - intros rs s' [R _]. rewrite R. reflexivity.
Defined.
