(* ===== verification/System.v ===== *)
(** * The running system

    The kernel together with the threads that call it.  A thread is whatever
    sequence of calls it makes: at each step the running thread makes any call, or
    goes on with the call it waited in, or the clock interrupt comes.  A call runs
    up to its [rt_schedule] without interruption.  The calls are those on
    semaphores, events and mailboxes, sleeping and yielding; the calls that change
    a priority are left out, because they do not reschedule. *)

From Stdlib Require Import Lia.
From S2P Require Import Prelude KService Heap KState Scheduler Object Timer Thread.
From S2P Require Import Invariant Sample ThreadSpec Frame Clock Ipc IpcSpec EventSpec Mailbox MailboxSpec.

(** ** The system *)

Inductive syscall :=
| CYield
| CSleep (tick : Z)
| CSemTake (sem time : Z)
| CSemRelease (sem : Z)
| CEventSend (event set : Z)
| CEventRecv (event set opt time : Z)
| CMbSend (mb value time : Z)
| CMbRecv (mb time : Z).

(** What a thread that waits goes on with. *)
Inductive kont :=
| KSleep (t : Z)
| KSem (t : Z)
| KEvent (t : Z)
| KMbSend (k : mb_send_k)
| KMbRecv (k : mb_recv_k).

(** The result of a call: its value and the word it stores. *)
Definition reply : Type := Z * option Z.

Definition outcome_map {A B V W} (f : A -> B) (g : V -> W) (r : outcome A V) : outcome B W :=
  match r with Return a => Return (f a) | Wait k => Wait (g k) end.

Definition code (e : Z) : reply := (e, None).

Definition run_call (c : syscall) : K (outcome reply kont) :=
  match c with
  | CYield => e ← rt_thread_yield; mret (Return (code e))
  | CSleep tick => r ← rt_thread_sleep tick; mret (outcome_map code KSleep r)
  | CSemTake sem time => r ← rt_sem_take sem time; mret (outcome_map code KSem r)
  | CSemRelease sem => e ← rt_sem_release sem; mret (Return (code e))
  | CEventSend event set => e ← rt_event_send event set; mret (Return (code e))
  | CEventRecv event set opt time =>
      r ← rt_event_recv event set opt time; mret (outcome_map id KEvent r)
  | CMbSend mb value time => r ← rt_mb_send_wait mb value time; mret (outcome_map code KMbSend r)
  | CMbRecv mb time => r ← rt_mb_recv mb time; mret (outcome_map id KMbRecv r)
  end.

Definition run_kont (k : kont) : K (outcome reply kont) :=
  match k with
  | KSleep t => e ← rt_thread_sleep_resume t; mret (Return (code e))
  | KSem t => e ← rt_sem_take_resume t; mret (Return (code e))
  | KEvent t => r ← rt_event_recv_resume t; mret (Return r)
  | KMbSend k => r ← rt_mb_send_resume k; mret (outcome_map code KMbSend r)
  | KMbRecv k => r ← rt_mb_recv_resume k; mret (outcome_map id KMbRecv r)
  end.

(** [pending]: what the threads that wait, or have waited and not run since, go on
    with. *)
Record sys := Sys { kernel : kst; pending : gmap Z kont }.

Definition running_thread (c : sys) : Z := s_current (sc (kernel c)).

Definition set_pending (t : Z) (r : outcome reply kont) (m : gmap Z kont) : gmap Z kont :=
  match r with Return _ => delete t m | Wait k => <[t := k]> m end.

Inductive event :=
| ECall (op : syscall)
| EResume
| ETick.

Definition no_fn : Z -> Z -> K unit := fun _ _ => kfault.

Definition sys_step (e : event) (c : sys) : res sys :=
  let t := running_thread c in
  match e with
  | ECall op =>
      '(r, s) ← run_call op (kernel c); Ok (Sys s (set_pending t r (pending c)))
  | EResume =>
      k ← deref (pending c !! t);
      '(r, s) ← run_kont k (kernel c); Ok (Sys s (set_pending t r (pending c)))
  | ETick =>
      '(_, s) ← SysTick_Handler no_fn (S (length (trow (tm (kernel c))))) (kernel c);
      Ok (Sys s (pending c))
  end.

(** A time for the timer of a thread; a negative one is for ever. *)
Definition time_ok (time : Z) : Prop := time < 2 ^ 31 - 1.

(** The arguments a call may have: existing objects and times the timers can
    count; the idle thread does not wait. *)
Definition call_ok (idle t : Z) (s : kst) (op : syscall) : Prop :=
  match op with
  | CYield => True
  | CSleep tick => 0 <= tick < 2 ^ 31 - 1 /\ t <> idle
  | CSemTake sem time => is_Some (i_sems (ip s) !! sem) /\ time_ok time /\ (t = idle -> time = 0)
  | CSemRelease sem => is_Some (i_sems (ip s) !! sem)
  | CEventSend event set => is_Some (i_events (ip s) !! event) /\ u32 set <> 0
  | CEventRecv event set opt time =>
      is_Some (i_events (ip s) !! event) /\ 0 < set < 2 ^ 32 /\ time_ok time /\
      has_flag opt RT_EVENT_FLAG_AND || has_flag opt RT_EVENT_FLAG_OR = true /\ (t = idle -> time = 0)
  | CMbSend mb _ time | CMbRecv mb time =>
      is_Some (i_mbs (ip s) !! mb) /\ time_ok time /\ (t = idle -> time = 0)
  end.

(** A thread that was waked out of a wait with a time runs before the tick counter
    has gone half around. *)
Definition resume_ok (s : kst) (k : kont) : Prop :=
  match k with
  | KMbSend k => 0 < ks_timeout k -> u32 (ts_tick (tm s) - ks_tick k) <= 2 ^ 31
  | KMbRecv k => 0 < kr_timeout k -> u32 (ts_tick (tm s) - kr_tick k) <= 2 ^ 31
  | _ => True
  end.

Definition enabled (idle : Z) (e : event) (c : sys) : Prop :=
  let t := running_thread c in
  match e with
  | ECall op => pending c !! t = None /\ call_ok idle t (kernel c) op
  | EResume => exists k, pending c !! t = Some k /\ resume_ok (kernel c) k
  | ETick => True
  end.

(** [exec idle c es c']: the events [es] lead from [c] to [c']. *)
Inductive exec (idle : Z) : sys -> list event -> sys -> Prop :=
| exec_nil c : exec idle c [] c
| exec_cons c e c1 es c' :
    enabled idle e c -> sys_step e c = Ok c1 -> exec idle c1 es c' -> exec idle c (e :: es) c'.

(** ** The invariant *)

Definition ready (s : kst) (t : Z) : Prop :=
  t_stat <$> s_threads (sc s) !! t = Some RT_THREAD_READY.
Definition asleep (s : kst) (t : Z) : Prop :=
  t_stat <$> s_threads (sc s) !! t = Some RT_THREAD_SUSPEND.

(** Something can wake the thread. *)
Definition waits (s : kst) (t : Z) : Prop :=
  (exists l, wait_list l /\ t ∈ tlist (sc s) l) \/ ThreadTimer t ∈ trow (tm s).

Record kernel_ok (idle : Z) (s : kst) : Prop := {
  ko_wf : wf_kst s;
  ko_lock : s_lock_nest (sc s) = 0;
  ko_nest : s_interrupt_nest (sc s) = 0;
  ko_policy : on_policy s;
  ko_idle : ready s idle;
  ko_asleep : forall t, asleep s t -> waits s t;
  ko_row : forall o, o ∈ trow (tm s) -> (exists t, o = ThreadTimer t) /\ 0 <= remaining (tm s) o;
}.

Definition registered (s : kst) (a : Z) : Prop :=
  a <> RT_NULL /\ exists y, ob_objs (ob s) !! Obj a = Some y /\ valid_flag (o_flag y).

Record objects_ok (s : kst) : Prop := {
  oo_sem : forall a x, i_sems (ip s) !! a = Some x ->
    registered s a /\ sem_inv s a /\ i_events (ip s) !! a = None /\ i_mbs (ip s) !! a = None;
  oo_event : forall a x, i_events (ip s) !! a = Some x -> registered s a;
  oo_mb : forall a x, i_mbs (ip s) !! a = Some x -> registered s a /\ mb_ok x;
}.

Definition kont_ok (idle : Z) (s : kst) (t : Z) (k : kont) : Prop :=
  t <> idle /\
  match k with
  | KSleep u | KSem u | KEvent u => u = t
  | KMbSend k => ks_thread k = t /\ is_Some (i_mbs (ip s) !! ks_mb k) /\ time_ok (ks_timeout k)
  | KMbRecv k => kr_thread k = t /\ is_Some (i_mbs (ip s) !! kr_mb k) /\ time_ok (kr_timeout k)
  end.

Record sys_ok (idle : Z) (c : sys) : Prop := {
  so_kernel : kernel_ok idle (kernel c);
  so_objects : objects_ok (kernel c);
  so_kont : forall t k, pending c !! t = Some k -> kont_ok idle (kernel c) t k;
  so_asleep : forall t, asleep (kernel c) t -> is_Some (pending c !! t);
}.

Lemma current_thread (idle : Z) (s : kst) :
  kernel_ok idle s -> exists th, s_threads (sc s) !! s_current (sc s) = Some th /\
    t_stat th = RT_THREAD_READY.
Proof.
  intros Ko. destruct (ko_policy _ _ Ko) as (p & _ & H & _). apply head_Some_elem_of in H.
  destruct (ws_loc _ (wk_sched _ (ko_wf _ _ Ko)) _ _ H) as (th & Ht & Hs & _). by exists th.
Qed.

Lemma ready_not_asleep (s : kst) (t : Z) : ready s t -> asleep s t -> False.
Proof. unfold ready, asleep. intros -> [=]. Qed.

Lemma ready_lookup (s : kst) (t : Z) :
  ready s t <-> exists th, s_threads (sc s) !! t = Some th /\ t_stat th = RT_THREAD_READY.
Proof.
  unfold ready. destruct (s_threads (sc s) !! t) as [th|]; split.
  - intros [= E]. by exists th.
  - intros (x & [= ->] & E). cbn. by rewrite E.
  - done.
  - by intros (x & ? & _).
Qed.

Lemma current_caller (idle : Z) (s : kst) (th : rt_thread) :
  kernel_ok idle s -> s_current (sc s) <> idle -> s_threads (sc s) !! s_current (sc s) = Some th ->
  t_stat th = RT_THREAD_READY -> caller s (s_current (sc s)) th.
Proof.
  intros Ko Hne Ht Hs. destruct (proj1 (ready_lookup _ _) (ko_idle _ _ Ko)) as (x & Hx & Hxs).
  constructor; try done; try apply Ko. exists idle, x. done.
Qed.

(** ** What a call does to the threads *)

(** Thread [t] makes a call; [L] are the waiting lists it may have entered. *)
Record moves (t : Z) (L : lid -> Prop) (s s' : kst) : Prop := {
  mv_wf : wf_kst s';
  mv_lock : s_lock_nest (sc s') = s_lock_nest (sc s);
  mv_nest : s_interrupt_nest (sc s') = s_interrupt_nest (sc s);
  mv_obj : forall a, ob_objs (ob s') !! Obj a = ob_objs (ob s) !! Obj a;
  mv_policy : on_policy s';
  (* no other thread stops running or falls asleep, and one that sleeps goes on
     sleeping, with the same ticks left, or becomes ready *)
  mv_ready : forall u, u <> t -> ready s u -> ready s' u;
  mv_asleep : forall u, u <> t -> asleep s u -> ready s' u \/ (asleep s' u /\
    (forall l, wait_list l -> u ∈ tlist (sc s) l -> u ∈ tlist (sc s') l) /\
    (ThreadTimer u ∈ trow (tm s) -> ThreadTimer u ∈ trow (tm s') /\
       remaining (tm s') (ThreadTimer u) = remaining (tm s) (ThreadTimer u)));
  mv_back : forall u, u <> t -> asleep s' u -> asleep s u;
  mv_self : ready s' t \/ (asleep s' t /\ waits s' t);
  mv_row : forall o, o ∈ trow (tm s') ->
    (o ∈ trow (tm s) /\ remaining (tm s') o = remaining (tm s) o) \/
    (o = ThreadTimer t /\ 0 <= remaining (tm s') o);
  mv_empty : forall l, wait_list l -> ~ L l -> tlist (sc s) l = [] -> tlist (sc s') l = [];
}.

(** The scheduler's view of the threads is the same in both states. *)
Record same_view (s s' : kst) : Prop := {
  sv_stat : forall u, t_stat <$> s_threads (sc s') !! u = t_stat <$> s_threads (sc s) !! u;
  sv_lists : forall l, tlist (sc s') l = tlist (sc s) l;
  sv_lock : s_lock_nest (sc s') = s_lock_nest (sc s);
  sv_nest : s_interrupt_nest (sc s') = s_interrupt_nest (sc s);
  sv_timers : tm s' = tm s;
  sv_objs : ob s' = ob s;
}.

Lemma same_view_thread (s : kst) (t : Z) (th th' : rt_thread) :
  s_threads (sc s) !! t = Some th -> t_stat th' = t_stat th -> same_view s (set_thread t th' s).
Proof.
  intros Ht E. constructor; try done. intros u. cbn. rewrite lookup_insert.
  case_decide; [subst; by rewrite Ht; cbn; rewrite E|done].
Qed.

Lemma same_view_ip (s : kst) (f : ipcs -> ipcs) : same_view s (upd_ip f s).
Proof. done. Qed.

#[export] Instance same_view_trans : Transitive same_view.
Proof.
  intros s1 s2 s3 A B. constructor; intros; etrans; try apply B; apply A.
Qed.

Lemma moves_after (t : Z) (L : lid -> Prop) (s s1 s' : kst) :
  same_view s s1 -> moves t L s1 s' -> moves t L s s'.
Proof.
  intros [V1 V2 V3 V4 V5 V6] [M1 M2 M3 M4 M5 M6 M7 M8 M9 M10 M11].
  unfold ready, asleep in *. constructor; unfold ready, asleep; try done; try congruence.
  - intros u Hu. rewrite <- V1. by apply M6.
  - intros u Hu. rewrite <- V1. intros H. destruct (M7 u Hu H) as [|(H1 & H2 & H3)]; [by left|right].
    split; [done|]. split; [intros l; rewrite <- V2; apply H2|]. by rewrite <- V5.
  - intros u Hu H. rewrite <- V1. by apply M8.
  - intros o Ho. rewrite <- V5. by apply M10.
  - intros l Hl Hn. rewrite <- V2. by apply M11.
Qed.

(** A call that does not move any thread. *)
Lemma moves_same (idle : Z) (s s' : kst) (L : lid -> Prop) :
  kernel_ok idle s -> same_view s s' -> wf_kst s' -> s_current (sc s') = s_current (sc s) ->
  moves (s_current (sc s)) L s s'.
Proof.
  intros Ko [V1 V2 V3 V4 V5 V6] W Ec.
  constructor; unfold ready, asleep, waits; rewrite ?V5; try done.
  - intros a. by rewrite V6.
  - by apply (on_policy_lists s), Ko.
  - intros u _. by rewrite V1.
  - intros u _ H. right. rewrite V1. split_and!; [done| |done]. intros l _. by rewrite V2.
  - intros u _. by rewrite V1.
  - left. rewrite V1. destruct (current_thread _ _ Ko) as (th & -> & Hs). cbn. by rewrite Hs.
  - auto.
  - intros l _ _. by rewrite V2.
Qed.

(** The calling thread falls asleep. *)
Lemma moves_asleep (s s' : kst) (th : rt_thread) (L : lid -> Prop) :
  let t := s_current (sc s) in
  wf_kst s' -> on_policy s' -> calm [t] s s' ->
  s_threads (sc s') = <[t := thr_stat RT_THREAD_SUSPEND th]> (s_threads (sc s)) ->
  (forall l, ~ L l -> tlist (sc s') l = remove_tid t (tlist (sc s) l)) ->
  (forall l u, u ∈ tlist (sc s) l -> L l -> u ∈ tlist (sc s') l) -> waits s' t ->
  (ThreadTimer t ∈ trow (tm s') -> 0 <= remaining (tm s') (ThreadTimer t)) ->
  (forall l, Decision (L l)) -> moves t L s s'.
Proof.
  intros t W' Hp [C1 C2 C3 C4 C5] Bt Bo Bl Hw Hr Dec.
  assert (Stat : forall u, u <> t -> s_threads (sc s') !! u = s_threads (sc s) !! u).
  { intros u Hu. by rewrite Bt, lookup_insert_ne. }
  assert (St : forall u, u <> t -> not_of [t] (ThreadTimer u)).
  { intros u Hu v Hv%list_elem_of_singleton. congruence. }
  constructor; unfold ready, asleep; try done.
  - intros u Hu. by rewrite Stat.
  - intros u Hu H. right. rewrite Stat by done. split; [done|]. split.
    + intros l _ Hin. destruct (decide (L l)) as [Hl|Hl]; [by apply Bl|].
      rewrite Bo by done. by apply elem_of_remove_tid.
    + intros Hin. destruct (C1 _ (St u Hu)) as [E1 E2]. by rewrite E1.
  - intros u Hu. by rewrite Stat.
  - right. by rewrite Bt, lookup_insert_eq.
  - intros o Ho. destruct (decide (o = ThreadTimer t)) as [->|Hne]; [auto|].
    left. assert (Hn : not_of [t] o) by (intros v ->%list_elem_of_singleton; done).
    destruct (C1 o Hn) as [E1 E2]. by rewrite <- E1.
  - intros l _ Hne E. by rewrite Bo, E.
Qed.

Lemma moves_blocked (s s' : kst) (l : lid) (flag time : Z) (th : rt_thread) :
  wait_list l ->
  blocked l flag (s_current (sc s)) time th s s' -> moves (s_current (sc s)) (eq l) s s'.
Proof.
  intros Hl [W' Bl Bo Bt Btm [Bp Bne] Bip Ca].
  apply (moves_asleep s s' th); try done; [| | | |intros l'; apply _].
  - intros l' Hne. apply Bo. congruence.
  - intros l' u Hin <-. rewrite Bl. apply elem_of_enqueue. by right.
  - left. exists l. split; [done|]. rewrite Bl. apply elem_of_enqueue. by left.
  - intros Hin. case_hyp; [lia|done].
Qed.

Lemma moves_sleep (idle tick : Z) (s s' : kst) (th : rt_thread) :
  let t := s_current (sc s) in
  kernel_ok idle s -> s_threads (sc s) !! t = Some th -> t_stat th = RT_THREAD_READY ->
  0 <= tick < 2 ^ 31 - 1 -> wf_kst s' -> rescheduled (armed t tick (suspended t th s)) s' ->
  moves t (fun _ => False) s s' /\ ip s' = ip s /\ asleep s' t.
Proof.
  intros t Ko Ht Hs Hk W' R. pose proof (ko_wf _ _ Ko) as W.
  destruct (suspended_moved s t th W Ht Hs) as [M W1].
  pose proof (moved_lookup _ _ _ _ _ M) as Ht1.
  destruct (armed_same (suspended t th s) t tick) as (Esc & Eip & _).
  destruct (armed_remaining _ t tick _ W1 Ht1 eq_refl Hk) as [A1 A2].
  destruct (rescheduled_same _ _ R) as (E1 & E2 & _ & _ & _ & E3 & _ & E4 & _).
  assert (T : s_threads (sc s') = <[t := thr_stat RT_THREAD_SUSPEND th]> (s_threads (sc s)))
    by (rewrite E1, Esc; apply (tm_threads _ _ _ _ _ M)).
  split; [|split].
  - apply (moves_asleep s s' th); try done.
    + apply (on_policy_rescheduled _ _ R). rewrite Esc. rewrite <- (ko_lock _ _ Ko).
      apply (cm_lock _ _ _ (calm_suspended t th s W)).
    + etrans; [by apply calm_suspended|]. etrans; [apply calm_armed|]. by apply calm_rescheduled.
    + intros l _. rewrite E2, Esc. apply suspended_lists.
    + right. by rewrite E3.
    + intros _. rewrite E3. fold t. rewrite A2. lia.
    + intros l. right. tauto.
  - rewrite E4, Eip. cbn. apply (stopped_same s).
  - unfold asleep. by rewrite T, lookup_insert_eq.
Qed.

Lemma moves_yield (idle : Z) (s s' : kst) (th : rt_thread) :
  let t := s_current (sc s) in
  kernel_ok idle s -> s_threads (sc s) !! t = Some th -> t_stat th = RT_THREAD_READY -> wf_kst s' ->
  rescheduled (upd_sc (rotated t (t_current_priority th)) s) s' ->
  moves t (fun _ => False) s s' /\ ip s' = ip s /\ ready s' t.
Proof.
  intros t Ko Ht Hs W' R. pose proof (ko_wf _ _ Ko) as W.
  destruct (rescheduled_same _ _ R) as (E1 & E2 & _ & E5 & E6 & E3 & E4 & E7 & _).
  cbn in E1. assert (Rt : ready s t) by (apply ready_lookup; eauto).
  assert (Wl : forall l, wait_list l -> tlist (sc s') l = tlist (sc s) l).
  { intros l Hl. rewrite E2. cbn. rewrite rotated_lists, decide_False by (intros ->; done).
    apply remove_tid_notin. by eapply ready_not_waiting; [apply W|..]. }
  split_and!; [|done|unfold ready; by rewrite E1].
  constructor; unfold ready, asleep; rewrite ?E1, ?E3, ?E4; try done.
  - by apply (on_policy_rescheduled _ _ R), Ko.
  - intros u _ Hu. right. split; [done|]. split; [|done]. intros l Hl. by rewrite Wl.
  - by left.
  - auto.
  - intros l Hl _. by rewrite Wl.
Qed.

(** The call wakes the threads [ts]. *)
Lemma moves_waked (idle : Z) (s s' : kst) (f : Z -> rt_thread -> rt_thread) (ts : list Z)
    (L : lid -> Prop) :
  kernel_ok idle s -> wf_kst s' -> waked f ts (sc s) (sc s') -> calm ts s s' ->
  (forall u, u ∈ ts -> asleep s u) -> on_policy s' -> moves (s_current (sc s)) L s s'.
Proof.
  intros Ko W' [At Al] [C1 C2 C3 C4 C5] Hts Hp. set (t := s_current (sc s)).
  assert (Stat : forall u, u ∉ ts -> s_threads (sc s') !! u = s_threads (sc s) !! u).
  { intros u Hu. by rewrite At, decide_False. }
  assert (New : forall u, u ∈ ts -> ready s' u).
  { intros u Hu. unfold ready. rewrite At, decide_True by done. specialize (Hts u Hu).
    unfold asleep in Hts. by destruct (s_threads (sc s) !! u). }
  assert (Self : t ∉ ts).
  { intros Hin. specialize (Hts t Hin). destruct (current_thread _ _ Ko) as (th & Ht & Hs).
    unfold asleep, t in Hts. rewrite Ht in Hts. cbn in Hts. by rewrite Hs in Hts. }
  constructor; try done.
  - intros u _ Hr. destruct (decide (u ∈ ts)); [by apply New|]. unfold ready. by rewrite Stat.
  - intros u _ Hs. destruct (decide (u ∈ ts)) as [|Hn]; [left; by apply New|right].
    unfold asleep. rewrite Stat by done. split; [done|]. split.
    + intros l _ Hin. rewrite Al. apply elem_of_app. left. by apply list_elem_of_filter.
    + intros Hin. destruct (C1 (ThreadTimer u)) as [E1 E2]; [by intros v Hv [= ->]|].
      by rewrite E1.
  - intros u _ Hs. destruct (decide (u ∈ ts)) as [Hin|Hn]; [by apply Hts|].
    unfold asleep in *. by rewrite <- Stat.
  - left. unfold ready. rewrite Stat by done. destruct (current_thread _ _ Ko) as (th & Ht & Hs).
    unfold t. rewrite Ht. cbn. by rewrite Hs.
  - intros o Ho. left. assert (Hn : not_of ts o).
    { intros u Hu ->. specialize (New u Hu). destruct (wk_sleep _ W' u Ho) as (th & Hx & Hs).
      unfold ready in New. rewrite Hx in New. cbn in New. by rewrite Hs in New. }
    destruct (C1 o Hn) as [E1 E2]. by rewrite <- E1.
  - intros l Hl _ E. rewrite Al, E. by destruct l.
Qed.

(** ** The invariant is kept *)

Lemma kernel_ok_moves (idle t : Z) (L : lid -> Prop) (s s' : kst) :
  kernel_ok idle s -> moves t L s s' -> (t = idle -> ready s' t) -> kernel_ok idle s'.
Proof.
  intros [W K1 K2 K3 K4 K5 K6] M Hi. pose proof M as [W' M1 M2 M3 M4 M5 M6 M7 M8 M9 M10].
  constructor; try done; try congruence.
  - destruct (decide (t = idle)) as [<-|Hne]; [by apply Hi|]. by apply M5.
  - intros u Hu. destruct (decide (u = t)) as [->|Hne].
    + destruct M8 as [Hr|[_ Hw]]; [|done]. by destruct (ready_not_asleep s' t).
    + destruct (M6 u Hne (M7 u Hne Hu)) as [Hr|(_ & Hl & Ht)].
      { by destruct (ready_not_asleep s' u). }
      destruct (K5 u (M7 u Hne Hu)) as [(l & Hl1 & Hl2)|Hin]; [left; eauto|right].
      by apply Ht.
  - intros o Ho. destruct (M9 o Ho) as [[Hin E]|[-> E]]; [|eauto].
    destruct (K6 o Hin) as [H1 H2]. by rewrite E.
Qed.

Lemma registered_same (s s' : kst) (a : Z) :
  (forall a, ob_objs (ob s') !! Obj a = ob_objs (ob s) !! Obj a) -> registered s a -> registered s' a.
Proof. intros E [Hn Hy]. split; [done|]. by rewrite E. Qed.

Lemma sem_inv_moves (t a : Z) (L : lid -> Prop) (s s' : kst) :
  moves t L s s' -> ~ L (LSuspend a) -> i_sems (ip s') !! a = i_sems (ip s) !! a ->
  sem_inv s a -> sem_inv s' a.
Proof.
  intros M Hn E (x & Hx & Hr & He). exists x. rewrite E. split_and!; [done|lia|lia|].
  intros Hv. apply (mv_empty _ _ _ _ M); [done|done|by apply He].
Qed.

(** A call that keeps the semaphores it does not wait for. *)
Lemma objects_ok_moves (t : Z) (L : lid -> Prop) (s s' : kst) :
  objects_ok s -> moves t L s s' ->
  (forall b, is_Some (i_sems (ip s) !! b) -> sem_inv s' b \/
     (~ L (LSuspend b) /\ i_sems (ip s') !! b = i_sems (ip s) !! b)) ->
  dom (i_sems (ip s')) = dom (i_sems (ip s)) -> dom (i_events (ip s')) = dom (i_events (ip s)) ->
  dom (i_mbs (ip s')) = dom (i_mbs (ip s)) ->
  (forall b x, i_mbs (ip s') !! b = Some x -> mb_ok x \/ i_mbs (ip s) !! b = Some x) ->
  objects_ok s'.
Proof.
  intros [O1 O2 O3] M Hb Ds De Dm Hm. pose proof (mv_obj _ _ _ _ M) as Ob.
  assert (D : forall {A} (m m' : gmap Z A) b, dom m' = dom m -> is_Some (m' !! b) -> is_Some (m !! b)).
  { intros A m m' b E. by rewrite <- !elem_of_dom, E. }
  assert (N : forall {A} (m m' : gmap Z A) b, dom m' = dom m -> m !! b = None -> m' !! b = None).
  { intros A m m' b E. by rewrite <- !not_elem_of_dom, E. }
  constructor.
  - intros b x Hx. pose proof (D _ _ _ b Ds ltac:(eauto)) as Hs. pose proof Hs as [x0 Hx0].
    destruct (O1 b x0 Hx0) as (R1 & R2 & R3 & R4).
    split; [by eapply registered_same|]. split; [|split; by eapply N].
    destruct (Hb b Hs) as [|[Hn E]]; [done|]. by eapply sem_inv_moves.
  - intros b x Hx. destruct (D _ _ _ b De ltac:(eauto)) as [x0 Hx0].
    eapply registered_same; [exact Ob|]. by eapply O2.
  - intros b x Hx. destruct (D _ _ _ b Dm ltac:(eauto)) as [x0 Hx0].
    split; [eapply registered_same; [exact Ob|]; by eapply O3|].
    destruct (Hm b x Hx) as [|E]; [done|]. by eapply O3.
Qed.

Lemma dom_insert_same {A} (m : gmap Z A) (a : Z) (x y : A) :
  m !! a = Some x -> dom (<[a := y]> m) = dom m.
Proof. intros E. apply dom_insert_lookup_L. by exists x. Qed.

(** ** One call *)

Definition call_post (idle t : Z) (s : kst) (r : outcome reply kont) (s' : kst) : Prop :=
  (exists L, moves t L s s') /\ objects_ok s' /\ dom (i_mbs (ip s')) = dom (i_mbs (ip s)) /\
  match r with
  | Return _ => ready s' t
  | Wait k => t <> idle /\ asleep s' t /\ kont_ok idle s' t k
  end.

Section Call.
Variables (idle : Z) (s : kst) (th : rt_thread).
Hypothesis Ko : kernel_ok idle s.
Hypothesis Oo : objects_ok s.

Let t := s_current (sc s).
Hypothesis Ht : s_threads (sc s) !! t = Some th.
Hypothesis Hs : t_stat th = RT_THREAD_READY.

Let W : wf_kst s := ko_wf _ _ Ko.

(** The calls leave the other objects alone: the map of the semaphores as it is. *)
Lemma objects_ok_kept (L : lid -> Prop) (s' : kst) :
  moves t L s s' -> i_sems (ip s') = i_sems (ip s) ->
  (forall b, L (LSuspend b) -> i_sems (ip s) !! b = None) ->
  dom (i_events (ip s')) = dom (i_events (ip s)) -> dom (i_mbs (ip s')) = dom (i_mbs (ip s)) ->
  (forall b x, i_mbs (ip s') !! b = Some x -> mb_ok x \/ i_mbs (ip s) !! b = Some x) ->
  objects_ok s'.
Proof.
  intros M E Hl De Dm Hm. eapply objects_ok_moves; try done; [|by rewrite E].
  intros b [x Hx]. right. rewrite E. split; [|done]. intros H. by rewrite Hl in Hx.
Qed.

Lemma return_same (s' : kst) (r : reply) :
  same_view s s' -> wf_kst s' -> s_current (sc s') = t -> i_sems (ip s') = i_sems (ip s) ->
  dom (i_events (ip s')) = dom (i_events (ip s)) -> i_mbs (ip s') = i_mbs (ip s) ->
  call_post idle t s (Return r) s'.
Proof.
  intros V W' Ec Es Ee Em.
  pose proof (moves_same idle s s' (fun _ => False) Ko V W' Ec) as M.
  split; [by eexists|]. split; [eapply objects_ok_kept; try done; by rewrite Em; auto|].
  split; [by rewrite Em|]. unfold ready. rewrite (sv_stat _ _ V). fold t. rewrite Ht. cbn. by rewrite Hs.
Qed.

Lemma return_error (e : Z) (r : reply) :
  call_post idle t s (Return r) (set_thread t (thr_error e th) s).
Proof.
  apply return_same; try done.
  - by apply (same_view_thread s t th).
  - by apply (wf_kst_field s t th (thr_error e)).
Qed.

Lemma self_ready (L : lid -> Prop) (s' : kst) :
  moves t L s s' -> ~ asleep s' t -> ready s' t.
Proof. intros M Hn. destruct (mv_self _ _ _ _ M) as [|[? _]]; done. Qed.

Lemma waked_ready (f : Z -> rt_thread -> rt_thread) (ts : list Z) (s' : kst) :
  waked f ts (sc s) (sc s') -> ready s' t.
Proof.
  intros [At _]. unfold ready. rewrite At. case_decide; rewrite Ht; cbn; by rewrite ?Hs.
Qed.

(** The caller waits in [l] after its fields were set by the call. *)
Lemma wait_blocked (l : lid) (flag time : Z) (th' : rt_thread) (s' : kst) (k : kont) :
  t <> idle -> wait_list l -> t_stat th' = t_stat th ->
  blocked l flag t time th' (set_thread t th' s) s' ->
  (forall b, l = LSuspend b -> i_sems (ip s) !! b = None \/ sem_inv s' b) ->
  kont_ok idle s' t k -> call_post idle t s (Wait k) s'.
Proof.
  intros Hi Hl E B Hb Hk.
  pose proof (bl_ip _ _ _ _ _ _ _ B) as Eip. cbn in Eip.
  assert (M : moves t (eq l) s s').
  { eapply moves_after; [by apply (same_view_thread s t th)|].
    by apply (moves_blocked (set_thread t th' s) s' l flag time th'). }
  split; [by eexists|]. split_and!; [|by rewrite Eip|done| |done].
  - eapply objects_ok_moves; [done|exact M| |by rewrite Eip..|].
    + intros b [x Hx]. destruct (decide (l = LSuspend b)) as [->|Hne]; [|right].
      * destruct (Hb b eq_refl) as [Hn|]; [by rewrite Hn in Hx|by left].
      * split; [congruence|by rewrite Eip].
    + intros b x. rewrite Eip. auto.
  - unfold asleep. by rewrite (bl_threads _ _ _ _ _ _ _ B), lookup_insert_eq.
Qed.

(** ** The calls, one by one *)

Lemma call_yield : wp rt_thread_yield (fun e s' => call_post idle t s (Return (code e)) s') s.
Proof.
  eapply wp_yield; [exact W|exact Ht|]. intros s' W' R. rewrite Hs, Z.eqb_refl in R. cbn [andb] in R.
  case_hyp.
  - destruct (moves_yield idle s s' th Ko Ht Hs W' R) as (M & Ei & Hr).
    split; [by eexists|]. split_and!; [|by rewrite Ei|done].
    eapply objects_ok_kept; [exact M|by rewrite Ei..|done| | |]; rewrite Ei; auto.
  - subst s'. by apply return_same.
Qed.

Lemma call_sleep (tick : Z) :
  0 <= tick < 2 ^ 31 - 1 -> t <> idle ->
  wp (rt_thread_sleep tick)
    (fun r s' => call_post idle t s (outcome_map code KSleep r) s') s.
Proof.
  intros Hk Hi. pose proof (current_caller idle s th Ko Hi Ht Hs) as C.
  eapply wp_sleep; try done; [apply C|]. fold t. intros s' W' R.
  destruct (moves_sleep idle tick s s' th Ko Ht Hs Hk W' R) as (M & Ei & Ha).
  split; [by eexists|]. split_and!; [|by rewrite Ei|done..].
  eapply objects_ok_kept; [exact M|by rewrite Ei..|done| | |]; rewrite Ei; auto.
Qed.

Lemma still_ready (s' : kst) : s_threads (sc s') = s_threads (sc s) -> ready s' t.
Proof. intros E. apply ready_lookup. exists th. by rewrite E. Qed.

(** The value of a semaphore changes, and nothing else. *)
Lemma return_sem (sem v : Z) (x : rt_semaphore) (r : reply) :
  i_sems (ip s) !! sem = Some x -> sem_inv (set_sem sem v s) sem ->
  call_post idle t s (Return r) (set_sem sem v s).
Proof.
  intros Hx I.
  assert (M : moves t (fun _ => False) s (set_sem sem v s))
    by (apply (moves_same idle); try done; by apply wf_kst_ip).
  split; [by eexists|]. split_and!; [|done|by apply still_ready].
  eapply objects_ok_moves; [done|exact M| |by apply (dom_insert_same _ _ x)|done..|by right].
  intros b Hb. destruct (decide (b = sem)) as [->|Hne]; [by left|right]. split; [tauto|].
  cbn. by rewrite lookup_insert_ne.
Qed.

Lemma call_sem_take (sem time : Z) :
  is_Some (i_sems (ip s) !! sem) -> time_ok time -> (t = idle -> time = 0) ->
  wp (rt_sem_take sem time) (fun r s' => call_post idle t s (outcome_map code KSem r) s') s.
Proof.
  intros [x Hx] Hti Hi. destruct (oo_sem _ Oo sem x Hx) as ((Hn & y & Hy & Hf) & I & _).
  eapply (wp_sem_take s t sem time th); [done|exact Hx|exact Hy|done|done|..].
  - intros _ Hz. apply (current_caller idle); auto.
  - intros Hv. eapply return_sem; [exact Hx|by apply sem_inv_taken].
  - intros _ _. by apply return_same.
  - intros Hv Hz s' B. apply (wait_blocked (LSuspend sem) (o_flag y) time (thr_error RT_EOK th)); try done; [by auto|..].
    + intros b [= <-]. right. by eapply sem_inv_blocked.
    + split; [by auto|done].
Qed.

(** Threads are waked; the semaphores are as they were. *)
Lemma return_waked (f : Z -> rt_thread -> rt_thread) (ts : list Z) (s' : kst) (r : reply) :
  wf_kst s' -> waked f ts (sc s) (sc s') -> calm ts s s' -> (forall u, u ∈ ts -> asleep s u) ->
  on_policy s' -> i_sems (ip s') = i_sems (ip s) ->
  dom (i_events (ip s')) = dom (i_events (ip s)) -> dom (i_mbs (ip s')) = dom (i_mbs (ip s)) ->
  (forall b x, i_mbs (ip s') !! b = Some x -> mb_ok x \/ i_mbs (ip s) !! b = Some x) ->
  call_post idle t s (Return r) s'.
Proof.
  intros W' A Ca Hts Hp Es Ee Em Hm.
  pose proof (moves_waked idle s s' f ts (fun _ => False) Ko W' A Ca Hts Hp) as M.
  split; [by eexists|]. split_and!; [|done|by eapply waked_ready].
  by eapply objects_ok_kept; [exact M|..].
Qed.

Lemma first_asleep (l : lid) (u : Z) (w : list Z) :
  wait_list l -> tlist (sc s) l = u :: w -> forall v, v ∈ [u] -> asleep s v.
Proof.
  intros Hl E v ->%list_elem_of_singleton. apply (waiting_stat s l); [done|done|]. rewrite E. by left.
Qed.

Lemma call_sem_release (sem : Z) :
  is_Some (i_sems (ip s) !! sem) ->
  wp (rt_sem_release sem) (fun e s' => call_post idle t s (Return (code e)) s') s.
Proof.
  intros [x Hx]. eapply wp_sem_release; [done|exact Hx|..].
  - intros E. eapply return_sem; [exact Hx|]. by apply sem_inv_given.
  - intros u w s' E W' A T I _ Ca H. eapply return_waked; try done; rewrite ?I; auto.
    + by eapply (first_asleep (LSuspend sem)).
    + apply H, Ko.
Qed.

Lemma call_event_send (event set : Z) :
  is_Some (i_events (ip s) !! event) -> u32 set <> 0 ->
  wp (rt_event_send event set) (fun e s' => call_post idle t s (Return (code e)) s') s.
Proof.
  intros [[e] He] Hset. destruct (oo_event _ Oo event _ He) as [Hn _].
  destruct (event_scan (sc s) (tlist (sc s) (LSuspend event)) (Z.lor e (u32 set))) as [ws final] eqn:Es.
  eapply wp_event_send; [done..|exact He|exact Es|]. intros s' W' A I Ca H0 H.
  eapply return_waked; try done; rewrite ?I; try done.
  - pose proof (event_scan_sub (sc s) (tlist (sc s) (LSuspend event)) (Z.lor e (u32 set))) as Sub.
    rewrite Es in Sub. intros u Hu. apply (waiting_stat s (LSuspend event)); [done|done|]. set_solver.
  - destruct ws as [|w ws]; [|by apply H; [|apply Ko]].
    apply (on_policy_lists s); [|by apply H0|apply Ko].
    intros l. rewrite (wa_lists _ _ _ _ A), filter_all by set_solver. by destruct l; rewrite app_nil_r.
  - by apply (dom_insert_same _ _ (RtEvent e)).
  - by right.
Qed.

Lemma call_event_recv (event set opt time : Z) :
  is_Some (i_events (ip s) !! event) -> 0 < set < 2 ^ 32 -> time_ok time ->
  has_flag opt RT_EVENT_FLAG_AND || has_flag opt RT_EVENT_FLAG_OR = true -> (t = idle -> time = 0) ->
  wp (rt_event_recv event set opt time)
    (fun r s' => call_post idle t s (outcome_map id KEvent r) s') s.
Proof.
  intros [[e] He] Hset Hti Hopt Hi. destruct (oo_event _ Oo event _ He) as (Hn & y & Hy & Hf).
  eapply (wp_event_recv s t event set opt time e th y); try done; try apply Ko.
  - intros _ Hz. apply (current_caller idle); auto.
  - intros _. apply return_same; try done.
    + etrans; [by apply (same_view_thread s t th (thr_error RT_EOK th))|]. apply same_view_ip.
    + apply wf_kst_ip. by apply (wf_kst_field s t th (thr_error RT_EOK)).
    + by apply (dom_insert_same _ _ (RtEvent e)).
  - intros _ _. apply return_error.
  - intros _ Hz s' B. eapply wait_blocked; [| | |exact B|..]; try done; [by auto|..].
    + intros b [= <-]. left. destruct (i_sems (ip s) !! event) as [x|] eqn:E; [|done].
      destruct (oo_sem _ Oo event x E) as (_ & _ & E' & _). congruence.
    + split; [by auto|done].
Qed.

Lemma return_mb_moved (l : lid) (mb size : Z) (w : list Z) (s' : kst) (r : reply) :
  wait_list l -> is_Some (i_mbs (ip s) !! mb) -> mb_moved l mb size w s s' ->
  call_post idle t s (Return r) s'.
Proof.
  intros Hl [x0 Hx0] [W' (x & Hx & Mx & _) Ca [Ei Em] Wk].
  assert (Es : i_sems (ip s') = i_sems (ip s)) by exact (f_equal i_sems Ei).
  assert (Ee : i_events (ip s') = i_events (ip s)) by exact (f_equal i_events Ei).
  assert (Hm : forall b y, i_mbs (ip s') !! b = Some y -> mb_ok y \/ i_mbs (ip s) !! b = Some y).
  { intros b y. destruct (decide (b = mb)) as [->|Hne]; [|rewrite Em by done; by right].
    rewrite Hx. intros [= <-]. by left. }
  assert (Dm : dom (i_mbs (ip s')) = dom (i_mbs (ip s))).
  { apply set_eq. intros b. rewrite !elem_of_dom. destruct (decide (b = mb)) as [->|Hne].
    - rewrite Hx, Hx0. split; eauto.
    - by rewrite Em. }
  destruct (tlist (sc s) l) as [|u rest] eqn:El.
  - eapply (return_waked (fun _ th => th) []); try done; [|set_solver| |by rewrite Ee].
    + apply waked_nil; by rewrite Wk.
    + apply (on_policy_lists s); [intros; by rewrite Wk..|apply Ko].
  - destruct Wk as (A & _ & H).
    eapply (return_waked (fun _ th => th) [u]); try done; [|apply H, Ko|by rewrite Ee].
    by apply (first_asleep l u rest).
Qed.

Section Mailbox.
Variables (mb time : Z) (x : rt_mailbox) (y : rt_object).
Hypothesis Hx : i_mbs (ip s) !! mb = Some x.
Hypothesis Hti : time_ok time.
Hypothesis Hi : t = idle -> time = 0.

Lemma mb_facts : mb <> RT_NULL /\ mb_ok x /\ (exists y, ob_objs (ob s) !! Obj mb = Some y /\
  valid_flag (o_flag y)) /\ (forall b, LSuspend mb = LSuspend b -> i_sems (ip s) !! b = None).
Proof.
  destruct (oo_mb _ Oo mb x Hx) as ((Hn & Hy) & M). split_and!; [done..|].
  intros b [= <-]. destruct (i_sems (ip s) !! mb) as [z|] eqn:E; [|done].
  destruct (oo_sem _ Oo mb z E) as (_ & _ & _ & E'). congruence.
Qed.

(** The state in which the caller waits for the mailbox. *)
Lemma wait_mb (l : lid) (s' : kst) (k : kont) (z : rt_object) :
  (l = LSuspend mb \/ l = LSender mb) -> time <> 0 ->
  blocked l (o_flag z) t time (thr_error RT_EOK th) (set_thread t (thr_error RT_EOK th) s) s' ->
  (t <> idle -> is_Some (i_mbs (ip s') !! mb) -> kont_ok idle s' t k) ->
  call_post idle t s (Wait k) s'.
Proof.
  intros Hl Hz B Hk. destruct mb_facts as (_ & _ & _ & Hd).
  eapply wait_blocked; [| | |exact B|..]; try done; [by auto|by destruct Hl as [->| ->]| |].
  - intros b E. left. destruct Hl as [->| ->]; [by apply Hd|done].
  - apply Hk; [by auto|]. rewrite (bl_ip _ _ _ _ _ _ _ B). exists x. exact Hx.
Qed.

Lemma mb_caller : mb_entry x = mb_size x \/ mb_contents x = [] ->
  s_threads (sc s) !! t = Some th /\ (time <> 0 -> caller s t th).
Proof. intros _. split; [done|]. intros Hz. apply (current_caller idle); auto. Qed.

Lemma call_send_loop (value : Z) :
  wp (mb_send_loop mb value time t)
    (fun r s' => call_post idle t s (outcome_map code KMbSend r) s') s.
Proof.
  destruct mb_facts as (Hn & M & (z & Hz & Hf) & _).
  apply (wp_send_loop s mb x z t th time); try done.
  - intros. apply mb_caller. by left.
  - intros _ _. apply return_error.
  - intros _ s' B. by eapply return_mb_moved; [| |exact B].
  - intros _ Hne s' B. eapply wait_mb; [by right|done|exact B|]. intros Hi' Hm. by split_and!.
Qed.

Lemma call_recv_loop :
  wp (mb_recv_loop mb time t)
    (fun r s' => call_post idle t s (outcome_map id KMbRecv r) s') s.
Proof.
  destruct mb_facts as (Hn & M & (z & Hz & Hf) & _).
  apply (wp_recv_loop s mb x z t th time); try done.
  - intros. apply mb_caller. by right.
  - intros _ _. apply return_error.
  - intros v w _ s' B. by eapply return_mb_moved; [| |exact B].
  - intros _ Hne s' B. eapply wait_mb; [by left|done|exact B|]. intros Hi' Hm. by split_and!.
Qed.

Lemma call_mb_send (value : Z) :
  wp (rt_mb_send_wait mb value time)
    (fun r s' => call_post idle t s (outcome_map code KMbSend r) s') s.
Proof.
  destruct mb_facts as (Hn & _). unfold rt_mb_send_wait. kstep.
  kstep; [by apply negb_true_iff, Z.eqb_neq|]. do 2 kstep. kstep.
  eapply wp_get_mb; [exact Hx|]. case_test; [kstep; by apply return_same|]. apply call_send_loop.
Qed.

Lemma call_mb_recv :
  wp (rt_mb_recv mb time)
    (fun r s' => call_post idle t s (outcome_map id KMbRecv r) s') s.
Proof.
  destruct mb_facts as (Hn & _). unfold rt_mb_recv. kstep.
  kstep; [by apply negb_true_iff, Z.eqb_neq|]. do 2 kstep. kstep.
  eapply wp_get_mb; [exact Hx|]. case_test; [kstep; by apply return_same|]. apply call_recv_loop.
Qed.

End Mailbox.

Lemma wp_run_call (op : syscall) :
  call_ok idle t s op -> wp (run_call op) (call_post idle t s) s.
Proof.
  assert (F : forall {A} (m : K A) (f : A -> outcome reply kont),
    wp m (fun r s' => call_post idle t s (f r) s') s ->
    wp (r ← m; mret (f r)) (call_post idle t s) s).
  { intros A m f H. kstep. eapply wp_mono; [exact H|]. intros r s' P. by kstep. }
  destruct op as [|tick|sem time|sem|event set|event set opt time|mb value time|mb time];
    cbn [call_ok run_call].
  - intros _. apply F, call_yield.
  - intros [Hk Hi]. apply F. by apply call_sleep.
  - intros (Hx & Hk & Hi). apply F. by apply call_sem_take.
  - intros Hx. apply F. by apply call_sem_release.
  - intros (Hx & Hk). apply F. by apply call_event_send.
  - intros (Hx & H1 & H2 & H3 & H4). apply F. by apply call_event_recv.
  - intros ([x Hx] & Hk & Hi). apply F. by apply (call_mb_send mb time x).
  - intros ([x Hx] & Hk & Hi). apply F. by apply (call_mb_recv mb time x).
Qed.

(** ** Going on after a wait *)

Lemma retime_ok (timeout start now : Z) :
  time_ok timeout -> (0 < timeout -> u32 (now - start) <= 2 ^ 31) ->
  time_ok (retime timeout start now).
Proof.
  unfold time_ok, retime. intros H1 H2. case_test; [|done]. specialize (H2 Etest).
  pose proof (ubits_range 32 (now - start) ltac:(lia)).
  rewrite sbits_small by lia. case_test; lia.
Qed.

Lemma wp_run_kont (k : kont) :
  kont_ok idle s t k -> resume_ok s k -> wp (run_kont k) (call_post idle t s) s.
Proof.
  intros [Hi Hk] Hr. destruct k as [u|u|u|k|k]; cbn [run_kont] in *.
  - subst u. unfold rt_thread_sleep_resume. do 2 kstep. eapply wp_get_thread; [exact Ht|]. kstep.
    destruct (t_error th =? - RT_ETIMEOUT); cbn [kwhen].
    + eapply wp_upd_thread; [exact Ht|]. repeat kstep. apply return_error.
    + repeat kstep. by apply return_same.
  - subst u. unfold rt_sem_take_resume. do 2 kstep. eapply wp_get_thread; [exact Ht|].
    case_test; do 2 kstep; by apply return_same.
  - subst u. unfold rt_event_recv_resume. do 2 kstep. eapply wp_get_thread; [exact Ht|].
    case_test; do 2 kstep; by apply return_same.
  - destruct Hk as (Ek & [x Hx] & Htk). unfold rt_mb_send_resume. rewrite Ek. do 2 kstep.
    eapply wp_get_thread; [exact Ht|]. case_test; [do 2 kstep; by apply return_same|].
    do 2 kstep. eapply wp_mono; [apply (call_send_loop (ks_mb k) _ x Hx)|].
    + by apply retime_ok.
    + done.
    + intros r s' P. by kstep.
  - destruct Hk as (Ek & [x Hx] & Htk). unfold rt_mb_recv_resume. rewrite Ek. do 2 kstep.
    eapply wp_get_thread; [exact Ht|]. case_test; [do 2 kstep; by apply return_same|].
    do 2 kstep. eapply wp_mono; [apply (call_recv_loop (kr_mb k) _ x Hx)|].
    + by apply retime_ok.
    + done.
    + intros r s' P. by kstep.
Qed.

End Call.

(** ** The clock interrupt *)

Lemma stat_sliced (th : rt_thread) : t_stat (sliced th) = t_stat th.
Proof. done. Qed.

Lemma slice_wait (t : Z) (th : rt_thread) (c : sched) (l : lid) :
  wait_list l -> slice_lists t th c l = tlist c l.
Proof.
  intros Hl. unfold slice_lists. rewrite bool_decide_eq_false_2 by (intros ->; done).
  by rewrite andb_false_r.
Qed.

Definition due_threads (c : timers) : list Z :=
  map tid (filter (fun o => remaining c o <= 1) (trow c)).

Lemma elem_of_due (idle : Z) (s : kst) (u : Z) :
  kernel_ok idle s -> u ∈ due_threads (tm s) <->
    ThreadTimer u ∈ trow (tm s) /\ remaining (tm s) (ThreadTimer u) <= 1.
Proof.
  intros Ko. unfold due_threads. split.
  - intros (o & -> & Ho)%list_elem_of_fmap. apply list_elem_of_filter in Ho as [H1 H2].
    by destruct (ko_row _ _ Ko o H2) as [[v ->] _].
  - intros [H1 H2]. change u with (tid (ThreadTimer u)). apply list_elem_of_fmap_2.
    by apply list_elem_of_filter.
Qed.

(** The threads after a clock interrupt. *)
Record ticked_ok (idle : Z) (s s' : kst) : Prop := {
  tk_kernel : kernel_ok idle s';
  tk_objects : objects_ok s';
  tk_ip : ip s' = ip s;
  tk_back : forall u, asleep s' u -> asleep s u;
  tk_ready : forall u, ready s u -> ready s' u;
  tk_timer : forall u, ThreadTimer u ∈ trow (tm s) ->
    if remaining (tm s) (ThreadTimer u) <=? 1 then ready s' u
    else ThreadTimer u ∈ trow (tm s') /\
      remaining (tm s') (ThreadTimer u) = remaining (tm s) (ThreadTimer u) - 1;
}.

Section Tick.
Variables (idle : Z) (s s' : kst) (th : rt_thread) (c : sched).
Hypothesis Ko : kernel_ok idle s.
Hypothesis Oo : objects_ok s.
Let t := s_current (sc s).
Let ts := due_threads (tm s).
Hypothesis Ht : s_threads (sc s) !! t = Some th.
Hypothesis C1 : s_threads c = <[t := sliced th]> (s_threads (sc s)).
Hypothesis C2 : forall l, tlist c l = slice_lists t th (sc s) l.
Hypothesis C3 : waked (fun _ => timed_out) ts c (sc s').

Lemma tick_stat (u : Z) : t_stat <$> s_threads (sc s') !! u =
  if decide (u ∈ ts) then (fun _ => RT_THREAD_READY) <$> s_threads (sc s) !! u
  else t_stat <$> s_threads (sc s) !! u.
Proof.
  rewrite (wa_threads _ _ _ _ C3), C1, lookup_insert.
  destruct (decide (t = u)) as [<-|Hne]; case_decide; try rewrite Ht; try done;
    by destruct (s_threads (sc s) !! u).
Qed.

Lemma tick_asleep (u : Z) : u ∈ ts -> asleep s u.
Proof.
  intros [Hu _]%(elem_of_due idle s u Ko). destruct (wk_sleep _ (ko_wf _ _ Ko) u Hu) as (x & Hx & Hs).
  unfold asleep. rewrite Hx. cbn. by rewrite Hs.
Qed.

Lemma tick_new (u : Z) : u ∈ ts -> ready s' u.
Proof.
  intros Hu. pose proof (tick_asleep u Hu) as A. unfold asleep, ready in *.
  rewrite tick_stat, decide_True by done. by destruct (s_threads (sc s) !! u).
Qed.

Lemma tick_back (u : Z) : asleep s' u -> asleep s u /\ u ∉ ts.
Proof.
  intros A. destruct (decide (u ∈ ts)) as [Hin|Hn].
  - by destruct (ready_not_asleep s' u (tick_new u Hin)).
  - split; [|done]. unfold asleep in *. by rewrite tick_stat, decide_False in A.
Qed.

Lemma tick_wait (l : lid) (u : Z) :
  wait_list l -> u ∉ ts -> u ∈ tlist (sc s) l -> u ∈ tlist (sc s') l.
Proof.
  intros Hl Hn Hu. rewrite (wa_lists _ _ _ _ C3), C2, slice_wait by done.
  apply elem_of_app. left. by apply list_elem_of_filter.
Qed.

Lemma tick_empty (l : lid) : wait_list l -> tlist (sc s) l = [] -> tlist (sc s') l = [].
Proof.
  intros Hl E. rewrite (wa_lists _ _ _ _ C3), C2, slice_wait, E by done. by destruct l.
Qed.

Hypothesis W' : wf_kst s'.
Hypothesis S' : settled (tm s').
Hypothesis R' : trow (tm s') = filter (fun o => 1 < remaining (tm s) o) (trow (tm s)).
Hypothesis Rem : forall o, o ∈ trow (tm s) -> remaining (tm s') o = remaining (tm s) o - 1.
Hypothesis I' : ip s' = ip s.
Hypothesis N' : s_interrupt_nest (sc s') = s_interrupt_nest (sc s).
Hypothesis L' : s_lock_nest (sc s') = s_lock_nest (sc s).
Hypothesis O' : forall a, ob_objs (ob s') !! Obj a = ob_objs (ob s) !! Obj a.
Hypothesis P' : on_policy s'.

Lemma tick_kernel : kernel_ok idle s'.
Proof.
  pose proof Ko as [W K1 K2 K3 K4 K5 K6]. constructor; try done; try congruence.
  - unfold ready. rewrite tick_stat. case_decide as D; [|exact K4].
    by destruct (ready_not_asleep s idle K4 (tick_asleep idle D)).
  - intros u Hu. destruct (tick_back u Hu) as [A Hn].
    destruct (K5 u A) as [(l & Hl1 & Hl2)|Hin]; [left; exists l|right].
    + split; [done|]. by apply tick_wait.
    + rewrite R'. apply list_elem_of_filter. split; [|done].
      destruct (Z.le_gt_cases (remaining (tm s) (ThreadTimer u)) 1); [|lia].
      destruct Hn. by apply (elem_of_due idle s u Ko).
  - intros o Ho. split; [|by apply S'].
    rewrite R' in Ho. apply list_elem_of_filter in Ho as [_ Ho]. apply (K6 o Ho).
Qed.

Lemma tick_objects : objects_ok s'.
Proof.
  destruct Oo as [O1 O2 O3]. constructor; rewrite I'.
  - intros a x Hx. destruct (O1 a x Hx) as (A1 & (z & Hz & Hr & He) & A3 & A4).
    split; [by eapply registered_same|]. split; [|done]. exists z. rewrite I'.
    split_and!; [done|lia|lia|]. intros Hv. apply tick_empty; [done|by apply He].
  - intros a x Hx. eapply registered_same; [done|]. by eapply O2.
  - intros a x Hx. destruct (O3 a x Hx). split; [by eapply registered_same|done].
Qed.

Lemma tick_done : ticked_ok idle s s'.
Proof.
  constructor; [apply tick_kernel|apply tick_objects|done|..].
  - intros u Hu. by apply tick_back.
  - intros u Hu. unfold ready. rewrite tick_stat. case_decide as D; [|exact Hu].
    by destruct (ready_not_asleep s u Hu (tick_asleep u D)).
  - intros u Hu. case_test.
    + apply tick_new. by apply (elem_of_due idle s u Ko).
    + rewrite R', list_elem_of_filter. split; [|by apply Rem]. split; [lia|done].
Qed.

End Tick.

Lemma wp_sys_tick (idle : Z) (s : kst) :
  kernel_ok idle s -> objects_ok s ->
  wp (SysTick_Handler no_fn (S (length (trow (tm s))))) (fun _ s' => ticked_ok idle s s') s.
Proof.
  intros Ko Oo. destruct (current_thread _ _ Ko) as (th & Ht & Hs).
  eapply wp_mono; [apply (wp_systick no_fn s th)|]; try done.
  - apply Ko.
  - intros o Ho. by apply (ko_row _ _ Ko).
  - intros o Ho _. by apply (ko_row _ _ Ko).
  - rewrite (ko_nest _ _ Ko). lia.
  - rewrite length_map. pose proof (length_filter (fun o => remaining (tm s) o <= 1) (trow (tm s))). lia.
  - intros _ s' (H1 & H2 & H3 & H4 & H5 & (c & D1 & D2 & D3) & H6 & H7 & H8 & H9 & H10).
    eapply tick_done; try done. apply H10; apply Ko.
Qed.

(** ** One event *)

Definition is_tick (e : event) : bool := match e with ETick => true | _ => false end.

(** What an event does to a thread whose timer runs. *)
Definition advanced (e : event) (s s' : kst) (u : Z) : Prop :=
  ready s' u \/
  (ThreadTimer u ∈ trow (tm s') /\
   remaining (tm s') (ThreadTimer u) = remaining (tm s) (ThreadTimer u) - Z.b2z (is_tick e) /\
   (is_tick e = true -> 1 < remaining (tm s) (ThreadTimer u))).

Lemma timer_asleep (idle : Z) (s : kst) (u : Z) :
  kernel_ok idle s -> ThreadTimer u ∈ trow (tm s) -> asleep s u.
Proof.
  intros Ko Hu. destruct (wk_sleep _ (ko_wf _ _ Ko) u Hu) as (x & Hx & Hs).
  unfold asleep. rewrite Hx. cbn. by rewrite Hs.
Qed.

Lemma kont_ok_dom (idle t : Z) (s s' : kst) (k : kont) :
  dom (i_mbs (ip s')) = dom (i_mbs (ip s)) -> kont_ok idle s t k -> kont_ok idle s' t k.
Proof.
  intros E [Hi Hk]. split; [done|].
  destruct k; try done; rewrite <- !elem_of_dom in *; by rewrite E.
Qed.

(** A call, or the rest of one, of the running thread. *)
Lemma sys_ok_call (idle : Z) (c : sys) (r : outcome reply kont) (s' : kst) (e : event) :
  sys_ok idle c -> is_tick e = false -> call_post idle (running_thread c) (kernel c) r s' ->
  sys_ok idle (Sys s' (set_pending (running_thread c) r (pending c))) /\
  forall u, ThreadTimer u ∈ trow (tm (kernel c)) -> advanced e (kernel c) s' u.
Proof.
  intros [Ko Oo Hk Ha] Et ([L M] & Oo' & Dm & Hr). set (t := running_thread c) in *.
  assert (Other : forall u, u <> t -> set_pending t r (pending c) !! u = pending c !! u).
  { intros u Hu. destruct r; cbn; [by rewrite lookup_delete_ne|by rewrite lookup_insert_ne]. }
  split.
  - constructor; cbn [kernel pending]; [|done|..].
    + eapply kernel_ok_moves; [exact Ko|exact M|]. intros E. destruct r; [done|]. by destruct Hr.
    + intros u k. destruct (decide (u = t)) as [->|Hne].
      * destruct r as [a|k']; cbn; [by rewrite lookup_delete_eq|].
        rewrite lookup_insert_eq. intros [= <-]. apply Hr.
      * rewrite Other by done. intros Hu. eapply kont_ok_dom; [exact Dm|]. by apply Hk.
    + intros u Hu. destruct (decide (u = t)) as [->|Hne].
      * destruct r as [a|k]; cbn; [|by rewrite lookup_insert_eq].
        by destruct (ready_not_asleep s' t).
      * rewrite Other by done. apply Ha. by eapply mv_back.
  - intros u Hu. pose proof (timer_asleep _ _ _ Ko Hu) as A. unfold advanced. rewrite Et.
    destruct (decide (u = t)) as [->|Hne].
    { destruct (current_thread _ _ Ko) as (th & Ht & Hs).
      destruct (ready_not_asleep (kernel c) t); [|done]. apply ready_lookup. by exists th. }
    destruct (mv_asleep _ _ _ _ M u Hne A) as [|(_ & _ & Hx)]; [by left|right].
    destruct (Hx Hu) as [H1 H2]. split_and!; [done|cbn; lia|done].
Qed.

Lemma step_ok (idle : Z) (c : sys) (e : event) :
  sys_ok idle c -> enabled idle e c -> exists c', sys_step e c = Ok c' /\ sys_ok idle c' /\
    forall u, ThreadTimer u ∈ trow (tm (kernel c)) -> advanced e (kernel c) (kernel c') u.
Proof.
  intros So En. pose proof So as [Ko Oo Hk Ha].
  destruct (current_thread _ _ Ko) as (th & Ht & Hs).
  destruct e as [op| |]; cbn [enabled sys_step] in *.
  - destruct En as [_ Hop].
    destruct (wp_elim _ _ _ (wp_run_call idle _ th Ko Oo Ht Hs op Hop)) as (r & s' & -> & P).
    eexists. split; [done|]. by apply sys_ok_call.
  - destruct En as (k & Hp & Hr). rewrite Hp. cbn.
    destruct (wp_elim _ _ _ (wp_run_kont idle _ th Ko Oo Ht Hs k (Hk _ _ Hp) Hr)) as (r & s' & -> & P).
    eexists. split; [done|]. by apply sys_ok_call.
  - destruct (wp_elim _ _ _ (wp_sys_tick idle _ Ko Oo)) as ([] & s' & -> & [T1 T2 T3 T4 T5 T6]).
    eexists. split; [done|]. cbn [kernel]. split.
    + constructor; cbn [kernel pending]; [done|done| |].
      * intros u k Hu. eapply kont_ok_dom; [by rewrite T3|]. by apply Hk.
      * intros u Hu. by apply Ha, T4.
    + intros u Hu. specialize (T6 u Hu). unfold advanced. case_hyp; [by left|right].
      destruct T6. split_and!; [done|cbn; lia|lia].
Qed.

(** No ready thread has a higher priority than the running one. *)
Lemma policy_first (idle : Z) (s : kst) (u : Z) (th thu : rt_thread) :
  kernel_ok idle s -> s_threads (sc s) !! s_current (sc s) = Some th ->
  s_threads (sc s) !! u = Some thu -> t_stat thu = RT_THREAD_READY ->
  t_stat th = RT_THREAD_READY /\ t_current_priority th <= t_current_priority thu.
Proof.
  intros Ko Ht Hu Hs. destruct (ko_policy _ _ Ko) as (p & Hp & Hh & Hl).
  apply head_Some_elem_of in Hh. pose proof (wk_sched _ (ko_wf _ _ Ko)) as W.
  destruct (ws_loc _ W _ _ Hh) as (x & Hx & Hs' & E). simplify_eq. split; [done|].
  pose proof (ws_ready _ W u thu Hu Hs) as Hin.
  destruct (ws_prio _ W u thu Hu ltac:(by rewrite Hs)) as [Hpr _].
  destruct (Z.le_gt_cases (t_current_priority th) (t_current_priority thu)); [done|].
  rewrite Hl in Hin by lia. set_solver.
Qed.

Lemma exec_ok (idle : Z) (c : sys) (es : list event) (c' : sys) :
  exec idle c es c' -> sys_ok idle c -> sys_ok idle c'.
Proof.
  induction 1 as [|c e c1 es c' En St _ IH]; intros So; [done|]. apply IH.
  destruct (step_ok idle c e So En) as (c2 & E & So' & _). congruence.
Qed.

(** C1: safety of the running system.  From a system that satisfies the invariant,
    whatever calls the threads make and whenever the clock interrupt comes, the
    invariant holds: the scheduler's lists, bitmap and timers are well formed,
    each waiting thread is in a waiting list or has its timer running and knows
    how to go on, no thread waits on a semaphore that has a unit, each mailbox is
    a ring; the running thread is ready and no ready thread has a higher
    priority; and no call, return from a wait or interrupt runs into an
    assertion, an endless loop or a bad access. *)
Theorem system_safe (idle : Z) (c : sys) (es : list event) (c' : sys) :
  sys_ok idle c -> exec idle c es c' ->
  sys_ok idle c' /\
  (exists th, s_threads (sc (kernel c')) !! running_thread c' = Some th /\
     t_stat th = RT_THREAD_READY /\
     forall u thu, s_threads (sc (kernel c')) !! u = Some thu -> t_stat thu = RT_THREAD_READY ->
       t_current_priority th <= t_current_priority thu) /\
  (forall e, enabled idle e c' -> exists c'', sys_step e c' = Ok c'').
Proof.
  intros So Ex. pose proof (exec_ok _ _ _ _ Ex So) as So'. split; [done|]. split.
  - destruct (current_thread _ _ (so_kernel _ _ So')) as (th & Ht & Hs). exists th.
    split_and!; [done..|]. intros u thu Hu Hus.
    by apply (policy_first idle (kernel c') u); [apply So'|..].
  - intros e En. destruct (step_ok idle c' e So' En) as (c2 & E & _). by exists c2.
Qed.

Definition ticks (es : list event) : Z := Z.of_nat (length (filter (fun e => is_tick e = true) es)).

Lemma ticks_cons (e : event) (es : list event) : ticks (e :: es) = Z.b2z (is_tick e) + ticks es.
Proof. unfold ticks. rewrite filter_cons. case_decide as D; destruct (is_tick e); cbn; (done || lia). Qed.

(** C2: liveness of a wait with a time.  When the timer of a thread runs - it
    sleeps, or waits for an object with a time - then in every run with as many
    clock interrupts as it has ticks left (at least one), whatever else happens,
    there is a moment at which the thread is ready. *)
Theorem timed_wait_ends (idle : Z) (c : sys) (es : list event) (c' : sys) (t : Z) :
  sys_ok idle c -> exec idle c es c' -> ThreadTimer t ∈ trow (tm (kernel c)) ->
  Z.max 1 (remaining (tm (kernel c)) (ThreadTimer t)) <= ticks es ->
  exists es1 es2 c1, es = es1 ++ es2 /\ exec idle c es1 c1 /\ exec idle c1 es2 c' /\
    ready (kernel c1) t.
Proof.
  intros So Ex. revert So. induction Ex as [c|c e c1 es c' En St Ex IH]; intros So Ht Hn.
  - unfold ticks in Hn. cbn in Hn. lia.
  - destruct (step_ok idle c e So En) as (c2 & E & So1 & Ad).
    assert (c2 = c1) as -> by congruence. rewrite ticks_cons in Hn.
    destruct (Ad t Ht) as [Hr|(Ht1 & Hr & He)].
    + exists [e], es, c1. split_and!; [done| |done|done].
      eapply exec_cons; [exact En|exact St|constructor].
    + destruct (IH So1 Ht1) as (es1 & es2 & c2 & -> & X1 & X2 & X3).
      { rewrite Hr. destruct (is_tick e); cbn in *; [specialize (He eq_refl)|]; lia. }
      exists (e :: es1), es2, c2. split_and!; [done| |done|done]. by eapply exec_cons.
Qed.

(** ** Samples *)

(** The sample kernel with a semaphore of one unit, an event and a mailbox. *)
Definition start : sys :=
  Sys (after (rt_mb_init a_mb [98; 0] 0x20007400 [0; 0] 2 RT_IPC_FLAG_FIFO)
    (after (rt_event_init an_event [101; 0] RT_IPC_FLAG_PRIO) with_sem1)) ∅.

Definition registered_b (s : kst) (a : Z) : bool :=
  negb (a =? RT_NULL) &&
  match ob_objs (ob s) !! Obj a with
  | Some y => (o_flag y =? RT_IPC_FLAG_FIFO) || (o_flag y =? RT_IPC_FLAG_PRIO)
  | None => false
  end.

Lemma registered_check (s : kst) (a : Z) : registered_b s a = true -> registered s a.
Proof.
  unfold registered_b. intros H. b2p. split; [done|].
  destruct (ob_objs (ob s) !! Obj a) as [y|]; [|done]. exists y. split; [done|].
  apply orb_true_iff in H0 as [H0|H0]; b2p; [by left|by right].
Qed.

Definition mb_ok_b (x : rt_mailbox) : bool :=
  (0 <? mb_size x) && (mb_size x <? 2 ^ 16) &&
  (Z.of_nat (length (mb_msg_pool x)) =? mb_size x) &&
  (0 <=? mb_entry x) && (mb_entry x <=? mb_size x) &&
  (0 <=? mb_out_offset x) && (mb_out_offset x <? mb_size x) &&
  (mb_in_offset x =? (mb_out_offset x + mb_entry x) mod mb_size x).

Lemma mb_ok_check (x : rt_mailbox) : mb_ok_b x = true -> mb_ok x.
Proof. unfold mb_ok_b. intros H. b2p. by constructor. Qed.

Definition sem_b (s : kst) (x : Z * rt_semaphore) : bool :=
  registered_b s x.1 && (0 <=? sem_value x.2) && (sem_value x.2 <? 2 ^ 16) &&
  bool_decide (tlist (sc s) (LSuspend x.1) = []) &&
  negb (is_some (i_events (ip s) !! x.1)) && negb (is_some (i_mbs (ip s) !! x.1)).

Definition objects_b (s : kst) : bool :=
  forallb (sem_b s) (map_to_list (i_sems (ip s))) &&
  forallb (fun x : Z * rt_event => registered_b s x.1) (map_to_list (i_events (ip s))) &&
  forallb (fun x : Z * rt_mailbox => registered_b s x.1 && mb_ok_b x.2)
    (map_to_list (i_mbs (ip s))).

Lemma objects_check (s : kst) : objects_b s = true -> objects_ok s.
Proof.
  unfold objects_b. intros H. b2p. constructor.
  - intros a x Hx. apply (forallb_map _ _ a x) in H; [|done]. unfold sem_b in H. cbn in H. b2p.
    deciding. split; [by apply registered_check|]. split; [by exists x|].
    split; by apply is_some_false.
  - intros a x Hx. apply (forallb_map _ _ a x) in H1; [|done]. by apply registered_check.
  - intros a x Hx. apply (forallb_map _ _ a x) in H0; [|done]. cbn in H0. b2p.
    split; [by apply registered_check|by apply mb_ok_check].
Qed.

(** A system in which no thread has waited yet. *)
Definition awake_b (idle : Z) (s : kst) : bool :=
  wf_kst_b s && objects_b s && (s_lock_nest (sc s) =? 0) && (s_interrupt_nest (sc s) =? 0) &&
  bool_decide (trow (tm s) = []) &&
  forallb (fun x : Z * rt_thread => negb (t_stat x.2 =? RT_THREAD_SUSPEND))
    (map_to_list (s_threads (sc s))) &&
  bool_decide (t_stat <$> s_threads (sc s) !! idle = Some RT_THREAD_READY).

Lemma awake_check (idle p : Z) (s : kst) :
  awake_b idle s = true -> 0 <= p < 32 ->
  head (tlist (sc s) (LReady p)) = Some (s_current (sc s)) ->
  forallb (fun p => bool_decide (tlist (sc s) (LReady p) = [])) (seqZ 0 p) = true ->
  sys_ok idle (Sys s ∅).
Proof.
  unfold awake_b. intros H Hp Hh Hl. b2p. deciding.
  assert (Na : forall t, ~ asleep s t).
  { intros t Ht. unfold asleep in Ht. destruct (s_threads (sc s) !! t) as [th|] eqn:E; [|done].
    injection Ht as Ht. apply (forallb_map _ _ t th) in H1; [|done]. cbn in H1.
    by rewrite Ht in H1. }
  constructor; cbn [kernel pending]; [|by apply objects_check|done|].
  - constructor; try done; [by apply wf_check| | |].
    + exists p. split; [done|]. split; [done|]. by apply queues_empty.
    + intros t Ht. by destruct (Na t).
    + intros o Ho. rewrite H2 in Ho. set_solver.
  - intros t Ht. by destruct (Na t).
Qed.

Lemma start_ok : sys_ok idle_t start.
Proof. apply (awake_check idle_t 10); [evaluate|lia|evaluate|evaluate]. Qed.

Definition is_ok {A} (r : res A) : bool := match r with Ok _ => true | _ => false end.

(** The system after an event. *)
Definition sys_after (e : event) (c : sys) : sys :=
  match sys_step e c with Ok c' => c' | _ => c end.

Lemma sys_after_ok (idle : Z) (e : event) (c : sys) :
  sys_ok idle c -> enabled idle e c -> sys_step e c = Ok (sys_after e c).
Proof. intros So En. destruct (step_ok idle c e So En) as (c' & E & _). unfold sys_after. by rewrite E. Qed.

(** Main takes the unit and sleeps; the peer waits two ticks for another unit, a
    word comes and goes on the way. *)
Definition story : list event :=
  [ECall (CSemTake a_sem RT_WAITING_FOREVER); ECall (CMbSend a_mb 7 0); ECall (CSleep 5);
   ECall (CMbRecv a_mb 0); ECall (CSemTake a_sem 2)].
Definition later : sys := foldl (fun c e => sys_after e c) start story.

Lemma step_check (e : event) (c : sys) :
  is_ok (sys_step e c) = true -> sys_step e c = Ok (sys_after e c).
Proof. unfold sys_after. by destruct (sys_step e c). Qed.

Lemma story_exec : exec idle_t start story later.
Proof.
  unfold story, later, story, foldl.
  repeat (eapply exec_cons;
    [split; [evaluate|cbn [call_ok]]|apply step_check; evaluate|]); [..|constructor].
  - split; [apply is_some_true; evaluate|]. split; [done|]. intros E. vm_compute in E. discriminate E.
  - split; [apply is_some_true; evaluate|]. split; [done|]. done.
  - split; [lia|]. intros E. vm_compute in E. discriminate E.
  - split; [apply is_some_true; evaluate|]. split; [done|]. done.
  - split; [apply is_some_true; evaluate|]. split; [done|]. intros E. vm_compute in E.
    discriminate E.
Qed.

Lemma system_safe_witness :
  sys_ok idle_t later /\ running_thread later = work_t /\
  exists c, sys_step (ECall (CSemRelease a_sem)) later = Ok c.
Proof.
  destruct (system_safe idle_t start story later start_ok story_exec) as (A & _ & B).
  split; [exact A|]. split; [evaluate|]. apply B. split; [evaluate|].
  apply is_some_true. evaluate.
Defined.

Definition ticked_twice : sys := sys_after ETick (sys_after ETick later).

Lemma ticks_exec : exec idle_t later [ETick; ETick] ticked_twice.
Proof.
  unfold ticked_twice.
  do 2 (eapply exec_cons; [exact I|apply step_check; evaluate|]). constructor.
Qed.

Lemma timed_wait_ends_witness :
  remaining (tm (kernel later)) (ThreadTimer peer_t) = 2 /\
  exists es1 es2 c1, [ETick; ETick] = es1 ++ es2 /\ exec idle_t later es1 c1 /\
    exec idle_t c1 es2 ticked_twice /\ ready (kernel c1) peer_t.
Proof.
  assert (R : remaining (tm (kernel later)) (ThreadTimer peer_t) = 2) by evaluate.
  split; [exact R|]. apply timed_wait_ends.
  - exact (exec_ok _ _ _ _ story_exec start_ok).
  - exact ticks_exec.
  - apply (bool_decide_eq_true_1 _). evaluate.
  - rewrite R. vm_compute. discriminate.
Defined.
