(* ===== verification/MqSpec.v ===== *)
(** * What message queues do

    The two linked lists of a message queue, with messages that are in neither of
    them while a thread copies their payload; the critical sections of [Mailbox]
    one by one, and the calls made of them.  Any number of threads that interleave
    these sections are in MqThreads.v. *)

From Stdlib Require Import Lia.
From S2P Require Import Prelude KService Heap KState Scheduler Object Timer Thread.
From S2P Require Import Invariant Sample ThreadSpec Clock Ipc IpcSpec Mailbox MailboxSpec.

(** ** Linked lists of messages *)

Fixpoint chain (pool : gmap Z rt_mq_message) (h : option Z) (l : list Z) : Prop :=
  match l with
  | [] => h = None
  | i :: l => h = Some i /\ exists m, pool !! i = Some m /\ chain pool (msg_next m) l
  end.

Lemma chain_insert (pool : gmap Z rt_mq_message) (h : option Z) (l : list Z) (i : Z)
    (m : rt_mq_message) :
  ~ (i ∈ l) -> chain pool h l -> chain (<[i := m]> pool) h l.
Proof.
  revert h. induction l as [|j l IH]; intros h Hn; cbn; [done|].
  intros (-> & m' & Hm & Hc). split; [done|]. exists m'.
  rewrite lookup_insert_ne by set_solver. split; [done|]. apply IH; [set_solver|done].
Qed.

(** The link of the last element is set. *)
Lemma chain_snoc (pool : gmap Z rt_mq_message) (h : option Z) (l : list Z) (t i : Z)
    (mt mi : rt_mq_message) :
  NoDup (l ++ [t]) -> i ∉ l ++ [t] -> chain pool h (l ++ [t]) ->
  pool !! t = Some mt -> pool !! i = Some mi -> msg_next mi = None ->
  chain (<[t := RtMqMessage (Some i) (msg_body mt)]> pool) h (l ++ [t; i]).
Proof.
  revert h. induction l as [|j l IH]; intros h N Hn Hc Ht Hi Hnext; cbn in *.
  - destruct Hc as (-> & _). split; [done|]. eexists. rewrite lookup_insert_eq. split; [done|].
    cbn. split; [done|]. exists mi. rewrite lookup_insert_ne by set_solver. done.
  - destruct Hc as (-> & m' & Hm & Hc). inversion N; subst. split; [done|]. exists m'.
    rewrite lookup_insert_ne by set_solver. split; [done|]. apply IH; try done. set_solver.
Qed.

Lemma chain_last (pool : gmap Z rt_mq_message) (h : option Z) (l : list Z) :
  chain pool h l -> (h = None <-> l = []).
Proof. destruct l; cbn; [done|]. intros (-> & _). done. Qed.

(** ** The invariant *)

(** [l]: the messages that wait, oldest first; [f]: the free ones; [fl]: the ones
    in the hands of threads that send or receive. *)
Record mq_ok (q : rt_messagequeue) (l f fl : list Z) : Prop := {
  mk_head : chain (mq_pool q) (mq_head q) l;
  mk_tail : mq_tail q = last l;
  mk_free : chain (mq_pool q) (mq_free q) f;
  mk_perm : l ++ f ++ fl ≡ₚ seqZ 0 (mq_max_msgs q);
  mk_entry : mq_entry q = Z.of_nat (length l);
  mk_max : 0 <= mq_max_msgs q < 2 ^ 16;
  mk_body : forall i, 0 <= i < mq_max_msgs q ->
    exists m, mq_pool q !! i = Some m /\ Z.of_nat (length (msg_body m)) = mq_msg_size q;
}.

Definition msg_text (q : rt_messagequeue) (i : Z) : list Z :=
  match mq_pool q !! i with Some m => msg_body m | None => [] end.

(** The payloads that wait, oldest first. *)
Definition mq_contents (q : rt_messagequeue) (l : list Z) : list (list Z) := map (msg_text q) l.

Section Chains.
Variables (q : rt_messagequeue) (l f fl : list Z).
Hypothesis M : mq_ok q l f fl.

Lemma mq_nodup : NoDup (l ++ f ++ fl).
Proof. rewrite (mk_perm _ _ _ _ M). apply NoDup_seqZ. Qed.

Lemma mq_message (i : Z) : i ∈ l ++ f ++ fl ->
  exists m, mq_pool q !! i = Some m /\ Z.of_nat (length (msg_body m)) = mq_msg_size q.
Proof. rewrite (mk_perm _ _ _ _ M). intros H%elem_of_seqZ. apply (mk_body _ _ _ _ M). lia. Qed.

Lemma mq_length : Z.of_nat (length l) + Z.of_nat (length f) + Z.of_nat (length fl) = mq_max_msgs q.
Proof.
  pose proof (Permutation_length (mk_perm _ _ _ _ M)) as P.
  rewrite !length_app, length_seqZ in P. pose proof (mk_max _ _ _ _ M). lia.
Qed.

Lemma flight_fresh (i : Z) : i ∈ fl -> ~ (i ∈ l) /\ ~ (i ∈ f).
Proof.
  intros Hi. pose proof mq_nodup as N. apply NoDup_app in N as (_ & N1 & N2).
  apply NoDup_app in N2 as (_ & N3 & _). split; intros Hx.
  - apply (N1 i Hx). set_solver.
  - by apply (N3 i Hx).
Qed.

Lemma flight_ne (i j : Z) : i ∈ fl -> j ∈ l -> j <> i.
Proof. intros Hi Hj ->. destruct (flight_fresh i Hi) as [H _]. by apply H. Qed.

End Chains.

(** A message of the pool gets new contents; the lists that do not hold it stay. *)
Definition mq_with_pool (p : gmap Z rt_mq_message) (q : rt_messagequeue) : rt_messagequeue :=
  RtMessagequeue (mq_pool_addr q) p (mq_msg_size q) (mq_max_msgs q) (mq_entry q) (mq_head q)
    (mq_tail q) (mq_free q).

Lemma mq_ok_flight (q : rt_messagequeue) (l f fl : list Z) (i : Z) (m : rt_mq_message) :
  mq_ok q l f fl -> i ∈ fl -> Z.of_nat (length (msg_body m)) = mq_msg_size q ->
  mq_ok (mq_with_pool (<[i := m]> (mq_pool q)) q) l f fl.
Proof.
  intros M Hi Hm. destruct (flight_fresh q l f fl M i Hi) as [Hl Hf].
  destruct M as [M1 M2 M3 M4 M5 M6 M7]. constructor; cbn; try done.
  - by apply chain_insert.
  - by apply chain_insert.
  - intros j Hj. rewrite lookup_insert. case_decide; [by exists m|by apply M7].
Qed.

Lemma mq_ok_perm (q : rt_messagequeue) (l f fl fl' : list Z) :
  fl ≡ₚ fl' -> mq_ok q l f fl -> mq_ok q l f fl'.
Proof. intros P M. constructor; try apply M. rewrite <- P. apply M. Qed.

(** ** The critical sections *)

Definition set_mq (a : Z) (q : rt_messagequeue) (s : kst) : kst :=
  upd_ip (fun c => with_mqs (<[a := q]> (i_mqs c)) c) s.

Lemma wp_get_mq (a : Z) (q : rt_messagequeue) (Q : rt_messagequeue -> kst -> Prop) (s : kst) :
  i_mqs (ip s) !! a = Some q -> Q q s -> wp (get_mq a) Q s.
Proof. intros E H. unfold get_mq. by eapply wp_bind, wp_gets, wp_lift. Qed.

Lemma wp_get_msg (q : rt_messagequeue) (i : Z) (m : rt_mq_message)
    (Q : rt_mq_message -> kst -> Prop) (s : kst) :
  mq_pool q !! i = Some m -> Q m s -> wp (get_msg q i) Q s.
Proof. intros E H. unfold get_msg. by eapply wp_lift. Qed.

Lemma msg_set_next_ok (q : rt_messagequeue) (i : Z) (m : rt_mq_message) (n : option Z) :
  mq_pool q !! i = Some m ->
  msg_set_next i n q = Ok (mq_with_pool (<[i := RtMqMessage n (msg_body m)]> (mq_pool q)) q).
Proof. intros E. unfold msg_set_next. by rewrite E. Qed.

Lemma mq_set_body_ok (q : rt_messagequeue) (i : Z) (m : rt_mq_message) (b : list Z) :
  mq_pool q !! i = Some m ->
  mq_set_body i b q = Ok (mq_with_pool (<[i := RtMqMessage (msg_next m) b]> (mq_pool q)) q).
Proof. intros E. unfold mq_set_body. by rewrite E. Qed.

Section Sections.
Variables (a : Z) (q : rt_messagequeue) (s : kst).
Hypothesis Hq : i_mqs (ip s) !! a = Some q.

(** The payloads in [q'] are those of [q]. *)
Definition same_text (q' : rt_messagequeue) : Prop :=
  forall i, msg_text q' i = msg_text q i.

Lemma wp_take_free (l f fl : list Z) (i : Z) (Q : option Z -> kst -> Prop) :
  mq_ok q l (i :: f) fl ->
  (forall q', mq_ok q' l f (i :: fl) -> mq_pool q' = mq_pool q -> mq_msg_size q' = mq_msg_size q ->
     mq_max_msgs q' = mq_max_msgs q -> Q (Some i) (set_mq a q' s)) ->
  wp (mq_take_free a) Q s.
Proof.
  intros M HQ. unfold mq_take_free. kstep. eapply wp_get_mq; [exact Hq|].
  destruct (mk_free _ _ _ _ M) as (Ef & m & Hm & Hc). rewrite Ef.
  kstep. eapply wp_get_msg; [exact Hm|]. repeat kstep. apply HQ; try done.
  destruct M as [M1 M2 M3 M4 M5 M6 M7]. constructor; try done.
  rewrite <- M4. by rewrite (Permutation_middle f fl i).
Qed.

Lemma wp_take_free_none (l fl : list Z) (Q : option Z -> kst -> Prop) :
  mq_ok q l [] fl -> Q None s -> wp (mq_take_free a) Q s.
Proof.
  intros M HQ. unfold mq_take_free. kstep. eapply wp_get_mq; [exact Hq|].
  pose proof (mk_free _ _ _ _ M) as Ef. cbn in Ef. rewrite Ef. by kstep.
Qed.

Lemma wp_clear_next (l f fl : list Z) (i : Z) (Q : unit -> kst -> Prop) :
  mq_ok q l f fl -> i ∈ fl ->
  (forall q', mq_ok q' l f fl -> same_text q' -> mq_msg_size q' = mq_msg_size q ->
     mq_max_msgs q' = mq_max_msgs q -> msg_next <$> mq_pool q' !! i = Some None ->
     (forall j, j <> i -> mq_pool q' !! j = mq_pool q !! j) -> Q tt (set_mq a q' s)) ->
  wp (mq_clear_next a i) Q s.
Proof.
  intros M Hi HQ. destruct (mq_message q l f fl M i) as (m & Hm & Hb); [set_solver|].
  unfold mq_clear_next. kstep. eapply wp_get_mq; [exact Hq|]. kstep.
  eapply wp_lift_ok; [by apply msg_set_next_ok|]. kstep.
  apply HQ; try done.
  - by apply mq_ok_flight.
  - intros j. unfold msg_text. cbn. rewrite lookup_insert. case_decide; [|done]. subst. by rewrite Hm.
  - cbn. by rewrite lookup_insert_eq.
  - intros j Hj. cbn. by rewrite lookup_insert_ne.
Qed.

Lemma wp_fill (l f fl : list Z) (i n : Z) (b : list Z) (Q : unit -> kst -> Prop) :
  mq_ok q l f fl -> i ∈ fl -> 0 <= n <= mq_msg_size q -> n <= Z.of_nat (length b) ->
  (forall q', mq_ok q' l f fl -> (forall j, j <> i -> msg_text q' j = msg_text q j) ->
     mq_msg_size q' = mq_msg_size q -> mq_max_msgs q' = mq_max_msgs q ->
     msg_next <$> mq_pool q' !! i = msg_next <$> mq_pool q !! i ->
     msg_text q' i = list_inserts 0 (slice 0 n b) (msg_text q i) ->
     (forall j, j <> i -> mq_pool q' !! j = mq_pool q !! j) -> Q tt (set_mq a q' s)) ->
  wp (mq_fill a i b n) Q s.
Proof.
  intros M Hi Hn Hb HQ. destruct (mq_message q l f fl M i) as (m & Hm & Hbm); [set_solver|].
  destruct (flight_fresh q l f fl M i Hi) as [Hl _].
  unfold mq_fill. kstep. eapply wp_get_mq; [exact Hq|]. kstep.
  eapply wp_get_msg; [exact Hm|]. kstep.
  eapply wp_lift_ok; [apply memcpy_at_ok; lia|]. kstep.
  eapply wp_lift_ok; [by apply mq_set_body_ok|]. kstep. apply HQ; try done.
  - apply mq_ok_flight; [done|done|]. cbn. by rewrite length_inserts.
  - intros j Hj. unfold msg_text. cbn. by rewrite lookup_insert_ne.
  - cbn. by rewrite lookup_insert_eq, Hm.
  - unfold msg_text. cbn. by rewrite lookup_insert_eq, Hm.
  - intros j Hj. cbn. by rewrite lookup_insert_ne.
Qed.

Lemma wp_link_head (l f fl : list Z) (i : Z) (Q : unit -> kst -> Prop) :
  mq_ok q l f (i :: fl) ->
  (forall q', mq_ok q' (i :: l) f fl -> same_text q' -> mq_msg_size q' = mq_msg_size q ->
     mq_max_msgs q' = mq_max_msgs q -> (forall j, j <> i -> mq_pool q' !! j = mq_pool q !! j) ->
     Q tt (set_mq a q' s)) ->
  wp (mq_link_head a i) Q s.
Proof.
  intros M HQ. destruct (mq_message q l f _ M i) as (m & Hm & Hb); [set_solver|].
  destruct (flight_fresh q l f _ M i) as [Hl Hf]; [by left|].
  pose proof (mq_length q l f _ M) as Len. cbn in Len.
  unfold mq_link_head. kstep. eapply wp_get_mq; [exact Hq|]. kstep.
  eapply wp_lift_ok; [by apply msg_set_next_ok|]. kstep. apply HQ; try done.
  - pose proof (mq_ok_flight q l f _ i (RtMqMessage (mq_head q) (msg_body m)) M
      ltac:(by left) Hb) as M'.
    destruct M as [M1 M2 M3 M4 M5 M6 M7]. destruct M' as [N1 N2 N3 N4 N5 N6 N7].
    constructor; cbn in *; try done.
    + split; [done|]. eexists. rewrite lookup_insert_eq. split; [done|]. exact N1.
    + destruct l as [|j l]; [by rewrite M2|]. rewrite last_cons_cons. rewrite M2.
      destruct (last (j :: l)) eqn:E; [done|]. by apply last_None in E.
    + rewrite <- M4. by rewrite <- !Permutation_middle.
    + rewrite M5, (ubits_small 16); lia.
  - intros j. unfold msg_text. cbn. rewrite lookup_insert. case_decide; [|done]. subst. by rewrite Hm.
  - intros j Hj. cbn. by rewrite lookup_insert_ne.
Qed.

Lemma wp_link_tail (l f fl : list Z) (i : Z) (Q : unit -> kst -> Prop) :
  mq_ok q l f (i :: fl) -> msg_next <$> mq_pool q !! i = Some None ->
  (forall q', mq_ok q' (l ++ [i]) f fl -> same_text q' ->
     mq_msg_size q' = mq_msg_size q -> mq_max_msgs q' = mq_max_msgs q ->
     (forall j, j ∉ l -> mq_pool q' !! j = mq_pool q !! j) -> Q tt (set_mq a q' s)) ->
  wp (mq_link_tail a i) Q s.
Proof.
  intros M Hnext HQ. destruct (mq_message q l f _ M i) as (m & Hm & Hb); [set_solver|].
  rewrite Hm in Hnext. injection Hnext as Hnext.
  destruct (flight_fresh q l f _ M i) as [Hl Hf]; [by left|].
  pose proof (mq_length q l f _ M) as Len. cbn in Len.
  pose proof (mq_nodup q l f _ M) as ND. pose proof (mk_max _ _ _ _ M) as Mx.
  assert (P : l ++ [i] ++ f ++ fl ≡ₚ seqZ 0 (mq_max_msgs q)).
  { rewrite <- (mk_perm _ _ _ _ M). apply Permutation_app_head. cbn. apply Permutation_middle. }
  unfold mq_link_tail. kstep. eapply wp_get_mq; [exact Hq|]. rewrite (mk_tail _ _ _ _ M). kstep.
  destruct l as [|t l _] using rev_ind.
  - cbn [last]. kstep. kstep. apply HQ; try done. destruct M as [M1 M2 M3 M4 M5 M6 M7].
    cbn in M1. constructor; cbn; try done.
    + rewrite M1. split; [done|]. by exists m.
    + rewrite M5. by rewrite (ubits_small 16) by (cbn; lia).
  - rewrite last_snoc. destruct (mq_message q _ f _ M t) as (mt & Hmt & Hbt); [set_solver|].
    eapply wp_lift_ok; [by apply msg_set_next_ok|]. kstep.
    assert (Ht : ~ (t ∈ f) /\ ~ (t ∈ l) /\ NoDup (l ++ [t])).
    { apply NoDup_app in ND as (N1 & N2 & _). split; [intros H; apply (N2 t); set_solver|].
      apply NoDup_app in N1 as N1'. destruct N1' as (_ & N3 & _).
      split; [|done]. intros H. apply (N3 t H). by left. }
    destruct Ht as (Htf & Htl & N1).
    apply HQ; try done.
    + destruct M as [M1 M2 M3 M4 M5 M6 M7]. constructor; cbn; try done.
      * rewrite <- app_assoc. cbn. destruct (mq_head q) as [h|] eqn:Eh;
          [|by apply chain_last in M1 as [M1 _]; destruct l; specialize (M1 eq_refl)].
        by apply (chain_snoc _ (Some h) l t i mt m).
      * by rewrite last_snoc.
      * by apply chain_insert.
      * rewrite <- app_assoc. exact P.
      * rewrite M5, !length_app in *. cbn [length] in *. rewrite (ubits_small 16) by lia. lia.
      * intros j Hj. rewrite lookup_insert. case_decide; [|by apply M7]. eexists. done.
    + intros j. unfold msg_text. cbn. rewrite lookup_insert. case_decide; [|done]. subst. by rewrite Hmt.
    + intros j Hj. cbn. rewrite lookup_insert_ne; [done|]. set_solver.
Qed.

Lemma wp_take_head (l f fl : list Z) (i : Z) (Q : Z -> kst -> Prop) :
  mq_ok q (i :: l) f fl ->
  (forall q', mq_ok q' l f (i :: fl) -> mq_pool q' = mq_pool q -> mq_msg_size q' = mq_msg_size q ->
     mq_max_msgs q' = mq_max_msgs q -> Q i (set_mq a q' s)) ->
  wp (mq_take_head a) Q s.
Proof.
  intros M HQ. pose proof (mq_length q _ f fl M) as Len. cbn in Len.
  pose proof (mq_nodup q _ f _ M) as ND. pose proof (mk_max _ _ _ _ M) as Mx.
  unfold mq_take_head. kstep. eapply wp_get_mq; [exact Hq|].
  destruct (mk_head _ _ _ _ M) as (Eh & m & Hm & Hc). rewrite Eh. kstep.
  eapply wp_get_msg; [exact Hm|]. repeat kstep. apply HQ; try done.
  destruct M as [M1 M2 M3 M4 M5 M6 M7]. constructor; cbn; try done.
  - rewrite M2. destruct l as [|j l].
    + by rewrite bool_decide_eq_true_2.
    + rewrite last_cons_cons. rewrite bool_decide_eq_false_2; [done|].
      intros E%last_Some_elem_of. cbn in ND. inversion ND; subst. set_solver.
  - rewrite <- M4. cbn. rewrite (Permutation_app_comm f (i :: fl)). cbn.
    rewrite <- Permutation_middle. by rewrite (Permutation_app_comm fl f).
  - rewrite M5. cbn [length]. rewrite (ubits_small 16); lia.
Qed.

Lemma wp_put_free (l f fl : list Z) (i : Z) (Q : unit -> kst -> Prop) :
  mq_ok q l f (i :: fl) ->
  (forall q', mq_ok q' l (i :: f) fl -> same_text q' -> mq_msg_size q' = mq_msg_size q ->
     mq_max_msgs q' = mq_max_msgs q -> (forall j, j <> i -> mq_pool q' !! j = mq_pool q !! j) ->
     Q tt (set_mq a q' s)) ->
  wp (mq_put_free a i) Q s.
Proof.
  intros M HQ. destruct (mq_message q l f _ M i) as (m & Hm & Hb); [set_solver|].
  unfold mq_put_free. kstep. eapply wp_get_mq; [exact Hq|]. kstep.
  eapply wp_lift_ok; [by apply msg_set_next_ok|]. kstep. apply HQ; try done.
  - pose proof (mq_ok_flight q l f _ i (RtMqMessage (mq_free q) (msg_body m)) M
      ltac:(by left) Hb) as M'.
    destruct M as [M1 M2 M3 M4 M5 M6 M7]. destruct M' as [N1 N2 N3 N4 N5 N6 N7].
    constructor; cbn in *; try done.
    + split; [done|]. eexists. rewrite lookup_insert_eq. split; [done|]. exact N3.
    + rewrite <- M4. by rewrite Permutation_middle.
  - intros j. unfold msg_text. cbn. rewrite lookup_insert. case_decide; [|done]. subst. by rewrite Hm.
  - intros j Hj. cbn. by rewrite lookup_insert_ne.
Qed.

End Sections.

Lemma set_mq_lookup (a : Z) (q : rt_messagequeue) (s : kst) : i_mqs (ip (set_mq a q s)) !! a = Some q.
Proof. apply lookup_insert_eq. Qed.

(** ** The calls *)

(** The queue holds [w], and the first thread that waited for a message has been
    waked. *)
Record mq_moved (mq : Z) (w : list (list Z)) (fl : list Z) (s s' : kst) : Prop := {
  mv_wf : wf_kst s';
  mv_mq : exists q l f, i_mqs (ip s') !! mq = Some q /\ mq_ok q l f fl /\ mq_contents q l = w;
  mv_wake : match tlist (sc s) (LSuspend mq) with
    | [] => sc s' = sc s
    | u :: rest => waked (fun _ th => th) [u] (sc s) (sc s') /\
        tlist (sc s') (LSuspend mq) = rest /\
        (s_lock_nest (sc s) = 0 -> exists p, highest (sc s') p (s_current (sc s')))
    end;
}.

Lemma contents_ext (q q' : rt_messagequeue) (l : list Z) :
  (forall i, i ∈ l -> msg_text q' i = msg_text q i) -> mq_contents q' l = mq_contents q l.
Proof. intros E. apply map_ext_in. intros i Hi%list_elem_of_In. by apply E. Qed.

Lemma wp_wake_mq (mq : Z) (w : list (list Z)) (l f fl : list Z) (q : rt_messagequeue) (s s1 : kst)
    (Q : unit -> kst -> Prop) :
  wf_kst s -> sc s1 = sc s -> tm s1 = tm s -> ob s1 = ob s -> i_mqs (ip s1) !! mq = Some q ->
  mq_ok q l f fl -> mq_contents q l = w ->
  (forall s', mq_moved mq w fl s s' -> Q tt s') -> wp (wake_first (LSuspend mq)) Q s1.
Proof.
  intros W E1 E2 E3 Hq M Hw HQ.
  assert (W1 : wf_kst s1).
  { apply (wf_kst_sched s); try done; rewrite E1; [apply W|by apply same_waiting_refl]. }
  unfold wake_first. apply wp_wake; [done|done|]. rewrite E1.
  destruct (tlist (sc s) (LSuspend mq)) as [|u rest] eqn:El.
  - apply HQ. constructor; [done|by exists q, l, f|by rewrite El].
  - intros s' W' A T I _ _ Hh. apply HQ. constructor; [done| |by rewrite El].
    exists q, l, f. by rewrite I.
Qed.

(** A payload [text] made of the [n] bytes sent, in a message of [size] bytes. *)
Definition sent (buffer : list Z) (n size : Z) (text : list Z) : Prop :=
  take (Z.to_nat n) text = take (Z.to_nat n) buffer /\ Z.of_nat (length text) = size.

Lemma sent_inserts (buffer text : list Z) (n size : Z) :
  0 <= n <= size -> n <= Z.of_nat (length buffer) -> Z.of_nat (length text) = size ->
  sent buffer n size (list_inserts 0 (slice 0 n buffer) text).
Proof.
  intros Hn Hb Ht. assert (L : length (slice 0 n buffer) = Z.to_nat n).
  { rewrite slice_0, length_take. lia. }
  split; [|by rewrite length_inserts].
  rewrite list_inserts_0 by lia. rewrite <- L at 1. rewrite take_app_length. apply slice_0.
Qed.

Lemma msg_text_length (q : rt_messagequeue) (l f fl : list Z) (i : Z) :
  mq_ok q l f fl -> i ∈ l ++ f ++ fl -> Z.of_nat (length (msg_text q i)) = mq_msg_size q.
Proof.
  intros M Hi. destruct (mq_message q l f fl M i Hi) as (m & Hm & Hb). unfold msg_text. by rewrite Hm.
Qed.

Section Calls.
Variables (s : kst) (mq : Z) (q : rt_messagequeue) (l f fl : list Z).
Hypothesis W : wf_kst s.
Hypothesis Hmq : mq <> RT_NULL.
Hypothesis Hq : i_mqs (ip s) !! mq = Some q.
Hypothesis M : mq_ok q l f fl.

Variables (buf : Z) (buffer : list Z) (size : Z).
Hypothesis Hbuf : buf <> RT_NULL.
Hypothesis Hsize : 0 < size <= Z.of_nat (length buffer).

Lemma wp_check_args (Q : unit -> kst -> Prop) : Q tt s -> wp (mq_check_args mq buf size) Q s.
Proof.
  intros HQ. unfold mq_check_args. kstep. kstep; [by apply negb_true_iff, Z.eqb_neq|].
  kstep. kstep; [by apply negb_true_iff, Z.eqb_neq|].
  kstep; [apply negb_true_iff, Z.eqb_neq; lia|]. done.
Qed.

(** [rt_mq_send] copies the bytes into a free message and puts it at the end
    of the queue, then wakes the first thread that waits; a message that is too
    long is refused with -RT_ERROR, and without a free message the call fails
    with -RT_EFULL; both leave everything as it was. *)
Theorem rt_mq_send_ok :
  wp (rt_mq_send mq buf buffer size) (fun r s' =>
    if mq_msg_size q <? size then r = - RT_ERROR /\ s' = s
    else match f with
    | [] => r = - RT_EFULL /\ s' = s
    | _ => r = RT_EOK /\ exists text, sent buffer size (mq_msg_size q) text /\
        mq_moved mq (mq_contents q l ++ [text]) fl s s'
    end) s.
Proof.
  unfold rt_mq_send. kstep. apply wp_check_args. kstep. eapply wp_get_mq; [exact Hq|].
  case_test; [by kstep|]. kstep. destruct f as [|i f'].
  { eapply wp_take_free_none; [exact Hq|exact M|]. by kstep. }
  eapply wp_take_free; [exact Hq|exact M|]. intros q1 M1 P1 S1 X1. kstep.
  eapply wp_clear_next; [apply set_mq_lookup|exact M1|by left|]. intros q2 M2 T2 S2 X2 N2 _. kstep.
  eapply wp_fill; [apply set_mq_lookup|exact M2|by left|lia|lia|].
  intros q3 M3 T3 S3 X3 N3 B3 _. kstep.
  eapply wp_link_tail; [apply set_mq_lookup|exact M3|by rewrite N3|]. intros q4 M4 T4 S4 X4 _. kstep.
  assert (Eb : sent buffer size (mq_msg_size q) (msg_text q4 i)).
  { rewrite T4, B3. apply sent_inserts; [lia|lia|].
    rewrite (msg_text_length q2 l f' (i :: fl)) by (done || set_solver). congruence. }
  eapply (wp_wake_mq mq (mq_contents q l ++ [msg_text q4 i]) (l ++ [i]) f' fl q4 s);
    [done..|apply set_mq_lookup|done| |].
  - unfold mq_contents. rewrite map_app. f_equal. apply map_ext_in. intros j Hj%list_elem_of_In.
    rewrite T4, T3, T2 by (apply (flight_ne q1 l f' (i :: fl)); [done|by left|done]). unfold msg_text. by rewrite P1.
  - intros s' B. kstep. split; [done|]. by eexists.
Qed.

(** [rt_mq_urgent] is the same, but the message goes to the front of the queue
    and is received next. *)
Theorem rt_mq_urgent_ok :
  wp (rt_mq_urgent mq buf buffer size) (fun r s' =>
    if mq_msg_size q <? size then r = - RT_ERROR /\ s' = s
    else match f with
    | [] => r = - RT_EFULL /\ s' = s
    | _ => r = RT_EOK /\ exists text, sent buffer size (mq_msg_size q) text /\
        mq_moved mq (text :: mq_contents q l) fl s s'
    end) s.
Proof.
  unfold rt_mq_urgent. kstep. apply wp_check_args. kstep. eapply wp_get_mq; [exact Hq|].
  case_test; [by kstep|]. kstep. destruct f as [|i f'].
  { eapply wp_take_free_none; [exact Hq|exact M|]. by kstep. }
  eapply wp_take_free; [exact Hq|exact M|]. intros q1 M1 P1 S1 X1. kstep.
  eapply wp_fill; [apply set_mq_lookup|exact M1|by left|lia|lia|].
  intros q3 M3 T3 S3 X3 N3 B3 _. kstep.
  eapply wp_link_head; [apply set_mq_lookup|exact M3|]. intros q4 M4 T4 S4 X4 _. kstep.
  assert (Eb : sent buffer size (mq_msg_size q) (msg_text q4 i)).
  { rewrite T4, B3. apply sent_inserts; [lia|lia|].
    rewrite (msg_text_length q1 l f' (i :: fl)) by (done || set_solver). congruence. }
  eapply (wp_wake_mq mq (msg_text q4 i :: mq_contents q l) (i :: l) f' fl q4 s);
    [done..|apply set_mq_lookup|done| |].
  - unfold mq_contents. cbn [map]. f_equal. apply map_ext_in. intros j Hj%list_elem_of_In.
    rewrite T4, T3 by (apply (flight_ne q1 l f' (i :: fl)); [done|by left|done]). unfold msg_text. by rewrite P1.
  - intros s' B. kstep. split; [done|]. by eexists.
Qed.

(** C27: [rt_mq_recv] on a queue that is not empty takes the first message out,
    gives its bytes, at most as many as the caller asks for, and puts the message
    back in the free list; on an empty queue a caller that may not wait gets
    -RT_ETIMEOUT and nothing changes. *)
Theorem rt_mq_recv_ok (time : Z) :
  (mq_contents q l = [] -> time = 0) ->
  wp (rt_mq_recv mq buf buffer size time) (fun r s' =>
    match mq_contents q l with
    | [] => r = Return (- RT_ETIMEOUT, buffer) /\ s' = s
    | text :: w => exists got, r = Return (RT_EOK, got) /\
        take (Z.to_nat (Z.min size (mq_msg_size q))) got =
          take (Z.to_nat (Z.min size (mq_msg_size q))) text /\
        length got = length buffer /\ sc s' = sc s /\ tm s' = tm s /\
        exists q' l' f', i_mqs (ip s') !! mq = Some q' /\ mq_ok q' l' f' fl /\
          mq_contents q' l' = w
    end) s.
Proof.
  intros Ht. unfold rt_mq_recv. kstep. apply wp_check_args. do 3 kstep. eapply wp_get_mq; [exact Hq|].
  pose proof (mk_entry _ _ _ _ M) as En. pose proof (mk_max _ _ _ _ M) as Mx.
  pose proof (mq_length q l f fl M) as Len.
  destruct l as [|i l']; cbn [mq_contents map length] in *.
  { rewrite En, Ht by done. change (Z.of_nat 0) with 0. rewrite !Z.eqb_refl. cbn [andb]. by kstep. }
  rewrite (proj2 (Z.eqb_neq (mq_entry q) 0)) by lia. cbn [andb].
  unfold mq_recv_loop. kstep. eapply wp_get_mq; [exact Hq|].
  rewrite (proj2 (Z.eqb_neq (mq_entry q) 0)) by lia. kstep.
  eapply wp_take_head; [exact Hq|exact M|]. intros q1 M1 P1 S1 X1. kstep.
  assert (Ei : msg_text q1 i = msg_text q i) by (unfold msg_text; by rewrite P1).
  destruct (mq_message q1 l' f (i :: fl) M1 i) as (m & Hm & Hb); [set_solver|].
  assert (Em : msg_body m = msg_text q i) by (rewrite <- Ei; unfold msg_text; by rewrite Hm).
  set (n := Z.min size (mq_msg_size q)).
  assert (Hn : (if mq_msg_size q1 <? size then mq_msg_size q1 else size) = n)
    by (unfold n; rewrite S1; case_test; lia).
  assert (Hs0 : 0 <= mq_msg_size q) by lia.
  unfold mq_read. kstep. eapply wp_get_mq; [apply set_mq_lookup|]. kstep.
  eapply wp_get_msg; [exact Hm|]. rewrite Hn.
  eapply wp_lift_ok; [apply memcpy_at_ok; lia|]. kstep.
  eapply wp_put_free; [apply set_mq_lookup|exact M1|]. intros q2 M2 T2 S2 X2 _. kstep.
  exists (list_inserts 0 (slice 0 n (msg_body m)) buffer). split; [done|].
  destruct (sent_inserts (msg_body m) buffer n (Z.of_nat (length buffer))) as [Eb Lb]; [lia|lia|done|].
  split; [by rewrite Eb, Em|]. split; [lia|]. split; [done|]. split; [done|].
  exists q2, l', (i :: f). split; [apply set_mq_lookup|]. split; [done|].
  apply map_ext_in. intros j Hj%list_elem_of_In. rewrite T2. unfold msg_text. by rewrite P1.
Qed.

End Calls.

(** ** Samples *)

Definition a_mq : Z := 0x20007500.

(** A queue of three messages of four bytes, with one message in it. *)
Definition with_mq : kst :=
  after (rt_mq_send a_mq 0x20005000 [1; 2; 3; 4; 5] 3)
    (after (rt_mq_init a_mq [113; 0] 0x20007600 (replicate 3 (replicate 4 0)) 4 24 RT_IPC_FLAG_FIFO)
       running).
Definition mq_pool_of_3 : gmap Z rt_mq_message :=
  <[2 := RtMqMessage None [1; 2; 3; 0]]> (<[1 := RtMqMessage (Some 0) [0; 0; 0; 0]]>
    (<[0 := RtMqMessage None [0; 0; 0; 0]]> ∅)).
Definition mq_one (free : option Z) : rt_messagequeue :=
  RtMessagequeue 0x20007600 mq_pool_of_3 4 3 1 (Some 2) (Some 2) free.

Lemma wf_with_mq : wf_kst with_mq.
Proof. apply wf_check. evaluate. Qed.

Lemma mq_one_ok (free : option Z) (f fl : list Z) :
  chain mq_pool_of_3 free f -> [2] ++ f ++ fl ≡ₚ [0; 1; 2] -> mq_ok (mq_one free) [2] f fl.
Proof.
  intros C P. constructor; cbn; try done; try lia.
  - split; [done|]. by exists (RtMqMessage None [1; 2; 3; 0]).
  - intros i Hi. assert (i = 0 \/ i = 1 \/ i = 2) as [->|[->| ->]] by lia;
      eexists; (split; [reflexivity|reflexivity]).
Qed.

Lemma mq_with_ok : mq_ok (mq_one (Some 1)) [2] [1; 0] [].
Proof.
  apply mq_one_ok; [cbn; eauto 10|]. cbn. symmetry. apply (Permutation_rev [0; 1; 2]).
Qed.

Lemma rt_mq_send_ok_witness :
  wp (rt_mq_send a_mq 0x20005000 [7; 8; 9; 10] 4) (fun r s' => r = RT_EOK /\ wf_kst s') with_mq.
Proof.
  assert (Hq : i_mqs (ip with_mq) !! a_mq = Some (mq_one (Some 1))) by evaluate.
  eapply wp_mono; [apply (rt_mq_send_ok with_mq a_mq (mq_one (Some 1)) [2] [1; 0] [])|].
  - exact wf_with_mq.
  - discriminate.
  - exact Hq.
  - exact mq_with_ok.
  - discriminate.
  - cbn. lia.
  - intros r s' (R & text & _ & B). split; [exact R|]. exact (mv_wf _ _ _ _ _ B).
Defined.

Lemma rt_mq_urgent_ok_witness :
  wp (rt_mq_urgent a_mq 0x20005000 [7; 8; 9; 10] 4) (fun r s' => r = RT_EOK /\ wf_kst s') with_mq.
Proof.
  assert (Hq : i_mqs (ip with_mq) !! a_mq = Some (mq_one (Some 1))) by evaluate.
  eapply wp_mono; [apply (rt_mq_urgent_ok with_mq a_mq (mq_one (Some 1)) [2] [1; 0] [])|].
  - exact wf_with_mq.
  - discriminate.
  - exact Hq.
  - exact mq_with_ok.
  - discriminate.
  - cbn. lia.
  - intros r s' (R & text & _ & B). split; [exact R|]. exact (mv_wf _ _ _ _ _ B).
Defined.

Lemma rt_mq_recv_ok_witness :
  wp (rt_mq_recv a_mq 0x20005000 [0; 0; 0; 0; 0; 0] 6 0) (fun r s' => exists got,
    r = Return (RT_EOK, got) /\ take 4 got = [1; 2; 3; 0] /\ sc s' = sc with_mq) with_mq.
Proof.
  assert (Hq : i_mqs (ip with_mq) !! a_mq = Some (mq_one (Some 1))) by evaluate.
  eapply wp_mono; [apply (rt_mq_recv_ok with_mq a_mq (mq_one (Some 1)) [2] [1; 0] [])|].
  - exact wf_with_mq.
  - discriminate.
  - exact Hq.
  - exact mq_with_ok.
  - discriminate.
  - cbn. lia.
  - reflexivity.
  - intros r s' (got & R & T & _ & S & _). exists got. split; [exact R|]. split; [exact T|exact S].
Defined.
