(* ===== verification/MqThreads.v ===== *)
(** * Message queues: any number of threads at once

    [rt_mq_send], [rt_mq_urgent] and [rt_mq_recv] give up the processor in the middle: a
    message is out of both lists while its payload is copied.  Here a call is a sequence of
    sections (what runs with the interrupts disabled, and the copying between), any number
    of threads are in the middle of calls, and their sections come in any order; the
    specification is a queue of payloads and the messages that threads have in hand. *)

From Stdlib Require Import Lia.
From S2P Require Import Prelude KService Heap KState Scheduler Object Timer Thread.
From S2P Require Import Invariant Sample ThreadSpec Frame Clock Ipc IpcSpec Mailbox MailboxSpec MqSpec.

Abbreviation len l := (Z.of_nat (length l)).

(** ** Where a call is *)

(** The bytes and the size it was called with go along; [i] is the message in hand. *)
Inductive stage :=
| SendAt (urgent : bool) (b : list Z) (n : Z)
| Taken (urgent : bool) (i : Z) (b : list Z) (n : Z)
| Cleared (i : Z) (b : list Z) (n : Z)
| Filled (urgent : bool) (i : Z) (b : list Z) (n : Z)
| RecvAt (b : list Z) (n time : Z)
| Waiting (k : mq_recv_k)
| HeadTaken (i : Z) (b : list Z) (n : Z)
| Copied (i : Z) (b : list Z) (n : Z) (got : list Z)
| Done (r : Z) (got : list Z).

(** The loop of [rt_mq_recv] up to the end of its critical section. *)
Definition recv_section (mq t : Z) (b : list Z) (n time : Z) : K stage :=
  q ← get_mq mq;
  if mq_entry q =? 0 then
    r ← mq_recv_loop mq b n time t;
    mret (match r with Return (e, got) => Done e got | Wait k => Waiting k end)
  else
    i ← mq_take_head mq;
    mret (HeadTaken i b n).

(** The next section of a call of thread [t]. *)
Definition mq_section (mq t : Z) (p : stage) : K stage :=
  match p with
  | SendAt urgent b n =>
      q ← get_mq mq;
      if mq_msg_size q <? n then mret (Done (- RT_ERROR) b) else
      msg ← mq_take_free mq;
      mret (match msg with None => Done (- RT_EFULL) b | Some i => Taken urgent i b n end)
  | Taken false i b n => _ ← mq_clear_next mq i; mret (Cleared i b n)
  | Taken true i b n => _ ← mq_fill mq i b n; mret (Filled true i b n)
  | Cleared i b n => _ ← mq_fill mq i b n; mret (Filled false i b n)
  | Filled urgent i b n =>
      _ ← (if urgent then mq_link_head mq i else mq_link_tail mq i);
      _ ← wake_first (LSuspend mq);
      mret (Done RT_EOK b)
  | RecvAt b n time =>
      q ← get_mq mq;
      if (mq_entry q =? 0) && (time =? 0) then mret (Done (- RT_ETIMEOUT) b)
      else recv_section mq t b n time
  | Waiting k =>
      th ← get_thread t;
      if negb (t_error th =? RT_EOK) then mret (Done (t_error th) (kq_buffer k)) else
      tick ← rt_tick_get;
      recv_section mq t (kq_buffer k) (kq_size k) (retime (kq_timeout k) (kq_tick k) tick)
  | HeadTaken i b n => got ← mq_read mq i b n; mret (Copied i b n got)
  | Copied i b n got => _ ← mq_put_free mq i; mret (Done RT_EOK got)
  | Done r got => mret (Done r got)
  end.

(** A call that nobody disturbs, up to its end or to where it waits. *)
Fixpoint to_end (fuel : nat) (mq t : Z) (p : stage) : K (outcome (Z * list Z) mq_recv_k) :=
  match p with
  | Done r got => mret (Return (r, got))
  | Waiting k => mret (Wait k)
  | _ => match fuel with
         | O => hang
         | S fuel => p ← mq_section mq t p; to_end fuel mq t p
         end
  end.

Definition code (r : outcome (Z * list Z) mq_recv_k) : Z :=
  match r with Return (r, _) => r | Wait _ => 0 end.

(** ** Alone, the sections are the functions of [Mailbox] *)

Section Alone.
Variables (mq t : Z).

#[local] Arguments get_mq : simpl never.
#[local] Arguments get_thread : simpl never.
#[local] Arguments mq_check_args : simpl never.
#[local] Arguments mq_take_free : simpl never.
#[local] Arguments mq_clear_next : simpl never.
#[local] Arguments mq_fill : simpl never.
#[local] Arguments mq_link_tail : simpl never.
#[local] Arguments mq_link_head : simpl never.
#[local] Arguments mq_take_head : simpl never.
#[local] Arguments mq_read : simpl never.
#[local] Arguments mq_put_free : simpl never.
#[local] Arguments wake_first : simpl never.
#[local] Arguments recv_section : simpl never.
#[local] Arguments mq_recv_loop : simpl never.

Ltac open := cbn; unfold mbind, ST_bind, mret, ST_ret, gets, lift; cbn.

Lemma send_sections (buf : Z) (b : list Z) (n : Z) (s : kst) :
  rt_mq_send mq buf b n s =
    (_ ← mq_check_args mq buf n; r ← to_end 4 mq t (SendAt false b n); mret (code r)) s.
Proof.
  unfold rt_mq_send. open. destruct (mq_check_args mq buf n s) as [[[] s1]| |]; [open|done..].
  destruct (get_mq mq s1) as [[q s2]| |]; [open|done..]. destruct (mq_msg_size q <? n); [done|].
  destruct (mq_take_free mq s2) as [[[i|] s3]| |]; [open|done..].
  destruct (mq_clear_next mq i s3) as [[[] s4]| |]; [open|done..].
  destruct (mq_fill mq i b n s4) as [[[] s5]| |]; [open|done..].
  destruct (mq_link_tail mq i s5) as [[[] s6]| |]; [open|done..].
  by destruct (wake_first (LSuspend mq) s6) as [[[] s7]| |].
Qed.

Lemma urgent_sections (buf : Z) (b : list Z) (n : Z) (s : kst) :
  rt_mq_urgent mq buf b n s =
    (_ ← mq_check_args mq buf n; r ← to_end 3 mq t (SendAt true b n); mret (code r)) s.
Proof.
  unfold rt_mq_urgent. open. destruct (mq_check_args mq buf n s) as [[[] s1]| |]; [open|done..].
  destruct (get_mq mq s1) as [[q s2]| |]; [open|done..]. destruct (mq_msg_size q <? n); [done|].
  destruct (mq_take_free mq s2) as [[[i|] s3]| |]; [open|done..].
  destruct (mq_fill mq i b n s3) as [[[] s4]| |]; [open|done..].
  destruct (mq_link_head mq i s4) as [[[] s5]| |]; [open|done..].
  by destruct (wake_first (LSuspend mq) s5) as [[[] s6]| |].
Qed.

Lemma get_mq_state (s s' : kst) (q : rt_messagequeue) : get_mq mq s = Ok (q, s') -> s' = s.
Proof. unfold get_mq. open. by destruct (i_mqs (ip s) !! mq); intros [= _ <-]. Qed.

Lemma recv_loop_sections (b : list Z) (n time : Z) (s : kst) :
  mq_recv_loop mq b n time t s =
    (p ← recv_section mq t b n time; to_end 2 mq t p) s.
Proof.
  unfold recv_section, mbind, ST_bind.
  destruct (get_mq mq s) as [[q s1]| |] eqn:E;
    [|unfold mq_recv_loop, mbind, ST_bind; by rewrite E..].
  pose proof (get_mq_state _ _ _ E) as ->. destruct (mq_entry q =? 0) eqn:Ee.
  - destruct (mq_recv_loop mq b n time t s) as [[[[e got]|k] s2]| |]; done.
  - unfold mq_recv_loop, mbind, ST_bind. rewrite E, Ee.
    destruct (mq_take_head mq s) as [[i s2]| |]; [open|done..].
    destruct (mq_read mq i b n s2) as [[got s3]| |]; [open|done..].
    by destruct (mq_put_free mq i s3) as [[[] s4]| |].
Qed.

Lemma recv_sections (buf : Z) (b : list Z) (n time : Z) (s : kst) :
  s_current (sc s) = t ->
  rt_mq_recv mq buf b n time s =
    (_ ← mq_check_args mq buf n; to_end 3 mq t (RecvAt b n time)) s.
Proof.
  intros Ec. assert (A : forall s1, mq_check_args mq buf n s = Ok (tt, s1) -> s1 = s).
  { intros s1. unfold mq_check_args, kassert. open.
    by destruct (mq =? RT_NULL), (buf =? RT_NULL), (n =? 0); intros [= <-]. }
  unfold rt_mq_recv. open. destruct (mq_check_args mq buf n s) as [[[] s1]| |]; [open|done..].
  rewrite (A s1 eq_refl). unfold rt_thread_self. open. rewrite Ec.
  destruct (get_mq mq s) as [[q s2]| |] eqn:E; [open|done..]. pose proof (get_mq_state _ _ _ E) as ->.
  destruct ((mq_entry q =? 0) && (time =? 0)); [done|]. rewrite recv_loop_sections. open.
  by destruct (recv_section mq t b n time s) as [[p s3]| |].
Qed.

Lemma resume_sections (b : list Z) (n time tick : Z) (s : kst) :
  rt_mq_recv_resume (MqRecvK mq b n time tick t) s =
    (p ← mq_section mq t (Waiting (MqRecvK mq b n time tick t)); to_end 2 mq t p) s.
Proof.
  unfold rt_mq_recv_resume. open. destruct (get_thread t s) as [[th s1]| |]; [open|done..].
  destruct (t_error th =? RT_EOK); cbn [negb]; [|done]. unfold rt_tick_get. open.
  rewrite recv_loop_sections. open.
  by destruct (recv_section mq t b n (retime time tick (ts_tick (tm s1))) s1) as [[p s3]| |].
Qed.

End Alone.

(** ** The specification *)

(** What a thread has in hand: a place in the queue, for the [n] bytes [b] it sends; or a
    payload, on its way to the buffer. *)
Inductive hand :=
| Sending (urgent : bool) (b : list Z) (n : Z)
| Receiving (text : list Z) (b : list Z) (n : Z).

(** The payloads that wait, the threads with something in hand, and the threads that wait
    for a payload in their order. *)
Record amq := AMq { waiting : list (list Z); hands : list (Z * hand); readers : list Z }.

Inductive mevent :=
| NotSent (t n r : Z)
| Begun (t : Z) (urgent : bool) (b : list Z) (n : Z)
| Put (t : Z) (urgent : bool) (text : list Z) (r : Z)
| Empty (t time : Z) (r : option Z)
| Get (t : Z) (text : list Z)
| Got (t : Z) (got : list Z) (r : Z)
| GaveUp (t e : Z)
| Gone (rs : list Z).

Section Abstract.
(** The bytes of a payload, the number of messages, and the flag of the queue. *)
Variables size max flag : Z.

(** What thread [t] does while the others have [k] messages in hand.  A place is free while
    less than [max] payloads wait or are in somebody's hand. *)
Inductive act (t k : Z) :
  list (list Z) -> list (Z * hand) -> list Z -> option mevent ->
  list (list Z) -> list (Z * hand) -> list Z -> Prop :=
| act_quiet w h rs : act t k w h rs None w h rs
| act_refused n w rs : size < n -> act t k w [] rs (Some (NotSent t n (- RT_ERROR))) w [] rs
| act_full n w rs : n <= size -> len w + k = max ->
    act t k w [] rs (Some (NotSent t n (- RT_EFULL))) w [] rs
| act_begun u b n w rs : n <= size -> len w + k < max ->
    act t k w [] rs (Some (Begun t u b n)) w [(t, Sending u b n)] rs
| act_put (u : bool) b n text w rs : sent b n size text ->
    act t k w [(t, Sending u b n)] rs (Some (Put t u text RT_EOK))
      (if u then text :: w else w ++ [text]) [] (tail rs)
| act_timeout rs : act t k [] [] rs (Some (Empty t 0 (Some (- RT_ETIMEOUT)))) [] [] rs
| act_wait time rs rs' : time <> 0 -> rs' ≡ₚ t :: rs -> (flag = RT_IPC_FLAG_FIFO -> rs' = rs ++ [t]) ->
    act t k [] [] rs (Some (Empty t time None)) [] [] rs'
| act_get text b n w rs :
    act t k (text :: w) [] rs (Some (Get t text)) w [(t, Receiving text b n)] rs
| act_got text b n got w rs : sent text (Z.min n size) (len b) got ->
    act t k w [(t, Receiving text b n)] rs (Some (Got t got RT_EOK)) w [] rs
| act_gave_up e w rs : e <> RT_EOK -> act t k w [] rs (Some (GaveUp t e)) w [] rs.

Inductive astep : amq -> option mevent -> amq -> Prop :=
| a_act t w h rs e w' h' rs' h1 h2 : act t (len (h1 ++ h2)) w h rs e w' h' rs' ->
    astep (AMq w (h1 ++ h ++ h2) rs) e (AMq w' (h1 ++ h' ++ h2) rs')
| a_gone w h rs rs' : rs' `sublist_of` rs -> astep (AMq w h rs) (Some (Gone rs')) (AMq w h rs').

Inductive aruns : amq -> list mevent -> amq -> Prop :=
| ar_refl a : aruns a [] a
| ar_step a1 es a2 e a3 : aruns a1 es a2 -> astep a2 e a3 -> aruns a1 (es ++ option_list e) a3.

(** The payloads that went into the queue, and that were taken out. *)
Definition put (e : mevent) : list (list Z) := match e with Put _ _ text _ => [text] | _ => [] end.
Definition taken (e : mevent) : list (list Z) := match e with Get _ text => [text] | _ => [] end.
Definition all_put (es : list mevent) : list (list Z) := concat (put <$> es).
Definition all_taken (es : list mevent) : list (list Z) := concat (taken <$> es).
Definition ordinary (e : mevent) : Prop := match e with Put _ u _ _ => u = false | _ => True end.

Lemma all_put_app (es es' : list mevent) : all_put (es ++ es') = all_put es ++ all_put es'.
Proof. unfold all_put. by rewrite fmap_app, concat_app. Qed.
Lemma all_taken_app (es es' : list mevent) : all_taken (es ++ es') = all_taken es ++ all_taken es'.
Proof. unfold all_taken. by rewrite fmap_app, concat_app. Qed.

(** Nothing is lost and nothing comes twice. *)
Lemma mq_runs_all (a a' : amq) (es : list mevent) :
  aruns a es a' -> waiting a ++ all_put es ≡ₚ all_taken es ++ waiting a'.
Proof.
  induction 1 as [a|a1 es a2 e a3 R IH St]; [by rewrite app_nil_r|].
  rewrite all_put_app, all_taken_app, app_assoc, IH, <- !app_assoc. apply Permutation_app_head.
  destruct St as [t w h rs e w' h' rs' h1 h2 A|]; [|by rewrite app_nil_r].
  destruct A; cbn; rewrite ?app_nil_r; try done. destruct u; [|done].
  unfold all_put; cbn. symmetry. apply Permutation_cons_append.
Qed.

(** Without urgent messages the order is kept. *)
Lemma mq_runs_stream (a a' : amq) (es : list mevent) :
  aruns a es a' -> Forall ordinary es -> waiting a ++ all_put es = all_taken es ++ waiting a'.
Proof.
  induction 1 as [a|a1 es a2 e a3 R IH St]; intros F; [by rewrite app_nil_r|].
  apply Forall_app in F as [F Fe].
  rewrite all_put_app, all_taken_app, app_assoc, (IH F), <- !app_assoc. f_equal.
  destruct St as [t w h rs e w' h' rs' h1 h2 A|]; [|by rewrite app_nil_r].
  destruct A; cbn; rewrite ?app_nil_r; try done.
  apply Forall_inv in Fe. cbn in Fe. by subst.
Qed.

End Abstract.

(** ** The invariant *)

Section Spec.
Variables mq size max flag : Z.

(** The messages at a place, and what they are for. *)
Definition blocks (p : stage) : list Z :=
  match p with
  | Taken _ i _ _ | Cleared i _ _ | Filled _ i _ _ | HeadTaken i _ _ | Copied i _ _ _ => [i]
  | _ => []
  end.

Definition held (q : rt_messagequeue) (c : Z * stage) : list (Z * hand) :=
  match c.2 with
  | Taken u _ b n | Filled u _ b n => [(c.1, Sending u b n)]
  | Cleared _ b n => [(c.1, Sending false b n)]
  | HeadTaken i b n | Copied i b n _ => [(c.1, Receiving (msg_text q i) b n)]
  | _ => []
  end.

Definition last_one (q : rt_messagequeue) (i : Z) : Prop := msg_next <$> mq_pool q !! i = Some None.

Definition stage_ok (q : rt_messagequeue) (c : Z * stage) : Prop :=
  match c.2 with
  | SendAt _ b n | HeadTaken _ b n => 0 < n <= len b
  | Taken _ _ b n => 0 < n <= len b /\ n <= size
  | Cleared i b n => 0 < n <= len b /\ n <= size /\ last_one q i
  | Filled u i b n => sent b n size (msg_text q i) /\ (u = false -> last_one q i)
  | RecvAt b n time => 0 < n <= len b /\ time < 2 ^ 31 - 1
  | Waiting k => kq_mq k = mq /\ kq_thread k = c.1 /\ 0 < kq_size k <= len (kq_buffer k) /\
      kq_timeout k < 2 ^ 31 - 1
  | Copied i b n got => sent (msg_text q i) (Z.min n size) (len b) got
  | Done _ _ => True
  end.

(** Only the threads that may wait need to be the running one; a message is sent from
    anywhere. *)
Definition able (s : kst) (c : Z * stage) : Prop :=
  match c.2 with
  | RecvAt _ _ _ => exists th, caller s c.1 th
  | Waiting k => (exists th, caller s c.1 th) /\
      (0 < kq_timeout k -> u32 (ts_tick (tm s) - kq_tick k) <= 2 ^ 31)
  | _ => True
  end.

(** What a section that goes from [p] to [p'] shows. *)
Definition text_at (s : kst) (i : Z) : list Z :=
  match i_mqs (ip s) !! mq with Some q => msg_text q i | None => [] end.
Definition error_at (s : kst) (t : Z) : Z :=
  match s_threads (sc s) !! t with Some th => t_error th | None => RT_EOK end.

Definition seen_receiving (s : kst) (t time : Z) (p' : stage) : option mevent :=
  match p' with
  | Done r _ => Some (Empty t time (Some r))
  | Waiting _ => Some (Empty t time None)
  | HeadTaken i _ _ => Some (Get t (text_at s i))
  | _ => None
  end.

Definition seen (s : kst) (t : Z) (p p' : stage) : option mevent :=
  match p, p' with
  | SendAt _ _ n, Done r _ => Some (NotSent t n r)
  | SendAt u b n, _ => Some (Begun t u b n)
  | Filled u i _ _, Done r _ => Some (Put t u (text_at s i) r)
  | RecvAt _ _ time, _ => seen_receiving s t time p'
  | Waiting k, Done r _ =>
      if error_at s t =? RT_EOK
      then seen_receiving s t (retime (kq_timeout k) (kq_tick k) (ts_tick (tm s))) p'
      else Some (GaveUp t r)
  | Waiting k, _ => seen_receiving s t (retime (kq_timeout k) (kq_tick k) (ts_tick (tm s))) p'
  | Copied _ _ _ _, Done r got => Some (Got t got r)
  | _, _ => None
  end.

Definition all_blocks (ps : list (Z * stage)) : list Z := concat (blocks ∘ snd <$> ps).
Definition all_held (q : rt_messagequeue) (ps : list (Z * stage)) : list (Z * hand) :=
  concat (held q <$> ps).

Record mq_repr (a : amq) (ps : list (Z * stage)) (s : kst) : Prop := {
  mr_wf : wf_kst s;
  mr_null : mq <> RT_NULL;
  mr_flag : exists y, ob_objs (ob s) !! Obj mq = Some y /\ o_flag y = flag /\ valid_flag flag;
  mr_readers : tlist (sc s) (LSuspend mq) = readers a;
  mr_mq : exists q l f, i_mqs (ip s) !! mq = Some q /\ mq_ok q l f (all_blocks ps) /\
    mq_msg_size q = size /\ mq_max_msgs q = max /\ mq_contents q l = waiting a /\
    hands a = all_held q ps /\ Forall (stage_ok q) ps;
}.

(** The messages of other threads are as they were. *)
Definition untouched (q q' : rt_messagequeue) (fl : list Z) : Prop :=
  forall j, j ∈ fl -> mq_pool q' !! j = mq_pool q !! j.

Lemma text_untouched (q q' : rt_messagequeue) (j : Z) :
  mq_pool q' !! j = mq_pool q !! j -> msg_text q' j = msg_text q j.
Proof. unfold msg_text. by intros ->. Qed.

Lemma held_untouched (q q' : rt_messagequeue) (c : Z * stage) :
  untouched q q' (blocks c.2) -> held q' c = held q c.
Proof.
  intros E. destruct c as [t []]; cbn in *; try done;
    rewrite (text_untouched q q') by (apply E; by left); done.
Qed.

Lemma stage_untouched (q q' : rt_messagequeue) (c : Z * stage) :
  untouched q q' (blocks c.2) -> stage_ok q c -> stage_ok q' c.
Proof.
  intros E. destruct c as [t []]; cbn in *; try done; unfold last_one;
    rewrite ?(text_untouched q q') by (apply E; by left); rewrite ?E by (by left); done.
Qed.

Lemma all_untouched (q q' : rt_messagequeue) (ps : list (Z * stage)) :
  untouched q q' (all_blocks ps) ->
  all_held q' ps = all_held q ps /\ (Forall (stage_ok q) ps -> Forall (stage_ok q') ps).
Proof.
  unfold all_held, all_blocks. induction ps as [|c ps IH]; cbn; [done|]. intros E.
  destruct IH as [IH1 IH2]; [intros j Hj; apply E; set_solver|].
  assert (Ec : untouched q q' (blocks c.2)) by (intros j Hj; apply E; set_solver).
  split; [by rewrite IH1, (held_untouched q q')|].
  intros [F1 F2]%Forall_cons. constructor; [by apply (stage_untouched q q')|by apply IH2].
Qed.

Lemma all_blocks_app (ps1 ps2 : list (Z * stage)) :
  all_blocks (ps1 ++ ps2) = all_blocks ps1 ++ all_blocks ps2.
Proof. unfold all_blocks. by rewrite fmap_app, concat_app. Qed.
Lemma all_held_app (q : rt_messagequeue) (ps1 ps2 : list (Z * stage)) :
  all_held q (ps1 ++ ps2) = all_held q ps1 ++ all_held q ps2.
Proof. unfold all_held. by rewrite fmap_app, concat_app. Qed.
Lemma length_held (q : rt_messagequeue) (ps : list (Z * stage)) :
  length (all_held q ps) = length (all_blocks ps).
Proof.
  unfold all_held, all_blocks. induction ps as [|[t p] ps IH]; cbn; [done|].
  rewrite !length_app, IH. by destruct p.
Qed.

(** ** One section *)

Lemma retime_bound (timeout start now : Z) :
  timeout < 2 ^ 31 - 1 -> (0 < timeout -> u32 (now - start) <= 2 ^ 31) ->
  retime timeout start now < 2 ^ 31 - 1.
Proof.
  unfold retime. intros H1 H2. case_test; [|done]. specialize (H2 Etest).
  pose proof (ubits_range 32 (now - start) ltac:(lia)).
  rewrite sbits_small by lia. case_test; lia.
Qed.

Section Step.
Variables (s : kst) (q : rt_messagequeue) (l f rest : list Z) (t : Z) (y : rt_object).
Hypothesis W : wf_kst s.
Hypothesis Hnull : mq <> RT_NULL.
Hypothesis Hy : ob_objs (ob s) !! Obj mq = Some y.
Hypothesis Hyf : o_flag y = flag.
Hypothesis Hf : valid_flag flag.
Hypothesis Hq : i_mqs (ip s) !! mq = Some q.
Hypothesis Hsize : mq_msg_size q = size.
Hypothesis Hmax : mq_max_msgs q = max.

Let w := mq_contents q l.
Let rs := tlist (sc s) (LSuspend mq).

(** What thread [t] at [p] leaves, with the messages [rest] in other hands. *)
Definition moved (p p' : stage) (s' : kst) : Prop :=
  exists q' l' f', wf_kst s' /\ ob_objs (ob s') !! Obj mq = Some y /\
    i_mqs (ip s') !! mq = Some q' /\ mq_ok q' l' f' (blocks p' ++ rest) /\
    mq_msg_size q' = size /\ mq_max_msgs q' = max /\
    untouched q q' rest /\ stage_ok q' (t, p') /\
    act size max flag t (len rest) w (held q (t, p)) rs (seen s t p p')
      (mq_contents q' l') (held q' (t, p')) (tlist (sc s') (LSuspend mq)).

Lemma in_hand (i j : Z) : mq_ok q l f (i :: rest) -> j ∈ rest -> j <> i.
Proof.
  intros M Hj ->. pose proof (mq_nodup q l f _ M) as N.
  apply NoDup_app in N as (_ & _ & N). apply NoDup_app in N as (_ & _ & N). by inversion N.
Qed.

Lemma not_waiting (fl : list Z) (j : Z) : mq_ok q l f fl -> j ∈ fl -> j ∉ l.
Proof. intros M Hj. by destruct (flight_fresh q l f fl M j Hj). Qed.

Lemma text_now (i : Z) : text_at s i = msg_text q i.
Proof. unfold text_at. by rewrite Hq. Qed.

(** Nothing but the place changes. *)
Lemma stays (p p' : stage) (f' : list Z) :
  mq_ok q l f' (blocks p' ++ rest) -> stage_ok q (t, p') ->
  act size max flag t (len rest) w (held q (t, p)) rs (seen s t p p') w (held q (t, p')) rs -> moved p p' s.
Proof. intros M P A. exists q, l, f'. by split_and!. Qed.

(** Something changes in the queue, nothing else in the kernel. *)
Lemma changes (p p' : stage) (q' : rt_messagequeue) (l' f' : list Z) :
  mq_ok q' l' f' (blocks p' ++ rest) -> mq_msg_size q' = size -> mq_max_msgs q' = max ->
  untouched q q' rest -> stage_ok q' (t, p') ->
  act size max flag t (len rest) w (held q (t, p)) rs (seen s t p p') (mq_contents q' l') (held q' (t, p')) rs ->
  moved p p' (set_mq mq q' s).
Proof.
  intros M S X U P A. exists q', l', f'. split_and!; try done; [by apply wf_kst_ip|apply set_mq_lookup].
Qed.

Lemma section_send_at (u : bool) (b : list Z) (n : Z) :
  mq_ok q l f rest -> stage_ok q (t, SendAt u b n) ->
  wp (mq_section mq t (SendAt u b n)) (moved (SendAt u b n)) s.
Proof.
  intros M P. cbn in P. pose proof (mq_length q l f rest M) as Len. cbn [mq_section].
  assert (Lw : len w = len l) by (unfold w, mq_contents; by rewrite length_map).
  kstep. eapply wp_get_mq; [exact Hq|]. rewrite Hsize. case_test.
  { kstep. eapply stays; [exact M|done|]. by apply act_refused. }
  kstep. destruct f as [|i f'].
  - eapply wp_take_free_none; [exact Hq|exact M|]. kstep. eapply stays; [exact M|done|].
    apply act_full; [lia|]. cbn in Len. lia.
  - eapply wp_take_free; [exact Hq|exact M|]. intros q1 M1 P1 S1 X1. kstep.
    assert (U : forall j, mq_pool q1 !! j = mq_pool q !! j) by (by rewrite P1).
    eapply changes; [exact M1|congruence|congruence|by intros j _|cbn; lia|].
    rewrite (contents_ext q q1 l) by (intros j _; by apply text_untouched).
    apply act_begun; [lia|]. fold w. cbn [length] in Len. lia.
Qed.

Lemma section_clear (i : Z) (b : list Z) (n : Z) :
  mq_ok q l f (i :: rest) -> stage_ok q (t, Taken false i b n) ->
  wp (mq_section mq t (Taken false i b n)) (moved (Taken false i b n)) s.
Proof.
  intros M P. cbn in P. cbn [mq_section]. kstep.
  eapply wp_clear_next; [exact Hq|exact M|by left|]. intros q1 M1 T1 S1 X1 N1 U1. kstep.
  eapply changes; [exact M1|congruence|congruence| |exact (conj (proj1 P) (conj (proj2 P) N1))|].
  - intros j Hj. apply U1. by apply in_hand.
  - rewrite (contents_ext q q1 l) by (by intros j _). apply act_quiet.
Qed.

Lemma section_fill (u : bool) (i : Z) (b : list Z) (n : Z) (p : stage) :
  p = (if u then Taken true i b n else Cleared i b n) ->
  mq_ok q l f (i :: rest) -> stage_ok q (t, p) -> wp (mq_section mq t p) (moved p) s.
Proof.
  intros E M P.
  assert (Pn : 0 < n <= len b /\ n <= size) by (subst p; destruct u; cbn in P; by destruct_and?).
  assert (Pl : u = false -> last_one q i) by (intros ->; subst p; cbn in P; by destruct_and?).
  assert (Eh : held q (t, p) = [(t, Sending u b n)]) by (subst p; by destruct u).
  assert (Es : seen s t p (Filled u i b n) = None) by (subst p; by destruct u).
  assert (R : wp (_ ← mq_fill mq i b n; mret (Filled u i b n)) (moved p) s);
    [|subst p; by destruct u].
  kstep. eapply wp_fill; [exact Hq|exact M|by left|lia|lia|]. intros q1 M1 T1 S1 X1 N1 B1 U1. kstep.
  eapply changes; [exact M1|congruence|congruence| | |].
  - intros j Hj. apply U1. by apply in_hand.
  - cbn. split; [|intros Hu; unfold last_one; rewrite N1; by apply Pl].
    rewrite B1. apply sent_inserts; [lia|lia|].
    rewrite (msg_text_length q l f (i :: rest)) by (done || set_solver). done.
  - rewrite (contents_ext q q1 l).
    + rewrite Eh, Es. apply act_quiet.
    + intros j Hj. apply T1. by apply (flight_ne q l f (i :: rest)); [|left|].
Qed.

(** The first thread that waits is waked. *)
Lemma wp_wake_reader (q' : rt_messagequeue) (Q : unit -> kst -> Prop) :
  (forall s', wf_kst s' -> i_mqs (ip s') !! mq = Some q' -> ob_objs (ob s') !! Obj mq = Some y ->
     tlist (sc s') (LSuspend mq) = tail rs -> Q tt s') ->
  wp (wake_first (LSuspend mq)) Q (set_mq mq q' s).
Proof.
  intros HQ. unfold wake_first. apply wp_wake; [by apply wf_kst_ip|done|].
  change (sc (set_mq mq q' s)) with (sc s). destruct (tlist (sc s) (LSuspend mq)) as [|v vs] eqn:El.
  - apply HQ; [by apply wf_kst_ip|apply set_mq_lookup|done|exact El].
  - intros s' W' _ T I _ Ca _. apply HQ; [done|by rewrite I; apply set_mq_lookup| |].
    + by rewrite (cm_obj _ _ _ Ca).
    + exact T.
Qed.

Lemma section_link (u : bool) (i : Z) (b : list Z) (n : Z) :
  mq_ok q l f (i :: rest) -> stage_ok q (t, Filled u i b n) ->
  wp (mq_section mq t (Filled u i b n)) (moved (Filled u i b n)) s.
Proof.
  intros M [B Hn]. cbn [fst snd] in *. cbn [mq_section].
  assert (Hj : forall j, j ∈ rest -> j <> i /\ (j ∉ l)).
  { intros j Hj. split; [by apply in_hand|]. apply (not_waiting (i :: rest)); [done|by right]. }
  assert (F : forall q' l', mq_ok q' l' f rest -> same_text q q' -> mq_msg_size q' = mq_msg_size q ->
    mq_max_msgs q' = mq_max_msgs q -> untouched q q' rest ->
    mq_contents q l' = (if u then msg_text q i :: w else w ++ [msg_text q i]) ->
    wp (_ ← wake_first (LSuspend mq); mret (Done RT_EOK b)) (moved (Filled u i b n)) (set_mq mq q' s)).
  { intros q' l' M' T' S' X' U' C'. kstep. apply wp_wake_reader. intros s' W' Hq' Hy' Hl'. kstep.
    exists q', l', f. split_and!; try done; [congruence|congruence|].
    rewrite Hl', (contents_ext q q' l') by (by intros j _). cbn [seen]. rewrite C', text_now. by apply act_put. }
  destruct u; kstep.
  - eapply wp_link_head; [exact Hq|exact M|]. intros q' M' T' S' X' U'.
    eapply F; [exact M'|done..| |done]. intros j Hjr. by apply U', Hj.
  - eapply wp_link_tail; [exact Hq|exact M|by apply Hn|]. intros q' M' T' S' X' U'.
    eapply F; [exact M'|done..| |].
    + intros j Hjr. by apply U', Hj.
    + unfold w, mq_contents. by rewrite map_app.
Qed.

Lemma first_message :
  (l = [] /\ w = []) \/ exists i l', l = i :: l' /\ w = msg_text q i :: mq_contents q l'.
Proof. unfold w. destruct l as [|i l']; [by left|]. right. by exists i, l'. Qed.

(** Receiving, from a place where nothing is in hand. *)
Lemma wp_recv_section (p : stage) (b : list Z) (n time : Z) (th : rt_thread) :
  held q (t, p) = [] -> (forall p', seen s t p p' = seen_receiving s t time p') ->
  mq_ok q l f rest -> caller s t th -> 0 < n <= len b -> time < 2 ^ 31 - 1 ->
  wp (recv_section mq t b n time) (moved p) s.
Proof.
  intros Ep Es M C Hn Ht. pose proof (mk_entry _ _ _ _ M) as En. unfold recv_section.
  kstep. eapply wp_get_mq; [exact Hq|]. destruct (first_message) as [(El & Ew)|(i & l' & El & Ew)]; rewrite El in En.
  - change (mq_entry q = 0) in En. rewrite En, Z.eqb_refl. kstep. unfold mq_recv_loop.
    kstep. eapply wp_get_mq; [exact Hq|]. rewrite En, Z.eqb_refl.
    kstep. eapply wp_in_thread; [exact C|]. kstep. eapply wp_upd_thread; [apply C|].
    pose proof (caller_error s t RT_EOK th C) as C1. destruct (Z.eqb_spec time 0) as [->|Hne].
    + kstep. eapply wp_upd_thread; [apply lookup_insert_eq|]. rewrite set_thread_twice.
      pose proof (caller_error s t (- RT_ETIMEOUT) th C) as C2. kstep. kstep.
      exists q, l, f. rewrite Ep, Es. fold w. rewrite Ew.
      split_and!; try done; [apply C2|apply act_timeout].
    + kstep. eapply wp_get_flag; [exact Hy|]. kstep. rewrite Hyf.
      eapply wp_wait_timed; [exact C1|done|exact Hf|done|]. intros s' B. kstep. kstep.
      exists q, l, f. rewrite Ep, Es. fold w. rewrite Ew.
      split_and!; try done; [apply B| | |].
      * by rewrite (cm_obj _ _ _ (bl_calm _ _ _ _ _ _ _ B)).
      * by rewrite (bl_ip _ _ _ _ _ _ _ B).
      * rewrite (bl_list _ _ _ _ _ _ _ B). apply act_wait; [done|..].
        -- destruct (enqueue_split flag (prio_of (sc (set_thread t (thr_error RT_EOK th) s)))
             (t_current_priority (thr_error RT_EOK th)) t rs) as (x1 & x2 & Ex & Ee).
           change (tlist (sc (set_thread t (thr_error RT_EOK th) s)) (LSuspend mq)) with rs.
           rewrite Ee, Ex. symmetry. apply Permutation_middle.
        -- intros ->. done.
  - rewrite En. rewrite (proj2 (Z.eqb_neq _ _)) by (cbn; lia). kstep.
    rewrite El in M. eapply wp_take_head; [exact Hq|exact M|]. intros q1 M1 P1 S1 X1. kstep.
    assert (U : forall j, mq_pool q1 !! j = mq_pool q !! j) by (by rewrite P1).
    eapply changes; [exact M1|congruence|congruence|by intros j _|exact Hn|]. rewrite Ep, Ew, Es.
    rewrite (contents_ext q q1 l') by (intros j _; by apply text_untouched).
    cbn. rewrite text_now, (text_untouched q q1) by done. apply act_get.
Qed.

Lemma section_recv_at (b : list Z) (n time : Z) (th : rt_thread) :
  mq_ok q l f rest -> stage_ok q (t, RecvAt b n time) -> caller s t th ->
  wp (mq_section mq t (RecvAt b n time)) (moved (RecvAt b n time)) s.
Proof.
  intros M [Hn Ht] C. cbn [mq_section]. kstep. eapply wp_get_mq; [exact Hq|].
  destruct ((mq_entry q =? 0) && (time =? 0)) eqn:E.
  - b2p. pose proof (mk_entry _ _ _ _ M) as En. destruct first_message as [(El & Ew)|(i & l' & El & Ew)]; [|rewrite El in En; cbn in En; lia].
    subst time. kstep. eapply stays; [exact M|done|]. rewrite Ew. apply act_timeout.
  - by apply (wp_recv_section _ b n time th).
Qed.

Lemma section_resume (k : mq_recv_k) (th : rt_thread) :
  mq_ok q l f rest -> stage_ok q (t, Waiting k) -> caller s t th ->
  (0 < kq_timeout k -> u32 (ts_tick (tm s) - kq_tick k) <= 2 ^ 31) ->
  wp (mq_section mq t (Waiting k)) (moved (Waiting k)) s.
Proof.
  intros M (_ & _ & Hn & Ht) C Hd.
  assert (Ee : error_at s t = t_error th) by (unfold error_at; by rewrite (ca_thread _ _ _ C)).
  cbn [mq_section]. kstep. eapply wp_get_thread; [apply C|].
  destruct (Z.eqb_spec (t_error th) RT_EOK) as [E|E]; cbn [negb].
  - unfold rt_tick_get. do 2 kstep. apply (wp_recv_section _ _ _ _ th); try done.
    + intros p'. cbn. rewrite Ee, E. by destruct p'.
    + by apply retime_bound.
  - kstep. eapply stays; [exact M|done|]. cbn. rewrite Ee. rewrite (proj2 (Z.eqb_neq _ _)) by done.
    by apply act_gave_up.
Qed.

Lemma section_read (i : Z) (b : list Z) (n : Z) :
  mq_ok q l f (i :: rest) -> stage_ok q (t, HeadTaken i b n) ->
  wp (mq_section mq t (HeadTaken i b n)) (moved (HeadTaken i b n)) s.
Proof.
  intros M P. cbn in P. destruct (mq_message q l f (i :: rest) M i) as (m & Hm & Hb); [set_solver|].
  assert (Em : msg_text q i = msg_body m) by (unfold msg_text; by rewrite Hm).
  assert (En : (if mq_msg_size q <? n then mq_msg_size q else n) = Z.min n size) by (case_test; lia).
  cbn [mq_section]. kstep. unfold mq_read. kstep. eapply wp_get_mq; [exact Hq|].
  kstep. eapply wp_get_msg; [exact Hm|]. rewrite En.
  eapply wp_lift_ok; [apply memcpy_at_ok; lia|]. kstep. eapply stays; [exact M| |apply act_quiet].
  cbn. rewrite Em. apply sent_inserts; lia.
Qed.

Lemma section_free (i : Z) (b : list Z) (n : Z) (got : list Z) :
  mq_ok q l f (i :: rest) -> stage_ok q (t, Copied i b n got) ->
  wp (mq_section mq t (Copied i b n got)) (moved (Copied i b n got)) s.
Proof.
  intros M P. cbn in P. cbn [mq_section]. kstep.
  eapply wp_put_free; [exact Hq|exact M|]. intros q1 M1 T1 S1 X1 U1. kstep.
  eapply changes; [exact M1|congruence|congruence| |done|].
  - intros j Hj. apply U1. by apply in_hand.
  - rewrite (contents_ext q q1 l) by (by intros j _). by apply act_got.
Qed.

(** Every section of every call. *)
Lemma wp_section (p : stage) :
  mq_ok q l f (blocks p ++ rest) -> stage_ok q (t, p) -> able s (t, p) ->
  wp (mq_section mq t p) (moved p) s.
Proof.
  intros M P A. destruct p as [u b n|[] i b n|i b n|u i b n|b n time|k|i b n|i b n got|r got]; cbn in M.
  - by apply section_send_at.
  - by apply (section_fill true i b n).
  - by apply section_clear.
  - by apply (section_fill false i b n).
  - by apply section_link.
  - destruct A as [th C]. by apply (section_recv_at b n time th).
  - destruct A as [[th C] Hd]. by apply (section_resume k th).
  - by apply section_read.
  - by apply section_free.
  - cbn. kstep. eapply stays; [exact M|done|apply act_quiet].
Qed.

End Step.

(** ** Runs *)

(** The calls that are under way, and the kernel.  A thread begins a call (with the
    arguments the assertions ask for); a section of some call runs; a call that has returned
    is forgotten; and the rest of the system does anything to the kernel but to the queue,
    and takes threads out of its list. *)
Record conf := Conf { calls : list (Z * stage); kern : kst }.

Inductive mstep : conf -> option mevent -> conf -> Prop :=
| m_send t u b n ps s : t ∉ ps.*1 -> 0 < n <= len b ->
    mstep (Conf ps s) None (Conf ((t, SendAt u b n) :: ps) s)
| m_recv t b n time ps s : t ∉ ps.*1 -> 0 < n <= len b -> time < 2 ^ 31 - 1 ->
    mstep (Conf ps s) None (Conf ((t, RecvAt b n time) :: ps) s)
| m_section ps1 t p p' ps2 s s' : able s (t, p) -> mq_section mq t p s = Ok (p', s') ->
    mstep (Conf (ps1 ++ (t, p) :: ps2) s) (seen s t p p') (Conf (ps1 ++ (t, p') :: ps2) s')
| m_return ps1 t r got ps2 s :
    mstep (Conf (ps1 ++ (t, Done r got) :: ps2) s) None (Conf (ps1 ++ ps2) s)
| m_other ps s s' :
    wf_kst s' -> i_mqs (ip s') !! mq = i_mqs (ip s) !! mq ->
    ob_objs (ob s') !! Obj mq = ob_objs (ob s) !! Obj mq ->
    tlist (sc s') (LSuspend mq) `sublist_of` tlist (sc s) (LSuspend mq) ->
    mstep (Conf ps s) (Some (Gone (tlist (sc s') (LSuspend mq)))) (Conf ps s').

Inductive mruns : conf -> list mevent -> conf -> Prop :=
| mn_refl c : mruns c [] c
| mn_step c1 es c2 e c3 : mruns c1 es c2 -> mstep c2 e c3 -> mruns c1 (es ++ option_list e) c3.

Definition does (a : amq) (e : option mevent) (ps : list (Z * stage)) (s : kst) : Prop :=
  exists a', astep size max flag a e a' /\ mq_repr a' ps s.

(** A thread with nothing in hand comes or goes. *)
Lemma act_idle (a : amq) : astep size max flag a None a.
Proof.
  destruct a as [w h rs]. apply (a_act size max flag 0 w [] rs None w [] rs [] h). apply act_quiet.
Qed.

Lemma repr_calls (a : amq) (ps ps' : list (Z * stage)) (s : kst) :
  mq_repr a ps s -> all_blocks ps' = all_blocks ps -> (forall q, all_held q ps' = all_held q ps) ->
  (forall q, Forall (stage_ok q) ps -> Forall (stage_ok q) ps') -> mq_repr a ps' s.
Proof.
  intros [W Hn Hf Hr (q & l & f & Hq & M & S & X & C & H & F)] E1 E2 E3.
  constructor; try done. exists q, l, f. rewrite E1, E2. split_and!; try done. by apply E3.
Qed.

(** Any section of any call can run, and the specification can follow it. *)
Lemma wp_any_section (a : amq) (ps1 ps2 : list (Z * stage)) (t : Z) (p : stage) (s : kst) :
  mq_repr a (ps1 ++ (t, p) :: ps2) s -> able s (t, p) ->
  wp (mq_section mq t p) (fun p' s' => does a (seen s t p p') (ps1 ++ (t, p') :: ps2) s') s.
Proof.
  intros [W Hn (y & Hy & Hyf & Hf) Hr (q & l & f & Hq & M & S & X & C & H & F)] A.
  assert (Pm : forall p', all_blocks (ps1 ++ (t, p') :: ps2) ≡ₚ
    blocks p' ++ all_blocks (ps1 ++ ps2)).
  { intros p'. rewrite !all_blocks_app. change (all_blocks ((t, p') :: ps2)) with (blocks p' ++ all_blocks ps2).
    rewrite !app_assoc. apply Permutation_app_tail, Permutation_app_comm. }
  pose proof (mq_ok_perm _ _ _ _ _ (Pm p) M) as M'.
  apply Forall_app in F as [F1 [Fp F2]%Forall_cons].
  eapply wp_mono; [apply (wp_section s q l f (all_blocks (ps1 ++ ps2)) t y); try done|].
  intros p' s' (q' & l' & f' & W' & Hy' & Hq' & M1 & S' & X' & U & P' & Act).
  destruct (all_untouched q q' (ps1 ++ ps2) U) as [Eh Ef].
  assert (U1 : untouched q q' (all_blocks ps1)).
  { intros j Hj. apply U. rewrite all_blocks_app. set_solver. }
  assert (U2 : untouched q q' (all_blocks ps2)).
  { intros j Hj. apply U. rewrite all_blocks_app. set_solver. }
  destruct (all_untouched q q' ps1 U1) as [Eh1 Ef1], (all_untouched q q' ps2 U2) as [Eh2 Ef2].
  destruct a as [w h rs]. cbn [waiting hands readers] in *. subst w h rs.
  exists (AMq (mq_contents q' l') (all_held q' (ps1 ++ (t, p') :: ps2)) (tlist (sc s') (LSuspend mq))).
  split.
  - rewrite !all_held_app. rewrite Eh1.
    change (all_held ?x ((t, ?y) :: ps2)) with (held x (t, y) ++ all_held x ps2). rewrite Eh2.
    apply a_act with (t := t). rewrite <- all_held_app, length_held. exact Act.
  - constructor; [done|done|by exists y|done|]. exists q', l', f'.
    split_and!; try done.
    + by apply (mq_ok_perm _ _ _ _ _ (Permutation_sym (Pm p'))).
    + apply Forall_app. split; [by apply Ef1|]. constructor; [done|by apply Ef2].
Qed.

Lemma mstep_simulated (a : amq) (c c' : conf) (e : option mevent) :
  mq_repr a (calls c) (kern c) -> mstep c e c' -> does a e (calls c') (kern c').
Proof.
  intros R St. destruct St as [t u b n ps s _ Hn|t b n time ps s _ Hn Ht|ps1 t p p' ps2 s s' A E|
    ps1 t r got ps2 s|ps s s' W E1 E2 E3]; cbn [calls kern] in *.
  - exists a. split; [apply act_idle|]. apply (repr_calls _ _ _ _ R); try done.
    intros q F. by constructor.
  - exists a. split; [apply act_idle|]. apply (repr_calls _ _ _ _ R); try done.
    intros q F. by constructor.
  - pose proof (wp_any_section a ps1 ps2 t p s R A) as P. unfold wp in P. by rewrite E in P.
  - exists a. split; [apply act_idle|]. apply (repr_calls _ _ _ _ R).
    + by rewrite !all_blocks_app.
    + intros q. by rewrite !all_held_app.
    + intros q [F1 [_ F2]%Forall_cons]%Forall_app. by apply Forall_app.
  - destruct R as [_ Hn Hf Hr Hq]. destruct a as [w h rs]. cbn in *. subst rs.
    eexists. split; [by apply a_gone|]. constructor; try done; by rewrite ?E1, ?E2.
Qed.

Lemma mruns_simulated (a0 : amq) (c0 c : conf) (es : list mevent) :
  mq_repr a0 (calls c0) (kern c0) -> mruns c0 es c ->
  exists a, aruns size max flag a0 es a /\ mq_repr a (calls c) (kern c).
Proof.
  intros O. induction 1 as [c|c1 es c2 e c3 R IH St]; [exists a0; split; [constructor|done]|].
  destruct (IH O) as (a & Ra & Oa). destruct (mstep_simulated a c2 c3 e Oa St) as (a' & S' & O').
  exists a'. split; [by eapply ar_step|done].
Qed.

(** C26: refinement.  Whatever threads are in the middle of [rt_mq_send], [rt_mq_urgent] and
    [rt_mq_recv] on a message queue, and in whatever order their sections come, between which
    a message is in the hands of one of them: the message queue does what the abstract queue
    does.  So a payload that is received is one that was sent, its bytes those that the
    sender gave, whatever other threads did between; none is lost and none comes twice, they
    come in the order in which they were linked in when none is urgent; never more than
    [max] of them wait or are in somebody's hands, a sender is refused exactly then, each one
    that is put in wakes the first reader; and the next section of no call faults, asserts or
    hangs. *)
Theorem mq_threads_refine_queue (a0 : amq) (c0 c : conf) (es : list mevent) :
  mq_repr a0 (calls c0) (kern c0) -> mruns c0 es c ->
  exists a, aruns size max flag a0 es a /\ mq_repr a (calls c) (kern c) /\
    waiting a0 ++ all_put es ≡ₚ all_taken es ++ waiting a /\
    (Forall ordinary es -> waiting a0 ++ all_put es = all_taken es ++ waiting a) /\
    len (waiting a) + len (hands a) <= max /\
    (forall ps1 t p ps2, calls c = ps1 ++ (t, p) :: ps2 -> able (kern c) (t, p) ->
       wp (mq_section mq t p)
         (fun p' s' => does a (seen (kern c) t p p') (ps1 ++ (t, p') :: ps2) s') (kern c)).
Proof.
  intros O0 R. destruct (mruns_simulated a0 c0 c es O0 R) as (a & Ra & O). exists a.
  split; [done|]. split; [done|]. split; [by eapply mq_runs_all|].
  split; [by eapply mq_runs_stream|]. split.
  { destruct O as [_ _ _ _ (q & l & f & _ & M & _ & <- & <- & -> & _)].
    rewrite length_held. unfold mq_contents. rewrite length_map.
    pose proof (mq_length q l f _ M). lia. }
  intros ps1 t p ps2 E A. rewrite E in O. by apply wp_any_section.
Qed.

End Spec.

(** ** A run

    A queue of three messages with one payload in it.  Two senders, one of them in an
    interrupt, take a message each and copy, the second one links its message first; a
    receiver takes the payload that waited out, and while it copies there is no message for a
    third sender; then the first sender links its message and the receiver gives its back. *)

Module Demo.

Definition run_at (j : nat) (c : conf) : list mevent * conf :=
  match calls c !! j with
  | Some (t, p) =>
      match mq_section a_mq t p (kern c) with
      | Ok (p', s') => (option_list (seen a_mq (kern c) t p p'), Conf (<[j := (t, p')]> (calls c)) s')
      | _ => ([], c)
      end
  | None => ([], c)
  end.

Definition begin (t : Z) (p : stage) (c : conf) : conf := Conf ((t, p) :: calls c) (kern c).

Lemma run_on (c0 c : conf) (es : list mevent) (j : nat) (t : Z) (p : stage) :
  mruns a_mq c0 es c -> calls c !! j = Some (t, p) -> able (kern c) (t, p) ->
  mruns a_mq c0 (es ++ (run_at j c).1) (run_at j c).2.
Proof.
  intros R Hj A. unfold run_at. rewrite Hj.
  destruct (mq_section a_mq t p (kern c)) as [[p' s']| |] eqn:E; cbn; rewrite ?app_nil_r; try done.
  eapply mn_step; [exact R|]. destruct c as [ps s]. cbn [calls kern] in *.
  rewrite (insert_take_drop ps j (t, p')) by (by eapply lookup_lt_Some).
  rewrite <- (take_drop_middle ps j (t, p) Hj) at 1. by apply m_section.
Qed.

Lemma begin_send (c0 c : conf) (es : list mevent) (t : Z) (u : bool) (b : list Z) (n : Z) :
  mruns a_mq c0 es c -> t ∉ (calls c).*1 -> 0 < n <= len b ->
  mruns a_mq c0 es (begin t (SendAt u b n) c).
Proof.
  intros R Ht Hn. pose proof (mn_step a_mq c0 es c None (begin t (SendAt u b n) c) R) as S.
  cbn in S. rewrite app_nil_r in S. apply S. destruct c. by apply m_send.
Qed.

Lemma begin_recv (c0 c : conf) (es : list mevent) (t : Z) (b : list Z) (n time : Z) :
  mruns a_mq c0 es c -> t ∉ (calls c).*1 -> 0 < n <= len b -> time < 2 ^ 31 - 1 ->
  mruns a_mq c0 es (begin t (RecvAt b n time) c).
Proof.
  intros R Ht Hn Hm. pose proof (mn_step a_mq c0 es c None (begin t (RecvAt b n time) c) R) as S.
  cbn in S. rewrite app_nil_r in S. apply S. destruct c. by apply m_recv.
Qed.

Definition an_interrupt : Z := 0x10.
Definition third : Z := 0x20.
Definition start : conf := Conf [] with_mq.
Definition c1 : conf := begin peer_t (SendAt false [5; 6] 2) (begin an_interrupt (SendAt false [7; 8; 9; 10] 4) start).
Definition c2 : conf := (run_at 1 c1).2.     (* a message for the interrupt, *)
Definition c3 : conf := (run_at 0 c2).2.     (* and one for the thread *)
Definition c4 : conf := (run_at 0 c3).2.
Definition c5 : conf := (run_at 0 c4).2.     (* the thread has copied *)
Definition c6 : conf := (run_at 1 c5).2.
Definition c7 : conf := (run_at 0 c6).2.     (* and links *)
Definition c8 : conf := begin main_t (RecvAt [0; 0; 0; 0; 0; 0] 6 0) c7.
Definition c9 : conf := (run_at 0 c8).2.     (* the receiver takes the first payload *)
Definition c10 : conf := begin third (SendAt true [1] 1) c9.
Definition c11 : conf := (run_at 0 c10).2.   (* no message is free *)
Definition c12 : conf := (run_at 3 c11).2.
Definition c13 : conf := (run_at 3 c12).2.   (* the interrupt links *)
Definition c14 : conf := (run_at 1 c13).2.
Definition c15 : conf := (run_at 1 c14).2.   (* and the receiver is done *)

Definition run_events : list mevent :=
  [Begun an_interrupt false [7; 8; 9; 10] 4; Begun peer_t false [5; 6] 2;
   Put peer_t false [5; 6; 0; 0] RT_EOK; Get main_t [1; 2; 3; 0];
   NotSent third 1 (- RT_EFULL); Put an_interrupt false [7; 8; 9; 10] RT_EOK;
   Got main_t [1; 2; 3; 0; 0; 0] RT_EOK].

Ltac goes := first [eapply run_on; [|evaluate|first [exact I|idtac]]
                   |apply begin_send; [|apply (bool_decide_unpack _); evaluate|cbn; lia]
                   |apply begin_recv; [|apply (bool_decide_unpack _); evaluate|cbn; lia|lia]].

Lemma main_calls : exists th, caller (kern c8) main_t th.
Proof.
  apply (caller_check _ _ idle_t); [apply wf_check; evaluate|evaluate|evaluate|discriminate|evaluate..].
Qed.

Lemma a_run : mruns a_mq start run_events c15.
Proof.
  assert (R : exists es, mruns a_mq start es c15 /\ es = run_events); [|by destruct R as (es & R & <-)].
  eexists. split; [unfold c15; goes|].
  - unfold c14; goes. unfold c13; goes. unfold c12; goes. unfold c11; goes. unfold c10; goes. unfold c9; goes.
    2: { exact main_calls. }
    unfold c8; goes. unfold c7; goes. unfold c6; goes. unfold c5; goes. unfold c4; goes. unfold c3; goes.
    unfold c2; goes. unfold c1; goes. goes. apply mn_refl.
  - evaluate.
Qed.

Lemma start_repr : mq_repr a_mq 4 3 RT_IPC_FLAG_FIFO (AMq [[1; 2; 3; 0]] [] []) [] with_mq.
Proof.
  destruct (lookup_flag with_mq (Obj a_mq) RT_IPC_FLAG_FIFO) as (y & Hy & Hf); [evaluate|].
  constructor; [exact wf_with_mq|discriminate| |evaluate|].
  - exists y. split; [exact Hy|]. split; [exact Hf|by left].
  - exists (mq_one (Some 1)), [2], [1; 0]. split; [evaluate|]. split; [exact mq_with_ok|].
    by split_and!.
Qed.

Lemma mq_threads_refine_queue_witness :
  exists a, aruns 4 3 RT_IPC_FLAG_FIFO (AMq [[1; 2; 3; 0]] [] []) run_events a /\
    waiting a = [[5; 6; 0; 0]; [7; 8; 9; 10]] /\ len (hands a) <= 1.
Proof.
  destruct (mq_threads_refine_queue a_mq 4 3 RT_IPC_FLAG_FIFO (AMq [[1; 2; 3; 0]] [] []) start c15 run_events)
    as (a & R & _ & _ & E & L & _).
  - exact start_repr.
  - exact a_run.
  - exists a. split; [exact R|]. assert (O : Forall ordinary run_events) by (repeat constructor).
    specialize (E O). injection E as E. split; [by rewrite <- E|]. rewrite <- E in L. cbn in *. lia.
Defined.

End Demo.
