(* ===== verification/MemPool.v ===== *)
(** * Memory pools (Kernel/mempool.c)

    A pool is cut into blocks; the word in front of a block links it in the free
    list or, while the block is in use, points to its pool. *)

From Stdlib Require Import Lia.
From S2P Require Import Prelude KService Heap KState Scheduler Object Timer Thread Ipc.

(** ** Words *)

Definition word_val (w : mp_word) : Z := match w with MpNext b => b | MpPool p => p end.

Definition get_word (a : Z) : K mp_word :=
  m ← gets (fun s => i_mpmem (ip s)); lift (deref (m !! a)).

(** A store to the pool that starts at [start]; the pool owns [size] bytes. *)
Definition put_word (start size a : Z) (w : mp_word) : K unit :=
  if (start <=? a) && (a + 4 <=? start + size)
  then modify (upd_ip (fun c => with_mpmem (<[a := w]> (i_mpmem c)) c))
  else kfault.

(** [for (offset = 0; offset < block_total_count; offset ++)] *)
Fixpoint mp_link (n : nat) (offset start size stride : Z) : K unit :=
  match n with
  | O => mret tt
  | S n =>
      _ ← put_word start size (start + offset * stride) (MpNext (start + (offset + 1) * stride));
      mp_link n (offset + 1) start size stride
  end.

(** The loop and the store behind it. *)
Definition mp_format (start size stride count : Z) : K unit :=
  _ ← mp_link (Z.to_nat count) 0 start size stride;
  put_word start size (start + (count - 1) * stride) (MpNext RT_NULL).

(** ** Operations *)

Definition rt_mp_init (mp : Z) (name : list Z) (start size block_size : Z) : K Z :=
  _ ← kassert (negb (mp =? RT_NULL));
  _ ← rt_object_init (Obj mp) RT_Object_Class_MemPool name;
  let size := RT_ALIGN_DOWN size RT_ALIGN_SIZE in
  let block_size := RT_ALIGN block_size RT_ALIGN_SIZE in
  let count := size / (block_size + 4) in
  _ ← list_init (LSuspend mp);
  _ ← mp_format start size (block_size + 4) count;
  _ ← put_mp mp (RtMempool start size block_size start count count 0);
  mret RT_EOK.

(** As [rt_ipc_list_resume_all], with the count of waiting threads. *)
Fixpoint mp_resume_all (fuel : nat) (mp : Z) : K unit :=
  e ← rt_list_isempty (LSuspend mp);
  if (e : bool) then mret tt else
  match fuel with
  | O => hang
  | S fuel =>
      t ← first_entry (LSuspend mp);
      _ ← upd_thread t (thr_error (- RT_ERROR));
      _ ← rt_thread_resume t;
      x ← get_mp mp;
      _ ← put_mp mp (RtMempool (mp_start x) (mp_size x) (mp_block_size x) (mp_block_list x)
            (mp_total x) (mp_free x) (u32 (mp_suspend_count x - 1)));
      mp_resume_all fuel mp
  end.

Definition rt_mp_detach (mp : Z) : K Z :=
  _ ← kassert (negb (mp =? RT_NULL));
  x ← get_list (LSuspend mp);
  _ ← mp_resume_all (length x) mp;
  _ ← rt_object_detach (Obj mp);
  mret RT_EOK.

Definition rt_mp_create (name : list Z) (block_count block_size : Z) : K Z :=
  _ ← RT_DEBUG_NOT_IN_INTERRUPT;
  mp ← rt_object_allocate RT_Object_Class_MemPool name;
  if mp =? RT_NULL then mret RT_NULL else
  let block_size := RT_ALIGN block_size RT_ALIGN_SIZE in
  let size := u32 ((block_size + 4) * block_count) in
  start ← RT_KERNEL_MALLOC size;
  if start =? RT_NULL then
    _ ← rt_object_delete mp; mret RT_NULL
  else
    _ ← list_init (LSuspend mp);
    _ ← mp_format start size (block_size + 4) block_count;
    _ ← put_mp mp (RtMempool start size block_size start block_count block_count 0);
    mret mp.

Definition rt_mp_delete (mp : Z) : K Z :=
  _ ← RT_DEBUG_NOT_IN_INTERRUPT;
  _ ← kassert (negb (mp =? RT_NULL));
  x ← get_list (LSuspend mp);
  _ ← mp_resume_all (length x) mp;
  p ← get_mp mp;
  _ ← RT_KERNEL_FREE (mp_start p);
  _ ← rt_object_delete mp;
  mret RT_EOK.

Record mp_alloc_k := MpAllocK { ka_mp : Z; ka_time : Z; ka_before : Z; ka_thread : Z }.

(** The loop of [rt_mp_alloc] and what follows it. *)
Definition mp_alloc_loop (mp time thread : Z) : K (outcome Z mp_alloc_k) :=
  x ← get_mp mp;
  if mp_free x =? 0 then
    if time =? 0 then
      _ ← rt_set_errno (- RT_ETIMEOUT);
      mret (Return RT_NULL)
    else
    _ ← RT_DEBUG_NOT_IN_INTERRUPT;
    _ ← upd_thread thread (thr_error RT_EOK);
    _ ← rt_thread_suspend thread;
    _ ← tlist_push_front (LSuspend mp) thread;
    _ ← put_mp mp (RtMempool (mp_start x) (mp_size x) (mp_block_size x) (mp_block_list x)
          (mp_total x) (mp_free x) (u32 (mp_suspend_count x + 1)));
    before_sleep ← (if 0 <? time then
                      tick ← rt_tick_get;
                      _ ← rt_timer_control (ThreadTimer thread) RT_TIMER_CTRL_SET_TIME time;
                      _ ← rt_timer_start (ThreadTimer thread);
                      mret tick
                    else mret 0);
    _ ← rt_schedule;
    mret (Wait (MpAllocK mp time before_sleep thread))
  else
    let block_ptr := mp_block_list x in
    _ ← kassert (negb (block_ptr =? RT_NULL));
    w ← get_word block_ptr;
    _ ← put_mp mp (RtMempool (mp_start x) (mp_size x) (mp_block_size x) (word_val w)
          (mp_total x) (u32 (mp_free x - 1)) (mp_suspend_count x));
    _ ← put_word (mp_start x) (mp_size x) block_ptr (MpPool mp);
    mret (Return (block_ptr + 4)).

Definition rt_mp_alloc (mp time : Z) : K (outcome Z mp_alloc_k) :=
  thread ← rt_thread_self;
  mp_alloc_loop mp time thread.
Definition rt_mp_alloc_resume (k : mp_alloc_k) : K (outcome Z mp_alloc_k) :=
  th ← get_thread (ka_thread k);
  if negb (t_error th =? RT_EOK) then mret (Return RT_NULL) else
  tick ← rt_tick_get;
  let time :=
    if 0 <? ka_time k then
      let t := s32 (ka_time k - u32 (tick - ka_before k)) in if t <? 0 then 0 else t
    else ka_time k in
  mp_alloc_loop (ka_mp k) time (ka_thread k).

Definition rt_mp_free (block : Z) : K unit :=
  let block_ptr := block - 4 in
  w ← get_word block_ptr;
  let mp := word_val w in
  x ← get_mp mp;
  _ ← put_word (mp_start x) (mp_size x) block_ptr (MpNext (mp_block_list x));
  _ ← put_mp mp (RtMempool (mp_start x) (mp_size x) (mp_block_size x) block_ptr
        (mp_total x) (u32 (mp_free x + 1)) (mp_suspend_count x));
  if 0 <? mp_suspend_count x then
    thread ← first_entry (LSuspend mp);
    _ ← upd_thread thread (thr_error RT_EOK);
    _ ← rt_thread_resume thread;
    _ ← put_mp mp (RtMempool (mp_start x) (mp_size x) (mp_block_size x) block_ptr
          (mp_total x) (u32 (mp_free x + 1)) (u32 (mp_suspend_count x - 1)));
    rt_schedule
  else mret tt.
