(* ===== verification/MemPoolSpec.v ===== *)
(** * What memory pools do

    The free list inside the blocks, its invariant, and allocation and release of
    blocks on a running kernel. *)

From Stdlib Require Import Lia.
From S2P Require Import Prelude KService Heap KState Scheduler Object Timer Thread.
From S2P Require Import Invariant Sample ThreadSpec Clock Ipc IpcSpec MemPool.

(** ** The invariant *)

(** The blocks [l] are linked from [h] on. *)
Fixpoint free_chain (m : gmap Z mp_word) (h : Z) (l : list Z) : Prop :=
  match l with
  | [] => h = RT_NULL
  | b :: l => h = b /\ exists w, m !! b = Some w /\ free_chain m (word_val w) l
  end.

Lemma free_chain_insert (m : gmap Z mp_word) (h a : Z) (w : mp_word) (l : list Z) :
  ~ (a ∈ l) -> free_chain m h l -> free_chain (<[a := w]> m) h l.
Proof.
  revert h. induction l as [|b l IH]; intros h Hn; cbn; [done|].
  intros (-> & w' & Hw & Hc). split; [done|]. exists w'.
  rewrite lookup_insert_ne by set_solver. split; [done|]. apply IH; [set_solver|done].
Qed.

(** The addresses of the blocks. *)
Definition mp_blocks (x : rt_mempool) : list Z :=
  map (fun i => mp_start x + i * (mp_block_size x + 4)) (seqZ 0 (mp_total x)).

(** [free]: the free list; [used]: the blocks given out, whose first word is the
    address [mp] of the pool. *)
Record mp_ok (mp : Z) (m : gmap Z mp_word) (x : rt_mempool) (free used : list Z) : Prop := {
  po_free : free_chain m (mp_block_list x) free;
  po_used : forall b, b ∈ used -> m !! b = Some (MpPool mp);
  po_perm : free ++ used ≡ₚ mp_blocks x;
  po_count : mp_free x = Z.of_nat (length free);
  po_start : 0 < mp_start x;
  po_block : 0 <= mp_block_size x;
  po_size : mp_total x * (mp_block_size x + 4) <= mp_size x;
  po_total : 0 <= mp_total x < 2 ^ 32;
}.

Section Pool.
Variables (mp : Z) (m : gmap Z mp_word) (x : rt_mempool) (free used : list Z).
Hypothesis M : mp_ok mp m x free used.

Lemma block_range (b : Z) : b ∈ free ++ used -> mp_start x <= b /\ b + 4 <= mp_start x + mp_size x.
Proof.
  rewrite (po_perm _ _ _ _ _ M). unfold mp_blocks. intros (i & -> & Hi)%list_elem_of_fmap.
  apply elem_of_seqZ in Hi. pose proof (po_block _ _ _ _ _ M). pose proof (po_size _ _ _ _ _ M).
  nia.
Qed.

Lemma blocks_nodup : NoDup (free ++ used).
Proof.
  rewrite (po_perm _ _ _ _ _ M). unfold mp_blocks. apply NoDup_fmap_2_strong; [|apply NoDup_seqZ].
  intros i j _ _ E. pose proof (po_block _ _ _ _ _ M). nia.
Qed.

Lemma pool_count : Z.of_nat (length free) + Z.of_nat (length used) = mp_total x.
Proof.
  pose proof (Permutation_length (po_perm _ _ _ _ _ M)) as P. unfold mp_blocks in P.
  rewrite length_map, length_app, length_seqZ in P. pose proof (po_total _ _ _ _ _ M). lia.
Qed.

End Pool.

(** The pool with another free list, number of free blocks, or number of waiting
    threads. *)
Definition mp_lists (block_list nfree waiting : Z) (x : rt_mempool) : rt_mempool :=
  RtMempool (mp_start x) (mp_size x) (mp_block_size x) block_list (mp_total x) nfree waiting.

Lemma mp_ok_alloc (mp : Z) (m : gmap Z mp_word) (x : rt_mempool) (b n : Z) (free used : list Z)
    (w : mp_word) :
  mp_ok mp m x (b :: free) used -> m !! b = Some w ->
  mp_ok mp (<[b := MpPool mp]> m) (mp_lists (word_val w) (mp_free x - 1) n x) free (b :: used).
Proof.
  intros M Hw. pose proof (blocks_nodup _ _ _ _ _ M) as N. cbn in N.
  apply NoDup_cons in N as [N _]. destruct M as [M1 M2 M3 M4 M5 M6 M7 M8].
  destruct M1 as (_ & w' & Hw' & Hc). simplify_eq. constructor; cbn; try done.
  - apply free_chain_insert; [set_solver|done].
  - intros c Hc'. rewrite lookup_insert. case_decide; [done|]. apply M2. set_solver.
  - rewrite <- Permutation_middle. exact M3.
  - rewrite M4. cbn. lia.
Qed.

Lemma mp_ok_free (mp : Z) (m : gmap Z mp_word) (x : rt_mempool) (b n : Z) (free used used' : list Z) :
  mp_ok mp m x free used -> used ≡ₚ b :: used' ->
  mp_ok mp (<[b := MpNext (mp_block_list x)]> m) (mp_lists b (mp_free x + 1) n x) (b :: free) used'.
Proof.
  intros M P. pose proof (blocks_nodup _ _ _ _ _ M) as N. rewrite P in N.
  rewrite <- Permutation_middle in N. apply NoDup_cons in N as [N _].
  destruct M as [M1 M2 M3 M4 M5 M6 M7 M8]. constructor; cbn; try done.
  - split; [done|]. eexists. rewrite lookup_insert_eq. split; [done|].
    apply free_chain_insert; [set_solver|done].
  - intros c Hc. rewrite lookup_insert_ne by set_solver. apply M2. rewrite P. by right.
  - rewrite Permutation_middle, <- P. exact M3.
  - rewrite M4. lia.
Qed.

(** ** The accessors *)

Definition set_mp (mp : Z) (x : rt_mempool) (s : kst) : kst :=
  upd_ip (fun c => with_mps (<[mp := x]> (i_mps c)) c) s.
Definition set_word (a : Z) (w : mp_word) (s : kst) : kst :=
  upd_ip (fun c => with_mpmem (<[a := w]> (i_mpmem c)) c) s.

Lemma wp_get_mp (a : Z) (x : rt_mempool) (Q : rt_mempool -> kst -> Prop) (s : kst) :
  i_mps (ip s) !! a = Some x -> Q x s -> wp (get_mp a) Q s.
Proof. intros E H. unfold get_mp. by eapply wp_bind, wp_gets, wp_lift. Qed.

Lemma wp_get_word (a : Z) (w : mp_word) (Q : mp_word -> kst -> Prop) (s : kst) :
  i_mpmem (ip s) !! a = Some w -> Q w s -> wp (get_word a) Q s.
Proof. intros E H. unfold get_word. by eapply wp_bind, wp_gets, wp_lift. Qed.

Lemma wp_put_word (start size a : Z) (w : mp_word) (Q : unit -> kst -> Prop) (s : kst) :
  start <= a -> a + 4 <= start + size -> Q tt (set_word a w s) ->
  wp (put_word start size a w) Q s.
Proof. intros H1 H2 HQ. unfold put_word. test_true. test_true. cbn [andb]. by kstep. Qed.

(** ** Waiting for a block *)

(** The caller is the first in the list, and it is counted. *)
Definition mp_waiting (mp t : Z) (th : rt_thread) (x : rt_mempool) (s : kst) : kst :=
  set_mp mp (mp_lists (mp_block_list x) (mp_free x) (u32 (mp_suspend_count x + 1)) x)
    (list_added (LSuspend mp) (t :: tlist (sc s) (LSuspend mp)) (suspended t th s)).

Definition mp_waiting_timed (mp t time : Z) (th : rt_thread) (x : rt_mempool) (s : kst) : kst :=
  if 0 <? time then armed t time (mp_waiting mp t th x s) else mp_waiting mp t th x s.

(** The caller waits and another thread runs. *)
Record mp_blocked (mp t time : Z) (th : rt_thread) (x : rt_mempool) (s s' : kst) : Prop := {
  pb_wf : wf_kst s';
  pb_list : tlist (sc s') (LSuspend mp) = t :: tlist (sc s) (LSuspend mp);
  pb_others : forall l, l <> LSuspend mp -> tlist (sc s') l = remove_tid t (tlist (sc s) l);
  pb_timer : if 0 <? time
    then ThreadTimer t ∈ trow (tm s') /\ remaining (tm s') (ThreadTimer t) = time
    else ~ (ThreadTimer t ∈ trow (tm s'));
  pb_next : (exists p, highest (sc s') p (s_current (sc s'))) /\ s_current (sc s') <> t;
  pb_pool : i_mps (ip s') !! mp =
    Some (mp_lists (mp_block_list x) (mp_free x) (u32 (mp_suspend_count x + 1)) x);
  pb_mem : i_mpmem (ip s') = i_mpmem (ip s);
}.

Section Waiting.
Variables (s : kst) (mp t time : Z) (th : rt_thread) (x : rt_mempool).
Hypothesis C : caller s t th.
Hypothesis Htime : time < 2 ^ 31 - 1.

Let s1 := mp_waiting mp t th x s.

Lemma mp_waiting_lookup : s_threads (sc s1) !! t = Some (thr_stat RT_THREAD_SUSPEND th).
Proof.
  destruct (suspended_moved s t th (ca_wf _ _ _ C) (ca_thread _ _ _ C) (ca_ready _ _ _ C)) as [A _].
  exact (moved_lookup _ _ _ _ _ A).
Qed.

Lemma wf_mp_waiting : wf_kst s1.
Proof.
  pose proof C as [W _ Ht Hs _ _ _]. destruct (suspended_moved s t th W Ht Hs) as [A W1].
  apply wf_kst_ip. apply (wf_list_added _ (LSuspend mp) [] (tlist (sc s) (LSuspend mp)) t
    (thr_stat RT_THREAD_SUSPEND th)); try done.
  - by apply suspended_list.
  - by eapply moved_lookup.
  - by eapply moved_unlinked.
Qed.

Lemma mp_waiting_lists (l : lid) :
  tlist (sc s1) l = if decide (l = LSuspend mp) then t :: tlist (sc s) l
                    else remove_tid t (tlist (sc s) l).
Proof.
  unfold s1, mp_waiting. cbn [sc set_mp list_added upd_ip upd_sc].
  rewrite (tlist_insert (sc (suspended t th s))).
  case_decide; case_decide; subst; try done. apply suspended_lists.
Qed.

Lemma wf_mp_waiting_timed : wf_kst (mp_waiting_timed mp t time th x s).
Proof.
  unfold mp_waiting_timed. case_test; [|apply wf_mp_waiting].
  by apply (wf_armed _ t time _ wf_mp_waiting mp_waiting_lookup); [|lia].
Qed.

Lemma mp_timed_same :
  sc (mp_waiting_timed mp t time th x s) = sc s1 /\ ip (mp_waiting_timed mp t time th x s) = ip s1.
Proof.
  unfold mp_waiting_timed. case_test; [|done].
  by destruct (armed_same (mp_waiting mp t th x s) t time) as (E1 & E2 & _).
Qed.

Lemma mp_waiting_timer :
  if 0 <? time
  then ThreadTimer t ∈ trow (tm (mp_waiting_timed mp t time th x s)) /\
       remaining (tm (mp_waiting_timed mp t time th x s)) (ThreadTimer t) = time
  else ThreadTimer t ∉ trow (tm (mp_waiting_timed mp t time th x s)).
Proof.
  unfold mp_waiting_timed. case_test; [|apply stopped_trow, C].
  by apply (armed_remaining _ t time _ wf_mp_waiting mp_waiting_lookup); [|lia].
Qed.

Lemma mp_waiting_blocked (s' : kst) :
  wf_kst s' -> rescheduled (mp_waiting_timed mp t time th x s) s' -> mp_blocked mp t time th x s s'.
Proof.
  intros W' R. destruct (rescheduled_same _ _ R) as (_ & E2 & _ & _ & _ & E3 & _ & E4 & _).
  destruct mp_timed_same as [Esc Eip]. pose proof mp_waiting_timer as T.
  constructor; rewrite ?E3, ?E4, ?Eip; try done.
  - by rewrite E2, Esc, mp_waiting_lists, decide_True.
  - intros l Hne. by rewrite E2, Esc, mp_waiting_lists, decide_False.
  - apply (rescheduled_next _ _ t R).
    + rewrite Esc. unfold s1, mp_waiting. cbn. rewrite stopped_sc. unfold unready, ready_del.
      case_bool_decide; apply C.
    + intros p. rewrite Esc, mp_waiting_lists, decide_False by done. rewrite elem_of_remove_tid. tauto.
  - unfold s1, mp_waiting. cbn. apply lookup_insert_eq.
  - unfold s1, mp_waiting. cbn. by destruct (stopped_same s (ThreadTimer t)) as (_ & -> & _).
Qed.

Lemma wp_mp_wait (Q : outcome Z mp_alloc_k -> kst -> Prop) :
  (forall s', mp_blocked mp t time th x s s' ->
     Q (Wait (MpAllocK mp time (if 0 <? time then ts_tick (tm s) else 0) t)) s') ->
  wp (_ ← rt_thread_suspend t;
      _ ← tlist_push_front (LSuspend mp) t;
      _ ← put_mp mp (RtMempool (mp_start x) (mp_size x) (mp_block_size x) (mp_block_list x)
            (mp_total x) (mp_free x) (u32 (mp_suspend_count x + 1)));
      before_sleep ← (if 0 <? time then
                        tick ← rt_tick_get;
                        _ ← rt_timer_control (ThreadTimer t) RT_TIMER_CTRL_SET_TIME time;
                        _ ← rt_timer_start (ThreadTimer t);
                        mret tick
                      else mret 0);
      _ ← rt_schedule;
      mret (Wait (MpAllocK mp time before_sleep t))) Q s.
Proof.
  intros HQ. pose proof C as [W Hc Ht Hs Ho Hn Hk].
  destruct (suspended_moved s t th W Ht Hs) as [A W1].
  kstep. eapply wp_suspend; [done..|]. kstep. apply wp_push_front; [by eapply moved_unlinked|].
  rewrite (suspended_list s (LSuspend mp) t th) by done.
  kstep. apply wp_modify. change (wp (before_sleep ← (if 0 <? time then
      tick ← rt_tick_get; _ ← rt_timer_control (ThreadTimer t) RT_TIMER_CTRL_SET_TIME time;
      _ ← rt_timer_start (ThreadTimer t); mret tick else mret 0);
    _ ← rt_schedule; mret (Wait (MpAllocK mp time before_sleep t))) Q s1).
  assert (R : forall b, b = (if 0 <? time then ts_tick (tm s) else 0) ->
    wp (_ ← rt_schedule; mret (Wait (MpAllocK mp time b t))) Q (mp_waiting_timed mp t time th x s)).
  { intros b ->. kstep. apply wp_reschedule; [apply wf_mp_waiting_timed| |].
    - destruct mp_timed_same as [E _]. rewrite E. apply (other_someone t).
      exact (other_ready_moved _ _ _ _ _ A Ho).
    - intros s' W' R. kstep. apply HQ. by apply mp_waiting_blocked. }
  unfold mp_waiting_timed in R. kstep. destruct (0 <? time) eqn:Et; b2p.
  - do 2 kstep. eapply (wp_arm _ t time _ wf_mp_waiting mp_waiting_lookup); [done|lia|].
    kstep. apply R. cbn. apply (stopped_same s (ThreadTimer t)).
  - kstep. by apply R.
Qed.

End Waiting.

(** ** The calls *)

(** C28: [rt_mp_alloc] gives the first free block, which leaves the free list and
    is marked with the address of its pool, and nothing else changes; without a
    free block it fails at once with errno -RT_ETIMEOUT when it may not wait;
    otherwise the caller waits at the head of the waiting list and is counted,
    with its timer running for a positive time, and another thread runs. *)
Theorem rt_mp_alloc_ok (s : kst) (t mp time : Z) (th : rt_thread) (x : rt_mempool)
    (free used : list Z) :
  caller s t th -> i_mps (ip s) !! mp = Some x -> mp_ok mp (i_mpmem (ip s)) x free used ->
  time < 2 ^ 31 - 1 ->
  wp (rt_mp_alloc mp time) (fun r s' =>
    match free with
    | b :: free => r = Return (b + 4) /\ sc s' = sc s /\ tm s' = tm s /\ ob s' = ob s /\
        exists x', i_mps (ip s') !! mp = Some x' /\
          mp_ok mp (i_mpmem (ip s')) x' free (b :: used) /\ mp_suspend_count x' = mp_suspend_count x
    | [] => if time =? 0
        then r = Return RT_NULL /\ s' = set_thread t (thr_error (- RT_ETIMEOUT) th) s
        else r = Wait (MpAllocK mp time (if 0 <? time then ts_tick (tm s) else 0) t) /\
          mp_blocked mp t time (thr_error RT_EOK th) x (set_thread t (thr_error RT_EOK th) s) s'
    end) s.
Proof.
  intros C Hx M Htime. pose proof C as [W Hc Ht Hs Ho Hn Hk].
  pose proof (pool_count _ _ _ _ _ M) as Len. pose proof (po_total _ _ _ _ _ M) as Tot.
  unfold rt_mp_alloc. do 2 kstep. rewrite Hc. unfold mp_alloc_loop. kstep.
  eapply wp_get_mp; [exact Hx|].
  pose proof (po_count _ _ _ _ _ M) as Cnt.
  destruct free as [|b free]; cbn [length] in *.
  - rewrite (proj2 (Z.eqb_eq (mp_free x) 0)) by lia. case_test.
    + unfold rt_set_errno. do 3 kstep. rewrite Hn. cbn [negb Z.eqb]. do 2 kstep. rewrite Hc.
      pose proof (wk_addr _ W t th Ht). rewrite (proj2 (Z.eqb_neq t RT_NULL)) by (unfold RT_NULL; lia).
      eapply wp_upd_thread; [exact Ht|]. by kstep.
    + unfold RT_DEBUG_NOT_IN_INTERRUPT. do 3 kstep. kstep; [by rewrite Hn|]. kstep.
      eapply wp_upd_thread; [exact Ht|].
      apply (wp_mp_wait _ mp t time (thr_error RT_EOK th) x (caller_error s t RT_EOK th C) Htime).
      intros s' B. by split.
  - rewrite (proj2 (Z.eqb_neq (mp_free x) 0)) by lia.
    destruct (po_free _ _ _ _ _ M) as (Eb & w & Hw & _).
    destruct (block_range _ _ _ _ _ M b ltac:(by left)) as [Hb1 Hb2].
    pose proof (po_start _ _ _ _ _ M). rewrite Eb.
    kstep. kstep; [apply negb_true_iff, Z.eqb_neq; unfold RT_NULL; lia|].
    kstep. eapply wp_get_word; [exact Hw|]. do 2 kstep. kstep. apply wp_put_word; [done|done|]. kstep.
    split_and!; try done. eexists. split; [apply lookup_insert_eq|]. split; [|done].
    rewrite (ubits_small 32) by lia. by apply mp_ok_alloc.
Qed.

(** C29: [rt_mp_free] puts a block that was given out at the head of the free list;
    when threads wait for a block, the last one that came becomes ready with error
    RT_EOK, is not counted any more, and the scheduler runs; the count of the
    waiting threads stays exact. *)
Theorem rt_mp_free_ok (s : kst) (mp b : Z) (x : rt_mempool) (free used used' : list Z) :
  wf_kst s -> i_mps (ip s) !! mp = Some x -> mp_ok mp (i_mpmem (ip s)) x free used ->
  used ≡ₚ b :: used' -> mp_suspend_count x = Z.of_nat (length (tlist (sc s) (LSuspend mp))) ->
  mp_suspend_count x < 2 ^ 32 ->
  wp (rt_mp_free (b + 4)) (fun _ s' =>
    wf_kst s' /\
    (exists x', i_mps (ip s') !! mp = Some x' /\ mp_ok mp (i_mpmem (ip s')) x' (b :: free) used' /\
       mp_suspend_count x' = Z.of_nat (length (tlist (sc s') (LSuspend mp)))) /\
    match tlist (sc s) (LSuspend mp) with
    | [] => sc s' = sc s
    | u :: w => waked (fun _ => thr_error RT_EOK) [u] (sc s) (sc s') /\
        tlist (sc s') (LSuspend mp) = w /\
        (s_lock_nest (sc s) = 0 -> exists p, highest (sc s') p (s_current (sc s')))
    end) s.
Proof.
  intros W Hx M P Cnt Hlt. pose proof (pool_count _ _ _ _ _ M) as Len.
  pose proof (po_total _ _ _ _ _ M) as Tot. pose proof (po_count _ _ _ _ _ M) as Cf.
  rewrite P in Len. cbn [length] in Len.
  destruct (block_range _ _ _ _ _ M b) as [Hb1 Hb2]; [rewrite P; set_solver|].
  unfold rt_mp_free. replace (b + 4 - 4) with b by lia.
  kstep. eapply wp_get_word; [apply (po_used _ _ _ _ _ M); rewrite P; by left|]. cbn [word_val].
  kstep. eapply wp_get_mp; [exact Hx|]. kstep. apply wp_put_word; [done|done|].
  do 2 kstep. rewrite (ubits_small 32 (mp_free x + 1)) by lia.
  pose proof (fun n => mp_ok_free mp _ x b n free used used' M P) as M'.
  fold (mp_lists b (mp_free x + 1) (mp_suspend_count x) x).
  fold (mp_lists b (mp_free x + 1) (u32 (mp_suspend_count x - 1)) x).
  set (s1 := upd_ip _ _).
  assert (W1 : wf_kst s1) by (by repeat apply wf_kst_ip).
  destruct (tlist (sc s) (LSuspend mp)) as [|u w] eqn:E; cbn [length] in Cnt.
  - rewrite (proj2 (Z.ltb_ge 0 (mp_suspend_count x))) by lia. kstep. split; [done|]. split; [|done].
    eexists. split; [apply lookup_insert_eq|]. split; [apply M'|].
    change (tlist (sc s1)) with (tlist (sc s)). rewrite E. exact Cnt.
  - rewrite (proj2 (Z.ltb_lt 0 _)) by lia. kstep. eapply wp_first_entry; [exact E|].
    destruct (first_waiting s (LSuspend mp) u w W I E) as (thu & Hu & Hs).
    kstep. eapply wp_upd_thread; [exact Hu|]. kstep.
    eapply wp_resume; [by apply (wf_kst_field s1 u thu (thr_error RT_EOK))|apply lookup_insert_eq|done|].
    do 2 kstep. set (s2 := resumed u (thr_error RT_EOK thu) (set_thread u (thr_error RT_EOK thu) s1)).
    destruct (resumed_moved (set_thread u (thr_error RT_EOK thu) s1) u (thr_error RT_EOK thu))
      as [A W2]; [by apply (wf_kst_field s1 u thu)|apply lookup_insert_eq|done|].
    apply wp_reschedule; [by apply wf_kst_ip| |].
    { exists u, (thr_stat RT_THREAD_READY (thr_error RT_EOK thu)).
      split; [exact (moved_lookup _ _ _ _ _ A)|done]. }
    intros s' R W'. destruct (rescheduled_same _ _ R) as (E1 & E2 & _ & _ & _ & _ & _ & E8 & _).
    pose proof (resumed_waked s1 u thu (thr_error RT_EOK) Hu eq_refl) as B.
    change (sc s1) with (sc s) in B.
    assert (Ew : tlist (sc s') (LSuspend mp) = w).
    { rewrite E2. change (tlist (sc s2) (LSuspend mp) = w). unfold s2.
      rewrite resumed_lists, decide_False by done. change (remove_tid u (tlist (sc s) (LSuspend mp)) = w).
      rewrite E. apply remove_tid_head. rewrite <- E. apply W. }
    split; [done|]. split.
    + eexists. rewrite E8. split; [apply lookup_insert_eq|]. rewrite Ew. split.
      * change (i_mpmem (ip (upd_ip (fun c => with_mps (<[mp:=mp_lists b (mp_free x + 1)
          (u32 (mp_suspend_count x - 1)) x]> (i_mps c)) c) s2))) with (i_mpmem (ip s2)).
        unfold s2. rewrite resumed_ip. apply M'.
      * cbn. rewrite (ubits_small 32) by lia. lia.
    + split; [by eapply waked_after|]. split; [done|]. intros L.
      destruct (rescheduled_current _ _ R) as [p Hp]; [cbn; by rewrite stopped_sc|].
      exists p. eapply highest_lists; [exact E2|exact Hp].
Qed.

(** ** Samples *)

Definition a_mp : Z := 0x20007700.
Definition mp_addr : Z := 0x20007800.

(** A pool of two blocks of four bytes; with both given out and [main_t] waiting
    for one. *)
Definition with_mp : kst := after (rt_mp_init a_mp [112; 0] mp_addr 16 4) running.
Definition mp_taken : kst := after (rt_mp_alloc a_mp 0) (after (rt_mp_alloc a_mp 0) with_mp).
Definition mp_waited : kst := after (rt_mp_alloc a_mp 5) mp_taken.

Definition two_blocks (block_list nfree waiting : Z) : rt_mempool :=
  RtMempool mp_addr 16 4 block_list 2 nfree waiting.

Lemma wf_with_mp : wf_kst with_mp.
Proof. apply wf_check. evaluate. Qed.
Lemma wf_mp_waited : wf_kst mp_waited.
Proof. apply wf_check. evaluate. Qed.

Definition words_of (w1 w2 : mp_word) : gmap Z mp_word := <[mp_addr := w1]> (<[mp_addr + 8 := w2]> ∅).

Lemma with_mp_ok : mp_ok a_mp (i_mpmem (ip with_mp)) (two_blocks mp_addr 2 0) [mp_addr; mp_addr + 8] [].
Proof.
  assert (E : i_mpmem (ip with_mp) = words_of (MpNext (mp_addr + 8)) (MpNext 0)) by evaluate.
  rewrite E. split; [|by intros b []%elem_of_nil|evaluate|reflexivity|done|done|done|cbn; lia].
  split; [reflexivity|]. exists (MpNext (mp_addr + 8)). split; [reflexivity|].
  split; [reflexivity|]. exists (MpNext 0). split; reflexivity.
Qed.

Lemma mp_waited_ok :
  mp_ok a_mp (i_mpmem (ip mp_waited)) (two_blocks 0 0 1) [] [mp_addr; mp_addr + 8].
Proof.
  assert (E : i_mpmem (ip mp_waited) = words_of (MpPool a_mp) (MpPool a_mp)) by evaluate.
  rewrite E. split; [reflexivity| |evaluate|reflexivity|done|done|done|cbn; lia].
  intros b [->|[->|[]%elem_of_nil]%elem_of_cons]%elem_of_cons; reflexivity.
Qed.

Lemma rt_mp_alloc_ok_witness :
  wp (rt_mp_alloc a_mp 0) (fun r s' => r = Return (mp_addr + 4) /\ sc s' = sc with_mp) with_mp.
Proof.
  destruct (caller_check with_mp main_t peer_t) as [th C];
    [exact wf_with_mp|evaluate|evaluate|discriminate|evaluate|evaluate|evaluate|].
  eapply wp_mono; [apply (rt_mp_alloc_ok with_mp main_t a_mp 0 th (two_blocks mp_addr 2 0)
    [mp_addr; mp_addr + 8] [] C)|].
  - evaluate.
  - exact with_mp_ok.
  - lia.
  - intros r s' (R & S & _). split; [exact R|exact S].
Defined.

Lemma rt_mp_free_ok_witness :
  wp (rt_mp_free (mp_addr + 4)) (fun _ s' => wf_kst s' /\ tlist (sc s') (LSuspend a_mp) = [])
    mp_waited.
Proof.
  assert (El : tlist (sc mp_waited) (LSuspend a_mp) = [main_t]) by evaluate.
  eapply wp_mono; [apply (rt_mp_free_ok mp_waited a_mp mp_addr (two_blocks 0 0 1) []
    [mp_addr; mp_addr + 8] [mp_addr + 8])|].
  - exact wf_mp_waited.
  - evaluate.
  - exact mp_waited_ok.
  - reflexivity.
  - rewrite El. reflexivity.
  - cbn [mp_suspend_count two_blocks]. lia.
  - intros r s' (W & _ & K). rewrite El in K. destruct K as (_ & K & _). split; [exact W|exact K].
Defined.

(** A wait that times out leaves the thread counted: the clock wakes [main_t]
    after five ticks, and the next release of a block takes the first thread of
    the waiting list, which is empty. *)
Definition five_ticks : K unit :=
  let tick := SysTick_Handler (fun _ _ => mret tt) 5 in
  _ ← tick; _ ← tick; _ ← tick; _ ← tick; tick.

Definition mp_timed_out : kst := after five_ticks mp_waited.

Lemma mp_timeout_miscount :
  five_ticks mp_waited = Ok (tt, mp_timed_out) /\
  tlist (sc mp_timed_out) (LSuspend a_mp) = [] /\
  mp_suspend_count <$> i_mps (ip mp_timed_out) !! a_mp = Some 1 /\
  rt_mp_free (mp_addr + 4) mp_timed_out = Fault.
Proof. split_and!; evaluate. Qed.
