(* ===== verification/FinshVm.v ===== *)
(** * The expression shell: the virtual machine (Finsh/finsh_vm.c, finsh_ops.c)

    A stack machine on byte code.  A slot of the stack is the union [finsh_value], four
    bytes kept as one number without sign; what reads or writes a [char] or a [short]
    of it leaves the other bytes as they are.  The machine is little-endian, [char] has
    no sign, as on ARM.  The memory the code loads from and stores to is a map from
    addresses to bytes; a function the code calls is behind [Functions]. *)

From Stdlib Require Import Lia.
From S2P Require Import Prelude KService.

Definition FINSH_STACK_MAX : Z := 64.
Definition FINSH_TEXT_MAX : Z := 128.

(** ** Unions and little-endian words *)

Definition char_value (x : Z) : Z := u8 x.
Definition short_value (x : Z) : Z := s16 x.
Definition long_value (x : Z) : Z := s32 x.
Definition set_char_value (x v : Z) : Z := Z.lor (Z.land x 0xffffff00) (u8 v).
Definition set_short_value (x v : Z) : Z := Z.lor (Z.land x 0xffff0000) (u16 v).
Definition set_long_value (x v : Z) : Z := u32 v.

Abbreviation mem := (gmap Z Z).

Definition load8 (m : mem) (a : Z) : res Z := deref (m !! a).
Definition load16 (m : mem) (a : Z) : res Z :=
  b0 ← load8 m a; b1 ← load8 m (a + 1); mret (b0 + 256 * b1).
Definition load32 (m : mem) (a : Z) : res Z :=
  h0 ← load16 m a; h1 ← load16 m (a + 2); mret (h0 + 65536 * h1).
Definition store8 (m : mem) (a v : Z) : res mem := _ ← load8 m a; mret (<[a := u8 v]> m).
Definition store16 (m : mem) (a v : Z) : res mem :=
  m ← store8 m a v; store8 m (a + 1) (v / 256).
Definition store32 (m : mem) (a v : Z) : res mem :=
  m ← store16 m a v; store16 m (a + 2) (v / 65536).

(** ** The machine *)

Record vm := Vm { finsh_vm_stack : list Z; finsh_sp : Z; text_segment : list Z; finsh_pc : Z; vm_mem : mem }.

(** The function at an address, on its arguments and the memory. *)
Class Functions := { call_function : Z -> list Z -> mem -> res (Z * mem) }.

Section Vm.
Context {FN : Functions}.

Abbreviation M := (ST vm).

Definition with_stack (k : list Z) (v : vm) : vm := Vm k (finsh_sp v) (text_segment v) (finsh_pc v) (vm_mem v).
Definition with_sp (n : Z) (v : vm) : vm := Vm (finsh_vm_stack v) n (text_segment v) (finsh_pc v) (vm_mem v).
Definition with_pc (n : Z) (v : vm) : vm := Vm (finsh_vm_stack v) (finsh_sp v) (text_segment v) n (vm_mem v).
Definition with_vmem (m : mem) (v : vm) : vm := Vm (finsh_vm_stack v) (finsh_sp v) (text_segment v) (finsh_pc v) m.

(** [finsh_sp + k] *)
Definition slot (k : Z) : M Z := n ← gets finsh_sp; t ← gets finsh_vm_stack; lift (load_at t (n + k)).
Definition put_slot (k x : Z) : M unit :=
  n ← gets finsh_sp; t ← gets finsh_vm_stack; t ← lift (store_at t (n + k) x); modify (with_stack t).
Definition move_sp (k : Z) : M unit := n ← gets finsh_sp; modify (with_sp (n + k)).
(** [*(finsh_pc + k)] *)
Definition code_at (k : Z) : M Z := p ← gets finsh_pc; t ← gets text_segment; lift (load_at t (p + k)).
Definition move_pc (k : Z) : M unit := p ← gets finsh_pc; modify (with_pc (p + k)).

Definition FINSH_GET16 : M Z := a ← code_at 0; b ← code_at 1; mret (Z.lor a (Z.shiftl b 8)).
Definition FINSH_GET32 : M Z :=
  a ← code_at 0; b ← code_at 1; c ← code_at 2; d ← code_at 3;
  mret (Z.lor (Z.lor (Z.lor a (Z.shiftl b 8)) (Z.shiftl c 16)) (Z.shiftl d 24)).

Definition mem_load (f : mem -> Z -> res Z) (a : Z) : M Z := m ← gets vm_mem; lift (f m a).
Definition mem_store (f : mem -> Z -> Z -> res mem) (a v : Z) : M unit :=
  m ← gets vm_mem; m ← lift (f m a v); modify (with_vmem m).

(** ** The operations of C

    On the operands after the conversion to [int]; what C leaves undefined, a division
    by zero and a shift by less than no or more than 31 places, is a [Fault].  A result
    that does not fit is cut to the width of where it is stored. *)

Definition c_div (a b : Z) : res Z := if b =? 0 then Fault else mret (Z.quot a b).
Definition c_mod (a b : Z) : res Z := if b =? 0 then Fault else mret (Z.rem a b).
Definition c_shl (a b : Z) : res Z := if (0 <=? b) && (b <? 32) then mret (Z.shiftl a b) else Fault.
Definition c_shr (a b : Z) : res Z := if (0 <=? b) && (b <? 32) then mret (Z.shiftr a b) else Fault.
Definition pure2 (f : Z -> Z -> Z) (a b : Z) : res Z := mret (f a b).

Definition OP_BIN_BYTE (f : Z -> Z -> res Z) : M unit :=
  x ← slot (-2); y ← slot (-1);
  r ← lift (f (char_value x) (char_value y));
  _ ← put_slot (-2) (set_char_value x r);
  move_sp (-1).
Definition OP_BIN_WORD (f : Z -> Z -> res Z) : M unit :=
  x ← slot (-2); y ← slot (-1);
  r ← lift (f (short_value x) (short_value y));
  _ ← put_slot (-2) (set_short_value x r);
  move_sp (-1).
Definition OP_BIN_DWORD (f : Z -> Z -> res Z) : M unit :=
  x ← slot (-2); y ← slot (-1);
  r ← lift (f (long_value x) (long_value y));
  _ ← put_slot (-2) (set_long_value x r);
  move_sp (-1).

Definition OP_no_op : M unit := mret tt.

Definition OP_add_byte : M unit := OP_BIN_BYTE (pure2 Z.add).
Definition OP_add_word : M unit := OP_BIN_WORD (pure2 Z.add).
Definition OP_add_dword : M unit := OP_BIN_DWORD (pure2 Z.add).
Definition OP_sub_byte : M unit := OP_BIN_BYTE (pure2 Z.sub).
Definition OP_sub_word : M unit := OP_BIN_WORD (pure2 Z.sub).
Definition OP_sub_dword : M unit := OP_BIN_DWORD (pure2 Z.sub).
Definition OP_div_byte : M unit := OP_BIN_BYTE c_div.
Definition OP_div_word : M unit := OP_BIN_WORD c_div.
Definition OP_div_dword : M unit := OP_BIN_DWORD c_div.
Definition OP_mod_byte : M unit := OP_BIN_BYTE c_mod.
Definition OP_mod_word : M unit := OP_BIN_WORD c_mod.
Definition OP_mod_dword : M unit := OP_BIN_DWORD c_mod.
Definition OP_mul_byte : M unit := OP_BIN_BYTE (pure2 Z.mul).
Definition OP_mul_word : M unit := OP_BIN_WORD (pure2 Z.mul).
Definition OP_mul_dword : M unit := OP_BIN_DWORD (pure2 Z.mul).
Definition OP_and_byte : M unit := OP_BIN_BYTE (pure2 Z.land).
Definition OP_and_word : M unit := OP_BIN_WORD (pure2 Z.land).
Definition OP_and_dword : M unit := OP_BIN_DWORD (pure2 Z.land).
Definition OP_or_byte : M unit := OP_BIN_BYTE (pure2 Z.lor).
Definition OP_or_word : M unit := OP_BIN_WORD (pure2 Z.lor).
Definition OP_or_dword : M unit := OP_BIN_DWORD (pure2 Z.lor).
Definition OP_xor_byte : M unit := OP_BIN_BYTE (pure2 Z.lxor).
Definition OP_xor_word : M unit := OP_BIN_WORD (pure2 Z.lxor).
Definition OP_xor_dword : M unit := OP_BIN_DWORD (pure2 Z.lxor).

Definition OP_bw_byte : M unit :=
  x ← slot (-1); put_slot (-1) (set_char_value x (Z.lnot (char_value x))).
Definition OP_bw_word : M unit :=
  x ← slot (-1); put_slot (-1) (set_short_value x (Z.lnot (short_value x))).
Definition OP_bw_dword : M unit :=
  x ← slot (-1); put_slot (-1) (set_long_value x (Z.lnot (long_value x))).

Definition OP_shl_byte : M unit := OP_BIN_BYTE c_shl.
Definition OP_shl_word : M unit := OP_BIN_WORD c_shl.
Definition OP_shl_dword : M unit := OP_BIN_DWORD c_shl.
Definition OP_shr_byte : M unit := OP_BIN_BYTE c_shr.
Definition OP_shr_word : M unit := OP_BIN_WORD c_shr.
Definition OP_shr_dword : M unit := OP_BIN_DWORD c_shr.

Definition OP_ld_byte : M unit :=
  c ← code_at 0; x ← slot 0; _ ← put_slot 0 (set_char_value x c); _ ← move_sp 1; move_pc 1.
Definition OP_ld_word : M unit :=
  c ← FINSH_GET16; x ← slot 0; _ ← put_slot 0 (set_short_value x c); _ ← move_sp 1; move_pc 2.
Definition OP_ld_dword : M unit :=
  c ← FINSH_GET32; x ← slot 0; _ ← put_slot 0 (set_long_value x c); _ ← move_sp 1; move_pc 4.

Definition OP_ld_value_byte : M unit :=
  a ← FINSH_GET32; c ← mem_load load8 a; x ← slot 0;
  _ ← put_slot 0 (set_char_value x c); _ ← move_sp 1; move_pc 4.
Definition OP_ld_value_word : M unit :=
  a ← FINSH_GET32; c ← mem_load load16 a; x ← slot 0;
  _ ← put_slot 0 (set_short_value x c); _ ← move_sp 1; move_pc 4.
Definition OP_ld_value_dword : M unit :=
  a ← FINSH_GET32; c ← mem_load load32 a; x ← slot 0;
  _ ← put_slot 0 (set_long_value x c); _ ← move_sp 1; move_pc 4.

Definition OP_ld_value_byte_stack : M unit :=
  x ← slot (-1); c ← mem_load load8 x; put_slot (-1) (set_char_value x c).
Definition OP_ld_value_word_stack : M unit :=
  x ← slot (-1); c ← mem_load load16 x; put_slot (-1) (set_short_value x c).
Definition OP_ld_value_dword_stack : M unit :=
  x ← slot (-1); c ← mem_load load32 x; put_slot (-1) (set_long_value x c).

Definition OP_st_byte : M unit :=
  x ← slot (-2); y ← slot (-1); _ ← mem_store store8 x (char_value y); move_sp (-1).
Definition OP_st_word : M unit :=
  x ← slot (-2); y ← slot (-1); _ ← mem_store store16 x (short_value y); move_sp (-1).
Definition OP_st_dword : M unit :=
  x ← slot (-2); y ← slot (-1); _ ← mem_store store32 x (long_value y); move_sp (-1).

Definition OP_pop : M unit := move_sp (-1).

(** The loop of [OP_call]: [parameterv], which has room for 16. *)
Fixpoint pop_parameters (n : nat) (parameterv : list Z) : M (list Z) :=
  match n with
  | O => mret parameterv
  | S n => x ← slot 0; _ ← move_sp (-1); pop_parameters n (x :: parameterv)
  end.

(** A function without parameters is called with a 0 all the same. *)
Definition OP_call : M unit :=
  parameters ← code_at 0;
  _ ← move_pc 1;
  _ ← move_sp (-1);
  if 16 <? parameters then kfault else
  parameterv ← pop_parameters (Z.to_nat parameters) [];
  f ← slot 0;
  m ← gets vm_mem;
  '(r, m) ← lift (call_function f (if parameters =? 0 then [0] else parameterv) m);
  _ ← modify (with_vmem m);
  x ← slot 0;
  _ ← put_slot 0 (set_long_value x r);
  move_sp 1.

Definition op_table : list (M unit) := [
  OP_no_op;
  OP_add_byte; OP_add_word; OP_add_dword;
  OP_sub_byte; OP_sub_word; OP_sub_dword;
  OP_div_byte; OP_div_word; OP_div_dword;
  OP_mod_byte; OP_mod_word; OP_mod_dword;
  OP_mul_byte; OP_mul_word; OP_mul_dword;
  OP_and_byte; OP_and_word; OP_and_dword;
  OP_or_byte; OP_or_word; OP_or_dword;
  OP_xor_byte; OP_xor_word; OP_xor_dword;
  OP_bw_byte; OP_bw_word; OP_bw_dword;
  OP_shl_byte; OP_shl_word; OP_shl_dword;
  OP_shr_byte; OP_shr_word; OP_shr_dword;
  OP_ld_byte; OP_ld_word; OP_ld_dword;
  OP_ld_value_byte; OP_ld_value_word; OP_ld_value_dword;
  OP_st_byte; OP_st_word; OP_st_dword;
  OP_pop; OP_call;
  OP_ld_value_byte_stack; OP_ld_value_word_stack; OP_ld_value_dword_stack ].

(** One round of the loop: fetch, and call what the table has. *)
Definition vm_step : M unit :=
  op ← code_at 0; _ ← move_pc 1; f ← lift (load_at op_table op); f.

(** [fuel] bounds the rounds. *)
Fixpoint vm_loop (fuel : nat) : M unit :=
  match fuel with
  | O => hang
  | S fuel =>
      p ← gets finsh_pc;
      if (0 <=? p) && (p <? FINSH_TEXT_MAX) then _ ← vm_step; vm_loop fuel else mret tt
  end.

Definition finsh_vm_run : M unit :=
  _ ← modify (with_sp 0); _ ← modify (with_pc 0); vm_loop (S (Z.to_nat FINSH_TEXT_MAX)).

End Vm.
