(* ===== verification/FinshCompiler.v ===== *)
(** * The expression shell: nodes, variables and the compiler (Finsh/finsh_node.c,
    finsh_var.c, finsh_compiler.c)

    The syntax tree is in [global_node_table]: a node has a first child and a next
    sibling, pointers kept as indices of the table.  The compiler marks the nodes with
    their data types and then writes byte code for the machine of [FinshVm.v]. *)

From Stdlib Require Import Lia.
From S2P Require Import Prelude KService FinshVm.

(** ** Constants *)

Definition FINSH_NAME_MAX : Z := 16.
Definition FINSH_NODE_MAX : Z := 16.
Definition FINSH_VARIABLE_MAX : Z := 8.

Definition FINSH_ERROR_OK : Z := 0.
Definition FINSH_ERROR_UNKNOWN_TYPE : Z := 3.
Definition FINSH_ERROR_MEMORY_FULL : Z := 6.
Definition FINSH_ERROR_UNKNOWN_NODE : Z := 8.
Definition FINSH_ERROR_UNKNOWN_SYMBOL : Z := 13.

Definition FINSH_IDTYPE_VAR : Z := 1.
Definition FINSH_IDTYPE_SYSVAR : Z := 2.
Definition FINSH_IDTYPE_SYSCALL : Z := 4.
Definition FINSH_IDTYPE_ADDRESS : Z := 8.

Definition FINSH_DATA_TYPE_VOID : Z := 0.
Definition FINSH_DATA_TYPE_BYTE : Z := 1.
Definition FINSH_DATA_TYPE_WORD : Z := 2.
Definition FINSH_DATA_TYPE_DWORD : Z := 3.

Definition FINSH_NODE_VALUE : Z := 0.

Inductive finsh_type :=
| finsh_type_unknown | finsh_type_void | finsh_type_voidp
| finsh_type_char | finsh_type_uchar | finsh_type_charp
| finsh_type_short | finsh_type_ushort | finsh_type_shortp
| finsh_type_int | finsh_type_uint | finsh_type_intp
| finsh_type_long | finsh_type_ulong | finsh_type_longp.

Inductive node_kind :=
| FINSH_NODE_UNKNOWN | FINSH_NODE_ID
| FINSH_NODE_VALUE_CHAR | FINSH_NODE_VALUE_INT | FINSH_NODE_VALUE_LONG
| FINSH_NODE_VALUE_STRING | FINSH_NODE_VALUE_NULL
| FINSH_NODE_SYS_ADD | FINSH_NODE_SYS_SUB | FINSH_NODE_SYS_MUL | FINSH_NODE_SYS_DIV | FINSH_NODE_SYS_MOD
| FINSH_NODE_SYS_AND | FINSH_NODE_SYS_OR | FINSH_NODE_SYS_XOR | FINSH_NODE_SYS_BITWISE
| FINSH_NODE_SYS_SHL | FINSH_NODE_SYS_SHR | FINSH_NODE_SYS_FUNC | FINSH_NODE_SYS_ASSIGN
| FINSH_NODE_SYS_CAST | FINSH_NODE_SYS_PREINC | FINSH_NODE_SYS_PREDEC
| FINSH_NODE_SYS_INC | FINSH_NODE_SYS_DEC
| FINSH_NODE_SYS_GETVALUE | FINSH_NODE_SYS_GETADDR | FINSH_NODE_SYS_NULL.

#[export] Instance finsh_type_eq_dec : EqDecision finsh_type.
Proof. solve_decision. Defined.
#[export] Instance node_kind_eq_dec : EqDecision node_kind.
Proof. solve_decision. Defined.

(** The numbers of the instructions (finsh_ops.h). *)
Definition FINSH_OP_ADD_BYTE : Z := 0x01.
Definition FINSH_OP_SUB_BYTE : Z := 0x04.
Definition FINSH_OP_DIV_BYTE : Z := 0x07.
Definition FINSH_OP_MOD_BYTE : Z := 0x0A.
Definition FINSH_OP_MUL_BYTE : Z := 0x0D.
Definition FINSH_OP_AND_BYTE : Z := 0x10.
Definition FINSH_OP_OR_BYTE : Z := 0x13.
Definition FINSH_OP_XOR_BYTE : Z := 0x16.
Definition FINSH_OP_BITWISE_BYTE : Z := 0x19.
Definition FINSH_OP_SHL_BYTE : Z := 0x1C.
Definition FINSH_OP_SHR_BYTE : Z := 0x1F.
Definition FINSH_OP_LD_BYTE : Z := 0x22.
Definition FINSH_OP_LD_WORD : Z := 0x23.
Definition FINSH_OP_LD_DWORD : Z := 0x24.
Definition FINSH_OP_LD_VALUE_BYTE : Z := 0x25.
Definition FINSH_OP_LD_VALUE_WORD : Z := 0x26.
Definition FINSH_OP_LD_VALUE_DWORD : Z := 0x27.
Definition FINSH_OP_ST_BYTE : Z := 0x28.
Definition FINSH_OP_ST_WORD : Z := 0x29.
Definition FINSH_OP_ST_DWORD : Z := 0x2A.
Definition FINSH_OP_POP : Z := 0x2B.
Definition FINSH_OP_SYSCALL : Z := 0x2C.
Definition FINSH_OP_LD_VALUE_BYTE_STACK : Z := 0x2D.
Definition FINSH_OP_LD_VALUE_WORD_STACK : Z := 0x2E.
Definition FINSH_OP_LD_VALUE_DWORD_STACK : Z := 0x2F.

(** ** Data *)

(** The value of a variable is in the memory. *)
Record finsh_var := FinshVar { var_name : list Z; var_type : finsh_type }.
(** [sv_self] and [sc_self] are the addresses of the structures themselves. *)
Record finsh_sysvar := FinshSysvar { sv_self : Z; sv_name : list Z; sv_type : finsh_type; sv_var : Z }.
Record finsh_syscall := FinshSyscall { sc_self : Z; sc_name : list Z; sc_func : Z }.

(** The union [id]; [IdVar i] points to entry [i] of [global_variable]. *)
Inductive idref := IdNull | IdVar (i : Z) | IdSysvar (s : finsh_sysvar) | IdSyscall (c : finsh_syscall).

(** [n_value] is the word of the union [value]. *)
Record finsh_node := FinshNode {
  node_type : node_kind; data_type : Z; idtype : Z; n_value : Z; node_id : idref;
  sibling : option Z; child : option Z }.

Definition node_empty : finsh_node := FinshNode FINSH_NODE_UNKNOWN 0 0 0 IdNull None None.
Definition var_empty : finsh_var := FinshVar (replicate 17 0) finsh_type_unknown.

Record finsh := Finsh {
  global_node_table : list finsh_node;
  global_variable : list finsh_var;
  global_errno : Z;
  finsh_compile_pc : Z;
  f_vm : vm }.

(** What the linker and the program put into the tables: the system variables and
    calls, those of the sections and those appended, and where [global_variable] is. *)
Class Symbols := {
  sysvar_table : list finsh_sysvar;
  global_sysvar_list : list finsh_sysvar;
  syscall_table : list finsh_syscall;
  global_syscall_list : list finsh_syscall;
  global_variable_addr : Z;
}.

(** [sizeof(struct finsh_var)] and the offset of [value] in it. *)
Definition SIZEOF_FINSH_VAR : Z := 24.
Definition VALUE_OFFSET : Z := 20.

Section Compiler.
Context {SY : Symbols}.

Abbreviation F := (ST finsh).

Definition with_nodes (t : list finsh_node) (s : finsh) : finsh :=
  Finsh t (global_variable s) (global_errno s) (finsh_compile_pc s) (f_vm s).
Definition with_variables (t : list finsh_var) (s : finsh) : finsh :=
  Finsh (global_node_table s) t (global_errno s) (finsh_compile_pc s) (f_vm s).
Definition with_ferrno (e : Z) (s : finsh) : finsh :=
  Finsh (global_node_table s) (global_variable s) e (finsh_compile_pc s) (f_vm s).
Definition with_compile_pc (p : Z) (s : finsh) : finsh :=
  Finsh (global_node_table s) (global_variable s) (global_errno s) p (f_vm s).
Definition with_vm (v : vm) (s : finsh) : finsh :=
  Finsh (global_node_table s) (global_variable s) (global_errno s) (finsh_compile_pc s) v.
Definition on_vm {A} (m : ST vm A) : F A := fun s =>
  match m (f_vm s) with
  | Ok (a, v) => Ok (a, with_vm v s)
  | AssertFail => AssertFail
  | Fault => Fault
  end.

Definition get_node (i : Z) : F finsh_node := t ← gets global_node_table; lift (load_at t i).
Definition put_node (i : Z) (x : finsh_node) : F unit :=
  t ← gets global_node_table; t ← lift (store_at t i x); modify (with_nodes t).
Definition get_var (i : Z) : F finsh_var := t ← gets global_variable; lift (load_at t i).

Definition set_data_type (d : Z) (x : finsh_node) : finsh_node :=
  FinshNode (node_type x) d (idtype x) (n_value x) (node_id x) (sibling x) (child x).
Definition set_idtype (d : Z) (x : finsh_node) : finsh_node :=
  FinshNode (node_type x) (data_type x) d (n_value x) (node_id x) (sibling x) (child x).
Definition set_sibling (p : option Z) (x : finsh_node) : finsh_node :=
  FinshNode (node_type x) (data_type x) (idtype x) (n_value x) (node_id x) p (child x).
Definition set_child (p : option Z) (x : finsh_node) : finsh_node :=
  FinshNode (node_type x) (data_type x) (idtype x) (n_value x) (node_id x) (sibling x) p.

Definition finsh_error_init : F unit := modify (with_ferrno FINSH_ERROR_OK).
Definition finsh_error_set (type : Z) : F unit := modify (with_ferrno type).
Definition finsh_errno : F Z := gets global_errno.

(** ** Variables (finsh_var.c) *)

Definition finsh_var_init : F Z :=
  _ ← modify (with_variables (replicate (Z.to_nat FINSH_VARIABLE_MAX) var_empty)); mret 0.

(** The loop of [finsh_var_insert]: [None] where the name is there already. *)
Fixpoint var_insert_loop (t : list finsh_var) (i empty : Z) (name : list Z) : res (option Z) :=
  match t with
  | [] => mret (Some empty)
  | x :: t =>
      r ← Str.rt_strncmp (var_name x) name FINSH_NAME_MAX;
      if r =? 0 then mret None else
      var_insert_loop t (i + 1)
        (if bool_decide (var_type x = finsh_type_unknown) && (empty =? -1) then i else empty) name
  end.

Definition finsh_var_insert (name : list Z) (type : finsh_type) : F Z :=
  t ← gets global_variable;
  r ← lift (var_insert_loop t 0 (-1) name);
  match r with
  | None => mret (-1)
  | Some empty =>
      if empty =? -1 then mret (-1) else
      x ← get_var empty;
      n ← lift (Str.rt_strncpy (var_name x) name FINSH_NAME_MAX);
      t ← lift (store_at t empty (FinshVar n type));
      _ ← modify (with_variables t);
      mret empty
  end.

(** The loops of [finsh_var_delete] and [finsh_var_lookup]: the index, or the number of
    entries. *)
Fixpoint var_find_loop (t : list finsh_var) (i : Z) (name : list Z) : res Z :=
  match t with
  | [] => mret i
  | x :: t =>
      r ← Str.rt_strncmp (var_name x) name FINSH_NAME_MAX;
      if r =? 0 then mret i else var_find_loop t (i + 1) name
  end.

Definition finsh_var_lookup (name : list Z) : F (option Z) :=
  t ← gets global_variable;
  i ← lift (var_find_loop t 0 name);
  mret (if i =? FINSH_VARIABLE_MAX then None else Some i).

(** [&(global_variable[i].value)] *)
Definition var_value_addr (i : Z) : Z := global_variable_addr + i * SIZEOF_FINSH_VAR + VALUE_OFFSET.

(** [memset] of the whole entry clears the value, too. *)
Definition finsh_var_delete (name : list Z) : F Z :=
  t ← gets global_variable;
  i ← lift (var_find_loop t 0 name);
  if i =? FINSH_VARIABLE_MAX then mret (-1) else
  t ← lift (store_at t i var_empty);
  _ ← modify (with_variables t);
  _ ← on_vm (mem_store store32 (var_value_addr i) 0);
  mret 0.

Fixpoint sysvar_table_loop (t : list finsh_sysvar) (name : list Z) : res (option finsh_sysvar) :=
  match t with
  | [] => mret None
  | x :: t => r ← Str.rt_strcmp (sv_name x) name; if r =? 0 then mret (Some x) else sysvar_table_loop t name
  end.
(** The appended ones are compared over the length of the name looked for only. *)
Fixpoint sysvar_list_loop (t : list finsh_sysvar) (name : list Z) : res (option finsh_sysvar) :=
  match t with
  | [] => mret None
  | x :: t =>
      n ← Str.rt_strlen name;
      r ← Str.rt_strncmp (sv_name x) name n;
      if r =? 0 then mret (Some x) else sysvar_list_loop t name
  end.
Definition finsh_sysvar_lookup (name : list Z) : res (option finsh_sysvar) :=
  r ← sysvar_table_loop sysvar_table name;
  match r with Some x => mret (Some x) | None => sysvar_list_loop global_sysvar_list name end.

Fixpoint syscall_table_loop (t : list finsh_syscall) (name : list Z) : res (option finsh_syscall) :=
  match t with
  | [] => mret None
  | x :: t => r ← Str.rt_strcmp (sc_name x) name; if r =? 0 then mret (Some x) else syscall_table_loop t name
  end.
Fixpoint syscall_list_loop (t : list finsh_syscall) (name : list Z) : res (option finsh_syscall) :=
  match t with
  | [] => mret None
  | x :: t =>
      n ← Str.rt_strlen name;
      r ← Str.rt_strncmp (sc_name x) name n;
      if r =? 0 then mret (Some x) else syscall_list_loop t name
  end.
Definition finsh_syscall_lookup (name : list Z) : res (option finsh_syscall) :=
  r ← syscall_table_loop syscall_table name;
  match r with Some x => mret (Some x) | None => syscall_list_loop global_syscall_list name end.

(** ** Nodes (finsh_node.c) *)

Definition finsh_node_init : F Z :=
  _ ← modify (with_nodes (replicate (Z.to_nat FINSH_NODE_MAX) node_empty)); mret 0.

(** The index of the first node that is not used; the number of nodes when there is
    none. *)
Fixpoint empty_node (t : list finsh_node) (i : Z) : Z :=
  match t with
  | [] => i
  | x :: t => if bool_decide (node_type x = FINSH_NODE_UNKNOWN) then i else empty_node t (i + 1)
  end.

Definition finsh_node_allocate (type : node_kind) : F (option Z) :=
  t ← gets global_node_table;
  let i := empty_node t 0 in
  if i =? FINSH_NODE_MAX then mret None else
  x ← get_node i;
  _ ← put_node i (FinshNode type (data_type x) (idtype x) (n_value x) (node_id x) (sibling x) (child x));
  mret (Some i).

Definition set_value (v : Z) (x : finsh_node) : finsh_node :=
  FinshNode (node_type x) (data_type x) (idtype x) v (node_id x) (sibling x) (child x).
Definition set_id (d : Z) (r : idref) (x : finsh_node) : finsh_node :=
  FinshNode (node_type x) (data_type x) d (n_value x) r (sibling x) (child x).

(** A node of a type, filled in. *)
Definition new_node (type : node_kind) (f : finsh_node -> finsh_node) : F (option Z) :=
  node ← finsh_node_allocate type;
  match node with
  | None => _ ← finsh_error_set FINSH_ERROR_MEMORY_FULL; mret None
  | Some i => x ← get_node i; _ ← put_node i (f x); mret (Some i)
  end.

Definition finsh_node_new_id (id : list Z) : F (option Z) :=
  var ← finsh_var_lookup id;
  symbol ← (match var with
            | Some i => mret (Some (FINSH_IDTYPE_VAR, IdVar i))
            | None =>
                sysvar ← lift (finsh_sysvar_lookup id);
                match sysvar with
                | Some s => mret (Some (FINSH_IDTYPE_SYSVAR, IdSysvar s))
                | None =>
                    syscall ← lift (finsh_syscall_lookup id);
                    mret (match syscall with
                          | Some c => Some (FINSH_IDTYPE_SYSCALL, IdSyscall c)
                          | None => None
                          end)
                end
            end);
  match symbol with
  | Some (type, r) => new_node FINSH_NODE_ID (set_id type r)
  | None => _ ← finsh_error_set FINSH_ERROR_UNKNOWN_SYMBOL; mret None
  end.

Definition finsh_node_new_char (c : Z) : F (option Z) :=
  new_node FINSH_NODE_VALUE_CHAR (fun x => set_value (set_char_value (n_value x) c) x).
Definition finsh_node_new_int (i : Z) : F (option Z) := new_node FINSH_NODE_VALUE_INT (set_value (u32 i)).
Definition finsh_node_new_long (l : Z) : F (option Z) := new_node FINSH_NODE_VALUE_LONG (set_value (u32 l)).
Definition finsh_node_new_ptr (p : Z) : F (option Z) := new_node FINSH_NODE_VALUE_NULL (set_value p).

(** ** The data types (finsh_type_check) *)

(** The data type of a variable; [None] for a type without one. *)
Definition type_data (t : finsh_type) : option Z :=
  match t with
  | finsh_type_void => Some FINSH_DATA_TYPE_VOID
  | finsh_type_char | finsh_type_uchar => Some FINSH_DATA_TYPE_BYTE
  | finsh_type_short | finsh_type_ushort => Some FINSH_DATA_TYPE_WORD
  | finsh_type_int | finsh_type_uint | finsh_type_long | finsh_type_ulong
  | finsh_type_charp | finsh_type_voidp | finsh_type_shortp | finsh_type_intp | finsh_type_longp =>
      Some FINSH_DATA_TYPE_DWORD
  | finsh_type_unknown => None
  end.

Definition flag (x f : Z) : bool := negb (Z.land x f =? 0).

(** The data type of a node without children. *)
Definition leaf_type (i : Z) : F unit :=
  x ← get_node i;
  let set t := match type_data t with
               | Some d => put_node i (set_data_type d x)
               | None => finsh_error_set FINSH_ERROR_UNKNOWN_TYPE
               end in
  match node_type x with
  | FINSH_NODE_ID =>
      if flag (idtype x) FINSH_IDTYPE_VAR then
        match node_id x with
        | IdVar k => v ← get_var k; set (var_type v)
        | IdNull => mret tt
        | _ => kfault
        end
      else if flag (idtype x) FINSH_IDTYPE_SYSVAR then
        match node_id x with
        | IdSysvar s => set (sv_type s)
        | IdNull => mret tt
        | _ => kfault
        end
      else mret tt
  | FINSH_NODE_VALUE_CHAR => put_node i (set_data_type FINSH_DATA_TYPE_BYTE x)
  | FINSH_NODE_VALUE_INT | FINSH_NODE_VALUE_LONG | FINSH_NODE_VALUE_STRING | FINSH_NODE_VALUE_NULL =>
      put_node i (set_data_type FINSH_DATA_TYPE_DWORD x)
  | _ => mret tt
  end.

(** What the children are told. *)
Definition child_addr (type : node_kind) (is_addr : Z) : Z :=
  match type with
  | FINSH_NODE_SYS_ASSIGN | FINSH_NODE_SYS_PREINC | FINSH_NODE_SYS_PREDEC | FINSH_NODE_SYS_GETADDR =>
      FINSH_IDTYPE_ADDRESS
  | FINSH_NODE_SYS_GETVALUE => if negb (is_addr =? 0) then 0 else is_addr
  | _ => is_addr
  end.

(** [fuel] bounds the depth of the recursion. *)
Fixpoint finsh_type_check (fuel : nat) (node : option Z) (is_addr : Z) : F unit :=
  match node with
  | None => mret tt
  | Some i =>
      match fuel with
      | O => hang
      | S fuel =>
          x ← get_node i;
          _ ← finsh_type_check fuel (child x) (child_addr (node_type x) is_addr);
          x ← get_node i;
          _ ← finsh_type_check fuel (sibling x) FINSH_NODE_VALUE;
          x ← get_node i;
          _ ← kwhen (negb (idtype x =? FINSH_IDTYPE_SYSCALL))
                (put_node i (set_idtype (Z.lor (idtype x) is_addr) x));
          x ← get_node i;
          match child x with
          | Some c => y ← get_node c; put_node i (set_data_type (data_type y) x)
          | None => leaf_type i
          end
      end
  end.

(** ** The compiler (finsh_compile) *)

Definition finsh_code_byte (x : Z) : F unit :=
  p ← gets finsh_compile_pc;
  v ← gets f_vm;
  t ← lift (store_at (text_segment v) p (u8 x));
  _ ← modify (with_vm (Vm (finsh_vm_stack v) (finsh_sp v) t (finsh_pc v) (vm_mem v)));
  modify (with_compile_pc (p + 1)).
Definition finsh_code_word (x : Z) : F unit :=
  _ ← finsh_code_byte (Z.land x 0xff); finsh_code_byte (Z.shiftr x 8).
Definition finsh_code_dword (x : Z) : F unit :=
  let x := u32 x in
  _ ← finsh_code_byte (Z.land x 0xff);
  _ ← finsh_code_byte (Z.land (Z.shiftr x 8) 0xff);
  _ ← finsh_code_byte (Z.land (Z.shiftr x 16) 0xff);
  finsh_code_byte (Z.shiftr x 24).

(** The instruction that loads a variable of a type; the switch has no case for [void]
    and [void *]. *)
Definition load_op (t : finsh_type) : option Z :=
  match t with
  | finsh_type_char | finsh_type_uchar => Some FINSH_OP_LD_VALUE_BYTE
  | finsh_type_short | finsh_type_ushort => Some FINSH_OP_LD_VALUE_WORD
  | finsh_type_int | finsh_type_uint | finsh_type_long | finsh_type_ulong
  | finsh_type_charp | finsh_type_shortp | finsh_type_intp | finsh_type_longp =>
      Some FINSH_OP_LD_VALUE_DWORD
  | finsh_type_unknown | finsh_type_void | finsh_type_voidp => None
  end.

Definition code_variable (idtype : Z) (t : finsh_type) (addr : Z) : F unit :=
  match load_op t with
  | None => mret tt
  | Some op =>
      _ ← finsh_code_byte (if flag idtype FINSH_IDTYPE_ADDRESS then FINSH_OP_LD_DWORD else op);
      finsh_code_dword addr
  end.

(** [&(node->id.var->value)], also where [id] is no variable. *)
Definition id_value_addr (r : idref) : Z :=
  match r with
  | IdVar i => var_value_addr i
  | IdSysvar s => sv_self s + VALUE_OFFSET
  | IdSyscall c => sc_self c + VALUE_OFFSET
  | IdNull => VALUE_OFFSET
  end.

Definition code_id (x : finsh_node) : F unit :=
  if flag (idtype x) FINSH_IDTYPE_SYSCALL then
    match node_id x with
    | IdSyscall c => _ ← finsh_code_byte FINSH_OP_LD_DWORD; finsh_code_dword (sc_func c)
    | _ => kfault
    end
  else if flag (idtype x) FINSH_IDTYPE_SYSVAR then
    match node_id x with
    | IdNull => mret tt
    | IdSysvar s => code_variable (idtype x) (sv_type s) (sv_var s)
    | _ => kfault
    end
  else
    match node_id x with
    | IdNull => mret tt
    | IdVar i => v ← get_var i; code_variable (idtype x) (var_type v) (var_value_addr i)
    | _ => kfault
    end.

(** An instruction for operands of a data type: those for words and double words are
    numbered behind the one for bytes. *)
Definition code_typed (d op : Z) : F unit :=
  if d =? FINSH_DATA_TYPE_BYTE then finsh_code_byte op
  else if d =? FINSH_DATA_TYPE_WORD then finsh_code_byte (op + 1)
  else if d =? FINSH_DATA_TYPE_DWORD then finsh_code_byte (op + 2)
  else mret tt.

(** The number of siblings of a node. *)
Fixpoint count_siblings (fuel : nat) (p : option Z) (n : Z) : F Z :=
  match p with
  | None => mret n
  | Some i =>
      match fuel with
      | O => hang
      | S fuel => x ← get_node i; count_siblings fuel (sibling x) (n + 1)
      end
  end.

(** The store of an assignment, and the load of what was stored. *)
Definition code_store (d : Z) : F unit :=
  if d =? FINSH_DATA_TYPE_BYTE then
    _ ← finsh_code_byte FINSH_OP_ST_BYTE; finsh_code_byte FINSH_OP_LD_VALUE_BYTE_STACK
  else if d =? FINSH_DATA_TYPE_WORD then
    _ ← finsh_code_byte FINSH_OP_ST_WORD; finsh_code_byte FINSH_OP_LD_VALUE_WORD_STACK
  else if d =? FINSH_DATA_TYPE_DWORD then
    _ ← finsh_code_byte FINSH_OP_ST_DWORD; finsh_code_byte FINSH_OP_LD_VALUE_DWORD_STACK
  else finsh_error_set FINSH_ERROR_UNKNOWN_TYPE.

(** [++] and [--] in front: the address is on the stack.  [op] is the instruction for
    bytes. *)
Definition code_pre (d op a : Z) : F unit :=
  if d =? FINSH_DATA_TYPE_BYTE then
    _ ← finsh_code_byte FINSH_OP_LD_VALUE_BYTE; _ ← finsh_code_dword a;
    _ ← finsh_code_byte FINSH_OP_LD_BYTE; _ ← finsh_code_byte 1;
    _ ← finsh_code_byte op; _ ← finsh_code_byte FINSH_OP_ST_BYTE;
    finsh_code_byte FINSH_OP_LD_VALUE_DWORD_STACK
  else if d =? FINSH_DATA_TYPE_WORD then
    _ ← finsh_code_byte FINSH_OP_LD_VALUE_WORD; _ ← finsh_code_dword a;
    _ ← finsh_code_byte FINSH_OP_LD_WORD; _ ← finsh_code_word 1;
    _ ← finsh_code_byte (op + 1); _ ← finsh_code_byte FINSH_OP_ST_WORD;
    finsh_code_byte FINSH_OP_LD_VALUE_DWORD_STACK
  else if d =? FINSH_DATA_TYPE_DWORD then
    _ ← finsh_code_byte FINSH_OP_LD_VALUE_DWORD; _ ← finsh_code_dword a;
    _ ← finsh_code_byte FINSH_OP_LD_DWORD; _ ← finsh_code_dword 1;
    _ ← finsh_code_byte (op + 2); _ ← finsh_code_byte FINSH_OP_ST_DWORD;
    finsh_code_byte FINSH_OP_LD_VALUE_DWORD_STACK
  else mret tt.

(** [++] and [--] behind: the value is on the stack and stays there. *)
Definition code_post (d op a : Z) : F unit :=
  if d =? FINSH_DATA_TYPE_BYTE then
    _ ← finsh_code_byte FINSH_OP_LD_DWORD; _ ← finsh_code_dword a;
    _ ← finsh_code_byte FINSH_OP_LD_VALUE_BYTE; _ ← finsh_code_dword a;
    _ ← finsh_code_byte FINSH_OP_LD_BYTE; _ ← finsh_code_byte 1;
    _ ← finsh_code_byte op; _ ← finsh_code_byte FINSH_OP_ST_BYTE;
    finsh_code_byte FINSH_OP_POP
  else if d =? FINSH_DATA_TYPE_WORD then
    _ ← finsh_code_byte FINSH_OP_LD_DWORD; _ ← finsh_code_dword a;
    _ ← finsh_code_byte FINSH_OP_LD_VALUE_WORD; _ ← finsh_code_dword a;
    _ ← finsh_code_byte FINSH_OP_LD_WORD; _ ← finsh_code_word 1;
    _ ← finsh_code_byte (op + 1); _ ← finsh_code_byte FINSH_OP_ST_WORD;
    finsh_code_byte FINSH_OP_POP
  else if d =? FINSH_DATA_TYPE_DWORD then
    _ ← finsh_code_byte FINSH_OP_LD_DWORD; _ ← finsh_code_dword a;
    _ ← finsh_code_byte FINSH_OP_LD_VALUE_DWORD; _ ← finsh_code_dword a;
    _ ← finsh_code_byte FINSH_OP_LD_DWORD; _ ← finsh_code_dword 1;
    _ ← finsh_code_byte (op + 2); _ ← finsh_code_byte FINSH_OP_ST_DWORD;
    finsh_code_byte FINSH_OP_POP
  else mret tt.

(** [++] and [--] do something on an identifier only. *)
Definition code_step (f : Z -> Z -> Z -> F unit) (op : Z) (x : finsh_node) : F unit :=
  match child x with
  | None => mret tt
  | Some c =>
      y ← get_node c;
      if bool_decide (node_type y = FINSH_NODE_ID) then f (data_type x) op (id_value_addr (node_id y))
      else mret tt
  end.

Definition code_call (fuel : nat) (x : finsh_node) : F unit :=
  match child x with
  | None => mret tt
  | Some c =>
      y ← get_node c;
      parameters ← count_siblings fuel (sibling y) 0;
      _ ← finsh_code_byte FINSH_OP_SYSCALL;
      finsh_code_byte parameters
  end.

Definition code_assign (x : finsh_node) : F unit :=
  c ← lift (deref (child x));
  y ← get_node c;
  if bool_decide (node_type y = FINSH_NODE_ID) then code_store (data_type y)
  else if bool_decide (node_type y = FINSH_NODE_SYS_GETVALUE) then code_store (Z.land (data_type y) 0x0F)
  else mret tt.

Definition code_getvalue (x : finsh_node) : F unit :=
  if flag (idtype x) FINSH_IDTYPE_ADDRESS then mret tt
  else if data_type x =? FINSH_DATA_TYPE_BYTE then finsh_code_byte FINSH_OP_LD_VALUE_BYTE_STACK
  else if data_type x =? FINSH_DATA_TYPE_WORD then finsh_code_byte FINSH_OP_LD_VALUE_WORD_STACK
  else if data_type x =? FINSH_DATA_TYPE_DWORD then finsh_code_byte FINSH_OP_LD_VALUE_DWORD_STACK
  else mret tt.

(** The code of one node, after that of its children. *)
Definition code_node (fuel : nat) (x : finsh_node) : F unit :=
  match node_type x with
  | FINSH_NODE_ID => code_id x
  | FINSH_NODE_VALUE_CHAR => _ ← finsh_code_byte FINSH_OP_LD_BYTE; finsh_code_byte (char_value (n_value x))
  | FINSH_NODE_VALUE_INT | FINSH_NODE_VALUE_LONG =>
      _ ← finsh_code_byte FINSH_OP_LD_DWORD; finsh_code_dword (long_value (n_value x))
  | FINSH_NODE_VALUE_NULL | FINSH_NODE_VALUE_STRING =>
      _ ← finsh_code_byte FINSH_OP_LD_DWORD; finsh_code_dword (n_value x)
  | FINSH_NODE_SYS_ADD => code_typed (data_type x) FINSH_OP_ADD_BYTE
  | FINSH_NODE_SYS_SUB => code_typed (data_type x) FINSH_OP_SUB_BYTE
  | FINSH_NODE_SYS_MUL => code_typed (data_type x) FINSH_OP_MUL_BYTE
  | FINSH_NODE_SYS_DIV => code_typed (data_type x) FINSH_OP_DIV_BYTE
  | FINSH_NODE_SYS_MOD => code_typed (data_type x) FINSH_OP_MOD_BYTE
  | FINSH_NODE_SYS_AND => code_typed (data_type x) FINSH_OP_AND_BYTE
  | FINSH_NODE_SYS_OR => code_typed (data_type x) FINSH_OP_OR_BYTE
  | FINSH_NODE_SYS_XOR => code_typed (data_type x) FINSH_OP_XOR_BYTE
  | FINSH_NODE_SYS_BITWISE => code_typed (data_type x) FINSH_OP_BITWISE_BYTE
  | FINSH_NODE_SYS_SHL => code_typed (data_type x) FINSH_OP_SHL_BYTE
  | FINSH_NODE_SYS_SHR => code_typed (data_type x) FINSH_OP_SHR_BYTE
  | FINSH_NODE_SYS_FUNC => code_call fuel x
  | FINSH_NODE_SYS_ASSIGN => code_assign x
  | FINSH_NODE_SYS_PREINC => code_step code_pre FINSH_OP_ADD_BYTE x
  | FINSH_NODE_SYS_PREDEC => code_step code_pre FINSH_OP_SUB_BYTE x
  | FINSH_NODE_SYS_INC => code_step code_post FINSH_OP_ADD_BYTE x
  | FINSH_NODE_SYS_DEC => code_step code_post FINSH_OP_SUB_BYTE x
  | FINSH_NODE_SYS_NULL => finsh_code_dword 0
  | FINSH_NODE_SYS_GETVALUE => code_getvalue x
  | FINSH_NODE_SYS_GETADDR => mret tt
  | FINSH_NODE_SYS_CAST | FINSH_NODE_UNKNOWN => finsh_error_set FINSH_ERROR_UNKNOWN_NODE
  end.

Fixpoint finsh_compile (fuel : nat) (node : option Z) : F unit :=
  match node with
  | None => mret tt
  | Some i =>
      match fuel with
      | O => hang
      | S fuel =>
          x ← get_node i;
          _ ← finsh_compile fuel (child x);
          _ ← code_node fuel x;
          finsh_compile fuel (sibling x)
      end
  end.

(** The statements one after the other, each cut off its siblings; the value of each but
    the last is popped. *)
Fixpoint compile_statements (fuel : nat) (node : option Z) : F unit :=
  match node with
  | None => mret tt
  | Some i =>
      match fuel with
      | O => hang
      | S fuel =>
          x ← get_node i;
          _ ← put_node i (set_sibling None x);
          _ ← finsh_compile fuel (Some i);
          _ ← kwhen (is_some (sibling x)) (finsh_code_byte FINSH_OP_POP);
          compile_statements fuel (sibling x)
      end
  end.

(** Deeper than the table has nodes no recursion goes. *)
Definition FUEL : nat := S (S (Z.to_nat FINSH_NODE_MAX)).

(** [memset(&finsh_vm_stack[0], 0, sizeof(finsh_vm_stack[0]))] clears one slot. *)
Definition finsh_compiler_run (node : option Z) : F Z :=
  _ ← finsh_type_check FUEL node FINSH_NODE_VALUE;
  v ← gets f_vm;
  stack ← lift (store_at (finsh_vm_stack v) 0 0);
  _ ← modify (with_vm (Vm stack (finsh_sp v) (replicate (Z.to_nat FINSH_TEXT_MAX) 0) (finsh_pc v) (vm_mem v)));
  _ ← modify (with_compile_pc 0);
  _ ← compile_statements FUEL node;
  mret 0.

End Compiler.

(** ** Running (finsh_init.c, shell.c) *)

Definition finsh_stack_bottom : ST finsh Z := on_vm (t ← gets finsh_vm_stack; x ← lift (load_at t 0); mret (long_value x)).

(** What [finsh_flush] does here: the parser it also clears is not part of the state. *)
Definition finsh_flush : ST finsh unit := _ ← finsh_node_init; finsh_error_init.

(** A line after the parse: [root] is what the parser left, the result what is printed
    as the value, if anything is. *)
Definition finsh_run_line {SY : Symbols} {FN : Functions} (root : option Z) : ST finsh (option Z) :=
  e ← gets global_errno;
  _ ← (if e =? 0 then _ ← finsh_compiler_run root; mret tt else mret tt);
  e ← gets global_errno;
  r ← (if e =? 0 then _ ← on_vm finsh_vm_run; x ← finsh_stack_bottom; mret (Some x) else mret None);
  _ ← finsh_flush;
  mret r.
