(* ===== verification/FinshSpec.v ===== *)
(** * The expression shell: compiled code computes the values of C

    A reference semantics of the expressions of the shell, and the proof that what the
    compiler of [FinshCompiler.v] writes for a syntax tree, run by the machine of
    [FinshVm.v], computes it. *)

From Stdlib Require Import Lia.
From S2P Require Import Prelude KService FinshVm FinshCompiler.

(** ** Values of a width

    The data types 1, 2 and 3 are one, two and four bytes. *)

Definition norm (d x : Z) : Z :=
  if d =? FINSH_DATA_TYPE_BYTE then char_value x
  else if d =? FINSH_DATA_TYPE_WORD then short_value x
  else long_value x.

Definition width_ok (d : Z) : Prop := 1 <= d <= 3.

(** The slot [x] has the value [v] of the width [d]. *)
Definition holds (d x v : Z) : Prop := norm d x = v /\ (d = 3 -> x = u32 v).

Lemma width_cases (P : Z -> Prop) (d : Z) : width_ok d -> P 1 -> P 2 -> P 3 -> P d.
Proof.
  intros W H1 H2 H3. assert (d = 1 \/ d = 2 \/ d = 3) as [->|[->| ->]]; [unfold width_ok in W; lia|done..].
Qed.

Lemma mod_mod_pow (x a b : Z) : 0 <= a <= b -> (x mod 2 ^ b) mod 2 ^ a = x mod 2 ^ a.
Proof.
  intros H. pose proof (Z.pow_pos_nonneg 2 a ltac:(lia) ltac:(lia)).
  replace b with (a + (b - a)) by lia. rewrite Z.pow_add_r by lia.
  pose proof (Z.pow_pos_nonneg 2 (b - a) ltac:(lia) ltac:(lia)).
  rewrite Zmod_mod_mul_l || (rewrite Z.rem_mul_r by lia; rewrite Z.add_mod by lia; rewrite (Z.mul_comm (2 ^ a));
  rewrite Z.mod_mul by lia; rewrite Z.add_0_r; rewrite !Z.mod_mod by lia); done.
Qed.

Lemma ubits_ubits (a b x : Z) : 0 <= a <= b -> ubits a (ubits b x) = ubits a x.
Proof. apply mod_mod_pow. Qed.

Lemma ubits_sbits (a b x : Z) : 0 <= a <= b -> 0 < b -> ubits a (sbits b x) = ubits a x.
Proof.
  intros H Hb. unfold ubits, sbits. pose proof (Z.pow_pos_nonneg 2 a ltac:(lia) ltac:(lia)) as Pa.
  rewrite <- (mod_mod_pow (_ - _) a b) by done. rewrite Zminus_mod_idemp_l, mod_mod_pow by done.
  f_equal. lia.
Qed.

Lemma sbits_ubits (a b x : Z) : 0 < a <= b -> sbits a (ubits b x) = sbits a x.
Proof.
  intros H. unfold sbits, ubits. f_equal.
  rewrite <- (mod_mod_pow (x mod 2 ^ b + _) a b), Zplus_mod_idemp_l, mod_mod_pow by lia. done.
Qed.

Lemma sbits_sbits (a b x : Z) : 0 < a <= b -> sbits a (sbits b x) = sbits a x.
Proof.
  intros H. rewrite <- (sbits_ubits a b (sbits b x)), ubits_sbits by lia. by apply sbits_ubits.
Qed.

Lemma norm_ubits (d x : Z) : norm d (u32 x) = norm d x.
Proof.
  unfold norm, char_value, short_value, long_value. case_test; [by apply ubits_ubits|].
  case_test; by apply sbits_ubits.
Qed.

Lemma norm_sbits (d x : Z) : norm d (s32 x) = norm d x.
Proof.
  unfold norm, char_value, short_value, long_value. case_test; [by apply ubits_sbits|].
  case_test; by apply sbits_sbits.
Qed.

Lemma norm_norm (d p x : Z) : width_ok d -> d <= p -> width_ok p -> norm d (norm p x) = norm d x.
Proof.
  intros Wd L Wp. revert L. pattern d. apply width_cases; [done|..]; pattern p; (apply width_cases; [done|..]);
    intros L; try lia; unfold norm, char_value, short_value, long_value; cbn [Z.eqb Pos.eqb FINSH_DATA_TYPE_BYTE FINSH_DATA_TYPE_WORD];
    first [by apply ubits_ubits|by apply ubits_sbits|by apply sbits_sbits].
Qed.

Lemma holds_norm (d p x v : Z) : holds p x v -> width_ok d -> d <= p -> width_ok p -> norm d x = norm d v.
Proof. intros [<- _] Wd L Wp. by rewrite norm_norm. Qed.

(** *** Writing into a slot *)

Definition set_value_of (d x v : Z) : Z :=
  if d =? FINSH_DATA_TYPE_BYTE then set_char_value x v
  else if d =? FINSH_DATA_TYPE_WORD then set_short_value x v
  else set_long_value x v.

Lemma land_disjoint (x y k : Z) (m : Z) :
  0 <= k -> Z.land m (Z.ones k) = 0 -> 0 <= y < 2 ^ k -> Z.land (Z.lor (Z.land x m) y) (Z.ones k) = y.
Proof.
  intros Hk Hm Hy. rewrite Z.land_lor_distr_l, <- Z.land_assoc, Hm, Z.land_0_r, Z.lor_0_l.
  rewrite Z.land_ones by lia. by apply Z.mod_small.
Qed.

Lemma set_char_low (x v : Z) : char_value (set_char_value x v) = u8 v.
Proof.
  unfold char_value, set_char_value, ubits at 1. rewrite <- Z.land_ones by lia.
  apply land_disjoint; [lia|done|]. by apply ubits_range.
Qed.

Lemma set_short_low (x v : Z) : u16 (set_short_value x v) = u16 v.
Proof.
  unfold set_short_value, ubits at 1. rewrite <- Z.land_ones by lia.
  apply land_disjoint; [lia|done|]. by apply ubits_range.
Qed.

Lemma set_holds (d x v : Z) : width_ok d -> holds d (set_value_of d x v) (norm d v).
Proof.
  intros W. pattern d. apply width_cases; [done|..]; split; try done.
  - apply set_char_low.
  - unfold norm, set_value_of, short_value. cbn [Z.eqb Pos.eqb FINSH_DATA_TYPE_BYTE FINSH_DATA_TYPE_WORD].
    rewrite <- (sbits_ubits 16 16 (set_short_value x v)), set_short_low by lia. by apply sbits_ubits.
  - unfold norm, set_value_of, long_value, set_long_value. cbn [Z.eqb Pos.eqb FINSH_DATA_TYPE_BYTE FINSH_DATA_TYPE_WORD].
    by apply sbits_ubits.
  - intros _. unfold norm, set_value_of, long_value, set_long_value. cbn [Z.eqb Pos.eqb FINSH_DATA_TYPE_BYTE FINSH_DATA_TYPE_WORD].
    symmetry. by apply ubits_sbits.
Qed.

(** *** Loads and stores of a width *)

Definition load_of (d : Z) (m : mem) (a : Z) : res Z :=
  if d =? FINSH_DATA_TYPE_BYTE then load8 m a
  else if d =? FINSH_DATA_TYPE_WORD then load16 m a
  else load32 m a.

Definition store_of (d : Z) (m : mem) (a v : Z) : res mem :=
  if d =? FINSH_DATA_TYPE_BYTE then store8 m a v
  else if d =? FINSH_DATA_TYPE_WORD then store16 m a v
  else store32 m a v.

(** ** The machine, one instruction at a time *)

Definition dword (x : Z) : list Z :=
  [Z.land (u32 x) 0xff; Z.land (Z.shiftr (u32 x) 8) 0xff; Z.land (Z.shiftr (u32 x) 16) 0xff; Z.shiftr (u32 x) 24].

Abbreviation len l := (Z.of_nat (length l)).

Lemma dword_value (x : Z) :
  Z.lor (Z.lor (Z.lor (Z.land (u32 x) 0xff) (Z.shiftl (Z.land (Z.shiftr (u32 x) 8) 0xff) 8))
    (Z.shiftl (Z.land (Z.shiftr (u32 x) 16) 0xff) 16)) (Z.shiftl (Z.shiftr (u32 x) 24) 24) = u32 x.
Proof.
  apply Z.bits_inj'. intros i Hi. rewrite !Z.lor_spec, !Z.shiftl_spec, !Z.land_spec by lia.
  change 0xff with (Z.ones 8).
  destruct (decide (i < 8)) as [L|L].
  { rewrite Z.ones_spec_low, !(Z.testbit_neg_r _ (i - _)) by lia. by rewrite andb_true_r, !orb_false_r. }
  rewrite (Z.ones_spec_high 8 i), andb_false_r, (Z.shiftr_spec _ 8) by lia.
  destruct (decide (i < 16)) as [L1|L1].
  { rewrite (Z.ones_spec_low 8 (i - 8)), !(Z.testbit_neg_r _ (i - 16)), !(Z.testbit_neg_r _ (i - 24)) by lia.
    rewrite andb_true_r, !orb_false_r. cbn [orb]. f_equal. lia. }
  rewrite (Z.ones_spec_high 8 (i - 8)), andb_false_r, (Z.shiftr_spec _ 16) by lia.
  destruct (decide (i < 24)) as [L2|L2].
  { rewrite (Z.ones_spec_low 8 (i - 16)), (Z.testbit_neg_r _ (i - 24)) by lia.
    rewrite andb_true_r, orb_false_r. cbn [orb]. f_equal. lia. }
  rewrite (Z.ones_spec_high 8 (i - 16)), andb_false_r, Z.shiftr_spec by lia. cbn [orb]. f_equal. lia.
Qed.

(** The bytes [c] are in the text from [pc] on. *)
Definition code_in (text : list Z) (pc : Z) (c : list Z) : Prop :=
  exists pre post, text = pre ++ c ++ post /\ pc = len pre.

Lemma code_in_app (text : list Z) (pc : Z) (a b : list Z) :
  code_in text pc (a ++ b) <-> code_in text pc a /\ code_in text (pc + len a) b.
Proof.
  split.
  - intros (pre & post & -> & ->). split; [exists pre, (b ++ post)|exists (pre ++ a), post].
    + by rewrite <- !app_assoc.
    + rewrite length_app, <- !app_assoc. split; [done|lia].
  - intros [(pre & post & E & ->) (pre' & post' & E' & E2)]. exists pre, post'. split; [|done].
    rewrite E in E'. rewrite app_assoc in E'. apply app_inj_1 in E' as [E1 E3]; [|rewrite length_app; lia].
    by rewrite E, E3, !app_assoc.
Qed.

Lemma code_in_cons (text : list Z) (pc b : Z) (c : list Z) :
  code_in text pc (b :: c) <-> code_in text pc [b] /\ code_in text (pc + 1) c.
Proof. apply (code_in_app text pc [b] c). Qed.

Lemma code_in_load (text : list Z) (pc b : Z) (c : list Z) :
  code_in text pc (b :: c) -> load_at text pc = Ok b /\ 0 <= pc < len text.
Proof.
  intros (pre & post & -> & ->). split.
  - apply load_at_ok; [lia|]. rewrite Nat2Z.id. by apply list_lookup_middle.
  - rewrite length_app, length_app. cbn. lia.
Qed.

(** The machine with the values [l] on the stack. *)
Definition st (text l : list Z) (pc : Z) (m : mem) (v : vm) : Prop :=
  exists junk, v = Vm (l ++ junk) (len l) text pc m /\ len (l ++ junk) = FINSH_STACK_MAX.

(** The operations on two operands: the instruction for bytes, and what C computes. *)
Inductive binop := Add | Sub | Mul | Div | Mod | And | Or | Xor | Shl | Shr.

Definition binop_code (o : binop) : Z :=
  match o with
  | Add => FINSH_OP_ADD_BYTE | Sub => FINSH_OP_SUB_BYTE | Mul => FINSH_OP_MUL_BYTE
  | Div => FINSH_OP_DIV_BYTE | Mod => FINSH_OP_MOD_BYTE | And => FINSH_OP_AND_BYTE
  | Or => FINSH_OP_OR_BYTE | Xor => FINSH_OP_XOR_BYTE | Shl => FINSH_OP_SHL_BYTE | Shr => FINSH_OP_SHR_BYTE
  end.

Definition binop_fun (o : binop) (a b : Z) : res Z :=
  match o with
  | Add => mret (a + b) | Sub => mret (a - b) | Mul => mret (a * b)
  | And => mret (Z.land a b) | Or => mret (Z.lor a b) | Xor => mret (Z.lxor a b)
  | Div => if b =? 0 then Fault else mret (Z.quot a b)
  | Mod => if b =? 0 then Fault else mret (Z.rem a b)
  | Shl => if (0 <=? b) && (b <? 32) then mret (a * 2 ^ b) else Fault
  | Shr => if (0 <=? b) && (b <? 32) then mret (a / 2 ^ b) else Fault
  end.

Section Machine.
Context {FN : Functions}.
Implicit Types (text l : list Z) (m : mem) (v : vm) (pc : Z).

Lemma wp_code_at text l pc m v (k b : Z) (Q : Z -> vm -> Prop) :
  st text l pc m v -> code_in text (pc + k) [b] -> Q b v -> wp (code_at k) Q v.
Proof.
  intros (junk & -> & _) C H. unfold code_at. do 4 wstep. cbn.
  eapply wp_lift_ok; [by eapply code_in_load|done].
Qed.

Lemma st_pc text l pc m v (k : Z) : st text l pc m v -> st text l (pc + k) m (with_pc (pc + k) v).
Proof. intros (junk & -> & E). by exists junk. Qed.

Lemma wp_move_pc text l pc m v (k : Z) (Q : unit -> vm -> Prop) :
  st text l pc m v -> (forall v', st text l (pc + k) m v' -> Q tt v') -> wp (move_pc k) Q v.
Proof. intros S H. unfold move_pc. do 3 wstep. apply H. destruct S as (junk & -> & E). by exists junk. Qed.

Lemma wp_GET32 text l pc m v (x : Z) (Q : Z -> vm -> Prop) :
  st text l pc m v -> code_in text pc (dword x) -> Q (u32 x) v -> wp FINSH_GET32 Q v.
Proof.
  intros S C H. unfold dword in C.
  apply code_in_cons in C as [C0 C]. apply code_in_cons in C as [C1 C]. apply code_in_cons in C as [C2 C3].
  unfold FINSH_GET32. wstep. eapply wp_code_at; [done|by rewrite Z.add_0_r|].
  wstep. eapply wp_code_at; [done|done|]. wstep. eapply wp_code_at; [done|by replace (pc + 2) with (pc + 1 + 1) by lia|].
  wstep. eapply wp_code_at; [done|by replace (pc + 3) with (pc + 1 + 1 + 1) by lia|]. wstep.
  by rewrite dword_value.
Qed.

(** *** The stack *)

Lemma wp_slot1 text l (x : Z) pc m v (Q : Z -> vm -> Prop) :
  st text (l ++ [x]) pc m v -> Q x v -> wp (slot (-1)) Q v.
Proof.
  intros (junk & -> & _) H. unfold slot. do 4 wstep. cbn. eapply wp_lift_ok; [|done].
  rewrite length_app. cbn. apply load_at_ok; [lia|]. rewrite <- app_assoc, lookup_app_r by lia.
  by replace (Z.to_nat _ - length l)%nat with O by lia.
Qed.

Lemma wp_slot2 text l (x y : Z) pc m v (Q : Z -> vm -> Prop) :
  st text (l ++ [x; y]) pc m v -> Q x v -> wp (slot (-2)) Q v.
Proof.
  intros (junk & -> & _) H. unfold slot. do 4 wstep. cbn. eapply wp_lift_ok; [|done].
  rewrite length_app. cbn. apply load_at_ok; [lia|]. rewrite <- app_assoc, lookup_app_r by lia.
  by replace (Z.to_nat _ - length l)%nat with O by lia.
Qed.

(** The slot above the stack has some value. *)
Lemma wp_slot0 text l pc m v (Q : Z -> vm -> Prop) :
  st text l pc m v -> len l < FINSH_STACK_MAX -> (forall x, Q x v) -> wp (slot 0) Q v.
Proof.
  intros (junk & -> & E) L H. unfold slot. do 4 wstep. cbn. rewrite Z.add_0_r.
  destruct (lookup_lt_is_Some_2 (l ++ junk) (length l) ltac:(lia)) as [x Hx].
  eapply wp_lift_ok; [|apply (H x)]. apply load_at_ok; [lia|]. by rewrite Nat2Z.id.
Qed.

Lemma wp_put1 text l (x y : Z) pc m v (Q : unit -> vm -> Prop) :
  st text (l ++ [x]) pc m v -> (forall v', st text (l ++ [y]) pc m v' -> Q tt v') -> wp (put_slot (-1) y) Q v.
Proof.
  intros (junk & -> & E) H. unfold put_slot. do 4 wstep. cbn. wstep.
  eapply wp_lift_ok; [apply store_at_ok; rewrite !length_app in *; cbn in *; lia|]. wstep. apply H.
  exists junk. unfold with_stack. cbn. split; [|rewrite !length_app in *; cbn in *; lia].
  rewrite !length_app. cbn. f_equal. rewrite <- !app_assoc, insert_app_r_alt by lia.
  by replace (Z.to_nat _ - length l)%nat with O by lia.
Qed.

Lemma wp_put2 text l (x y z : Z) pc m v (Q : unit -> vm -> Prop) :
  st text (l ++ [x; y]) pc m v -> (forall v', st text (l ++ [z; y]) pc m v' -> Q tt v') -> wp (put_slot (-2) z) Q v.
Proof.
  intros (junk & -> & E) H. unfold put_slot. do 4 wstep. cbn. wstep.
  eapply wp_lift_ok; [apply store_at_ok; rewrite !length_app in *; cbn in *; lia|]. wstep. apply H.
  exists junk. unfold with_stack. cbn. split; [|rewrite !length_app in *; cbn in *; lia].
  rewrite !length_app. cbn. f_equal. rewrite <- !app_assoc, insert_app_r_alt by lia.
  by replace (Z.to_nat _ - length l)%nat with O by lia.
Qed.

(** A push: the slot is written first. *)
Lemma wp_push text l (y k : Z) pc m v (Q : unit -> vm -> Prop) :
  st text l pc m v -> len l < FINSH_STACK_MAX ->
  (forall v', st text (l ++ [y]) (pc + k) m v' -> Q tt v') ->
  wp (_ ← put_slot 0 y; _ ← move_sp 1; move_pc k) Q v.
Proof.
  intros (junk & -> & E) L H. unfold put_slot, move_sp, move_pc.
  destruct junk as [|z junk]; [rewrite app_nil_r in E; lia|].
  do 4 wstep. cbn. do 2 wstep. eapply wp_lift_ok; [apply store_at_ok; cbn [finsh_vm_stack]; lia|].
  do 7 wstep. apply H. exists junk. unfold with_pc, with_sp, with_stack. cbn. split.
  - rewrite length_app. cbn. f_equal; [|lia]. rewrite <- app_assoc, insert_app_r_alt by lia.
    by replace (Z.to_nat _ - length l)%nat with O by lia.
  - rewrite !length_app in *. cbn in *. lia.
Qed.

Lemma wp_pop text l (x : Z) pc m v (Q : unit -> vm -> Prop) :
  st text (l ++ [x]) pc m v -> (forall v', st text l pc m v' -> Q tt v') -> wp (move_sp (-1)) Q v.
Proof.
  intros (junk & -> & E) H. unfold move_sp. do 3 wstep. apply H. exists (x :: junk).
  unfold with_sp. cbn. rewrite <- app_assoc in *. split; [|done]. f_equal. rewrite length_app. cbn. lia.
Qed.

Lemma wp_mem_load text l pc m v (f : mem -> Z -> res Z) (a x : Z) (Q : Z -> vm -> Prop) :
  st text l pc m v -> f m a = Ok x -> Q x v -> wp (mem_load f a) Q v.
Proof. intros (junk & -> & E) Hf H. unfold mem_load. do 2 wstep. by eapply wp_lift_ok. Qed.

Lemma wp_mem_store text l pc m v (f : mem -> Z -> Z -> res mem) (a x : Z) m' (Q : unit -> vm -> Prop) :
  st text l pc m v -> f m a x = Ok m' -> (forall v', st text l pc m' v' -> Q tt v') -> wp (mem_store f a x) Q v.
Proof.
  intros (junk & -> & E) Hf H. unfold mem_store. do 3 wstep. eapply wp_lift_ok; [exact Hf|]. wstep.
  apply H. by exists junk.
Qed.

(** *** Running *)

(** [n] rounds of the loop lead from [v] to [v']. *)
Definition reach (n : nat) v v' : Prop :=
  forall fuel (Q : unit -> vm -> Prop), wp (vm_loop fuel) Q v' -> wp (vm_loop (n + fuel)) Q v.

Lemma reach_refl v : reach 0 v v.
Proof. by intros fuel Q. Qed.

Lemma reach_trans (n k : nat) v1 v2 v3 : reach n v1 v2 -> reach k v2 v3 -> reach (n + k) v1 v3.
Proof. intros H1 H2 fuel Q H. rewrite <- Nat.add_assoc. by apply H1, H2. Qed.

Lemma reach_step text l pc m v (op : Z) (f : ST vm unit) (P : vm -> Prop) :
  len text = FINSH_TEXT_MAX ->
  st text l pc m v -> code_in text pc [op] -> load_at op_table op = Ok f ->
  (forall v', st text l (pc + 1) m v' -> wp f (fun _ v' => P v') v') ->
  exists v', P v' /\ reach 1 v v'.
Proof.
  intros T S C Hop H.
  assert (W : wp vm_step (fun _ v' => P v') v).
  { unfold vm_step. wstep. eapply wp_code_at; [done|by rewrite Z.add_0_r|]. wstep. eapply wp_move_pc; [done|].
    intros v1 S1. wstep. eapply wp_lift_ok; [exact Hop|]. by apply H. }
  apply wp_elim in W as ([] & v' & E & HP). exists v'. split; [done|]. intros fuel Q HQ. cbn [Nat.add vm_loop].
  pose proof (proj2 (code_in_load _ _ _ _ C)) as B. destruct S as (junk & -> & _). do 2 wstep. cbn [finsh_pc].
  rewrite (proj2 (Z.leb_le 0 pc)), (proj2 (Z.ltb_lt pc FINSH_TEXT_MAX)) by lia. cbn [andb]. wstep.
  by eapply wp_intro.
Qed.

Lemma vm_loop_more (n k : nat) v (Q : unit -> vm -> Prop) : wp (vm_loop n) Q v -> wp (vm_loop (n + k)) Q v.
Proof.
  revert v. induction n as [|n IH]; intros v H; [done|]. cbn [Nat.add vm_loop] in *.
  unfold wp, mbind, ST_bind, gets in *. case_test; [|done].
  destruct (vm_step v) as [[[] v']| |]; [|done|done]. by apply IH.
Qed.

(** *** The instructions *)

Variable text : list Z.
Hypothesis Htext : len text = FINSH_TEXT_MAX.

(** Loads of constants. *)
Lemma run_ld_byte l pc m v (c : Z) :
  st text l pc m v -> code_in text pc [FINSH_OP_LD_BYTE; c] -> len l < FINSH_STACK_MAX ->
  exists v', (exists x, holds 1 x (u8 c) /\ st text (l ++ [x]) (pc + 2) m v') /\ reach 1 v v'.
Proof.
  intros S C L. apply code_in_cons in C as [C1 C2]. eapply reach_step; [done|done|exact C1|reflexivity|].
  intros v1 S1. unfold OP_ld_byte. wstep. eapply wp_code_at; [done|by rewrite Z.add_0_r|].
  wstep. eapply wp_slot0; [done..|]. intros x. eapply wp_push; [done..|]. intros v2 S2. exists (set_char_value x c).
  split; [apply (set_holds 1); done|]. by replace (pc + 2) with (pc + 1 + 1) by lia.
Qed.

Lemma run_ld_dword l pc m v (a : Z) :
  st text l pc m v -> code_in text pc (FINSH_OP_LD_DWORD :: dword a) -> len l < FINSH_STACK_MAX ->
  exists v', (exists x, holds 3 x (s32 a) /\ st text (l ++ [x]) (pc + 5) m v') /\ reach 1 v v'.
Proof.
  intros S C L. apply code_in_cons in C as [C1 C2]. eapply reach_step; [done|done|exact C1|reflexivity|].
  intros v1 S1. unfold OP_ld_dword. wstep. eapply wp_GET32; [done|done|].
  wstep. eapply wp_slot0; [done..|]. intros x. eapply wp_push; [done..|]. intros v2 S2. exists (set_long_value x (u32 a)).
  split; [|by replace (pc + 5) with (pc + 1 + 4) by lia].
  replace (s32 a) with (norm 3 (u32 a)); [by apply (set_holds 3)|]. by apply norm_ubits.
Qed.

Lemma run_ld_word_1 l pc m v :
  st text l pc m v -> code_in text pc [FINSH_OP_LD_WORD; 1; 0] -> len l < FINSH_STACK_MAX ->
  exists v', (exists x, holds 2 x 1 /\ st text (l ++ [x]) (pc + 3) m v') /\ reach 1 v v'.
Proof.
  intros S C L. apply code_in_cons in C as [C1 C2]. apply code_in_cons in C2 as [C2 C3].
  eapply reach_step; [done|done|exact C1|reflexivity|].
  intros v1 S1. unfold OP_ld_word, FINSH_GET16. do 2 wstep. eapply wp_code_at; [done|by rewrite Z.add_0_r|].
  wstep. eapply wp_code_at; [done|done|]. do 2 wstep.
  eapply wp_slot0; [done..|]. intros x. eapply wp_push; [done..|]. intros v2 S2. exists (set_short_value x 1).
  split; [apply (set_holds 2); done|]. by replace (pc + 3) with (pc + 1 + 2) by lia.
Qed.

(** The load of a variable. *)
Lemma run_ld_value l pc m v (d a c : Z) :
  width_ok d -> st text l pc m v -> code_in text pc (FINSH_OP_LD_VALUE_BYTE + (d - 1) :: dword a) ->
  load_of d m (u32 a) = Ok c -> len l < FINSH_STACK_MAX ->
  exists v', (exists x, holds d x (norm d c) /\ st text (l ++ [x]) (pc + 5) m v') /\ reach 1 v v'.
Proof.
  intros W S C. apply code_in_cons in C as [C1 C2]. revert C1. pattern d. apply width_cases; [done|..];
    intros C1 E L; (eapply reach_step; [done|done|exact C1|reflexivity|]); intros v1 S1;
    unfold OP_ld_value_byte, OP_ld_value_word, OP_ld_value_dword; wstep; (eapply wp_GET32; [done|done|]);
    wstep; (eapply wp_mem_load; [done|exact E|]); wstep; (eapply wp_slot0; [done..|]); intros x;
    (eapply wp_push; [done..|]); intros v2 S2; replace (pc + 5) with (pc + 1 + 4) by lia;
    eexists; (split; [|exact S2]).
  - by apply (set_holds 1).
  - by apply (set_holds 2).
  - by apply (set_holds 3).
Qed.

(** The load through the address on top of the stack. *)
Lemma run_ld_stack l pc m v (d x c : Z) :
  width_ok d -> st text (l ++ [x]) pc m v -> code_in text pc [FINSH_OP_LD_VALUE_BYTE_STACK + (d - 1)] ->
  load_of d m x = Ok c ->
  exists v', (exists y, holds d y (norm d c) /\ st text (l ++ [y]) (pc + 1) m v') /\ reach 1 v v'.
Proof.
  intros W S. pattern d. apply width_cases; [done|..];
    intros C E; (eapply reach_step; [done|done|exact C|reflexivity|]); intros v1 S1;
    unfold OP_ld_value_byte_stack, OP_ld_value_word_stack, OP_ld_value_dword_stack; wstep; (eapply wp_slot1; [done|]);
    wstep; (eapply wp_mem_load; [done|exact E|]); (eapply wp_put1; [done|]); intros v2 S2;
    eexists; (split; [|exact S2]).
  - by apply (set_holds 1).
  - by apply (set_holds 2).
  - by apply (set_holds 3).
Qed.

Lemma run_st l pc m v (d x y : Z) m' :
  width_ok d -> st text (l ++ [x; y]) pc m v -> code_in text pc [FINSH_OP_ST_BYTE + (d - 1)] ->
  store_of d m x (norm d y) = Ok m' ->
  exists v', st text (l ++ [x]) (pc + 1) m' v' /\ reach 1 v v'.
Proof.
  intros W S. pattern d. apply width_cases; [done|..];
    intros C E; (eapply reach_step; [done|done|exact C|reflexivity|]); intros v1 S1;
    unfold OP_st_byte, OP_st_word, OP_st_dword; wstep; (eapply wp_slot2; [done|]);
    replace (l ++ [x; y]) with ((l ++ [x]) ++ [y]) in S1 by (by rewrite <- app_assoc); wstep; (eapply wp_slot1; [done|]);
    wstep; (eapply wp_mem_store; [done|exact E|]); intros v2 S2; (eapply wp_pop; [done|]); by intros v3 S3.
Qed.

Lemma run_pop l pc m v (x : Z) :
  st text (l ++ [x]) pc m v -> code_in text pc [FINSH_OP_POP] ->
  exists v', st text l (pc + 1) m v' /\ reach 1 v v'.
Proof.
  intros S C. eapply reach_step; [done|done|exact C|reflexivity|]. intros v1 S1. unfold OP_pop.
  eapply wp_pop; [done|]. by intros v2 S2.
Qed.

Lemma shift_values (a b : Z) (f g : Z -> Z -> Z) :
  (0 <= b -> f a b = g a b) ->
  (if (0 <=? b) && (b <? 32) then @mret res _ _ (f a b) else Fault) = (if (0 <=? b) && (b <? 32) then mret (g a b) else Fault).
Proof. intros H. destruct ((0 <=? b) && (b <? 32)) eqn:E; [|done]. b2p. by rewrite H. Qed.

(** The table has the operation for every width. *)
Lemma binop_table (d : Z) (o : binop) : width_ok d -> exists f,
  load_at op_table (binop_code o + (d - 1)) =
    Ok (if d =? FINSH_DATA_TYPE_BYTE then OP_BIN_BYTE f else if d =? FINSH_DATA_TYPE_WORD then OP_BIN_WORD f else OP_BIN_DWORD f)
  /\ forall a b, f a b = binop_fun o a b.
Proof.
  intros W. pattern d. apply width_cases; [done|..]; destruct o; eexists; (split; [reflexivity|]);
    intros a b; try done; cbn [binop_fun]; unfold c_shl, c_shr;
    first [ apply (shift_values a b Z.shiftl (fun a b => a * 2 ^ b)), Z.shiftl_mul_pow2
          | apply (shift_values a b Z.shiftr (fun a b => a / 2 ^ b)), Z.shiftr_div_pow2 ].
Qed.

Lemma run_bin l pc m v (d x y r : Z) (o : binop) :
  width_ok d -> st text (l ++ [x; y]) pc m v -> code_in text pc [binop_code o + (d - 1)] ->
  binop_fun o (norm d x) (norm d y) = Ok r ->
  exists v', (exists z, holds d z (norm d r) /\ st text (l ++ [z]) (pc + 1) m v') /\ reach 1 v v'.
Proof.
  intros W S C E. destruct (binop_table d o W) as (f & Hf & Ef). rewrite <- Ef in E.
  eapply reach_step; [done|done|exact C|exact Hf|]. intros v1 S1.
  assert (S1' : st text ((l ++ [x]) ++ [y]) (pc + 1) m v1) by (by rewrite <- app_assoc).
  clear C Hf. revert E. pattern d. apply width_cases; [done|..]; intros E;
    cbn [Z.eqb Pos.eqb FINSH_DATA_TYPE_BYTE FINSH_DATA_TYPE_WORD];
    unfold OP_BIN_BYTE, OP_BIN_WORD, OP_BIN_DWORD; wstep; (eapply wp_slot2; [done|]); wstep; (eapply wp_slot1; [done|]);
    wstep; (eapply wp_lift_ok; [exact E|]); wstep; (eapply wp_put2; [done|]); intros v2 S2;
    (eapply (wp_pop text (l ++ [_])); [rewrite <- app_assoc; exact S2|]); intros v3 S3; eexists; (split; [|exact S3]).
  - by apply (set_holds 1).
  - by apply (set_holds 2).
  - by apply (set_holds 3).
Qed.

Lemma run_not l pc m v (d x : Z) :
  width_ok d -> st text (l ++ [x]) pc m v -> code_in text pc [FINSH_OP_BITWISE_BYTE + (d - 1)] ->
  exists v', (exists z, holds d z (norm d (Z.lnot (norm d x))) /\ st text (l ++ [z]) (pc + 1) m v') /\ reach 1 v v'.
Proof.
  intros W S. pattern d. apply width_cases; [done|..];
    intros C; (eapply reach_step; [done|done|exact C|reflexivity|]); intros v1 S1;
    unfold OP_bw_byte, OP_bw_word, OP_bw_dword; wstep; (eapply wp_slot1; [done|]);
    (eapply wp_put1; [done|]); intros v2 S2; eexists; (split; [|exact S2]).
  - by apply (set_holds 1).
  - by apply (set_holds 2).
  - by apply (set_holds 3).
Qed.

(** The call: the slots above [base] are the function and its arguments. *)
Lemma wp_pop_parameters (base args acc junk : list Z) (f pc : Z) m (Q : list Z -> vm -> Prop) :
  Q (args ++ acc) (Vm (base ++ f :: args ++ junk) (len base) text pc m) ->
  wp (pop_parameters (length args) acc) Q (Vm (base ++ f :: args ++ junk) (len base + len args) text pc m).
Proof.
  revert acc junk. induction args as [|x args IH] using rev_ind; intros acc junk H; [by rewrite Z.add_0_r|].
  rewrite length_app, Nat.add_1_r. cbn [pop_parameters]. unfold slot, move_sp. do 4 wstep. cbn. wstep.
  eapply wp_lift_ok.
  { apply load_at_ok; [lia|]. cbn [finsh_vm_stack]; rewrite lookup_app_r by lia.
    replace (Z.to_nat _ - length base)%nat with (S (length args)) by lia. cbn. rewrite <- app_assoc.
    by apply list_lookup_middle. }
  do 4 wstep. unfold with_sp. cbn. rewrite <- !app_assoc in *. cbn in *.
  replace (len base + Z.of_nat (S (length args)) + -1) with (len base + len args) by lia.
  apply (IH (x :: acc) (x :: junk)). exact H.
Qed.

Lemma run_call l pc m v (f r : Z) (args : list Z) m' :
  st text (l ++ f :: args) pc m v -> (length args <= 16)%nat -> code_in text pc [FINSH_OP_SYSCALL; len args] ->
  call_function f (if len args =? 0 then [0] else args) m = Ok (r, m') ->
  exists v', (exists z, holds 3 z (s32 r) /\ st text (l ++ [z]) (pc + 2) m' v') /\ reach 1 v v'.
Proof.
  intros S L C E. apply code_in_cons in C as [C1 C2].
  eapply reach_step; [done|done|exact C1|reflexivity|]. intros v1 S1. unfold OP_call.
  wstep. eapply wp_code_at; [done|by rewrite Z.add_0_r|]. wstep. eapply wp_move_pc; [done|].
  intros v2 (junk & -> & Ej). unfold move_sp. repeat wstep.
  rewrite (proj2 (Z.ltb_ge 16 (len args))) by lia. repeat wstep. unfold with_sp. cbn [finsh_vm_stack finsh_sp text_segment finsh_pc vm_mem].
  rewrite Nat2Z.id. rewrite <- app_assoc. cbn [app].
  replace (len (l ++ f :: args) + -1) with (len l + len args) by (rewrite length_app; cbn; lia).
  apply wp_pop_parameters. rewrite app_nil_r. unfold slot. repeat wstep. cbn [finsh_vm_stack finsh_sp].
  assert (Lf : load_at (l ++ f :: args ++ junk) (len l + 0) = Ok f).
  { apply load_at_ok; [lia|]. replace (Z.to_nat (len l + 0)) with (length l) by lia. by apply list_lookup_middle. }
  eapply wp_lift_ok; [exact Lf|]. repeat wstep. cbn [vm_mem]. eapply wp_lift_ok; [exact E|]. cbv beta iota. repeat wstep.
  cbn [with_vmem finsh_vm_stack finsh_sp]. eapply wp_lift_ok; [exact Lf|]. unfold put_slot. repeat wstep.
  cbn [with_vmem finsh_vm_stack finsh_sp]. eapply wp_lift_ok.
  { apply store_at_ok. rewrite <- app_assoc in Ej. cbn [app] in Ej. rewrite Ej.
    rewrite length_app in Ej. cbn in Ej. unfold FINSH_STACK_MAX in *. lia. }
  repeat wstep. exists (set_long_value f r). split; [apply (set_holds 3); done|].
  exists (args ++ junk). unfold with_sp, with_stack, with_vmem. cbn. rewrite <- app_assoc in *. split.
  - f_equal; [|rewrite length_app; cbn; lia|lia]. rewrite insert_app_r_alt by lia.
    by replace (Z.to_nat _ - length l)%nat with O by lia.
  - rewrite <- Ej. rewrite !length_app. cbn. lia.
Qed.

End Machine.

(** ** Memory *)

Definition grows (m m' : mem) : Prop := forall p, is_Some (m !! p) -> is_Some (m' !! p).

Lemma grows_refl (m : mem) : grows m m.
Proof. by intros p. Qed.
Lemma grows_trans (m1 m2 m3 : mem) : grows m1 m2 -> grows m2 m3 -> grows m1 m3.
Proof. intros H1 H2 p Hp. by apply H2, H1. Qed.

Lemma store8_ok (m m' : mem) (a v : Z) : store8 m a v = Ok m' -> is_Some (m !! a) /\ m' = <[a := u8 v]> m.
Proof.
  unfold store8, load8. intros H. apply res_bind_Ok_inv in H as (c & E & H). destruct (m !! a) eqn:L; [|done].
  split; [by eexists|]. by injection H as <-.
Qed.

Lemma store8_grows (m m' : mem) (a v : Z) : store8 m a v = Ok m' -> grows m m'.
Proof.
  intros [_ ->]%store8_ok p Hp. destruct (decide (p = a)) as [->|N].
  - rewrite lookup_insert_eq. eauto.
  - by rewrite lookup_insert_ne.
Qed.

Lemma store16_grows (m m' : mem) (a v : Z) : store16 m a v = Ok m' -> grows m m'.
Proof.
  intros (m1 & H1 & H2)%res_bind_Ok_inv. eapply grows_trans; by eapply store8_grows.
Qed.

Lemma store_of_grows (d : Z) (m m' : mem) (a v : Z) : store_of d m a v = Ok m' -> grows m m'.
Proof.
  unfold store_of. case_test; [apply store8_grows|]. case_test; [apply store16_grows|].
  intros (m1 & H1 & H2)%res_bind_Ok_inv. eapply grows_trans; by eapply store16_grows.
Qed.

Lemma load8_insert (m : mem) (a v : Z) : load8 (<[a := v]> m) a = Ok v.
Proof. unfold load8. by rewrite lookup_insert_eq. Qed.

Lemma load8_insert_ne (m : mem) (a b v : Z) : a <> b -> load8 (<[a := v]> m) b = load8 m b.
Proof. intros N. unfold load8. by rewrite lookup_insert_ne. Qed.

Lemma store16_load16 (m m' : mem) (a v : Z) : store16 m a v = Ok m' -> load16 m' a = Ok (u16 v).
Proof.
  intros (m1 & H1 & H2)%res_bind_Ok_inv. apply store8_ok in H1 as [_ ->], H2 as [_ ->]. unfold load16.
  rewrite (load8_insert_ne _ (a + 1) a), !load8_insert by lia. cbn -[ubits]. f_equal. unfold ubits.
  symmetry. apply (Z.rem_mul_r v 256 256); lia.
Qed.

Lemma store16_other (m m' : mem) (a b v : Z) : store16 m a v = Ok m' -> b <> a -> b <> a + 1 -> load8 m' b = load8 m b.
Proof.
  intros (m1 & H1 & H2)%res_bind_Ok_inv N1 N2. apply store8_ok in H1 as [_ ->], H2 as [_ ->].
  by rewrite !load8_insert_ne by done.
Qed.

Lemma load_store (d : Z) (m m' : mem) (a v : Z) :
  width_ok d -> store_of d m a v = Ok m' -> exists c, load_of d m' a = Ok c /\ norm d c = norm d v.
Proof.
  intros W. pattern d. apply width_cases; [done|..]; unfold store_of, load_of;
    cbn [Z.eqb Pos.eqb FINSH_DATA_TYPE_BYTE FINSH_DATA_TYPE_WORD].
  - intros [_ ->]%store8_ok. rewrite load8_insert. eexists. split; [done|]. by apply ubits_ubits.
  - intros ->%store16_load16. eexists. split; [done|]. by apply sbits_ubits.
  - intros (m1 & H1 & H2)%res_bind_Ok_inv. exists (u32 v). split; [|by apply sbits_ubits].
    unfold load32. assert (E : load16 m' a = Ok (u16 v)).
    { rewrite <- (store16_load16 _ _ _ _ H1). unfold load16. by rewrite !(store16_other _ _ _ _ _ H2) by lia. }
    rewrite E. cbn. rewrite (store16_load16 _ _ _ _ H2). cbn. f_equal. unfold ubits.
    symmetry. apply (Z.rem_mul_r v 65536 65536); lia.
Qed.

(** The low bytes of a double word are the byte and the word at its address. *)
Lemma load32_low (d : Z) (m : mem) (a c : Z) :
  width_ok d -> load32 m a = Ok c -> exists c', load_of d m a = Ok c' /\ norm d c = norm d c'.
Proof.
  intros W E. pose proof E as E0. apply res_bind_Ok_inv in E as (h0 & E1 & (h1 & E2 & E3)%res_bind_Ok_inv).
  injection E3 as E3. pattern d. apply width_cases; [done|..]; unfold load_of;
    cbn [Z.eqb Pos.eqb FINSH_DATA_TYPE_BYTE FINSH_DATA_TYPE_WORD]; [| |by eauto].
  - pose proof E1 as (b0 & F0 & (b1 & F1 & F2)%res_bind_Ok_inv)%res_bind_Ok_inv. injection F2 as F2.
    exists b0. split; [done|]. subst. unfold norm, char_value, ubits. cbn.
    replace (b0 + 256 * b1 + 65536 * h1) with (b0 + (b1 + 256 * h1) * 256) by lia. apply Z.mod_add. lia.
  - exists h0. split; [done|]. subst. unfold norm, short_value, sbits.
    cbn [Z.eqb Pos.eqb FINSH_DATA_TYPE_BYTE FINSH_DATA_TYPE_WORD]. f_equal.
    replace (h0 + 65536 * h1 + 2 ^ (16 - 1)) with (h0 + 2 ^ (16 - 1) + h1 * 2 ^ 16) by (cbn; lia). apply Z.mod_add. done.
Qed.

Lemma load32_mapped (m : mem) (a : Z) :
  (forall k, 0 <= k < 4 -> is_Some (m !! (a + k))) -> exists c, load32 m a = Ok c.
Proof.
  intros H. destruct (H 0) as [b0 H0], (H 1) as [b1 H1], (H 2) as [b2 H2], (H 3) as [b3 H3]; try lia.
  rewrite Z.add_0_r in H0. unfold load32, load16, load8.
  replace (a + 2 + 1) with (a + 3) by lia. rewrite H0, H1, H2, H3. cbn. eauto.
Qed.

(** What the functions that are called keep: no byte of the memory disappears. *)
Class FunctionsOk {FN : Functions} : Prop := {
  call_grows (f r : Z) (args : list Z) (m m' : mem) : call_function f args m = Ok (r, m') -> grows m m';
}.

(** ** Expressions and what they mean

    An expression has a data type, that of its leftmost operand: the width an operation
    on it works with.  Its precision says how many bytes of its slot are its value. *)

Inductive expr :=
| EChar (c : Z)
| EConst (k : node_kind) (w : Z)
| EId (r : idref)
| EAddr (r : idref)
| EDeref (e : expr)
| EBin (o : binop) (e1 e2 : expr)
| ENot (e : expr)
| EAssign (r : idref) (e : expr)
| EStore (p e : expr)
| EPre (dec : bool) (i : Z)
| EPost (dec : bool) (i : Z)
| ECall (c : finsh_syscall) (es : args)
with args := ANil | ACons (e : expr) (es : args).

Scheme expr_ind' := Induction for expr Sort Prop
with args_ind' := Induction for args Sort Prop.
Combined Scheme expr_args_ind from expr_ind', args_ind'.

Fixpoint args_len (es : args) : Z := match es with ANil => 0 | ACons _ es => 1 + args_len es end.

(** The width of a variable; 0 for one without code. *)
Definition type_width (t : finsh_type) : Z :=
  match load_op t with Some op => op - FINSH_OP_LD_VALUE_BYTE + 1 | None => 0 end.

Section Language.
Context {SY : Symbols} {FN : Functions} {FO : FunctionsOk}.
Variable vars : list finsh_var.

Definition id_width (r : idref) : Z :=
  match r with
  | IdVar i => if 0 <=? i then default 0 (type_width ∘ var_type <$> vars !! Z.to_nat i) else 0
  | IdSysvar s => type_width (sv_type s)
  | _ => 0
  end.

Definition id_addr (r : idref) : Z :=
  u32 (match r with IdVar i => var_value_addr i | IdSysvar s => sv_var s | _ => 0 end).

Fixpoint ety (e : expr) : Z :=
  match e with
  | EChar _ => 1
  | EConst _ _ => 3
  | EId r | EAddr r | EAssign r _ => id_width r
  | EDeref e | EBin _ e _ | ENot e | EStore e _ => ety e
  | EPre _ i | EPost _ i => id_width (IdVar i)
  | ECall _ _ => 0
  end.

Definition prec (e : expr) : Z :=
  match e with
  | EAddr _ | ECall _ _ => 3
  | _ => ety e
  end.

(** Every operation finds the bytes it works with in the slots of its operands. *)
Fixpoint wt (e : expr) : Prop :=
  match e with
  | EChar _ => True
  | EConst k _ => k = FINSH_NODE_VALUE_INT \/ k = FINSH_NODE_VALUE_LONG \/ k = FINSH_NODE_VALUE_STRING \/ k = FINSH_NODE_VALUE_NULL
  | EId r | EAddr r => width_ok (id_width r)
  | EDeref e => wt e /\ prec e = 3 /\ width_ok (ety e)
  | EBin _ e1 e2 => wt e1 /\ wt e2 /\ width_ok (ety e1) /\ ety e1 <= prec e2
  | ENot e => wt e /\ width_ok (ety e)
  | EAssign r e => wt e /\ width_ok (id_width r) /\ id_width r <= prec e
  | EStore p e => wt p /\ wt e /\ prec p = 3 /\ width_ok (ety p) /\ ety p <= prec e
  | EPre _ i | EPost _ i => width_ok (id_width (IdVar i))
  | ECall _ es => wts es /\ args_len es <= 16
  end
with wts (es : args) : Prop :=
  match es with ANil => True | ACons e es => wt e /\ prec e = 3 /\ wts es end.

Definition step_op (dec : bool) : binop := if dec then Sub else Add.

(** The value of an expression and the memory afterwards. *)
Fixpoint eval (e : expr) (m : mem) : res (Z * mem) :=
  match e with
  | EChar c => mret (u8 c, m)
  | EConst _ w => mret (s32 w, m)
  | EId r => c ← load_of (id_width r) m (id_addr r); mret (norm (id_width r) c, m)
  | EAddr r => mret (s32 (id_addr r), m)
  | EDeref e =>
      '(a, m) ← eval e m; c ← load_of (ety e) m (u32 a); mret (norm (ety e) c, m)
  | EBin o e1 e2 =>
      '(a, m) ← eval e1 m; '(b, m) ← eval e2 m;
      r ← binop_fun o (norm (ety e1) a) (norm (ety e1) b); mret (norm (ety e1) r, m)
  | ENot e => '(a, m) ← eval e m; mret (norm (ety e) (Z.lnot (norm (ety e) a)), m)
  | EAssign r e =>
      '(a, m) ← eval e m; let a := norm (id_width r) a in
      m ← store_of (id_width r) m (id_addr r) a; mret (a, m)
  | EStore p e =>
      '(x, m) ← eval p m; '(a, m) ← eval e m; let a := norm (ety p) a in
      m ← store_of (ety p) m (u32 x) a; mret (a, m)
  | EPre dec i =>
      let w := id_width (IdVar i) in let p := id_addr (IdVar i) in
      c ← load_of w m p; r ← binop_fun (step_op dec) (norm w c) 1; let r := norm w r in
      m ← store_of w m p r; mret (r, m)
  | EPost dec i =>
      let w := id_width (IdVar i) in let p := id_addr (IdVar i) in
      c ← load_of w m p; r ← binop_fun (step_op dec) (norm w c) 1;
      m ← store_of w m p (norm w r); mret (norm w c, m)
  | ECall c es =>
      '(vs, m) ← evals es m;
      '(r, m) ← call_function (u32 (sc_func c)) (if args_len es =? 0 then [0] else u32 <$> vs) m;
      mret (s32 r, m)
  end
with evals (es : args) (m : mem) : res (list Z * mem) :=
  match es with
  | ANil => mret ([], m)
  | ACons e es => '(a, m) ← eval e m; '(vs, m) ← evals es m; mret (a :: vs, m)
  end.

(** ** The code of an expression *)

Definition one_code (w : Z) : list Z :=
  if w =? 1 then [FINSH_OP_LD_BYTE; 1]
  else if w =? 2 then [FINSH_OP_LD_WORD; 1; 0]
  else FINSH_OP_LD_DWORD :: dword 1.

(** The variable is loaded, changed by one and stored: the part [++] and [--] share. *)
Definition step_code (dec : bool) (i : Z) : list Z :=
  (FINSH_OP_LD_VALUE_BYTE + (id_width (IdVar i) - 1) :: dword (id_addr (IdVar i))) ++ one_code (id_width (IdVar i)) ++
  [binop_code (step_op dec) + (id_width (IdVar i) - 1); FINSH_OP_ST_BYTE + (id_width (IdVar i) - 1)].

Fixpoint ccode (e : expr) : list Z :=
  match e with
  | EChar c => [FINSH_OP_LD_BYTE; u8 c]
  | EConst _ w => FINSH_OP_LD_DWORD :: dword w
  | EId r => FINSH_OP_LD_VALUE_BYTE + (id_width r - 1) :: dword (id_addr r)
  | EAddr r => FINSH_OP_LD_DWORD :: dword (id_addr r)
  | EDeref e => ccode e ++ [FINSH_OP_LD_VALUE_BYTE_STACK + (ety e - 1)]
  | EBin o e1 e2 => ccode e1 ++ ccode e2 ++ [binop_code o + (ety e1 - 1)]
  | ENot e => ccode e ++ [FINSH_OP_BITWISE_BYTE + (ety e - 1)]
  | EAssign r e =>
      (FINSH_OP_LD_DWORD :: dword (id_addr r)) ++ ccode e ++
      [FINSH_OP_ST_BYTE + (id_width r - 1); FINSH_OP_LD_VALUE_BYTE_STACK + (id_width r - 1)]
  | EStore p e =>
      ccode p ++ ccode e ++ [FINSH_OP_ST_BYTE + (ety p - 1); FINSH_OP_LD_VALUE_BYTE_STACK + (ety p - 1)]
  | EPre dec i =>
      (FINSH_OP_LD_DWORD :: dword (id_addr (IdVar i))) ++ step_code dec i ++ [FINSH_OP_LD_VALUE_DWORD_STACK]
  | EPost dec i =>
      (FINSH_OP_LD_VALUE_BYTE + (id_width (IdVar i) - 1) :: dword (id_addr (IdVar i))) ++
      (FINSH_OP_LD_DWORD :: dword (id_addr (IdVar i))) ++ step_code dec i ++ [FINSH_OP_POP]
  | ECall c es => (FINSH_OP_LD_DWORD :: dword (sc_func c)) ++ ccodes es ++ [FINSH_OP_SYSCALL; args_len es]
  end
with ccodes (es : args) : list Z :=
  match es with ANil => [] | ACons e es => ccode e ++ ccodes es end.

(** The slots it needs. *)
Fixpoint depth (e : expr) : Z :=
  match e with
  | EChar _ | EConst _ _ | EId _ | EAddr _ => 1
  | EDeref e | ENot e => depth e
  | EBin _ e1 e2 | EStore e1 e2 => Z.max (depth e1) (1 + depth e2)
  | EAssign _ e => 1 + depth e
  | EPre _ _ => 3
  | EPost _ _ => 4
  | ECall _ es => 1 + depths es
  end
with depths (es : args) : Z :=
  match es with ANil => 0 | ACons e es => Z.max (depth e) (1 + depths es) end.


Lemma depth_pos : (forall e, 1 <= depth e) /\ (forall es, 0 <= depths es).
Proof. apply expr_args_ind; cbn; intros; lia. Qed.


(** The four bytes of every variable are there. *)
Definition mapped (m : mem) : Prop :=
  forall i x k, vars !! i = Some x -> 0 <= k < 4 -> is_Some (m !! (id_addr (IdVar (Z.of_nat i)) + k)).

Lemma mapped_grows (m m' : mem) : grows m m' -> mapped m -> mapped m'.
Proof. intros G H i x k Hi Hk. by eapply G, H. Qed.

Ltac inv_binds := repeat match goal with
  | H : mbind _ _ = Ok _ |- _ => apply res_bind_Ok_inv in H as (? & ? & H)
  | H : (let '(_, _) := ?p in _) = Ok _ |- _ => destruct p
  | H : mret _ = Ok _ |- _ => injection H as H
  | H : Ok _ = Ok _ |- _ => injection H as H
  end; subst.

Lemma eval_evals_grows :
  (forall e m a m', eval e m = Ok (a, m') -> grows m m') /\
  (forall es m vs m', evals es m = Ok (vs, m') -> grows m m').
Proof.
  apply expr_args_ind; cbn; intros; inv_binds; eauto 8 using grows_refl, grows_trans, store_of_grows, call_grows.
Qed.

Lemma width_var (i : Z) (m : mem) :
  mapped m -> width_ok (id_width (IdVar i)) -> exists c, load32 m (id_addr (IdVar i)) = Ok c.
Proof.
  intros H W. apply load32_mapped. intros k Hk. unfold id_width in W. destruct (0 <=? i) eqn:E; [|by destruct W].
  destruct (vars !! Z.to_nat i) as [x|] eqn:L; [|by destruct W]. b2p.
  rewrite <- (Z2Nat.id i) by done. by eapply H.
Qed.

(** *** What the machine does with the code of an expression *)

Variable text : list Z.
Hypothesis Htext : len text = FINSH_TEXT_MAX.

(** The code [c] turns the stack [l] into one of [R] and the memory [m] into [m'].  *)
Definition execs (l : list Z) (pc : Z) (m : mem) (v : vm) (c : list Z) (R : list Z -> Prop) (m' : mem) : Prop :=
  exists v' l' n, reach n v v' /\ (n <= length c)%nat /\ R l' /\ st text l' (pc + len c) m' v'.

Lemma execs_app l pc m v (c1 c2 : list Z) (R R' : list Z -> Prop) m1 m2 :
  execs l pc m v c1 R m1 ->
  (forall l' v', R l' -> st text l' (pc + len c1) m1 v' -> execs l' (pc + len c1) m1 v' c2 R' m2) ->
  execs l pc m v (c1 ++ c2) R' m2.
Proof.
  intros (v1 & l1 & n1 & H1 & N1 & HR & S1) H2. destruct (H2 l1 v1 HR S1) as (v2 & l2 & n2 & H3 & N2 & HR2 & S2).
  exists v2, l2, (n1 + n2)%nat. rewrite length_app. split; [by eapply reach_trans|]. split; [lia|]. split; [done|].
  by replace (pc + Z.of_nat (length c1 + length c2)) with (pc + len c1 + len c2) by lia.
Qed.

(** One instruction that leaves a value. *)
Lemma execs_1 l pc m v (c : list Z) (d x : Z) l0 m' :
  (exists v', (exists y, holds d y x /\ st text (l0 ++ [y]) (pc + len c) m' v') /\ reach 1 v v') -> c <> [] ->
  execs l pc m v c (fun l' => exists y, l' = l0 ++ [y] /\ holds d y x) m'.
Proof.
  intros (v' & (y & Hy & S) & H) N. exists v', (l0 ++ [y]), 1%nat. split; [done|].
  split; [destruct c; [done|cbn; lia]|]. eauto.
Qed.

Lemma execs_0 l pc m v (c : list Z) l0 m' :
  (exists v', st text l0 (pc + len c) m' v' /\ reach 1 v v') -> c <> [] ->
  execs l pc m v c (fun l' => l' = l0) m'.
Proof.
  intros (v' & S & H) N. exists v', l0, 1%nat. split; [done|]. split; [destruct c; [done|cbn; lia]|]. eauto.
Qed.

Definition expr_ok (e : expr) : Prop :=
  wt e -> forall l pc m v a m', st text l pc m v -> code_in text pc (ccode e) -> len l + depth e <= FINSH_STACK_MAX ->
  mapped m -> eval e m = Ok (a, m') ->
  execs l pc m v (ccode e) (fun l' => exists x, l' = l ++ [x] /\ holds (prec e) x a) m'.

Definition args_ok (es : args) : Prop :=
  wts es -> forall l pc m v vs m', st text l pc m v -> code_in text pc (ccodes es) -> len l + depths es <= FINSH_STACK_MAX ->
  mapped m -> evals es m = Ok (vs, m') ->
  execs l pc m v (ccodes es) (fun l' => l' = l ++ (u32 <$> vs)) m' /\ len vs = args_len es.

Lemma length_dword (x : Z) : len (dword x) = 4.
Proof. done. Qed.

Lemma prec_ok (e : expr) : wt e -> prec e = 3 \/ prec e = ety e.
Proof. destruct e; cbn; auto. Qed.

Lemma id_width_le (r : idref) : id_width r <= 3.
Proof.
  unfold id_width. assert (H : forall t, type_width t <= 3) by (intros []; done).
  destruct r; try lia; [|apply H]. case_test; [|lia]. destruct (vars !! _) as [x|]; cbn; [apply H|lia].
Qed.

Lemma ety_prec (e : expr) : ety e <= prec e.
Proof. destruct e; cbn; try lia. apply id_width_le. Qed.

Lemma prec_width (e : expr) (d : Z) : wt e -> width_ok d -> d <= prec e -> width_ok (prec e).
Proof.
  intros W D L.  split; [unfold width_ok in D; lia|]. clear D L.
  destruct e; cbn in *; try lia; try apply id_width_le; try (destruct W as (_ & _ & W & _); unfold width_ok in W; lia).
  all: try (destruct W as (_ & W'); unfold width_ok in W'; lia); unfold width_ok in W; lia.
Qed.

(** The instructions in this form. *)
Abbreviation leaves l d x := (fun l' => exists y, l' = l ++ [y] /\ holds d y x).

Lemma x_one l pc m v (w : Z) :
  width_ok w -> st text l pc m v -> code_in text pc (one_code w) -> len l < FINSH_STACK_MAX ->
  execs l pc m v (one_code w) (leaves l w 1) m.
Proof.
  intros W S. pattern w. apply width_cases; [done|..]; intros C L; (eapply execs_1; [|done]).
  - by apply (run_ld_byte text Htext l pc m v 1).
  - by apply (run_ld_word_1 text Htext l pc m v).
  - by apply (run_ld_dword text Htext l pc m v 1).
Qed.

Lemma x_ld_dword l pc m v (a : Z) :
  st text l pc m v -> code_in text pc (FINSH_OP_LD_DWORD :: dword a) -> len l < FINSH_STACK_MAX ->
  execs l pc m v (FINSH_OP_LD_DWORD :: dword a) (leaves l 3 (s32 a)) m.
Proof. intros S C L. eapply execs_1; [|done]. by eapply run_ld_dword. Qed.

Lemma x_ld_value l pc m v (d a c : Z) :
  width_ok d -> st text l pc m v -> code_in text pc (FINSH_OP_LD_VALUE_BYTE + (d - 1) :: dword a) ->
  load_of d m (u32 a) = Ok c -> len l < FINSH_STACK_MAX ->
  execs l pc m v (FINSH_OP_LD_VALUE_BYTE + (d - 1) :: dword a) (leaves l d (norm d c)) m.
Proof. intros W S C E L. eapply execs_1; [|done]. by eapply run_ld_value. Qed.

Lemma x_ld_stack l pc m v (d x c : Z) :
  width_ok d -> st text (l ++ [x]) pc m v -> code_in text pc [FINSH_OP_LD_VALUE_BYTE_STACK + (d - 1)] ->
  load_of d m x = Ok c ->
  execs (l ++ [x]) pc m v [FINSH_OP_LD_VALUE_BYTE_STACK + (d - 1)] (leaves l d (norm d c)) m.
Proof. intros W S C E. eapply execs_1; [|done]. by eapply run_ld_stack. Qed.

Lemma x_bin l pc m v (d x y r : Z) (o : binop) :
  width_ok d -> st text (l ++ [x; y]) pc m v -> code_in text pc [binop_code o + (d - 1)] ->
  binop_fun o (norm d x) (norm d y) = Ok r ->
  execs (l ++ [x; y]) pc m v [binop_code o + (d - 1)] (leaves l d (norm d r)) m.
Proof. intros W S C E. eapply execs_1; [|done]. by eapply run_bin. Qed.

Lemma x_st l pc m v (d x y : Z) m' :
  width_ok d -> st text (l ++ [x; y]) pc m v -> code_in text pc [FINSH_OP_ST_BYTE + (d - 1)] ->
  store_of d m x (norm d y) = Ok m' ->
  execs (l ++ [x; y]) pc m v [FINSH_OP_ST_BYTE + (d - 1)] (fun l' => l' = l ++ [x]) m'.
Proof. intros W S C E. eapply execs_0; [|done]. by eapply run_st. Qed.

Lemma x_pop l pc m v (x : Z) :
  st text (l ++ [x]) pc m v -> code_in text pc [FINSH_OP_POP] ->
  execs (l ++ [x]) pc m v [FINSH_OP_POP] (fun l' => l' = l) m.
Proof. intros S C. eapply execs_0; [|done]. by eapply run_pop. Qed.

(** A store and the load of what was stored. *)
Lemma x_store l pc m v (d x y : Z) m' :
  width_ok d -> st text (l ++ [x; y]) pc m v ->
  code_in text pc [FINSH_OP_ST_BYTE + (d - 1); FINSH_OP_LD_VALUE_BYTE_STACK + (d - 1)] ->
  store_of d m x (norm d y) = Ok m' ->
  execs (l ++ [x; y]) pc m v [FINSH_OP_ST_BYTE + (d - 1); FINSH_OP_LD_VALUE_BYTE_STACK + (d - 1)]
    (leaves l d (norm d y)) m'.
Proof.
  intros W S C E. apply code_in_cons in C as [C1 C2]. apply (execs_app _ _ _ _ [_] [_] _ _ m' m' ltac:(by eapply x_st)).
  intros l' v' -> S'. destruct (load_store d m m' x (norm d y) W E) as (c & Ec & En).
  rewrite norm_norm in En by done. rewrite <- En. by apply x_ld_stack.
Qed.

(** *** The expressions *)

Lemma app_two (l : list Z) (x y : Z) : (l ++ [x]) ++ [y] = l ++ [x; y].
Proof. by rewrite <- app_assoc. Qed.

Lemma len_snoc (l : list Z) (x : Z) : len (l ++ [x]) = len l + 1.
Proof. rewrite length_app. cbn. lia. Qed.

Ltac code_split C := repeat match type of C with
  | code_in _ _ (_ ++ _) => let C1 := fresh "C" in apply code_in_app in C as [C1 C]
  end.
Ltac bind_inv E x m := apply res_bind_Ok_inv in E as ([x m] & ?Ev & E); cbv beta iota in E.

Lemma x_deref (e : expr) : expr_ok e -> expr_ok (EDeref e).
Proof.
  intros IH (W & P3 & Wd) l pc m v a m' S C L M E. cbn in C, L, E. apply code_in_app in C as [C1 C2].
  bind_inv E x m1. apply res_bind_Ok_inv in E as (c & Ec & E). injection E as <- <-.
  cbn [ccode]. eapply execs_app; [by apply IH|]. intros l1 v1 (x1 & -> & H1) S1.
  rewrite P3 in H1. destruct H1 as [H1 H1']. rewrite <- (H1' eq_refl) in Ec. by apply x_ld_stack.
Qed.

Lemma x_not (e : expr) : expr_ok e -> expr_ok (ENot e).
Proof.
  intros IH (W & Wd) l pc m v a m' S C L M E. cbn in C, L, E. apply code_in_app in C as [C1 C2].
  bind_inv E x m1. injection E as <- <-. pose proof (ety_prec e) as Lp.
  cbn [ccode]. eapply execs_app; [by apply IH|]. intros l1 v1 (x1 & -> & H1) S1.
  rewrite <- (holds_norm (ety e) _ _ _ H1) by (done || by eapply prec_width).
  eapply execs_1; [|done]. by apply run_not.
Qed.

Lemma x_binary (o : binop) (e1 e2 : expr) : expr_ok e1 -> expr_ok e2 -> expr_ok (EBin o e1 e2).
Proof.
  intros IH1 IH2 (W1 & W2 & Wd & Lp) l pc m v a m' S C L M E. cbn in C, L, E.
  apply code_in_app in C as [C1 C]. apply code_in_app in C as [C2 C3].
  bind_inv E x m1. bind_inv E y m2. apply res_bind_Ok_inv in E as (r & Er & E). injection E as <- <-.
  pose proof (ety_prec e1) as Lp1.
  cbn [ccode]. eapply execs_app; [apply IH1; [done..| lia|done|exact Ev]|].
  intros l1 v1 (x1 & -> & H1) S1.
  eapply execs_app; [apply IH2; [done..|rewrite len_snoc; lia| |exact Ev0]|].
  { eapply mapped_grows, M. by eapply (proj1 eval_evals_grows). }
  intros l2 v2 (x2 & -> & H2) S2. rewrite app_two in *. apply x_bin; [done..|].
  rewrite (holds_norm (ety e1) _ _ _ H1), (holds_norm (ety e1) _ _ _ H2) by (done || by eapply prec_width). done.
Qed.

Lemma x_assign (r : idref) (e : expr) : expr_ok e -> expr_ok (EAssign r e).
Proof.
  intros IH (W & Wd & Lp) l pc m v a m' S C L M E. cbn in C, L, E.
  apply (code_in_app _ _ (_ :: _ :: _ :: _ :: [_])) in C as [C1 C]. apply code_in_app in C as [C2 C3].
  bind_inv E x m1. apply res_bind_Ok_inv in E as (m2 & Es & E). injection E as <- <-.
  pose proof (proj1 depth_pos e) as De.
  cbn [ccode]. eapply execs_app; [apply x_ld_dword; [done|done|lia]|].
  intros l1 v1 (x1 & -> & H1) S1.
  eapply execs_app; [apply IH; [done..|rewrite len_snoc; lia|done|exact Ev]|].
  intros l2 v2 (x2 & -> & H2) S2. rewrite app_two in *.
  assert (Ea : x1 = id_addr r).
  { rewrite (proj2 H1) by done. unfold id_addr. rewrite ubits_sbits by lia. by apply ubits_ubits. }
  rewrite <- (holds_norm _ _ _ _ H2) in * by (done || by eapply prec_width). apply x_store; [done..|].
  by rewrite Ea.
Qed.

Lemma x_assign_through (p e : expr) : expr_ok p -> expr_ok e -> expr_ok (EStore p e).
Proof.
  intros IH1 IH2 (W1 & W2 & P3 & Wd & Lp) l pc m v a m' S C L M E. cbn in C, L, E.
  apply code_in_app in C as [C1 C]. apply code_in_app in C as [C2 C3].
  bind_inv E x m1. bind_inv E y m2. apply res_bind_Ok_inv in E as (m3 & Es & E). injection E as <- <-.
  cbn [ccode]. eapply execs_app; [apply IH1; [done..|lia|done|exact Ev]|].
  intros l1 v1 (x1 & -> & H1) S1.
  eapply execs_app; [apply IH2; [done..|rewrite len_snoc; lia| |exact Ev0]|].
  { eapply mapped_grows, M. by eapply (proj1 eval_evals_grows). }
  intros l2 v2 (x2 & -> & H2) S2. rewrite app_two in *. rewrite P3 in H1.
  rewrite <- (holds_norm _ _ _ _ H2) in * by (done || by eapply prec_width). apply x_store; [done..|].
  by rewrite (proj2 H1).
Qed.

Lemma u32_id_addr (r : idref) : u32 (id_addr r) = id_addr r.
Proof. unfold id_addr. by apply ubits_ubits. Qed.

Lemma x_step (dec : bool) (i : Z) l pc m v (c r : Z) m' :
  let w := id_width (IdVar i) in
  width_ok w -> st text (l ++ [id_addr (IdVar i)]) pc m v -> code_in text pc (step_code dec i) ->
  len l + 3 <= FINSH_STACK_MAX -> load_of w m (id_addr (IdVar i)) = Ok c ->
  binop_fun (step_op dec) (norm w c) 1 = Ok r -> store_of w m (id_addr (IdVar i)) (norm w r) = Ok m' ->
  execs (l ++ [id_addr (IdVar i)]) pc m v (step_code dec i) (fun l' => l' = l ++ [id_addr (IdVar i)]) m'.
Proof.
  intros w W S C L Ec Er Es. unfold step_code in *. fold w in C |- *. set (p := id_addr (IdVar i)) in *.
  apply code_in_app in C as [C1 C]. apply code_in_app in C as [C2 C3]. apply code_in_cons in C3 as [C3 C4].
  eapply execs_app.
  { apply x_ld_value; [done..|unfold p; by rewrite u32_id_addr|rewrite len_snoc; lia]. }
  intros l1 v1 (y & -> & Hy) S1. rewrite app_two in *.
  eapply execs_app; [apply x_one; [done..|rewrite length_app; cbn; lia]|].
  intros l2 v2 (z & -> & Hz) S2.
  assert (E2 : (l ++ [p; y]) ++ [z] = (l ++ [p]) ++ [y; z]) by (by rewrite <- !app_assoc). rewrite E2 in *.
  apply (execs_app _ _ _ _ [_] [_] (leaves (l ++ [p]) w (norm w r)) _ m m').
  - apply x_bin; [done..|]. rewrite (proj1 Hy), (proj1 Hz). done.
  - intros l3 v3 (q & -> & Hq) S3. rewrite app_two in *. apply x_st; [done..|]. by rewrite (proj1 Hq).
Qed.

Lemma norm_one (w : Z) : width_ok w -> norm w 1 = 1.
Proof. intros W. pattern w. by apply width_cases. Qed.

Lemma s32_id_addr (r : idref) (x : Z) : holds 3 x (s32 (id_addr r)) -> x = id_addr r.
Proof. intros [_ H]. rewrite H by done. rewrite ubits_sbits by lia. apply u32_id_addr. Qed.

Lemma x_pre (dec : bool) (i : Z) : expr_ok (EPre dec i).
Proof.
  intros W l pc m v a m' S C L M E. cbn [ccode eval wt depth] in C, L, E, W.
  apply res_bind_Ok_inv in E as (c & Ec & E). apply res_bind_Ok_inv in E as (r & Er & E).
  apply res_bind_Ok_inv in E as (m1 & Es & E). injection E as <- <-.
  apply code_in_app in C as [C1 C]. apply code_in_app in C as [C2 C3].
  cbn [ccode]. eapply execs_app; [apply x_ld_dword; [done|done|lia]|].
  intros l1 v1 (x1 & -> & ->%s32_id_addr) S1. eapply execs_app; [by eapply x_step|].
  intros l2 v2 -> S2.
  destruct (width_var i m1) as [c32 E32]; [eapply mapped_grows, M; by eapply store_of_grows|done|].
  destruct (load32_low _ _ _ _ W E32) as (c' & Ec' & En). destruct (load_store _ _ _ _ _ W Es) as (c2 & Ec2 & En2).
  rewrite Ec2 in Ec'. injection Ec' as <-. rewrite norm_norm in En2 by done.
  destruct (x_ld_stack l _ m1 v2 3 (id_addr (IdVar i)) c32 ltac:(done) S2 C3 E32) as (v3 & l3 & n & R & N & (y & -> & Hy) & S3).
  exists v3, (l ++ [y]), n. split; [done|]. split; [done|]. split; [|done]. exists y. split; [done|].
  change (holds (id_width (IdVar i)) y (norm (id_width (IdVar i)) r)).
  split; [|intros E3; rewrite <- En2, <- En, E3; apply Hy; done].
  destruct Hy as [Hy _]. rewrite <- (norm_norm _ 3), Hy, (norm_norm _ 3) by (done || apply id_width_le). by rewrite En.
Qed.

Lemma x_post (dec : bool) (i : Z) : expr_ok (EPost dec i).
Proof.
  intros W l pc m v a m' S C L M E. cbn [ccode eval wt depth] in C, L, E, W.
  apply res_bind_Ok_inv in E as (c & Ec & E). apply res_bind_Ok_inv in E as (r & Er & E).
  apply res_bind_Ok_inv in E as (m1 & Es & E). injection E as <- <-.
  apply code_in_app in C as [C0 C]. apply code_in_app in C as [C1 C]. apply code_in_app in C as [C2 C3].
  cbn [ccode]. eapply execs_app; [apply x_ld_value; [done..|by rewrite u32_id_addr|lia]|].
  intros l0 v0 (x0 & -> & H0) S0. eapply execs_app; [apply x_ld_dword; [done|done|rewrite len_snoc; lia]|].
  intros l1 v1 (x1 & -> & ->%s32_id_addr) S1. eapply execs_app; [eapply x_step; try done; rewrite len_snoc; lia|].
  intros l2 v2 -> S2.
  destruct (x_pop _ _ _ _ _ S2 C3) as (v3 & l3 & n & R & N & -> & S3).
  exists v3, (l ++ [x0]), n. eauto 8.
Qed.

Lemma x_call (c : finsh_syscall) (es : args) : args_ok es -> expr_ok (ECall c es).
Proof.
  intros IH (W & A) l pc m v a m' S C L M E. cbn [ccode eval depth] in C, L, E.
  apply code_in_app in C as [C1 C]. apply code_in_app in C as [C2 C3].
  bind_inv E vs m1. apply res_bind_Ok_inv in E as ([r m2] & Er & E). injection E as <- <-.
  pose proof (proj2 depth_pos es) as De.
  cbn [ccode]. eapply execs_app; [apply x_ld_dword; [done|done|lia]|].
  intros l1 v1 (x1 & -> & H1) S1. edestruct (IH W (l ++ [x1])) as [X Nv]; [exact S1|exact C2|rewrite len_snoc; lia|exact M|exact Ev|].
  eapply execs_app; [exact X|]. intros l2 v2 -> S2. rewrite <- app_assoc in S2.
  assert (Nu : len (u32 <$> vs) = args_len es) by (by rewrite length_fmap).
  rewrite <- app_assoc. rewrite <- Nu in C3 |- *. eapply execs_1; [|done].
  eapply run_call; [done|exact S2|lia|done|].
  rewrite (proj2 H1), ubits_sbits, Nu by (done || lia). exact Er.
Qed.

Lemma x_args (e : expr) (es : args) : expr_ok e -> args_ok es -> args_ok (ACons e es).
Proof.
  intros IH1 IH2 (W1 & P3 & W2) l pc m v vs m' S C L M E. cbn in C, L, E.
  apply code_in_app in C as [C1 C2]. bind_inv E x m1. bind_inv E ys m2. injection E as <- <-.
  assert (M1 : mapped m1) by (eapply mapped_grows, M; by eapply (proj1 eval_evals_grows)).
  destruct (IH1 W1 l pc m v x m1) as (v1 & l1 & n1 & R1 & N1 & (x1 & -> & H1) & S1); [exact S|exact C1|lia|exact M|exact Ev|].
  destruct (IH2 W2 (l ++ [x1]) (pc + len (ccode e)) m1 v1 ys m2) as [(v2 & l2 & n2 & R2 & N2 & -> & S2) Ny];
    [exact S1|exact C2|rewrite len_snoc; lia|exact M1|exact Ev0|].
  split; [|cbn; lia]. rewrite P3 in H1. destruct H1 as [_ H1]. rewrite fmap_cons, <- H1 by done.
  exists v2, (l ++ x1 :: (u32 <$> ys)), (n1 + n2)%nat. cbn [ccodes]. rewrite length_app.
  split; [by eapply reach_trans|]. split; [lia|]. split; [done|]. rewrite <- app_assoc in S2.
  by replace (pc + Z.of_nat (length (ccode e) + length (ccodes es))) with (pc + len (ccode e) + len (ccodes es)) by lia.
Qed.

(** The code of an expression leaves its value on the stack, and the memory as the
    expression does. *)
Lemma code_runs : (forall e, expr_ok e) /\ (forall es, args_ok es).
Proof.
  apply expr_args_ind; eauto using x_deref, x_binary, x_not, x_assign, x_assign_through, x_pre, x_post, x_call, x_args.
  - intros c W l pc m v a m' S C L M E. cbn in E. injection E as <- <-. eapply execs_1; [|done].
    replace (u8 c) with (u8 (u8 c)) by (by apply ubits_ubits). eapply run_ld_byte; [done|done|done|cbn in L; lia].
  - intros k w W l pc m v a m' S C L M E. cbn in E. injection E as <- <-. apply x_ld_dword; [done..|cbn in L; lia].
  - intros r W l pc m v a m' S C L M E. cbn in E. apply res_bind_Ok_inv in E as (c & Ec & E). injection E as <- <-.
    apply x_ld_value; [done..|by rewrite u32_id_addr|cbn in L; lia].
  - intros r W l pc m v a m' S C L M E. cbn in E. injection E as <- <-. apply x_ld_dword; [done..|cbn in L; lia].
  - intros W l pc m v vs m' S C L M E. cbn in E. injection E as <- <-. split; [|done].
    exists v, l, 0%nat. split; [apply reach_refl|]. split; [done|]. split; [by rewrite app_nil_r|]. by rewrite Z.add_0_r.
Qed.

End Language.
