(* ===== verification/FinshTree.v ===== *)
(** * The expression shell: syntax trees in the node table

    The node table as a forest of first children and next siblings, what the type check
    and the compiler do on it, and the compilation of whole command lines. *)

From Stdlib Require Import Lia.
From S2P Require Import Prelude KService FinshVm FinshCompiler FinshSpec.

(** ** Forests *)

Inductive forest := FNil | FCons (x : finsh_node) (children siblings : forest).

(** A node without its links. *)
Definition bare (x : finsh_node) : finsh_node := set_sibling None (set_child None x).

(** The nodes from [p] on are the forest; [ns] are their indices. *)
Fixpoint repr (tab : list finsh_node) (p : option Z) (f : forest) (ns : list nat) : Prop :=
  match f with
  | FNil => p = None /\ ns = []
  | FCons x cs ss => exists i y nc nss,
      p = Some (Z.of_nat i) /\ tab !! i = Some y /\ bare y = x /\
      repr tab (child y) cs nc /\ repr tab (sibling y) ss nss /\ ns = i :: nc ++ nss
  end.

Fixpoint height (f : forest) : nat :=
  match f with FNil => O | FCons _ cs ss => S (Nat.max (height cs) (height ss)) end.
Fixpoint siblings_of (f : forest) : Z :=
  match f with FNil => 0 | FCons _ _ ss => 1 + siblings_of ss end.

Lemma repr_other (tab tab' : list finsh_node) (f : forest) : forall p ns,
  (forall i, i ∈ ns -> tab' !! i = tab !! i) -> repr tab p f ns -> repr tab' p f ns.
Proof.
  induction f as [|x cs IHc ss IHs]; intros p ns H R; [done|].
  destruct R as (i & y & nc & nss & -> & Hi & Hx & Rc & Rs & ->). exists i, y, nc, nss.
  rewrite H by set_solver. split_and!; try done; [apply IHc; [|done]|apply IHs; [|done]]; set_solver.
Qed.

Lemma repr_height (tab : list finsh_node) (f : forest) : forall p ns, repr tab p f ns -> (height f <= length ns)%nat.
Proof.
  induction f as [|x cs IHc ss IHs]; intros p ns R; [cbn; lia|].
  destruct R as (i & y & nc & nss & -> & _ & _ & Rc & Rs & ->). cbn. rewrite length_app.
  specialize (IHc _ _ Rc). specialize (IHs _ _ Rs). lia.
Qed.

Lemma repr_siblings (tab : list finsh_node) (f : forest) : forall p ns, repr tab p f ns -> siblings_of f <= len ns.
Proof.
  induction f as [|x cs IHc ss IHs]; intros p ns R; [cbn; lia|].
  destruct R as (i & y & nc & nss & -> & _ & _ & Rc & Rs & ->). cbn. rewrite length_app.
  specialize (IHs _ _ Rs). lia.
Qed.

Lemma repr_lookup (tab : list finsh_node) (f : forest) : forall p ns i, repr tab p f ns -> i ∈ ns -> (i < length tab)%nat.
Proof.
  induction f as [|x cs IHc ss IHs]; intros p ns k R Hk.
  { destruct R as [_ ->]. by apply elem_of_nil in Hk. }
  destruct R as (i & y & nc & nss & -> & Hi & _ & Rc & Rs & ->).
  apply elem_of_cons in Hk as [->|[Hk|Hk]%elem_of_app]; [by eapply lookup_lt_Some|eauto..].
Qed.

(** No more nodes than the table has. *)
Lemma nodup_length (ns : list nat) (n : nat) : NoDup ns -> (forall i, i ∈ ns -> (i < n)%nat) -> (length ns <= n)%nat.
Proof.
  intros N H. replace n with (length (seq 0 n)) by (by rewrite length_seq).
  apply submseteq_length, NoDup_submseteq; [done|]. intros i Hi. apply elem_of_seq. specialize (H i Hi). lia.
Qed.

(** ** The type check *)

Section Check.
Context {SY : Symbols}.
Variable vars : list finsh_var.
Implicit Types (s : finsh) (f : forest) (x y : finsh_node) (tab : list finsh_node).

(** The identifier is there and its type has a width. *)
Definition leaf_ok x : Prop :=
  match node_type x with
  | FINSH_NODE_ID =>
      match node_id x with
      | IdVar i => idtype x = FINSH_IDTYPE_VAR /\ 0 <= i /\ exists v, vars !! Z.to_nat i = Some v /\ is_Some (type_data (var_type v))
      | IdSysvar v => idtype x = FINSH_IDTYPE_SYSVAR /\ is_Some (type_data (sv_type v))
      | IdSyscall _ => idtype x = FINSH_IDTYPE_SYSCALL
      | IdNull => False
      end
  | _ => True
  end.

Definition leaf_data x : option Z :=
  match node_type x with
  | FINSH_NODE_ID =>
      match node_id x with
      | IdVar i => v ← vars !! Z.to_nat i; type_data (var_type v)
      | IdSysvar v => type_data (sv_type v)
      | _ => None
      end
  | FINSH_NODE_VALUE_CHAR => Some FINSH_DATA_TYPE_BYTE
  | FINSH_NODE_VALUE_INT | FINSH_NODE_VALUE_LONG | FINSH_NODE_VALUE_STRING | FINSH_NODE_VALUE_NULL =>
      Some FINSH_DATA_TYPE_DWORD
  | _ => None
  end.

(** The mark for an address. *)
Definition mark (a : Z) x : finsh_node :=
  if idtype x =? FINSH_IDTYPE_SYSCALL then x else set_idtype (Z.lor (idtype x) a) x.

Definition data_of (a : Z) x (cs : forest) : finsh_node :=
  match cs with
  | FCons y _ _ => set_data_type (data_type y) (mark a x)
  | FNil => match leaf_data x with Some d => set_data_type d (mark a x) | None => mark a x end
  end.

Fixpoint check (a : Z) f : forest :=
  match f with
  | FNil => FNil
  | FCons x cs ss =>
      let cs := check (child_addr (node_type x) a) cs in FCons (data_of a x cs) cs (check 0 ss)
  end.

Fixpoint typed f : Prop :=
  match f with FNil => True | FCons x cs ss => (cs = FNil -> leaf_ok x) /\ typed cs /\ typed ss end.

Lemma wp_get_node s (i : nat) x (Q : finsh_node -> finsh -> Prop) :
  global_node_table s !! i = Some x -> Q x s -> wp (get_node (Z.of_nat i)) Q s.
Proof.
  intros E H. unfold get_node. do 2 wstep. eapply wp_lift_ok; [|exact H].
  apply load_at_ok; [lia|by rewrite Nat2Z.id].
Qed.

Lemma wp_put_node s (i : nat) x (Q : unit -> finsh -> Prop) :
  (i < length (global_node_table s))%nat -> Q tt (with_nodes (<[i := x]> (global_node_table s)) s) ->
  wp (put_node (Z.of_nat i) x) Q s.
Proof.
  intros L H. unfold put_node. do 3 wstep. eapply wp_lift_ok; [apply store_at_ok; lia|]. wstep. by rewrite Nat2Z.id.
Qed.

Definition addr_flag (a : Z) : Prop := a = 0 \/ a = FINSH_IDTYPE_ADDRESS.

Lemma child_addr_flag (k : node_kind) (a : Z) : addr_flag a -> addr_flag (child_addr k a).
Proof. intros [-> | ->]; destruct k; vm_compute; auto. Qed.

Lemma with_nodes_same s : with_nodes (global_node_table s) s = s.
Proof. by destruct s. Qed.

(** A leaf gets the data type of its type. *)
Definition leaf_marked x y : finsh_node := match leaf_data x with Some d => set_data_type d y | None => y end.

Lemma wp_leaf_type s (i : nat) y x (a : Z) (Q : unit -> finsh -> Prop) :
  global_node_table s !! i = Some y -> node_type y = node_type x -> node_id y = node_id x -> idtype y = idtype (mark a x) ->
  leaf_ok x -> addr_flag a -> global_variable s = vars ->
  Q tt (with_nodes (<[i := leaf_marked x y]> (global_node_table s)) s) ->
  wp (leaf_type (Z.of_nat i)) Q s.
Proof.
  intros Hi Et Ei Ed Hl Ha Hv H. pose proof (lookup_lt_Some _ _ _ Hi) as Lt. unfold leaf_type, leaf_marked in *.
  wstep. eapply wp_get_node; [done|]. cbv zeta. rewrite Et, Ei, Ed. unfold leaf_ok, leaf_data in *.
  assert (Same : forall z, z = y -> Q tt (with_nodes (<[i := z]> (global_node_table s)) s) -> Q tt s).
  { intros z ->. by rewrite list_insert_id, with_nodes_same. }
  destruct (node_type x); try (apply wp_ret; by eapply Same); try by apply wp_put_node.
  destruct (node_id x) as [|k|v|c]; [done|..].
  - destruct Hl as (I & K & v & Hk & [d Hd]). unfold mark. rewrite I. rewrite Hk in H. cbn in H. rewrite Hd in H.
    replace (flag _ FINSH_IDTYPE_VAR) with true by (by destruct Ha as [-> | ->]).
    wstep. unfold get_var. do 2 wstep. rewrite Hv. eapply wp_lift_ok; [by apply load_at_ok|]. rewrite Hd.
    by apply wp_put_node.
  - destruct Hl as (I & [d Hd]). unfold mark. rewrite I. rewrite Hd in *.
    replace (flag _ FINSH_IDTYPE_VAR) with false by (by destruct Ha as [-> | ->]).
    replace (flag _ FINSH_IDTYPE_SYSVAR) with true by (by destruct Ha as [-> | ->]). by apply wp_put_node.
  - unfold mark. rewrite (proj2 (Z.eqb_eq _ _) Hl), Hl. apply wp_ret. by eapply Same.
Qed.

(** A node without what the check writes: kind, value, identifier and links. *)
Definition unmarked x : finsh_node := set_data_type 0 (set_idtype 0 x).

Lemma unmarked_mark (a : Z) x : unmarked (mark a x) = unmarked x.
Proof. unfold mark. by destruct (idtype x =? _). Qed.

Lemma unmarked_data (a : Z) x cs : unmarked (data_of a x cs) = unmarked x.
Proof.
  unfold data_of. rewrite <- (unmarked_mark a x). destruct cs; [by destruct (leaf_data x)|done].
Qed.

(** A node with the links of [y] that is marked as [y] is to be marked. *)
Lemma unmarked_same (a : Z) x y z cs :
  bare y = x -> bare z = data_of a x cs -> child z = child y -> sibling z = sibling y -> unmarked z = unmarked y.
Proof.
  intros Hy Hz Hc Hs. pose proof (unmarked_data a x cs) as H. rewrite <- Hz, <- Hy in H.
  destruct y, z. cbn in *. injection H as -> -> ->. subst. done.
Qed.

(** What a run of the check leaves: every node as it was but for its marks, and the marked
    forest. *)
Definition checked s p f ns (a : Z) s' : Prop :=
  exists tab, s' = with_nodes tab s /\ unmarked <$> tab = unmarked <$> global_node_table s /\
    (forall i, i ∉ ns -> tab !! i = global_node_table s !! i) /\ repr tab p (check a f) ns.

Lemma unmarked_length tab tab' : unmarked <$> tab = unmarked <$> tab' -> length tab = length tab'.
Proof. intros E. by rewrite <- (length_fmap unmarked tab), E, length_fmap. Qed.

Lemma unmarked_insert tab (i : nat) y z :
  tab !! i = Some y -> unmarked z = unmarked y -> unmarked <$> <[i := z]> tab = unmarked <$> tab.
Proof. intros Hi E. rewrite list_fmap_insert, E. apply list_insert_id. by rewrite list_lookup_fmap, Hi. Qed.

Lemma wp_mark s (i : nat) y (a : Z) (Q : unit -> finsh -> Prop) :
  global_node_table s !! i = Some y -> Q tt (with_nodes (<[i := mark a y]> (global_node_table s)) s) ->
  wp (kwhen (negb (idtype y =? FINSH_IDTYPE_SYSCALL)) (put_node (Z.of_nat i) (set_idtype (Z.lor (idtype y) a) y))) Q s.
Proof.
  intros Hi H. unfold mark in H. destruct (idtype y =? _); cbn [negb kwhen].
  - apply wp_ret. by rewrite list_insert_id, with_nodes_same in H.
  - apply wp_put_node; [by eapply lookup_lt_Some|done].
Qed.

Lemma bare_mark (a : Z) y : bare (mark a y) = mark a (bare y).
Proof. unfold mark. cbn. by destruct (idtype y =? _). Qed.

Lemma mark_links (a : Z) y :
  child (mark a y) = child y /\ sibling (mark a y) = sibling y /\ node_type (mark a y) = node_type y /\
  node_id (mark a y) = node_id y.
Proof. unfold mark. by destruct (idtype y =? _). Qed.

(** Head of a forest in the table. *)
Lemma repr_head tab p x cs ss (ns : list nat) :
  repr tab p (FCons x cs ss) ns -> exists (i : nat) y, p = Some (Z.of_nat i) /\ tab !! i = Some y /\ bare y = x /\ i ∈ ns.
Proof.
  intros (i & y & nc & nss & -> & Hi & Hx & _ & _ & ->). exists i, y. split_and!; try done. set_solver.
Qed.

(** The node itself, after its children and siblings. *)
Lemma wp_check_self s (i : nat) y x (a : Z) cs (nc : list nat) (Q : unit -> finsh -> Prop) :
  global_node_table s !! i = Some y -> bare y = x -> (cs = FNil -> leaf_ok x) -> addr_flag a -> global_variable s = vars ->
  repr (global_node_table s) (child y) cs nc -> i ∉ nc ->
  (forall z, bare z = data_of a x cs -> child z = child y -> sibling z = sibling y ->
     Q tt (with_nodes (<[i := z]> (global_node_table s)) s)) ->
  wp (_ ← kwhen (negb (idtype y =? FINSH_IDTYPE_SYSCALL)) (put_node (Z.of_nat i) (set_idtype (Z.lor (idtype y) a) y));
      x ← get_node (Z.of_nat i);
      match child x with
      | Some c => y ← get_node c; put_node (Z.of_nat i) (set_data_type (data_type y) x)
      | None => leaf_type (Z.of_nat i)
      end) Q s.
Proof.
  intros Hi Hx Tl Ha Hv Rc Ni H. pose proof (lookup_lt_Some _ _ _ Hi) as Li.
  destruct (mark_links a y) as (Mc & Ms & Mt & Mi).
  wstep. apply wp_mark; [done|]. wstep. eapply wp_get_node; [cbn; by rewrite list_lookup_insert_eq|]. rewrite Mc.
  destruct cs as [|x' cs' ss'].
  - destruct Rc as [-> _]. eapply (wp_leaf_type _ i (mark a y) x a); try done.
    + cbn. by rewrite list_lookup_insert_eq.
    + by rewrite Mt, <- Hx.
    + by rewrite Mi, <- Hx.
    + rewrite <- Hx. unfold mark. cbn. by destruct (idtype y =? _).
    + by apply Tl.
    + cbn. rewrite list_insert_insert_eq. apply (H (leaf_marked x (mark a y))); unfold leaf_marked, data_of; cbn.
      * rewrite <- Hx, <- bare_mark. by destruct (leaf_data _).
      * by destruct (leaf_data _).
      * by destruct (leaf_data _).
  - apply repr_head in Rc as (c & z & -> & Hc & Hz & Hn). wstep.
    eapply wp_get_node; [cbn; rewrite list_lookup_insert_ne; [done|set_solver]|].
    apply wp_put_node; [cbn; by rewrite length_insert|]. cbn. rewrite list_insert_insert_eq.
    apply H; cbn; [|done..]. rewrite <- Hx, <- Hz. cbn. by rewrite <- bare_mark.
Qed.

Lemma wp_type_check f : forall (fuel : nat) p ns a s,
  repr (global_node_table s) p f ns -> NoDup ns -> typed f -> addr_flag a -> (height f <= fuel)%nat ->
  global_variable s = vars ->
  wp (finsh_type_check fuel p a) (fun _ s' => checked s p f ns a s') s.
Proof.
  induction f as [|x cs IHc ss IHs]; intros fuel p ns a s R N T Ha L Hv.
  { destruct R as [-> ->]. destruct fuel; cbn [finsh_type_check]; apply wp_ret; exists (global_node_table s);
      rewrite with_nodes_same; by split_and!. }
  destruct R as (i & y & nc & nss & -> & Hi & Hx & Rc & Rs & ->). cbn [height] in L. destruct fuel as [|fuel]; [lia|].
  destruct T as (Tl & Tc & Ts). apply NoDup_cons in N as [Ni N]. apply NoDup_app in N as (Nc & Nd & Ns).
  cbn [finsh_type_check]. wstep. eapply wp_get_node; [done|].
  assert (Ek : node_type y = node_type x) by (by rewrite <- Hx).
  wstep. eapply wp_mono; [apply IHc; [exact Rc|done|done|by apply child_addr_flag|lia|done]|].
  intros [] s1 (tab1 & -> & L1 & O1 & R1).
  wstep. eapply wp_get_node; [cbn; rewrite O1; [done|set_solver]|].
  wstep. eapply wp_mono; [apply IHs; [|done|done|by left|lia|done]|].
  { cbn. eapply repr_other, Rs. intros k Hk. apply O1. intros Hk'. by apply (Nd k). }
  cbn beta. intros [] s2 (tab2 & -> & L2 & O2 & R2). cbn [with_nodes global_node_table] in *.
  assert (Hi2 : tab2 !! i = Some y) by (rewrite O2, O1; [done|set_solver..]).
  pose proof (lookup_lt_Some _ _ _ Hi2) as Li.
  wstep. eapply wp_get_node; [done|].
  eapply (wp_check_self _ i y x a (check (child_addr (node_type x) a) cs) nc); try done.
  - cbn. intros E. apply Tl. by destruct cs.
  - cbn. rewrite Ek in R1. eapply repr_other, R1. intros k Hk. apply O2. by apply Nd.
  - set_solver.
  - intros z Hz Hc Hs. cbn. exists (<[i := z]> tab2). split; [done|]. split.
    { rewrite (unmarked_insert tab2 i y z); [congruence|done|by eapply unmarked_same]. }
    split.
    + intros k Hk. rewrite list_lookup_insert_ne, O2, O1 by set_solver. done.
    + cbn. exists i, z, nc, nss. split; [done|]. split; [by rewrite list_lookup_insert_eq|]. split; [done|].
      rewrite Hc, Hs, <- Ek. split; [|split; [|done]]; eapply repr_other; try exact R1; try exact R2; intros k Hk;
        rewrite list_lookup_insert_ne by set_solver; [apply O2; by apply Nd|done].
Qed.

(** ** The bytes the compiler writes *)

Definition emit1 (b : Z) s : finsh :=
  let v := f_vm s in
  Finsh (global_node_table s) (global_variable s) (global_errno s) (finsh_compile_pc s + 1)
    (Vm (finsh_vm_stack v) (finsh_sp v) (<[Z.to_nat (finsh_compile_pc s) := b]> (text_segment v)) (finsh_pc v) (vm_mem v)).
Definition emitted (bs : list Z) s : finsh := foldl (fun s b => emit1 b s) s bs.

Definition room (n : nat) s : Prop :=
  0 <= finsh_compile_pc s /\ finsh_compile_pc s + Z.of_nat n <= len (text_segment (f_vm s)).

(** [m] writes [bs], with the nodes [tab]. *)
Definition emits tab (m : ST finsh unit) (bs : list Z) : Prop :=
  forall s Q, global_node_table s = tab -> global_variable s = vars -> room (length bs) s ->
    Q tt (emitted bs s) -> wp m Q s.

Lemma emitted_same (bs : list Z) s :
  global_node_table (emitted bs s) = global_node_table s /\ global_variable (emitted bs s) = global_variable s /\
  finsh_compile_pc (emitted bs s) = finsh_compile_pc s + len bs /\
  length (text_segment (f_vm (emitted bs s))) = length (text_segment (f_vm s)).
Proof.
  revert s. induction bs as [|b bs IH]; intros s; [cbn; split_and!; try done; lia|].
  change (emitted (b :: bs) s) with (emitted bs (emit1 b s)). destruct (IH (emit1 b s)) as (-> & -> & -> & ->). cbn -[Z.of_nat]. rewrite length_insert. split_and!; try done. lia.
Qed.

Lemma emitted_app (b1 b2 : list Z) s : emitted (b1 ++ b2) s = emitted b2 (emitted b1 s).
Proof. apply foldl_app. Qed.

Lemma emitted_nodes (bs : list Z) tab s : emitted bs (with_nodes tab s) = with_nodes tab (emitted bs s).
Proof. revert s. induction bs as [|b bs IH]; intros s; [done|]. apply (IH (emit1 b s)). Qed.

Lemma emits_bind {A} tab (m : ST finsh A) (f : A -> ST finsh unit) (a : A) (bs : list Z) :
  (forall s Q, global_node_table s = tab -> global_variable s = vars -> Q a s -> wp m Q s) ->
  emits tab (f a) bs -> emits tab (m ≫= f) bs.
Proof. intros H1 H2 s Q Ht Hv R H. wstep. apply H1; [done..|]. by apply H2. Qed.

Lemma emits_app tab (m1 m2 : ST finsh unit) (b1 b2 : list Z) :
  emits tab m1 b1 -> emits tab m2 b2 -> emits tab (_ ← m1; m2) (b1 ++ b2).
Proof.
  intros H1 H2 s Q Ht Hv [R1 R2] H. wstep. rewrite length_app in R2.
  destruct (emitted_same b1 s) as (E1 & E2 & E3 & E4).
  apply H1; [done..|split; lia|]. apply H2; [congruence..|split; lia|]. unfold emitted in *. by rewrite <- foldl_app.
Qed.

Lemma emits_ret tab : emits tab (mret tt) [].
Proof. intros s Q _ _ _ H. by apply wp_ret. Qed.

Lemma emits_byte tab (x : Z) : emits tab (finsh_code_byte x) [u8 x].
Proof.
  intros s Q _ _ [R1 R2] H. cbn in R2. unfold finsh_code_byte. repeat wstep.
  eapply wp_lift_ok; [apply store_at_ok; lia|]. repeat wstep. exact H.
Qed.

Lemma emits_op tab (x : Z) : 0 <= x < 256 -> emits tab (finsh_code_byte x) [x].
Proof. intros H. rewrite <- (ubits_small 8 x) at 2 by done. apply emits_byte. Qed.

Lemma land_ff (x : Z) : 0 <= Z.land x 0xff < 256.
Proof. change 0xff with (Z.ones 8). rewrite Z.land_ones by lia. by apply Z.mod_pos_bound. Qed.

Lemma emits_dword tab (x : Z) : emits tab (finsh_code_dword x) (dword x).
Proof.
  unfold finsh_code_dword, dword. change [?a; ?b; ?c; ?d] with ([a] ++ [b] ++ [c] ++ [d]).
  repeat apply emits_app; apply emits_op; try apply land_ff.
  rewrite Z.shiftr_div_pow2 by lia. pose proof (ubits_range 32 x ltac:(lia)).
  split; [apply Z.div_pos; lia|apply Z.div_lt_upper_bound; lia].
Qed.

Lemma emits_word_1 tab : emits tab (finsh_code_word 1) [1; 0].
Proof. apply (emits_app _ _ _ [1] [0]); by apply emits_op. Qed.

Lemma emits_op_dword tab (op x : Z) :
  0 <= op < 256 -> emits tab (_ ← finsh_code_byte op; finsh_code_dword x) (op :: dword x).
Proof. intros H. apply (emits_app _ _ _ [op]); [by apply emits_op|apply emits_dword]. Qed.

Lemma get_node_at tab (i : nat) x s (Q : finsh_node -> finsh -> Prop) :
  tab !! i = Some x -> global_node_table s = tab -> global_variable s = vars -> Q x s -> wp (get_node (Z.of_nat i)) Q s.
Proof. intros Hi <- _ H. by eapply wp_get_node. Qed.

(** *** The code of one node *)

Definition var_code (d : Z) (t : finsh_type) (a : Z) : list Z :=
  match load_op t with
  | None => []
  | Some op => (if flag d FINSH_IDTYPE_ADDRESS then FINSH_OP_LD_DWORD else op) :: dword a
  end.

Definition id_code x : list Z :=
  match node_id x with
  | IdNull => []
  | IdSyscall c => FINSH_OP_LD_DWORD :: dword (sc_func c)
  | IdSysvar v => var_code (idtype x) (sv_type v) (sv_var v)
  | IdVar i => match vars !! Z.to_nat i with Some v => var_code (idtype x) (var_type v) (var_value_addr i) | None => [] end
  end.

(** The parts of the code by the data type; nothing for another one. *)
Definition by_width (d : Z) (c : list Z) : list Z := if (1 <=? d) && (d <=? 3) then c else [].

Definition pre_code (d op a : Z) : list Z :=
  by_width d ((FINSH_OP_LD_VALUE_BYTE + (d - 1) :: dword a) ++ one_code d ++
    [op + (d - 1); FINSH_OP_ST_BYTE + (d - 1); FINSH_OP_LD_VALUE_DWORD_STACK]).
Definition post_code (d op a : Z) : list Z :=
  by_width d ((FINSH_OP_LD_DWORD :: dword a) ++ (FINSH_OP_LD_VALUE_BYTE + (d - 1) :: dword a) ++ one_code d ++
    [op + (d - 1); FINSH_OP_ST_BYTE + (d - 1); FINSH_OP_POP]).

Definition binop_of (k : node_kind) : option binop :=
  match k with
  | FINSH_NODE_SYS_ADD => Some Add | FINSH_NODE_SYS_SUB => Some Sub | FINSH_NODE_SYS_MUL => Some Mul
  | FINSH_NODE_SYS_DIV => Some Div | FINSH_NODE_SYS_MOD => Some Mod | FINSH_NODE_SYS_AND => Some And
  | FINSH_NODE_SYS_OR => Some Or | FINSH_NODE_SYS_XOR => Some Xor | FINSH_NODE_SYS_SHL => Some Shl
  | FINSH_NODE_SYS_SHR => Some Shr
  | _ => None
  end.

Definition on_id (f : Z -> Z -> Z -> list Z) x (cs : forest) (op : Z) : list Z :=
  match cs with
  | FCons y _ _ => if bool_decide (node_type y = FINSH_NODE_ID) then f (data_type x) op (id_value_addr (node_id y)) else []
  | FNil => []
  end.

Definition node_code x (cs : forest) : list Z :=
  match node_type x with
  | FINSH_NODE_ID => id_code x
  | FINSH_NODE_VALUE_CHAR => [FINSH_OP_LD_BYTE; char_value (n_value x)]
  | FINSH_NODE_VALUE_INT | FINSH_NODE_VALUE_LONG => FINSH_OP_LD_DWORD :: dword (long_value (n_value x))
  | FINSH_NODE_VALUE_STRING | FINSH_NODE_VALUE_NULL => FINSH_OP_LD_DWORD :: dword (n_value x)
  | FINSH_NODE_SYS_BITWISE => by_width (data_type x) [FINSH_OP_BITWISE_BYTE + (data_type x - 1)]
  | FINSH_NODE_SYS_FUNC =>
      match cs with FCons _ _ ss => [FINSH_OP_SYSCALL; u8 (siblings_of ss)] | FNil => [] end
  | FINSH_NODE_SYS_ASSIGN =>
      match cs with
      | FCons y _ _ => [FINSH_OP_ST_BYTE + (data_type y - 1); FINSH_OP_LD_VALUE_BYTE_STACK + (data_type y - 1)]
      | FNil => []
      end
  | FINSH_NODE_SYS_PREINC => on_id pre_code x cs FINSH_OP_ADD_BYTE
  | FINSH_NODE_SYS_PREDEC => on_id pre_code x cs FINSH_OP_SUB_BYTE
  | FINSH_NODE_SYS_INC => on_id post_code x cs FINSH_OP_ADD_BYTE
  | FINSH_NODE_SYS_DEC => on_id post_code x cs FINSH_OP_SUB_BYTE
  | FINSH_NODE_SYS_GETVALUE =>
      if flag (idtype x) FINSH_IDTYPE_ADDRESS then []
      else by_width (data_type x) [FINSH_OP_LD_VALUE_BYTE_STACK + (data_type x - 1)]
  | k => match binop_of k with
         | Some o => by_width (data_type x) [binop_code o + (data_type x - 1)]
         | None => []
         end
  end.

(** What the compiler takes without an error. *)
Definition node_ok x (cs : forest) : Prop :=
  match node_type x with
  | FINSH_NODE_ID =>
      match node_id x with
      | IdNull => False
      | IdSyscall _ => flag (idtype x) FINSH_IDTYPE_SYSCALL = true
      | IdSysvar _ => flag (idtype x) FINSH_IDTYPE_SYSCALL = false /\ flag (idtype x) FINSH_IDTYPE_SYSVAR = true
      | IdVar i => flag (idtype x) FINSH_IDTYPE_SYSCALL = false /\ flag (idtype x) FINSH_IDTYPE_SYSVAR = false /\
                   0 <= i /\ is_Some (vars !! Z.to_nat i)
      end
  | FINSH_NODE_SYS_ASSIGN =>
      match cs with
      | FCons y _ _ => width_ok (data_type y) /\ (node_type y = FINSH_NODE_ID \/ node_type y = FINSH_NODE_SYS_GETVALUE)
      | FNil => False
      end
  | FINSH_NODE_SYS_CAST | FINSH_NODE_UNKNOWN | FINSH_NODE_SYS_NULL => False
  | _ => True
  end.

Fixpoint code (f : forest) : list Z :=
  match f with FNil => [] | FCons x cs ss => code cs ++ node_code x cs ++ code ss end.
Fixpoint code_ok (f : forest) : Prop :=
  match f with FNil => True | FCons x cs ss => node_ok x cs /\ code_ok cs /\ code_ok ss end.

(** *** The compiler writes this code *)

#[local] Instance width_ok_dec (d : Z) : Decision (width_ok d).
Proof. unfold width_ok. apply _. Defined.

Lemma by_width_not (d : Z) (c : list Z) : ~ width_ok d -> by_width d c = [].
Proof.
  intros H. unfold by_width. destruct (_ && _) eqn:E; [|done]. b2p. destruct H. done.
Qed.

Lemma not_width (d : Z) : ~ width_ok d -> (d =? FINSH_DATA_TYPE_BYTE) = false /\ (d =? FINSH_DATA_TYPE_WORD) = false /\ (d =? FINSH_DATA_TYPE_DWORD) = false.
Proof. intros H. unfold width_ok in H. split_and!; apply Z.eqb_neq; unfold FINSH_DATA_TYPE_BYTE, FINSH_DATA_TYPE_WORD, FINSH_DATA_TYPE_DWORD; lia. Qed.

(** A switch on the data type: three cases, and nothing otherwise. *)
Lemma emits_switch tab (d : Z) (m1 m2 m3 : ST finsh unit) (c : list Z) :
  (d = 1 -> emits tab m1 c) -> (d = 2 -> emits tab m2 c) -> (d = 3 -> emits tab m3 c) ->
  emits tab (if d =? FINSH_DATA_TYPE_BYTE then m1 else if d =? FINSH_DATA_TYPE_WORD then m2
             else if d =? FINSH_DATA_TYPE_DWORD then m3 else mret tt) (by_width d c).
Proof.
  intros H1 H2 H3. destruct (decide (width_ok d)) as [W|W].
  - revert H1 H2 H3. pattern d. apply width_cases; [done|..]; intros H1 H2 H3; cbn; auto.
  - destruct (not_width d W) as (-> & -> & ->). rewrite by_width_not by done. apply emits_ret.
Qed.

Lemma emits_typed tab (d op : Z) :
  0 <= op < 250 -> emits tab (code_typed d op) (by_width d [op + (d - 1)]).
Proof.
  intros H. apply emits_switch; intros ->; (replace (op + (1 - 1)) with op by lia || idtac);
    [apply emits_op; lia|apply emits_op; lia|apply emits_op; lia].
Qed.

Lemma emits_pre tab (d op a : Z) : 0 <= op < 250 -> emits tab (code_pre d op a) (pre_code d op a).
Proof.
  intros H. unfold pre_code. apply emits_switch; intros ->; unfold one_code; cbn [Z.eqb Pos.eqb];
    (apply (emits_app _ _ _ [_]); [by apply emits_op|]); (apply (emits_app _ _ _ (dword a)); [apply emits_dword|]);
    (apply (emits_app _ _ _ [_]); [by apply emits_op|]).
  - apply (emits_app _ _ _ [1]); [by apply emits_op|]. rewrite Z.add_0_r.
    apply (emits_app _ _ _ [op]); [apply emits_op; lia|]. by apply (emits_app _ _ _ [_] [_]); apply emits_op.
  - apply (emits_app _ _ _ [1; 0]); [apply emits_word_1|].
    apply (emits_app _ _ _ [op + 1]); [apply emits_op; lia|]. by apply (emits_app _ _ _ [_] [_]); apply emits_op.
  - apply (emits_app _ _ _ (dword 1)); [apply emits_dword|].
    apply (emits_app _ _ _ [op + 2]); [apply emits_op; lia|]. by apply (emits_app _ _ _ [_] [_]); apply emits_op.
Qed.

Lemma emits_post tab (d op a : Z) : 0 <= op < 250 -> emits tab (code_post d op a) (post_code d op a).
Proof.
  intros H. unfold post_code. apply emits_switch; intros ->; unfold one_code; cbn [Z.eqb Pos.eqb];
    (apply (emits_app _ _ _ [_]); [by apply emits_op|]); (apply (emits_app _ _ _ (dword a)); [apply emits_dword|]);
    (apply (emits_app _ _ _ [_]); [by apply emits_op|]); (apply (emits_app _ _ _ (dword a)); [apply emits_dword|]);
    (apply (emits_app _ _ _ [_]); [by apply emits_op|]).
  - apply (emits_app _ _ _ [1]); [by apply emits_op|]. rewrite Z.add_0_r.
    apply (emits_app _ _ _ [op]); [apply emits_op; lia|]. by apply (emits_app _ _ _ [_] [_]); apply emits_op.
  - apply (emits_app _ _ _ [1; 0]); [apply emits_word_1|].
    apply (emits_app _ _ _ [op + 1]); [apply emits_op; lia|]. by apply (emits_app _ _ _ [_] [_]); apply emits_op.
  - apply (emits_app _ _ _ (dword 1)); [apply emits_dword|].
    apply (emits_app _ _ _ [op + 2]); [apply emits_op; lia|]. by apply (emits_app _ _ _ [_] [_]); apply emits_op.
Qed.

Lemma emits_store tab (d : Z) :
  width_ok d -> emits tab (code_store d) [FINSH_OP_ST_BYTE + (d - 1); FINSH_OP_LD_VALUE_BYTE_STACK + (d - 1)].
Proof.
  intros W. pattern d. apply width_cases; [done|..]; by apply (emits_app _ _ _ [_] [_]); apply emits_op.
Qed.

Lemma emits_variable tab (d : Z) (t : finsh_type) (a : Z) : emits tab (code_variable d t a) (var_code d t a).
Proof.
  unfold code_variable, var_code. destruct (load_op t) as [op|] eqn:E; [|apply emits_ret].
  apply emits_op_dword. destruct (flag _ _); [done|]. by destruct t; try discriminate; injection E as <-.
Qed.

Lemma emits_id tab x y : node_type x = FINSH_NODE_ID -> bare y = x -> node_ok x FNil -> emits tab (code_id y) (id_code x).
Proof.
  intros Ek <- Ho. unfold node_ok in Ho. rewrite Ek in Ho. unfold code_id, id_code. cbn [bare set_sibling set_child node_id idtype] in *.
  destruct (node_id y) as [|k|v|c]; [done|..].
  - destruct Ho as (-> & -> & K & [v Hv]). rewrite Hv.
    eapply (emits_bind _ _ _ v); [|apply emits_variable].
    intros s Q _ Ev H. unfold get_var. do 2 wstep. eapply wp_lift_ok; [|exact H]. apply load_at_ok; [done|by rewrite Ev].
  - destruct Ho as (-> & ->). apply emits_variable.
  - rewrite Ho. by apply emits_op_dword.
Qed.

Lemma wp_count tab f : forall p ns (fuel : nat) (n : Z) s (Q : Z -> finsh -> Prop),
  repr tab p f ns -> (height f <= fuel)%nat -> global_node_table s = tab ->
  Q (n + siblings_of f) s -> wp (count_siblings fuel p n) Q s.
Proof.
  induction f as [|x cs _ ss IHs]; intros p ns fuel n s Q R L Ht H.
  { destruct R as [-> _]. rewrite Z.add_0_r in H. by destruct fuel. }
  destruct R as (i & y & nc & nss & -> & Hi & Hx & Rc & Rs & _). cbn [height] in L. destruct fuel as [|fuel]; [lia|].
  cbn [count_siblings]. wstep. eapply wp_get_node; [by rewrite Ht|]. eapply IHs; [done|lia|done|].
  cbn [siblings_of] in H. by replace (n + 1 + siblings_of ss) with (n + (1 + siblings_of ss)) by lia.
Qed.

Lemma emits_step tab (h : Z -> Z -> Z -> ST finsh unit) (op : Z) x y cs ns (g : Z -> Z -> Z -> list Z) :
  bare y = x -> repr tab (child y) cs ns -> (forall d a, emits tab (h d op a) (g d op a)) ->
  emits tab (code_step h op y) (on_id g x cs op).
Proof.
  intros <- R H. unfold code_step, on_id. destruct cs as [|z cs' ss'].
  - destruct R as [-> _]. apply emits_ret.
  - apply repr_head in R as (c & z' & -> & Hc & <- & _).
    eapply emits_bind; [intros s Q; by apply get_node_at|]. cbn. case_bool_decide; [apply H|apply emits_ret].
Qed.

Lemma width_land (d : Z) : width_ok d -> Z.land d 0x0F = d.
Proof. intros W. pattern d. by apply width_cases. Qed.

Lemma emits_assign tab x y z (cs ss : forest) ns :
  node_type x = FINSH_NODE_SYS_ASSIGN -> bare y = x -> repr tab (child y) (FCons z cs ss) ns -> node_ok x (FCons z cs ss) ->
  emits tab (code_assign y) (node_code x (FCons z cs ss)).
Proof.
  intros Ek Hx R Ho. unfold node_ok, node_code in *. rewrite Ek in *. destruct Ho as [W K].
  apply repr_head in R as (c & z' & Ec & Hc & <- & _). unfold code_assign. rewrite Ec.
  eapply emits_bind; [intros s Q _ _ H; by eapply wp_lift_ok|].
  eapply emits_bind; [intros s Q; by apply get_node_at|]. cbn in *. destruct K as [K|K]; rewrite K.
  - by apply emits_store.
  - rewrite bool_decide_false, bool_decide_true, width_land by done. by apply emits_store.
Qed.

Lemma emits_call tab x y cs ns (fuel : nat) :
  node_type x = FINSH_NODE_SYS_FUNC -> bare y = x -> repr tab (child y) cs ns -> (height cs <= fuel)%nat ->
  emits tab (code_call fuel y) (node_code x cs).
Proof.
  intros Ek Hx R L. unfold node_code. rewrite Ek. unfold code_call. destruct cs as [|z cs' ss'].
  - destruct R as [-> _]. apply emits_ret.
  - destruct R as (i & z' & nc & nss & -> & Hi & _ & _ & Rs & _).
    eapply emits_bind; [intros s Q; by apply get_node_at|].
    eapply emits_bind; [|apply (emits_app _ _ _ [FINSH_OP_SYSCALL]); [by apply emits_op|apply emits_byte]].
    intros s Q Ht _ H. eapply wp_count; [exact Rs| |exact Ht|exact H]. cbn in L. lia.
Qed.

Lemma emits_node tab x y cs ns (fuel : nat) :
  bare y = x -> repr tab (child y) cs ns -> (height cs <= fuel)%nat -> node_ok x cs ->
  emits tab (code_node fuel y) (node_code x cs).
Proof.
  intros Hx R L Ho. assert (Ek : node_type y = node_type x) by (by rewrite <- Hx). unfold code_node. rewrite Ek.
  destruct (node_type x) eqn:K; try (unfold node_ok in Ho; rewrite K in Ho; done);
    try (eapply emits_call; done);
    try (unfold node_code; rewrite K; subst x; cbn -[by_width]; by first
      [ apply emits_ret | apply emits_op_dword | apply emits_typed | eapply emits_step; [done|done|intros; by apply emits_pre]
      | eapply emits_step; [done|done|intros; by apply emits_post]
      | apply (emits_app _ _ _ [_] [_]); [by apply emits_op|apply emits_op; by apply ubits_range] ]).
  - unfold node_code. rewrite K. apply emits_id; [done|done|]. unfold node_ok in *. by rewrite K in *.
  - destruct cs as [|z cs' ss']; [unfold node_ok in Ho; by rewrite K in Ho|]. by eapply emits_assign.
  - unfold node_code. rewrite K. subst x. cbn -[by_width]. unfold code_getvalue. destruct (flag _ _); [apply emits_ret|].
    by apply emits_switch; intros ->; apply emits_op.
Qed.

Lemma emits_compile tab f : forall p ns (fuel : nat),
  repr tab p f ns -> (height f <= fuel)%nat -> code_ok f -> emits tab (finsh_compile fuel p) (code f).
Proof.
  induction f as [|x cs IHc ss IHs]; intros p ns fuel R L Ho.
  { destruct R as [-> _]. destruct fuel; apply emits_ret. }
  destruct R as (i & y & nc & nss & -> & Hi & Hx & Rc & Rs & _). cbn [height] in L. destruct fuel as [|fuel]; [lia|].
  destruct Ho as (Hn & Hc & Hs). cbn [finsh_compile code].
  eapply emits_bind; [intros s Q; by apply get_node_at|].
  apply emits_app; [eapply IHc; [done|lia|done]|]. apply emits_app; [|eapply IHs; [done|lia|done]].
  eapply emits_node; [done|done|lia|done].
Qed.

(** *** Statements *)

Fixpoint stmts_code (f : forest) : list Z :=
  match f with
  | FNil => []
  | FCons x cs ss => (code cs ++ node_code x cs) ++ (match ss with FNil => [] | _ => [FINSH_OP_POP] end) ++ stmts_code ss
  end.

(** The cut of the siblings is no change to what comes behind. *)
Lemma wp_statements f : forall p ns (fuel : nat) s (Q : unit -> finsh -> Prop),
  repr (global_node_table s) p f ns -> NoDup ns -> (height f < fuel)%nat -> code_ok f -> global_variable s = vars ->
  room (length (stmts_code f)) s ->
  (forall tab, Q tt (with_nodes tab (emitted (stmts_code f) s))) -> wp (compile_statements fuel p) Q s.
Proof.
  induction f as [|x cs _ ss IHs]; intros p ns fuel s Q R N L Ho Hv Hr H.
  { destruct R as [-> _]. specialize (H (global_node_table s)). cbn in H. rewrite with_nodes_same in H. by destruct fuel. }
  destruct R as (i & y & nc & nss & -> & Hi & Hx & Rc & Rs & ->). cbn [height] in L. destruct fuel as [|fuel]; [lia|].
  apply NoDup_cons in N as [Ni N]. apply NoDup_app in N as (_ & _ & Ns).
  destruct Ho as (Hn & Hc & Hs). cbn [compile_statements]. cbn [stmts_code] in *.
  pose proof (lookup_lt_Some _ _ _ Hi) as Li.
  wstep. eapply wp_get_node; [done|]. wstep. apply wp_put_node; [done|]. wstep.
  set (tab := <[i := set_sibling None y]> (global_node_table s)). set (s1 := with_nodes tab s).
  assert (Hp : (if is_some (sibling y) then [FINSH_OP_POP] else []) = (match ss with FNil => [] | _ => [FINSH_OP_POP] end)).
  { destruct ss as [|z cs' ss']; [by destruct Rs as [-> _]|]. by apply repr_head in Rs as (c & z' & -> & _). }
  assert (C : emits tab (finsh_compile fuel (Some (Z.of_nat i))) (code cs ++ node_code x cs)).
  { replace (code cs ++ node_code x cs) with (code (FCons x cs FNil)) by (cbn; by rewrite app_nil_r).
    eapply (emits_compile tab (FCons x cs FNil) _ (i :: nc)); [|cbn; lia|by split_and!].
    exists i, (set_sibling None y), nc, []. split_and!; try done; [| |by rewrite app_nil_r].
    - unfold tab. by rewrite list_lookup_insert_eq.
    - eapply repr_other, Rc. intros k Hk. unfold tab. rewrite list_lookup_insert_ne; [done|set_solver]. }
  assert (R1 : room (length (code cs ++ node_code x cs)) s1).
  { destruct Hr as [H1 H2]. rewrite length_app in H2. split; cbn in *; lia. }
  apply C; [done|done|done|]. wstep. set (s2 := emitted _ s1).
  destruct (emitted_same (code cs ++ node_code x cs) s1) as (E1 & E2 & E3 & E4). fold s2 in E1, E2, E3, E4.
  assert (P : emits tab (kwhen (is_some (sibling y)) (finsh_code_byte FINSH_OP_POP)) (match ss with FNil => [] | _ => [FINSH_OP_POP] end)).
  { rewrite <- Hp. destruct (is_some (sibling y)); [by apply emits_op|apply emits_ret]. }
  apply P; [by rewrite E1|by rewrite E2| |].
  { destruct Hr as [H1 H2]. rewrite !length_app in H2. split; [rewrite E3; cbn; lia|].
    rewrite E3, E4. cbn. rewrite length_app. cbn in *. lia. }
  set (s3 := emitted _ s2). destruct (emitted_same (match ss with FNil => [] | _ => [FINSH_OP_POP] end) s2) as (F1 & F2 & F3 & F4).
  fold s3 in F1, F2, F3, F4.
  apply (IHs _ nss); [|done|lia|done|by rewrite F2, E2| |].
  - rewrite F1, E1. eapply repr_other, Rs. intros k Hk. cbn. unfold tab. rewrite list_lookup_insert_ne; [done|set_solver].
  - destruct Hr as [H1 H2]. rewrite !length_app in H2. split; [rewrite F3, E3; cbn; lia|].
    rewrite F3, F4, E3, E4. cbn. rewrite length_app. cbn in *. lia.
  - intros tab'. specialize (H tab'). unfold s3, s2, s1.
    replace (with_nodes tab' (emitted (stmts_code ss) _)) with (with_nodes tab' (emitted ((code cs ++ node_code x cs) ++
      (match ss with FNil => [] | _ => [FINSH_OP_POP] end) ++ stmts_code ss) s)); [done|].
    rewrite !emitted_app, !emitted_nodes. done.
Qed.

(** ** The tree of an expression *)

Definition sys_node (k : node_kind) : finsh_node := FinshNode k 0 0 0 IdNull None None.
Definition value_node (k : node_kind) (v : Z) : finsh_node := FinshNode k 0 0 v IdNull None None.
Definition id_node (r : idref) : finsh_node :=
  FinshNode FINSH_NODE_ID 0
    (match r with
     | IdVar _ => FINSH_IDTYPE_VAR | IdSysvar _ => FINSH_IDTYPE_SYSVAR | IdSyscall _ => FINSH_IDTYPE_SYSCALL | IdNull => 0
     end) 0 r None None.

Definition binop_kind (o : binop) : node_kind :=
  match o with
  | Add => FINSH_NODE_SYS_ADD | Sub => FINSH_NODE_SYS_SUB | Mul => FINSH_NODE_SYS_MUL | Div => FINSH_NODE_SYS_DIV
  | Mod => FINSH_NODE_SYS_MOD | And => FINSH_NODE_SYS_AND | Or => FINSH_NODE_SYS_OR | Xor => FINSH_NODE_SYS_XOR
  | Shl => FINSH_NODE_SYS_SHL | Shr => FINSH_NODE_SYS_SHR
  end.

Definition pre_kind (dec : bool) : node_kind := if dec then FINSH_NODE_SYS_PREDEC else FINSH_NODE_SYS_PREINC.
Definition post_kind (dec : bool) : node_kind := if dec then FINSH_NODE_SYS_DEC else FINSH_NODE_SYS_INC.

(** The tree of [e], with the siblings [ss] behind it. *)
Fixpoint elab (e : expr) (ss : forest) : forest :=
  match e with
  | EChar c => FCons (value_node FINSH_NODE_VALUE_CHAR (u8 c)) FNil ss
  | EConst k w => FCons (value_node k (u32 w)) FNil ss
  | EId r => FCons (id_node r) FNil ss
  | EAddr r => FCons (sys_node FINSH_NODE_SYS_GETADDR) (FCons (id_node r) FNil FNil) ss
  | EDeref e => FCons (sys_node FINSH_NODE_SYS_GETVALUE) (elab e FNil) ss
  | EBin o e1 e2 => FCons (sys_node (binop_kind o)) (elab e1 (elab e2 FNil)) ss
  | ENot e => FCons (sys_node FINSH_NODE_SYS_BITWISE) (elab e FNil) ss
  | EAssign r e => FCons (sys_node FINSH_NODE_SYS_ASSIGN) (FCons (id_node r) FNil (elab e FNil)) ss
  | EStore p e =>
      FCons (sys_node FINSH_NODE_SYS_ASSIGN) (FCons (sys_node FINSH_NODE_SYS_GETVALUE) (elab p FNil) (elab e FNil)) ss
  | EPre dec i =>
      FCons (sys_node (pre_kind dec)) (FCons (id_node (IdVar i)) FNil FNil) ss
  | EPost dec i =>
      FCons (sys_node (post_kind dec)) (FCons (id_node (IdVar i)) FNil FNil) ss
  | ECall c es => FCons (sys_node FINSH_NODE_SYS_FUNC) (FCons (id_node (IdSyscall c)) FNil (elabs es)) ss
  end
with elabs (es : args) : forest :=
  match es with ANil => FNil | ACons e es => elab e (elabs es) end.

Fixpoint elab_stmts (es : list expr) : forest :=
  match es with [] => FNil | e :: es => elab e (elab_stmts es) end.

Abbreviation ety := (FinshSpec.ety vars). Abbreviation wt := (FinshSpec.wt vars). Abbreviation wts := (FinshSpec.wts vars).
Abbreviation ccode := (FinshSpec.ccode vars). Abbreviation ccodes := (FinshSpec.ccodes vars).

Definition elab_ok (e : expr) (ss : forest) : Prop :=
  typed (elab e ss) /\ code_ok (check 0 (elab e ss)) /\
  code (check 0 (elab e ss)) = ccode e ++ code (check 0 ss) /\
  exists x cs, check 0 (elab e ss) = FCons x cs (check 0 ss) /\ data_type x = ety e.

Lemma dword_ubits (x : Z) : dword (u32 x) = dword x.
Proof. unfold dword. by rewrite !ubits_ubits by lia. Qed.
Lemma dword_sbits (x : Z) : dword (s32 x) = dword x.
Proof. unfold dword. by rewrite !ubits_sbits by lia. Qed.

Lemma type_width_data (t : finsh_type) : width_ok (type_width t) -> type_data t = Some (type_width t).
Proof. by destruct t; intros [? ?]. Qed.

Lemma type_width_load (t : finsh_type) :
  width_ok (type_width t) -> load_op t = Some (FINSH_OP_LD_VALUE_BYTE + (type_width t - 1)).
Proof. by destruct t; intros [? ?]. Qed.

(** An identifier with a width: what the check and the compiler make of it. *)
Lemma id_ok (r : idref) (a : Z) : addr_flag a -> width_ok (id_width vars r) ->
  leaf_ok (id_node r) /\ leaf_data (id_node r) = Some (id_width vars r) /\
  node_ok (set_data_type (id_width vars r) (mark a (id_node r))) FNil /\
  node_code (set_data_type (id_width vars r) (mark a (id_node r))) FNil =
    (if a =? 0 then FINSH_OP_LD_VALUE_BYTE + (id_width vars r - 1) else FINSH_OP_LD_DWORD) :: dword (id_addr r).
Proof.
  intros Ha W. destruct r as [|i|v|c]; try by destruct W.
  - cbn in W. destruct (0 <=? i) eqn:K; [|by destruct W]. destruct (vars !! Z.to_nat i) as [v|] eqn:Hv; [|by destruct W].
    cbn in W. b2p. assert (Ew : id_width vars (IdVar i) = type_width (var_type v)).
    { unfold id_width. rewrite (proj2 (Z.leb_le 0 i)), Hv by done. done. }
    rewrite Ew. split; [|split; [|split]].
    + cbn. split; [done|]. split; [done|]. exists v. split; [done|]. rewrite type_width_data by done. eauto.
    + cbn. rewrite Hv. cbn. by apply type_width_data.
    + cbn. rewrite Hv. destruct Ha as [-> | ->]; cbn; eauto 8.
    + unfold node_code, id_code, mark. cbn. rewrite Hv. unfold var_code. rewrite type_width_load by done.
      unfold id_addr. rewrite dword_ubits. by destruct Ha as [-> | ->].
  - cbn in W. cbn [id_width]. split; [|split; [|split]].
    + cbn. split; [done|]. rewrite type_width_data by done. eauto.
    + cbn. by apply type_width_data.
    + cbn. by destruct Ha as [-> | ->].
    + unfold node_code, id_code, mark. cbn. unfold var_code. rewrite type_width_load by done.
      unfold id_addr. rewrite dword_ubits. by destruct Ha as [-> | ->].
Qed.

(** The checked leaf of an identifier. *)
Definition id_leaf (r : idref) (a : Z) : finsh_node := set_data_type (id_width vars r) (mark a (id_node r)).

Lemma check_id (r : idref) (a : Z) (ss : forest) :
  addr_flag a -> width_ok (id_width vars r) -> check a (FCons (id_node r) FNil ss) = FCons (id_leaf r a) FNil (check 0 ss).
Proof. intros Ha W. cbn -[leaf_data mark]. by rewrite (proj1 (proj2 (id_ok r a Ha W))). Qed.

Lemma id_leaf_facts (r : idref) (a : Z) :
  data_type (id_leaf r a) = id_width vars r /\ node_type (id_leaf r a) = FINSH_NODE_ID /\ node_id (id_leaf r a) = r.
Proof. destruct (mark_links a (id_node r)) as (_ & _ & T & I). unfold id_leaf. cbn. by rewrite T, I. Qed.

Lemma by_width_ok (d : Z) (c : list Z) : width_ok d -> by_width d c = c.
Proof. intros [H1 H2]. unfold by_width. by rewrite !(proj2 (Z.leb_le _ _)) by lia. Qed.

Lemma siblings_check (f : forest) : forall a, siblings_of (check a f) = siblings_of f.
Proof. induction f as [|x cs _ ss IH]; intros a; [done|]. cbn. by rewrite IH. Qed.

Lemma siblings_elab (es : args) : siblings_of (elabs es) = args_len es.
Proof. induction es as [|e es IH]; [done|]. cbn. rewrite <- IH. by destruct e. Qed.

Lemma elab_not_nil (e : expr) (ss : forest) : elab e ss <> FNil.
Proof. by destruct e. Qed.

(** A node over a checked forest. *)
Lemma check_parent (k : node_kind) (a : Z) (C ss : forest) x cs rest :
  check (child_addr k a) C = FCons x cs rest ->
  check a (FCons (sys_node k) C ss) = FCons (set_data_type (data_type x) (mark a (sys_node k))) (FCons x cs rest) (check 0 ss).
Proof. intros E. cbn [check sys_node node_type]. by rewrite E. Qed.

(** What a node over [C] needs; [c] is its own code. *)
Lemma elab_parent (k : node_kind) (C ss : forest) x cs rest (c0 c : list Z) :
  check (child_addr k 0) C = FCons x cs rest -> C <> FNil -> typed C -> code_ok (FCons x cs rest) ->
  code (FCons x cs rest) = c0 ->
  node_ok (set_data_type (data_type x) (mark 0 (sys_node k))) (FCons x cs rest) ->
  node_code (set_data_type (data_type x) (mark 0 (sys_node k))) (FCons x cs rest) = c ->
  typed ss -> code_ok (check 0 ss) ->
  typed (FCons (sys_node k) C ss) /\ code_ok (check 0 (FCons (sys_node k) C ss)) /\
  code (check 0 (FCons (sys_node k) C ss)) = (c0 ++ c) ++ code (check 0 ss) /\
  exists x' cs', check 0 (FCons (sys_node k) C ss) = FCons x' cs' (check 0 ss) /\ data_type x' = data_type x.
Proof.
  intros E NC TC OC Ec No Nc Ts Os. rewrite (check_parent k 0 C ss x cs rest E).
  split; [split; [done|by split]|]. split; [by split_and!|]. split; [|by eauto].
  change (code (FCons x cs rest) ++ node_code (set_data_type (data_type x) (mark 0 (sys_node k))) (FCons x cs rest) ++ code (check 0 ss)
    = (c0 ++ c) ++ code (check 0 ss)). by rewrite Ec, Nc, app_assoc.
Qed.

Definition elabs_ok (es : args) : Prop :=
  typed (elabs es) /\ code_ok (check 0 (elabs es)) /\ code (check 0 (elabs es)) = ccodes es.

Lemma code_alone (f : forest) (c : list Z) : code f = c ++ code (check 0 FNil) -> code f = c.
Proof. intros ->. apply app_nil_r. Qed.

Lemma elab_deref (e : expr) ss : elab_ok e FNil -> width_ok (ety e) -> typed ss -> code_ok (check 0 ss) -> elab_ok (EDeref e) ss.
Proof.
  intros (T & O & C & x & cs & E & D) W Ts Os. unfold elab_ok. rewrite E in O, C. apply code_alone in C.
  cbn [elab FinshSpec.ccode FinshSpec.ety]. rewrite <- D in W |- *.
  apply (elab_parent FINSH_NODE_SYS_GETVALUE _ ss x cs FNil); try done; [apply elab_not_nil|].
  unfold node_code. cbn -[by_width]. by apply by_width_ok.
Qed.

Lemma elab_not (e : expr) ss : elab_ok e FNil -> width_ok (ety e) -> typed ss -> code_ok (check 0 ss) -> elab_ok (ENot e) ss.
Proof.
  intros (T & O & C & x & cs & E & D) W Ts Os. unfold elab_ok. rewrite E in O, C. apply code_alone in C.
  cbn [elab FinshSpec.ccode FinshSpec.ety]. rewrite <- D in W |- *.
  apply (elab_parent FINSH_NODE_SYS_BITWISE _ ss x cs FNil); try done; [apply elab_not_nil|].
  unfold node_code. cbn -[by_width]. by apply by_width_ok.
Qed.

Lemma elab_binary (o : binop) (e1 e2 : expr) ss :
  elab_ok e1 (elab e2 FNil) -> elab_ok e2 FNil -> width_ok (ety e1) -> typed ss -> code_ok (check 0 ss) ->
  elab_ok (EBin o e1 e2) ss.
Proof.
  intros (T & O & C & x & cs & E & D) (_ & _ & C2 & _) W Ts Os. unfold elab_ok. rewrite E in O, C.
  apply code_alone in C2. rewrite C2 in C.
  assert (K : child_addr (binop_kind o) 0 = 0) by (by destruct o).
  cbn [elab FinshSpec.ccode FinshSpec.ety]. rewrite <- D in W |- *. rewrite app_assoc.
  eapply (elab_parent (binop_kind o) _ ss x cs); [by rewrite K, E|apply elab_not_nil|done|done|done| | |done|done].
  - by destruct o.
  - unfold node_code. by destruct o; cbn -[by_width]; apply by_width_ok.
Qed.

Lemma id_leaf_code (r : idref) (a : Z) (f : forest) : addr_flag a -> width_ok (id_width vars r) ->
  code (FCons (id_leaf r a) FNil f) =
    ((if a =? 0 then FINSH_OP_LD_VALUE_BYTE + (id_width vars r - 1) else FINSH_OP_LD_DWORD) :: dword (id_addr r)) ++ code f.
Proof.
  intros Ha W. change (node_code (id_leaf r a) FNil ++ code f = ((if a =? 0 then FINSH_OP_LD_VALUE_BYTE + (id_width vars r - 1)
    else FINSH_OP_LD_DWORD) :: dword (id_addr r)) ++ code f). f_equal. by apply id_ok.
Qed.

Lemma id_leaf_ok (r : idref) (a : Z) (f : forest) : addr_flag a -> width_ok (id_width vars r) ->
  code_ok f -> code_ok (FCons (id_leaf r a) FNil f).
Proof. intros Ha W Of. split; [|by split]. by apply id_ok. Qed.

Lemma typed_id (r : idref) (f : forest) : width_ok (id_width vars r) -> typed f -> typed (FCons (id_node r) FNil f).
Proof. intros W Tf. split; [|by split]. intros _. by apply (id_ok r 0 (or_introl eq_refl)). Qed.

Lemma elab_id (r : idref) ss : width_ok (id_width vars r) -> typed ss -> code_ok (check 0 ss) -> elab_ok (EId r) ss.
Proof.
  intros W Ts Os. assert (A : addr_flag 0) by (by left). unfold elab_ok. cbn [elab]. rewrite (check_id r 0 ss A W).
  split; [by apply typed_id|]. split; [by apply id_leaf_ok|]. split; [by rewrite id_leaf_code|].
  exists (id_leaf r 0), FNil. split; [done|apply id_leaf_facts].
Qed.

Lemma elab_addr (r : idref) ss : width_ok (id_width vars r) -> typed ss -> code_ok (check 0 ss) -> elab_ok (EAddr r) ss.
Proof.
  intros W Ts Os. assert (A : addr_flag 8) by (by right). unfold elab_ok. cbn [elab FinshSpec.ccode FinshSpec.ety].
  destruct (id_leaf_facts r 8) as (D & _ & _). rewrite <- D, <- (app_nil_r (_ :: dword _)).
  apply (elab_parent FINSH_NODE_SYS_GETADDR _ ss _ _ _ _ _ (check_id r 8 FNil A W)); try done.
  - by apply typed_id.
  - by apply id_leaf_ok.
  - rewrite id_leaf_code by done. by rewrite app_nil_r.
Qed.

Lemma elab_assign (r : idref) (e : expr) ss :
  elab_ok e FNil -> width_ok (id_width vars r) -> typed ss -> code_ok (check 0 ss) -> elab_ok (EAssign r e) ss.
Proof.
  intros (T & O & C & _) W Ts Os. assert (A : addr_flag 8) by (by right). unfold elab_ok. cbn [elab FinshSpec.ccode FinshSpec.ety].
  destruct (id_leaf_facts r 8) as (D & K & _). rewrite <- D. rewrite app_assoc. apply code_alone in C.
  apply (elab_parent FINSH_NODE_SYS_ASSIGN _ ss _ _ _ _ _ (check_id r 8 _ A W)); try done.
  - by apply typed_id.
  - by apply id_leaf_ok.
  - rewrite id_leaf_code by done. by rewrite C.
  - split; [done|by left].
Qed.

Lemma elab_store (p e : expr) ss :
  elab_ok p FNil -> elab_ok e FNil -> width_ok (ety p) -> typed ss -> code_ok (check 0 ss) -> elab_ok (EStore p e) ss.
Proof.
  intros (T & O & C & x & cs & E & D) (T2 & O2 & C2 & _) W Ts Os. unfold elab_ok. cbn [elab FinshSpec.ccode FinshSpec.ety].
  rewrite E in O, C. apply code_alone in C, C2.
  assert (G : check 8 (FCons (sys_node FINSH_NODE_SYS_GETVALUE) (elab p FNil) (elab e FNil)) =
    FCons (set_data_type (data_type x) (mark 8 (sys_node FINSH_NODE_SYS_GETVALUE))) (FCons x cs FNil) (check 0 (elab e FNil))).
  { by apply check_parent. }
  rewrite <- D in W |- *. rewrite app_assoc.
  apply (elab_parent FINSH_NODE_SYS_ASSIGN _ ss _ _ _ _ _ G); try done.
  - change (code (FCons x cs FNil) ++ code (check 0 (elab e FNil)) = ccode p ++ ccode e). change (check 0 FNil) with FNil in C. by rewrite C, C2.
  - split; [done|by right].
Qed.

(** The steps of a variable, before and after its value is taken. *)
Lemma pre_node_code (dec : bool) (i : Z) :
  width_ok (id_width vars (IdVar i)) ->
  node_code (set_data_type (id_width vars (IdVar i)) (mark 0 (sys_node (pre_kind dec)))) (FCons (id_leaf (IdVar i) 8) FNil FNil) =
  FinshSpec.step_code vars dec i ++ [FINSH_OP_LD_VALUE_DWORD_STACK].
Proof.
  intros W. destruct (id_leaf_facts (IdVar i) 8) as (D & K & I). revert D K I. generalize (id_leaf (IdVar i) 8). intros x D K I.
  unfold FinshSpec.step_code, id_addr. rewrite dword_ubits, <- !app_assoc. revert W. generalize (id_width vars (IdVar i)). intros d W.
  destruct dec; unfold node_code, on_id; cbn -[pre_code dword one_code Z.add Z.sub]; rewrite bool_decide_true, I by done; by apply by_width_ok.
Qed.

Lemma post_node_code (dec : bool) (i : Z) :
  width_ok (id_width vars (IdVar i)) ->
  node_code (set_data_type (id_width vars (IdVar i)) (mark 0 (sys_node (post_kind dec)))) (FCons (id_leaf (IdVar i) 0) FNil FNil) =
  (FINSH_OP_LD_DWORD :: dword (id_addr (IdVar i))) ++ FinshSpec.step_code vars dec i ++ [FINSH_OP_POP].
Proof.
  intros W. destruct (id_leaf_facts (IdVar i) 0) as (D & K & I). revert D K I. generalize (id_leaf (IdVar i) 0). intros x D K I.
  unfold FinshSpec.step_code, id_addr. rewrite dword_ubits, <- !app_assoc. revert W. generalize (id_width vars (IdVar i)). intros d W.
  destruct dec; unfold node_code, on_id; cbn -[post_code dword one_code Z.add Z.sub]; rewrite bool_decide_true, I by done; by apply by_width_ok.
Qed.

Lemma elab_pre (dec : bool) (i : Z) ss :
  width_ok (id_width vars (IdVar i)) -> typed ss -> code_ok (check 0 ss) -> elab_ok (EPre dec i) ss.
Proof.
  intros W Ts Os. assert (A : addr_flag 8) by (by right). unfold elab_ok. cbn [elab FinshSpec.ccode].
  destruct (id_leaf_facts (IdVar i) 8) as (D & _). change (ety (EPre dec i)) with (id_width vars (IdVar i)).
  assert (Ck : child_addr (pre_kind dec) 0 = 8) by (by destruct dec).
  rewrite <- D. eapply (elab_parent (pre_kind dec) _ ss (id_leaf (IdVar i) 8) FNil FNil); [|done| | | | | |done|done].
  - by rewrite Ck, check_id.
  - by apply typed_id.
  - by apply id_leaf_ok.
  - rewrite id_leaf_code by done. apply app_nil_r.
  - by destruct dec.
  - rewrite D. by apply pre_node_code.
Qed.

Lemma elab_post (dec : bool) (i : Z) ss :
  width_ok (id_width vars (IdVar i)) -> typed ss -> code_ok (check 0 ss) -> elab_ok (EPost dec i) ss.
Proof.
  intros W Ts Os. assert (A : addr_flag 0) by (by left). unfold elab_ok. cbn [elab FinshSpec.ccode].
  destruct (id_leaf_facts (IdVar i) 0) as (D & _). change (ety (EPost dec i)) with (id_width vars (IdVar i)).
  assert (Ck : child_addr (post_kind dec) 0 = 0) by (by destruct dec).
  rewrite <- D. eapply (elab_parent (post_kind dec) _ ss (id_leaf (IdVar i) 0) FNil FNil); [|done| | | | | |done|done].
  - by rewrite Ck, check_id.
  - by apply typed_id.
  - by apply id_leaf_ok.
  - rewrite id_leaf_code by done. apply app_nil_r.
  - by destruct dec.
  - rewrite D. by apply post_node_code.
Qed.

Lemma elab_call (c : finsh_syscall) (es : args) ss :
  elabs_ok es -> args_len es <= 16 -> typed ss -> code_ok (check 0 ss) -> elab_ok (ECall c es) ss.
Proof.
  intros (T & O & C) L Ts Os. unfold elab_ok. cbn [elab FinshSpec.ccode FinshSpec.ety]. rewrite app_assoc.
  apply (elab_parent FINSH_NODE_SYS_FUNC _ ss (id_node (IdSyscall c)) FNil (check 0 (elabs es))); try done.
  - cbn [code app]. by rewrite C.
  - cbn. rewrite siblings_check, siblings_elab, ubits_small; [done|].
    rewrite <- siblings_elab, <- (siblings_check _ 0) in *. revert L. generalize (check 0 (elabs es)). intros f L.
    assert (0 <= siblings_of f) by (clear; induction f; cbn; lia). lia.
Qed.

Lemma char_value_u8 (c : Z) : char_value (u8 c) = u8 c.
Proof. unfold char_value. by rewrite ubits_ubits. Qed.

(** ** The checked tree of an expression

    Node by node, from the expression: the data type each node gets, and the mark of an
    address at the identifiers (and the one operator [*]) that are written to or whose
    address is taken. *)

Definition addressed x : finsh_node := set_idtype (Z.lor (idtype x) FINSH_IDTYPE_ADDRESS) x.

Fixpoint annotated (e : expr) (ss : forest) : forest :=
  match e with
  | EChar c => FCons (set_data_type FINSH_DATA_TYPE_BYTE (value_node FINSH_NODE_VALUE_CHAR (u8 c))) FNil ss
  | EConst k w => FCons (set_data_type FINSH_DATA_TYPE_DWORD (value_node k (u32 w))) FNil ss
  | EId r => FCons (set_data_type (id_width vars r) (id_node r)) FNil ss
  | EAddr r =>
      FCons (set_data_type (id_width vars r) (sys_node FINSH_NODE_SYS_GETADDR))
        (FCons (set_data_type (id_width vars r) (addressed (id_node r))) FNil FNil) ss
  | EDeref e1 => FCons (set_data_type (ety e1) (sys_node FINSH_NODE_SYS_GETVALUE)) (annotated e1 FNil) ss
  | EBin o e1 e2 =>
      FCons (set_data_type (ety e1) (sys_node (binop_kind o))) (annotated e1 (annotated e2 FNil)) ss
  | ENot e1 => FCons (set_data_type (ety e1) (sys_node FINSH_NODE_SYS_BITWISE)) (annotated e1 FNil) ss
  | EAssign r e1 =>
      FCons (set_data_type (id_width vars r) (sys_node FINSH_NODE_SYS_ASSIGN))
        (FCons (set_data_type (id_width vars r) (addressed (id_node r))) FNil (annotated e1 FNil)) ss
  | EStore p e1 =>
      FCons (set_data_type (ety p) (sys_node FINSH_NODE_SYS_ASSIGN))
        (FCons (set_data_type (ety p) (addressed (sys_node FINSH_NODE_SYS_GETVALUE)))
           (annotated p FNil) (annotated e1 FNil)) ss
  | EPre dec i =>
      FCons (set_data_type (id_width vars (IdVar i)) (sys_node (pre_kind dec)))
        (FCons (set_data_type (id_width vars (IdVar i)) (addressed (id_node (IdVar i)))) FNil FNil) ss
  | EPost dec i =>
      FCons (set_data_type (id_width vars (IdVar i)) (sys_node (post_kind dec)))
        (FCons (set_data_type (id_width vars (IdVar i)) (id_node (IdVar i))) FNil FNil) ss
  | ECall c es =>
      FCons (set_data_type FINSH_DATA_TYPE_VOID (sys_node FINSH_NODE_SYS_FUNC))
        (FCons (id_node (IdSyscall c)) FNil (annotateds es)) ss
  end
with annotateds (es : args) : forest :=
  match es with ANil => FNil | ACons e es => annotated e (annotateds es) end.

Fixpoint annotated_stmts (es : list expr) : forest :=
  match es with [] => FNil | e :: es => annotated e (annotated_stmts es) end.

Lemma annotated_head (e : expr) ss : exists x cs, annotated e ss = FCons x cs ss /\ data_type x = ety e.
Proof. destruct e; cbn; eauto. Qed.

(** Over operands whose first is the tree of [e]. *)
Lemma check_over (k : node_kind) (a : Z) (C ss : forest) (e : expr) ts :
  check (child_addr k a) C = annotated e ts ->
  check a (FCons (sys_node k) C ss) = FCons (set_data_type (ety e) (mark a (sys_node k))) (annotated e ts) (check 0 ss).
Proof.
  intros E. destruct (annotated_head e ts) as (x & cs & Ea & <-). rewrite Ea in *. by apply check_parent.
Qed.

Lemma id_leaf_addressed (r : idref) : width_ok (id_width vars r) ->
  id_leaf r 8 = set_data_type (id_width vars r) (addressed (id_node r)) /\
  id_leaf r 0 = set_data_type (id_width vars r) (id_node r).
Proof. intros W. destruct r; done || by destruct W. Qed.

Lemma check_annotated :
  (forall e, wt e -> forall ss, check 0 (elab e ss) = annotated e (check 0 ss)) /\
  (forall es, wts es -> check 0 (elabs es) = annotateds es).
Proof.
  assert (A : addr_flag 8) by (by right). assert (A0 : addr_flag 0) by (by left).
  apply expr_args_ind; cbn [FinshSpec.wt FinshSpec.wts elab elabs annotated annotateds].
  - done.
  - by intros k w [-> | [-> | [-> | ->]]] ss.
  - intros r W ss. rewrite check_id by done. by rewrite (proj2 (id_leaf_addressed r W)).
  - intros r W ss. rewrite (check_parent FINSH_NODE_SYS_GETADDR 0 _ ss _ _ _ (check_id r 8 FNil A W)). by rewrite (proj1 (id_leaf_addressed r W)).
  - intros e IH (W & _) ss. by rewrite (check_over FINSH_NODE_SYS_GETVALUE 0 _ ss e FNil (IH W FNil)).
  - intros o e1 IH1 e2 IH2 (W1 & W2 & _) ss. rewrite (check_over _ 0 _ ss e1 (annotated e2 FNil)); [by destruct o|].
    replace (child_addr _ 0) with 0 by (by destruct o). by rewrite IH1, IH2.
  - intros e IH (W & _) ss. by rewrite (check_over FINSH_NODE_SYS_BITWISE 0 _ ss e FNil (IH W FNil)).
  - intros r e IH (W & Wr & _) ss. rewrite (check_parent FINSH_NODE_SYS_ASSIGN 0 _ ss _ _ _ (check_id r 8 _ A Wr)).
    by rewrite (proj1 (id_leaf_addressed r Wr)), IH.
  - intros p IHp e IH (Wp & W & _) ss.
    rewrite (check_parent FINSH_NODE_SYS_ASSIGN 0 _ ss _ _ _
      (check_over FINSH_NODE_SYS_GETVALUE 8 _ (elab e FNil) p FNil (IHp Wp FNil))). by rewrite IH.
  - intros dec i W ss. rewrite (check_parent (pre_kind dec) 0 _ ss (id_leaf (IdVar i) 8) FNil FNil).
    + rewrite (proj1 (id_leaf_addressed _ W)). by destruct dec.
    + replace (child_addr _ 0) with 8 by (by destruct dec). by apply (check_id _ 8 FNil).
  - intros dec i W ss. rewrite (check_parent (post_kind dec) 0 _ ss (id_leaf (IdVar i) 0) FNil FNil).
    + rewrite (proj2 (id_leaf_addressed _ W)). by destruct dec.
    + replace (child_addr _ 0) with 0 by (by destruct dec). by apply (check_id _ 0 FNil).
  - intros c es IH (Ws & _) ss.
    rewrite (check_parent FINSH_NODE_SYS_FUNC 0 _ ss (id_node (IdSyscall c)) FNil (annotateds es)); [done|].
    cbn. by rewrite (IH Ws).
  - done.
  - intros e IH es IHs (W & _ & Ws). by rewrite IH, IHs.
Qed.

Lemma check_stmts (es : list expr) : Forall wt es -> check 0 (elab_stmts es) = annotated_stmts es.
Proof. induction 1 as [|e es W _ IH]; [done|]. cbn. by rewrite (proj1 check_annotated), IH. Qed.

(** The compiler writes for the tree of an expression the code of the expression. *)
Lemma elab_all : (forall e, wt e -> forall ss, typed ss -> code_ok (check 0 ss) -> elab_ok e ss) /\ (forall es, wts es -> elabs_ok es).
Proof.
  apply expr_args_ind; cbn [FinshSpec.wt FinshSpec.wts]; intros.
  - split; [split; [done|by split]|]. split; [by split_and!|]. split; [|by eauto].
    cbn. by rewrite char_value_u8.
  - unfold elab_ok. split; [split; [|by split]|split; [|split]].
    + intros _. by destruct H as [-> | [-> | [-> | ->]]].
    + by destruct H as [-> | [-> | [-> | ->]]].
    + destruct H as [-> | [-> | [-> | ->]]]; cbn -[dword]; unfold long_value; by rewrite ?dword_sbits, dword_ubits.
    + destruct H as [-> | [-> | [-> | ->]]]; cbn; by eauto.
  - by apply elab_id.
  - by apply elab_addr.
  - apply elab_deref; try done; [|tauto]. apply H; tauto || done.
  - apply elab_binary; naive_solver.
  - apply elab_not; naive_solver.
  - apply elab_assign; naive_solver.
  - apply elab_store; naive_solver.
  - by apply elab_pre.
  - by apply elab_post.
  - apply elab_call; naive_solver.
  - done.
  - destruct (H0 ltac:(tauto)) as (T & O & C). destruct (H ltac:(tauto) (elabs es) T O) as (T' & O' & C' & _).
    split; [done|]. split; [done|]. cbn [elabs FinshSpec.ccodes]. by rewrite C', C.
Qed.

End Check.
