(* ===== verification/FinshRun.v ===== *)
(** * The expression shell: command lines

    Type check, compilation and run of the statements of a line, put together
    ([finsh_run_line] of Finsh/shell.c after the parse); that the machine always ends;
    and where the values of the shell are not those of C. *)

From Stdlib Require Import Lia.
From S2P Require Import Prelude KService FinshVm FinshCompiler FinshSpec FinshTree.

Section Line.
Context {SY : Symbols} {FN : Functions} {FO : FunctionsOk}.
Implicit Types (s : finsh) (v : vm) (m : mem) (text l : list Z).

Section Program.
Variable vars : list finsh_var.

Abbreviation wt := (FinshSpec.wt vars). Abbreviation prec := (FinshSpec.prec vars). Abbreviation eval := (FinshSpec.eval vars).
Abbreviation ccode := (FinshSpec.ccode vars). Abbreviation mapped := (FinshSpec.mapped vars).

Definition pop_before {A} (es : list A) : list Z := match es with [] => [] | _ => [FINSH_OP_POP] end.

Fixpoint prog_code (es : list expr) : list Z :=
  match es with [] => [] | e :: es => ccode e ++ pop_before es ++ prog_code es end.

(** The value of the last of the statements, which run one after the other. *)
Fixpoint eval_prog (es : list expr) m : res (Z * mem) :=
  match es with
  | [] => mret (0, m)
  | [e] => eval e m
  | e :: es => '(_, m) ← eval e m; eval_prog es m
  end.

Definition last_expr (es : list expr) : expr := List.last es (EChar 0).

Lemma elab_stmts_ok (es : list expr) :
  Forall wt es ->
  typed vars (elab_stmts es) /\ code_ok vars (check vars 0 (elab_stmts es)) /\
  stmts_code vars (check vars 0 (elab_stmts es)) = prog_code es.
Proof.
  induction 1 as [|e es W Ws (T & O & C)]; [done|]. cbn [elab_stmts prog_code].
  destruct (proj1 (elab_all vars) e W _ T O) as (T' & O' & C' & x & cs & E & D). split; [done|]. split; [done|].
  rewrite E in *. cbn [stmts_code]. rewrite C. cbn [code] in C'. rewrite app_assoc in C'. apply app_inv_tail in C' as ->.
  rewrite app_assoc. rewrite <- app_assoc. do 2 f_equal.
  destruct es as [|e2 es]; [done|]. cbn [elab_stmts]. by destruct (check vars 0 (elab e2 (elab_stmts es))) eqn:Q; [destruct e2|].
Qed.

(** ** Running the code of a line *)

Variable text : list Z.
Hypothesis Htext : len text = FINSH_TEXT_MAX.

Lemma prog_runs (es : list expr) : es <> [] -> Forall (fun e => wt e /\ depth e <= FINSH_STACK_MAX) es ->
  forall pc m v a m', st text [] pc m v -> code_in text pc (prog_code es) -> mapped m -> eval_prog es m = Ok (a, m') ->
  execs text [] pc m v (prog_code es) (fun l' => exists x, l' = [x] /\ holds (prec (last_expr es)) x a) m'.
Proof.
  intros N F. induction F as [|e es [W D] F IH]; [done|]. intros pc m v a m' S C M E.
  destruct es as [|e2 es].
  - cbn in *. rewrite app_nil_r in *. by apply (proj1 (code_runs vars text Htext) e W [] pc m v a m').
  - cbn [prog_code pop_before] in *. apply code_in_app in C as [C1 C2]. apply code_in_cons in C2 as [C2 C3].
    change (eval_prog (e :: e2 :: es) m) with ('(_, m) ← eval e m; eval_prog (e2 :: es) m) in E.
    apply res_bind_Ok_inv in E as ([a1 m1] & E1 & E2).
    eapply execs_app; [by apply (proj1 (code_runs vars text Htext) e W [] pc m v a1 m1)|].
    intros l1 v1 (x & -> & _) S1. change (last_expr (e :: e2 :: es)) with (last_expr (e2 :: es)).
    eapply (execs_app _ _ _ _ _ [FINSH_OP_POP]).
    + by apply x_pop.
    + intros l2 v2 -> S2. cbn in S2. apply IH; [done|done|exact C3| |done].
      eapply mapped_grows; [|exact M]. by eapply (proj1 (eval_evals_grows vars)).
Qed.

(** What is behind the code are zeros, which are instructions that do nothing. *)
Lemma noops_run (k : nat) : forall l pc m v,
  st text l pc m v -> (exists pre, text = pre ++ replicate k 0 /\ pc = len pre) ->
  exists v', st text l FINSH_TEXT_MAX m v' /\ reach k v v'.
Proof.
  induction k as [|k IH]; intros l pc m v S (pre & E & ->).
  - exists v. split; [|apply reach_refl]. rewrite app_nil_r in E. by rewrite <- E, Htext in S.
  - cbn [replicate] in E. assert (C : code_in text (len pre) [0]) by (by exists pre, (replicate k 0)).
    destruct (reach_step text l (len pre) m v 0 OP_no_op (fun v' => st text l (len pre + 1) m v') Htext S C eq_refl) as (v1 & S1 & R1).
    { intros v' S'. by apply wp_ret. }
    destruct (IH l (len pre + 1) m v1 S1) as (v2 & S2 & R2).
    { exists (pre ++ [0]). rewrite <- app_assoc. split; [done|]. rewrite length_app. cbn. lia. }
    exists v2. split; [done|]. by apply (reach_trans 1 k _ v1).
Qed.

Lemma loop_ends l m v (Q : unit -> vm -> Prop) (n : nat) :
  st text l FINSH_TEXT_MAX m v -> Q tt v -> wp (vm_loop (S n)) Q v.
Proof. intros (junk & -> & _) H. cbn [vm_loop]. wstep. wstep. cbn. by apply wp_ret. Qed.

Lemma wp_vm_run (es : list expr) (a : Z) m m' v :
  es <> [] -> Forall (fun e => wt e /\ depth e <= FINSH_STACK_MAX) es -> mapped m -> eval_prog es m = Ok (a, m') ->
  len (finsh_vm_stack v) = FINSH_STACK_MAX -> text_segment v = text -> vm_mem v = m ->
  (exists k, text = prog_code es ++ replicate k 0) ->
  wp finsh_vm_run (fun _ v' => exists x, st text [x] FINSH_TEXT_MAX m' v' /\ holds (prec (last_expr es)) x a) v.
Proof.
  intros N F M E Lk Ht <- (k & Ek). unfold finsh_vm_run. do 4 wstep.
  assert (S0 : st text [] 0 (vm_mem v) (with_pc 0 (with_sp 0 v))).
  { exists (finsh_vm_stack v). by rewrite <- Ht. }
  assert (C : code_in text 0 (prog_code es)) by (by exists [], (replicate k 0)).
  destruct (prog_runs es N F 0 _ _ a m' S0 C M E) as (v1 & l1 & n & R1 & Ln & (x & -> & Hx) & S1).
  destruct (noops_run k _ _ _ _ S1) as (v2 & S2 & R2); [by exists (prog_code es)|].
  assert (Lt : (length (prog_code es) + k = Z.to_nat FINSH_TEXT_MAX)%nat).
  { apply Nat2Z.inj. rewrite Z2Nat.id, <- Htext, Ek, length_app, length_replicate by done. done. }
  set (d := (Z.to_nat FINSH_TEXT_MAX - (n + k))%nat).
  replace (Datatypes.S (Z.to_nat FINSH_TEXT_MAX)) with (n + (k + Datatypes.S d))%nat by (unfold d; lia).
  apply R1, R2. eapply loop_ends; [done|]. by exists x.
Qed.

End Program.
(** ** A whole line *)

Lemma wp_on_vm {A} (k : ST vm A) (Q : A -> finsh -> Prop) s :
  wp k (fun a v => Q a (with_vm v s)) (f_vm s) -> wp (on_vm k) Q s.
Proof. unfold wp, on_vm. by destruct (k (f_vm s)) as [[a v]| |]. Qed.

(** Where the bytes go. *)
Lemma emitted_text (bs old : list Z) : forall s pre post,
  text_segment (f_vm s) = pre ++ old ++ post -> length old = length bs -> finsh_compile_pc s = len pre ->
  let v := f_vm s in
  emitted bs s = Finsh (global_node_table s) (global_variable s) (global_errno s) (len pre + len bs)
    (Vm (finsh_vm_stack v) (finsh_sp v) (pre ++ bs ++ post) (finsh_pc v) (vm_mem v)).
Proof.
  revert old. induction bs as [|b bs IH]; intros old s pre post T L P v.
  { destruct old; [|done]. destruct s as [? ? ? ? [? ? ? ? ?]]; cbn in *; subst. by rewrite Z.add_0_r. }
  destruct old as [|o old]; [done|]. cbn in L. injection L as L.
  change (emitted (b :: bs) s) with (emitted bs (emit1 b s)). rewrite (IH old (emit1 b s) (pre ++ [b]) post); [|..|done|].
  - cbn -[Z.of_nat]. rewrite length_app, <- !app_assoc. cbn -[Z.of_nat]. f_equal. lia.
  - cbn. rewrite T, P, Nat2Z.id, <- app_assoc, insert_app_r_alt, Nat.sub_diag by lia. done.
  - cbn -[Z.of_nat]. rewrite P, length_app. cbn -[Z.of_nat]. lia.
Qed.

Lemma prog_code_room (vars : list finsh_var) (es : list expr) :
  len (prog_code vars es) <= FINSH_TEXT_MAX ->
  replicate (Z.to_nat FINSH_TEXT_MAX) 0 =
    replicate (length (prog_code vars es)) 0 ++ replicate (Z.to_nat FINSH_TEXT_MAX - length (prog_code vars es)) 0.
Proof. intros L. rewrite <- replicate_add. f_equal. lia. Qed.

Section Compile.
Variables (es : list expr) (root : option Z) (ns : list nat) (s : finsh).
Abbreviation vars := (global_variable s).
Hypothesis Htree : repr (global_node_table s) root (elab_stmts es) ns.
Hypothesis Hns : NoDup ns.
Hypothesis Hwt : Forall (wt vars) es.
Hypothesis Hnodes : len (global_node_table s) = FINSH_NODE_MAX.
Hypothesis Hroom : len (prog_code vars es) <= FINSH_TEXT_MAX.
Hypothesis Hstack : len (finsh_vm_stack (f_vm s)) = FINSH_STACK_MAX.

Lemma tree_height (tab : list finsh_node) f : length tab = length (global_node_table s) -> repr tab root f ns -> (height f < FUEL)%nat.
Proof.
  intros L R. pose proof (repr_height _ _ _ _ R) as H.
  assert (N : (length ns <= length tab)%nat) by (apply nodup_length; [done|intros i; by eapply repr_lookup]).
  unfold FUEL, FINSH_NODE_MAX in *. lia.
Qed.

Lemma wp_compile_line (Q : Z -> finsh -> Prop) :
  (forall tab k p, len (prog_code vars es) + Z.of_nat k = FINSH_TEXT_MAX -> Q 0 (Finsh tab vars (global_errno s) p
     (Vm (<[0%nat := 0]> (finsh_vm_stack (f_vm s))) (finsh_sp (f_vm s)) (prog_code vars es ++ replicate k 0)
        (finsh_pc (f_vm s)) (vm_mem (f_vm s))))) ->
  wp (finsh_compiler_run root) Q s.
Proof.
  intros H. destruct (elab_stmts_ok vars es Hwt) as (T & O & C). unfold finsh_compiler_run. wstep.
  eapply wp_mono; [apply (wp_type_check vars _ FUEL root ns 0 s Htree Hns T (or_introl eq_refl)); [|done]|].
  { apply Nat.lt_le_incl. by eapply tree_height. }
  intros [] s1 (tab & -> & Lt & _ & R). apply unmarked_length in Lt. do 2 wstep. cbn [with_nodes f_vm]. wstep.
  eapply wp_lift_ok; [apply store_at_ok; cbn; unfold FINSH_STACK_MAX in *; lia|]. do 4 wstep.
  wstep. set (s2 := with_compile_pc 0 _). eapply (wp_statements vars _ root ns FUEL s2); [exact R|done|by eapply tree_height|done|done| |].
  - rewrite C. split; [done|]. cbn [s2 with_compile_pc with_vm f_vm text_segment finsh_compile_pc]. by rewrite length_replicate.
  - intros tab'. wstep. rewrite C.
    rewrite (emitted_text (prog_code vars es) (replicate (length (prog_code vars es)) 0) s2 []
      (replicate (Z.to_nat FINSH_TEXT_MAX - length (prog_code vars es)) 0)); [|by apply prog_code_room|by rewrite length_replicate|done].
    apply H. lia.
Qed.

End Compile.

(** A line whose tree in the node table is that of the statements [es] and whose code has
    room is compiled and run to the end, leaves the memory the statements leave, and what
    the shell prints has, in the width of the last of them, the value of that one; the
    nodes are free again, and no error is set. *)
Lemma finsh_run_line_ok (es : list expr) (root : option Z) (ns : list nat) (a : Z) (m' : mem) s :
  repr (global_node_table s) root (elab_stmts es) ns -> NoDup ns -> es <> [] ->
  Forall (fun e => wt (global_variable s) e /\ depth e <= FINSH_STACK_MAX) es ->
  len (prog_code (global_variable s) es) <= FINSH_TEXT_MAX ->
  len (global_node_table s) = FINSH_NODE_MAX -> len (finsh_vm_stack (f_vm s)) = FINSH_STACK_MAX ->
  global_errno s = FINSH_ERROR_OK -> mapped (global_variable s) (vm_mem (f_vm s)) ->
  eval_prog (global_variable s) es (vm_mem (f_vm s)) = Ok (a, m') ->
  let d := prec (global_variable s) (last_expr es) in
  wp (finsh_run_line root) (fun r s' =>
    (exists x, r = Some x /\ norm d x = a /\ (d = FINSH_DATA_TYPE_DWORD -> x = a)) /\
    vm_mem (f_vm s') = m' /\ global_variable s' = global_variable s /\ global_errno s' = FINSH_ERROR_OK /\
    global_node_table s' = replicate (Z.to_nat FINSH_NODE_MAX) node_empty) s.
Proof.
  intros R N Ne F L Ln Lk He M E d. unfold finsh_run_line.
  assert (W : Forall (wt (global_variable s)) es) by (eapply Forall_impl; [exact F|by intros ? []]).
  do 2 wstep. rewrite He. cbn [Z.eqb FINSH_ERROR_OK]. do 2 wstep.
  eapply wp_compile_line; [exact R|done..|]. intros tab k p Lp. do 3 wstep. cbn [global_errno]. rewrite He. cbn [Z.eqb FINSH_ERROR_OK].
  do 2 wstep. apply wp_on_vm. cbn [f_vm]. eapply wp_mono.
  { eapply wp_vm_run; [|exact Ne|exact F|exact M|exact E|..]; cbn [finsh_vm_stack text_segment vm_mem]; [|by rewrite length_insert|done|done|by exists k].
    rewrite length_app, length_replicate. lia. }
  cbn beta. intros [] v (x & (junk & -> & Lj) & Hx).
  wstep. unfold finsh_stack_bottom. apply wp_on_vm. do 3 wstep. cbn [f_vm with_vm finsh_vm_stack app]. eapply wp_lift_ok; [by apply load_at_ok|].
  wstep. unfold finsh_flush, finsh_node_init, finsh_error_init. repeat wstep. destruct Hx as [Hx _].
  split; [|done]. exists (long_value x). split; [done|]. split; [by rewrite <- Hx; apply norm_sbits|].
  intros Ed. unfold d in Ed. rewrite Ed in Hx. by rewrite <- Hx.
Qed.

(** C16: the type check keeps every node of the table as it was, links included, but for its
    data type and the mark for an address; it touches nothing outside the tree of the
    line; and every node of that tree, from the statements down to the leaves, has
    afterwards the data type and the mark its expression asks for. *)
Theorem finsh_type_check_ok (es : list expr) (root : option Z) (ns : list nat) s :
  repr (global_node_table s) root (elab_stmts es) ns -> NoDup ns -> len (global_node_table s) = FINSH_NODE_MAX ->
  Forall (wt (global_variable s)) es ->
  wp (finsh_type_check FUEL root FINSH_NODE_VALUE) (fun _ s' => exists tab,
    s' = with_nodes tab s /\ length tab = length (global_node_table s) /\
    (forall i x, global_node_table s !! i = Some x ->
       exists d t, tab !! i = Some (set_data_type d (set_idtype t x))) /\
    (forall i, i ∉ ns -> tab !! i = global_node_table s !! i) /\
    repr tab root (annotated_stmts (global_variable s) es) ns) s.
Proof.
  intros R N L W. destruct (elab_stmts_ok _ es W) as (T & O & _).
  eapply wp_mono; [apply (wp_type_check (global_variable s) _ FUEL root ns 0 s R N T (or_introl eq_refl)); [|done]|].
  { apply Nat.lt_le_incl. by eapply tree_height. }
  intros [] s' (tab & -> & U & H & R'). exists tab. split; [done|]. split; [by apply unmarked_length|].
  split; [|split; [done|by rewrite <- check_stmts]].
  intros i x Hi. apply (f_equal (.!! i)) in U. rewrite !list_lookup_fmap, Hi in U.
  destruct (tab !! i) as [[]|]; [|done]. destruct x. injection U as -> -> -> -> ->. by do 2 eexists.
Qed.

End Line.

(** ** The machine ends

    Every round of the loop moves the program counter forward, so that no byte code
    keeps the machine for more rounds than the text has bytes. *)

Section Ends.
Context {FN : Functions}.

(** [m] never moves the program counter back. *)
Definition forward {A} (m : ST vm A) : Prop := forall v a v', m v = Ok (a, v') -> finsh_pc v <= finsh_pc v'.

Lemma forward_bind {A B} (m : ST vm A) (f : A -> ST vm B) : forward m -> (forall a, forward (f a)) -> forward (m ≫= f).
Proof.
  intros Hm Hf v b v' E. unfold mbind, ST_bind in E. destruct (m v) as [[a v1]| |] eqn:E1; [|done|done].
  specialize (Hm _ _ _ E1). specialize (Hf _ _ _ _ E). lia.
Qed.
Lemma forward_ret {A} (a : A) : forward (mret a).
Proof. intros v b v' [= _ <-]. done. Qed.
Lemma forward_gets {A} (f : vm -> A) : forward (gets f).
Proof. intros v b v' [= _ <-]. done. Qed.
Lemma forward_lift {A} (r : res A) : forward (lift r).
Proof. intros v b v' E. destruct r; [by injection E as _ <-|done|done]. Qed.
Lemma forward_fault {A} : forward (@kfault vm A).
Proof. done. Qed.
Lemma forward_stack (k : list Z) : forward (modify (with_stack k)).
Proof. by intros v b v' [= _ <-]. Qed.
Lemma forward_sp (n : Z) : forward (modify (with_sp n)).
Proof. by intros v b v' [= _ <-]. Qed.
Lemma forward_vmem (m : mem) : forward (modify (with_vmem m)).
Proof. by intros v b v' [= _ <-]. Qed.
Lemma forward_pc (k : Z) : 0 <= k -> forward (move_pc k).
Proof. intros H v b v' [= _ <-]. cbn. lia. Qed.

End Ends.

Create HintDb ops.
#[export] Hint Unfold
  OP_add_byte OP_add_word OP_add_dword OP_sub_byte OP_sub_word OP_sub_dword OP_div_byte OP_div_word
  OP_div_dword OP_mod_byte OP_mod_word OP_mod_dword OP_mul_byte OP_mul_word OP_mul_dword OP_and_byte
  OP_and_word OP_and_dword OP_or_byte OP_or_word OP_or_dword OP_xor_byte OP_xor_word OP_xor_dword OP_bw_byte
  OP_bw_word OP_bw_dword OP_shl_byte OP_shl_word OP_shl_dword OP_shr_byte OP_shr_word OP_shr_dword OP_ld_byte
  OP_ld_word OP_ld_dword OP_ld_value_byte OP_ld_value_word OP_ld_value_dword OP_st_byte OP_st_word OP_st_dword
  OP_ld_value_byte_stack OP_ld_value_word_stack OP_ld_value_dword_stack OP_no_op OP_BIN_BYTE OP_BIN_WORD
  OP_BIN_DWORD OP_pop FINSH_GET16 FINSH_GET32 mem_load mem_store slot put_slot move_sp code_at : ops.
Create HintDb forward.
#[export] Hint Resolve forward_bind forward_ret forward_gets forward_lift forward_fault forward_stack forward_sp
  forward_vmem forward_pc : forward.

Section Rounds.
Context {FN : Functions}.

(** The operations, put together from the steps above. *)
Ltac forward := repeat first
  [ progress intros
  | lazymatch goal with
    | |- forward (mbind _ _) => apply forward_bind
    | |- forward (if _ then _ else _) => case_match
    | |- forward (let '(_, _) := ?p in _) => destruct p
    | |- forward (move_pc _) => apply forward_pc; lia
    end
  | solve [eauto with forward] ].

Lemma forward_pop (n : nat) : forall l, forward (pop_parameters n l).
Proof. induction n as [|n IH]; intros l; cbn [pop_parameters]; unfold slot, move_sp; forward; apply IH. Qed.

Lemma forward_call : forward OP_call.
Proof. unfold OP_call, code_at, move_sp, slot, put_slot. forward; apply forward_pop. Qed.

Lemma forward_ops (op : Z) (f : ST vm unit) : load_at op_table op = Ok f -> forward f.
Proof.
  intros H. unfold load_at in H. destruct (0 <=? op); [|done].
  destruct (op_table !! Z.to_nat op) as [g|] eqn:E; [|done]. injection H as ->.
  assert (A : Forall forward op_table); [|by eapply Forall_lookup_1].
  clear. unfold op_table. repeat apply Forall_cons_2; try exact forward_call; try apply Forall_nil_2;
    autounfold with ops; forward.
Qed.

(** A round that ends has moved the counter. *)
Lemma step_forward v v' : vm_step v = Ok (tt, v') -> finsh_pc v < finsh_pc v'.
Proof.
  intros E. unfold vm_step, code_at, move_pc, mbind, ST_bind, gets, lift, modify in E.
  destruct (load_at (text_segment v) _) as [op| |]; [|done|done]. cbn in E.
  destruct (load_at op_table op) as [f| |] eqn:F; [|done|done].
  apply (forward_ops op f F) in E. cbn in E. lia.
Qed.

(** [n] rounds lead from one state to the other. *)
Inductive rounds : nat -> vm -> vm -> Prop :=
| rounds_0 v : rounds 0 v v
| rounds_1 n v v1 v' :
    0 <= finsh_pc v < FINSH_TEXT_MAX -> vm_step v = Ok (tt, v1) -> rounds n v1 v' -> rounds (S n) v v'.

Lemma rounds_bound (n : nat) v v' : rounds n v v' -> Z.of_nat n <= Z.max 0 (FINSH_TEXT_MAX - finsh_pc v).
Proof. induction 1 as [|n v v1 v' L E _ IH]; [lia|]. apply step_forward in E. lia. Qed.

Definition start v : vm := with_pc 0 (with_sp 0 v).

Lemma vm_loop_rounds (fuel : nat) : forall v, 0 <= finsh_pc v -> Z.max 0 (FINSH_TEXT_MAX - finsh_pc v) < Z.of_nat fuel ->
  exists n v', rounds n v v' /\
    ((FINSH_TEXT_MAX <= finsh_pc v' /\ vm_loop fuel v = Ok (tt, v')) \/
     (finsh_pc v' < FINSH_TEXT_MAX /\ (forall v2, vm_step v' <> Ok (tt, v2)) /\ vm_loop fuel v = vm_step v')).
Proof.
  induction fuel as [|fuel IH]; intros v L F; [lia|].
  assert (Eq : vm_loop (S fuel) v = if finsh_pc v <? FINSH_TEXT_MAX then (_ ← vm_step; vm_loop fuel) v else Ok (tt, v)).
  { cbn [vm_loop]. unfold mbind at 1, ST_bind at 1, gets. rewrite (proj2 (Z.leb_le _ _) L). by destruct (_ <? _). }
  rewrite Eq. case_test.
  - unfold mbind, ST_bind. destruct (vm_step v) as [[[] v1]| |] eqn:E.
    + pose proof (step_forward _ _ E) as Fw. destruct (IH v1) as (n & v' & R & C); [lia..|].
      exists (S n), v'. split; [by econstructor|done].
    + exists 0%nat, v. split; [constructor|]. right. by rewrite E.
    + exists 0%nat, v. split; [constructor|]. right. by rewrite E.
  - exists 0%nat, v. split; [constructor|]. left. split; [lia|done].
Qed.

(** C40: whatever byte code the text holds, the machine makes at most [FINSH_TEXT_MAX] rounds,
    and its fuel is never what ends it: the counter is behind the text, or a round does
    not return. *)
Theorem finsh_vm_run_ends v :
  (forall n v', rounds n (start v) v' -> (n <= Z.to_nat FINSH_TEXT_MAX)%nat)  /\
  exists n v', rounds n (start v) v' /\
    ((FINSH_TEXT_MAX <= finsh_pc v' /\ finsh_vm_run v = Ok (tt, v')) \/
     (finsh_pc v' < FINSH_TEXT_MAX /\ (forall v2, vm_step v' <> Ok (tt, v2)) /\ finsh_vm_run v = vm_step v')).
Proof.
  split.
  - intros n v' R. apply rounds_bound in R. cbn in R. lia.
  - apply (vm_loop_rounds (S (Z.to_nat FINSH_TEXT_MAX)) (start v)); cbn; lia.
Qed.

End Rounds.

(** ** An example

    An [int x] and a [char c], and a function at address 256 that adds its arguments. *)

Module Demo.

#[local] Instance symbols : Symbols := {|
  sysvar_table := []; global_sysvar_list := []; syscall_table := []; global_syscall_list := [];
  global_variable_addr := 0x20000000 |}.

#[local] Instance functions : Functions := {|
  call_function f args m := if f =? 256 then mret (foldr Z.add 0 args, m) else Fault |}.

#[local] Instance functions_ok : FunctionsOk.
Proof. split. intros f r args m m' E. cbn in E. destruct (f =? 256); [|done]. injection E as _ <-. apply grows_refl. Qed.

Definition vars : list finsh_var := [FinshVar [120; 0] finsh_type_int; FinshVar [99; 0] finsh_type_char].
Definition add : finsh_syscall := FinshSyscall 0 [97; 0] 256.

(** The bytes of the two variables: [x] is 41, [c] is 255. *)
Definition memory : mem := list_to_map
  [(0x20000014, 41); (0x20000015, 0); (0x20000016, 0); (0x20000017, 0);
   (0x2000002c, 255); (0x2000002d, 0); (0x2000002e, 0); (0x2000002f, 0)].

Definition machine (nodes : list finsh_node) : finsh :=
  Finsh (nodes ++ replicate (16 - length nodes) node_empty) vars 0 0
    (Vm (replicate 64 0) 0 (replicate 128 0) 0 memory).

Definition node (k : node_kind) (v : Z) (r : idref) (sib chi : option Z) : finsh_node :=
  let i := match r with IdVar _ => FINSH_IDTYPE_VAR | IdSyscall _ => FINSH_IDTYPE_SYSCALL | _ => 0 end in
  FinshNode k 0 i v r sib chi.

(** [x = x + 1; a(x, 2)] *)
Definition line : list expr :=
  [EAssign (IdVar 0) (EBin Add (EId (IdVar 0)) (EConst FINSH_NODE_VALUE_INT 1));
   ECall add (ACons (EId (IdVar 0)) (ACons (EConst FINSH_NODE_VALUE_INT 2) ANil))].

Definition nodes : list finsh_node := [
  node FINSH_NODE_SYS_ASSIGN 0 IdNull (Some 5) (Some 1);
  node FINSH_NODE_ID 0 (IdVar 0) (Some 2) None;
  node FINSH_NODE_SYS_ADD 0 IdNull None (Some 3);
  node FINSH_NODE_ID 0 (IdVar 0) (Some 4) None;
  node FINSH_NODE_VALUE_INT 1 IdNull None None;
  node FINSH_NODE_SYS_FUNC 0 IdNull None (Some 6);
  node FINSH_NODE_ID 0 (IdSyscall add) (Some 7) None;
  node FINSH_NODE_ID 0 (IdVar 0) (Some 8) None;
  node FINSH_NODE_VALUE_INT 2 IdNull None None].

(** A forest in a concrete table. *)
Ltac find_forest := cbn -[lookup Z.of_nat]; lazymatch goal with
  | |- exists _ _ _ _, ?p = _ /\ _ =>
      let i := eval vm_compute in (default O (Z.to_nat <$> p)) in
      exists i; eexists _, _, _; split; [reflexivity|]; split; [reflexivity|]; split; [reflexivity|];
      split; [find_forest|]; split; [find_forest|reflexivity]
  | |- _ /\ _ => split; reflexivity
  end.

Lemma line_tree : repr (global_node_table (machine nodes)) (Some 0) (elab_stmts line) [0; 1; 2; 3; 4; 5; 6; 7; 8]%nat.
Proof. find_forest. Qed.

Lemma line_wt : Forall (fun e => wt vars e /\ depth e <= FINSH_STACK_MAX) line.
Proof. repeat constructor; cbn; try done; try (unfold width_ok; vm_compute; lia). all: by vm_compute; intros. Qed.

Lemma memory_mapped : mapped vars memory.
Proof.
  intros i x k Hi Hk. assert (K : k = 0 \/ k = 1 \/ k = 2 \/ k = 3) by lia.
  destruct i as [|[|i]]; [..|done]; destruct K as [-> | [-> | [-> | ->]]]; vm_compute; eauto.
Qed.

(** [c = c + 1] *)
Definition char_nodes : list finsh_node := [
  node FINSH_NODE_SYS_ASSIGN 0 IdNull None (Some 1);
  node FINSH_NODE_ID 0 (IdVar 1) (Some 2) None;
  node FINSH_NODE_SYS_ADD 0 IdNull None (Some 3);
  node FINSH_NODE_ID 0 (IdVar 1) (Some 4) None;
  node FINSH_NODE_VALUE_INT 1 IdNull None None].

(** [x + 1000] *)
Definition sum_nodes : list finsh_node := [
  node FINSH_NODE_SYS_ADD 0 IdNull None (Some 1);
  node FINSH_NODE_ID 0 (IdVar 0) (Some 2) None;
  node FINSH_NODE_VALUE_INT 1000 IdNull None None].

(** [1 + c] *)
Definition mixed_nodes : list finsh_node := [
  node FINSH_NODE_SYS_ADD 0 IdNull None (Some 1);
  node FINSH_NODE_VALUE_INT 1 IdNull (Some 2) None;
  node FINSH_NODE_ID 0 (IdVar 1) None None].

(** [a(x) + 2] *)
Definition call_nodes : list finsh_node := [
  node FINSH_NODE_SYS_ADD 0 IdNull None (Some 1);
  node FINSH_NODE_SYS_FUNC 0 IdNull (Some 4) (Some 2);
  node FINSH_NODE_ID 0 (IdSyscall add) (Some 3) None;
  node FINSH_NODE_ID 0 (IdVar 0) None None;
  node FINSH_NODE_VALUE_INT 2 IdNull None None].

Definition printed (r : res (option Z * finsh)) : option Z := match r with Ok (x, _) => x | _ => None end.

Definition table (t : list finsh_node) : list finsh_node := global_node_table (machine t).

(** The [char] is 0 afterwards, but what is printed has the upper bytes of its address. *)
Lemma char_assignment_prints_address : printed (finsh_run_line (Some 0) (machine char_nodes)) = Some 0x20000000.
Proof. by vm_compute. Qed.

(** The upper bytes of the second operand are those of the line before: 256 the first
    time, 1024 after [x + 1000]. *)
Lemma mixed_widths_read_old_bytes :
  printed (finsh_run_line (Some 0) (machine mixed_nodes)) = Some 256 /\
  printed ((_ ← finsh_run_line (Some 0); _ ← modify (with_nodes (table mixed_nodes)); finsh_run_line (Some 0))
    (machine sum_nodes)) = Some 1024.
Proof. by split; vm_compute. Qed.

(** The sum of a call is not computed. *)
Lemma call_sum_is_call : printed (finsh_run_line (Some 0) (machine call_nodes)) = Some 41.
Proof. by vm_compute. Qed.

Lemma finsh_type_check_ok_witness :
  wp (finsh_type_check FUEL (Some 0) FINSH_NODE_VALUE) (fun _ s' => exists tab,
    s' = with_nodes tab (machine nodes) /\ length tab = length (table nodes) /\
    (forall i x, table nodes !! i = Some x ->
       exists d t, tab !! i = Some (set_data_type d (set_idtype t x))) /\
    (forall i, i ∉ [0; 1; 2; 3; 4; 5; 6; 7; 8]%nat -> tab !! i = table nodes !! i) /\
    repr tab (Some 0) (annotated_stmts vars line) [0; 1; 2; 3; 4; 5; 6; 7; 8]%nat) (machine nodes).
Proof.
  apply (finsh_type_check_ok line (Some 0) [0; 1; 2; 3; 4; 5; 6; 7; 8]%nat (machine nodes)).
  - exact line_tree.
  - by apply (bool_decide_unpack _).
  - done.
  - eapply Forall_impl; [exact line_wt|by intros ? []].
Defined.

End Demo.
