(* ===== verification/FinshToken.v ===== *)
(** * The expression shell: the tokenizer (Finsh/finsh_token.c)

    The line is read through [token_next_char]; the type of a token is in
    [current_token], its text in [string], its value in the union [value], a word.
    [char] has no sign.  The buffers of the C functions are lists of their length;
    writing behind them is a [Fault].  The state is that of the whole parser, because an
    error is noted in the shell. *)

From Stdlib Require Import Lia.
From S2P Require Import Prelude KService FinshVm FinshCompiler.

Definition FINSH_STRING_MAX : Z := 128.
Definition FINSH_ERROR_INVALID_TOKEN : Z := 1.
Definition FINSH_ERROR_EXPECT_TYPE : Z := 2.
Definition FINSH_ERROR_VARIABLE_EXIST : Z := 4.
Definition FINSH_ERROR_EXPECT_OPERATOR : Z := 5.
Definition FINSH_ERROR_EXPECT_CHAR : Z := 9.
Definition FINSH_ERROR_UNEXPECT_END : Z := 10.
Definition FINSH_ERROR_UNKNOWN_TOKEN : Z := 11.
Definition FINSH_ERROR_NULL_NODE : Z := 14.

(** [T_none] is the 0 the structure is cleared with. *)
Inductive finsh_token_type :=
| T_none
| T_left_paren | T_right_paren | T_comma | T_semicolon
| T_mul | T_add | T_inc | T_sub | T_dec | T_div | T_mod | T_assign
| T_and | T_or | T_xor | T_bitwise | T_shl | T_shr | T_comments
| T_void | T_char | T_short | T_int | T_long | T_unsigned
| T_value_char | T_value_int | T_value_long | T_value_string | T_value_null
| T_identifier | T_bad | T_eof.

#[export] Instance finsh_token_type_eq_dec : EqDecision finsh_token_type.
Proof. solve_decision. Defined.

Record finsh_token := FinshToken {
  eof : bool; replay : bool; position : Z; current_token : finsh_token_type;
  value : Z; string : list Z; line : list Z }.

(** [free_list] and [allocate_list] are the lists of finsh_heap.c; [root] is what the
    parser has found. *)
Record parser := Parser { token : finsh_token; root : option Z; free_list : Z; allocate_list : Z; p_finsh : finsh }.

Abbreviation P := (ST parser).

Definition with_token (t : finsh_token) (s : parser) : parser :=
  Parser t (root s) (free_list s) (allocate_list s) (p_finsh s).
Definition with_root (r : option Z) (s : parser) : parser :=
  Parser (token s) r (free_list s) (allocate_list s) (p_finsh s).
Definition with_finsh (f : finsh) (s : parser) : parser :=
  Parser (token s) (root s) (free_list s) (allocate_list s) f.

Definition on_finsh {A} (m : ST finsh A) : P A := fun s =>
  match m (p_finsh s) with
  | Ok (a, f) => Ok (a, with_finsh f s)
  | AssertFail => AssertFail
  | Fault => Fault
  end.

Definition tk {A} (f : finsh_token -> A) : P A := gets (fun s => f (token s)).
Definition upd (f : finsh_token -> finsh_token) : P unit := modify (fun s => with_token (f (token s)) s).

Definition set_eof (b : bool) (t : finsh_token) : finsh_token :=
  FinshToken b (replay t) (position t) (current_token t) (value t) (string t) (line t).
Definition set_replay (b : bool) (t : finsh_token) : finsh_token :=
  FinshToken (eof t) b (position t) (current_token t) (value t) (string t) (line t).
Definition set_position (p : Z) (t : finsh_token) : finsh_token :=
  FinshToken (eof t) (replay t) p (current_token t) (value t) (string t) (line t).
Definition set_current (c : finsh_token_type) (t : finsh_token) : finsh_token :=
  FinshToken (eof t) (replay t) (position t) c (value t) (string t) (line t).
Definition set_tvalue (v : Z) (t : finsh_token) : finsh_token :=
  FinshToken (eof t) (replay t) (position t) (current_token t) v (string t) (line t).
Definition set_string (x : list Z) (t : finsh_token) : finsh_token :=
  FinshToken (eof t) (replay t) (position t) (current_token t) (value t) x (line t).

(** ** Characters *)

Definition is_alpha (ch : Z) : bool := u32 (Z.lor ch 0x20 - 97) <? 26.
Definition is_digit (ch : Z) : bool := (48 <=? ch) && (ch <=? 57).
Definition is_xdigit (ch : Z) : bool := ((48 <=? ch) && (ch <=? 57)) || (u32 (Z.lor ch 0x20 - 97) <? 6).
Definition is_separator (ch : Z) : bool :=
  negb (((97 <=? ch) && (ch <=? 122)) || ((65 <=? ch) && (ch <=? 90)) || ((48 <=? ch) && (ch <=? 57)) || (ch =? 95)).
Definition is_octal (ch : Z) : bool := (48 <=? ch) && (ch <=? 55).

Definition finsh_name_table : list (list Z * finsh_token_type) := [
  ([118; 111; 105; 100; 0], T_void); ([99; 104; 97; 114; 0], T_char); ([115; 104; 111; 114; 116; 0], T_short);
  ([105; 110; 116; 0], T_int); ([108; 111; 110; 103; 0], T_long);
  ([117; 110; 115; 105; 103; 110; 101; 100; 0], T_unsigned);
  ([78; 85; 76; 76; 0], T_value_null); ([110; 117; 108; 108; 0], T_value_null) ].

Definition finsh_token_init (l : list Z) : P unit := upd (fun _ => FinshToken false false 0 T_none 0 (replicate 128 0) l).

Definition token_next_char : P Z :=
  e ← tk eof;
  if e : bool then mret 0 else
  p ← tk position; l ← tk line;
  n ← lift (Str.rt_strlen l);
  c ← (if p =? n then mret 10 else lift (load_at l p));
  if (p =? n) || (c =? 10) then _ ← upd (set_eof true); _ ← upd (set_position 0); mret 0 else
  _ ← upd (set_position (p + 1)); mret c.

Definition token_prev_char : P unit :=
  e ← tk eof;
  if e : bool then mret tt else
  p ← tk position;
  if p =? 0 then mret tt else upd (set_position (p - 1)).

(** Every loop reads a character in each round, and stops at the end of the line; the
    number of rounds it may make is one more than the characters there are. *)
Definition rounds_of : P nat := l ← tk line; mret (S (length l)).

Definition put_string (p c : Z) : P unit := x ← tk string; x ← lift (store_at x p c); upd (set_string x).

(** [*p++ = ch], while it is part of the name. *)
Fixpoint name_loop (fuel : nat) (p ch : Z) : P Z :=
  match fuel with
  | O => hang
  | S fuel =>
      e ← tk eof;
      if negb (is_separator ch) && negb e then
        _ ← put_string p ch; ch ← token_next_char; name_loop fuel (p + 1) ch
      else mret p
  end.

Definition token_get_string : P Z :=
  ch ← token_next_char;
  e ← tk eof;
  if e : bool then mret (-1) else
  _ ← put_string 0 0;
  if is_digit ch then _ ← token_prev_char; mret (-1) else
  n ← rounds_of;
  p ← name_loop n 0 ch;
  _ ← upd (set_eof false);
  _ ← token_prev_char;
  _ ← put_string p 0;
  mret 0.

Fixpoint match_loop (t : list (list Z * finsh_token_type)) (str : list Z) : res (option finsh_token_type) :=
  match t with
  | [] => mret None
  | (name, type) :: t =>
      r ← Str.rt_strcmp name str; if r =? 0 then mret (Some type) else match_loop t str
  end.
Definition token_match_name : P bool :=
  str ← tk string;
  r ← lift (match_loop finsh_name_table str);
  match r with Some type => _ ← upd (set_current type); mret true | None => mret false end.

Fixpoint trim_loop (fuel : nat) : P unit :=
  match fuel with
  | O => hang
  | S fuel =>
      ch ← token_next_char;
      if (ch =? 32) || (ch =? 9) || (ch =? 13) then trim_loop fuel else mret tt
  end.
Definition token_trim_space : P unit := n ← rounds_of; _ ← trim_loop n; token_prev_char.

(** ** Characters and strings *)

(** [*p++ = ch] into [buf\[4\]]: the digit that is taken is the one behind. *)
Fixpoint char_digits (fuel : nat) (buf : list Z) (p ch : Z) : P (list Z * Z) :=
  match fuel with
  | O => hang
  | S fuel =>
      if is_digit ch then
        ch ← token_next_char; buf ← lift (store_at buf p ch); char_digits fuel buf (p + 1) ch
      else mret (buf, p)
  end.

(** [atoi(p)], where [*p] is the NUL. *)
Definition token_proc_char : P Z :=
  ch ← token_next_char;
  ch ← (if ch =? 92 then
          ch ← token_next_char;
          if ch =? 110 then mret 10 else
          if ch =? 116 then mret 9 else
          if ch =? 118 then mret 11 else
          if ch =? 98 then mret 8 else
          if ch =? 114 then mret 13 else
          if ch =? 92 then mret 92 else
          if ch =? 39 then mret 39 else
          n ← rounds_of;
          '(buf, p) ← char_digits n (replicate 4 0) 0 ch;
          _ ← token_prev_char;
          _ ← lift (store_at buf p 0);
          mret 0
        else mret ch);
  next ← token_next_char;
  if negb (next =? 39) then
    _ ← token_prev_char; _ ← on_finsh (finsh_error_set FINSH_ERROR_EXPECT_CHAR); mret ch
  else mret ch.

Fixpoint hex_digits (fuel : nat) (result ch : Z) : P Z :=
  match fuel with
  | O => hang
  | S fuel =>
      if is_xdigit ch then
        let result := s32 (result * 16 + (if ch <? 65 then ch - 48 else Z.lor ch 0x20 - 97 + 10)) in
        ch ← token_next_char; hex_digits fuel result ch
      else mret result
  end.
Fixpoint octal_digits (fuel : nat) (result ch : Z) : P Z :=
  match fuel with
  | O => hang
  | S fuel =>
      if u32 (ch - 48) <? 8 then
        let result := s32 (result * 8 + ch - 48) in
        ch ← token_next_char; octal_digits fuel result ch
      else mret result
  end.

Definition token_proc_escape : P Z :=
  ch ← token_next_char;
  if ch =? 110 then mret 10 else
  if ch =? 116 then mret 9 else
  if ch =? 118 then mret 11 else
  if ch =? 98 then mret 8 else
  if ch =? 114 then mret 13 else
  if ch =? 102 then mret 12 else
  if ch =? 97 then mret 7 else
  if ch =? 34 then mret 34 else
  if (ch =? 120) || (ch =? 88) then
    ch ← token_next_char; n ← rounds_of; r ← hex_digits n 0 ch; _ ← token_prev_char; mret r
  else if u32 (ch - 48) <? 8 then
    n ← rounds_of; r ← octal_digits n 0 ch; _ ← token_prev_char; mret r
  else mret 0.

Fixpoint string_loop (fuel : nat) (p : Z) : P unit :=
  match fuel with
  | O => hang
  | S fuel =>
      if p <? FINSH_STRING_MAX then
        ch ← token_next_char;
        e ← tk eof;
        if e : bool then on_finsh (finsh_error_set FINSH_ERROR_UNEXPECT_END) else
        if ch =? 92 then
          ch ← token_proc_escape; _ ← put_string p (u8 ch); string_loop fuel (p + 1)
        else if ch =? 34 then put_string p 0
        else _ ← put_string p ch; string_loop fuel (p + 1)
      else mret tt
  end.
Definition token_proc_string : P unit := n ← rounds_of; string_loop n 0.

(** ** Numbers *)

(** The digits of a number of one base go to [buf\[128\]]. *)
Fixpoint digit_loop (fuel : nat) (ok : Z -> bool) (buf : list Z) (p ch : Z) : P (list Z * Z * Z) :=
  match fuel with
  | O => hang
  | S fuel =>
      if ok ch then
        buf ← lift (store_at buf p ch); ch ← token_next_char; digit_loop fuel ok buf (p + 1) ch
      else mret (buf, p, ch)
  end.

Definition spec_digit (t : Z) : Z :=
  if (97 <=? t) && (t <=? 102) then t - 97 + 10 else
  if (65 <=? t) && (t <=? 70) then t - 65 + 10 else t - 48.

(** A digit is shifted into the two words [bn]. *)
Fixpoint spec_loop (n : nat) (string : list Z) (shift bn0 bn1 : Z) : res (Z * Z) :=
  match n with
  | O => mret (bn0, bn1)
  | S n =>
      match string with
      | [] => Fault
      | t :: string =>
          let t := u32 (spec_digit t) in
          let carry := Z.shiftr bn0 (32 - shift) in
          spec_loop n string shift (Z.lor (u32 (Z.shiftl bn0 shift)) t) (Z.lor (u32 (Z.shiftl bn1 shift)) carry)
      end
  end.
Definition token_spec_number (string : list Z) (length b : Z) : res Z :=
  let shift := if b =? 16 then 4 else if b =? 8 then 3 else 1 in
  '(bn0, _) ← spec_loop (Z.to_nat length) string shift 0 0;
  mret (s32 bn0).

Fixpoint decimal_loop (fuel : nat) (v ch : Z) : P (Z * Z) :=
  match fuel with
  | O => hang
  | S fuel =>
      if is_digit ch then
        let v := s32 (v * 10 + (ch - 48)) in ch ← token_next_char; decimal_loop fuel v ch
      else mret (v, ch)
  end.

(** The digits of base [b], the first of which is [ch]. *)
Definition based_number (ok : Z -> bool) (b ch : Z) : P Z :=
  n ← rounds_of;
  '(buf, p, ch) ← digit_loop n ok (replicate 128 0) 0 ch;
  buf ← lift (store_at buf p 0);
  len ← lift (Str.rt_strlen buf);
  v ← lift (token_spec_number buf len b);
  _ ← upd (set_tvalue (u32 v));
  _ ← upd (set_current T_value_int);
  mret ch.

(** The suffix. *)
Definition long_suffix (ch : Z) : P unit :=
  if (ch =? 108) || (ch =? 76) then upd (set_current T_value_long) else token_prev_char.

Definition token_proc_number : P unit :=
  ch ← token_next_char;
  if ch =? 48 then
    ch ← token_next_char;
    if (ch =? 120) || (ch =? 88) then
      ch ← token_next_char; ch ← based_number (fun c => is_digit c || is_alpha c) 16 ch; long_suffix ch
    else if (ch =? 98) || (ch =? 66) then
      ch ← token_next_char; ch ← based_number (fun c => (c =? 48) || (c =? 49)) 2 ch; long_suffix ch
    else if is_octal ch then
      ch ← based_number is_octal 8 ch; long_suffix ch
    else
      _ ← token_prev_char; _ ← upd (set_tvalue 0); upd (set_current T_value_int)
  else
    n ← rounds_of;
    '(v, ch) ← decimal_loop n 0 ch;
    _ ← upd (set_tvalue (u32 v));
    _ ← upd (set_current T_value_int);
    long_suffix ch.

(** ** Tokens *)

(** An operator of one or two characters. *)
Definition token_double (second : Z) (double single : finsh_token_type) : P unit :=
  ch ← token_next_char;
  if ch =? second then upd (set_current double) else _ ← token_prev_char; upd (set_current single).

Definition token_operator (ch : Z) : P unit :=
  if ch =? 40 then upd (set_current T_left_paren) else
  if ch =? 41 then upd (set_current T_right_paren) else
  if ch =? 44 then upd (set_current T_comma) else
  if ch =? 59 then upd (set_current T_semicolon) else
  if ch =? 38 then upd (set_current T_and) else
  if ch =? 42 then upd (set_current T_mul) else
  if ch =? 43 then token_double 43 T_inc T_add else
  if ch =? 45 then token_double 45 T_dec T_sub else
  if ch =? 47 then token_double 47 T_eof T_div else
  if ch =? 60 then token_double 60 T_shl T_bad else
  if ch =? 62 then token_double 62 T_shr T_bad else
  if ch =? 124 then upd (set_current T_or) else
  if ch =? 37 then upd (set_current T_mod) else
  if ch =? 126 then upd (set_current T_bitwise) else
  if ch =? 94 then upd (set_current T_xor) else
  if ch =? 61 then upd (set_current T_assign) else
  if ch =? 39 then
    c ← token_proc_char; v ← tk value; _ ← upd (set_tvalue (set_char_value v c)); upd (set_current T_value_char)
  else
  if ch =? 34 then _ ← token_proc_string; upd (set_current T_value_string) else
  if is_digit ch then _ ← token_prev_char; token_proc_number else
  _ ← on_finsh (finsh_error_set FINSH_ERROR_UNKNOWN_TOKEN); upd (set_current T_bad).

Definition token_run : P unit :=
  _ ← token_trim_space;
  _ ← token_get_string;
  e ← tk eof;
  if e : bool then upd (set_current T_eof) else
  str ← tk string;
  c ← lift (load_at str 0);
  if negb (c =? 0) then
    m ← token_match_name;
    if m : bool then mret tt else upd (set_current T_identifier)
  else ch ← token_next_char; token_operator ch.

Definition finsh_token_token : P finsh_token_type :=
  r ← tk replay;
  _ ← (if r : bool then upd (set_replay false) else token_run);
  tk current_token.

Definition finsh_token_replay : P unit := upd (set_replay true).
