(* ===== verification/FinshHeap.v ===== *)
(** * The expression shell: the heap for strings (Finsh/finsh_heap.c)

    Blocks with a header of two words, the length of the data and the next block, in
    [finsh_heap], an array of [FINSH_HEAP_MAX] bytes of the memory the byte code works
    on; the blocks that are free and those that are in use are in two lists.  A pointer
    to a list is [free] or [allocated]. *)

From Stdlib Require Import Lia.
From S2P Require Import Prelude KService FinshVm FinshCompiler FinshToken.

Definition FINSH_HEAP_MAX : Z := 128.
Definition HEAP_ALIGNMENT : Z := 4.
Definition SIZEOF_BLOCK_HEADER : Z := 8.

(** Where [finsh_heap] is. *)
Class HeapAddress := { finsh_heap : Z }.

Inductive which := free | allocated.

Section Heap.
Context {SY : Symbols} {HA : HeapAddress}.

Definition get_list (l : which) : P Z := gets (fun s => match l with free => free_list s | allocated => allocate_list s end).
Definition set_list (l : which) (h : Z) : P unit :=
  modify (fun s => match l with
                   | free => Parser (token s) (root s) h (allocate_list s) (p_finsh s)
                   | allocated => Parser (token s) (root s) (free_list s) h (p_finsh s)
                   end).
Definition word (a : Z) : P Z := on_finsh (on_vm (mem_load load32 a)).
Definition set_word (a v : Z) : P unit := on_finsh (on_vm (mem_store store32 a v)).
Definition h_length (h : Z) : P Z := word h.
Definition h_next (h : Z) : P Z := word (h + 4).
Definition set_length (h v : Z) : P unit := set_word h v.
Definition set_hnext (h v : Z) : P unit := set_word (h + 4) v.

Definition finsh_block_get_header (data : Z) : Z := data - SIZEOF_BLOCK_HEADER.
Definition finsh_block_get_data (header : Z) : Z := header + SIZEOF_BLOCK_HEADER.
Definition HEAP_ALIGN_SIZE (size : Z) : Z := Z.land (u32 (size + HEAP_ALIGNMENT - 1)) (u32 (Z.lnot (HEAP_ALIGNMENT - 1))).

(** [memset(p, 0, n)] *)
Fixpoint clear (n : nat) (p : Z) : P unit :=
  match n with O => mret tt | S n => _ ← on_finsh (on_vm (mem_store store8 p 0)); clear n (p + 1) end.

Definition finsh_heap_init : P Z :=
  _ ← clear (Z.to_nat FINSH_HEAP_MAX) finsh_heap;
  _ ← set_list free finsh_heap;
  _ ← set_length finsh_heap (FINSH_HEAP_MAX - SIZEOF_BLOCK_HEADER);
  _ ← set_hnext finsh_heap 0;
  _ ← set_list allocated 0;
  mret 0.

(** There are not more blocks than headers fit into the heap; a longer list has a cycle,
    and the loops over it do not end. *)
Definition BLOCKS : nat := S (Z.to_nat (FINSH_HEAP_MAX / SIZEOF_BLOCK_HEADER)).

(** From [node] on, the block behind which [header] goes. *)
Fixpoint insert_point (fuel : nat) (node header : Z) : P Z :=
  match fuel with
  | O => hang
  | S fuel =>
      n ← h_next node;
      if (header <? n) || (n =? 0) then mret node else insert_point fuel n header
  end.

Definition finsh_block_insert (list : which) (header : Z) : P unit :=
  node ← get_list list;
  if node =? 0 then set_list list header else
  if header <? node then _ ← set_hnext header node; set_list list header else
  node ← insert_point BLOCKS node header;
  n ← h_next node;
  _ ← kwhen (negb (n =? 0)) (set_hnext header n);
  set_hnext node header.

(** The block in front of [header], or 0. *)
Fixpoint block_before (fuel : nat) (node header : Z) : P Z :=
  match fuel with
  | O => hang
  | S fuel =>
      if node =? 0 then mret 0 else
      n ← h_next node; if n =? header then mret node else block_before fuel n header
  end.

Definition finsh_block_remove (list : which) (header : Z) : P unit :=
  node ← get_list list;
  if node =? header then
    n ← h_next header; _ ← set_list list n; set_hnext header 0
  else
    node ← block_before BLOCKS node header;
    if node =? 0 then mret tt else n ← h_next header; set_hnext node n.

Definition finsh_block_split (header size : Z) : P unit :=
  let next := header + SIZEOF_BLOCK_HEADER + size in
  l ← h_length header;
  _ ← set_length next (l - SIZEOF_BLOCK_HEADER - size);
  _ ← set_length header size;
  n ← h_next header;
  _ ← set_hnext next n;
  set_hnext header next.

Definition finsh_block_merge (list : which) (header : Z) : P unit :=
  next_node ← h_next header;
  first ← get_list list;
  prev_node ← (if first =? header then mret 0 else block_before BLOCKS first header);
  hl ← h_length header;
  let closed := negb (next_node =? 0) && (header + hl + SIZEOF_BLOCK_HEADER =? next_node) in
  prev_closed ← (if prev_node =? 0 then mret false else
                 pl ← h_length prev_node; mret (prev_node + pl + SIZEOF_BLOCK_HEADER =? header));
  if prev_closed : bool then
    pl ← h_length prev_node;
    if closed then
      nl ← h_length next_node; _ ← set_length prev_node (pl + (hl + nl + 2 * SIZEOF_BLOCK_HEADER));
      n ← h_next next_node; set_hnext prev_node n
    else
      _ ← set_length prev_node (pl + (hl + SIZEOF_BLOCK_HEADER)); n ← h_next header; set_hnext prev_node n
  else if closed then
    nl ← h_length next_node; _ ← set_length header (hl + (nl + SIZEOF_BLOCK_HEADER));
    n ← h_next next_node; set_hnext header n
  else mret tt.

Definition finsh_heap_free (ptr : Z) : P unit :=
  let header := finsh_block_get_header ptr in
  _ ← finsh_block_remove allocated header;
  _ ← finsh_block_insert free header;
  finsh_block_merge free header.

(** Whether a variable points to the data. *)
Fixpoint pointed (t : list finsh_var) (i data : Z) : P bool :=
  match t with
  | [] => mret false
  | x :: t =>
      p ← (if bool_decide (var_type x = finsh_type_unknown) then mret None else p ← word (var_value_addr i); mret (Some p));
      if bool_decide (p = Some data) then mret true else pointed t (i + 1) data
  end.

Fixpoint gc_loop (fuel : nat) (header : Z) : P unit :=
  match fuel with
  | O => hang
  | S fuel =>
      if header =? 0 then mret tt else
      t ← gets (fun s => global_variable (p_finsh s));
      used ← pointed t 0 (finsh_block_get_data header);
      next ← h_next header;
      _ ← (if used : bool then mret tt else finsh_heap_free (finsh_block_get_data header));
      gc_loop fuel next
  end.
Definition finsh_heap_gc : P unit := h ← get_list allocated; gc_loop BLOCKS h.

(** The first block that [short] does not reject. *)
Fixpoint first_fit (fuel : nat) (short : Z -> bool) (header : Z) : P Z :=
  match fuel with
  | O => hang
  | S fuel =>
      if header =? 0 then mret 0 else
      l ← h_length header;
      if short l then n ← h_next header; first_fit fuel short n else mret header
  end.

(** The block that is found, and that of the second search. *)
Definition finsh_heap_allocate (size : Z) : P Z :=
  let size := HEAP_ALIGN_SIZE size in
  h ← get_list free;
  header ← first_fit BLOCKS (fun l => l <=? u32 (size + SIZEOF_BLOCK_HEADER)) h;
  header ← (if header =? 0 then
              _ ← finsh_heap_gc; h ← get_list free; first_fit BLOCKS (fun l => l <? u32 (size + SIZEOF_BLOCK_HEADER)) h
            else mret header);
  if header =? 0 then mret 0 else
  _ ← finsh_block_split header size;
  _ ← finsh_block_remove free header;
  _ ← set_hnext header 0;
  _ ← finsh_block_insert allocated header;
  _ ← clear (Z.to_nat size) (finsh_block_get_data header);
  mret (finsh_block_get_data header).

End Heap.
