(* ===== verification/FinshParser.v ===== *)
(** * The expression shell: the parser (Finsh/finsh_parser.c)

    Recursive descent: a function per nonterminal of the grammar in the comments of the
    C file, the tree in the node table.  [fuel] bounds the depth of the recursion and
    the rounds of the loops over operators. *)

From Stdlib Require Import Lia.
From S2P Require Import Prelude KService FinshVm FinshCompiler FinshToken FinshHeap.

Definition is_base_type (t : finsh_token_type) : bool :=
  match t with T_void | T_char | T_short | T_int | T_long => true | _ => false end.

Section Parser.
Context {SY : Symbols} {HA : HeapAddress}.

Definition error_set (e : Z) : P unit := on_finsh (finsh_error_set e).

Definition next_token : P finsh_token_type := finsh_token_token.
Definition check_token (token type : finsh_token_type) : P unit :=
  if bool_decide (token = type) then mret tt else _ ← error_set FINSH_ERROR_INVALID_TOKEN; finsh_token_replay.
Definition match_token (type : finsh_token_type) : P unit := token ← next_token; check_token token type.

(** ** Nodes *)

(** [finsh_node_sibling(node1) = node2], [finsh_node_child(node) = node1] *)
Definition link_sibling (node1 : Z) (node2 : option Z) : P unit :=
  x ← on_finsh (get_node node1); on_finsh (put_node node1 (set_sibling node2 x)).
Definition link_child (node : Z) (node1 : option Z) : P unit :=
  x ← on_finsh (get_node node); on_finsh (put_node node (set_child node1 x)).

Definition make_sys_node (type : node_kind) (node1 node2 : option Z) : P (option Z) :=
  node ← on_finsh (finsh_node_allocate type);
  _ ← match node1, node with
      | Some n1, Some n => _ ← link_child n node1; link_sibling n1 node2
      | _, _ => error_set FINSH_ERROR_NULL_NODE
      end;
  mret node.

(** [strncpy] of the string to the memory, and its NUL. *)
Fixpoint store_string (s : list Z) (p : Z) : P unit :=
  match s with
  | [] => on_finsh (on_vm (mem_store store8 p 0))
  | c :: s => _ ← on_finsh (on_vm (mem_store store8 p c)); store_string s (p + 1)
  end.

Definition finsh_node_new_string (s : list Z) : P (option Z) :=
  node ← on_finsh (finsh_node_allocate FINSH_NODE_VALUE_STRING);
  match node with
  | None => _ ← error_set FINSH_ERROR_MEMORY_FULL; mret None
  | Some i =>
      n ← lift (Str.rt_strlen s);
      p ← finsh_heap_allocate (n + 1);
      x ← on_finsh (get_node i); _ ← on_finsh (put_node i (set_value p x));
      _ ← store_string (take (Z.to_nat n) s) p;
      mret (Some i)
  end.

(** ** Types and identifiers *)

Definition base_type (t : finsh_token_type) : finsh_type :=
  match t with
  | T_void => finsh_type_void | T_char => finsh_type_char | T_short => finsh_type_short
  | T_int => finsh_type_int | T_long => finsh_type_long | _ => finsh_type_unknown
  end.
Definition unsigned_type (t : finsh_token_type) : option finsh_type :=
  match t with
  | T_char => Some finsh_type_uchar | T_short => Some finsh_type_ushort
  | T_int => Some finsh_type_uint | T_long => Some finsh_type_ulong | _ => None
  end.
Definition pointer_type (t : finsh_type) : finsh_type :=
  match t with
  | finsh_type_void => finsh_type_voidp
  | finsh_type_char | finsh_type_uchar => finsh_type_charp
  | finsh_type_short | finsh_type_ushort => finsh_type_shortp
  | finsh_type_int | finsh_type_uint => finsh_type_intp
  | finsh_type_long | finsh_type_ulong => finsh_type_longp
  | _ => finsh_type_voidp
  end.

(** What follows the label [__return]. *)
Definition no_type : P finsh_type :=
  _ ← finsh_token_replay; _ ← error_set FINSH_ERROR_UNKNOWN_TYPE; mret finsh_type_unknown.
Definition proc_pointer (type : finsh_type) : P finsh_type :=
  token ← next_token;
  if bool_decide (token = T_mul) then mret (pointer_type type) else _ ← finsh_token_replay; mret type.

Definition proc_type : P finsh_type :=
  token ← next_token;
  if is_base_type token then proc_pointer (base_type token) else
  if bool_decide (token = T_unsigned) then
    token ← next_token;
    if is_base_type token then
      match unsigned_type token with Some type => proc_pointer type | None => no_type end
    else
      _ ← finsh_token_replay; _ ← error_set FINSH_ERROR_EXPECT_TYPE; proc_pointer finsh_type_unknown
  else no_type.

(** The name, 16 bytes: the last byte of [id] is not set. *)
Definition proc_identifier : P (list Z) :=
  _ ← match_token T_identifier;
  s ← tk string;
  lift (Str.rt_strncpy (replicate (Z.to_nat FINSH_NAME_MAX) 0) s FINSH_NAME_MAX).

(** ** Expressions *)

Section Levels.
(** The functions the levels below are called from. *)
Variable fuel : nat.
Variables proc_assign_expr proc_cast_expr : P (option Z).

(** [param_list] behind its first expression; [assign] is the last one. *)
Fixpoint param_loop (n : nat) (assign : Z) (token : finsh_token_type) : P unit :=
  match n with
  | O => hang
  | S n =>
      if bool_decide (token = T_comma) then
        next ← proc_assign_expr;
        _ ← link_sibling assign next;
        assign ← match next with
                 | Some i => mret i
                 | None => _ ← error_set FINSH_ERROR_EXPECT_OPERATOR; mret assign
                 end;
        token ← next_token;
        param_loop n assign token
      else mret tt
  end.
Definition proc_param_list : P (option Z) :=
  assign ← proc_assign_expr;
  match assign with
  | None => mret None
  | Some i => token ← next_token; _ ← param_loop fuel i token; _ ← finsh_token_replay; mret assign
  end.

Definition proc_primary_expr : P (option Z) :=
  token ← next_token;
  match token with
  | T_identifier => _ ← finsh_token_replay; id ← proc_identifier; on_finsh (finsh_node_new_id id)
  | T_left_paren => expr ← proc_assign_expr; _ ← match_token T_right_paren; mret expr
  | T_value_int => v ← tk value; on_finsh (finsh_node_new_int v)
  | T_value_long => v ← tk value; on_finsh (finsh_node_new_long v)
  | T_value_char => v ← tk value; on_finsh (finsh_node_new_char (char_value v))
  | T_value_string => s ← tk string; finsh_node_new_string s
  | T_value_null => on_finsh (finsh_node_new_ptr 0)
  | _ => _ ← error_set FINSH_ERROR_INVALID_TOKEN; mret None
  end.

Definition proc_call (postfix : option Z) : P (option Z) :=
  token ← next_token;
  param_list ← (if bool_decide (token = T_right_paren) then mret None else
                _ ← finsh_token_replay; l ← proc_param_list; _ ← match_token T_right_paren; mret l);
  make_sys_node FINSH_NODE_SYS_FUNC postfix param_list.

Fixpoint postfix_loop (n : nat) (postfix : option Z) (token : finsh_token_type) : P (option Z) :=
  match n with
  | O => hang
  | S n =>
      match token with
      | T_inc =>
          x ← make_sys_node FINSH_NODE_SYS_INC postfix None; token ← next_token; postfix_loop n x token
      | T_dec =>
          x ← make_sys_node FINSH_NODE_SYS_DEC postfix None; token ← next_token; postfix_loop n x token
      | T_left_paren => x ← proc_call postfix; token ← next_token; postfix_loop n x token
      | _ => _ ← finsh_token_replay; mret postfix
      end
  end.
Definition proc_postfix_expr : P (option Z) :=
  postfix ← proc_primary_expr; token ← next_token; postfix_loop fuel postfix token.

Definition proc_unary_expr : P (option Z) :=
  token ← next_token;
  match token with
  | T_add => proc_cast_expr
  | T_inc => cast ← proc_cast_expr; make_sys_node FINSH_NODE_SYS_PREINC cast None
  | T_sub =>
      cast ← proc_cast_expr; zero ← on_finsh (finsh_node_new_long 0);
      make_sys_node FINSH_NODE_SYS_SUB zero cast
  | T_dec => cast ← proc_cast_expr; make_sys_node FINSH_NODE_SYS_PREDEC cast None
  | T_bitwise => cast ← proc_cast_expr; make_sys_node FINSH_NODE_SYS_BITWISE cast None
  | T_mul => cast ← proc_cast_expr; make_sys_node FINSH_NODE_SYS_GETVALUE cast None
  | T_and => cast ← proc_cast_expr; make_sys_node FINSH_NODE_SYS_GETADDR cast None
  | _ => _ ← finsh_token_replay; proc_postfix_expr
  end.

(** The loop of a level of binary operators; [operator] is the type of the node. *)
Section Binary.
Variable operator : finsh_token_type -> option node_kind.
Variable operand : P (option Z).

Fixpoint binary_loop (n : nat) (left : option Z) (token : finsh_token_type) : P (option Z) :=
  match n with
  | O => hang
  | S n =>
      match operator token with
      | Some kind =>
          new ← operand;
          left ← match new with
                 | None => _ ← error_set FINSH_ERROR_EXPECT_OPERATOR; mret left
                 | Some _ => make_sys_node kind left new
                 end;
          token ← next_token; binary_loop n left token
      | None => _ ← finsh_token_replay; mret left
      end
  end.
Definition proc_binary : P (option Z) := left ← operand; token ← next_token; binary_loop fuel left token.
End Binary.

Definition multiplicative_op (t : finsh_token_type) : option node_kind :=
  match t with
  | T_mul => Some FINSH_NODE_SYS_MUL | T_div => Some FINSH_NODE_SYS_DIV | T_mod => Some FINSH_NODE_SYS_MOD | _ => None
  end.
Definition additive_op (t : finsh_token_type) : option node_kind :=
  match t with T_sub => Some FINSH_NODE_SYS_SUB | T_add => Some FINSH_NODE_SYS_ADD | _ => None end.
Definition shift_op (t : finsh_token_type) : option node_kind :=
  match t with T_shl => Some FINSH_NODE_SYS_SHL | T_shr => Some FINSH_NODE_SYS_SHR | _ => None end.
Definition and_op (t : finsh_token_type) : option node_kind := match t with T_and => Some FINSH_NODE_SYS_AND | _ => None end.
Definition xor_op (t : finsh_token_type) : option node_kind := match t with T_xor => Some FINSH_NODE_SYS_XOR | _ => None end.
Definition or_op (t : finsh_token_type) : option node_kind := match t with T_or => Some FINSH_NODE_SYS_OR | _ => None end.

Definition proc_multiplicative_expr : P (option Z) := proc_binary multiplicative_op proc_cast_expr.
Definition proc_additive_expr : P (option Z) := proc_binary additive_op proc_multiplicative_expr.
Definition proc_shift_expr : P (option Z) := proc_binary shift_op proc_additive_expr.
Definition proc_and_expr : P (option Z) := proc_binary and_op proc_shift_expr.
Definition proc_exclusive_or_expr : P (option Z) := proc_binary xor_op proc_and_expr.
Definition proc_inclusive_or_expr : P (option Z) := proc_binary or_op proc_exclusive_or_expr.

End Levels.

Definition type_code (t : finsh_type) : Z :=
  match t with
  | finsh_type_unknown => 0 | finsh_type_void => 1 | finsh_type_voidp => 2 | finsh_type_char => 3
  | finsh_type_uchar => 4 | finsh_type_charp => 5 | finsh_type_short => 6 | finsh_type_ushort => 7
  | finsh_type_shortp => 8 | finsh_type_int => 9 | finsh_type_uint => 10 | finsh_type_intp => 11
  | finsh_type_long => 12 | finsh_type_ulong => 13 | finsh_type_longp => 14
  end.

(** [proc_cast_expr] and [proc_assign_expr] call each other through the levels. *)
Fixpoint proc_assign_expr (fuel : nat) : P (option Z) :=
  match fuel with
  | O => hang
  | S fuel' =>
      or ← proc_inclusive_or_expr fuel (proc_cast_expr fuel');
      token ← next_token;
      if bool_decide (token = T_assign) then
        assign ← proc_assign_expr fuel'; make_sys_node FINSH_NODE_SYS_ASSIGN or assign
      else _ ← finsh_token_replay; mret or
  end
with proc_cast_expr (fuel : nat) : P (option Z) :=
  match fuel with
  | O => hang
  | S fuel' =>
      let unary := _ ← finsh_token_replay; proc_unary_expr fuel (proc_assign_expr fuel') (proc_cast_expr fuel') in
      token ← next_token;
      if bool_decide (token = T_left_paren) then
        type ← proc_type;
        _ ← match_token T_right_paren;
        cast ← proc_cast_expr fuel';
        match cast with
        | Some i => x ← on_finsh (get_node i); _ ← on_finsh (put_node i (set_data_type (type_code type) x)); mret cast
        | None => unary
        end
      else unary
  end.

Definition proc_expr (fuel : nat) : P (option Z) := proc_assign_expr fuel.

(** ** Statements *)

Definition proc_expr_statement (fuel : nat) : P (option Z) :=
  token ← next_token;
  if bool_decide (token = T_semicolon) then mret None else
  _ ← finsh_token_replay; expr ← proc_expr fuel; _ ← match_token T_semicolon; mret expr.

(** The identifier of a declarator enters the table. *)
Definition declare (type : finsh_type) : P (list Z) :=
  id ← proc_identifier;
  r ← on_finsh (finsh_var_insert id type);
  _ ← (if r <? 0 then error_set FINSH_ERROR_VARIABLE_EXIST else mret tt);
  mret id.

(** [id = assign]: the node, and the token behind it. *)
Definition initialise (fuel : nat) (id : list Z) (token : finsh_token_type) : P (option (option Z) * finsh_token_type) :=
  assign ← proc_assign_expr fuel;
  match assign with
  | Some _ =>
      idnode ← on_finsh (finsh_node_new_id id);
      x ← make_sys_node FINSH_NODE_SYS_ASSIGN idnode assign;
      token ← next_token;
      mret (Some x, token)
  | None => mret (None, token)
  end.

(** [node] is the first assignment, [end_] the last. *)
Definition append_assign (node end_ x : option Z) : P (option Z * option Z) :=
  match node with
  | Some _ => e ← lift (deref end_); _ ← link_sibling e x; mret (node, x)
  | None => mret (x, x)
  end.

Fixpoint declarators (n fuel : nat) (type : finsh_type) (node end_ : option Z) (token : finsh_token_type) :
  P (option Z * finsh_token_type) :=
  match n with
  | O => hang
  | S n =>
      if bool_decide (token = T_comma) then
        id ← declare type;
        token ← next_token;
        if bool_decide (token = T_assign) then
          '(x, token) ← initialise fuel id token;
          '(node, end_) ← match x with Some x => append_assign node end_ x | None => mret (node, end_) end;
          declarators n fuel type node end_ token
        else declarators n fuel type node end_ token
      else mret (node, token)
  end.

Definition proc_variable_decl (fuel : nat) : P (option Z) :=
  type ← proc_type;
  id ← declare type;
  token ← next_token;
  match token with
  | T_comma =>
      id ← declare type;
      token ← next_token;
      '(node, token) ← (if bool_decide (token = T_assign) then
                          '(x, token) ← initialise fuel id token; mret (default None x, token)
                        else mret (None, token));
      '(node, token) ← declarators fuel fuel type node node token;
      _ ← check_token token T_semicolon; mret node
  | T_assign =>
      '(x, token) ← initialise fuel id token;
      let node := default None x in
      '(node, token) ← declarators fuel fuel type node node token;
      _ ← check_token token T_semicolon; mret node
  | T_semicolon => mret None
  | _ => _ ← error_set FINSH_ERROR_EXPECT_TYPE; mret None
  end.

(** ** Lines *)

(** A statement becomes the root or the sibling of [node], the last one; the result is
    the new last one, and whether a statement has been added. *)
Definition add_statement (node : option Z) (statement : P (option Z)) : P (option Z * bool) :=
  r ← gets root;
  match r with
  | Some _ =>
      x ← statement;
      n ← lift (deref node);
      _ ← link_sibling n x;
      mret (match x with Some _ => (x, true) | None => (node, false) end)
  | None => x ← statement; _ ← modify (with_root x); mret (x, true)
  end.

Fixpoint parser_loop (n fuel : nat) (node : option Z) (token : finsh_token_type) : P unit :=
  match n with
  | O => hang
  | S n =>
      match token with
      | T_eof | T_bad => mret tt
      | _ =>
          _ ← finsh_token_replay;
          '(node, added) ← add_statement node
             (if is_base_type token || bool_decide (token = T_unsigned) then proc_variable_decl fuel
              else proc_expr_statement fuel);
          _ ← (if is_base_type token || bool_decide (token = T_unsigned) || bool_decide (token = T_identifier) || (added : bool)
               then mret tt else _ ← next_token; mret tt);
          r ← gets root;
          match r with
          | None => mret tt
          | Some _ => token ← next_token; parser_loop n fuel node token
          end
      end
  end.

Definition finsh_parser_run (fuel : nat) (string : list Z) : P unit :=
  _ ← finsh_token_init string;
  token ← next_token;
  parser_loop fuel fuel None token.

Definition finsh_parser_init : P unit :=
  modify (fun s => Parser (FinshToken false false 0 T_none 0 (replicate 128 0) []) None (free_list s) (allocate_list s) (p_finsh s)).

(** ** The shell *)

Context {FN : Functions}.

Definition finsh_init : P Z :=
  _ ← finsh_parser_init; _ ← on_finsh finsh_node_init; _ ← on_finsh finsh_var_init; _ ← on_finsh finsh_error_init;
  _ ← finsh_heap_init; mret 0.

Definition finsh_reset : P Z :=
  _ ← on_finsh finsh_node_init; _ ← on_finsh finsh_var_init; _ ← on_finsh finsh_error_init; _ ← finsh_heap_init; mret 0.

(** [finsh_run_line] with its parser; the result is the value that is printed. *)
Definition run_line (fuel : nat) (l : list Z) : P (option Z) :=
  _ ← finsh_parser_run fuel l;
  r ← gets root;
  x ← on_finsh (finsh_run_line r);
  _ ← finsh_parser_init;
  mret x.

End Parser.
