(* ===== verification/FinshLex.v ===== *)
(** * The expression shell: tokens and the text of a line

    Which texts are which tokens, and that the tokenizer reads them: from a line with
    the text of some tokens, each call of [finsh_token_token] takes the next one. *)

From Stdlib Require Import Lia.
From S2P Require Import Prelude KService FinshVm FinshCompiler FinshSpec FinshToken.

(** ** Tokens and their text *)

Inductive tok := Sym (t : finsh_token_type) | Name (n : list Z) | Int (v : Z) | Long (v : Z) | Chr (c : Z).

Definition type_of (t : tok) : finsh_token_type :=
  match t with
  | Sym t => t | Name _ => T_identifier | Int _ => T_value_int | Long _ => T_value_long | Chr _ => T_value_char
  end.

Definition blank (c : Z) : Prop := c = 32 \/ c = 9 \/ c = 13.

Definition operators : list (list Z * finsh_token_type) := [
  ([40], T_left_paren); ([41], T_right_paren); ([44], T_comma); ([59], T_semicolon);
  ([42], T_mul); ([43], T_add); ([43; 43], T_inc); ([45], T_sub); ([45; 45], T_dec); ([47], T_div); ([37], T_mod);
  ([61], T_assign); ([38], T_and); ([124], T_or); ([94], T_xor); ([126], T_bitwise); ([60; 60], T_shl); ([62; 62], T_shr) ].

Definition digits (base : Z) (ds : list Z) : Z := foldl (fun v d => v * base + spec_digit d) 0 ds.

Definition xdigit (c : Z) : Prop := 48 <= c <= 57 \/ 65 <= c <= 70 \/ 97 <= c <= 102.

Definition name_ok (n : list Z) : Prop :=
  exists c n', n = c :: n' /\ is_digit c = false /\ Forall (fun c => is_separator c = false) n /\ Forall (fun c => 1 <= c <= 255) n.

Definition keyword (n : list Z) : Prop := exists t, (n ++ [0], t) ∈ finsh_name_table.

(** The escapes of a character constant. *)
Definition escapes : list (Z * Z) := [(110, 10); (116, 9); (118, 11); (98, 8); (114, 13); (92, 92); (39, 39)].

Inductive spells : tok -> list Z -> Prop :=
| spells_operator w t : (w, t) ∈ operators -> spells (Sym t) w
| spells_keyword n t : (n ++ [0], t) ∈ finsh_name_table -> spells (Sym t) n
| spells_name n : name_ok n -> ~ keyword n -> spells (Name n) n
| spells_zero : spells (Int 0) [48]
| spells_decimal d ds : 49 <= d <= 57 -> Forall (fun c => 48 <= c <= 57) ds -> digits 10 (d :: ds) < 2 ^ 31 ->
    spells (Int (digits 10 (d :: ds))) (d :: ds)
| spells_long d ds l : 49 <= d <= 57 -> Forall (fun c => 48 <= c <= 57) ds -> digits 10 (d :: ds) < 2 ^ 31 -> l = 108 \/ l = 76 ->
    spells (Long (digits 10 (d :: ds))) (d :: ds ++ [l])
| spells_hex x ds : x = 120 \/ x = 88 -> Forall xdigit ds -> (length ds <= 8)%nat -> spells (Int (digits 16 ds)) (48 :: x :: ds)
| spells_octal d ds : 48 <= d <= 55 -> Forall (fun c => 48 <= c <= 55) ds -> (length ds <= 9)%nat ->
    spells (Int (digits 8 (d :: ds))) (48 :: d :: ds)
| spells_binary x ds : x = 98 \/ x = 66 -> Forall (fun c => c = 48 \/ c = 49) ds -> (length ds <= 32)%nat ->
    spells (Int (digits 2 ds)) (48 :: x :: ds)
| spells_char c : 32 <= c <= 126 -> c <> 92 -> spells (Chr c) [39; c; 39]
| spells_escape e c : (e, c) ∈ escapes -> spells (Chr c) [39; 92; e; 39].

(** What may follow a token so that it does not go on. *)
Definition apart (t : tok) (rest : list Z) : Prop :=
  match t with
  | Sym T_add => exists c r, rest = c :: r /\ c <> 43
  | Sym T_sub => exists c r, rest = c :: r /\ c <> 45
  | Sym T_div => exists c r, rest = c :: r /\ c <> 47
  | Name _ | Int _ | Long _
  | Sym T_void | Sym T_char | Sym T_short | Sym T_int | Sym T_long | Sym T_unsigned | Sym T_value_null =>
      exists c r, rest = c :: r /\ is_separator c = true
  | _ => True
  end.

(** The text of some tokens: before each of them may be blanks. *)
Inductive rendered : list Z -> list tok -> Prop :=
| rendered_end b : Forall blank b -> rendered b []
| rendered_token b w rest t ts : Forall blank b -> spells t w -> apart t rest -> rendered rest ts ->
    rendered (b ++ w ++ rest) (t :: ts).

(** ** Reading *)

Definition plain (c : Z) : Prop := 1 <= c <= 255 /\ c <> 10.

(** [rest] is still to be read. *)
Record reading (rest : list Z) (t : finsh_token) : Prop := {
  rd_eof : eof t = false;
  rd_line : exists pre post, line t = (pre ++ rest) ++ 0 :: post /\ position t = len pre /\ Forall plain (pre ++ rest) /\ len (pre ++ rest) < 128;
  rd_string : length (string t) = 128%nat }.

(** [s], [k] characters further, with [x] in the string. *)
Definition at_ (s : parser) (k : Z) (x : list Z) : parser :=
  with_token (set_string x (set_position (position (token s) + k) (token s))) s.

Section Lex.
Implicit Types (s : parser) (x w r rest : list Z) (k c : Z).

Lemma wp_tk {A} (f : finsh_token -> A) s (Q : A -> parser -> Prop) : Q (f (token s)) s -> wp (tk f) Q s.
Proof. done. Qed.
Lemma wp_upd (f : finsh_token -> finsh_token) s (Q : unit -> parser -> Prop) : Q tt (with_token (f (token s)) s) -> wp (upd f) Q s.
Proof. done. Qed.

Lemma reading_at rest w s x : reading (w ++ rest) (token s) -> length x = 128%nat -> reading rest (token (at_ s (len w) x)).
Proof.
  intros [E (pre & post & El & Ep & F & L) _] Lx. split; [done| |done].
  exists (pre ++ w), post. rewrite <- !app_assoc in *. split; [done|]. split; [|done]. cbn. rewrite Ep, length_app. lia.
Qed.

Lemma wp_next w c rest s x (Q : Z -> parser -> Prop) :
  reading (w ++ c :: rest) (token s) -> Q c (at_ s (len w + 1) x) -> wp token_next_char Q (at_ s (len w) x).
Proof.
  intros [E (pre & post & El & Ep & F & L) _] H. unfold token_next_char.
  wstep. apply wp_tk. cbn. rewrite E. wstep. apply wp_tk. wstep. apply wp_tk. cbn. rewrite El, Ep. wstep.
  eapply wp_lift_ok.
  { apply (Str.rt_strlen_ok (pre ++ w ++ c :: rest)). split; [|by eexists]. eapply Forall_impl; [exact F|]. by intros ? []. }
  assert (Lt : len (pre ++ w ++ c :: rest) = len pre + len w + 1 + len rest) by (rewrite !length_app; cbn; lia). rewrite Lt.
  rewrite (proj2 (Z.eqb_neq _ _)) by lia. wstep. eapply wp_lift_ok.
  { replace ((pre ++ w ++ c :: rest) ++ 0 :: post) with ((pre ++ w) ++ c :: rest ++ 0 :: post) by (by rewrite <- !app_assoc).
    apply load_mid. rewrite length_app. lia. }
  assert (P : plain c) by (apply Forall_app in F as [_ F]; apply Forall_app in F as [_ F]; by inversion F).
  rewrite (proj2 (Z.eqb_neq c 10)) by apply P. cbn [orb]. wstep. apply wp_upd. wstep.
  replace (len pre + len w + 1) with (position (token s) + (len w + 1)) by (rewrite Ep; lia). exact H.
Qed.

Lemma wp_prev rest k s x (Q : unit -> parser -> Prop) :
  reading rest (token s) -> 0 <= k -> Q tt (at_ s k x) -> wp token_prev_char Q (at_ s (k + 1) x).
Proof.
  intros [E (pre & post & El & Ep & F & L) _] Hk H. unfold token_prev_char.
  wstep. apply wp_tk. cbn. rewrite E. wstep. apply wp_tk. cbn. rewrite (proj2 (Z.eqb_neq _ _)) by lia. apply wp_upd.
  replace (position (token s) + (k + 1) - 1) with (position (token s) + k) by lia. exact H.
Qed.

(** The end of the text. *)
Definition ended s x : parser :=
  with_token (set_eof true (set_string x (set_position 0 (token s)))) s.

Lemma wp_next_end w s x (Q : Z -> parser -> Prop) :
  reading w (token s) -> Q 0 (ended s x) -> wp token_next_char Q (at_ s (len w) x).
Proof.
  intros [E (pre & post & El & Ep & F & L) _] H. unfold token_next_char.
  wstep. apply wp_tk. cbn. rewrite E. wstep. apply wp_tk. wstep. apply wp_tk. cbn. rewrite El, Ep. wstep.
  eapply wp_lift_ok.
  { apply (Str.rt_strlen_ok (pre ++ w)). split; [|by eexists]. eapply Forall_impl; [exact F|]. by intros ? []. }
  rewrite length_app, (proj2 (Z.eqb_eq _ _)) by lia. do 2 wstep. cbn [orb]. do 2 (wstep; apply wp_upd). by wstep.
Qed.

Lemma at_0 s : at_ s 0 (string (token s)) = s.
Proof. destruct s as [[] ? ? ? ?]. unfold at_. cbn. by rewrite Z.add_0_r. Qed.

Lemma put_string_ok s k x (p c : Z) (x' : list Z) (Q : unit -> parser -> Prop) :
  store_at x p c = Ok x' -> Q tt (at_ s k x') -> wp (put_string p c) Q (at_ s k x).
Proof. intros E H. unfold put_string. wstep. apply wp_tk. cbn. wstep. eapply wp_lift_ok; [exact E|]. by apply wp_upd. Qed.

Lemma rounds_ok s k x rest (Q : nat -> parser -> Prop) : reading rest (token s) ->
  (forall n, (length rest < n)%nat -> Q n (at_ s k x)) -> wp rounds_of Q (at_ s k x).
Proof.
  intros [_ (pre & post & El & _) _] H. unfold rounds_of. wstep. apply wp_tk. wstep. apply H. cbn. rewrite El, !length_app. cbn. lia.
Qed.

(** ** Blanks and names *)

Lemma trim_loop_ok b : forall w c rest fuel s x (Q : unit -> parser -> Prop),
  reading (w ++ b ++ c :: rest) (token s) -> Forall blank b -> ~ blank c -> (length b < fuel)%nat ->
  Q tt (at_ s (len w + len b + 1) x) -> wp (trim_loop fuel) Q (at_ s (len w) x).
Proof.
  induction b as [|d b IH]; intros w c rest fuel s x Q R Fb Hc Lf H; (destruct fuel as [|fuel]; [cbn in Lf; lia|]); cbn [trim_loop]; wstep.
  - eapply wp_next; [exact R|]. unfold blank in Hc. rewrite !(proj2 (Z.eqb_neq c _)) by tauto. cbn [orb]. wstep. cbn [length] in H.
    replace (len w + Z.of_nat 0 + 1) with (len w + 1) in H by lia. exact H.
  - inversion Fb as [|? ? Hd Fb']; subst. eapply wp_next; [exact R|]. assert (B : (d =? 32) || (d =? 9) || (d =? 13) = true).
    { destruct Hd as [->|[->| ->]]; done. }
    rewrite B. replace (len w + 1) with (len (w ++ [d])) by (rewrite length_app; cbn; lia).
    apply (IH _ c rest); [by rewrite <- app_assoc|done|done|cbn in Lf; lia|].
    rewrite length_app. cbn [length] in H |- *. replace (Z.of_nat (length w + 1) + len b + 1) with (len w + Z.of_nat (S (length b)) + 1) by lia. exact H.
Qed.

Lemma token_trim_ok b c rest s x (Q : unit -> parser -> Prop) :
  reading (b ++ c :: rest) (token s) -> Forall blank b -> ~ blank c -> Q tt (at_ s (len b) x) -> wp token_trim_space Q (at_ s 0 x).
Proof.
  intros R Fb Hc H. unfold token_trim_space. wstep. eapply rounds_ok; [exact R|]. intros n Ln. rewrite length_app in Ln. wstep.
  apply (trim_loop_ok b [] c rest); [done|done|done|lia|]. cbn [length]. eapply wp_prev; [exact R|lia|]. by rewrite Z.add_0_l.
Qed.

Lemma head_next (n : list Z) c : forall ch, ch = default c (head n) -> exists t, n ++ [c] = ch :: t.
Proof. destruct n; intros ch ->; by eexists. Qed.

Lemma name_loop_ok (n : list Z) : forall w c rest fuel s done junk (Q : Z -> parser -> Prop),
  reading (w ++ n ++ c :: rest) (token s) -> Forall (fun c => is_separator c = false) n -> is_separator c = true ->
  (length n < fuel)%nat -> (length n <= length junk)%nat ->
  Q (len done + len n) (at_ s (len w + len n + 1) (done ++ n ++ drop (length n) junk)) ->
  wp (name_loop fuel (len done) (default c (head n))) Q (at_ s (len w + 1) (done ++ junk)).
Proof.
  induction n as [|d n IH]; intros w c rest fuel s done junk Q R Fn Hc Lf Lj H;
    (destruct fuel as [|fuel]; [cbn in Lf; lia|]); cbn [name_loop]; wstep; apply wp_tk.
  - change (default c (head [])) with c. rewrite Hc. cbn [negb andb]. wstep. cbn [length app drop] in H. by rewrite !Z.add_0_r in H.
  - inversion Fn as [|? ? Hd Fn']; subst. change (default c (head (d :: n))) with d. rewrite Hd. assert (E : eof (token (at_ s (len w + 1) (done ++ junk))) = false) by apply R.
    rewrite E. cbn [negb andb]. wstep. destruct junk as [|j junk]; [cbn in Lj; lia|].
    eapply put_string_ok; [apply store_at_mid|]. cbn [app]. wstep.
    replace (len w + 1) with (len (w ++ [d])) by (rewrite length_app; cbn; lia).
    destruct (head_next n c _ eq_refl) as [t Et].
    assert (Er : w ++ (d :: n) ++ c :: rest = (w ++ [d]) ++ default c (head n) :: t ++ rest).
    { rewrite <- app_assoc. cbn [app]. do 2 f_equal. change (c :: rest) with ([c] ++ rest). by rewrite app_assoc, Et. }
    eapply wp_next; [rewrite <- Er; exact R|].
    replace (len done + 1) with (len (done ++ [d])) by (rewrite length_app; cbn; lia).
    replace (done ++ d :: junk) with ((done ++ [d]) ++ junk) by (by rewrite <- app_assoc).
    apply (IH _ c rest); [by rewrite <- app_assoc|done|done|cbn in Lf; lia|cbn in Lj; lia|].
    rewrite <- app_assoc, !length_app. cbn [length app drop] in H |- *.
    replace (Z.of_nat (length done + 1) + len n) with (len done + Z.of_nat (S (length n))) by lia.
    by replace (Z.of_nat (length w + 1) + len n + 1) with (len w + Z.of_nat (S (length n)) + 1) by lia.
Qed.

Lemma set_eof_at s k x : eof (token s) = false -> with_token (set_eof false (token (at_ s k x))) (at_ s k x) = at_ s k x.
Proof. destruct s as [[] ? ? ? ?]. cbn. by intros ->. Qed.

Lemma cstring_start n (junk : list Z) : Forall (fun c => 1 <= c <= 255) n -> Str.cstring n (n ++ 0 :: junk).
Proof. intros F. split; [done|by eexists]. Qed.

(** What stands at the front is a name, or is not. *)
Lemma get_name_ok b n c rest s x (Q : Z -> parser -> Prop) :
  reading (b ++ n ++ c :: rest) (token s) -> name_ok n -> is_separator c = true -> length x = 128%nat ->
  (forall junk, length (n ++ 0 :: junk) = 128%nat -> Q 0 (at_ s (len b + len n) (n ++ 0 :: junk))) ->
  wp token_get_string Q (at_ s (len b) x).
Proof.
  intros R (d & n' & -> & Dd & Fn & Fp) Hc Lx H. unfold token_get_string. wstep. eapply wp_next; [exact R|]. wstep. apply wp_tk.
  assert (E : eof (token s) = false) by apply R.
  assert (L : (length (b ++ (d :: n') ++ c :: rest) < 128)%nat).
  { destruct R as [_ (pre & post & _ & _ & _ & L) _]. rewrite length_app in L. lia. }
  rewrite !length_app in L. cbn [length] in L.
  change (eof (token (at_ s (len b + 1) x))) with (eof (token s)). rewrite E. wstep.
  destruct x as [|x0 x]; [done|]. eapply put_string_ok; [apply (store_at_mid [] x0)|]. cbn [app].
  rewrite Dd. wstep. eapply rounds_ok; [exact R|]. intros N LN. rewrite !length_app in LN. cbn [length] in LN. wstep.
  apply (name_loop_ok (d :: n') b c rest N s [] (0 :: x)); [done|done|done|cbn; lia|cbn in *; lia|].
  wstep. apply wp_upd. rewrite set_eof_at by done. wstep. eapply wp_prev; [exact R|lia|]. wstep. cbn [app drop length].
  destruct (drop (length n') x) as [|j junk] eqn:Ed.
  { apply (f_equal length) in Ed. rewrite length_drop in Ed. cbn in Ed, Lx. lia. }
  eapply put_string_ok; [apply (store_at_mid (d :: n'))|]. wstep. apply H.
  apply (f_equal length) in Ed. rewrite length_drop in Ed. cbn in Ed |- *. rewrite length_app. cbn in *. lia.
Qed.

Lemma get_other_ok b c rest s x (Q : Z -> parser -> Prop) :
  reading (b ++ c :: rest) (token s) -> is_digit c = true \/ is_separator c = true -> length x = 128%nat ->
  (forall (i : Z) junk, length (0 :: junk) = 128%nat -> Q i (at_ s (len b) (0 :: junk))) ->
  wp token_get_string Q (at_ s (len b) x).
Proof.
  intros R Hc Lx H. unfold token_get_string. wstep. eapply wp_next; [exact R|]. wstep. apply wp_tk.
  assert (E : eof (token s) = false) by apply R.
  change (eof (token (at_ s (len b + 1) x))) with (eof (token s)). rewrite E. wstep.
  destruct x as [|x0 x]; [done|]. eapply put_string_ok; [apply (store_at_mid [] x0)|]. cbn [app].
  destruct (is_digit c) eqn:Dc.
  - wstep. eapply wp_prev; [exact R|lia|]. wstep. by apply H.
  - destruct Hc as [|Hc]; [done|]. wstep. eapply rounds_ok; [exact R|]. intros N LN. wstep.
    apply (name_loop_ok [] b c rest N s [] (0 :: x)); [done|done|done|cbn; lia|cbn; lia|].
    wstep. apply wp_upd. rewrite set_eof_at by done. wstep. cbn [app drop length]. rewrite Z.add_0_r. eapply wp_prev; [exact R|lia|]. wstep.
    eapply put_string_ok; [apply (store_at_mid [] 0)|]. wstep. change (len []) with 0. rewrite Z.add_0_r. by apply H.
Qed.

(** ** Keywords *)

Lemma strcmp_zero (a : list Z) : forall b sa sb, Str.cstring a sa -> Str.cstring b sb ->
  exists i, Str.rt_strcmp sa sb = Ok i /\ (i = 0 <-> a = b).
Proof.
  induction a as [|c a IH]; intros b sa sb Ha Hb.
  - apply Str.cstring_nil in Ha as [ra ->]. destruct b as [|d b].
    + apply Str.cstring_nil in Hb as [rb ->]. by exists 0.
    + apply Str.cstring_cons in Hb as (sb' & -> & Hd & _). cbn. eexists. split; [done|]. split; [lia|done].
  - apply Str.cstring_cons in Ha as (sa' & -> & Hc & Ha). destruct b as [|d b].
    + apply Str.cstring_nil in Hb as [rb ->]. cbn. rewrite (proj2 (Z.eqb_neq c 0)) by lia.
      eexists. split; [done|]. split; [cbn; lia|done].
    + apply Str.cstring_cons in Hb as (sb' & -> & Hd & Hb). cbn. rewrite (proj2 (Z.eqb_neq c 0)) by lia. cbn [negb andb].
      destruct (Z.eqb_spec c d) as [->|N].
      * destruct (IH _ _ _ Ha Hb) as (i & -> & Hi). exists i. split; [done|]. rewrite Hi. split; [by intros ->|by intros [= ->]].
      * eexists. split; [done|]. split; [lia|by intros [= ? ?]].
Qed.

Lemma match_loop_ok (t : list (list Z * finsh_token_type)) n (sn : list Z) :
  Forall (fun e => exists m, fst e = m ++ [0] /\ Forall (fun c => 1 <= c <= 255) m) t -> Str.cstring n sn ->
  exists o, match_loop t sn = Ok o /\
    match o with Some ty => (n ++ [0], ty) ∈ t | None => forall ty, (n ++ [0], ty) ∉ t end.
Proof.
  induction t as [|[m0 ty] t IH]; intros F Hn; cbn [match_loop]; [exists None; split; [done|]; by intros ? ?%not_elem_of_nil|].
  inversion F as [|? ? (m & E & Fm) F']; subst. cbn in E. subst m0.
  destruct (strcmp_zero m n (m ++ [0]) sn) as (i & -> & Hi); [by split; [|exists []]|done|]. cbn [mbind res_bind].
  destruct (Z.eqb_spec i 0) as [->|N].
  - exists (Some ty). split; [done|]. rewrite <- (proj1 Hi eq_refl). apply elem_of_cons. by left.
  - destruct (IH F' Hn) as (o & -> & Ho). exists o. split; [done|]. destruct o as [ty'|]; [by apply elem_of_cons; right|].
    intros ty' [[= E _]|H]%elem_of_cons; [|by apply (Ho ty')]. apply app_inj_tail in E as [E _]. apply N, Hi. done.
Qed.

Lemma name_table_ok : Forall (fun e => exists m, fst e = m ++ [0] /\ Forall (fun c => 1 <= c <= 255) m) finsh_name_table.
Proof.
  repeat constructor; match goal with |- exists m, ?l = _ /\ _ => exists (removelast l); split; [done|]; cbn; repeat constructor; lia end.
Qed.

(** The keywords differ. *)
Lemma keyword_unique n t t' : (n ++ [0], t) ∈ finsh_name_table -> (n ++ [0], t') ∈ finsh_name_table -> t' = t.
Proof.
  intros H H'. assert (U : NoDup (fst <$> finsh_name_table)) by (by apply (bool_decide_unpack _)).
  apply list_elem_of_lookup in H as [i Hi], H' as [j Hj].
  assert (i = j) as ->; [|congruence]. eapply NoDup_lookup; [exact U| |]; rewrite list_lookup_fmap; [by rewrite Hi|by rewrite Hj].
Qed.

Lemma keyword_name n t : (n ++ [0], t) ∈ finsh_name_table -> name_ok n.
Proof.
  assert (F : Forall (fun e => name_ok (removelast (fst e))) finsh_name_table).
  { repeat apply Forall_cons_2; [..|apply Forall_nil_2]; cbn; eexists _, _;
      (split; [reflexivity|]; split; [done|]; split; repeat constructor; lia). }
  intros H. rewrite Forall_forall in F. specialize (F _ H). cbn in F. by rewrite removelast_last in F.
Qed.

(** ** One token *)

(** What the tokenizer has found. *)
Definition holds_token (t : tok) (tt : finsh_token) : Prop :=
  current_token tt = type_of t /\
  match t with
  | Name n => Str.cstring n (string tt)
  | Int v | Long v => value tt = v
  | Chr c => char_value (value tt) = c
  | Sym _ => True
  end.

Definition takes (t : tok) rest (m : P unit) s0 s : Prop :=
  forall Q : unit -> parser -> Prop,
    (forall t1, reading rest t1 -> holds_token t t1 -> replay t1 = replay (token s) -> Q tt (with_token t1 s)) -> wp m Q s0.

Definition current (c : finsh_token_type) s : parser := with_token (set_current c (token s)) s.
Definition valued (v : Z) s : parser := with_token (set_tvalue v (token s)) s.

Lemma wp_current (c : finsh_token_type) s k x (Q : unit -> parser -> Prop) :
  Q tt (at_ (current c s) k x) -> wp (upd (set_current c)) Q (at_ s k x).
Proof. done. Qed.
Lemma wp_valued (v : Z) s k x (Q : unit -> parser -> Prop) :
  Q tt (at_ (valued v s) k x) -> wp (upd (set_tvalue v)) Q (at_ s k x).
Proof. done. Qed.
Lemma reading_current (c : finsh_token_type) s rest : reading rest (token s) -> reading rest (token (current c s)).
Proof. by intros []. Qed.
Lemma reading_valued (v : Z) s rest : reading rest (token s) -> reading rest (token (valued v s)).
Proof. by intros []. Qed.

(** The token is there. *)
Lemma took (t : tok) w rest s s' x (Q : unit -> parser -> Prop) :
  (forall t1, reading rest t1 -> holds_token t t1 -> replay t1 = replay (token s) -> Q tt (with_token t1 s)) ->
  reading (w ++ rest) (token s') -> length x = 128%nat -> with_token (token s') s = s' -> replay (token s') = replay (token s) ->
  holds_token t (set_string x (token s')) -> Q tt (at_ s' (len w) x).
Proof.
  intros H R Lx E Er Ht. pose proof (reading_at rest w s' x R Lx) as R'. specialize (H _ R').
  assert (Eq : with_token (token (at_ s' (len w) x)) s = at_ s' (len w) x) by (by rewrite <- E). rewrite Eq in H. by apply H.
Qed.

(** An operator, behind its first character. *)
Definition single : list (Z * finsh_token_type) := [
  (40, T_left_paren); (41, T_right_paren); (44, T_comma); (59, T_semicolon); (42, T_mul); (37, T_mod);
  (61, T_assign); (38, T_and); (124, T_or); (94, T_xor); (126, T_bitwise) ].

Lemma operator_single_ok b c rest (ty : finsh_token_type) s x : (c, ty) ∈ single -> reading (b ++ c :: rest) (token s) -> length x = 128%nat ->
  takes (Sym ty) rest (token_operator c) (at_ s (len b + 1) x) s.
Proof.
  intros H R Lx Q HQ.
  assert (E : token_operator c = upd (set_current ty)).
  { assert (F : Forall (fun e => token_operator (fst e) = upd (set_current (snd e))) single) by (by repeat constructor).
    rewrite Forall_forall in F. exact (F _ H). }
  rewrite E. apply wp_current. replace (len b + 1) with (len (b ++ [c])) by (rewrite length_app; cbn; lia).
  apply (took (Sym ty) (b ++ [c]) rest s); try done. apply reading_current. by rewrite <- app_assoc.
Qed.

(** The operators that may be doubled. *)
Definition doubled : list (Z * (finsh_token_type * finsh_token_type)) := [
  (43, (T_inc, T_add)); (45, (T_dec, T_sub)); (47, (T_eof, T_div)); (60, (T_shl, T_bad)); (62, (T_shr, T_bad)) ].

Lemma operator_double (c : Z) d : (c, d) ∈ doubled -> token_operator c = token_double c (fst d) (snd d).
Proof.
  intros H. assert (F : Forall (fun e => token_operator (fst e) = token_double (fst e) (fst (snd e)) (snd (snd e))) doubled).
  { by repeat constructor. }
  rewrite Forall_forall in F. exact (F _ H).
Qed.

Lemma operator_first_ok b c c2 rest d s x : (c, d) ∈ doubled -> c2 <> c -> reading (b ++ c :: c2 :: rest) (token s) -> length x = 128%nat ->
  takes (Sym (snd d)) (c2 :: rest) (token_operator c) (at_ s (len b + 1) x) s.
Proof.
  intros H N R Lx Q HQ. rewrite (operator_double _ _ H). unfold token_double. wstep.
  assert (L : len b + 1 = len (b ++ [c])) by (rewrite length_app; cbn; lia). rewrite L.
  eapply (wp_next (b ++ [c]) c2 rest); [by rewrite <- app_assoc|]. rewrite (proj2 (Z.eqb_neq c2 c)) by done. wstep.
  eapply wp_prev; [exact R|lia|]. apply wp_current.
  apply (took (Sym (snd d)) (b ++ [c]) (c2 :: rest) s); try done. apply reading_current. by rewrite <- app_assoc.
Qed.

Lemma operator_second_ok b c rest d s x : (c, d) ∈ doubled -> reading (b ++ c :: c :: rest) (token s) -> length x = 128%nat ->
  takes (Sym (fst d)) rest (token_operator c) (at_ s (len b + 1) x) s.
Proof.
  intros H R Lx Q HQ. rewrite (operator_double _ _ H). unfold token_double. wstep.
  assert (L : len b + 1 = len (b ++ [c])) by (rewrite length_app; cbn; lia). rewrite L.
  eapply (wp_next (b ++ [c]) c rest); [by rewrite <- app_assoc|]. rewrite Z.eqb_refl. apply wp_current.
  replace (len (b ++ [c]) + 1) with (len (b ++ [c; c])) by (rewrite !length_app; cbn; lia).
  apply (took (Sym (fst d)) (b ++ [c; c]) rest s); try done. apply reading_current. by rewrite <- app_assoc.
Qed.

(** ** Numbers *)

Lemma lor_low (a t k : Z) : 0 <= k -> 0 <= t < 2 ^ k -> Z.lor (a * 2 ^ k) t = a * 2 ^ k + t.
Proof.
  intros Hk Ht. assert (E : Z.land (a * 2 ^ k) t = 0).
  { apply Z.bits_inj'. intros i Hi. rewrite Z.land_spec, Z.bits_0. destruct (Z.lt_ge_cases i k).
    - by rewrite Z.mul_pow2_bits_low.
    - rewrite <- (Z.mod_small t (2 ^ k)), Z.mod_pow2_bits_high by lia. apply andb_false_r. }
  by rewrite Z.add_nocarry_lxor, Z.lxor_lor.
Qed.

Lemma digits_grow (base : Z) (ds : list Z) : forall v, 1 <= base -> 0 <= v -> Forall (fun d => 0 <= spec_digit d) ds ->
  v <= foldl (fun v d => v * base + spec_digit d) v ds.
Proof.
  induction ds as [|d ds IH]; intros v Hb Hv F; [cbn; lia|]. inversion F; subst. cbn.
  transitivity (v * base + spec_digit d); [nia|]. apply IH; [done|nia|done].
Qed.

Lemma digits_bound (k : Z) (ds : list Z) : forall v, 0 <= k -> 0 <= v -> Forall (fun d => 0 <= spec_digit d < 2 ^ k) ds ->
  foldl (fun v d => v * 2 ^ k + spec_digit d) v ds < (v + 1) * 2 ^ (k * len ds).
Proof.
  induction ds as [|d ds IH]; intros v Hk Hv F; [cbn; rewrite Z.mul_0_r; lia|]. inversion F as [|? ? Hd F']; subst. cbn [foldl].
  pose proof (Z.pow_pos_nonneg 2 k ltac:(lia) Hk). eapply Z.lt_le_trans; [apply IH; [done|nia|done]|].
  replace (k * len (d :: ds)) with (k + k * len ds) by (cbn [length]; lia). rewrite Z.pow_add_r by lia.
  pose proof (Z.pow_pos_nonneg 2 (k * len ds) ltac:(lia) ltac:(lia)). nia.
Qed.

Lemma spec_loop_ok (k : Z) (ds : list Z) : forall junk v b1, 0 <= k -> 0 <= v -> Forall (fun d => 0 <= spec_digit d < 2 ^ k) ds ->
  foldl (fun v d => v * 2 ^ k + spec_digit d) v ds < 2 ^ 32 ->
  exists b1', spec_loop (length ds) (ds ++ junk) k v b1 = Ok (foldl (fun v d => v * 2 ^ k + spec_digit d) v ds, b1').
Proof.
  induction ds as [|d ds IH]; intros junk v b1 Hk Hv F L; [by eexists|]. inversion F as [|? ? Hd F']; subst. cbn [length app spec_loop foldl] in *.
  pose proof (Z.pow_pos_nonneg 2 k ltac:(lia) Hk).
  pose proof (digits_grow (2 ^ k) ds (v * 2 ^ k + spec_digit d) ltac:(lia) ltac:(nia) ltac:(eapply Forall_impl; [exact F'|]; cbn; lia)).
  rewrite Z.shiftl_mul_pow2, !(ubits_small 32) by nia. rewrite lor_low by lia. apply IH; [done|nia|done|done].
Qed.

Lemma spec_number_ok (base k : Z) (ds junk : list Z) : (base = 16 /\ k = 4) \/ (base = 8 /\ k = 3) \/ (base = 2 /\ k = 1) ->
  Forall (fun d => 0 <= spec_digit d < 2 ^ k) ds -> k * len ds <= 32 ->
  token_spec_number (ds ++ junk) (len ds) base = Ok (s32 (digits base ds)).
Proof.
  intros H F L. unfold token_spec_number, digits. rewrite Nat2Z.id.
  assert (E : (if base =? 16 then 4 else if base =? 8 then 3 else 1) = k) by (by destruct H as [[-> ->]|[[-> ->]|[-> ->]]]).
  assert (Eb : base = 2 ^ k) by (by destruct H as [[-> ->]|[[-> ->]|[-> ->]]]). rewrite E, Eb.
  assert (Hk : 0 <= k) by lia.
  destruct (spec_loop_ok k ds junk 0 0 Hk ltac:(lia) F) as [b1 E1]; [|by rewrite E1].
  eapply Z.lt_le_trans; [apply digits_bound; [done|lia|done]|]. rewrite Z.mul_1_l. apply Z.pow_le_mono_r; lia.
Qed.

Lemma digits_range (base k : Z) (ds : list Z) : base = 2 ^ k -> 0 <= k -> Forall (fun d => 0 <= spec_digit d < 2 ^ k) ds -> k * len ds <= 32 ->
  0 <= digits base ds < 2 ^ 32.
Proof.
  intros -> Hk F L. unfold digits. pose proof (Z.pow_pos_nonneg 2 k ltac:(lia) Hk). split.
  - apply digits_grow; [lia|done|]. eapply Forall_impl; [exact F|]. cbn; lia.
  - eapply Z.lt_le_trans; [apply digits_bound; [done|lia|done]|]. rewrite Z.mul_1_l. apply Z.pow_le_mono_r; lia.
Qed.

(** The text behind a character of a run. *)
Lemma run_split w d (n : list Z) c rest : exists t, w ++ (d :: n) ++ c :: rest = (w ++ [d]) ++ default c (head n) :: t.
Proof.
  destruct (head_next n c _ eq_refl) as [t Et]. exists (t ++ rest). rewrite <- app_assoc. cbn [app]. do 2 f_equal.
  change (c :: rest) with ([c] ++ rest). by rewrite app_assoc, Et.
Qed.

Lemma digit_loop_ok (ok : Z -> bool) (n : list Z) : forall w c rest fuel s x done junk (Q : list Z * Z * Z -> parser -> Prop),
  reading (w ++ n ++ c :: rest) (token s) -> Forall (fun c => ok c = true) n -> ok c = false ->
  (length n < fuel)%nat -> (length n <= length junk)%nat ->
  Q (done ++ n ++ drop (length n) junk, len done + len n, c) (at_ s (len w + len n + 1) x) ->
  wp (digit_loop fuel ok (done ++ junk) (len done) (default c (head n))) Q (at_ s (len w + 1) x).
Proof.
  induction n as [|d n IH]; intros w c rest fuel s x done junk Q R Fn Hc Lf Lj H;
    (destruct fuel as [|fuel]; [cbn in Lf; lia|]); cbn [digit_loop].
  - change (default c (head [])) with c. rewrite Hc. wstep. cbn [length app drop] in H. by rewrite !Z.add_0_r in H.
  - inversion Fn as [|? ? Hd Fn']; subst. change (default c (head (d :: n))) with d. rewrite Hd.
    destruct junk as [|j junk]; [cbn in Lj; lia|]. wstep. eapply wp_lift_ok; [apply store_at_mid|]. wstep.
    destruct (run_split w d n c rest) as [t Et].
    replace (len w + 1) with (len (w ++ [d])) by (rewrite length_app; cbn; lia). eapply wp_next; [rewrite <- Et; exact R|].
    replace (len done + 1) with (len (done ++ [d])) by (rewrite length_app; cbn; lia).
    replace (done ++ d :: junk) with ((done ++ [d]) ++ junk) by (by rewrite <- app_assoc).
    apply (IH _ c rest); [by rewrite <- app_assoc|done|done|cbn in Lf; lia|cbn in Lj; lia|].
    rewrite <- app_assoc, !length_app. cbn [length app drop] in H |- *.
    replace (Z.of_nat (length done + 1) + len n) with (len done + Z.of_nat (S (length n))) by lia.
    by replace (Z.of_nat (length w + 1) + len n + 1) with (len w + Z.of_nat (S (length n)) + 1) by lia.
Qed.

Lemma decimal_loop_ok (n : list Z) : forall w c rest fuel s x v (Q : Z * Z -> parser -> Prop),
  reading (w ++ n ++ c :: rest) (token s) -> Forall (fun c => 48 <= c <= 57) n -> is_digit c = false ->
  (length n < fuel)%nat -> 0 <= v -> foldl (fun v d => v * 10 + spec_digit d) v n < 2 ^ 31 ->
  Q (foldl (fun v d => v * 10 + spec_digit d) v n, c) (at_ s (len w + len n + 1) x) ->
  wp (decimal_loop fuel v (default c (head n))) Q (at_ s (len w + 1) x).
Proof.
  induction n as [|d n IH]; intros w c rest fuel s x v Q R Fn Hc Lf Hv Lv H;
    (destruct fuel as [|fuel]; [cbn in Lf; lia|]); cbn [decimal_loop].
  - change (default c (head [])) with c. rewrite Hc. wstep. cbn [length foldl] in H. by rewrite !Z.add_0_r in H.
  - inversion Fn as [|? ? Hd Fn']; subst. change (default c (head (d :: n))) with d.
    assert (Dd : is_digit d = true) by (unfold is_digit; lia). rewrite Dd. cbn [foldl] in *.
    assert (Sd : spec_digit d = d - 48) by (unfold spec_digit; do 2 (rewrite (proj2 (Z.leb_gt _ d)) by lia); done).
    assert (Fs : Forall (fun d => 0 <= spec_digit d) n).
    { eapply Forall_impl; [exact Fn'|]. intros e He. cbn in He. unfold spec_digit. do 2 (rewrite (proj2 (Z.leb_gt _ e)) by lia). cbn. lia. }
    rewrite Sd in *. pose proof (digits_grow 10 n (v * 10 + (d - 48)) ltac:(lia) ltac:(lia) Fs).
    rewrite sbits_small by lia. wstep. destruct (run_split w d n c rest) as [t Et].
    replace (len w + 1) with (len (w ++ [d])) by (rewrite length_app; cbn; lia). eapply wp_next; [rewrite <- Et; exact R|].
    apply (IH _ c rest); [by rewrite <- app_assoc|done|done|cbn in Lf; lia|lia|done|].
    rewrite length_app. cbn [length] in H |- *.
    by replace (Z.of_nat (length w + 1) + len n + 1) with (len w + Z.of_nat (S (length n)) + 1) by lia.
Qed.

Lemma separator_not (c : Z) : is_separator c = true -> is_digit c = false /\ c <> 108 /\ c <> 76 /\ c <> 120 /\ c <> 88 /\ c <> 98 /\ c <> 66 /\
  is_octal c = false /\ (plain c -> is_alpha c = false).
Proof.
  intros H. unfold is_separator in H. apply negb_true_iff in H. repeat rewrite orb_false_iff in H. rewrite !andb_false_iff, !Z.leb_gt in H.
  split_and!; try lia; [unfold is_digit; lia|unfold is_octal; lia|]. intros [P _]. unfold is_alpha.
  assert (A : forall d, 1 <= d <= 255 -> 97 <= Z.lor d 32 <= 122 -> 97 <= d <= 122 \/ 65 <= d <= 90).
  { intros d Hd Ho. assert (B : forallb (fun d => negb ((97 <=? Z.lor d 32) && (Z.lor d 32 <=? 122)) || ((97 <=? d) && (d <=? 122)) || ((65 <=? d) && (d <=? 90)))
      (Z.of_nat <$> seq 1 255) = true) by (by vm_compute). rewrite forallb_forall in B. specialize (B d).
    assert (I : In d (Z.of_nat <$> seq 1 255)).
    { apply list_elem_of_In, list_elem_of_fmap. exists (Z.to_nat d). split; [lia|]. apply elem_of_seq. lia. }
    specialize (B I). lia. }
  assert (Lr : 0 <= Z.lor c 32 < 2 ^ 8).
  { split; [apply Z.lor_nonneg; lia|]. destruct (Z.eq_dec (Z.lor c 32) 0) as [->|]; [lia|]. apply Z.log2_lt_pow2; [pose proof (proj2 (Z.lor_nonneg c 32)); lia|].
    rewrite Z.log2_lor by lia. pose proof (Z.log2_le_mono c 255 ltac:(lia)) as L1. change (Z.log2 255) with 7 in L1. change (Z.log2 32) with 5. lia. }
  specialize (A c P). destruct (Z.le_gt_cases 97 (Z.lor c 32)).
  - rewrite (ubits_small 32) by lia. apply Z.ltb_ge. lia.
  - unfold ubits. rewrite <- (Z.mod_add _ 1) by lia. rewrite Z.mod_small by lia. apply Z.ltb_ge. lia.
Qed.

Lemma operator_digit (c : Z) : 48 <= c <= 57 -> token_operator c = (_ ← token_prev_char; token_proc_number).
Proof.
  intros H. unfold token_operator. repeat (rewrite (proj2 (Z.eqb_neq c _)) by lia).
  assert (D : is_digit c = true) by (unfold is_digit; lia). by rewrite D.
Qed.

(** A suffix, or none. *)
Lemma suffix_long_ok w l rest s s0 x (v : Z) : l = 108 \/ l = 76 -> reading (w ++ l :: rest) (token s) -> length x = 128%nat ->
  with_token (token s) s0 = s -> replay (token s) = replay (token s0) -> value (token s) = v ->
  takes (Long v) rest (long_suffix l) (at_ s (len w + 1) x) s0.
Proof.
  intros Hl R Lx E Er Ev Q HQ. unfold long_suffix. assert (B : (l =? 108) || (l =? 76) = true) by (by destruct Hl as [-> | ->]).
  rewrite B. apply wp_current. replace (len w + 1) with (len (w ++ [l])) by (rewrite length_app; cbn; lia).
  apply (took (Long v) (w ++ [l]) rest s0); try done; [apply reading_current; by rewrite <- app_assoc|].
  by rewrite <- E.
Qed.

Lemma suffix_none_ok w c rest s s0 x (v : Z) : is_separator c = true -> reading (w ++ c :: rest) (token s) -> length x = 128%nat ->
  with_token (token s) s0 = s -> replay (token s) = replay (token s0) -> value (token s) = v -> current_token (token s) = T_value_int ->
  takes (Int v) (c :: rest) (long_suffix c) (at_ s (len w + 1) x) s0.
Proof.
  intros Hc R Lx E Er Ev Et Q HQ. apply separator_not in Hc as (_ & N1 & N2 & _). unfold long_suffix.
  rewrite !(proj2 (Z.eqb_neq c _)) by done. cbn [orb]. eapply wp_prev; [exact R|lia|]. by apply (took (Int v) w (c :: rest) s0).
Qed.

Lemma decimal_ok b d ds c rest s x (Q : unit -> parser -> Prop) :
  49 <= d <= 57 -> Forall (fun c => 48 <= c <= 57) ds -> digits 10 (d :: ds) < 2 ^ 31 -> is_digit c = false ->
  reading (b ++ (d :: ds) ++ c :: rest) (token s) ->
  wp (long_suffix c) Q (at_ (current T_value_int (valued (digits 10 (d :: ds)) s)) (len (b ++ d :: ds) + 1) x) ->
  wp token_proc_number Q (at_ s (len b) x).
Proof.
  intros Hd Fd Lv Hc R H. unfold token_proc_number. wstep. eapply wp_next; [exact R|].
  rewrite (proj2 (Z.eqb_neq d 48)) by lia. wstep. eapply rounds_ok; [exact R|]. intros N LN. rewrite !length_app in LN. cbn [length] in LN. wstep.
  pose proof (digits_grow 10 (d :: ds) 0 ltac:(lia) ltac:(lia)) as G.
  apply (decimal_loop_ok (d :: ds) b c rest); [done|constructor; [lia|done]|done|cbn; lia|lia|exact Lv|].
  change (foldl _ 0 (d :: ds)) with (digits 10 (d :: ds)). cbv beta iota.
  rewrite (ubits_small 32); [|split; [|lia]].
  - wstep. apply wp_valued. wstep. apply wp_current. cbv beta. rewrite length_app in H.
    by replace (len b + len (d :: ds) + 1) with (Z.of_nat (length b + length (d :: ds)) + 1) by lia.
  - apply G. constructor; [unfold spec_digit; do 2 (rewrite (proj2 (Z.leb_gt _ d)) by lia); cbn; lia|].
    eapply Forall_impl; [exact Fd|]. intros e He. cbn in He. unfold spec_digit. do 2 (rewrite (proj2 (Z.leb_gt _ e)) by lia). cbn. lia.
Qed.

(** The digits of another base, behind what stands in front of them. *)
Lemma based_ok (ok : Z -> bool) (base k : Z) w ds c rest s x (Q : Z -> parser -> Prop) :
  (base = 16 /\ k = 4) \/ (base = 8 /\ k = 3) \/ (base = 2 /\ k = 1) ->
  Forall (fun d => ok d = true /\ 0 <= spec_digit d < 2 ^ k) ds -> k * len ds <= 32 -> ok c = false ->
  reading (w ++ ds ++ c :: rest) (token s) ->
  Q c (at_ (current T_value_int (valued (digits base ds) s)) (len (w ++ ds) + 1) x) ->
  wp (based_number ok base (default c (head ds))) Q (at_ s (len w + 1) x).
Proof.
  intros Hb F L Hc R H. unfold based_number. wstep. eapply rounds_ok; [exact R|]. intros N LN. rewrite !length_app in LN. cbn [length] in LN. wstep.
  assert (Ld : (length ds <= 32)%nat) by lia.
  apply (digit_loop_ok ok ds w c rest N s x [] (replicate 128 0)); [done|by eapply Forall_impl; [exact F|]; intros ? []|done|lia|rewrite length_replicate; lia|].
  cbn [app length]. rewrite drop_replicate. replace (128 - length ds)%nat with (S (127 - length ds)) by lia. cbn [replicate]. rewrite Z.add_0_l. cbv beta iota. wstep.
  eapply wp_lift_ok; [apply store_at_mid|]. wstep. eapply wp_lift_ok.
  { apply (Str.rt_strlen_ok ds), cstring_start.
    destruct R as [_ (pre & post & _ & _ & P & _) _]. apply Forall_app in P as [_ P]. apply Forall_app in P as [_ P]. apply Forall_app in P as [P _].
    eapply Forall_impl; [exact P|]. by intros ? []. }
  assert (F2 : Forall (fun d => 0 <= spec_digit d < 2 ^ k) ds) by (by eapply Forall_impl; [exact F|]; intros ? []).
  wstep. eapply wp_lift_ok; [by apply (spec_number_ok base k)|].
  assert (Er : base = 2 ^ k) by (by destruct Hb as [[-> ->]|[[-> ->]|[-> ->]]]).
  pose proof (digits_range base k ds Er ltac:(lia) F2 L) as Rg.
  assert (Es : u32 (s32 (digits base ds)) = digits base ds).
  { unfold ubits, sbits. rewrite Zminus_mod_idemp_l. replace (digits base ds + 2 ^ (32 - 1) - 2 ^ (32 - 1)) with (digits base ds) by lia. by apply Z.mod_small. }
  rewrite Es. wstep. apply wp_valued. wstep. apply wp_current. wstep. rewrite length_app in H.
  by replace (len w + len ds + 1) with (Z.of_nat (length w + length ds) + 1) by lia.
Qed.

(** ** The next token *)

Lemma length_string rest s : reading rest (token s) -> length (string (token s)) = 128%nat.
Proof. by intros []. Qed.

Lemma eof_at s k x : eof (token (at_ s k x)) = eof (token s).
Proof. done. Qed.

Lemma run_name b n c rest s (Q : unit -> parser -> Prop) :
  reading (b ++ n ++ c :: rest) (token s) -> Forall blank b -> name_ok n -> is_separator c = true ->
  (forall junk ty, length (n ++ 0 :: junk) = 128%nat ->
     ((n ++ [0], ty) ∈ finsh_name_table \/ (ty = T_identifier /\ ~ keyword n)) ->
     Q tt (at_ (current ty s) (len b + len n) (n ++ 0 :: junk))) ->
  wp token_run Q s.
Proof.
  intros R Fb Hn Hc H. pose proof (length_string _ _ R) as Ls. rewrite <- (at_0 s). unfold token_run. wstep.
  pose proof Hn as (d & n' & En & Dd & Fs & Fp).
  assert (Nd : ~ blank d).
  { rewrite En in Fs. inversion Fs as [|? ? Hd _]; subst. by intros [->|[->| ->]]. }
  eapply (token_trim_ok b d (n' ++ c :: rest)); [by rewrite En in R|done|done|]. wstep.
  eapply get_name_ok; [exact R|done|done|done|]. intros junk Lj. wstep. apply wp_tk. rewrite eof_at, (rd_eof _ _ R). cbv iota.
  wstep. apply wp_tk. wstep. cbn [token at_ with_token string set_string]. eapply wp_lift_ok; [rewrite En; apply (load_at_mid [] d)|].
  assert (Pd : d <> 0) by (rewrite En in Fp; inversion Fp; lia). rewrite (proj2 (Z.eqb_neq d 0)) by done. cbn [negb]. wstep.
  unfold token_match_name. wstep. apply wp_tk. cbn [token at_ with_token string set_string]. wstep.
  destruct (match_loop_ok finsh_name_table n (n ++ 0 :: junk) name_table_ok) as (o & Eo & Ho); [by apply cstring_start|].
  eapply wp_lift_ok; [exact Eo|]. destruct o as [ty|].
  - wstep. apply wp_current. do 2 wstep. apply H; [done|by left].
  - wstep. apply wp_current. apply H; [done|]. right. split; [done|]. intros [ty K]. by apply (Ho ty).
Qed.

Lemma run_other b c rest s (Q : unit -> parser -> Prop) :
  reading (b ++ c :: rest) (token s) -> Forall blank b -> ~ blank c -> is_digit c = true \/ is_separator c = true ->
  (forall junk, length (0 :: junk) = 128%nat -> wp (token_operator c) Q (at_ s (len b + 1) (0 :: junk))) ->
  wp token_run Q s.
Proof.
  intros R Fb Nc Hc H. pose proof (length_string _ _ R) as Ls. rewrite <- (at_0 s). unfold token_run. wstep.
  eapply (token_trim_ok b c rest); [done|done|done|]. wstep.
  eapply get_other_ok; [exact R|done|done|]. intros i junk Lj. wstep. apply wp_tk. rewrite eof_at, (rd_eof _ _ R). cbv iota.
  wstep. apply wp_tk. wstep. cbn [token at_ with_token string set_string]. eapply wp_lift_ok; [apply (load_at_mid [] 0)|].
  cbn [Z.eqb negb]. wstep. eapply wp_next; [exact R|]. by apply H.
Qed.

Lemma trim_loop_end b : forall w fuel s x (Q : unit -> parser -> Prop),
  reading (w ++ b) (token s) -> Forall blank b -> (length b < fuel)%nat ->
  Q tt (ended s x) -> wp (trim_loop fuel) Q (at_ s (len w) x).
Proof.
  induction b as [|d b IH]; intros w fuel s x Q R Fb Lf H; (destruct fuel as [|fuel]; [cbn in Lf; lia|]); cbn [trim_loop]; wstep.
  - rewrite app_nil_r in R. eapply wp_next_end; [exact R|]. cbn. by wstep.
  - inversion Fb as [|? ? Hd Fb']; subst. eapply wp_next; [exact R|]. assert (B : (d =? 32) || (d =? 9) || (d =? 13) = true).
    { destruct Hd as [->|[->| ->]]; done. }
    rewrite B. replace (len w + 1) with (len (w ++ [d])) by (rewrite length_app; cbn; lia).
    apply IH; [by rewrite <- app_assoc|done|cbn in Lf; lia|done].
Qed.

Lemma run_end b s (Q : unit -> parser -> Prop) : reading b (token s) -> Forall blank b ->
  (forall t1, current_token t1 = T_eof -> replay t1 = replay (token s) -> Q tt (with_token t1 s)) -> wp token_run Q s.
Proof.
  intros R Fb H. rewrite <- (at_0 s). unfold token_run, token_trim_space. wstep. wstep. eapply rounds_ok; [exact R|]. intros N LN. wstep.
  apply (trim_loop_end b [] N s); [done|done|done|]. cbv beta. unfold token_prev_char. wstep. apply wp_tk. cbn [ended token with_token eof set_eof]. cbv iota. wstep.
  wstep. unfold token_get_string. wstep. unfold token_next_char. wstep. apply wp_tk. cbn [ended token with_token eof set_eof]. cbv iota. wstep.
  wstep. apply wp_tk. cbn [ended token with_token eof set_eof]. cbv iota. wstep. wstep. apply wp_tk. cbn [ended token with_token eof set_eof]. cbv iota.
  apply wp_upd. by apply H.
Qed.

Definition is_single (w : list Z) (ty : finsh_token_type) : Prop := exists c, w = [c] /\ (c, ty) ∈ single.
Definition is_first (w : list Z) (ty : finsh_token_type) : Prop := exists c d, w = [c] /\ (c, d) ∈ doubled /\ ty = snd d /\
  (forall rest, apart (Sym ty) rest -> exists c2 r, rest = c2 :: r /\ c2 <> c).
Definition is_second (w : list Z) (ty : finsh_token_type) : Prop := exists c d, w = [c; c] /\ (c, d) ∈ doubled /\ ty = fst d.

Lemma operators_split w ty : (w, ty) ∈ operators -> is_single w ty \/ is_first w ty \/ is_second w ty.
Proof.
  assert (F : Forall (fun e => is_single (fst e) (snd e) \/ is_first (fst e) (snd e) \/ is_second (fst e) (snd e)) operators).
  { repeat apply Forall_cons_2; [..|apply Forall_nil_2]; cbn [fst snd];
      match goal with
      | |- is_single [?c] ?ty \/ _ =>
          first [ left; exists c; split; [done|]; unfold single; set_solver
                | right; left; match eval cbv in (list_find (fun e => fst e = c) doubled) with Some (_, (_, ?d)) => exists c, d end;
                  split; [done|]; split; [unfold doubled; set_solver|]; split; [done|]; by intros rest ]
      | |- is_single [?c; _] ?ty \/ _ =>
          right; right; match eval cbv in (list_find (fun e => fst e = c) doubled) with Some (_, (_, ?d)) => exists c, d end;
          split; [done|]; split; [unfold doubled; set_solver|done]
      end. }
  intros H. rewrite Forall_forall in F. exact (F _ H).
Qed.

Lemma separator_first (c : Z) : c ∈ (fst <$> single) ++ (fst <$> doubled) -> is_separator c = true /\ ~ blank c.
Proof.
  assert (F : Forall (fun c => is_separator c = true /\ ~ blank c) ((fst <$> single) ++ (fst <$> doubled))).
  { cbn. repeat apply Forall_cons_2; [..|apply Forall_nil_2]; (split; [done|unfold blank; lia]). }
  intros H. rewrite Forall_forall in F. exact (F _ H).
Qed.

Lemma run_operator b w ty rest s : (w, ty) ∈ operators -> apart (Sym ty) rest -> Forall blank b ->
  reading (b ++ w ++ rest) (token s) -> takes (Sym ty) rest token_run s s.
Proof.
  intros H A Fb R Q HQ. apply operators_split in H as [(c & -> & H)|[(c & d & -> & H & -> & Hr)|(c & d & -> & H & ->)]].
  - destruct (separator_first c) as [Sc Nc]; [apply elem_of_app; left; by apply (list_elem_of_fmap_2 fst _ _ H)|].
    apply (run_other b c rest); [done..|by right|]. intros junk Lj. exact (operator_single_ok b c rest ty s (0 :: junk) H R Lj Q HQ).
  - destruct (separator_first c) as [Sc Nc]; [apply elem_of_app; right; by apply (list_elem_of_fmap_2 fst _ _ H)|].
    destruct (Hr rest A) as (c2 & r & -> & N). apply (run_other b c (c2 :: r)); [done..|by right|]. intros junk Lj. exact (operator_first_ok b c c2 r d s (0 :: junk) H N R Lj Q HQ).
  - destruct (separator_first c) as [Sc Nc]; [apply elem_of_app; right; by apply (list_elem_of_fmap_2 fst _ _ H)|].
    apply (run_other b c (c :: rest)); [done..|by right|]. intros junk Lj. exact (operator_second_ok b c rest d s (0 :: junk) H R Lj Q HQ).
Qed.

(** A number, from its first digit. *)
Lemma run_number b c rest s (Q : unit -> parser -> Prop) : 48 <= c <= 57 -> Forall blank b -> reading (b ++ c :: rest) (token s) ->
  (forall junk, length (0 :: junk) = 128%nat -> wp token_proc_number Q (at_ s (len b) (0 :: junk))) -> wp token_run Q s.
Proof.
  intros Hc Fb R H. assert (D : is_digit c = true) by (unfold is_digit; lia).
  apply (run_other b c rest); [done|done|unfold blank; lia|by left|]. intros junk Lj. rewrite operator_digit by done.
  wstep. eapply wp_prev; [exact R|lia|]. by apply H.
Qed.

Lemma run_zero b c rest s : is_separator c = true -> Forall blank b -> reading (b ++ 48 :: c :: rest) (token s) ->
  takes (Int 0) (c :: rest) token_run s s.
Proof.
  intros Hc Fb R Q HQ. destruct (separator_not c Hc) as (D & _ & _ & N1 & N2 & N3 & N4 & O & _).
  apply (run_number b 48 (c :: rest)); [lia|done|done|]. intros junk Lj. unfold token_proc_number. wstep. eapply wp_next; [exact R|].
  rewrite Z.eqb_refl. wstep. assert (L : len b + 1 = len (b ++ [48])) by (rewrite length_app; cbn; lia). rewrite L.
  eapply (wp_next (b ++ [48]) c rest); [by rewrite <- app_assoc|].
  rewrite (proj2 (Z.eqb_neq c 120)), (proj2 (Z.eqb_neq c 88)), (proj2 (Z.eqb_neq c 98)), (proj2 (Z.eqb_neq c 66)), O by done.
  cbn [orb]. wstep. eapply wp_prev; [exact R|lia|]. wstep. apply wp_valued. apply wp_current.
  apply (took (Int 0) (b ++ [48]) (c :: rest) s); try done. apply reading_current, reading_valued. by rewrite <- app_assoc.
Qed.

Lemma separator_plain w c rest s : reading (w ++ c :: rest) (token s) -> plain c.
Proof.
  intros [_ (pre & post & _ & _ & P & _) _]. apply Forall_app in P as [_ P]. apply Forall_app in P as [_ P]. by inversion P.
Qed.

(** Behind the digits of a number in base 2, 8 or 16. *)
Lemma run_based (ok : Z -> bool) (base k : Z) b w ds c rest s x (Q : unit -> parser -> Prop) :
  (base = 16 /\ k = 4) \/ (base = 8 /\ k = 3) \/ (base = 2 /\ k = 1) ->
  Forall (fun d => ok d = true /\ 0 <= spec_digit d < 2 ^ k) ds -> k * len ds <= 32 -> ok c = false -> is_separator c = true ->
  reading (b ++ w ++ ds ++ c :: rest) (token s) -> length x = 128%nat ->
  (forall t1, reading (c :: rest) t1 -> holds_token (Int (digits base ds)) t1 -> replay t1 = replay (token s) -> Q tt (with_token t1 s)) ->
  wp (ch ← based_number ok base (default c (head ds)); long_suffix ch) Q (at_ s (len (b ++ w) + 1) x).
Proof.
  intros Hb F L Hc Sc R Lx HQ. wstep. rewrite app_assoc in R. apply (based_ok ok base k (b ++ w) ds c rest); [done..|].
  apply (suffix_none_ok ((b ++ w) ++ ds) c rest _ s x (digits base ds) Sc); try done.
  apply reading_current, reading_valued. by rewrite <- app_assoc.
Qed.

Lemma run_hex b (x : Z) (ds : list Z) c rest s : x = 120 \/ x = 88 -> Forall xdigit ds -> (length ds <= 8)%nat -> is_separator c = true -> Forall blank b ->
  reading (b ++ (48 :: x :: ds) ++ c :: rest) (token s) -> takes (Int (digits 16 ds)) (c :: rest) token_run s s.
Proof.
  intros Hx F L Hc Fb R Q HQ. destruct (separator_not c Hc) as (D & _ & _ & _ & _ & _ & _ & _ & A).
  apply (run_number b 48 (x :: ds ++ c :: rest)); [lia|done|done|]. intros junk Lj. unfold token_proc_number. wstep. eapply wp_next; [exact R|].
  rewrite Z.eqb_refl. wstep. assert (L1 : len b + 1 = len (b ++ [48])) by (rewrite length_app; cbn; lia). rewrite L1.
  eapply (wp_next (b ++ [48]) x); [rewrite <- app_assoc; exact R|].
  assert (B : (x =? 120) || (x =? 88) = true) by (by destruct Hx as [-> | ->]). rewrite B. wstep.
  destruct (run_split (b ++ [48]) x ds c rest) as [t Et].
  replace (len (b ++ [48]) + 1) with (len ((b ++ [48]) ++ [x])) by (rewrite !length_app; cbn; lia).
  eapply wp_next; [rewrite <- Et, <- app_assoc; exact R|]. rewrite <- app_assoc. cbn [app].
  apply (run_based (fun c => is_digit c || is_alpha c) 16 4 b [48; x] ds c rest); try done; [by left| |lia|].
  - eapply Forall_impl; [exact F|]. intros d Hd. unfold xdigit in Hd.
    assert (C : forallb (fun d => (is_digit d || is_alpha d) && (0 <=? spec_digit d) && (spec_digit d <? 2 ^ 4))
      (Z.of_nat <$> (seq 48 10 ++ seq 65 6 ++ seq 97 6)) = true) by (by vm_compute).
    rewrite forallb_forall in C. assert (I : In d (Z.of_nat <$> (seq 48 10 ++ seq 65 6 ++ seq 97 6))).
    { apply list_elem_of_In, list_elem_of_fmap. exists (Z.to_nat d). split; [lia|]. rewrite !elem_of_app, !elem_of_seq. lia. }
    specialize (C d I). apply andb_true_iff in C as [[C1 C2]%andb_true_iff C3]. split; [done|lia].
  - rewrite D, A; [done|]. by eapply (separator_plain (b ++ 48 :: x :: ds) c rest s); rewrite <- app_assoc.
Qed.

Lemma run_octal b (d : Z) (ds : list Z) c rest s : 48 <= d <= 55 -> Forall (fun c => 48 <= c <= 55) ds -> (length ds <= 9)%nat ->
  is_separator c = true -> Forall blank b ->
  reading (b ++ (48 :: d :: ds) ++ c :: rest) (token s) -> takes (Int (digits 8 (d :: ds))) (c :: rest) token_run s s.
Proof.
  intros Hd F L Hc Fb R Q HQ. destruct (separator_not c Hc) as (_ & _ & _ & _ & _ & _ & _ & O & _).
  apply (run_number b 48 (d :: ds ++ c :: rest)); [lia|done|done|]. intros junk Lj. unfold token_proc_number. wstep. eapply wp_next; [exact R|].
  rewrite Z.eqb_refl. wstep. assert (L1 : len b + 1 = len (b ++ [48])) by (rewrite length_app; cbn; lia). rewrite L1.
  eapply (wp_next (b ++ [48]) d); [rewrite <- app_assoc; exact R|].
  rewrite !(proj2 (Z.eqb_neq d _)) by lia. assert (D : is_octal d = true) by (unfold is_octal; lia). rewrite D. cbn [orb].
  assert (Sp : forall e, 48 <= e <= 55 -> is_octal e = true /\ 0 <= spec_digit e < 2 ^ 3).
  { intros e He. split; [unfold is_octal; lia|]. unfold spec_digit. do 2 (rewrite (proj2 (Z.leb_gt _ e)) by lia). cbn [andb]. lia. }
  apply (run_based is_octal 8 3 b [48] (d :: ds) c rest); try done; [by right; left| |cbn [length]; lia].
  constructor; [by apply Sp|]. eapply Forall_impl; [exact F|]. exact Sp.
Qed.

Lemma run_binary b (x : Z) (ds : list Z) c rest s : x = 98 \/ x = 66 -> Forall (fun c => c = 48 \/ c = 49) ds -> (length ds <= 32)%nat ->
  is_separator c = true -> Forall blank b ->
  reading (b ++ (48 :: x :: ds) ++ c :: rest) (token s) -> takes (Int (digits 2 ds)) (c :: rest) token_run s s.
Proof.
  intros Hx F L Hc Fb R Q HQ. destruct (separator_not c Hc) as (D & _ & _ & _ & _ & _ & _ & O & _).
  apply (run_number b 48 (x :: ds ++ c :: rest)); [lia|done|done|]. intros junk Lj. unfold token_proc_number. wstep. eapply wp_next; [exact R|].
  rewrite Z.eqb_refl. wstep. assert (L1 : len b + 1 = len (b ++ [48])) by (rewrite length_app; cbn; lia). rewrite L1.
  eapply (wp_next (b ++ [48]) x); [rewrite <- app_assoc; exact R|].
  assert (B : ((x =? 120) || (x =? 88) = false) /\ ((x =? 98) || (x =? 66) = true)) by (by destruct Hx as [-> | ->]).
  destruct B as [-> ->]. wstep. destruct (run_split (b ++ [48]) x ds c rest) as [t Et].
  replace (len (b ++ [48]) + 1) with (len ((b ++ [48]) ++ [x])) by (rewrite !length_app; cbn; lia).
  eapply wp_next; [rewrite <- Et, <- app_assoc; exact R|]. rewrite <- app_assoc. cbn [app].
  apply (run_based (fun c => (c =? 48) || (c =? 49)) 2 1 b [48; x] ds c rest); try done; [by right; right| |lia|].
  - eapply Forall_impl; [exact F|]. by intros d [-> | ->].
  - unfold is_digit in D. apply orb_false_iff. rewrite !Z.eqb_neq. lia.
Qed.

Lemma run_decimal b (d : Z) (ds : list Z) c rest s : 49 <= d <= 57 -> Forall (fun c => 48 <= c <= 57) ds -> digits 10 (d :: ds) < 2 ^ 31 ->
  is_separator c = true -> Forall blank b ->
  reading (b ++ (d :: ds) ++ c :: rest) (token s) -> takes (Int (digits 10 (d :: ds))) (c :: rest) token_run s s.
Proof.
  intros Hd F L Hc Fb R Q HQ. destruct (separator_not c Hc) as (D & _).
  apply (run_number b d (ds ++ c :: rest)); [lia|done|done|]. intros junk Lj. apply (decimal_ok b d ds c rest); [done..|].
  apply (suffix_none_ok (b ++ d :: ds) c rest _ s _ (digits 10 (d :: ds)) Hc); try done.
  apply reading_current, reading_valued. by rewrite <- app_assoc.
Qed.

Lemma run_long b (d : Z) (ds : list Z) (l : Z) rest s : 49 <= d <= 57 -> Forall (fun c => 48 <= c <= 57) ds -> digits 10 (d :: ds) < 2 ^ 31 ->
  l = 108 \/ l = 76 -> Forall blank b ->
  reading (b ++ (d :: ds ++ [l]) ++ rest) (token s) -> takes (Long (digits 10 (d :: ds))) rest token_run s s.
Proof.
  intros Hd F L Hl Fb R Q HQ. assert (R' : reading (b ++ (d :: ds) ++ l :: rest) (token s)) by (cbn [app] in *; by rewrite <- app_assoc in R).
  apply (run_number b d (ds ++ l :: rest)); [lia|done|done|]. intros junk Lj.
  apply (decimal_ok b d ds l rest); [done..|by destruct Hl as [-> | ->]|exact R'|].
  apply (suffix_long_ok (b ++ d :: ds) l rest _ s _ (digits 10 (d :: ds)) Hl); try done.
  apply reading_current, reading_valued. by rewrite <- app_assoc.
Qed.

(** A character constant, behind its first quotation mark. *)
Lemma run_char b w (v : Z) rest s : Forall blank b -> 0 <= v < 256 -> reading (b ++ (39 :: w ++ [39]) ++ rest) (token s) ->
  (forall x (Q : Z -> parser -> Prop), Q v (at_ s (len (b ++ 39 :: w ++ [39])) x) -> wp token_proc_char Q (at_ s (len b + 1) x)) ->
  takes (Chr v) rest token_run s s.
Proof.
  intros Fb Hv R Hp Q HQ.
  assert (R' : reading (b ++ 39 :: w ++ 39 :: rest) (token s)) by (cbn [app] in R; by rewrite <- app_assoc in R).
  apply (run_other b 39 (w ++ 39 :: rest)); [done|done|unfold blank; lia|by right|]. intros junk Lj.
  change (token_operator 39) with (c ← token_proc_char; v ← tk value; _ ← upd (set_tvalue (set_char_value v c)); upd (set_current T_value_char)).
  wstep. apply Hp. wstep. apply wp_tk. wstep. cbn [token at_ with_token value set_string set_position]. apply wp_valued. apply wp_current.
  apply (took (Chr v) (b ++ 39 :: w ++ [39]) rest s); try done.
  - apply reading_current, reading_valued. rewrite <- app_assoc. exact R.
  - split; [done|]. cbn. rewrite set_char_low. by apply (ubits_small 8).
Qed.

Lemma run_plain_char b c rest s : 32 <= c <= 126 -> c <> 92 -> Forall blank b -> reading (b ++ [39; c; 39] ++ rest) (token s) ->
  takes (Chr c) rest token_run s s.
Proof.
  intros Hc Nc Fb R. apply (run_char b [c]); [done|lia|exact R|]. intros x Q HQ. unfold token_proc_char. wstep.
  assert (L1 : len b + 1 = len (b ++ [39])) by (rewrite length_app; cbn; lia). rewrite L1.
  eapply (wp_next (b ++ [39]) c (39 :: rest)); [rewrite <- app_assoc; exact R|]. rewrite (proj2 (Z.eqb_neq c 92)) by done. do 2 wstep. wstep.
  assert (L2 : len (b ++ [39]) + 1 = len (b ++ [39; c])) by (rewrite !length_app; cbn; lia). rewrite L2.
  eapply (wp_next (b ++ [39; c]) 39 rest); [rewrite <- app_assoc; exact R|]. cbn [Z.eqb Pos.eqb negb]. wstep.
  replace (len (b ++ [39; c]) + 1) with (len (b ++ 39 :: [c] ++ [39])) by (rewrite !length_app; cbn; lia). exact HQ.
Qed.

Lemma run_escape b (e c : Z) rest s : (e, c) ∈ escapes -> Forall blank b -> reading (b ++ [39; 92; e; 39] ++ rest) (token s) ->
  takes (Chr c) rest token_run s s.
Proof.
  intros He Fb R. assert (Hc : 0 <= c < 256).
  { assert (F : Forall (fun p => 0 <= p.2 < 256) escapes) by (repeat constructor; cbn; lia). rewrite Forall_forall in F. exact (F _ He). }
  apply (run_char b [92; e]); [done|done|exact R|]. intros x Q HQ. unfold token_proc_char. wstep.
  assert (L1 : len b + 1 = len (b ++ [39])) by (rewrite length_app; cbn; lia). rewrite L1.
  eapply (wp_next (b ++ [39]) 92 (e :: 39 :: rest)); [rewrite <- app_assoc; exact R|]. rewrite Z.eqb_refl. wstep. wstep.
  assert (L2 : len (b ++ [39]) + 1 = len (b ++ [39; 92])) by (rewrite !length_app; cbn; lia). rewrite L2.
  eapply (wp_next (b ++ [39; 92]) e (39 :: rest)); [rewrite <- app_assoc; exact R|].
  assert (L3 : len (b ++ [39; 92]) + 1 = len (b ++ [39; 92; e])) by (rewrite !length_app; cbn; lia). rewrite L3.
  assert (Tail : wp (next ← token_next_char; if negb (next =? 39) then _ ← token_prev_char; _ ← on_finsh (finsh_error_set FINSH_ERROR_EXPECT_CHAR); mret c else mret c)
    Q (at_ s (len (b ++ [39; 92; e])) x)).
  { wstep. eapply (wp_next (b ++ [39; 92; e]) 39 rest); [rewrite <- app_assoc; exact R|]. cbn [Z.eqb Pos.eqb negb]. wstep.
    replace (len (b ++ [39; 92; e]) + 1) with (len (b ++ 39 :: [92; e] ++ [39])) by (rewrite !length_app; cbn; lia). exact HQ. }
  clear -He Tail. unfold escapes in He.
  repeat (apply elem_of_cons in He as [[= -> ->]|He]; [cbn [Z.eqb Pos.eqb]; wstep; exact Tail|]). by apply not_elem_of_nil in He.
Qed.

(** The tokenizer takes the first token of a text. *)
Lemma token_run_ok b w (t : tok) rest s : Forall blank b -> spells t w -> apart t rest -> reading (b ++ w ++ rest) (token s) ->
  takes t rest token_run s s.
Proof.
  intros Fb H A R. destruct H.
  - by apply (run_operator b w t).
  - assert (exists c r, rest = c :: r /\ is_separator c = true) as (c & r & -> & Sc).
    { unfold finsh_name_table in H. repeat (apply elem_of_cons in H as [[= _ ->]|H]; [exact A|]). by apply not_elem_of_nil in H. }
    intros Q HQ. pose proof (keyword_name _ _ H) as Hn. eapply (run_name b n); [done..|]. intros junk ty Lj [K|[_ N]].
    + rewrite (keyword_unique n t ty H K). replace (len b + len n) with (len (b ++ n)) by (rewrite length_app; lia).
      apply (took (Sym t) (b ++ n) (c :: r) s); try done. apply reading_current. by rewrite <- app_assoc.
    + exfalso. apply N. by exists t.
  - destruct A as (c & r & -> & Sc). intros Q HQ. eapply (run_name b n); [done..|]. intros junk ty Lj [K|[-> N]]; [exfalso; apply H0; by exists ty|].
    replace (len b + len n) with (len (b ++ n)) by (rewrite length_app; lia).
    apply (took (Name n) (b ++ n) (c :: r) s); try done; [apply reading_current; by rewrite <- app_assoc|].
    split; [done|]. apply cstring_start. by destruct H as (? & ? & _ & _ & _ & ?).
  - destruct A as (c & r & -> & Sc). by apply (run_zero b c r).
  - destruct A as (c & r & -> & Sc). by apply (run_decimal b d ds c r).
  - destruct A as (c & r & -> & Sc). by apply (run_long b d ds l (c :: r)).
  - destruct A as (c & r & -> & Sc). by apply (run_hex b x ds c r).
  - destruct A as (c & r & -> & Sc). by apply (run_octal b d ds c r).
  - destruct A as (c & r & -> & Sc). by apply (run_binary b x ds c r).
  - by apply (run_plain_char b c rest).
  - by apply (run_escape b e c rest).
Qed.

End Lex.
