(* ===== verification/FinshGrammar.v ===== *)
(** * The expression shell: the grammar and the parser

    A part of the grammar in the comments of finsh_parser.c, as a relation between lists
    of tokens and expressions.  Left out of it are '(' expr ')' (the parser takes it for a
    cast, see [proc_cast_expr] in FinshParser.v), casts, string literals, declarations, and
    [++], [--] and [&] in front of, or [++] and [--] behind, an operand that is not an
    identifier.  Then the stream of tokens the parser reads; the node table while trees are
    built in it, from its first node on; and the leaves of the trees. *)

From Stdlib Require Import Lia.
From S2P Require Import Prelude KService FinshVm FinshCompiler FinshSpec FinshTree FinshRun FinshToken FinshHeap FinshParser FinshLex.

(** ** The grammar *)

Definition op_token (o : binop) : finsh_token_type :=
  match o with
  | Add => T_add | Sub => T_sub | Mul => T_mul | Div => T_div | Mod => T_mod
  | And => T_and | Or => T_or | Xor => T_xor | Shl => T_shl | Shr => T_shr
  end.

(** How many levels an operator is above the operands of [*]. *)
Definition op_height (o : binop) : nat :=
  match o with Mul | Div | Mod => 1 | Add | Sub => 2 | Shl | Shr => 3 | And => 4 | Xor => 5 | Or => 6 end.

Section Grammar.
Context {SY : Symbols}.
(** The variables that are declared. *)
Variable vars : list finsh_var.

(** What [finsh_node_new_id] finds for an identifier. *)
Definition symbol_of (id : list Z) : res (option idref) :=
  i ← var_find_loop vars 0 id;
  if negb (i =? FINSH_VARIABLE_MAX) then mret (Some (IdVar i)) else
  sysvar ← finsh_sysvar_lookup id;
  match sysvar with
  | Some s => mret (Some (IdSysvar s))
  | None =>
      syscall ← finsh_syscall_lookup id;
      mret (match syscall with Some c => Some (IdSyscall c) | None => None end)
  end.

(** The 16 bytes [strncpy] leaves of a name. *)
Definition id_of (n : list Z) : list Z := take 16 (n ++ replicate 16 0).

Definition names (n : list Z) (r : idref) : Prop := symbol_of (id_of n) = Ok (Some r).

(** [expr_postfix] without '(' expr ')' and strings: literals, identifiers, calls of an
    identifier, [++] and [--] behind a variable. *)
Inductive postfix : list tok -> expr -> Prop :=
| postfix_int v : 0 <= v < 2 ^ 32 -> postfix [Int v] (EConst FINSH_NODE_VALUE_INT v)
| postfix_long v : 0 <= v < 2 ^ 32 -> postfix [Long v] (EConst FINSH_NODE_VALUE_LONG v)
| postfix_char c : postfix [Chr c] (EChar c)
| postfix_null : postfix [Sym T_value_null] (EConst FINSH_NODE_VALUE_NULL 0)
| postfix_id n r : names n r -> postfix [Name n] (EId r)
| postfix_inc n i : names n (IdVar i) -> postfix [Name n; Sym T_inc] (EPost false i)
| postfix_dec n i : names n (IdVar i) -> postfix [Name n; Sym T_dec] (EPost true i)
| postfix_call n c ts es : names n (IdSyscall c) -> params ts es ->
    postfix (Name n :: Sym T_left_paren :: ts ++ [Sym T_right_paren]) (ECall c es)
(** Level 0: [expr_unary], with [++], [--] and [&] in front of an identifier only; 1 to 6: the binary operators, which group to the left;
    7: [expr_assign]. *)
with level : nat -> list tok -> expr -> Prop :=
| level_postfix ts e : postfix ts e -> level 0 ts e
| level_plus ts e : level 0 ts e -> level 0 (Sym T_add :: ts) e
| level_minus ts e : level 0 ts e -> level 0 (Sym T_sub :: ts) (EBin Sub (EConst FINSH_NODE_VALUE_LONG 0) e)
| level_not ts e : level 0 ts e -> level 0 (Sym T_bitwise :: ts) (ENot e)
| level_value ts e : level 0 ts e -> level 0 (Sym T_mul :: ts) (EDeref e)
| level_address n r : names n r -> level 0 [Sym T_and; Name n] (EAddr r)
| level_preinc n i : names n (IdVar i) -> level 0 [Sym T_inc; Name n] (EPre false i)
| level_predec n i : names n (IdVar i) -> level 0 [Sym T_dec; Name n] (EPre true i)
| level_binary d o ts1 ts2 e1 e2 : op_height o = S d -> level (S d) ts1 e1 -> level d ts2 e2 ->
    level (S d) (ts1 ++ Sym (op_token o) :: ts2) (EBin o e1 e2)
| level_assign n r ts e : names n r -> level 7 ts e -> level 7 (Name n :: Sym T_assign :: ts) (EAssign r e)
| level_store ts1 ts2 p e : level 0 ts1 p -> level 7 ts2 e ->
    level 7 (Sym T_mul :: ts1 ++ Sym T_assign :: ts2) (EStore p e)
| level_up d ts e : (d < 7)%nat -> level d ts e -> level (S d) ts e
with params : list tok -> args -> Prop :=
| params_none : params [] ANil
| params_some ts es : some_params ts es -> params ts es
with some_params : list tok -> args -> Prop :=
| params_one ts e : level 7 ts e -> some_params ts (ACons e ANil)
| params_more ts ts' e es : level 7 ts e -> some_params ts' es -> some_params (ts ++ Sym T_comma :: ts') (ACons e es).

(** The statements of a line, each with its semicolon: expressions of the part above, no
    declarations of variables. *)
Inductive program : list tok -> list expr -> Prop :=
| program_none : program [] []
| program_more ts e ts' es : level 7 ts e -> program ts' es -> program (ts ++ Sym T_semicolon :: ts') (e :: es).

End Grammar.

Scheme postfix_min := Minimality for postfix Sort Prop
with level_min := Minimality for level Sort Prop
with params_min := Minimality for params Sort Prop
with some_params_min := Minimality for some_params Sort Prop.
Combined Scheme grammar_ind from postfix_min, level_min, params_min, some_params_min.

(** What may come behind an expression of a level so that it does not go on. *)
Definition token_height (t : finsh_token_type) : option nat :=
  match t with
  | T_inc | T_dec | T_left_paren => Some 0
  | T_mul | T_div | T_mod => Some 1
  | T_add | T_sub => Some 2
  | T_shl | T_shr => Some 3
  | T_and => Some 4
  | T_xor => Some 5
  | T_or => Some 6
  | T_assign => Some 7
  | _ => None
  end%nat.

Definition stops (d : nat) (t : finsh_token_type) : Prop :=
  match token_height t with Some h => (d < h)%nat | None => True end.

Lemma stops_up d t : stops (S d) t -> stops d t.
Proof. unfold stops. destruct (token_height t); [lia|done]. Qed.

(** ** Tokens that come *)

Definition taken (k : tok) (ts : list tok) (t : finsh_token) : Prop :=
  replay t = false /\ holds_token k t /\ exists rest, reading rest t /\ rendered rest ts.

Definition stream (ts : list tok) (t : finsh_token) : Prop :=
  (replay t = false /\ exists rest, reading rest t /\ rendered rest ts) \/
  (replay t = true /\ exists k ts' , ts = k :: ts' /\ taken k ts' (set_replay false t)).

Lemma taken_stream k ts t : taken k ts t -> stream ts t.
Proof. intros (R & _ & H). by left. Qed.

Lemma taken_replay k ts t : taken k ts t -> stream (k :: ts) (set_replay true t).
Proof.
  intros H. right. split; [done|]. exists k, ts. split; [done|]. destruct t; destruct H as (R & H & r & []). cbn in *. subst.
  split; [done|]. split; [done|]. by exists r.
Qed.

Section Stream.
Context {SY : Symbols} {HA : HeapAddress}.

Lemma rendered_inv rest k ts : rendered rest (k :: ts) ->
  exists b w rest', rest = b ++ w ++ rest' /\ Forall blank b /\ spells k w /\ apart k rest' /\ rendered rest' ts.
Proof. inversion 1; subst. by eexists _, _, _. Qed.

Lemma next_ok k ts s (Q : finsh_token_type -> parser -> Prop) : stream (k :: ts) (token s) ->
  (forall t, taken k ts t -> Q (type_of k) (with_token t s)) -> wp next_token Q s.
Proof.
  intros [(R & rest & Rd & Rn)|(R & k' & ts' & E0 & Tk)] HQ; [|injection E0 as <- <-]; unfold next_token, finsh_token_token; wstep; apply wp_tk; rewrite R; wstep.
  - apply rendered_inv in Rn as (b & w & rest' & -> & Fb & Sp & Ap & Rn). apply (token_run_ok b w k rest' s Fb Sp Ap Rd).
    intros t R1 H1 E1. apply wp_tk. cbn [token with_token]. rewrite (proj1 H1). apply HQ. split; [congruence|]. split; [done|]. by exists rest'.
  - apply wp_upd. apply wp_tk. cbn [token with_token]. rewrite (proj1 (proj1 (proj2 Tk))). by apply HQ.
Qed.

Lemma next_end s (Q : finsh_token_type -> parser -> Prop) : stream [] (token s) ->
  (forall t, Q T_eof (with_token t s)) -> wp next_token Q s.
Proof.
  intros [(R & rest & Rd & Rn)|(_ & u & l0 & E0 & _)] HQ; [|done]; unfold next_token, finsh_token_token; wstep; apply wp_tk; rewrite R; wstep.
  inversion Rn; subst. eapply run_end; [exact Rd|done|]. intros t E _. apply wp_tk. cbn [token with_token]. rewrite E. apply HQ.
Qed.

End Stream.

(** ** The node table *)

(** The first [k] nodes are in use. *)
Record used (tab : list finsh_node) (k : nat) : Prop := {
  used_length : length tab = 16%nat;
  used_bound : (k <= 16)%nat;
  used_nodes : forall i x, (i < k)%nat -> tab !! i = Some x -> node_type x <> FINSH_NODE_UNKNOWN;
  used_rest : forall i, (k <= i < 16)%nat -> tab !! i = Some node_empty }.

Fixpoint fsize (f : forest) : nat := match f with FNil => 0 | FCons _ cs ss => S (fsize cs + fsize ss) end.

(** From the first [k] nodes on, the forest has been added. *)
Definition built (tab : list finsh_node) (k : nat) (p : option Z) (f : forest) (tab' : list finsh_node) (k' : nat) : Prop :=
  used tab' k' /\ k' = (k + fsize f)%nat /\ (forall j, (j < k)%nat -> tab' !! j = tab !! j) /\
  exists ns, repr tab' p f ns /\ NoDup ns /\ forall j, j ∈ ns -> (k <= j < k')%nat.

Lemma built_nil tab k : used tab k -> built tab k None FNil tab k.
Proof.
  intros U. split; [done|]. split; [cbn; lia|]. split; [done|]. exists []. split; [done|]. split; [apply NoDup_nil_2|].
  by intros j ?%not_elem_of_nil.
Qed.

Lemma empty_node_ok tab k : used tab k -> (k < 16)%nat -> empty_node tab 0 = Z.of_nat k.
Proof.
  intros [L _ Hn Hr] Hk.
  assert (G : forall n t z, (n <= k)%nat -> t = drop n tab -> empty_node t z = z + Z.of_nat (k - n)); [|rewrite (G 0%nat tab 0); [lia|lia|done]].
  intros n t. remember (k - n)%nat as m eqn:E. revert n t E. induction m as [|m IH]; intros n t E z Hle ->.
  - assert (n = k) as -> by lia. rewrite (drop_S _ _ _ (Hr k ltac:(lia))). cbn [empty_node].
    rewrite bool_decide_eq_true_2 by done. lia.
  - destruct (lookup_lt_is_Some_2 tab n ltac:(lia)) as [x Hx]. rewrite (drop_S _ _ _ Hx). cbn [empty_node].
    rewrite bool_decide_eq_false_2 by (by apply (Hn n); [lia|]). rewrite (IH (S n)); [lia|lia|lia|done].
Qed.

Lemma used_insert tab k i x : used tab k -> (i < k)%nat -> node_type x <> FINSH_NODE_UNKNOWN -> used (<[i := x]> tab) k.
Proof.
  intros [L B Hn Hr] Hi Hx. split; [by rewrite length_insert|done| |].
  - intros j y Hj. destruct (decide (i = j)) as [<-|N]; [rewrite list_lookup_insert_eq by lia; by intros [= <-]|].
    rewrite list_lookup_insert_ne by done. by apply Hn.
  - intros j Hj. rewrite list_lookup_insert_ne by lia. by apply Hr.
Qed.

Lemma used_add tab k x : used tab k -> (k < 16)%nat -> node_type x <> FINSH_NODE_UNKNOWN -> used (<[k := x]> tab) (S k).
Proof.
  intros [L B Hn Hr] Hk Hx. split; [by rewrite length_insert|lia| |].
  - intros j y Hj. destruct (decide (k = j)) as [<-|N]; [rewrite list_lookup_insert_eq by lia; by intros [= <-]|].
    rewrite list_lookup_insert_ne by done. apply Hn. lia.
  - intros j Hj. rewrite list_lookup_insert_ne by lia. apply Hr. lia.
Qed.

Section Nodes.
Context {SY : Symbols}.
Implicit Types (tab : list finsh_node) (k i : nat) (f : finsh).

Lemma wp_allocate (ty : node_kind) tab k f (Q : option Z -> finsh -> Prop) : used tab k -> (k < 16)%nat ->
  Q (Some (Z.of_nat k)) (with_nodes (<[k := sys_node ty]> tab) f) -> wp (finsh_node_allocate ty) Q (with_nodes tab f).
Proof.
  intros U Hk H. unfold finsh_node_allocate. wstep. wstep. cbn [global_node_table with_nodes].
  rewrite (empty_node_ok tab k U Hk). change FINSH_NODE_MAX with 16. rewrite (proj2 (Z.eqb_neq _ _)) by lia.
  wstep. eapply wp_get_node; [apply (used_rest _ _ U); lia|]. wstep. apply wp_put_node; [cbn; rewrite (used_length _ _ U); lia|]. by wstep.
Qed.

Lemma wp_new_node (ty : node_kind) (g : finsh_node -> finsh_node) tab k f (Q : option Z -> finsh -> Prop) : used tab k -> (k < 16)%nat ->
  Q (Some (Z.of_nat k)) (with_nodes (<[k := g (sys_node ty)]> tab) f) -> wp (new_node ty g) Q (with_nodes tab f).
Proof.
  intros U Hk H. unfold new_node. wstep. apply (wp_allocate ty tab k f); [done..|]. pose proof (used_length _ _ U) as L.
  wstep. eapply wp_get_node; [cbn; apply list_lookup_insert_eq; lia|]. wstep.
  apply wp_put_node; [cbn; rewrite length_insert; lia|]. wstep. cbn [global_node_table with_nodes]. by rewrite list_insert_insert_eq.
Qed.

(** A leaf. *)
Lemma built_leaf tab k x : used tab k -> (k < 16)%nat -> node_type x <> FINSH_NODE_UNKNOWN -> bare x = x ->
  built tab k (Some (Z.of_nat k)) (FCons x FNil FNil) (<[k := x]> tab) (S k).
Proof.
  intros U Hk Hx B. split; [by apply used_add|]. split; [cbn; lia|]. pose proof (used_length _ _ U) as L.
  split; [intros j Hj; by rewrite list_lookup_insert_ne by lia|].
  exists [k]. split; [|split; [apply NoDup_singleton|intros j ->%list_elem_of_singleton; lia]].
  exists k, x, [], []. split; [done|]. split; [apply list_lookup_insert_eq; lia|]. split; [done|].
  rewrite <- B. done.
Qed.

End Nodes.

(** The tree of an expression is one node with what hangs below it. *)
Lemma elab_shape (e : expr) : exists x cs, forall ss, elab e ss = FCons x cs ss.
Proof. destruct e; eexists _, _; intros ss; reflexivity. Qed.

Lemma repr_nodup_other tab tab' (n : nat) p f ns : repr tab p f ns -> n ∉ ns -> (forall j, j <> n -> tab' !! j = tab !! j) -> repr tab' p f ns.
Proof. intros R N H. eapply repr_other; [|exact R]. intros j Hj. apply H. by intros ->. Qed.

(** A tree gets siblings. *)
Lemma link_repr tab (i1 : Z) n2 x cs f2 ns1 ns2 :
  repr tab (Some i1) (FCons x cs FNil) ns1 -> repr tab n2 f2 ns2 -> NoDup (ns1 ++ ns2) ->
  exists (n1 : nat) y, i1 = Z.of_nat n1 /\ tab !! n1 = Some y /\ n1 ∈ ns1 /\
    repr (<[n1 := set_sibling n2 y]> tab) (Some i1) (FCons x cs f2) (ns1 ++ ns2).
Proof.
  intros (n1 & y & nc & nss & [= ->] & Hy & Bx & Rc & [Es ->] & ->) R2 N. rewrite app_nil_r in *. cbn [app] in N.
  apply NoDup_cons in N as [N1 N2]. rewrite elem_of_app in N1. pose proof (lookup_lt_Some _ _ _ Hy) as L.
  exists n1, y. split; [done|]. split; [done|]. split; [apply elem_of_cons; by left|].
  exists n1, (set_sibling n2 y), nc, ns2. split; [done|]. split; [by apply list_lookup_insert_eq|].
  split; [by rewrite <- Bx; destruct y|]. cbn [child sibling set_sibling].
  assert (O : forall j, j <> n1 -> <[n1 := set_sibling n2 y]> tab !! j = tab !! j) by (intros j Hj; by apply list_lookup_insert_ne).
  split; [apply (repr_nodup_other tab _ n1); [exact Rc|tauto|exact O]|]. split; [apply (repr_nodup_other tab _ n1); [exact R2|tauto|exact O]|done].
Qed.

(** Two trees, one of them perhaps missing, under a new node. *)
Lemma join_repr (ty : node_kind) tab (K : nat) (i1 : Z) n2 x cs f2 ns1 ns2 : ty <> FINSH_NODE_UNKNOWN ->
  used tab K -> (K < 16)%nat ->
  repr tab (Some i1) (FCons x cs FNil) ns1 -> repr tab n2 f2 ns2 -> NoDup (ns1 ++ ns2) -> (forall j, j ∈ ns1 ++ ns2 -> (j < K)%nat) ->
  exists (n1 : nat) y, i1 = Z.of_nat n1 /\ tab !! n1 = Some y /\ n1 ∈ ns1 /\
    let tab' := <[n1 := set_sibling n2 y]> (<[K := set_child (Some i1) (sys_node ty)]> tab) in
    used tab' (S K) /\ (forall j, j ∉ ns1 -> j <> K -> tab' !! j = tab !! j) /\
    repr tab' (Some (Z.of_nat K)) (FCons (sys_node ty) (FCons x cs f2) FNil) (K :: ns1 ++ ns2) /\ NoDup (K :: ns1 ++ ns2).
Proof.
  intros Ht U HK R1 R2 N Lt. pose proof (used_length _ _ U) as L.
  assert (NK : K ∉ ns1 ++ ns2) by (intros H; specialize (Lt K H); lia). rewrite elem_of_app in NK.
  assert (O : forall j, j <> K -> <[K := set_child (Some i1) (sys_node ty)]> tab !! j = tab !! j) by (intros j Hj; by apply list_lookup_insert_ne).
  set (tab1 := <[K := set_child (Some i1) (sys_node ty)]> tab) in *.
  destruct (link_repr tab1 i1 n2 x cs f2 ns1 ns2) as (n1 & y & -> & Hy & Hn & R); [apply (repr_nodup_other tab _ K); [exact R1|tauto|exact O]|
    apply (repr_nodup_other tab _ K); [exact R2|tauto|exact O]|done|].
  assert (Ln : (n1 < K)%nat) by (apply Lt, elem_of_app; by left).
  rewrite O in Hy by lia. exists n1, y. split; [done|]. split; [done|]. split; [done|]. cbv zeta.
  assert (U1 : used tab1 (S K)) by (by apply used_add). split_and!.
  - apply used_insert; [done|lia|]. exact (used_nodes _ _ U n1 y Ln Hy).
  - intros j Hj Nj. rewrite list_lookup_insert_ne by (by intros ->). by apply O.
  - assert (EK : <[n1 := set_sibling n2 y]> tab1 !! K = Some (set_child (Some (Z.of_nat n1)) (sys_node ty))).
    { rewrite list_lookup_insert_ne by lia. apply list_lookup_insert_eq. lia. }
    exists K, (set_child (Some (Z.of_nat n1)) (sys_node ty)), (ns1 ++ ns2), []. split; [done|]. split; [exact EK|]. split; [done|].
    cbn [child sibling set_child sys_node]. split; [exact R|]. split; [done|]. by rewrite app_nil_r.
  - apply NoDup_cons. split; [rewrite elem_of_app; tauto|done].
Qed.

(** Trees behind trees. *)
Fixpoint fjoin (f g : forest) : forest := match f with FNil => g | FCons x cs ss => FCons x cs (fjoin ss g) end.

Lemma fjoin_assoc f g h : fjoin (fjoin f g) h = fjoin f (fjoin g h).
Proof. induction f as [|x cs _ ss IH]; [done|]. cbn [fjoin]. by rewrite IH. Qed.
Lemma fjoin_nil f : fjoin f FNil = f.
Proof. induction f as [|x cs _ ss IH]; [done|]. cbn [fjoin]. by rewrite IH. Qed.
Lemma fjoin_elab (e : expr) f g : fjoin (elab e f) g = elab e (fjoin f g).
Proof. destruct e; reflexivity. Qed.
Lemma fsize_join f g : fsize (fjoin f g) = (fsize f + fsize g)%nat.
Proof. induction f as [|x cs _ ss IH]; [done|]. cbn [fjoin fsize]. rewrite IH. lia. Qed.

(** [i] is the last tree of the forest at [p]. *)
Fixpoint ends (tab : list finsh_node) (p : option Z) (f : forest) (i : Z) : Prop :=
  match f with
  | FNil => False
  | FCons _ _ FNil => p = Some i
  | FCons _ _ ss => exists n y, p = Some (Z.of_nat n) /\ tab !! n = Some y /\ ends tab (sibling y) ss i
  end.

Lemma ends_other tab tab' f i : forall p ns, repr tab p f ns -> (forall j, j ∈ ns -> tab' !! j = tab !! j) -> ends tab p f i -> ends tab' p f i.
Proof.
  induction f as [|x cs _ ss IH]; [done|]. intros p ns (n & y & nc & nss & -> & Hy & _ & _ & Rs & ->) O.
  destruct ss as [|x' cs' ss']; [done|]. intros (n' & y' & [= Ep%Nat2Z.inj] & Hy' & He). subst n'.
  exists n, y'. split; [done|]. split; [rewrite O; [done|set_solver]|]. rewrite Hy in Hy'. injection Hy' as <-.
  eapply IH; [exact Rs| |exact He]. intros j Hj. apply O. set_solver.
Qed.

Lemma link_last tab n2 x2 cs2 f ns2 i : repr tab n2 (FCons x2 cs2 FNil) ns2 ->
  forall p ns, repr tab p f ns -> ends tab p f i -> NoDup (ns ++ ns2) ->
  exists (n : nat) y, i = Z.of_nat n /\ tab !! n = Some y /\ n ∈ ns /\
    let tab' := <[n := set_sibling n2 y]> tab in
    repr tab' p (fjoin f (FCons x2 cs2 FNil)) (ns ++ ns2) /\ (forall i2, n2 = Some i2 -> ends tab' p (fjoin f (FCons x2 cs2 FNil)) i2).
Proof.
  intros R2. induction f as [|x cs _ ss IH]; [done|]. intros p ns R E N. destruct ss as [|x' cs' ss'].
  - cbn in E. subst p. destruct (link_repr tab i n2 x cs _ ns ns2 R R2 N) as (n & y & -> & Hy & Hn & R').
    exists n, y. split; [done|]. split; [done|]. split; [done|]. split; [exact R'|]. intros i2 ->.
    cbn. exists n, (set_sibling (Some i2) y). split; [done|]. split; [|by destruct y].
    apply list_lookup_insert_eq. by eapply lookup_lt_Some.
  - destruct R as (n0 & y0 & nc & nss & -> & Hy0 & Bx & Rc & Rs & ->).
    destruct E as (n' & y' & [= Ep%Nat2Z.inj] & Hy' & He). subst n'. rewrite Hy0 in Hy'. injection Hy' as <-.
    cbn [app] in N. apply NoDup_cons in N as [N0 N]. rewrite <- app_assoc in N, N0. pose proof N as (_ & Nd & N2)%NoDup_app.
    destruct (IH (sibling y0) nss Rs He N2) as (n & y & -> & Hy & Hn & R' & He'). exists n, y. split; [done|]. split; [done|].
    split; [set_solver|]. intros tab'. assert (Hne : n <> n0) by (intros ->; apply N0; set_solver).
    assert (H0 : tab' !! n0 = Some y0) by (unfold tab'; by rewrite list_lookup_insert_ne).
    split.
    + exists n0, y0, nc, (nss ++ ns2). split; [done|]. split; [done|]. split; [done|]. split; [|split; [exact R'|cbn; by rewrite <- app_assoc]].
      eapply repr_nodup_other; [exact Rc| |intros j Hj; by apply list_lookup_insert_ne]. intros Hc. apply (Nd n Hc). set_solver.
    + intros i2 H2. specialize (He' i2 H2). cbn [fjoin]. cbn in He' |- *. exists n0, y0. by split_and!.
Qed.

(** ** The state of the parser *)

Definition placed (tab : list finsh_node) (t : finsh_token) (s0 : parser) : parser :=
  with_finsh (with_nodes tab (p_finsh s0)) (with_token t s0).

Section Parse.
Context {SY : Symbols} {HA : HeapAddress}.
Variable s0 : parser.
Abbreviation vars := (global_variable (p_finsh s0)).
Implicit Types (tab : list finsh_node) (k : nat) (t : finsh_token) (ts fut : list tok).

Lemma wp_on_placed {A} (m : ST finsh A) tab t (Q : A -> parser -> Prop) :
  wp m (fun a f => Q a (with_finsh f (with_token t s0))) (with_nodes tab (p_finsh s0)) -> wp (on_finsh m) Q (placed tab t s0).
Proof. unfold wp, on_finsh. cbn. by destruct (m _) as [[a f]| |]. Qed.

Lemma wp_token ts (u : tok) tab t (Q : finsh_token_type -> parser -> Prop) : stream (u :: ts) t ->
  (forall t', taken u ts t' -> Q (type_of u) (placed tab t' s0)) -> wp next_token Q (placed tab t s0).
Proof. intros S H. eapply next_ok; [exact S|]. exact H. Qed.

Lemma wp_replay tab t (Q : unit -> parser -> Prop) : Q tt (placed tab (set_replay true t) s0) -> wp finsh_token_replay Q (placed tab t s0).
Proof. done. Qed.

Lemma wp_match (u : tok) ts tab t (Q : unit -> parser -> Prop) : stream (u :: ts) t ->
  (forall t', taken u ts t' -> Q tt (placed tab t' s0)) -> wp (match_token (type_of u)) Q (placed tab t s0).
Proof.
  intros S H. unfold match_token. wstep. eapply wp_token; [exact S|]. intros t' T. unfold check_token.
  rewrite bool_decide_eq_true_2 by done. wstep. by apply H.
Qed.

(** [make_sys_node] on trees that have been built. *)
Lemma wp_make (ty : node_kind) tab (K : nat) (i1 : Z) n2 x cs f2 ns1 ns2 t (Q : option Z -> parser -> Prop) : ty <> FINSH_NODE_UNKNOWN ->
  used tab K -> (K < 16)%nat ->
  repr tab (Some i1) (FCons x cs FNil) ns1 -> repr tab n2 f2 ns2 -> NoDup (ns1 ++ ns2) -> (forall j, j ∈ ns1 ++ ns2 -> (j < K)%nat) ->
  (forall tab', used tab' (S K) -> (forall j, j ∉ ns1 -> j <> K -> tab' !! j = tab !! j) ->
     repr tab' (Some (Z.of_nat K)) (FCons (sys_node ty) (FCons x cs f2) FNil) (K :: ns1 ++ ns2) -> NoDup (K :: ns1 ++ ns2) ->
     Q (Some (Z.of_nat K)) (placed tab' t s0)) ->
  wp (make_sys_node ty (Some i1) n2) Q (placed tab t s0).
Proof.
  intros Ht U HK R1 R2 N Lt H.
  destruct (join_repr ty tab K i1 n2 x cs f2 ns1 ns2) as (n1 & y & -> & Hy & Hn & U' & O & R & N'); [done..|].
  specialize (H _ U' O R N'). pose proof (used_length _ _ U) as L. assert (Ln : (n1 < K)%nat) by (apply Lt, elem_of_app; by left).
  unfold make_sys_node. wstep. apply wp_on_placed. apply (wp_allocate ty tab K); [done..|]. wstep. wstep.
  change (with_finsh (with_nodes (<[K:=sys_node ty]> tab) (p_finsh s0)) (with_token t s0)) with (placed (<[K:=sys_node ty]> tab) t s0).
  unfold link_child, link_sibling. wstep. apply wp_on_placed. eapply wp_get_node; [apply list_lookup_insert_eq; lia|].
  change (with_finsh (with_nodes (<[K:=sys_node ty]> tab) (p_finsh s0)) (with_token t s0)) with (placed (<[K:=sys_node ty]> tab) t s0).
  apply wp_on_placed. apply wp_put_node; [cbn; rewrite length_insert; lia|]. cbn [global_node_table with_nodes]. rewrite list_insert_insert_eq.
  match goal with |- context [with_finsh (with_nodes ?tb (with_nodes _ _)) _] => change (with_finsh (with_nodes tb (with_nodes (<[K:=sys_node ty]> tab) (p_finsh s0))) (with_token t s0)) with (placed tb t s0); set (tab1 := tb) in * end.
  wstep. apply wp_on_placed. eapply wp_get_node; [cbn; unfold tab1; rewrite list_lookup_insert_ne by lia; exact Hy|].
  change (with_finsh (with_nodes tab1 (p_finsh s0)) (with_token t s0)) with (placed tab1 t s0).
  apply wp_on_placed. apply wp_put_node; [cbn; unfold tab1; rewrite length_insert; lia|]. wstep. exact H.
Qed.

(** A tree that has been built gets a node above it, and what has been built after it
    as its sibling. *)
Lemma wp_put_above (ty : node_kind) tab k (i1 : Z) x cs tab1 k1 p2 f2 tab2 k2 t (Q : option Z -> parser -> Prop) : ty <> FINSH_NODE_UNKNOWN ->
  built tab k (Some i1) (FCons x cs FNil) tab1 k1 -> built tab1 k1 p2 f2 tab2 k2 -> (k2 < 16)%nat ->
  (forall p tab3, built tab k p (FCons (sys_node ty) (FCons x cs f2) FNil) tab3 (S k2) -> Q p (placed tab3 t s0)) ->
  wp (make_sys_node ty (Some i1) p2) Q (placed tab2 t s0).
Proof.
  intros Ht (U1 & E1 & O1 & ns1 & R1 & N1 & L1) (U2 & E2 & O2 & ns2 & R2 & N2 & L2) Hk H.
  assert (R1' : repr tab2 (Some i1) (FCons x cs FNil) ns1).
  { eapply repr_other; [|exact R1]. intros j Hj. apply O2. by apply L1. }
  apply (wp_make ty tab2 k2 i1 p2 x cs f2 ns1 ns2); try done.
  - apply NoDup_app. split; [done|]. split; [|done]. intros j Hj Hj2. specialize (L1 j Hj). specialize (L2 j Hj2). lia.
  - intros j [Hj|Hj]%elem_of_app; [specialize (L1 j Hj)|specialize (L2 j Hj)]; cbn in *; lia.
  - intros tab3 U3 O3 R3 N3. apply H. split; [done|]. split; [cbn in *; lia|]. split.
    { intros j Hj. rewrite O3; [rewrite O2 by (cbn in *; lia); by apply O1|intros Hn; specialize (L1 j Hn); lia|cbn in *; lia]. }
    eexists. split; [exact R3|]. split; [done|].
    intros j [->|[Hj|Hj]%elem_of_app]%elem_of_cons; [cbn in *; lia|specialize (L1 j Hj); cbn in *; lia|specialize (L2 j Hj); cbn in *; lia].
Qed.

Lemma built_some tab k p x cs ss tab' k' : built tab k p (FCons x cs ss) tab' k' -> exists i, p = Some i.
Proof. intros (_ & _ & _ & ns & (i & y & nc & nss & -> & _) & _). by eexists. Qed.

Lemma built_used tab k p f tab' k' : built tab k p f tab' k' -> used tab' k'.
Proof. by intros []. Qed.

(** [m] reads the text of [ts], in front of what [follow] allows, and builds [f]. *)
Definition parses (m : P (option Z)) ts (f : forest) (follow : finsh_token_type -> Prop) : Prop :=
  forall fut tab t k (Q : option Z -> parser -> Prop), stream (ts ++ fut) t ->
    (exists u fut', fut = u :: fut' /\ follow (type_of u)) -> used tab k -> (k + fsize f <= 16)%nat ->
    (forall p tab' k' t', built tab k p f tab' k' -> stream fut t' -> Q p (placed tab' t' s0)) ->
    wp m Q (placed tab t s0).

(** ** Literals and identifiers *)

Lemma wp_leaf (ty : node_kind) (g : finsh_node -> finsh_node) tab k t x (Q : option Z -> parser -> Prop) :
  used tab k -> (k < 16)%nat -> g (sys_node ty) = x -> node_type x <> FINSH_NODE_UNKNOWN -> bare x = x ->
  (forall p tab', built tab k p (FCons x FNil FNil) tab' (S k) -> Q p (placed tab' t s0)) ->
  wp (on_finsh (new_node ty g)) Q (placed tab t s0).
Proof.
  intros U Hk Eg Hx Bx H. apply wp_on_placed. apply (wp_new_node ty g tab k); [done..|]. rewrite Eg.
  apply (H (Some (Z.of_nat k))). by apply built_leaf.
Qed.

Lemma wp_new_id n r tab k t (Q : option Z -> parser -> Prop) :
  names vars n r -> used tab k -> (k < 16)%nat ->
  (forall p tab', built tab k p (FCons (id_node r) FNil FNil) tab' (S k) -> Q p (placed tab' t s0)) ->
  wp (on_finsh (finsh_node_new_id (id_of n))) Q (placed tab t s0).
Proof.
  intros Hn U Hk H. unfold names, symbol_of in Hn.
  assert (G : exists type, r <> IdNull /\ set_id type r (sys_node FINSH_NODE_ID) = id_node r /\
    finsh_node_new_id (id_of n) (with_nodes tab (p_finsh s0)) = new_node FINSH_NODE_ID (set_id type r) (with_nodes tab (p_finsh s0))).
  { apply res_bind_Ok_inv in Hn as (i & Ei & Hn).
    assert (Ev : finsh_var_lookup (id_of n) (with_nodes tab (p_finsh s0)) =
      Ok (if i =? FINSH_VARIABLE_MAX then None else Some i, with_nodes tab (p_finsh s0))).
    { unfold finsh_var_lookup, mbind, ST_bind, gets. cbn [global_variable with_nodes]. unfold lift. rewrite Ei. cbn. by destruct (i =? _). }
    unfold finsh_node_new_id. unfold mbind at 1, ST_bind at 1. rewrite Ev. destruct (i =? FINSH_VARIABLE_MAX); cbn [negb] in Hn.
    - apply res_bind_Ok_inv in Hn as ([v|] & Es & Hn).
      + injection Hn as <-. eexists. split; [done|]. split; [reflexivity|]. unfold mbind, ST_bind, lift. rewrite Es. done.
      + apply res_bind_Ok_inv in Hn as ([c|] & Ec & Hn); [|done]. injection Hn as <-. eexists. split; [done|]. split; [reflexivity|].
        unfold mbind, ST_bind, lift. rewrite Es, Ec. done.
    - injection Hn as <-. eexists. split; [done|]. split; [reflexivity|]. done. }
  destruct G as (type & Nr & Ei & E). apply wp_on_placed. unfold wp. rewrite E.
  pose proof (wp_new_node FINSH_NODE_ID (set_id type r) tab k (p_finsh s0) (fun a f => Q a (with_finsh f (with_token t s0))) U Hk) as W.
  unfold wp in W. apply W. rewrite Ei. apply (H (Some (Z.of_nat k))). by apply built_leaf.
Qed.

Lemma strncpy_id n s : Str.cstring n s -> Str.rt_strncpy (replicate (Z.to_nat FINSH_NAME_MAX) 0) s FINSH_NAME_MAX = Ok (id_of n).
Proof.
  intros C. rewrite (Str.rt_strncpy_ok n) by (try done; cbn; lia). f_equal. unfold Mem.wr. change (Z.to_nat 0) with 0%nat.
  change (Z.to_nat FINSH_NAME_MAX) with 16%nat. fold (id_of n).
  assert (L : length (id_of n) = 16%nat) by (unfold id_of; rewrite length_take, length_app, length_replicate; lia).
  rewrite list_inserts_0 by (rewrite length_replicate; lia). rewrite drop_ge by (rewrite length_replicate; lia). apply app_nil_r.
Qed.

Lemma wp_identifier n ts tab t (Q : list Z -> parser -> Prop) : stream (Name n :: ts) t ->
  (forall t', taken (Name n) ts t' -> Q (id_of n) (placed tab t' s0)) -> wp proc_identifier Q (placed tab t s0).
Proof.
  intros S H. unfold proc_identifier. wstep. change T_identifier with (type_of (Name n)). eapply wp_match; [exact S|]. intros t' T.
  wstep. apply wp_tk. cbn [token placed with_finsh with_token]. eapply wp_lift_ok; [|by apply H]. apply strncpy_id, T.
Qed.

(** The literals. *)
Inductive literal : tok -> expr -> Prop :=
| literal_int v : 0 <= v < 2 ^ 32 -> literal (Int v) (EConst FINSH_NODE_VALUE_INT v)
| literal_long v : 0 <= v < 2 ^ 32 -> literal (Long v) (EConst FINSH_NODE_VALUE_LONG v)
| literal_char c : literal (Chr c) (EChar c)
| literal_null : literal (Sym T_value_null) (EConst FINSH_NODE_VALUE_NULL 0)
| literal_id n r : names vars n r -> literal (Name n) (EId r).

Lemma primary_ok (A : P (option Z)) u e ts tab t k (Q : option Z -> parser -> Prop) :
  literal u e -> stream (u :: ts) t -> used tab k -> (k < 16)%nat ->
  (forall p tab' t', built tab k p (elab e FNil) tab' (S k) -> stream ts t' -> Q p (placed tab' t' s0)) ->
  wp (proc_primary_expr A) Q (placed tab t s0).
Proof.
  intros Hu S U Hk H. unfold proc_primary_expr. wstep. eapply wp_token; [exact S|]. intros t' T. pose proof (taken_stream _ _ _ T) as S'.
  pose proof (proj1 (proj2 T)) as [_ Ht].
  destruct Hu as [v Hv|v Hv|c| |n r Hn]; cbn [type_of].
  - wstep. apply wp_tk. cbn [token placed with_finsh with_token]. rewrite Ht. by eapply wp_leaf; [..|intros p tab' B; apply H].
  - wstep. apply wp_tk. cbn [token placed with_finsh with_token]. rewrite Ht. by eapply wp_leaf; [..|intros p tab' B; apply H].
  - wstep. apply wp_tk. cbn [token placed with_finsh with_token]. rewrite Ht. by eapply wp_leaf; [..|intros p tab' B; apply H].
  - by eapply wp_leaf; [..|intros p tab' B; apply H].
  - wstep. apply wp_replay. wstep. eapply wp_identifier; [by apply taken_replay|]. intros t2 T2.
    apply (wp_new_id n r tab k); [done..|]. intros p tab' B. apply H; [done|by eapply taken_stream].
Qed.

End Parse.
