(* ===== verification/FinshParse.v ===== *)
(** * The expression shell: from the bytes of a line to its value

    The parser builds, for the tokens of an expression, the syntax tree of the expression
    (by induction on the grammar of FinshGrammar.v), and for a line the trees of its
    statements; so that a line is run as it is written.

    The fuel of the parser: a level of expressions and one of casts for each token, and a
    round of a loop for each operator, are enough, so that twice the bytes of the line are. *)

From Stdlib Require Import Lia.
From S2P Require Import Prelude KService FinshVm FinshCompiler FinshSpec FinshTree FinshRun FinshToken FinshHeap FinshParser FinshLex FinshGrammar.

Section Parse.
Context {SY : Symbols} {HA : HeapAddress}.
Variable s0 : parser.
Abbreviation vars := (global_variable (p_finsh s0)).
Abbreviation placed tab t := (FinshGrammar.placed tab t s0). Abbreviation parses := (FinshGrammar.parses s0).
Abbreviation literal := (FinshGrammar.literal s0).
Implicit Types (tab : list finsh_node) (k : nat) (t : finsh_token) (ts fut : list tok).

(** ** First tokens *)

Definition starts_primary (t : finsh_token_type) : Prop :=
  match t with T_identifier | T_value_int | T_value_long | T_value_char | T_value_null => True | _ => False end.
Definition starts (t : finsh_token_type) : Prop :=
  match t with T_add | T_sub | T_bitwise | T_mul | T_and | T_inc | T_dec => True | _ => starts_primary t end.
Definition first (p : finsh_token_type -> Prop) ts : Prop := exists u ts', ts = u :: ts' /\ p (type_of u).

Lemma first_app p ts ts' : first p ts -> first p (ts ++ ts').
Proof. intros (u & r & -> & H). by exists u, (r ++ ts'). Qed.

Lemma first_ok :
  (forall ts e, postfix vars ts e -> first starts_primary ts) /\
  (forall d ts e, level vars d ts e -> first starts ts) /\
  (forall ts es, params vars ts es -> True) /\ (forall ts es, some_params vars ts es -> first starts ts).
Proof.
  apply grammar_ind; try (by intros; eexists _, _); try done.
  - intros ts e _ (u & r & -> & H). exists u, r. split; [done|]. by destruct (type_of u).
  - intros. by apply first_app.
  - intros. by apply first_app.
Qed.

Lemma level_first d ts e fut : level vars d ts e -> first starts (ts ++ fut).
Proof. intros H. apply first_app. by eapply (proj1 (proj2 first_ok)). Qed.

(** ** Levels *)

Definition level_op (d : nat) : finsh_token_type -> option node_kind :=
  match d with
  | 0 => multiplicative_op | 1 => additive_op | 2 => shift_op | 3 => and_op | 4 => xor_op | _ => or_op
  end%nat.

(** The function of a level, up to that of [|]. *)
Fixpoint below (fuel f d : nat) : P (option Z) :=
  match d with O => proc_cast_expr f | S d => proc_binary fuel (level_op d) (below fuel f d) end.

Lemma level_op_kind (o : binop) d : op_height o = S d -> level_op d (op_token o) = Some (binop_kind o).
Proof. by destruct o; intros [= <-]. Qed.
Lemma level_op_stops d (ty : finsh_token_type) : (d < 6)%nat -> stops (S d) ty -> level_op d ty = None.
Proof. intros L. unfold stops. destruct ty; cbn; intros H; do 6 (destruct d as [|d]; [try done; lia|]); lia. Qed.
Lemma op_stops (o : binop) d : op_height o = S d -> stops d (op_token o).
Proof. destruct o; intros [= <-]; cbn; lia. Qed.

(** What follows a text. *)
Definition followed (p : finsh_token_type -> Prop) fut : Prop := exists u fut', fut = u :: fut' /\ p (type_of u).

Lemma fsize_elab (e : expr) f : fsize (elab e f) = (fsize (elab e FNil) + fsize f)%nat.
Proof. destruct e; cbn [elab fsize]; lia. Qed.

Lemma built_end tab k p f tab' k' : built tab k p f tab' k' -> k' = (k + fsize f)%nat.
Proof. by intros (_ & E & _). Qed.

Lemma join_ok (ty : node_kind) (e : expr) tab k p1 tab1 k1 p2 f2 tab2 k2 t (Q : option Z -> parser -> Prop) : ty <> FINSH_NODE_UNKNOWN ->
  built tab k p1 (elab e FNil) tab1 k1 -> built tab1 k1 p2 f2 tab2 k2 -> (k2 < 16)%nat ->
  (forall p tab3, built tab k p (FCons (sys_node ty) (elab e f2) FNil) tab3 (S k2) -> Q p (placed tab3 t)) ->
  wp (make_sys_node ty p1 p2) Q (placed tab2 t).
Proof.
  destruct (elab_shape e) as (x & cs & E). rewrite !E. intros Ht B1 B2 Hk H.
  destruct (built_some _ _ _ _ _ _ _ _ B1) as [i ->]. by eapply wp_put_above.
Qed.

(** A node above one tree. *)
Lemma above_ok (ty : node_kind) (e : expr) tab k p1 tab1 k1 t (Q : option Z -> parser -> Prop) : ty <> FINSH_NODE_UNKNOWN ->
  built tab k p1 (elab e FNil) tab1 k1 -> (k1 < 16)%nat ->
  (forall p tab3, built tab k p (FCons (sys_node ty) (elab e FNil) FNil) tab3 (S k1) -> Q p (placed tab3 t)) ->
  wp (make_sys_node ty p1 None) Q (placed tab1 t).
Proof. intros Ht B Hk H. eapply join_ok; [done|exact B|by eapply built_nil, built_used|done|exact H]. Qed.

(** ** Operands *)

Abbreviation A := proc_assign_expr. Abbreviation C := proc_cast_expr.

Lemma postfix_end (n : nat) p ts tab t (Q : option Z -> parser -> Prop) (a : P (option Z)) (F : nat) :
  stream ts t -> followed (stops 0) ts -> (forall t', stream ts t' -> Q p (placed tab t')) ->
  wp (token ← next_token; postfix_loop F a (S n) p token) Q (placed tab t).
Proof.
  intros S (u & r & -> & St) H. wstep. eapply wp_token; [exact S|]. intros t' T. cbn [postfix_loop].
  assert (E : wp (_ ← finsh_token_replay; mret p) Q (placed tab t')); [|by destruct (type_of u); cbn in St; try lia].
  wstep. apply wp_replay. wstep. apply H. by apply taken_replay.
Qed.

(** A tree that has been built goes behind those before it. *)
Lemma wp_link tab k p f i tab1 k1 i2 (e : expr) tab2 k2 t (Q : unit -> parser -> Prop) :
  built tab k p f tab1 k1 -> ends tab1 p f i -> built tab1 k1 (Some i2) (elab e FNil) tab2 k2 ->
  (forall tab3, built tab k p (fjoin f (elab e FNil)) tab3 k2 -> ends tab3 p (fjoin f (elab e FNil)) i2 -> Q tt (placed tab3 t)) ->
  wp (link_sibling i (Some i2)) Q (placed tab2 t).
Proof.
  destruct (elab_shape e) as (x & cs & E). rewrite !E.
  intros (U1 & E1 & O1 & ns1 & R1 & N1 & L1) He (U2 & E2 & O2 & ns2 & R2 & N2 & L2) H.
  assert (O : forall j, j ∈ ns1 -> tab2 !! j = tab1 !! j) by (intros j Hj; apply O2; by apply L1).
  assert (R1' : repr tab2 p f ns1) by (by eapply repr_other).
  assert (N : NoDup (ns1 ++ ns2)).
  { apply NoDup_app. split; [done|]. split; [|done]. intros j Hj Hj2. specialize (L1 j Hj). specialize (L2 j Hj2). lia. }
  destruct (link_last tab2 (Some i2) x cs f ns2 i R2 p ns1 R1' (ends_other _ _ _ _ _ _ R1 O He) N) as (n & y & -> & Hy & Hn & R & He2).
  unfold link_sibling. wstep. apply wp_on_placed. eapply wp_get_node; [exact Hy|].
  change (with_finsh (with_nodes tab2 (p_finsh s0)) (with_token t s0)) with (placed tab2 t).
  apply wp_on_placed. pose proof (lookup_lt_Some _ _ _ Hy) as Ln. apply wp_put_node; [cbn; lia|].
  pose proof (L1 n Hn) as Bn. refine (H _ _ (He2 _ eq_refl)). split_and!.
  - apply used_insert; [done|cbn in *; lia|]. refine (used_nodes _ _ U2 n y _ Hy). cbn in *; lia.
  - rewrite fsize_join. cbn in *. lia.
  - intros j Hj. cbn. rewrite list_lookup_insert_ne by lia. rewrite O2 by (cbn in *; lia). by apply O1.
  - eexists. split; [exact R|]. split; [done|]. intros j [Hj|Hj]%elem_of_app; [specialize (L1 j Hj)|specialize (L2 j Hj)]; cbn in *; lia.
Qed.

Lemma followed_mono (p q : finsh_token_type -> Prop) fut : (forall ty, p ty -> q ty) -> followed p fut -> followed q fut.
Proof. intros H (u & r & -> & Hp). exists u, r. auto. Qed.

Lemma postfix_leaf u (e : expr) (F : nat) (a : P (option Z)) : literal u e -> (1 <= F)%nat ->
  parses (proc_postfix_expr F a) [u] (elab e FNil) (stops 0).
Proof.
  intros Hu HF fut tab t k Q S St U Hk H. unfold proc_postfix_expr. wstep. destruct F as [|F]; [lia|].
  assert (E : fsize (elab e FNil) = 1%nat) by (by destruct Hu). rewrite E in Hk.
  eapply primary_ok; [exact Hu|exact S|exact U|lia|]. intros p tab' t' B S'.
  eapply postfix_end; [exact S'|exact St|]. intros t2 S2. by eapply H.
Qed.

(** [++] and [--] behind a variable. *)
Lemma postfix_step_ok n i (dec : bool) (F : nat) (a : P (option Z)) : names vars n (IdVar i) -> (2 <= F)%nat ->
  parses (proc_postfix_expr F a) [Name n; Sym (if dec then T_dec else T_inc)] (elab (EPost dec i) FNil) (stops 0).
Proof.
  intros Hn HF fut tab t k Q S St U Hk H. unfold proc_postfix_expr. wstep. destruct F as [|[|F]]; [lia..|]. cbn in Hk.
  eapply primary_ok; [by apply literal_id|exact S|exact U|lia|]. intros p tab1 t1 B S1.
  wstep. eapply wp_token; [exact S1|]. intros t2 T2. pose proof (taken_stream _ _ _ T2) as S2.
  assert (G : wp (x ← make_sys_node (post_kind dec) p None; token ← next_token; postfix_loop (Datatypes.S (Datatypes.S F)) a (Datatypes.S F) x token) Q (placed tab1 t2));
    [|by destruct dec].
  wstep. eapply (above_ok _ (EId (IdVar i))); [by destruct dec|exact B|lia|]. intros p3 tab3 B3.
  eapply postfix_end; [exact S2|exact St|]. intros t4 S4. by eapply H.
Qed.

(** A call with what reads its parameters. *)
Lemma call_none n c (F : nat) (a : P (option Z)) : names vars n (IdSyscall c) -> (2 <= F)%nat ->
  parses (proc_postfix_expr F a) [Name n; Sym T_left_paren; Sym T_right_paren] (elab (ECall c ANil) FNil) (stops 0).
Proof.
  intros Hn HF fut tab t k Q S St U Hk H. unfold proc_postfix_expr. wstep. destruct F as [|[|F]]; [lia..|]. cbn in Hk.
  eapply primary_ok; [by apply literal_id|exact S|exact U|lia|]. intros p tab1 t1 B S1.
  wstep. eapply wp_token; [exact S1|]. intros t2 T2. pose proof (taken_stream _ _ _ T2) as S2.
  cbn [type_of postfix_loop]. wstep. unfold proc_call. wstep. eapply wp_token; [exact S2|]. intros t3 T3.
  rewrite bool_decide_eq_true_2 by done. wstep. wstep.
  eapply (above_ok _ (EId (IdSyscall c))); [done|exact B|lia|]. intros p3 tab3 B3.
  eapply postfix_end; [by eapply taken_stream|exact St|]. intros t4 S4. by eapply H.
Qed.

Lemma call_some n c ts (es : args) (F : nat) (a : P (option Z)) : names vars n (IdSyscall c) -> (2 <= F)%nat -> first starts ts ->
  parses (proc_param_list F a) ts (elabs es) (eq T_right_paren) ->
  parses (proc_postfix_expr F a) (Name n :: Sym T_left_paren :: ts ++ [Sym T_right_paren]) (elab (ECall c es) FNil) (stops 0).
Proof.
  intros Hn HF (u & r & -> & Hu) Hp fut tab t k Q S St U Hk H. unfold proc_postfix_expr. wstep. destruct F as [|[|F]]; [lia..|]. cbn in Hk.
  cbn [app] in S. rewrite <- app_assoc in S. cbn [app] in S.
  eapply primary_ok; [by apply literal_id|exact S|exact U|lia|]. intros p tab1 t1 B S1.
  wstep. eapply wp_token; [exact S1|]. intros t2 T2. pose proof (taken_stream _ _ _ T2) as S2.
  cbn [type_of postfix_loop]. wstep. unfold proc_call. wstep. eapply wp_token; [exact S2|]. intros t3 T3.
  rewrite bool_decide_eq_false_2 by (intros Eu; by rewrite Eu in Hu). wstep. wstep. apply wp_replay. wstep.
  eapply (Hp (Sym T_right_paren :: fut)); [apply taken_replay, T3|by eexists _, _|by eapply built_used|lia|].
  intros p4 tab4 k4 t4 B4 S4. wstep. change T_right_paren with (type_of (Sym T_right_paren)). eapply wp_match; [exact S4|].
  intros t5 T5. wstep. pose proof (built_end _ _ _ _ _ _ B4) as E4.
  eapply (join_ok _ (EId (IdSyscall c))); [done|exact B|exact B4|lia|]. intros p6 tab6 B6.
  eapply postfix_end; [by eapply taken_stream|exact St|]. intros t7 S7. by eapply H.
Qed.

(** ** Parameters *)

Lemma elab_some (e : expr) tab k p tab' k' : built tab k p (elab e FNil) tab' k' -> exists i, p = Some i /\ ends tab' p (elab e FNil) i.
Proof.
  destruct (elab_shape e) as (x & cs & E). rewrite E. intros B. destruct (built_some _ _ _ _ _ _ _ _ B) as [i ->]. by exists i.
Qed.

(** The loop reads the rest of the parameters behind the forest [f] of the first ones. *)
Definition more_parses (m : Z -> P unit) ts (g : forest) : Prop :=
  forall fut tab0 k0 p f i tab k t (Q : unit -> parser -> Prop), stream (ts ++ Sym T_right_paren :: fut) t ->
    built tab0 k0 p f tab k -> ends tab p f i -> (k + fsize g <= 16)%nat ->
    (forall tab' k' t', built tab0 k0 p (fjoin f g) tab' k' -> taken (Sym T_right_paren) fut t' -> Q tt (placed tab' t')) ->
    wp (m i) Q (placed tab t).

(** What the loop does at a comma. *)
Definition next_param (a : P (option Z)) (n : nat) (i : Z) : P unit :=
  next ← a;
  _ ← link_sibling i next;
  assign ← match next with
           | Some i => mret i
           | None => _ ← error_set FINSH_ERROR_EXPECT_OPERATOR; mret i
           end;
  token ← next_token;
  param_loop a n assign token.

Lemma param_end (a : P (option Z)) (n : nat) i fut tab t (Q : unit -> parser -> Prop) : stream (Sym T_right_paren :: fut) t ->
  (forall t', taken (Sym T_right_paren) fut t' -> Q tt (placed tab t')) ->
  wp (token ← next_token; param_loop a (S n) i token) Q (placed tab t).
Proof.
  intros S H. wstep. eapply wp_token; [exact S|]. intros t' T. cbn [param_loop type_of].
  rewrite bool_decide_eq_false_2 by done. wstep. by apply H.
Qed.

Lemma param_one (a : P (option Z)) (n : nat) ts (e : expr) : parses a ts (elab e FNil) (stops 7) ->
  more_parses (next_param a (S n)) ts (elab e FNil).
Proof.
  intros Ha fut tab0 k0 p f i tab k t Q S B E Hk H. unfold next_param. wstep.
  eapply Ha; [exact S|by eexists _, _|by eapply built_used|done|]. intros p2 tab2 k2 t2 B2 S2.
  destruct (elab_some _ _ _ _ _ _ B2) as (i2 & -> & _). wstep. eapply wp_link; [exact B|exact E|exact B2|]. intros tab3 B3 E3.
  wstep. wstep. eapply param_end; [exact S2|]. intros t4 T4. by eapply H.
Qed.

Lemma param_more (a : P (option Z)) (n : nat) ts ts' (e : expr) (es : args) : parses a ts (elab e FNil) (stops 7) ->
  more_parses (next_param a n) ts' (elabs es) ->
  more_parses (next_param a (S n)) (ts ++ Sym T_comma :: ts') (elabs (ACons e es)).
Proof.
  intros Ha Hm fut tab0 k0 p f i tab k t Q S B E Hk H. unfold next_param. wstep. rewrite <- app_assoc in S. cbn [app] in S.
  cbn [elabs] in *. rewrite fsize_elab in Hk.
  eapply Ha; [exact S|by eexists _, _|by eapply built_used|lia|]. intros p2 tab2 k2 t2 B2 S2. pose proof (built_end _ _ _ _ _ _ B2).
  destruct (elab_some _ _ _ _ _ _ B2) as (i2 & -> & _). wstep. eapply wp_link; [exact B|exact E|exact B2|]. intros tab3 B3 E3.
  wstep. wstep. wstep. eapply wp_token; [exact S2|]. intros t4 T4. cbn [param_loop type_of]. rewrite bool_decide_eq_true_2 by done.
  eapply Hm; [by eapply taken_stream|exact B3|exact E3|lia|]. intros tab5 k5 t5 B5. rewrite fjoin_assoc, fjoin_elab in B5. by eapply H.
Qed.

(** The list of parameters, from its first one. *)
Lemma params_one_ok (a : P (option Z)) (F : nat) ts (e : expr) : (1 <= F)%nat -> parses a ts (elab e FNil) (stops 7) ->
  parses (proc_param_list F a) ts (elab e FNil) (eq T_right_paren).
Proof.
  intros HF Ha fut tab t k Q S (u & r & -> & Hu) U Hk H. destruct F as [|F]; [lia|]. unfold proc_param_list. wstep.
  eapply Ha; [exact S|exists u, r; by rewrite <- Hu|done|done|]. intros p tab1 k1 t1 B1 S1.
  destruct (elab_some _ _ _ _ _ _ B1) as (i & -> & E1). wstep. eapply wp_token; [exact S1|]. intros t2 T2.
  rewrite <- Hu. cbn [param_loop]. rewrite bool_decide_eq_false_2 by done. wstep. wstep. wstep. apply wp_replay. wstep.
  eapply H; [exact B1|]. by apply taken_replay.
Qed.

Lemma params_more_ok (a : P (option Z)) (F : nat) ts ts' (e : expr) (es : args) : parses a ts (elab e FNil) (stops 7) ->
  more_parses (next_param a F) ts' (elabs es) ->
  parses (proc_param_list (S F) a) (ts ++ Sym T_comma :: ts') (elabs (ACons e es)) (eq T_right_paren).
Proof.
  intros Ha Hm fut tab t k Q S (u & r & -> & Hu) U Hk H. unfold proc_param_list. wstep. rewrite <- app_assoc in S. cbn [app] in S.
  cbn [elabs] in *. rewrite fsize_elab in Hk.
  assert (exists o, u = Sym o) as [o ->] by (by destruct u; [eexists|..]). cbn in Hu. subst o.
  eapply Ha; [exact S|by eexists _, _|done|lia|]. intros p tab1 k1 t1 B1 S1. pose proof (built_end _ _ _ _ _ _ B1).
  destruct (elab_some _ _ _ _ _ _ B1) as (i & -> & E1). wstep. eapply wp_token; [exact S1|]. intros t2 T2.
  cbn [param_loop type_of]. rewrite bool_decide_eq_true_2 by done. wstep. fold (next_param a F i).
  eapply Hm; [by eapply taken_stream|exact B1|exact E1|lia|]. intros tab3 k3 t3 B3 T3. rewrite fjoin_elab in B3.
  wstep. apply wp_replay. wstep. eapply H; [exact B3|]. by apply taken_replay.
Qed.

(** ** Unary operators *)

(** A cast expression that does not start with a parenthesis is a unary one. *)
Lemma cast_unary (f : nat) ts tab t (Q : option Z -> parser -> Prop) : stream ts t -> first starts ts ->
  (forall t', stream ts t' -> wp (proc_unary_expr (S f) (A f) (C f)) Q (placed tab t')) -> wp (C (S f)) Q (placed tab t).
Proof.
  intros S (u & r & -> & Hu) H. cbn [proc_cast_expr]. wstep. eapply wp_token; [exact S|]. intros t' T.
  rewrite bool_decide_eq_false_2 by (intros E; by rewrite E in Hu). wstep. apply wp_replay. apply H. by apply taken_replay.
Qed.

Lemma cast_postfix (f : nat) ts (e : expr) : first starts_primary ts -> parses (proc_postfix_expr (S f) (A f)) ts (elab e FNil) (stops 0) ->
  parses (C (S f)) ts (elab e FNil) (stops 0).
Proof.
  intros (u & r & -> & Hu) Hp fut tab t k Q S St U Hk H. eapply cast_unary; [exact S|exists u, (r ++ fut); by split; [|destruct (type_of u)]|].
  intros t' S'. unfold proc_unary_expr. wstep. eapply wp_token; [exact S'|]. intros t2 T2.
  assert (G : wp (_ ← finsh_token_replay; proc_postfix_expr (Datatypes.S f) (A f)) Q (placed tab t2)); [|by destruct (type_of u)].
  wstep. apply wp_replay. eapply Hp; [apply taken_replay, T2|exact St|exact U|exact Hk|exact H].
Qed.

(** The operators that put a node above their operand. *)
Definition unary_op (ty : finsh_token_type) : option node_kind :=
  match ty with
  | T_inc => Some FINSH_NODE_SYS_PREINC | T_dec => Some FINSH_NODE_SYS_PREDEC | T_bitwise => Some FINSH_NODE_SYS_BITWISE
  | T_mul => Some FINSH_NODE_SYS_GETVALUE | T_and => Some FINSH_NODE_SYS_GETADDR | _ => None
  end.

Lemma unary_above (f : nat) (ty : finsh_token_type) (kind : node_kind) ts (e : expr) : unary_op ty = Some kind -> parses (C f) ts (elab e FNil) (stops 0) ->
  parses (C (S f)) (Sym ty :: ts) (FCons (sys_node kind) (elab e FNil) FNil) (stops 0).
Proof.
  intros Ho Hc fut tab t k Q S St U Hk H. cbn [fsize] in Hk.
  eapply cast_unary; [exact S|exists (Sym ty), (ts ++ fut); by destruct ty|].
  intros t' S'. unfold proc_unary_expr. wstep. eapply wp_token; [exact S'|]. intros t2 T2. cbn [type_of].
  assert (G : wp (cast ← C f; make_sys_node kind cast None) Q (placed tab t2)); [|by destruct ty; try done; injection Ho as <-].
  wstep. eapply Hc; [by eapply taken_stream|exact St|exact U|lia|]. intros p tab3 k3 t3 B3 S3. pose proof (built_end _ _ _ _ _ _ B3).
  eapply (above_ok _ e); [by destruct ty; try done; injection Ho as <-|exact B3|lia|]. intros p4 tab4 B4. by eapply H.
Qed.

Lemma unary_plus (f : nat) ts (e : expr) : parses (C f) ts (elab e FNil) (stops 0) ->
  parses (C (S f)) (Sym T_add :: ts) (elab e FNil) (stops 0).
Proof.
  intros Hc fut tab t k Q S St U Hk H. eapply cast_unary; [exact S|by exists (Sym T_add), (ts ++ fut)|].
  intros t' S'. unfold proc_unary_expr. wstep. eapply wp_token; [exact S'|]. intros t2 T2. cbn [type_of].
  eapply Hc; [by eapply taken_stream|exact St|exact U|exact Hk|exact H].
Qed.

(** A new leaf above which a node is put, with a tree that is there as its sibling. *)
Lemma leaf_before (ty : node_kind) x (e : expr) tab k p2 tab2 k2 tab1 p1 t (Q : option Z -> parser -> Prop) : ty <> FINSH_NODE_UNKNOWN ->
  built tab k p2 (elab e FNil) tab2 k2 -> built tab2 k2 p1 (FCons x FNil FNil) tab1 (S k2) -> (S k2 < 16)%nat ->
  (forall p tab3, built tab k p (FCons (sys_node ty) (FCons x FNil (elab e FNil)) FNil) tab3 (S (S k2)) -> Q p (placed tab3 t)) ->
  wp (make_sys_node ty p1 p2) Q (placed tab1 t).
Proof.
  intros Ht (U2 & E2 & O2 & ns2 & R2 & N2 & L2) (U1 & E1 & O1 & ns1 & R1 & N1 & L1) Hk H.
  assert (exists i1, p1 = Some i1) as [i1 ->] by (destruct R1 as (n & y & nc & nss & -> & _); by eexists).
  assert (R2' : repr tab1 p2 (elab e FNil) ns2) by (eapply repr_other; [|exact R2]; intros j Hj; apply O1; by apply L2).
  apply (wp_make s0 ty tab1 (S k2) i1 p2 x FNil (elab e FNil) ns1 ns2); try done.
  - apply NoDup_app. split; [done|]. split; [|done]. intros j Hj Hj2. specialize (L1 j Hj). specialize (L2 j Hj2). lia.
  - intros j [Hj|Hj]%elem_of_app; [specialize (L1 j Hj)|specialize (L2 j Hj)]; lia.
  - intros tab3 U3 O3 R3 N3. apply H. split; [done|]. split; [cbn; lia|]. split.
    { intros j Hj. rewrite O3; [rewrite O1 by lia; by apply O2|intros Hn; specialize (L1 j Hn); lia|lia]. }
    eexists. split; [exact R3|]. split; [done|].
    intros j [->|[Hj|Hj]%elem_of_app]%elem_of_cons; [lia|specialize (L1 j Hj); lia|specialize (L2 j Hj); lia].
Qed.

Lemma unary_minus (f : nat) ts (e : expr) : parses (C f) ts (elab e FNil) (stops 0) ->
  parses (C (S f)) (Sym T_sub :: ts) (elab (EBin Sub (EConst FINSH_NODE_VALUE_LONG 0) e) FNil) (stops 0).
Proof.
  intros Hc fut tab t k Q S St U Hk H. cbn [elab fsize] in Hk. eapply cast_unary; [exact S|by exists (Sym T_sub), (ts ++ fut)|].
  intros t' S'. unfold proc_unary_expr. wstep. eapply wp_token; [exact S'|]. intros t2 T2. cbn [type_of].
  wstep. eapply Hc; [by eapply taken_stream|exact St|exact U|lia|]. intros p tab3 k3 t3 B3 S3. pose proof (built_end _ _ _ _ _ _ B3).
  wstep. eapply wp_leaf; [by eapply built_used|lia|reflexivity|done|done|]. intros p4 tab4 B4.
  eapply (leaf_before _ _ e); [done|exact B3|exact B4|lia|]. intros p5 tab5 B5. by eapply H.
Qed.

(** ** Binary operators *)

Lemma parses_mono m ts f (p q : finsh_token_type -> Prop) : (forall ty, q ty -> p ty) -> parses m ts f p -> parses m ts f q.
Proof. intros H Hp fut tab t k Q S (u & r & -> & Hu) U Hk HQ. eapply Hp; [exact S|exists u, r; auto|done|done|done]. Qed.

(** Where the loop of a level is when it has read the text: at most [length ts] rounds
    further than at its start. *)
Definition loops (F f d : nat) ts (e : expr) : Prop :=
  exists c, (c <= length ts)%nat /\
  forall n fut tab t k (Q : option Z -> parser -> Prop), stream (ts ++ fut) t -> followed (stops d) fut ->
    used tab k -> (k + fsize (elab e FNil) <= 16)%nat ->
    (forall p tab' k' t', built tab k p (elab e FNil) tab' k' -> stream fut t' ->
       wp (token ← next_token; binary_loop (level_op d) (below F f d) n p token) Q (placed tab' t')) ->
    wp (left ← below F f d; token ← next_token; binary_loop (level_op d) (below F f d) (c + n) left token) Q (placed tab t).

Lemma loops_up (F f d : nat) ts (e : expr) : parses (below F f d) ts (elab e FNil) (stops d) -> loops F f d ts e.
Proof.
  intros Hp. exists 0%nat. split; [lia|]. intros n fut tab t k Q S St U Hk H. wstep. eapply Hp; [exact S|exact St|exact U|exact Hk|exact H].
Qed.

Lemma loops_binary (F f d : nat) (o : binop) ts1 ts2 (e1 e2 : expr) : op_height o = S d ->
  loops F f d ts1 e1 -> parses (below F f d) ts2 (elab e2 FNil) (stops d) -> loops F f d (ts1 ++ Sym (op_token o) :: ts2) (EBin o e1 e2).
Proof.
  intros Ho (c & Lc & Hl) Hp. exists (S c). split; [rewrite length_app; cbn [length]; lia|].
  intros n fut tab t k Q S St U Hk H. cbn [elab fsize] in Hk. rewrite fsize_elab in Hk. rewrite <- app_assoc in S. cbn [app] in S.
  replace (Datatypes.S c + n)%nat with (c + Datatypes.S n)%nat by lia.
  eapply Hl; [exact S|exists (Sym (op_token o)), (ts2 ++ fut); split; [done|by apply op_stops]|exact U|lia|].
  intros p1 tab1 k1 t1 B1 S1. pose proof (built_end _ _ _ _ _ _ B1). wstep. eapply wp_token; [exact S1|]. intros t2 T2.
  cbn [type_of binary_loop]. rewrite (level_op_kind o d Ho). wstep. 
  eapply Hp; [by eapply taken_stream|exact St|by eapply built_used|lia|]. intros p3 tab3 k3 t3 B3 S3. pose proof (built_end _ _ _ _ _ _ B3).
  destruct (elab_some _ _ _ _ _ _ B3) as (i3 & -> & _). wstep.
  eapply (join_ok _ e1); [by destruct o|exact B1|exact B3|lia|]. intros p4 tab4 B4. by eapply H.
Qed.

Lemma loops_parses (F f d : nat) ts (e : expr) : (d < 6)%nat -> (length ts < F)%nat -> loops F f d ts e ->
  parses (below F f (S d)) ts (elab e FNil) (stops (S d)).
Proof.
  intros Hd HF (c & Lc & Hl) fut tab t k Q S St U Hk H. cbn [below]. unfold proc_binary.
  specialize (Hl (Datatypes.S (F - Datatypes.S c))). replace (c + Datatypes.S (F - Datatypes.S c))%nat with F in Hl by lia.
  eapply Hl; [exact S|by eapply followed_mono, St; apply stops_up|exact U|exact Hk|]. intros p tab1 k1 t1 B1 S1.
  destruct St as (u & r & -> & Hu). wstep. eapply wp_token; [exact S1|]. intros t2 T2. cbn [binary_loop].
  rewrite (level_op_stops d) by done. wstep. apply wp_replay. wstep. eapply H; [exact B1|]. by apply taken_replay.
Qed.

(** Without an operator of its own, a level is the one below it. *)
Lemma below_up (F f d : nat) ts (e : expr) : (d < 6)%nat -> (length ts < F)%nat -> parses (below F f d) ts (elab e FNil) (stops d) ->
  parses (below F f (S d)) ts (elab e FNil) (stops (S d)).
Proof. intros Hd HF Hp. by apply loops_parses, loops_up. Qed.

Lemma below_six (F f : nat) ts (e : expr) : (length ts < F)%nat -> parses (C f) ts (elab e FNil) (stops 0) ->
  parses (below F f 6) ts (elab e FNil) (stops 6).
Proof. intros HF Hc. do 6 (apply below_up; [lia|done|]). done. Qed.

(** ** Assignments *)

Lemma assign_up (f : nat) ts (e : expr) : parses (below (S f) f 6) ts (elab e FNil) (stops 6) -> parses (A (S f)) ts (elab e FNil) (stops 7).
Proof.
  intros Hp fut tab t k Q S St U Hk H. cbn [proc_assign_expr]. wstep.
  eapply Hp; [exact S|by eapply followed_mono, St; apply stops_up|exact U|exact Hk|]. intros p tab1 k1 t1 B1 S1.
  destruct St as (u & r & -> & Hu). wstep. eapply wp_token; [exact S1|]. intros t2 T2.
  rewrite bool_decide_eq_false_2 by (intros E; rewrite E in Hu; cbn in Hu; lia). wstep. apply wp_replay. wstep.
  eapply H; [exact B1|]. by apply taken_replay.
Qed.

Lemma assign_ok (f : nat) ts1 ts2 (e1 e2 : expr) : parses (below (S f) f 6) ts1 (elab e1 FNil) (stops 6) ->
  parses (A f) ts2 (elab e2 FNil) (stops 7) ->
  parses (A (S f)) (ts1 ++ Sym T_assign :: ts2) (FCons (sys_node FINSH_NODE_SYS_ASSIGN) (elab e1 (elab e2 FNil)) FNil) (stops 7).
Proof.
  intros H1 H2 fut tab t k Q S St U Hk H. cbn [fsize] in Hk. rewrite fsize_elab in Hk. rewrite <- app_assoc in S. cbn [app] in S.
  cbn [proc_assign_expr]. wstep. eapply H1; [exact S|exists (Sym T_assign), (ts2 ++ fut); split; [done|cbn; lia]|exact U|lia|].
  intros p1 tab1 k1 t1 B1 S1. pose proof (built_end _ _ _ _ _ _ B1). wstep. eapply wp_token; [exact S1|]. intros t2 T2.
  rewrite bool_decide_eq_true_2 by done. wstep.
  eapply H2; [by eapply taken_stream|exact St|by eapply built_used|lia|]. intros p3 tab3 k3 t3 B3 S3. pose proof (built_end _ _ _ _ _ _ B3).
  eapply (join_ok _ e1); [done|exact B1|exact B3|lia|]. intros p4 tab4 B4. by eapply H.
Qed.

(** ** The whole grammar *)

Definition postfix_claim ts (e : expr) : Prop := forall F f, (length ts < F)%nat -> (2 * length ts <= f)%nat ->
  parses (proc_postfix_expr F (A f)) ts (elab e FNil) (stops 0).
Definition level_claim (d : nat) ts (e : expr) : Prop :=
  (d = 0%nat -> forall f, (2 * length ts < f)%nat -> parses (C f) ts (elab e FNil) (stops 0)) /\
  (forall d', d = S d' -> (d' < 6)%nat -> forall F f, (length ts < F)%nat -> (2 * length ts < f)%nat -> loops F f d' ts e) /\
  (d = 7%nat -> forall f, (2 * length ts + 1 < f)%nat -> parses (A f) ts (elab e FNil) (stops 7)).
Definition params_claim ts (es : args) : Prop := ts <> [] -> forall F f, (length ts < F)%nat -> (2 * length ts + 1 < f)%nat ->
  parses (proc_param_list F (A f)) ts (elabs es) (eq T_right_paren).
Definition some_claim ts (es : args) : Prop := ts <> [] /\ params_claim ts es /\
  forall n f, (length ts <= n)%nat -> (2 * length ts + 1 < f)%nat -> more_parses (next_param (A f) n) ts (elabs es).

Lemma level_parses (F f d : nat) ts (e : expr) : level_claim d ts e -> (d <= 6)%nat -> (length ts < F)%nat -> (2 * length ts < f)%nat ->
  parses (below F f d) ts (elab e FNil) (stops d).
Proof.
  intros (H0 & H1 & _) Hd HF Hf. destruct d as [|d]; [by apply H0|]. apply loops_parses; [lia|done|]. by apply H1.
Qed.

Lemma zero_claim ts (e : expr) : (forall f, (2 * length ts < f)%nat -> parses (C f) ts (elab e FNil) (stops 0)) -> level_claim 0 ts e.
Proof. intros H. by split_and!. Qed.
Lemma seven_claim ts (e : expr) : (forall f, (2 * length ts + 1 < f)%nat -> parses (A f) ts (elab e FNil) (stops 7)) -> level_claim 7 ts e.
Proof. intros H. split_and!; [done|by intros d' [= <-] ?; lia|done]. Qed.

Lemma name_cast n r (f : nat) : names vars n r -> (1 < f)%nat -> parses (C f) [Name n] (elab (EId r) FNil) (stops 0).
Proof.
  intros Hn Hf. destruct f as [|f]; [lia|]. apply cast_postfix; [by exists (Name n), []|]. apply postfix_leaf; [by constructor|lia].
Qed.

Lemma unary_claim (ty : finsh_token_type) (kind : node_kind) ts (e e' : expr) : unary_op ty = Some kind ->
  elab e' FNil = FCons (sys_node kind) (elab e FNil) FNil -> (forall f, (2 * length ts < f)%nat -> parses (C f) ts (elab e FNil) (stops 0)) ->
  level_claim 0 (Sym ty :: ts) e'.
Proof.
  intros Ho E Hp. apply zero_claim. intros [|f] Hf; cbn [length] in Hf; [lia|]. rewrite E. apply unary_above; [done|]. apply Hp. lia.
Qed.

Lemma level_up_claim d ts (e : expr) : (d < 7)%nat -> level_claim d ts e -> level_claim (S d) ts e.
Proof.
  intros Hd Hl. split_and!; [done| |].
  - intros d' [= <-] Hd' F f HF Hf. apply loops_up. by apply level_parses; [|lia|..].
  - intros [= ->] [|f] Hf; [lia|]. apply assign_up. apply level_parses; [done|lia..].
Qed.

Lemma grammar_parses :
  (forall ts e, postfix vars ts e -> postfix_claim ts e) /\
  (forall d ts e, level vars d ts e -> level_claim d ts e) /\
  (forall ts es, params vars ts es -> params_claim ts es) /\
  (forall ts es, some_params vars ts es -> some_claim ts es).
Proof.
  apply grammar_ind.
  - intros v Hv F f HF Hf. apply postfix_leaf; [by constructor|lia].
  - intros v Hv F f HF Hf. apply postfix_leaf; [by constructor|lia].
  - intros c F f HF Hf. apply postfix_leaf; [by constructor|lia].
  - intros F f HF Hf. apply postfix_leaf; [by constructor|lia].
  - intros n r Hn F f HF Hf. apply postfix_leaf; [by constructor|lia].
  - intros n i Hn F f HF Hf. apply (postfix_step_ok n i false); [done|cbn in HF; lia].
  - intros n i Hn F f HF Hf. apply (postfix_step_ok n i true); [done|cbn in HF; lia].
  - intros n c ts es Hn Hp IH F f HF Hf. cbn [length] in HF, Hf. rewrite length_app in HF, Hf. cbn [length] in HF, Hf.
    destruct Hp as [|ts es Hs]; [apply call_none; [done|lia]|]. pose proof (proj2 (proj2 (proj2 first_ok)) _ _ Hs) as Hf1.
    apply call_some; [done|lia|done|]. apply IH; [by destruct Hf1 as (u & r & -> & _)|lia..].
  - intros ts e Hp IH. apply zero_claim. intros [|f] Hf; [lia|]. apply cast_postfix; [by eapply (proj1 first_ok)|].
    pose proof (proj1 first_ok _ _ Hp) as (u & r & -> & _). apply IH; cbn [length] in *; lia.
  - intros ts e _ (IH & _). apply zero_claim. intros [|f] Hf; cbn [length] in Hf; [lia|]. apply unary_plus, IH; [done|lia].
  - intros ts e _ (IH & _). apply zero_claim. intros [|f] Hf; cbn [length] in Hf; [lia|]. apply unary_minus, IH; [done|lia].
  - intros ts e _ (IH & _). by eapply (unary_claim _ _ ts e); [..|apply IH].
  - intros ts e _ (IH & _). by eapply (unary_claim _ _ ts e); [..|apply IH].
  - intros n r Hn. eapply (unary_claim _ _ _ (EId r)); [done..|]. intros f Hf. apply name_cast; [done|cbn in Hf; lia].
  - intros n i Hn. eapply (unary_claim _ _ _ (EId (IdVar i))); [done..|]. intros f Hf. apply name_cast; [done|cbn in Hf; lia].
  - intros n i Hn. eapply (unary_claim _ _ _ (EId (IdVar i))); [done..|]. intros f Hf. apply name_cast; [done|cbn in Hf; lia].
  - intros d o ts1 ts2 e1 e2 Ho _ (_ & IH1 & _) _ IH2. assert (Hd : (d < 6)%nat) by (destruct o; injection Ho as <-; lia).
    split_and!; [done| |intros [= ->]; lia]. intros d' [= <-] _ F f HF Hf. rewrite length_app in HF, Hf. cbn [length] in HF, Hf.
    apply loops_binary; [done|apply IH1; [done|done|lia..]|]. apply level_parses; [done|lia..].
  - intros n r ts e Hn _ (_ & _ & IH). apply seven_claim. intros [|f] Hf; cbn [length] in Hf; [lia|].
    apply (assign_ok f [Name n] ts (EId r) e); [|apply IH; [done|lia]]. apply below_six; [cbn; lia|]. apply name_cast; [done|lia].
  - intros ts1 ts2 p e _ (IH1 & _) _ (_ & _ & IH2). apply seven_claim. intros [|f] Hf; [lia|].
    cbn [length] in Hf. rewrite length_app in Hf. cbn [length] in Hf.
    apply (assign_ok f (Sym T_mul :: ts1) ts2 (EDeref p) e); [|apply IH2; [done|lia]]. apply below_six; [cbn; lia|].
    destruct f as [|f]; [lia|]. apply unary_above; [done|]. apply IH1; [done|lia].
  - intros d ts e Hd _ IH. by apply level_up_claim.
  - by intros [].
  - intros ts es _ (N & IH & _). exact IH.
  - intros ts e Hl (_ & _ & IH). pose proof (proj1 (proj2 first_ok) _ _ _ Hl) as (u & r & -> & _). split_and!; [done| |].
    + intros _ F f HF Hf. apply params_one_ok; [lia|]. by apply IH.
    + intros [|n] f Hn Hf; [cbn in Hn; lia|]. apply param_one. by apply IH.
  - intros ts ts' e es _ (_ & _ & IH) _ (N & IH1 & IH2). split_and!; [by destruct ts| |].
    + intros _ [|F] f HF Hf; rewrite length_app in HF, Hf; cbn [length] in HF, Hf; [lia|]. apply params_more_ok; [apply IH; [done|lia]|apply IH2; lia].
    + intros [|n] f Hn Hf; rewrite length_app in Hn, Hf; cbn [length] in Hn, Hf; [lia|]. apply param_more; [apply IH; [done|lia]|apply IH2; lia].
Qed.

(** ** Statements *)

Lemma starts_not_decl (ty : finsh_token_type) : starts ty -> is_base_type ty || bool_decide (ty = T_unsigned) = false.
Proof. by destruct ty. Qed.

Lemma statement_ok (f : nat) ts (e : expr) fut tab t k (Q : option Z -> parser -> Prop) : level vars 7 ts e -> (2 * length ts + 1 < f)%nat ->
  stream (ts ++ Sym T_semicolon :: fut) t -> used tab k -> (k + fsize (elab e FNil) <= 16)%nat ->
  (forall p tab' k' t', built tab k p (elab e FNil) tab' k' -> stream fut t' -> Q p (placed tab' t')) ->
  wp (proc_expr_statement f) Q (placed tab t).
Proof.
  intros Hl Hf S U Hk H. destruct (level_first _ _ _ [] Hl) as (u & r & E & Hu). rewrite app_nil_r in E.
  destruct (proj1 (proj2 grammar_parses) _ _ _ Hl) as (_ & _ & Hp). subst ts.
  unfold proc_expr_statement, proc_expr. wstep. eapply wp_token; [exact S|]. intros t1 T1.
  rewrite bool_decide_eq_false_2 by (intros Es; by rewrite Es in Hu). wstep. apply wp_replay. wstep.
  eapply (Hp eq_refl f Hf); [apply taken_replay, T1|by eexists _, _|exact U|exact Hk|]. intros p tab2 k2 t2 B2 S2.
  wstep. change T_semicolon with (type_of (Sym T_semicolon)). eapply wp_match; [exact S2|]. intros t3 T3.
  wstep. eapply H; [exact B2|by eapply taken_stream].
Qed.

End Parse.

Section Line.
Context {SY : Symbols} {HA : HeapAddress}.
Implicit Types (s : parser) (tab : list finsh_node) (k : nat) (t : finsh_token) (ts fut : list tok).

(** A round of the loop of the parser that meets an expression. *)
Lemma round_ok (n f : nat) node ts s tab t (Q : unit -> parser -> Prop) : first starts ts -> stream ts t ->
  (forall t', stream ts t' -> wp (add_statement node (proc_expr_statement f)) (fun r s' =>
     (exists i, fst r = Some i) /\ snd r = true /\ root s' <> None /\ wp (token ← next_token; parser_loop n f (fst r) token) Q s') (placed tab t' s)) ->
  wp (token ← next_token; parser_loop (S n) f node token) Q (placed tab t s).
Proof.
  intros (u & r & -> & Hu) S H. wstep. eapply wp_token; [exact S|]. intros t1 T1. cbn [parser_loop].
  assert (G : wp (_ ← finsh_token_replay; '(node, added) ← add_statement node (proc_expr_statement f);
     _ ← (if bool_decide (type_of u = T_identifier) || (added : bool) then mret tt else _ ← next_token; mret tt);
     r ← gets root; match r with None => mret tt | Some _ => token ← next_token; parser_loop n f node token end) Q (placed tab t1 s)).
  { wstep. apply wp_replay. wstep. eapply wp_mono; [apply H, taken_replay, T1|]. cbn beta. intros [nd added] s' ((i & Ei) & Ea & Rs & W).
    cbn [fst snd] in *. subst nd added. wstep. rewrite orb_true_r. do 3 wstep. destruct (root s'); [exact W|done]. }
  by destruct (type_of u).
Qed.

Lemma loop_end (n f : nat) node s tab t (Q : unit -> parser -> Prop) : stream [] t -> (forall t', Q tt (placed tab t' s)) ->
  wp (token ← next_token; parser_loop (S n) f node token) Q (placed tab t s).
Proof. intros S H. wstep. eapply next_end; [exact S|]. intros t'. cbn [parser_loop]. wstep. apply (H t'). Qed.

(** The loop behind the first statements. *)
Lemma statements_loop_ok s ts es : program (global_variable (p_finsh s)) ts es -> root s <> None ->
  forall n f tab0 k0 p g i tab k t (Q : unit -> parser -> Prop), (length es < n)%nat -> (2 * length ts + 1 < f)%nat ->
  stream ts t -> built tab0 k0 p g tab k -> ends tab p g i -> (k + fsize (elab_stmts es) <= 16)%nat ->
  (forall tab' k' t', built tab0 k0 p (fjoin g (elab_stmts es)) tab' k' -> Q tt (placed tab' t' s)) ->
  wp (token ← next_token; parser_loop n f (Some i) token) Q (placed tab t s).
Proof.
  intros Hp Hr. induction Hp as [|ts e ts' es Hl Hp IH]; intros [|n] f tab0 k0 p g i tab k t Q Hn Hf S B E Hk H; try (cbn in Hn; lia).
  - apply loop_end; [exact S|]. intros t'. eapply H. cbn. rewrite fjoin_nil. exact B.
  - cbn [elab_stmts] in *. rewrite fsize_elab in Hk. rewrite length_app in Hf. cbn [length] in Hf, Hn.
    eapply round_ok; [by apply (level_first s 7 ts e)|exact S|]. intros t1 S1. unfold add_statement. do 2 wstep. change (root (placed tab t1 s)) with (root s).
    destruct (root s) as [r0|] eqn:Er; [|done]. wstep.
    eapply (statement_ok s); [exact Hl|lia|exact S1|by eapply built_used|lia|]. intros p2 tab2 k2 t2 B2 S2.
    pose proof (built_end _ _ _ _ _ _ B2). destruct (elab_some _ _ _ _ _ _ B2) as (i2 & -> & _).
    wstep. eapply wp_lift_ok; [reflexivity|]. wstep. eapply wp_link; [exact B|exact E|exact B2|]. intros tab3 B3 E3. wstep.
    cbn [fst snd]. split; [by eexists|]. split; [done|]. split; [cbn; by rewrite Er|].
    eapply IH; [lia|lia|exact S2|exact B3|exact E3|lia|]. intros tab4 k4 t4 B4. rewrite fjoin_assoc, fjoin_elab in B4. by eapply H.
Qed.

(** A token is not empty. *)
Lemma rendered_length text ts : rendered text ts -> (length ts <= length text)%nat.
Proof.
  induction 1 as [|b w rest t ts Fb Sp _ _ IH]; [cbn; lia|]. rewrite !length_app. cbn [length].
  enough (w <> []) by (destruct w; [done|cbn [length]; lia]). intros ->. inversion Sp as [w t' H|n t' H|n H| | | | | | | | ]; subst.
  - assert (F : Forall (fun e => fst e <> []) operators) by (by repeat constructor).
    rewrite Forall_forall in F. by apply F in H.
  - by destruct (keyword_name _ _ H) as (c & n' & [=] & _).
  - by destruct H as (c & n' & [=] & _).
Qed.

Lemma program_length (vars : list finsh_var) ts es : program vars ts es -> (length es <= length ts)%nat.
Proof. induction 1; [done|]. rewrite length_app. cbn [length]. lia. Qed.

Lemma used_start : used (replicate 16 node_empty) 0.
Proof. split; [done|lia|intros i x Hi; lia|]. intros i Hi. apply lookup_replicate_2; lia. Qed.

(** The state of the shell between two lines. *)
Record ready s : Prop := {
  ready_nodes : global_node_table (p_finsh s) = replicate 16 node_empty;
  ready_root : root s = None }.

(** [finsh_parser_run] on a line of statements. *)
Lemma parser_builds text post ts es s (fuel : nat) (Q : unit -> parser -> Prop) :
  rendered text ts -> Forall plain text -> len text < 128 -> program (global_variable (p_finsh s)) ts es -> es <> [] ->
  (fsize (elab_stmts es) <= 16)%nat -> (2 * length text + 1 < fuel)%nat -> ready s ->
  (forall p tab t, built (replicate 16 node_empty) 0 p (elab_stmts es) tab (fsize (elab_stmts es)) -> Q tt (placed tab t (with_root p s))) ->
  wp (finsh_parser_run fuel (text ++ 0 :: post)) Q s.
Proof.
  intros R Pl Lt Hp Ne Hk Hf [Nd Rt] H. pose proof (rendered_length _ _ R) as Lts. pose proof (program_length _ _ _ Hp) as Les.
  unfold finsh_parser_run. wstep. unfold finsh_token_init. apply wp_upd.
  set (t0 := FinshToken false false 0 T_none 0 (replicate 128 0) (text ++ 0 :: post)).
  assert (E0 : with_token t0 s = placed (replicate 16 node_empty) t0 s).
  { rewrite <- Nd. by destruct s as [? ? ? ? []]. }
  rewrite E0. assert (S0 : stream ts t0).
  { left. split; [done|]. exists text. split; [|done]. split; [done| |done]. by exists [], post. }
  clearbody t0. clear E0. destruct Hp as [|ts e ts' es Hl Hp]; [done|]. cbn [elab_stmts] in *. rewrite fsize_elab in *.
  rewrite length_app in Lts, Les. cbn [length] in Lts, Les. destruct fuel as [|n]; [lia|].
  eapply round_ok; [by apply (level_first s 7 ts e)|exact S0|]. intros t1 S1. unfold add_statement. do 2 wstep.
  change (root (placed (replicate 16 node_empty) t1 s)) with (root s). rewrite Rt. wstep.
  eapply (statement_ok s); [exact Hl|lia|exact S1|exact used_start|lia|]. intros p2 tab2 k2 t2 B2 S2.
  pose proof (built_end _ _ _ _ _ _ B2) as Ek. destruct (elab_some _ _ _ _ _ _ B2) as (i2 & -> & E2). do 3 wstep.
  cbn [fst snd]. split; [by eexists|]. split; [done|]. split; [done|].
  change (with_root (Some i2) (placed tab2 t2 s)) with (placed tab2 t2 (with_root (Some i2) s)).
  eapply (statements_loop_ok (with_root (Some i2) s)); [exact Hp|done|lia|lia|exact S2|exact B2|exact E2|lia|].
  intros tab4 k4 t4 B4. rewrite fjoin_elab in B4. cbn [fjoin] in B4. apply H.
  pose proof (built_end _ _ _ _ _ _ B4) as Ek4. rewrite fsize_elab in Ek4. by rewrite Ek4 in B4.
Qed.

(** C15: from the bytes of a line whose tokens are statements of the grammar of FinshGrammar.v
    (without parentheses around an operand, casts, strings and declarations), the parser builds
    their syntax trees, one behind the other, in the node table, as [root] the first; it
    ends, sets no error and changes nothing else. *)
Theorem finsh_parser_run_ok text post ts es s (fuel : nat) :
  rendered text ts -> Forall plain text -> len text < 128 -> program (global_variable (p_finsh s)) ts es -> es <> [] ->
  (fsize (elab_stmts es) <= 16)%nat -> (2 * length text + 1 < fuel)%nat -> ready s ->
  wp (finsh_parser_run fuel (text ++ 0 :: post)) (fun _ s' => exists tab ns,
    p_finsh s' = with_nodes tab (p_finsh s) /\ repr tab (root s') (elab_stmts es) ns /\ NoDup ns /\
    length tab = 16%nat /\ (forall i, (fsize (elab_stmts es) <= i < 16)%nat -> tab !! i = Some node_empty) /\
    free_list s' = free_list s /\ allocate_list s' = allocate_list s) s.
Proof.
  intros R Pl Lt Hp Ne Hk Hf Rd. eapply parser_builds; [done..|]. intros p tab t (U & _ & _ & ns & Rp & N & _).
  exists tab, ns. split; [done|]. split; [exact Rp|]. split; [done|]. split; [by destruct U|]. split; [by destruct U|done].
Qed.

Context {FN : Functions} {FO : FunctionsOk}.

Lemma wp_on_finsh {X} (m : ST finsh X) s (Q : X -> parser -> Prop) :
  wp m (fun x f => Q x (with_finsh f s)) (p_finsh s) -> wp (on_finsh m) Q s.
Proof. unfold wp, on_finsh. by destruct (m _) as [[x f]| |]. Qed.

(** C14: a line of well-typed statements of the grammar of FinshGrammar.v, with less than 128
    bytes and at most 16 nodes, is run as it is written: from its bytes to the value that is
    printed (of which, where the type is char or short, the low bytes are claimed), through the tokenizer, the parser, the type check, the compiler and the
    machine, it gives what the reference semantics of its statements gives, leaves the
    memory they leave, and the shell ready for the next line. *)
Theorem run_line_ok text post ts es (a : Z) (m' : mem) s (fuel : nat) :
  let vars := global_variable (p_finsh s) in
  rendered text ts -> Forall plain text -> len text < 128 -> program vars ts es -> es <> [] ->
  (fsize (elab_stmts es) <= 16)%nat -> (2 * length text + 1 < fuel)%nat -> ready s ->
  Forall (fun e => wt vars e /\ depth e <= FINSH_STACK_MAX) es -> len (prog_code vars es) <= FINSH_TEXT_MAX ->
  len (finsh_vm_stack (f_vm (p_finsh s))) = FINSH_STACK_MAX -> global_errno (p_finsh s) = FINSH_ERROR_OK ->
  mapped vars (vm_mem (f_vm (p_finsh s))) -> eval_prog vars es (vm_mem (f_vm (p_finsh s))) = Ok (a, m') ->
  let d := prec vars (last_expr es) in
  wp (run_line fuel (text ++ 0 :: post)) (fun r s' =>
    (exists x, r = Some x /\ norm d x = a /\ (d = FINSH_DATA_TYPE_DWORD -> x = a)) /\
    vm_mem (f_vm (p_finsh s')) = m' /\ global_variable (p_finsh s') = vars /\ global_errno (p_finsh s') = FINSH_ERROR_OK /\
    ready s') s.
Proof.
  intros vars R Pl Lt Hp Ne Hk Hf Rd F L Lk He M E d. unfold run_line. wstep.
  eapply parser_builds; [done..|]. intros p tab t (U & _ & _ & ns & Rp & N & _). do 3 wstep. apply wp_on_finsh.
  eapply wp_mono; [eapply (finsh_run_line_ok es p ns a m'); try done; cbn; by rewrite (used_length _ _ U)|].
  cbn beta. intros r f (Hr & Hm & Hv & Hn & Ht). unfold finsh_parser_init. do 3 wstep. split_and!; try done.
Qed.

End Line.

(** ** An example *)

Module Demo.

Definition a : finsh_syscall := FinshSyscall 0 [97; 0] 256.

#[local] Instance symbols : Symbols := {|
  sysvar_table := []; global_sysvar_list := []; syscall_table := [a]; global_syscall_list := [];
  global_variable_addr := 0x20000000 |}.

#[local] Instance functions : Functions := {|
  call_function f args m := if f =? 256 then mret (foldr Z.add 0 args, m) else Fault |}.

#[local] Instance functions_ok : FunctionsOk.
Proof. split. intros f r args m m' E. cbn in E. destruct (f =? 256); [|done]. injection E as _ <-. apply grows_refl. Qed.

#[local] Instance heap : HeapAddress := {| finsh_heap := 0x20001000 |}.

(** [int x], and seven entries that are free. *)
Definition vars : list finsh_var := FinshVar [120; 0] finsh_type_int :: replicate 7 (FinshVar (replicate 16 0) finsh_type_unknown).

(** [x] is 41. *)
Definition memory : mem := list_to_map ((fun i => (0x20000000 + i, if i =? 20 then 41 else 0)) <$> seqZ 0 192).

Definition shell : parser :=
  Parser (FinshToken false false 0 T_none 0 (replicate 128 0) []) None 0x20001000 0
    (Finsh (replicate 16 node_empty) vars 0 0 (Vm (replicate 64 0) 0 (replicate 128 0) 0 memory)).

(** The bytes of [x = x + 1; a(x, 2);], its tokens and its statements. *)
Definition text : list Z := [120; 32; 61; 32; 120; 32; 43; 32; 49; 59; 32; 97; 40; 120; 44; 32; 50; 41; 59].
Definition toks : list tok := [
  Name [120]; Sym T_assign; Name [120]; Sym T_add; Int 1; Sym T_semicolon;
  Name [97]; Sym T_left_paren; Name [120]; Sym T_comma; Int 2; Sym T_right_paren; Sym T_semicolon].
Definition line : list expr := [
  EAssign (IdVar 0) (EBin Add (EId (IdVar 0)) (EConst FINSH_NODE_VALUE_INT 1));
  ECall a (ACons (EId (IdVar 0)) (ACons (EConst FINSH_NODE_VALUE_INT 2) ANil))].

(** What is printed for a line, and what is in [x] then. *)
Definition shown (l : list Z) : option Z := match run_line 60 l shell with Ok (r, _) => r | _ => None end.
Definition x_after (l : list Z) : res Z := '(_, s) ← run_line 60 l shell; load32 (vm_mem (f_vm (p_finsh s))) 0x20000014.

(** [1+2*3;] is 7; [(1+2)*3;] is an error: a parenthesis at the start of an operand is a cast. *)
Lemma parentheses_are_casts :
  shown [49; 43; 50; 42; 51; 59; 0] = Some 7 /\ shown [40; 49; 43; 50; 41; 42; 51; 59; 0] = None.
Proof. by split; vm_compute. Qed.

(** [x = 1;] sets [x]; behind [int y;] it is not read. *)
Lemma declaration_ends_line :
  x_after [120; 32; 61; 32; 49; 59; 0] = Ok 1 /\ x_after [105; 110; 116; 32; 121; 59; 32; 120; 32; 61; 32; 49; 59; 0] = Ok 41.
Proof. by split; vm_compute. Qed.

(** [int y=1,z=2;z;] prints 0: the statement behind the list takes the place of [z=2]. *)
Lemma declaration_list_is_lost : shown [105; 110; 116; 32; 122; 61; 50; 59; 122; 59; 0] = Some 2 /\
  shown [105; 110; 116; 32; 121; 61; 49; 44; 122; 61; 50; 59; 122; 59; 0] = Some 0.
Proof. by split; vm_compute. Qed.

(** [0x10;] is 16; in [0x10L;] the suffix is a digit; [0L;] is an error. *)
Lemma long_suffix_of_hex : shown [48; 120; 49; 48; 59; 0] = Some 16 /\ shown [48; 120; 49; 48; 76; 59; 0] = Some 284 /\
  shown [48; 76; 59; 0] = None.
Proof. by split_and!; vm_compute. Qed.

(** ['\113';] is 0, and not the 75 of its octal number. *)
Lemma octal_character : shown [39; 92; 49; 49; 51; 39; 59; 0] = Some 0.
Proof. by vm_compute. Qed.

Ltac symbol := apply spells_operator; by apply (bool_decide_unpack _).
Ltac name := apply spells_name;
  [eexists _, _; repeat split; try done; repeat constructor; done|
   intros [? H]; unfold finsh_name_table in H; repeat (apply elem_of_cons in H as [[=]|H]); by apply not_elem_of_nil in H].
Ltac number d := apply (spells_decimal d []); [lia|constructor|done].
Ltac token b w := refine (rendered_token b w _ _ _ _ _ _ _);
  [repeat constructor|lazymatch w with [?d] => first [symbol|name|number d] end|first [exact I|by (cbn; eexists _, _)]|].

Lemma rendered_line : rendered text toks.
Proof.
  token (@nil Z) [120]. token [32] [61]. token [32] [120]. token [32] [43]. token [32] [49]. token (@nil Z) [59].
  token [32] [97]. token (@nil Z) [40]. token (@nil Z) [120]. token (@nil Z) [44]. token [32] [50]. token (@nil Z) [41]. token (@nil Z) [59].
  constructor. constructor.
Qed.

Tactic Notation "up" integer(n) := do n (apply level_up; [lia|]).

Lemma program_line : program vars toks line.
Proof.
  assert (Hx : names vars [120] (IdVar 0)) by (by vm_compute). assert (Ha : names vars [97] (IdSyscall a)) by (by vm_compute).
  apply (program_more vars (take 5 toks) _ (drop 6 toks)).
  - apply level_assign; [done|]. up 5. apply (level_binary vars 1 Add [Name [120]] [Int 1]); [done| |].
    + up 2. by do 2 constructor.
    + up 1. by do 2 constructor.
  - apply (program_more vars (take 6 (drop 6 toks)) _ []); [|constructor]. up 7. constructor.
    apply (postfix_call vars [97] a [Name [120]; Sym T_comma; Int 2]); [done|]. constructor.
    apply (params_more vars [Name [120]] [Int 2]); [up 7; by do 2 constructor|]. constructor. up 7. by do 2 constructor.
Qed.

Lemma shell_ready : ready shell.
Proof. done. Qed.

Lemma statements_wt : Forall (fun e => wt vars e /\ depth e <= FINSH_STACK_MAX) line.
Proof. repeat constructor; cbn; try done; try (unfold width_ok; vm_compute; lia). all: by vm_compute; intros. Qed.

Lemma shell_mapped : mapped vars memory.
Proof.
  intros i x k Hi Hk. assert (K : k = 0 \/ k = 1 \/ k = 2 \/ k = 3) by lia. apply lookup_lt_Some in Hi. cbn in Hi.
  do 8 (destruct i as [|i]; [destruct K as [-> | [-> | [-> | ->]]]; vm_compute; eauto|]). lia.
Qed.

Lemma finsh_parser_run_ok_witness :
  wp (finsh_parser_run 40 (text ++ [0])) (fun _ s' => exists tab ns,
    p_finsh s' = with_nodes tab (p_finsh shell) /\ repr tab (root s') (elab_stmts line) ns /\ NoDup ns /\
    length tab = 16%nat /\ (forall i, (9 <= i < 16)%nat -> tab !! i = Some node_empty) /\
    free_list s' = free_list shell /\ allocate_list s' = allocate_list shell) shell.
Proof.
  apply (finsh_parser_run_ok text [] toks line shell 40).
  - exact rendered_line.
  - repeat constructor; lia.
  - done.
  - exact program_line.
  - done.
  - by vm_compute; lia.
  - cbn; lia.
  - exact shell_ready.
Defined.

Lemma run_line_ok_witness : exists m',
  wp (run_line 40 (text ++ [0])) (fun r s' =>
    (exists x, r = Some x /\ norm 3 x = 44 /\ (3 = FINSH_DATA_TYPE_DWORD -> x = 44)) /\
    vm_mem (f_vm (p_finsh s')) = m' /\ global_variable (p_finsh s') = vars /\ global_errno (p_finsh s') = FINSH_ERROR_OK /\
    ready s') shell /\ load32 m' 0x20000014 = Ok 42.
Proof.
  eexists. split.
  - apply (run_line_ok text [] toks line 44 _ shell 40).
    + exact rendered_line.
    + repeat constructor; lia.
    + done.
    + exact program_line.
    + done.
    + by vm_compute; lia.
    + cbn; lia.
    + exact shell_ready.
    + exact statements_wt.
    + by vm_compute.
    + done.
    + done.
    + exact shell_mapped.
    + vm_compute. reflexivity.
  - by vm_compute.
Defined.

End Demo.
