(* ===== verification/Msh.v ===== *)
(** * The module shell (Finsh/msh.c)

    The splitting of a command line into arguments, the search for the command and its
    execution, and the completion of a command name.  A pointer into the line is an
    offset of its buffer; the strings of the table are lists of bytes with their NUL.
    Running a command, a script, changing the directory and the console are behind
    [Environment]: the commands are code of their own, scripts, directories and the
    completion of file names work on the virtual file system. *)

From Stdlib Require Import Lia.
From S2P Require Import Prelude KState KService FinshVm FinshCompiler.

Definition RT_FINSH_ARG_MAX : Z := 10.

(** What the shell finds around it: its commands, by the number of their entry; scripts;
    directories; the console, which gets the texts of [rt_kprintf] (what it takes of a text
    that is longer than the buffer of [rt_kprintf] is up to it). *)
Class Environment (W : Type) := {
  run_command : Z -> Z -> list (option Z) -> list Z -> ST W Z;
  exec_script : list Z -> Z -> ST W Z;
  change_dir : list Z -> ST W Z;
  console_puts : list Z -> ST W unit;
  msh_help : ST W unit;
  msh_auto_complete_path : list Z -> Z -> ST W (list Z);
}.

(** ** Splitting *)

Definition is_blank (c : Z) : bool := (c =? 32) || (c =? 9).

Section Split.
Variables (cmd length : Z).

(** [ptr] is [cmd + position] in all loops; they read [*ptr] before they test
    [position]. *)
Fixpoint strip_blanks (fuel : nat) (buf : list Z) (position : Z) : res (list Z * Z) :=
  match fuel with
  | O => AssertFail
  | S fuel =>
      c ← load_at buf (cmd + position);
      if is_blank c && (position <? length) then
        buf ← store_at buf (cmd + position) 0;
        strip_blanks fuel buf (position + 1)
      else mret (buf, position)
  end.

Fixpoint skip_string (fuel : nat) (buf : list Z) (position : Z) : res Z :=
  match fuel with
  | O => AssertFail
  | S fuel =>
      c ← load_at buf (cmd + position);
      if negb (c =? 34) && (position <? length) then
        escaped ← (if c =? 92 then d ← load_at buf (cmd + position + 1); mret (d =? 34) else mret false);
        skip_string fuel buf ((if escaped : bool then position + 1 else position) + 1)
      else mret position
  end.

Fixpoint skip_word (fuel : nat) (buf : list Z) (position : Z) : res Z :=
  match fuel with
  | O => AssertFail
  | S fuel =>
      c ← load_at buf (cmd + position);
      if negb (is_blank c) && (position <? length) then skip_word fuel buf (position + 1) else mret position
  end.

Fixpoint split_loop (fuel : nat) (buf : list Z) (position : Z) (argv : list (option Z)) (argc : Z) :
  res (list Z * list (option Z) * Z) :=
  match fuel with
  | O => AssertFail
  | S fuel' =>
      if position <? length then
        '(buf, position) ← strip_blanks fuel buf position;
        if length <=? position then mret (buf, argv, argc) else
        c ← load_at buf (cmd + position);
        if c =? 34 then
          let position := position + 1 in
          argv ← store_at argv argc (Some (cmd + position));
          position ← skip_string fuel buf position;
          if length <=? position then mret (buf, argv, argc + 1) else
          buf ← store_at buf (cmd + position) 0;
          split_loop fuel' buf (position + 1) argv (argc + 1)
        else
          argv ← store_at argv argc (Some (cmd + position));
          position ← skip_word fuel buf position;
          if length <=? position then mret (buf, argv, argc + 1) else
          split_loop fuel' buf position argv (argc + 1)
      else mret (buf, argv, argc)
  end.

End Split.

(** The line and the arguments afterwards, and their number. *)
Definition msh_split (buf : list Z) (cmd length : Z) (argv : list (option Z)) : res (list Z * list (option Z) * Z) :=
  split_loop cmd length (S (List.length buf)) buf 0 argv 0.

(** ** Commands *)

Definition CMD_PREFIX : list Z := [95; 95; 99; 109; 100; 95; 0].

(** A null pointer is 0. *)
Fixpoint msh_get_cmd (t : list finsh_syscall) (cmd : list Z) (size : Z) : res Z :=
  match t with
  | [] => mret 0
  | x :: t =>
      r ← Str.rt_strncmp (sc_name x) CMD_PREFIX 6;
      if negb (r =? 0) then msh_get_cmd t cmd size else
      r ← Str.rt_strncmp (drop 6 (sc_name x)) cmd size;
      c ← (if r =? 0 then load_at (sc_name x) (6 + size) else mret 1);
      if c =? 0 then mret (sc_func x) else msh_get_cmd t cmd size
  end.

(** The number of bytes of the first word. *)
Fixpoint cmd0_loop (fuel : nat) (buf : list Z) (cmd cmd0_size length : Z) : res Z :=
  match fuel with
  | O => AssertFail
  | S fuel =>
      c ← load_at buf (cmd + cmd0_size);
      if negb (is_blank c) && (cmd0_size <? length) then cmd0_loop fuel buf cmd (cmd0_size + 1) length
      else mret cmd0_size
  end.

Section Exec.
Context {W : Type} {EV : Environment W} {SY : Symbols}.

(** The line, the status and what is left in [retp]. *)
Definition _msh_exec_cmd (buf : list Z) (cmd length : Z) : ST W (list Z * Z * Z) :=
  cmd0_size ← lift (cmd0_loop (S (List.length buf)) buf cmd 0 length);
  if cmd0_size =? 0 then mret (buf, - RT_ERROR, 0) else
  cmd_func ← lift (msh_get_cmd syscall_table (drop (Z.to_nat cmd) buf) cmd0_size);
  if cmd_func =? 0 then mret (buf, - RT_ERROR, 0) else
  '(buf, argv, argc) ← lift (msh_split buf cmd length (replicate (Z.to_nat RT_FINSH_ARG_MAX) None));
  if argc =? 0 then mret (buf, - RT_ERROR, 0) else
  r ← run_command cmd_func argc argv buf;
  mret (buf, 0, r).

(** [length] is unsigned and counted down as long as there are blanks. *)
Fixpoint trim (fuel : nat) (buf : list Z) (cmd length : Z) : res (Z * Z) :=
  match fuel with
  | O => AssertFail
  | S fuel =>
      c ← load_at buf cmd;
      if is_blank c then trim fuel buf (cmd + 1) (u32 (length - 1)) else mret (cmd, length)
  end.

Fixpoint first_space (fuel : nat) (buf : list Z) (tcmd : Z) : res Z :=
  match fuel with
  | O => AssertFail
  | S fuel =>
      c ← load_at buf tcmd;
      if negb (c =? 32) && negb (c =? 0) then first_space fuel buf (tcmd + 1) else mret tcmd
  end.

(** The string at an offset. *)
Definition text_at (buf : list Z) (p : Z) : res (list Z) :=
  n ← Str.rt_strlen (drop (Z.to_nat p) buf); mret (slice p n buf).

Definition NOT_FOUND : list Z :=
  [58; 32; 99; 111; 109; 109; 97; 110; 100; 32; 110; 111; 116; 32; 102; 111; 117; 110; 100; 46; 10].

Definition msh_exec (buf : list Z) (cmd length : Z) : ST W Z :=
  '(cmd, length) ← lift (trim (S (List.length buf)) buf cmd length);
  if length =? 0 then mret 0 else
  '(buf, status, ret) ← _msh_exec_cmd buf cmd length;
  if status =? 0 then mret ret else
  r ← exec_script (drop (Z.to_nat cmd) buf) length;
  if r =? 0 then mret 0 else
  r ← change_dir (drop (Z.to_nat cmd) buf);
  if r =? 0 then mret 0 else
  tcmd ← lift (first_space (S (List.length buf)) buf cmd);
  buf ← lift (store_at buf tcmd 0);
  s ← lift (text_at buf cmd);
  _ ← console_puts (s ++ NOT_FOUND);
  mret (-1).

End Exec.

(** ** Completion *)

Fixpoint str_common (s1 s2 : list Z) : res Z :=
  match s1 with
  | [] => Fault
  | c :: s1 =>
      if c =? 0 then mret 0 else
      match s2 with
      | [] => Fault
      | d :: s2 =>
          if d =? 0 then mret 0 else
          if c =? d then n ← str_common s1 s2; mret (n + 1) else mret 0
      end
  end.

(** The loop over the commands: the name found first, the length that is common to all
    that were found, and what is printed. *)
Fixpoint complete_loop (t : list finsh_syscall) (prefix : list Z) (name_ptr : option (list Z)) (min_length : Z) (out : list Z) :
  res (option (list Z) * Z * list Z) :=
  match t with
  | [] => mret (name_ptr, min_length, out)
  | x :: t =>
      r ← Str.rt_strncmp (sc_name x) CMD_PREFIX 6;
      if negb (r =? 0) then complete_loop t prefix name_ptr min_length out else
      let cmd_name := drop 6 (sc_name x) in
      n ← Str.rt_strlen prefix;
      r ← Str.rt_strncmp prefix cmd_name n;
      if negb (r =? 0) then complete_loop t prefix name_ptr min_length out else
      k ← Str.rt_strlen cmd_name;
      let name_ptr := if min_length =? 0 then Some cmd_name else name_ptr in
      let min_length := if min_length =? 0 then k else min_length in
      first ← deref name_ptr;
      length ← str_common first cmd_name;
      complete_loop t prefix name_ptr (if length <? min_length then length else min_length) (out ++ take (Z.to_nat k) cmd_name ++ [10])
  end.

(** From the end of the string towards its first byte, which is not looked at. *)
Fixpoint find_space (n : nat) (line : list Z) : res (option Z) :=
  match n with
  | O => mret None
  | S n' => c ← load_at line (Z.of_nat n); if c =? 32 then mret (Some (Z.of_nat n)) else find_space n' line
  end.

(** The line afterwards. *)
Definition msh_auto_complete {W} {EV : Environment W} {SY : Symbols} (line : list Z) : ST W (list Z) :=
  c ← lift (load_at line 0);
  if c =? 0 then _ ← msh_help; mret line else
  n ← lift (Str.rt_strlen line);
  sp ← lift (find_space (Z.to_nat n) line);
  line ← (match sp with Some ptr => msh_auto_complete_path line (ptr + 1) | None => mret line end);
  '(name_ptr, min_length, out) ← lift (complete_loop syscall_table line None 0 []);
  _ ← console_puts out;
  match name_ptr with
  | Some name => lift (Str.rt_strncpy line name min_length)
  | None => mret line
  end.
