(* ===== verification/MshSpec.v ===== *)
(** * The module shell: what splitting, search and completion give

    A reference for the arguments of a command line, and the proof that [msh_split]
    finds them, each ended by a NUL, with no write outside the line; the command that
    is found; the completion of a name to the longest common prefix. *)

From Stdlib Require Import Lia.
From S2P Require Import Prelude KState KService FinshVm FinshCompiler Msh.

Abbreviation len l := (Z.of_nat (length l)).

(** ** The arguments of a line

    An argument is a run of bytes that are no blanks, or what stands between two double
    quotes; a quote behind a backslash does not end it. *)

Inductive mode := Between | Word (w : list Z) | Quoted (w : list Z).

Fixpoint arguments (m : mode) (t : list Z) : list (list Z) :=
  match m, t with
  | Between, [] => []
  | Word w, [] | Quoted w, [] => [w]
  | Between, c :: t =>
      if is_blank c then arguments Between t
      else if c =? 34 then arguments (Quoted []) t else arguments (Word [c]) t
  | Word w, c :: t => if is_blank c then w :: arguments Between t else arguments (Word (w ++ [c])) t
  | Quoted w, c :: t =>
      if c =? 34 then w :: arguments Between t
      else if c =? 92 then
        match t with
        | d :: t' => if d =? 34 then arguments (Quoted (w ++ [c; d])) t' else arguments (Quoted (w ++ [c])) t
        | [] => [w ++ [c]]
        end
      else arguments (Quoted (w ++ [c])) t
  end.

(** How far the loops go. *)
Fixpoint blanks (t : list Z) : nat :=
  match t with c :: t => if is_blank c then S (blanks t) else O | [] => O end.
Fixpoint word_len (t : list Z) : nat :=
  match t with c :: t => if is_blank c then O else S (word_len t) | [] => O end.
Fixpoint string_len (t : list Z) : nat :=
  match t with
  | [] => O
  | c :: t =>
      if c =? 34 then O
      else if c =? 92 then
        match t with
        | d :: t' => if d =? 34 then S (S (string_len t')) else S (string_len t)
        | [] => 1%nat
        end
      else S (string_len t)
  end.

Lemma arguments_blanks (t : list Z) : arguments Between (drop (blanks t) t) = arguments Between t.
Proof. induction t as [|c t IH]; [done|]. cbn [blanks]. destruct (is_blank c) eqn:E; [|done]. cbn. by rewrite E, IH. Qed.

Lemma arguments_word (t : list Z) : forall w,
  arguments (Word w) t = (w ++ take (word_len t) t) :: arguments Between (drop (word_len t) t).
Proof.
  induction t as [|c t IH]; intros w; cbn; [by rewrite app_nil_r|].
  destruct (is_blank c) eqn:E; cbn; [by rewrite E, app_nil_r|]. by rewrite IH, <- app_assoc.
Qed.

Lemma arguments_quoted (n : nat) : forall t w, (length t <= n)%nat ->
  arguments (Quoted w) t = (w ++ take (string_len t) t) :: arguments Between (drop (S (string_len t)) t).
Proof.
  induction n as [|n IH]; intros t w L; (destruct t as [|c t]; [cbn; by rewrite app_nil_r|]); [cbn in L; lia|].
  cbn in L. cbn [arguments string_len]. destruct (c =? 34); [cbn; by rewrite app_nil_r|].
  destruct (c =? 92); [|rewrite IH by lia; cbn; by rewrite <- app_assoc].
  destruct t as [|d t]; [done|]. cbn in L.
  destruct (d =? 34); rewrite IH by (cbn; lia); cbn; by rewrite <- app_assoc.
Qed.

Lemma blanks_stop (t : list Z) (c : Z) (u : list Z) : drop (blanks t) t = c :: u -> is_blank c = false.
Proof. induction t as [|d t IH]; [done|]. cbn. destruct (is_blank d) eqn:E; cbn; [done|by intros [= <- _]]. Qed.

Lemma word_stop (t : list Z) (c : Z) (u : list Z) : drop (word_len t) t = c :: u -> is_blank c.
Proof. induction t as [|d t IH]; [done|]. cbn. destruct (is_blank d) eqn:E; cbn; [by intros [= <- _]; rewrite E|done]. Qed.

Lemma string_len_le (n : nat) : forall t, (length t <= n)%nat -> (string_len t <= length t)%nat.
Proof.
  induction n as [|n IH]; intros t L; (destruct t as [|c t]; [cbn; lia|]); [cbn in L; lia|].
  cbn in L. cbn [string_len length]. destruct (c =? 34); [lia|]. specialize (IH t ltac:(lia)) as H0.
  destruct (c =? 92); [|lia]. destruct t as [|d t]; [cbn; lia|]. cbn in L. specialize (IH t ltac:(lia)).
  destruct (d =? 34); cbn in *; lia.
Qed.

Lemma word_len_le (t : list Z) : (word_len t <= length t)%nat.
Proof. induction t as [|c t IH]; cbn; [lia|]. destruct (is_blank c); lia. Qed.
Lemma blanks_le (t : list Z) : (blanks t <= length t)%nat.
Proof. induction t as [|c t IH]; cbn; [lia|]. destruct (is_blank c); lia. Qed.

(** ** The loops of [msh_split] *)

Section Loops.
Variables (cmd length_ : Z) (post : list Z).

(** The buffer with the text [t] at the pointer. *)
Definition at_text (position : Z) (done t : list Z) : Prop := cmd + position = len done /\ length_ = position + len t.

Lemma at_text_app (position : Z) (done t : list Z) (n : nat) (k : list Z) :
  at_text position done t -> (n <= length t)%nat -> length k = n -> at_text (position + Z.of_nat n) (done ++ k) (drop n t).
Proof. intros [H1 H2] L <-. split; rewrite ?length_app, ?length_drop; lia. Qed.

Lemma strip_ok (t : list Z) : forall done position fuel, at_text position done t -> (length t < fuel)%nat ->
  strip_blanks cmd length_ fuel (done ++ t ++ 0 :: post) position =
  Ok ((done ++ replicate (blanks t) 0) ++ drop (blanks t) t ++ 0 :: post, position + Z.of_nat (blanks t)).
Proof.
  induction t as [|c t IH]; intros done position fuel [H1 H2] L; (destruct fuel as [|fuel]; [cbn in L; lia|]); cbn [strip_blanks].
  - rewrite H1. cbn. rewrite load_at_mid. cbn. by rewrite app_nil_r, Z.add_0_r.
  - rewrite H1. cbn [app]. rewrite load_at_mid. cbn [mbind res_bind blanks]. destruct (is_blank c) eqn:E; cbn [andb].
    + cbn in H2. test_true. rewrite store_at_mid. cbn [mbind res_bind].
      replace (done ++ 0 :: t ++ 0 :: post) with ((done ++ [0]) ++ t ++ 0 :: post) by (by rewrite <- app_assoc).
      rewrite IH; [|split; rewrite ?length_app; cbn; lia|cbn in L; lia]. cbn [replicate drop]. rewrite <- !app_assoc.
      f_equal. f_equal. lia.
    + cbn. by rewrite app_nil_r, Z.add_0_r.
Qed.

Lemma skip_word_ok (t : list Z) : forall done position fuel, at_text position done t -> (length t < fuel)%nat ->
  skip_word cmd length_ fuel (done ++ t ++ 0 :: post) position = Ok (position + Z.of_nat (word_len t)).
Proof.
  induction t as [|c t IH]; intros done position fuel [H1 H2] L; (destruct fuel as [|fuel]; [cbn in L; lia|]); cbn [skip_word].
  - rewrite H1. cbn. rewrite load_at_mid. cbn in *. test_false. by rewrite Z.add_0_r.
  - rewrite H1. cbn [app]. rewrite load_at_mid. cbn [mbind res_bind word_len]. destruct (is_blank c) eqn:E; cbn [andb negb].
    + by rewrite Z.add_0_r.
    + cbn in H2. test_true. replace (done ++ c :: t ++ 0 :: post) with ((done ++ [c]) ++ t ++ 0 :: post) by (by rewrite <- app_assoc).
      rewrite IH; [|split; rewrite ?length_app; cbn; lia|cbn in L; lia]. f_equal. lia.
Qed.

Lemma skip_string_ok (n : nat) : forall t done position fuel, (length t <= n)%nat -> at_text position done t -> (length t < fuel)%nat ->
  skip_string cmd length_ fuel (done ++ t ++ 0 :: post) position = Ok (position + Z.of_nat (string_len t)).
Proof.
  induction n as [|n IH]; intros t done position fuel Ln [H1 H2] L; (destruct fuel as [|fuel]; [lia|]); cbn [skip_string];
    (destruct t as [|c t]; [rewrite H1; cbn; rewrite load_at_mid; cbn in *; test_false; by rewrite Z.add_0_r|]); [cbn in Ln; lia|].
  rewrite H1. cbn [app]. rewrite load_at_mid. cbn [mbind res_bind string_len]. cbn in L, Ln, H2.
  destruct (c =? 34); cbn [andb negb]; [by rewrite Z.add_0_r|]. test_true.
  assert (Step : forall p, p = position + 1 -> skip_string cmd length_ fuel (done ++ c :: t ++ 0 :: post) p =
    Ok (position + Z.of_nat (S (string_len t)))).
  { intros p ->. replace (done ++ c :: t ++ 0 :: post) with ((done ++ [c]) ++ t ++ 0 :: post) by (by rewrite <- app_assoc).
    rewrite IH; [f_equal; lia|lia|split; rewrite ?length_app; cbn; lia|lia]. }
  destruct (c =? 92); [|by apply Step].
  destruct t as [|d t].
  - replace (len done + 1) with (len (done ++ [c])) by (rewrite length_app; cbn; lia).
    replace (done ++ c :: [] ++ 0 :: post) with ((done ++ [c]) ++ 0 :: post) by (by rewrite <- app_assoc).
    rewrite load_at_mid. cbn. rewrite <- app_assoc. by apply Step.
  - replace (len done + 1) with (len (done ++ [c])) by (rewrite length_app; cbn; lia).
    replace (done ++ c :: (d :: t) ++ 0 :: post) with ((done ++ [c]) ++ d :: t ++ 0 :: post) by (by rewrite <- app_assoc).
    rewrite load_at_mid. cbn [mbind res_bind mret res_ret]. rewrite <- app_assoc. destruct (d =? 34); [|by apply Step].
    replace (done ++ [c] ++ d :: t ++ 0 :: post) with ((done ++ [c; d]) ++ t ++ 0 :: post) by (by rewrite <- app_assoc).
    cbn in *. rewrite IH; [f_equal; lia|lia|split; rewrite ?length_app; cbn; lia|lia].
Qed.

(** What the loop leaves: the text with some bytes cleared, and the offsets of the
    arguments. *)
Definition split_off (t done : list Z) (argv : list (option Z)) (argc : Z) (r : res (list Z * list (option Z) * Z)) : Prop :=
  exists t' ps, length t' = length t /\ r = Ok (done ++ t' ++ 0 :: post, list_inserts (Z.to_nat argc) (Some <$> ps) argv, argc + len ps) /\
    Forall2 (fun p w => len done <= p /\ Str.cstring w (drop (Z.to_nat p) (done ++ t' ++ 0 :: post))) ps (arguments Between t) /\
    (forall c u, t = c :: u -> is_blank c -> exists u', t' = 0 :: u').

Lemma split_off_more (t t2 done x w : list Z) (p : Z) (argv : list (option Z)) (argc : Z) r :
  (length x + length t2 = length t)%nat -> arguments Between t = w :: arguments Between t2 -> len done <= p -> 0 <= argc ->
  (forall t2', (forall c u, t2 = c :: u -> is_blank c -> exists u', t2' = 0 :: u') -> length t2' = length t2 ->
     Str.cstring w (drop (Z.to_nat p) (done ++ (x ++ t2') ++ 0 :: post))) ->
  (forall c u, t = c :: u -> is_blank c -> exists u', x = 0 :: u') ->
  split_off t2 (done ++ x) (<[Z.to_nat argc := Some p]> argv) (argc + 1) r -> split_off t done argv argc r.
Proof.
  intros L E Hp Ha Hw Hb (t2' & ps & L2 & -> & F & B2). exists (x ++ t2'), (p :: ps).
  rewrite <- !app_assoc in F |- *. split; [rewrite length_app; lia|]. split; [|split].
  - assert (I : list_inserts (Z.to_nat argc) (Some <$> p :: ps) argv =
      list_inserts (Z.to_nat (argc + 1)) (Some <$> ps) (<[Z.to_nat argc := Some p]> argv)).
    { replace (Z.to_nat (argc + 1)) with (S (Z.to_nat argc)) by lia. apply list_insert_inserts_lt. lia. }
    rewrite I, <- !app_assoc. do 2 f_equal. cbn [length]. lia.
  - rewrite E. constructor; [split; [done|]|].
    + exact (Hw t2' B2 L2).
    + rewrite <- app_assoc. eapply Forall2_impl; [exact F|]. intros q v [Hq Hv]. split; [|done]. rewrite length_app in Hq. lia.
  - intros c u Et Bc. destruct (Hb c u Et Bc) as [u' ->]. by eexists.
Qed.

Lemma split_off_last (t done x w : list Z) (p : Z) (argv : list (option Z)) (argc : Z) :
  length x = length t -> arguments Between t = [w] -> len done <= p -> 0 <= argc ->
  Str.cstring w (drop (Z.to_nat p) (done ++ x ++ 0 :: post)) ->
  (forall c u, t = c :: u -> is_blank c -> exists u', x = 0 :: u') ->
  split_off t done argv argc (Ok (done ++ x ++ 0 :: post, <[Z.to_nat argc := Some p]> argv, argc + 1)).
Proof.
  intros L E Hp Ha Hw Hb. exists x, [p]. split; [done|]. split; [done|]. split; [|done]. rewrite E. constructor; [by split|done].
Qed.

Lemma split_loop_nil (done : list Z) position argv argc (fuel : nat) : at_text position done [] ->
  (argc + len (arguments Between []) <= RT_FINSH_ARG_MAX ->
     split_off [] done argv argc (split_loop cmd length_ (S fuel) (done ++ [] ++ 0 :: post) position argv argc)) /\
  (RT_FINSH_ARG_MAX < argc + len (arguments Between []) ->
     split_loop cmd length_ (S fuel) (done ++ [] ++ 0 :: post) position argv argc = Fault) \/ RT_FINSH_ARG_MAX < argc.
Proof.
  intros [H1 H2]. destruct (decide (RT_FINSH_ARG_MAX < argc)); [by right|left]. cbn [split_loop]. cbn in H2. test_false.
  split; [|cbn; lia]. intros _. exists [], []. cbn. by rewrite Z.add_0_r.
Qed.

(** Both halves of what is proved of the loop. *)
Definition loop_ok (t done : list Z) (argv : list (option Z)) (argc : Z) (r : res (list Z * list (option Z) * Z)) : Prop :=
  (argc + len (arguments Between t) <= RT_FINSH_ARG_MAX -> split_off t done argv argc r) /\
  (RT_FINSH_ARG_MAX < argc + len (arguments Between t) -> r = Fault).

Definition loops_ok (n fuel : nat) : Prop := forall t done position argv argc,
  (length t <= n)%nat -> at_text position done t -> (length t < fuel)%nat -> 0 <= argc <= RT_FINSH_ARG_MAX ->
  len argv = RT_FINSH_ARG_MAX -> Forall (fun c => 1 <= c <= 255) t ->
  loop_ok t done argv argc (split_loop cmd length_ fuel (done ++ t ++ 0 :: post) position argv argc).

Lemma store_full (argv : list (option Z)) (argc : Z) (p : option Z) :
  len argv = RT_FINSH_ARG_MAX -> ~ argc < RT_FINSH_ARG_MAX -> store_at argv argc p = Fault.
Proof. intros L H. unfold store_at. destruct (in_bounds argc 1 argv) eqn:K; [|done]. apply in_bounds_spec in K. lia. Qed.

(** An argument, with room for it. *)
Lemma loop_ok_full (t done : list Z) (argv : list (option Z)) (argc : Z) (w : list Z) (l : list (list Z)) :
  arguments Between t = w :: l -> ~ argc < RT_FINSH_ARG_MAX -> loop_ok t done argv argc Fault.
Proof. intros E H. unfold loop_ok. rewrite E. cbn [length]. split; [lia|done]. Qed.

Lemma loop_ok_last (t done x w : list Z) (p : Z) (argv : list (option Z)) (argc : Z) :
  argc < RT_FINSH_ARG_MAX -> arguments Between t = [w] ->
  split_off t done argv argc (Ok (done ++ x ++ 0 :: post, <[Z.to_nat argc := Some p]> argv, argc + 1)) ->
  loop_ok t done argv argc (Ok (done ++ x ++ 0 :: post, <[Z.to_nat argc := Some p]> argv, argc + 1)).
Proof. intros H E S. unfold loop_ok. rewrite E. cbn [length]. split; [done|lia]. Qed.

Lemma loop_ok_more (t t2 done done2 w : list Z) (p : Z) (argv : list (option Z)) (argc : Z) r :
  arguments Between t = w :: arguments Between t2 ->
  (split_off t2 done2 (<[Z.to_nat argc := Some p]> argv) (argc + 1) r -> split_off t done argv argc r) ->
  loop_ok t2 done2 (<[Z.to_nat argc := Some p]> argv) (argc + 1) r -> loop_ok t done argv argc r.
Proof.
  intros E H [H1 H2]. unfold loop_ok. rewrite E. cbn [length].
  split; intros L; [apply H, H1; lia|apply H2; lia].
Qed.

(** The bytes behind an offset of the buffer. *)
Lemma drop_mid (a b c : list Z) (p : Z) : p = len a -> drop (Z.to_nat p) (a ++ b ++ c) = b ++ c.
Proof. intros ->. by rewrite Nat2Z.id, drop_app_length. Qed.

Lemma string_case (n fuel : nat) (t u done : list Z) (b : nat) position argv argc :
  loops_ok n fuel -> (b + S (length u) = length t)%nat -> (length t <= S n)%nat -> (length t < S fuel)%nat ->
  at_text (position + Z.of_nat b) (done ++ replicate b 0) (34 :: u) ->
  0 <= argc <= RT_FINSH_ARG_MAX -> len argv = RT_FINSH_ARG_MAX -> Forall (fun c => 1 <= c <= 255) u ->
  arguments Between t = arguments (Quoted []) u ->
  (forall c v x, t = c :: v -> is_blank c -> exists u', replicate b 0 ++ x = 0 :: u') ->
  loop_ok t done argv argc (
    argv ← store_at argv argc (Some (cmd + (position + Z.of_nat b + 1)));
    position ← skip_string cmd length_ (S fuel) ((done ++ replicate b 0) ++ 34 :: u ++ 0 :: post) (position + Z.of_nat b + 1);
    if length_ <=? position then mret ((done ++ replicate b 0) ++ 34 :: u ++ 0 :: post, argv, argc + 1) else
    buf ← store_at ((done ++ replicate b 0) ++ 34 :: u ++ 0 :: post) (cmd + position) 0;
    split_loop cmd length_ fuel buf (position + 1) argv (argc + 1)).
Proof.
  intros IH Lb Ln Lf [A1 A2] Ha Lv Hu Ew Hc. cbn in A2. rewrite (arguments_quoted (length u)) in Ew by done. cbn [app] in Ew.
  pose proof (string_len_le (length u) u ltac:(lia)) as Lk. set (k := string_len u) in *.
  destruct (decide (argc < RT_FINSH_ARG_MAX)) as [La|La]; [|rewrite store_full by done; by eapply loop_ok_full].
  rewrite store_at_ok by lia. cbn [mbind res_bind]. set (done1 := done ++ replicate b 0) in *. set (p := cmd + (position + Z.of_nat b + 1)).
  assert (Lp : p = len (done1 ++ [34])) by (unfold p; rewrite length_app; cbn; lia).
  replace (done1 ++ 34 :: u ++ 0 :: post) with ((done1 ++ [34]) ++ u ++ 0 :: post) by (by rewrite <- app_assoc).
  rewrite (skip_string_ok (length u) u (done1 ++ [34])); [|lia|split; rewrite ?length_app; cbn; lia|lia]. fold k. cbn [mbind res_bind].
  destruct (drop k u) as [|q u2] eqn:D.
  - assert (k = length u) as E by (apply (f_equal length) in D; rewrite length_drop in D; cbn in D; lia).
    test_true. rewrite E, firstn_all, drop_ge in Ew by lia.
    replace ((done1 ++ [34]) ++ u ++ 0 :: post) with (done ++ (replicate b 0 ++ 34 :: u) ++ 0 :: post)
      by (unfold done1; by rewrite <- !app_assoc).
    apply (loop_ok_last _ _ _ u); [done|done|]. apply (split_off_last _ _ _ u); [rewrite length_app, length_replicate; cbn; lia|done|unfold done1 in *; rewrite !length_app in *; lia|lia| |by intros c v Et; apply (Hc c v)].
    rewrite Lp. unfold done1. rewrite <- !app_assoc. cbn [app].
    replace (done ++ replicate b 0 ++ 34 :: u ++ 0 :: post) with ((done ++ replicate b 0 ++ [34]) ++ u ++ 0 :: post) by (by rewrite <- !app_assoc).
    rewrite drop_mid by done. split; [done|by eexists].
  - assert (Eu : u = take k u ++ q :: u2) by (by rewrite <- D, take_drop).
    assert (Ek : length (take k u) = k) by (rewrite length_take; lia).
    assert (L2 : (length u = k + S (length u2))%nat) by (rewrite Eu at 1; rewrite length_app; cbn; lia).
    assert (E2 : drop (S k) u = u2) by (by rewrite <- Nat.add_1_r, <- drop_drop, D).
    rewrite E2 in Ew. test_false. set (x := replicate b 0 ++ 34 :: take k u ++ [0]).
    assert (Lx : (length x = b + S (S k))%nat) by (unfold x; rewrite !length_app, length_replicate; cbn; rewrite length_app, Ek; cbn; lia).
    replace ((done1 ++ [34]) ++ u ++ 0 :: post) with ((done1 ++ 34 :: take k u) ++ q :: u2 ++ 0 :: post)
      by (rewrite Eu at 2; by rewrite <- !app_assoc).
    replace (cmd + (position + Z.of_nat b + 1 + Z.of_nat k)) with (len (done1 ++ 34 :: take k u)) by (rewrite length_app; cbn [length]; rewrite Ek; lia).
    rewrite store_at_mid. cbn [mbind res_bind].
    replace ((done1 ++ 34 :: take k u) ++ 0 :: u2 ++ 0 :: post) with ((done ++ x) ++ u2 ++ 0 :: post)
      by (unfold x, done1; by rewrite <- !app_assoc; cbn; rewrite <- !app_assoc).
    eapply (loop_ok_more t u2 done (done ++ x)); [exact Ew| |apply IH].
    + intros HS. eapply (split_off_more _ u2 _ x _ p); [lia|exact Ew| |lia| |by intros c v Et; apply (Hc c v)|exact HS].
      * unfold done1 in Lp. rewrite !length_app in Lp. lia.
      * intros t2' _ L2'. rewrite Lp. unfold done1, x.
        replace (done ++ ((replicate b 0 ++ 34 :: take k u ++ [0]) ++ t2') ++ 0 :: post)
          with (((done ++ replicate b 0) ++ [34]) ++ take k u ++ 0 :: t2' ++ 0 :: post) by (by rewrite <- !app_assoc; cbn; rewrite <- !app_assoc).
        rewrite drop_mid by done. split; [by apply Forall_take|by eexists].
    + lia.
    + unfold done1 in A1. rewrite length_app, length_replicate in A1. split; rewrite ?length_app, ?Lx; lia.
    + lia.
    + lia.
    + by rewrite length_insert.
    + rewrite Eu in Hu. apply Forall_app in Hu as [_ Hu]. by inversion Hu.
Qed.

Lemma word_case (n fuel : nat) (t u done : list Z) (b : nat) (c : Z) position argv argc :
  loops_ok n fuel -> is_blank c = false -> (c =? 34) = false -> (b + S (length u) = length t)%nat -> (length t <= S n)%nat ->
  (length t < S fuel)%nat -> at_text (position + Z.of_nat b) (done ++ replicate b 0) (c :: u) ->
  0 <= argc <= RT_FINSH_ARG_MAX -> len argv = RT_FINSH_ARG_MAX -> Forall (fun c => 1 <= c <= 255) (c :: u) ->
  arguments Between t = arguments (Word [c]) u ->
  (forall c v x, t = c :: v -> is_blank c -> exists u', replicate b 0 ++ x = 0 :: u') ->
  loop_ok t done argv argc (
    argv ← store_at argv argc (Some (cmd + (position + Z.of_nat b)));
    position ← skip_word cmd length_ (S fuel) ((done ++ replicate b 0) ++ c :: u ++ 0 :: post) (position + Z.of_nat b);
    if length_ <=? position then mret ((done ++ replicate b 0) ++ c :: u ++ 0 :: post, argv, argc + 1) else
    split_loop cmd length_ fuel ((done ++ replicate b 0) ++ c :: u ++ 0 :: post) position argv (argc + 1)).
Proof.
  intros IH Nb Nq Lb Ln Lf A Ha Lv Hu Ew Hc. rewrite arguments_word in Ew. cbn [app] in Ew.
  pose proof (word_len_le u) as Lk.
  destruct (decide (argc < RT_FINSH_ARG_MAX)) as [La|La]; [|rewrite store_full by done; by eapply loop_ok_full].
  rewrite store_at_ok by lia. cbn [mbind res_bind]. set (done1 := done ++ replicate b 0) in *. set (p := cmd + (position + Z.of_nat b)).
  rewrite (skip_word_ok (c :: u) done1); [|done|cbn; lia]. cbn [word_len]. rewrite Nb. set (k := word_len u) in *. cbn [mbind res_bind].
  destruct A as [A1 A2]. cbn in A2. change (c :: take k u) with (take (S k) (c :: u)) in Ew.
  destruct (drop k u) as [|q u2] eqn:D.
  - assert (k = length u) as E by (apply (f_equal length) in D; rewrite length_drop in D; cbn in D; lia).
    test_true. rewrite E in Ew. change (S (length u)) with (length (c :: u)) in Ew. rewrite firstn_all in Ew.
    replace (done1 ++ c :: u ++ 0 :: post) with (done ++ (replicate b 0 ++ c :: u) ++ 0 :: post) by (unfold done1; by rewrite <- !app_assoc).
    apply (loop_ok_last _ _ _ (c :: u)); [done|done|].
    apply (split_off_last _ _ _ (c :: u)); [rewrite length_app, length_replicate; cbn; lia|done|unfold done1 in *; rewrite !length_app in *; lia|lia| |by intros c' v Et; apply (Hc c' v)].
    replace (done ++ (replicate b 0 ++ c :: u) ++ 0 :: post) with (done1 ++ (c :: u) ++ 0 :: post) by (unfold done1; by rewrite <- !app_assoc).
    rewrite drop_mid by done. split; [done|by eexists].
  - assert (Eu : u = take k u ++ q :: u2) by (by rewrite <- D, take_drop).
    assert (Ek : length (take k u) = k) by (rewrite length_take; lia).
    assert (L2 : (length u = k + S (length u2))%nat) by (rewrite Eu at 1; rewrite length_app; cbn; lia).
    test_false. set (x := replicate b 0 ++ take (S k) (c :: u)).
    assert (Lx : (length x = b + S k)%nat) by (unfold x; rewrite !length_app, length_replicate; cbn; rewrite Ek; lia).
    replace (done1 ++ c :: u ++ 0 :: post) with ((done ++ x) ++ (q :: u2) ++ 0 :: post)
      by (symmetry; unfold x, done1; rewrite Eu at 1; cbn [take]; rewrite <- ?app_assoc; cbn [app]; by rewrite <- ?app_assoc).
    eapply (loop_ok_more t (q :: u2) done (done ++ x)); [exact Ew| |apply IH].
    + intros HS. eapply (split_off_more _ (q :: u2) _ x _ p); [cbn; lia|exact Ew| |lia| |by intros c' v Et; apply (Hc c' v)|exact HS].
      * unfold done1 in *. rewrite !length_app in *. lia.
      * intros t2' B2 L2'. destruct (B2 q u2 eq_refl) as [v ->].
        { by eapply word_stop. }
        unfold x.
        replace (done ++ ((replicate b 0 ++ take (S k) (c :: u)) ++ 0 :: v) ++ 0 :: post)
          with (done1 ++ take (S k) (c :: u) ++ 0 :: v ++ 0 :: post) by (unfold done1; by rewrite <- !app_assoc).
        rewrite drop_mid by done. split; [by apply Forall_take|by eexists].
    + cbn; lia.
    + unfold done1 in A1. rewrite length_app, length_replicate in A1. split; rewrite ?length_app, ?Lx; cbn; lia.
    + cbn; lia.
    + lia.
    + by rewrite length_insert.
    + inversion Hu as [|? ? _ Hu2]; subst. rewrite Eu in Hu2. by apply Forall_app in Hu2 as [_ ?].
Qed.

Lemma split_loop_ok (fuel : nat) : forall n, loops_ok n fuel.
Proof.
  induction fuel as [|fuel IHf]; intros n t done position argv argc Ln At Lf Ha Lv Ht; [lia|].
  destruct (decide (t = [])) as [->|Nt]; [destruct (split_loop_nil done position argv argc fuel At); [done|lia]|].
  assert (Lt0 : (0 < length t)%nat) by (destruct t; [done|cbn; lia]). destruct n as [|n]; [lia|].
  assert (Lp : position < length_) by (destruct At; lia). cbn [split_loop]. test_true.
  rewrite (strip_ok t done) by done. cbn [mbind res_bind]. pose proof (blanks_le t) as Lb.
  pose proof (at_text_app _ _ _ (blanks t) (replicate (blanks t) 0) At Lb (length_replicate _ _)) as A1.
  pose proof (arguments_blanks t) as Ea. pose proof (blanks_stop t) as Nb. set (b := blanks t) in *.
  assert (Lu : (length (drop b t) = length t - b)%nat) by apply length_drop.
  assert (Hc : forall c u x, t = c :: u -> is_blank c -> exists u', replicate b 0 ++ x = 0 :: u').
  { intros c u x -> Bc. unfold b. cbn. destruct (is_blank c); [|done]. by eexists. }
  destruct (drop b t) as [|c u] eqn:D.
  - cbn in Lu. destruct A1 as [_ A2]. cbn in A2. test_true. unfold loop_ok. rewrite <- Ea. cbn [length arguments]. split; [|lia]. intros _.
    exists (replicate b 0), []. rewrite <- Ea. cbn. rewrite Z.add_0_r, <- !app_assoc. split_and!; [rewrite length_replicate; lia|done|constructor|].
    intros c u Et Bc. rewrite <- (app_nil_r (replicate b 0)). by eapply Hc.
  - cbn in Lu. specialize (Nb c u eq_refl).
    assert (Hu : Forall (fun c => 1 <= c <= 255) (c :: u)) by (rewrite <- D; by apply Forall_drop).
    pose proof A1 as [A2 A3]. cbn in A3. test_false. rewrite A2 at 1. cbn [app]. rewrite load_at_mid. cbn [mbind res_bind].
    cbn [arguments] in Ea. rewrite Nb in Ea. destruct (c =? 34) eqn:Eq.
    + b2p. subst c. inversion Hu; subst. eapply string_case; try done; lia.
    + eapply (word_case n fuel t u done b c); try done; lia.
Qed.

End Loops.

(** ** Splitting *)

Definition text_ok (t : list Z) : Prop := Forall (fun c => 1 <= c <= 255) t.

(** The arguments are strings of the line [buf]. *)
Definition args_in (buf : list Z) (ps : list Z) (ws : list (list Z)) : Prop :=
  Forall2 (fun p w => Str.cstring w (drop (Z.to_nat p) buf)) ps ws.

Lemma split_text (pre t post : list Z) (argv : list (option Z)) :
  text_ok t -> len argv = RT_FINSH_ARG_MAX ->
  let r := msh_split (pre ++ t ++ 0 :: post) (len pre) (len t) argv in
  (len (arguments Between t) <= RT_FINSH_ARG_MAX ->
   exists t' ps, length t' = length t /\
     r = Ok (pre ++ t' ++ 0 :: post, list_inserts 0 (Some <$> ps) argv, len (arguments Between t)) /\
     args_in (pre ++ t' ++ 0 :: post) ps (arguments Between t)) /\
  (RT_FINSH_ARG_MAX < len (arguments Between t) -> r = Fault).
Proof.
  intros Ht La r. destruct (split_loop_ok (len pre) (len t) post (S (length (pre ++ t ++ 0 :: post))) (length t) t pre 0 argv 0) as [H1 H2];
    [done|split; lia|rewrite !length_app; lia|done|done|done|].
  split; [|done]. intros L. destruct (H1 L) as (t' & ps & L' & E & F & _). exists t', ps.
  pose proof (Forall2_length _ _ _ F) as Lp. rewrite Z.add_0_l, Lp in E. split; [done|]. split; [done|].
  eapply Forall2_impl; [exact F|]. by intros p w [_ ?].
Qed.

(** ** The command *)

Lemma strncmp_same (w : list Z) : forall sa r (x y : list Z),
  Str.strncmp_loop sa (w ++ x) (length w) r = Str.strncmp_loop sa (w ++ y) (length w) r.
Proof.
  induction w as [|c w IH]; intros sa r x y; [done|]. cbn [length app Str.strncmp_loop].
  destruct sa as [|d sa]; [done|]. by rewrite (IH _ _ x y).
Qed.

(** A string against a word that is not ended. *)
Lemma strncmp_word (n w sn rest : list Z) : Str.cstring n sn -> text_ok w ->
  exists r, Str.rt_strncmp sn (w ++ rest) (len w) = Ok r /\ (r = 0 <-> take (length w) n = w).
Proof.
  intros Hn Hw. destruct (Str.rt_strncmp_zero n w sn (w ++ [0]) (len w) Hn) as (r & E & Hr); [by split; [|exists []]|lia|].
  exists r. unfold Str.rt_strncmp in *. rewrite Nat2Z.id in *. rewrite (strncmp_same w sn 0 rest [0]). split; [done|].
  rewrite Hr, take_app_length. destruct (decide (length w <= length n)%nat) as [L|L].
  - by rewrite take_app_le.
  - split; intros E2; exfalso.
    + rewrite take_app_ge in E2 by lia. destruct (length w - length n)%nat as [|k] eqn:K; [lia|]. cbn in E2.
      assert (W0 : 0 ∈ w) by (rewrite <- E2; set_solver).
      unfold text_ok in Hw. rewrite Forall_forall in Hw. apply Hw in W0. lia.
    + apply (f_equal length) in E2. rewrite length_take in E2. lia.
Qed.

Definition PREFIX : list Z := [95; 95; 99; 109; 100; 95].

(** The function of the first entry with the name [__cmd_]_w_, 0 when there is none. *)
Fixpoint find_cmd (t : list finsh_syscall) (names : list (list Z)) (w : list Z) : Z :=
  match t, names with
  | x :: t, n :: names => if bool_decide (n = PREFIX ++ w) then sc_func x else find_cmd t names w
  | _, _ => 0
  end.

(** The names of the table. *)
Definition named (t : list finsh_syscall) (names : list (list Z)) : Prop := Forall2 (fun x n => Str.cstring n (sc_name x)) t names.

Lemma cstring_at (n s : list Z) (k : nat) : Str.cstring n s -> (k <= length n)%nat ->
  exists c, load_at s (Z.of_nat k) = Ok c /\ (c = 0 <-> k = length n).
Proof.
  intros [H [rest ->]] L. destruct (decide (k = length n)) as [->|N].
  - exists 0. rewrite load_at_mid. done.
  - destruct (lookup_lt_is_Some_2 n k) as [c Hc]; [lia|]. exists c. split.
    + apply load_at_ok; [lia|]. rewrite Nat2Z.id. by rewrite lookup_app_l by lia.
    + split; [|done]. intros ->. rewrite Forall_forall in H. apply list_elem_of_lookup_2 in Hc. apply H in Hc. lia.
Qed.

Lemma prefix_split (n p w : list Z) : n = p ++ w <-> take (length p) n = p /\ drop (length p) n = w.
Proof.
  split; [intros ->; by rewrite take_app_length, drop_app_length|]. intros [H1 H2]. by rewrite <- (take_drop (length p) n), H1, H2.
Qed.

Lemma get_cmd_ok (t : list finsh_syscall) (names : list (list Z)) (w rest : list Z) :
  named t names -> text_ok w -> msh_get_cmd t (w ++ rest) (len w) = Ok (find_cmd t names w).
Proof.
  intros N Hw. induction N as [|x n t names Hn N IH]; [done|]. cbn [msh_get_cmd find_cmd].
  destruct (strncmp_word n PREFIX (sc_name x) [0] Hn) as (r & E & Hr); [by repeat constructor; lia|].
  change (len PREFIX) with 6 in E. change (PREFIX ++ [0]) with CMD_PREFIX in E. rewrite E. cbn [mbind res_bind].
  destruct (Z.eqb_spec r 0) as [R|R]; cbn [negb].
  2: { rewrite bool_decide_false; [done|]. intros K%prefix_split. by apply R, Hr, K. }
  - assert (K : take 6 n = PREFIX) by (apply Hr; lia). assert (L6 : (6 <= length n)%nat).
    { apply (f_equal length) in K. rewrite length_take in K. change (length PREFIX) with 6%nat in K. lia. }
    destruct (strncmp_word (drop 6 n) w (drop 6 (sc_name x)) rest) as (r2 & E2 & Hr2); [by apply Str.cstring_drop|done|].
    rewrite E2. cbn [mbind res_bind]. destruct (Z.eqb_spec r2 0) as [R2|R2].
    + assert (K2 : take (length w) (drop 6 n) = w) by (apply Hr2; lia).
      assert (L : (6 + length w <= length n)%nat).
      { apply (f_equal length) in K2. rewrite length_take, length_drop in K2. lia. }
      destruct (cstring_at n (sc_name x) (6 + length w) Hn L) as (c & Ec & Hc).
      replace (6 + len w) with (Z.of_nat (6 + length w)) by lia. rewrite Ec. cbn [mbind res_bind].
      destruct (Z.eqb_spec c 0) as [C|C].
      * rewrite bool_decide_true; [done|]. apply prefix_split. split; [done|].
        rewrite <- K2. change (length PREFIX) with 6%nat. symmetry. apply take_ge. rewrite length_drop. lia.
      * rewrite bool_decide_false; [done|]. intros ->. rewrite length_app in Hc. change (length PREFIX) with 6%nat in Hc. lia.
    + cbn. rewrite bool_decide_false; [done|]. intros ->. cbn [PREFIX app drop] in Hr2. rewrite firstn_all in Hr2. tauto.
Qed.

(** ** Execution *)

Lemma cmd0_skip_word (cmd length_ : Z) (fuel : nat) : forall buf k, cmd0_loop fuel buf cmd k length_ = skip_word cmd length_ fuel buf k.
Proof.
  induction fuel as [|fuel IH]; intros buf k; [done|]. cbn [cmd0_loop skip_word].
  destruct (load_at buf (cmd + k)); [|done..]. cbn. destruct (_ && _); [apply IH|done].
Qed.

Lemma arguments_some (c : Z) (u : list Z) : is_blank c = false -> 1 <= len (arguments Between (c :: u)).
Proof.
  intros N. cbn [arguments]. rewrite N. destruct (c =? 34); [rewrite (arguments_quoted (length u)) by done|rewrite arguments_word]; cbn [length]; lia.
Qed.

Definition argv_of (ps : list Z) : list (option Z) := (Some <$> ps) ++ replicate (10 - length ps) None.

Lemma argv_of_inserts (ps : list Z) : len ps <= RT_FINSH_ARG_MAX ->
  list_inserts 0 (Some <$> ps) (replicate (Z.to_nat RT_FINSH_ARG_MAX) None) = argv_of ps.
Proof.
  intros L. unfold RT_FINSH_ARG_MAX in *. rewrite list_inserts_0 by (rewrite length_fmap, length_replicate; lia).
  unfold argv_of. by rewrite length_fmap, drop_replicate.
Qed.

Fixpoint space_len (t : list Z) : nat :=
  match t with c :: t => if c =? 32 then O else S (space_len t) | [] => O end.

Lemma space_len_le (t : list Z) : (space_len t <= length t)%nat.
Proof. induction t as [|c t IH]; cbn; [lia|]. destruct (c =? 32); lia. Qed.

Lemma first_space_ok (t : list Z) : forall pre post (fuel : nat), text_ok t -> (length t < fuel)%nat ->
  first_space fuel (pre ++ t ++ 0 :: post) (len pre) = Ok (len pre + Z.of_nat (space_len t)).
Proof.
  induction t as [|c t IH]; intros pre post fuel Ht L; (destruct fuel as [|fuel]; [cbn in L; lia|]); cbn [first_space app]; rewrite load_at_mid;
    cbn [mbind res_bind space_len]; [cbn; by rewrite Z.add_0_r|].
  inversion Ht; subst. destruct (Z.eqb_spec c 32) as [->|N]; [cbn; by rewrite Z.add_0_r|]. cbn [negb andb].
  replace (c =? 0) with false by lia. cbn [negb].
  replace (pre ++ c :: t ++ 0 :: post) with ((pre ++ [c]) ++ t ++ 0 :: post) by (by rewrite <- app_assoc).
  replace (len pre + 1) with (len (pre ++ [c])) by (rewrite length_app; cbn; lia).
  rewrite IH; [|done|cbn in L; lia]. rewrite length_app. f_equal. cbn. lia.
Qed.

Lemma trim_ok (t : list Z) : forall pre post (fuel : nat), len t < 2 ^ 32 -> (length t < fuel)%nat ->
  trim fuel (pre ++ t ++ 0 :: post) (len pre) (len t) = Ok (len pre + Z.of_nat (blanks t), len (drop (blanks t) t)).
Proof.
  induction t as [|c t IH]; intros pre post fuel L F; (destruct fuel as [|fuel]; [cbn in F; lia|]); cbn [trim app]; rewrite load_at_mid;
    cbn [mbind res_bind blanks]; [cbn; by rewrite Z.add_0_r|].
  destruct (is_blank c); [|cbn; by rewrite Z.add_0_r].
  replace (pre ++ c :: t ++ 0 :: post) with ((pre ++ [c]) ++ t ++ 0 :: post) by (by rewrite <- app_assoc).
  replace (len pre + 1) with (len (pre ++ [c])) by (rewrite length_app; cbn; lia).
  cbn [length] in *. replace (u32 (Z.of_nat (S (length t)) - 1)) with (len t) by (rewrite ubits_small; lia).
  rewrite IH by lia. cbn [drop]. rewrite length_app. f_equal. f_equal. cbn. lia.
Qed.

Lemma text_at_ok (pre t post : list Z) : text_ok t -> text_at (pre ++ t ++ 0 :: post) (len pre) = Ok t.
Proof.
  intros H. unfold text_at. rewrite Nat2Z.id, drop_app_length.
  rewrite (Str.rt_strlen_ok t) by (by split; [|eexists]). cbn [mbind res_bind mret res_ret]. unfold slice.
  by rewrite !Nat2Z.id, drop_app_length, take_app_length.
Qed.

Lemma lift_step {S A B} (r : res A) (a : A) (f : A -> ST S B) (s : S) : r = Ok a -> (lift r ≫= f) s = f a s.
Proof. by intros ->. Qed.

Lemma ret_step {S A B} (a : A) (f : A -> ST S B) (s : S) : (mret a ≫= f) s = f a s.
Proof. done. Qed.

Lemma bind_same {S A B} (m : ST S A) (f g : A -> ST S B) (s : S) :
  (forall a s', f a s' = g a s') -> (m ≫= f) s = (m ≫= g) s.
Proof. intros H. unfold mbind, ST_bind. by destruct (m s) as [[a s']| |]. Qed.

(** The byte behind the first [space_len t] is cleared. *)
Lemma store_space_ok (pre t post : list Z) :
  store_at (pre ++ t ++ 0 :: post) (len pre + Z.of_nat (space_len t)) 0 =
  Ok (pre ++ take (space_len t) t ++ 0 :: drop (S (space_len t)) (t ++ 0 :: post)).
Proof.
  pose proof (space_len_le t) as L. set (k := space_len t) in *.
  assert (exists c, t ++ 0 :: post = take k t ++ c :: drop (S k) (t ++ 0 :: post)) as [c E].
  { destruct (lookup_lt_is_Some_2 (t ++ 0 :: post) k) as [c Hc]; [rewrite length_app; cbn; lia|]. exists c.
    rewrite <- (take_app_le t (0 :: post) k) by done. symmetry. by apply take_drop_middle. }
  replace (len pre + Z.of_nat k) with (len (pre ++ take k t)) by (rewrite length_app, length_take; lia).
  rewrite E at 1. rewrite app_assoc, store_at_mid. by rewrite <- app_assoc.
Qed.

Section Exec.
Context {W : Type} {EV : Environment W} {SY : Symbols}.
Variable names : list (list Z).
Hypothesis Hnames : named syscall_table names.

Lemma exec_cmd_ok (pre t post : list Z) (s : W) : text_ok t -> (forall c u, t = c :: u -> is_blank c = false) -> t <> [] ->
  let buf := pre ++ t ++ 0 :: post in let f := find_cmd syscall_table names (take (word_len t) t) in
  (f = 0 -> _msh_exec_cmd buf (len pre) (len t) s = Ok (buf, - RT_ERROR, 0, s)) /\
  (f <> 0 -> len (arguments Between t) <= RT_FINSH_ARG_MAX -> exists t' ps, let buf' := pre ++ t' ++ 0 :: post in
    args_in buf' ps (arguments Between t) /\
    _msh_exec_cmd buf (len pre) (len t) s = (r ← run_command f (len (arguments Between t)) (argv_of ps) buf'; mret (buf', 0, r)) s) /\
  (f <> 0 -> RT_FINSH_ARG_MAX < len (arguments Between t) -> _msh_exec_cmd buf (len pre) (len t) s = Fault).
Proof.
  intros Ht Hb Nt buf f. unfold _msh_exec_cmd, buf. erewrite lift_step.
  2: { rewrite cmd0_skip_word. apply (skip_word_ok (len pre) (len t) post t pre 0); [split; lia|rewrite !length_app; lia]. }
  assert (Kw : word_len t <> 0%nat).
  { destruct t as [|c u]; [done|]. cbn. by rewrite (Hb c u eq_refl). }
  rewrite Z.add_0_l. test_false.
  assert (Lw : len (take (word_len t) t) = Z.of_nat (word_len t)) by (pose proof (word_len_le t); rewrite length_take; lia).
  erewrite lift_step.
  2: { rewrite Nat2Z.id, drop_app_length, <- Lw. replace (t ++ 0 :: post) with (take (word_len t) t ++ (drop (word_len t) t ++ 0 :: post))
         by (by rewrite app_assoc, take_drop).
       apply (get_cmd_ok _ names); [done|by apply Forall_take]. }
  fold f. destruct (Z.eqb_spec f 0) as [F|F]; [by split_and!|].
  destruct (split_text pre t post (replicate (Z.to_nat RT_FINSH_ARG_MAX) None) Ht eq_refl) as [H1 H2].
  split_and!; [done| |].
  - intros _ L. destruct (H1 L) as (t' & ps & L' & E & A). exists t', ps. split; [done|].
    pose proof (Forall2_length _ _ _ A) as Lp. rewrite argv_of_inserts in E by lia. erewrite lift_step by exact E.
    destruct t as [|c u]; [done|]. pose proof (arguments_some c u (Hb c u eq_refl)). by test_false.
  - intros _ L. unfold mbind, ST_bind, lift. by rewrite (H2 L).
Qed.

(** What a line is: a command of the table, or a script, or a directory, or nothing that
    is known. *)
Definition not_a_command (t post : list Z) : ST W Z :=
  r ← exec_script (t ++ 0 :: post) (len t);
  if r =? 0 then mret 0 else
  r ← change_dir (t ++ 0 :: post);
  if r =? 0 then mret 0 else
  _ ← console_puts (take (space_len t) t ++ NOT_FOUND);
  mret (-1).

(** C17: [msh_exec] skips the blanks in front; a line of blanks is done; a line whose first
    word is a command of the table runs it with the arguments of the line, each a string
    of the line, when there are at most ten, and writes behind [argv] when there are
    more; any other line is tried as a script, then as a directory, and then reported
    with the text before its first space. *)
Theorem msh_exec_ok (line post : list Z) (s : W) :
  text_ok line -> len line < 2 ^ 32 ->
  let pre := take (blanks line) line in let t := drop (blanks line) line in
  let f := find_cmd syscall_table names (take (word_len t) t) in let ws := arguments Between line in
  let run := msh_exec (line ++ 0 :: post) 0 (len line) s in
  (t = [] -> run = Ok (0, s)) /\
  (t <> [] -> f <> 0 -> len ws <= RT_FINSH_ARG_MAX -> exists t' ps,
     args_in (pre ++ t' ++ 0 :: post) ps ws /\ run = run_command f (len ws) (argv_of ps) (pre ++ t' ++ 0 :: post) s) /\
  (t <> [] -> f <> 0 -> RT_FINSH_ARG_MAX < len ws -> run = Fault) /\
  (t <> [] -> f = 0 -> run = not_a_command t post s).
Proof.
  intros Ht L pre t f ws run. unfold run, msh_exec. pose proof (blanks_le line) as Lb.
  assert (Lp : len pre = Z.of_nat (blanks line)) by (unfold pre; rewrite length_take; lia).
  erewrite lift_step.
  2: { apply (trim_ok line [] post); [done|rewrite length_app; cbn; lia]. }
  fold t. cbn [length]. rewrite Z.add_0_l, <- Lp.
  assert (Eb : line ++ 0 :: post = pre ++ t ++ 0 :: post) by (unfold pre, t; by rewrite app_assoc, take_drop).
  rewrite Eb. assert (Hb : forall c u, t = c :: u -> is_blank c = false) by (intros c u; apply blanks_stop).
  assert (T : text_ok t) by (by apply Forall_drop).
  destruct (decide (t = [])) as [Et|Nt]; [rewrite Et; by split_and!|].
  assert (L0 : len t <> 0) by (intros K; by apply Nt, length_zero_iff_nil, Nat2Z.inj). test_false.
  destruct (exec_cmd_ok pre t post s T Hb Nt) as (H1 & H2 & H3). fold f in H1, H2, H3.
  assert (Ew : arguments Between t = ws) by apply arguments_blanks. rewrite Ew in *.
  split_and!; [done| | |]; intros _ F.
  - intros A. destruct (H2 F A) as (t' & ps & Hp & E). exists t', ps. split; [done|].
    unfold mbind at 1, ST_bind at 1. rewrite E. unfold mbind, ST_bind.
    by destruct (run_command _ _ _ _ s) as [[r s']| |].
  - intros A. unfold mbind at 1, ST_bind at 1. by rewrite (H3 F A).
  - unfold mbind at 1, ST_bind at 1. rewrite (H1 F). unfold not_a_command. cbn [Z.eqb RT_ERROR Z.opp].
    assert (D : drop (Z.to_nat (len pre)) (pre ++ t ++ 0 :: post) = t ++ 0 :: post) by (by rewrite Nat2Z.id, drop_app_length).
    cbn beta iota. rewrite D. apply bind_same. intros r s1. destruct (r =? 0); [done|]. apply bind_same. intros r2 s2.
    destruct (r2 =? 0); [done|]. pose proof (space_len_le t) as Lk. erewrite lift_step.
    2: { apply (first_space_ok t pre post); [done|]. rewrite !length_app. lia. }
    erewrite lift_step by apply store_space_ok. erewrite lift_step; [done|]. apply text_at_ok. by apply Forall_take.
Qed.

End Exec.

(** ** Completion *)

Fixpoint common (a b : list Z) : list Z :=
  match a, b with x :: a, y :: b => if x =? y then x :: common a b else [] | _, _ => [] end.

Lemma common_prefix (a : list Z) : forall b, common a b `prefix_of` a /\ common a b `prefix_of` b.
Proof.
  induction a as [|x a IH]; intros [|y b]; cbn; try (split; apply prefix_nil). destruct (Z.eqb_spec x y) as [->|N]; [|split; apply prefix_nil].
  destruct (IH b). split; by apply prefix_cons.
Qed.

Lemma common_longest (d : list Z) : forall a b, d `prefix_of` a -> d `prefix_of` b -> d `prefix_of` common a b.
Proof.
  induction d as [|x d IH]; intros a b [k ->] [k' ->]; [apply prefix_nil|]. cbn. rewrite Z.eqb_refl.
  apply prefix_cons, IH; by eexists.
Qed.

Lemma str_common_ok (a : list Z) : forall b sa sb, Str.cstring a sa -> Str.cstring b sb -> str_common sa sb = Ok (len (common a b)).
Proof.
  induction a as [|x a IH]; intros b sa sb Ha Hb.
  - apply Str.cstring_nil in Ha as [? ->]. done.
  - apply Str.cstring_cons in Ha as (sa' & -> & Hx & Ha). cbn [str_common]. test_false. destruct b as [|y b].
    + apply Str.cstring_nil in Hb as [? ->]. done.
    + apply Str.cstring_cons in Hb as (sb' & -> & Hy & Hb). test_false. cbn [common]. destruct (Z.eqb_spec x y) as [->|N]; [|done].
      rewrite (IH b sa' sb' Ha Hb). cbn -[Z.of_nat]. f_equal. lia.
Qed.

(** The longest text all of [ms] begin with. *)
Definition best (c : list Z) (ms : list (list Z)) : Prop :=
  (forall m, m ∈ ms -> c `prefix_of` m) /\ (forall d, (forall m, m ∈ ms -> d `prefix_of` m) -> d `prefix_of` c).

(** The commands that begin with [p]. *)
Definition matches (names : list (list Z)) (p : list Z) : list (list Z) :=
  drop 6 <$> filter (fun n => (PREFIX ++ p) `prefix_of` n) names.

Lemma prefix_take_iff (p n : list Z) : p `prefix_of` n <-> take (length p) n = p.
Proof.
  split; [intros [k ->]; apply take_app_length|]. intros <-. apply prefix_take.
Qed.

Lemma command_prefix (n p : list Z) : (PREFIX ++ p) `prefix_of` n <-> take 6 n = PREFIX /\ p `prefix_of` drop 6 n.
Proof.
  split.
  - intros [k ->]. split; [done|]. exists k. by rewrite <- app_assoc.
  - intros [H [k E]]. exists k. rewrite <- (take_drop 6 n), H, E. by rewrite <- app_assoc.
Qed.

Definition listed (ms : list (list Z)) : list Z := ms ≫= (fun m => m ++ [10]).

(** What the loop has found after the commands [ms]. *)
Definition found (ms : list (list Z)) (p : list Z) (name_ptr : option (list Z)) (k : Z) : Prop :=
  match name_ptr with
  | None => ms = [] /\ k = 0
  | Some sf => exists nf, Str.cstring nf sf /\ 0 < k <= len nf /\ best (take (Z.to_nat k) nf) ms /\ p `prefix_of` nf
  end.

Lemma found_more (ms : list (list Z)) (p m sf nf : list Z) (k : Z) :
  Str.cstring nf sf -> 0 < k <= len nf -> best (take (Z.to_nat k) nf) ms -> p `prefix_of` nf -> p <> [] -> p `prefix_of` m ->
  found (ms ++ [m]) p (Some sf) (if len (common nf m) <? k then len (common nf m) else k).
Proof.
  intros Hc Hk [B1 B2] Pn Np Pm. destruct (common_prefix nf m) as [C1 C2]. set (c := common nf m) in *.
  assert (Pc : p `prefix_of` c) by (by apply common_longest). assert (Lc : 0 < len c).
  { apply prefix_length in Pc. destruct p; [done|]. cbn in Pc. lia. }
  pose proof (prefix_length _ _ C1). exists nf. split; [done|]. split; [case_test; lia|]. split; [|done].
  assert (Ec : c = take (length c) nf) by (symmetry; by apply prefix_take_iff).
  case_test.
  - rewrite Nat2Z.id, <- Ec. split.
    + intros x [Hx|Hx%list_elem_of_singleton]%elem_of_app; [|by subst]. transitivity (take (Z.to_nat k) nf); [|by apply B1].
      rewrite Ec. apply prefix_take_iff. rewrite length_take, take_take. f_equal. lia.
    + intros d Hd. apply common_longest; [|apply Hd; set_solver].
      transitivity (take (Z.to_nat k) nf); [apply B2; set_solver|apply prefix_take].
  - split.
    + intros x [Hx|Hx%list_elem_of_singleton]%elem_of_app; [by apply B1|subst]. transitivity c; [|done].
      rewrite Ec. apply prefix_take_iff. rewrite length_take, take_take. f_equal. lia.
    + intros d Hd. apply B2. set_solver.
Qed.

Lemma found_first (p m sm : list Z) : Str.cstring m sm -> p `prefix_of` m -> p <> [] -> found [m] p (Some sm) (len m).
Proof.
  intros Hc Hp Np. exists m. split; [done|]. split.
  { apply prefix_length in Hp. destruct p; [done|]. cbn in Hp. lia. }
  split; [|done]. rewrite Nat2Z.id, firstn_all. split; [by intros x ->%list_elem_of_singleton|]. intros d Hd. apply Hd. set_solver.
Qed.

Lemma complete_loop_ok (t : list finsh_syscall) (names : list (list Z)) (p post : list Z) :
  named t names -> text_ok p -> p <> [] -> forall name_ptr k out ms, found ms p name_ptr k ->
  exists name_ptr' k', complete_loop t (p ++ 0 :: post) name_ptr k out = Ok (name_ptr', k', out ++ listed (matches names p)) /\
    found (ms ++ matches names p) p name_ptr' k'.
Proof.
  intros N Hp Np. induction N as [|x n t names Hn N IH]; intros name_ptr k out ms F.
  { exists name_ptr, k. by rewrite !app_nil_r. }
  cbn [complete_loop]. destruct (strncmp_word n PREFIX (sc_name x) [0] Hn) as (r & E & Hr); [by repeat constructor; lia|].
  change (len PREFIX) with 6 in E. change (PREFIX ++ [0]) with CMD_PREFIX in E. rewrite E. cbn [mbind res_bind].
  assert (Cp : Str.cstring p (p ++ 0 :: post)) by (by split; [|eexists]).
  assert (Skip : ~ (PREFIX ++ p) `prefix_of` n -> exists name_ptr' k',
    complete_loop t (p ++ 0 :: post) name_ptr k out = Ok (name_ptr', k', out ++ listed (matches (n :: names) p)) /\
    found (ms ++ matches (n :: names) p) p name_ptr' k').
  { intros Nn. unfold matches. rewrite filter_cons_False by done. by apply IH. }
  destruct (Z.eqb_spec r 0) as [R|R]; cbn [negb]; [|apply Skip; rewrite command_prefix; intros [K _]; by apply R, Hr].
  assert (K : take 6 n = PREFIX) by (by apply Hr). assert (L6 : (6 <= length n)%nat).
  { apply (f_equal length) in K. rewrite length_take in K. change (length PREFIX) with 6%nat in K. lia. }
  set (m := drop 6 n) in *. set (sm := drop 6 (sc_name x)). assert (Cm : Str.cstring m sm) by (by apply Str.cstring_drop).
  rewrite (Str.rt_strlen_ok p _ Cp). cbn [mbind res_bind].
  destruct (Str.strncmp_prefix_of p m (p ++ 0 :: post) sm Cp Cm) as (r2 & E2 & Hr2). rewrite E2. cbn [mbind res_bind].
  destruct (Z.eqb_spec r2 0) as [R2|R2]; cbn [negb]; [|apply Skip; rewrite command_prefix; intros [_ K2]; by apply R2, Hr2].
  assert (Pm : p `prefix_of` m) by (by apply Hr2).
  rewrite (Str.rt_strlen_ok m _ Cm). cbn [mbind res_bind].
  assert (Em : matches (n :: names) p = m :: matches names p).
  { unfold matches. rewrite filter_cons_True by (by apply command_prefix). done. }
  assert (Et : take (Z.to_nat (len m)) sm = m) by (destruct Cm as [_ [rest ->]]; by rewrite Nat2Z.id, take_app_length).
  assert (Go : forall np k1, found (ms ++ [m]) p np k1 -> exists name_ptr' k',
    complete_loop t (p ++ 0 :: post) np k1 (out ++ take (Z.to_nat (len m)) sm ++ [10]) =
      Ok (name_ptr', k', out ++ listed (matches (n :: names) p)) /\ found (ms ++ matches (n :: names) p) p name_ptr' k').
  { intros np k1 F1. destruct (IH np k1 (out ++ take (Z.to_nat (len m)) sm ++ [10]) _ F1) as (np' & k' & E1 & F').
    exists np', k'. rewrite E1, Em, Et. unfold listed. cbn [mbind list_bind]. rewrite <- !app_assoc in *. done. }
  destruct name_ptr as [sf|]; cbn [found] in F.
  - destruct F as (nf & Hc & Hk & B & Pn). rewrite !(proj2 (Z.eqb_neq k 0)) by lia. cbn [deref mbind res_bind].
    rewrite (str_common_ok nf m) by done. cbn [mbind res_bind]. by apply Go, found_more.
  - destruct F as [-> ->]. cbn [Z.eqb deref mbind res_bind]. rewrite (str_common_ok m m) by done. cbn [mbind res_bind].
    apply Go. rewrite (proj2 (Z.ltb_ge _ _)). { by apply found_first. }
    destruct (common_prefix m m) as [_ _]. pose proof (prefix_length _ _ (common_longest m m m ltac:(done) ltac:(done))). lia.
Qed.

Lemma find_space_none (t : list Z) (post : list Z) (n : nat) : 32 ∉ t -> (n <= length t)%nat -> find_space n (t ++ 0 :: post) = Ok None.
Proof.
  intros N. induction n as [|n IH]; intros L; [done|]. cbn [find_space].
  destruct (lookup_lt_is_Some_2 (t ++ [0]) (S n)) as [c Hc]; [rewrite length_app; cbn; lia|].
  assert (Ec : load_at (t ++ 0 :: post) (Z.of_nat (S n)) = Ok c).
  { apply load_at_ok; [lia|]. rewrite Nat2Z.id. apply (lookup_app_l_Some (t ++ [0]) post) in Hc. by rewrite <- app_assoc in Hc. }
  rewrite Ec. cbn [mbind res_bind]. rewrite (proj2 (Z.eqb_neq c 32)); [apply IH; lia|].
  intros ->. apply list_elem_of_lookup_2, elem_of_app in Hc as [Hc|Hc%list_elem_of_singleton]; [by apply N|lia].
Qed.

Section Complete.
Context {W : Type} {EV : Environment W} {SY : Symbols}.
Variable names : list (list Z).
Hypothesis Hnames : named syscall_table names.

(** C25: a line without spaces is completed to the longest text that all commands of the
    table that begin with it begin with; those commands are listed; without such a
    command the line stays as it is. *)
Theorem msh_auto_complete_ok (p post : list Z) (s : W) :
  text_ok p -> p <> [] -> 32 ∉ p -> Forall (fun n => len n <= len p + len post) names ->
  exists line, msh_auto_complete (p ++ 0 :: post) s = (_ ← console_puts (listed (matches names p)); mret line) s /\
    (matches names p = [] -> line = p ++ 0 :: post) /\
    (matches names p <> [] -> exists c, best c (matches names p) /\ p `prefix_of` c /\
       line = c ++ drop (length c) (p ++ 0 :: post)).
Proof.
  intros Hp Np Ns Hl. unfold msh_auto_complete. destruct p as [|c p'] eqn:Ep; [done|]. rewrite <- Ep in *.
  assert (Hc : 1 <= c <= 255) by (rewrite Ep in Hp; by inversion Hp).
  erewrite lift_step; [|rewrite Ep; by apply load_at_ok]. test_false.
  erewrite lift_step by (apply (Str.rt_strlen_ok p); by split; [|eexists]).
  erewrite lift_step by (by apply find_space_none; [|lia]).
  destruct (complete_loop_ok syscall_table names p post Hnames Hp Np None 0 [] [] ltac:(done)) as (np & k & E & F).
  rewrite ret_step. erewrite lift_step by exact E. cbn [app] in *.
  destruct np as [sf|]; cbn [found] in F.
  - destruct F as (nf & Cn & Hk & B & Pn). set (c0 := take (Z.to_nat k) nf) in *.
    assert (Lc : len c0 = k) by (unfold c0; rewrite length_take; lia).
    destruct (matches names p) as [|m0 ms0] eqn:Em.
    { destruct B as [_ B]. exfalso. pose proof (prefix_length _ _ (B (c0 ++ [0]) ltac:(set_solver))) as Q. rewrite length_app in Q. cbn in Q. lia. }
    rewrite <- Em in *.
    assert (Pc : p `prefix_of` c0).
    { apply B. intros m Hm. unfold matches in Hm. apply list_elem_of_fmap in Hm as (n & -> & Hn). apply list_elem_of_filter in Hn as [Hn _].
      by apply command_prefix in Hn as [_ ?]. }
    assert (Lk : len c0 <= len (p ++ 0 :: post)).
    { assert (Hm : m0 ∈ matches names p) by (rewrite Em; set_solver). pose proof (prefix_length _ _ (proj1 B _ Hm)) as Q.
      unfold matches in Hm. apply list_elem_of_fmap in Hm as (n & -> & Hn). apply list_elem_of_filter in Hn as [_ Hn].
      rewrite Forall_forall in Hl. apply Hl in Hn. rewrite length_drop in Q. rewrite length_app. cbn [length]. lia. }
    exists (c0 ++ drop (length c0) (p ++ 0 :: post)). split; [|split; [by rewrite Em|by exists c0]].
    apply bind_same. intros [] s'. rewrite (Str.rt_strncpy_ok nf) by (done || lia).
    unfold Mem.wr. change (Z.to_nat 0) with 0%nat. rewrite take_app_le by lia. fold c0. by rewrite list_inserts_0 by lia.
  - destruct F as [Em ->]. exists (p ++ 0 :: post). rewrite Em. by split_and!.
Qed.

End Complete.

(** ** An example

    The table has [list] and [ls] for the shell, and [c] for the other one; a command
    returns the number of its arguments, the state collects what is printed. *)

Module Demo.

Definition entry (name : list Z) (f : Z) : finsh_syscall := FinshSyscall 0 (name ++ [0]) f.
Definition list_ : list Z := [108; 105; 115; 116].
Definition ls : list Z := [108; 115].

#[local] Instance symbols : Symbols := {|
  sysvar_table := []; global_sysvar_list := []; global_syscall_list := []; global_variable_addr := 0;
  syscall_table := [entry [99] 1; entry (PREFIX ++ list_) 2; entry (PREFIX ++ ls) 3] |}.

#[local] Instance environment : Environment (list Z) := {|
  run_command f argc argv buf := mret (10 * f + argc);
  exec_script t n := mret (-1);
  change_dir t := mret (-1);
  console_puts t := modify (fun out => out ++ t);
  msh_help := mret tt;
  msh_auto_complete_path line k := mret line |}.

Definition names : list (list Z) := [[99]; PREFIX ++ list_; PREFIX ++ ls].

Lemma names_ok : named syscall_table names.
Proof. repeat constructor; try lia; by eexists. Qed.

(** [ ls "a b" c] *)
Definition line : list Z := [32; 108; 115; 32; 34; 97; 32; 98; 34; 32; 99].

Lemma line_ok : text_ok line.
Proof. repeat constructor; lia. Qed.

(** Eleven arguments: the last is stored behind [argv]. *)
Definition many : list Z := [108; 115; 32; 97; 32; 97; 32; 97; 32; 97; 32; 97; 32; 97; 32; 97; 32; 97; 32; 97; 32; 97].

Lemma eleven_arguments : msh_exec (many ++ replicate 58 0) 0 (len many) [] = Fault.
Proof. by vm_compute. Qed.

Lemma msh_exec_ok_witness :
  exists t' ps, args_in ([32] ++ t' ++ 0 :: []) ps [ls; [97; 32; 98]; [99]] /\
    msh_exec (line ++ [0]) 0 (len line) [] = Ok (33, []).
Proof.
  pose proof (msh_exec_ok names names_ok line [] [] line_ok eq_refl) as (_ & H & _).
  destruct H as (t' & ps & A & E); [done|done|done|]. exists t', ps. split; [exact A|]. by rewrite E.
Defined.

Lemma msh_auto_complete_ok_witness : exists l,
  msh_auto_complete ([108] ++ 0 :: replicate 78 0) [] =
    (_ ← console_puts (listed [list_; ls]); mret l) ([] : list Z) /\ best [108] [list_; ls].
Proof.
  destruct (msh_auto_complete_ok names names_ok [108] (replicate 78 0) []) as (l & E & _ & H).
  - repeat constructor; lia.
  - done.
  - by apply (bool_decide_unpack _).
  - repeat constructor; cbn; lia.
  - exists l. split; [exact E|]. split; [|intros d Hd; pose proof (Hd list_ ltac:(set_solver)) as P1; pose proof (Hd ls ltac:(set_solver)) as P2;
      exact (common_longest d list_ ls P1 P2)].
    intros m [->|[->|[]%not_elem_of_nil]%elem_of_cons]%elem_of_cons; by eexists.
Defined.

End Demo.
