(* ===== verification/Shell.v ===== *)
(** * The shell thread (Finsh/shell.c)

    The line editor: keys, history, and the line that is run.  The characters the device
    has received are a list that is read from the front; what the thread itself prints
    is a list of bytes; a command works on the world [W] of [Environment].  One round is
    what the thread does after [rt_sem_take] of [rx_sem], until no character is left or
    a line has been run. *)

From Stdlib Require Import Lia.
From S2P Require Import Prelude KState KService FinshVm FinshCompiler Msh.
From S2P Require Printf.

Definition FINSH_CMD_SIZE : Z := 80.
Definition FINSH_HISTORY_LINES : Z := 5.

Inductive input_stat := WAIT_NORMAL | WAIT_SPEC_KEY | WAIT_FUNC_KEY.

Record shell := MkShell {
  stat : input_stat;
  echo_mode : Z;
  current_history : Z;
  history_count : Z;
  cmd_history : list (list Z);
  line : list Z;
  line_position : Z;
  line_curpos : Z }.

(** The shell, the characters that wait, the output, the world. *)
Record console (W : Type) := Console { c_shell : shell; c_input : list Z; c_out : list Z; c_world : W }.
Arguments Console {W}. Arguments c_shell {W}. Arguments c_input {W}. Arguments c_out {W}. Arguments c_world {W}.

(** [finsh_get_prompt] depends on the working directory, whose name has no [%] here:
    [rt_kprintf(FINSH_PROMPT)] takes the prompt as its format. *)
Class Prompt (W : Type) := {
  finsh_get_prompt : W -> list Z;
  prompt_plain : forall w, Forall (fun c => c <> 0 /\ c <> 37) (finsh_get_prompt w);
}.

Definition with_stat (x : input_stat) (s : shell) : shell :=
  MkShell x (echo_mode s) (current_history s) (history_count s) (cmd_history s) (line s) (line_position s) (line_curpos s).
Definition with_current (x : Z) (s : shell) : shell :=
  MkShell (stat s) (echo_mode s) x (history_count s) (cmd_history s) (line s) (line_position s) (line_curpos s).
Definition with_history (h : list (list Z)) (n : Z) (s : shell) : shell :=
  MkShell (stat s) (echo_mode s) (current_history s) n h (line s) (line_position s) (line_curpos s).
Definition with_line (l : list Z) (s : shell) : shell :=
  MkShell (stat s) (echo_mode s) (current_history s) (history_count s) (cmd_history s) l (line_position s) (line_curpos s).
Definition with_cursor (p c : Z) (s : shell) : shell :=
  MkShell (stat s) (echo_mode s) (current_history s) (history_count s) (cmd_history s) (line s) p c.
Definition with_echo (e : Z) (s : shell) : shell :=
  MkShell (stat s) e (current_history s) (history_count s) (cmd_history s) (line s) (line_position s) (line_curpos s).

Section Thread.
Context {W : Type} {EV : Environment W} {PR : Prompt W} {SY : Symbols}.

Abbreviation M := (ST (console W)).

Definition on_shell (f : shell -> shell) : M unit :=
  modify (fun s => Console (f (c_shell s)) (c_input s) (c_out s) (c_world s)).
Definition on_world {A} (m : ST W A) : M A := fun s =>
  match m (c_world s) with
  | Ok (a, w) => Ok (a, Console (c_shell s) (c_input s) (c_out s) w)
  | AssertFail => AssertFail
  | Fault => Fault
  end.
Definition shell_of : M shell := gets c_shell.
(** [rt_kprintf] of a format whose text is [t], and of a format without arguments. *)
Definition kprint (t : list Z) : M unit :=
  modify (fun s => Console (c_shell s) (c_input s) (c_out s ++ Printf.console_text t) (c_world s)).
Definition kprint_format (fmt : list Z) : M unit :=
  t ← lift (Printf.format_text (fmt ++ [0]) []); kprint t.
Definition FINSH_PROMPT : M (list Z) := w ← gets c_world; mret (finsh_get_prompt w).

(** [rt_device_read(shell->device, 0, &ch, 1)] *)
Definition read_char : M (option Z) := fun s =>
  match c_input s with
  | ch :: input => Ok (Some ch, Console (c_shell s) input (c_out s) (c_world s))
  | [] => Ok (None, s)
  end.

Definition finsh_set_echo (echo : Z) : M unit := on_shell (with_echo (Z.land echo 1)).
Definition finsh_get_echo : M Z := s ← shell_of; mret (echo_mode s).

(** [n] times a backspace. *)
Definition backspaces (n : Z) : M unit := kprint (replicate (Z.to_nat n) 8).

(** ** History *)

Definition shell_handle_history : M bool :=
  _ ← kprint [27; 91; 50; 75; 13];
  p ← FINSH_PROMPT; s ← shell_of; t ← lift (text_at (line s) 0);
  _ ← kprint (p ++ t);
  mret false.

Fixpoint shift_rows (n : nat) (index : Z) (h : list (list Z)) : res (list (list Z)) :=
  match n with
  | O => mret h
  | S n => x ← load_at h (index + 1); h ← store_at h index x; shift_rows n (index + 1) h
  end.

(** [memset] of the row, then the text of the line. *)
Definition fill_row (h : list (list Z)) (index : Z) (l : list Z) (n : Z) : res (list (list Z)) :=
  row ← memcpy_at (replicate (Z.to_nat FINSH_CMD_SIZE) 0) 0 l 0 n; store_at h index row.

Definition shell_push_history : M unit :=
  s ← shell_of;
  _ ← (if negb (line_position s =? 0) then
         if FINSH_HISTORY_LINES <=? history_count s then
           h ← lift (shift_rows (Z.to_nat (FINSH_HISTORY_LINES - 1)) 0 (cmd_history s));
           h ← lift (fill_row h (FINSH_HISTORY_LINES - 1) (line s) (line_position s));
           on_shell (with_history h FINSH_HISTORY_LINES)
         else
           h ← lift (fill_row (cmd_history s) (history_count s) (line s) (line_position s));
           on_shell (with_history h (u16 (history_count s + 1)))
       else mret tt);
  s ← shell_of;
  on_shell (with_current (history_count s)).

(** The command at [current_history] becomes the line. *)
Definition recall : M bool :=
  s ← shell_of;
  row ← lift (load_at (cmd_history s) (current_history s));
  l ← lift (memcpy_at (line s) 0 row 0 FINSH_CMD_SIZE);
  _ ← on_shell (with_line l);
  n ← lift (Str.rt_strlen l);
  _ ← on_shell (with_cursor (u8 n) (u8 n));
  shell_handle_history.

(** ** Keys *)

Definition up_key : M unit :=
  s ← shell_of;
  if 0 <? current_history s then
    _ ← on_shell (with_current (current_history s - 1)); _ ← recall; mret tt
  else on_shell (with_current 0).

Definition down_key : M unit :=
  s ← shell_of;
  if current_history s <? history_count s - 1 then
    _ ← on_shell (with_current (current_history s + 1)); _ ← recall; mret tt
  else if negb (history_count s =? 0) then
    _ ← on_shell (with_current (history_count s - 1)); _ ← recall; mret tt
  else mret tt.

Definition left_key : M unit :=
  s ← shell_of;
  if negb (line_curpos s =? 0) then
    _ ← kprint [8]; on_shell (with_cursor (line_position s) (line_curpos s - 1))
  else mret tt.

Definition right_key : M unit :=
  s ← shell_of;
  if line_curpos s <? line_position s then
    c ← lift (load_at (line s) (line_curpos s));
    _ ← kprint [c];
    on_shell (with_cursor (line_position s) (line_curpos s + 1))
  else mret tt.

Definition shell_auto_complete : M unit :=
  _ ← kprint [10];
  s ← shell_of;
  l ← on_world (msh_auto_complete (line s));
  _ ← on_shell (with_line l);
  p ← FINSH_PROMPT; t ← lift (text_at l 0);
  kprint (p ++ t).

Definition tab_key : M unit :=
  s ← shell_of;
  _ ← backspaces (line_curpos s);
  _ ← shell_auto_complete;
  s ← shell_of;
  n ← lift (Str.rt_strlen (line s));
  on_shell (with_cursor (u8 n) (u8 n)).

Definition backspace_key : M unit :=
  s ← shell_of;
  if line_curpos s =? 0 then mret tt else
  let position := u8 (line_position s - 1) in
  let curpos := line_curpos s - 1 in
  _ ← on_shell (with_cursor position curpos);
  if curpos <? position then
    l ← lift (Mem.rt_memmove (line s) curpos (curpos + 1) (position - curpos));
    l ← lift (store_at l position 0);
    _ ← on_shell (with_line l);
    t ← lift (text_at l curpos);
    _ ← kprint ([8] ++ t ++ [32; 32; 8]);
    backspaces (position - curpos + 1)
  else
    _ ← kprint [8; 32; 8];
    l ← lift (store_at (line s) position 0);
    on_shell (with_line l).

Definition enter_key : M unit :=
  _ ← shell_push_history;
  s ← shell_of;
  _ ← (if negb (echo_mode s =? 0) then kprint [10] else mret tt);
  _ ← on_world (msh_exec (line s) 0 (line_position s));
  p ← FINSH_PROMPT;
  _ ← kprint_format p;
  _ ← on_shell (with_line (replicate (Z.to_nat FINSH_CMD_SIZE) 0));
  on_shell (with_cursor 0 0).

Definition normal_key (ch : Z) : M unit :=
  s ← shell_of;
  let position := if FINSH_CMD_SIZE <=? line_position s then 0 else line_position s in
  let curpos := line_curpos s in
  _ ← (if curpos <? position then
         l ← lift (Mem.rt_memmove (line s) (curpos + 1) curpos (position - curpos));
         l ← lift (store_at l curpos ch);
         _ ← on_shell (with_line l);
         _ ← (if negb (echo_mode s =? 0) then t ← lift (text_at l curpos); kprint t else mret tt);
         backspaces (position - curpos)
       else
         l ← lift (store_at (line s) position ch);
         _ ← on_shell (with_line l);
         if negb (echo_mode s =? 0) then kprint [ch] else mret tt);
  let position := u8 (position + 1) in
  on_shell (if 80 <=? position then with_cursor 0 0 else with_cursor position (u8 (curpos + 1))).

(** From the test for CR on; whether the line has been run. *)
Definition shell_normal (ch : Z) : M bool :=
  if ch =? 9 then _ ← tab_key; mret false else
  if (ch =? 127) || (ch =? 8) then _ ← backspace_key; mret false else
  ch ← (if ch =? 13 then
          next ← read_char;
          mret (match next with Some n => if n =? 0 then 13 else n | None => 13 end)
        else mret ch);
  if (ch =? 13) || (ch =? 10) then _ ← enter_key; mret true else
  _ ← normal_key ch; mret false.

Definition shell_char (ch : Z) : M bool :=
  s ← shell_of;
  if ch =? 0x1b then _ ← on_shell (with_stat WAIT_SPEC_KEY); mret false else
  match stat s with
  | WAIT_NORMAL => shell_normal ch
  | WAIT_SPEC_KEY =>
      if ch =? 0x5b then _ ← on_shell (with_stat WAIT_FUNC_KEY); mret false else
      _ ← on_shell (with_stat WAIT_NORMAL); shell_normal ch
  | WAIT_FUNC_KEY =>
      _ ← on_shell (with_stat WAIT_NORMAL);
      if ch =? 0x41 then _ ← up_key; mret false else
      if ch =? 0x42 then _ ← down_key; mret false else
      if ch =? 0x44 then _ ← left_key; mret false else
      if ch =? 0x43 then _ ← right_key; mret false else
      shell_normal ch
  end.

(** One round; every pass takes a character. *)
Fixpoint shell_round (fuel : nat) : M unit :=
  match fuel with
  | O => hang
  | S fuel =>
      ch ← read_char;
      match ch with
      | None => mret tt
      | Some ch => done ← shell_char ch; if done : bool then mret tt else shell_round fuel
      end
  end.

Definition finsh_round : M unit := input ← gets c_input; shell_round (S (length input)).

End Thread.
