(* ===== verification/ShellSpec.v ===== *)
(** * The shell thread: what the keys do

    The line editor refines two lists, the text before and the text behind the cursor,
    with the lines run before; what it prints keeps a terminal in step with them; and a
    round on the bytes of some keys and the end of a line runs exactly that text. *)

From Stdlib Require Import Lia.
From S2P Require Import Prelude KState KService FinshVm FinshCompiler Msh MshSpec Shell.

(** ** Keys and the editor *)

Inductive key := Char (c : Z) | Backspace | Left | Right | Up | Down.

Record editor := Editor { before : list Z; after : list Z; hist : list (list Z); pos : nat }.

Definition text (ed : editor) : list Z := before ed ++ after ed.

Definition recalled (i : nat) (ed : editor) : editor :=
  match hist ed !! i with Some t => Editor t [] (hist ed) i | None => ed end.

Definition ed_key (k : key) (ed : editor) : editor :=
  match k with
  | Char c => Editor (before ed ++ [c]) (after ed) (hist ed) (pos ed)
  | Backspace => Editor (removelast (before ed)) (after ed) (hist ed) (pos ed)
  | Left =>
      match last (before ed) with
      | Some c => Editor (removelast (before ed)) (c :: after ed) (hist ed) (pos ed)
      | None => ed
      end
  | Right =>
      match after ed with
      | c :: a => Editor (before ed ++ [c]) a (hist ed) (pos ed)
      | [] => ed
      end
  | Up => match pos ed with O => ed | S i => recalled i ed end
  | Down =>
      match hist ed with
      | [] => ed
      | _ => recalled (Nat.min (S (pos ed)) (length (hist ed) - 1)) ed
      end
  end.

(** The line is run: it goes into the history of five, the editor is empty. *)
Definition ed_enter (ed : editor) : editor :=
  let h := match text ed with
           | [] => hist ed
           | t => (if (5 <=? length (hist ed))%nat then drop 1 (hist ed) else hist ed) ++ [t]
           end in
  Editor [] [] h (length h).

(** What the terminal sends. *)
Definition bytes (k : key) : list Z :=
  match k with
  | Char c => [c]
  | Backspace => [127]
  | Up => [0x1b; 0x5b; 0x41]
  | Down => [0x1b; 0x5b; 0x42]
  | Right => [0x1b; 0x5b; 0x43]
  | Left => [0x1b; 0x5b; 0x44]
  end.

Definition printable (c : Z) : Prop := 32 <= c <= 126.

(** A printable character, with room for it. *)
Definition key_ok (k : key) (ed : editor) : Prop :=
  match k with Char c => printable c /\ len (text ed) < 79 | _ => True end.

Fixpoint keys_ok (ks : list key) (ed : editor) : Prop :=
  match ks with [] => True | k :: ks => key_ok k ed /\ keys_ok ks (ed_key k ed) end.

(** ** The terminal

    A line of cells, cut at the cursor, and how much of the sequence [ESC \[ 2 K], which
    clears the line, has come. *)

Record term := Term { t_left : list Z; t_right : list Z; t_escape : nat }.

Definition term_step (tm : term) (c : Z) : term :=
  match t_escape tm with
  | O =>
      if c =? 8 then
        match last (t_left tm) with
        | Some d => Term (removelast (t_left tm)) (d :: t_right tm) 0
        | None => tm
        end
      else if c =? 10 then Term [] [] 0
      else if c =? 13 then Term [] (t_left tm ++ t_right tm) 0
      else if c =? 27 then Term (t_left tm) (t_right tm) 1
      else Term (t_left tm ++ [c]) (tail (t_right tm)) 0
  | 3%nat => Term (replicate (length (t_left tm)) 32) [] 0
  | n => Term (t_left tm) (t_right tm) (S n)
  end.

Definition term_run (o : list Z) (tm : term) : term := foldl term_step tm o.

(** The terminal shows the prompt, the text, and the cursor where it is. *)
Definition shows (prompt : list Z) (ed : editor) (tm : term) : Prop :=
  exists k, tm = Term (prompt ++ before ed) (after ed ++ replicate k 32) 0.

Definition shown (t : list Z) : Prop := Forall printable t.

(** A prompt that can be shown, and that fits into the buffer of the console with a line
    behind it. *)
Definition prompt_ok (p : list Z) : Prop := shown p /\ len p <= 47.

Lemma term_run_app (a b : list Z) (tm : term) : term_run (a ++ b) tm = term_run b (term_run a tm).
Proof. apply foldl_app. Qed.

Lemma term_text (t : list Z) : forall l r, shown t -> term_run t (Term l r 0) = Term (l ++ t) (drop (length t) r) 0.
Proof.
  induction t as [|c t IH]; intros l r H; [by rewrite app_nil_r, drop_0|]. inversion H as [|? ? Hc Ht]; subst.
  unfold printable in Hc. change (term_run (c :: t) (Term l r 0)) with (term_run t (term_step (Term l r 0) c)).
  unfold term_step. cbn [t_escape t_left t_right]. rewrite !(proj2 (Z.eqb_neq c _)) by lia.
  rewrite IH by done. rewrite <- app_assoc. destruct r; cbn; by rewrite ?drop_nil.
Qed.

Lemma term_backs (a : list Z) : forall l r, term_run (replicate (length a) 8) (Term (l ++ a) r 0) = Term l (a ++ r) 0.
Proof.
  induction a as [|c a IH] using rev_ind; intros l r; [by rewrite app_nil_r|].
  rewrite length_app, Nat.add_comm. cbn [length Nat.add replicate].
  change (term_run (8 :: replicate (length a) 8) (Term (l ++ a ++ [c]) r 0)) with
    (term_run (replicate (length a) 8) (term_step (Term (l ++ a ++ [c]) r 0) 8)).
  unfold term_step. cbn [t_escape t_left t_right Z.eqb Pos.eqb]. rewrite app_assoc, last_snoc, removelast_last, IH. by rewrite <- app_assoc.
Qed.

Lemma term_clear (l r : list Z) : term_run [27; 91; 50; 75; 13] (Term l r 0) = Term [] (replicate (length l) 32) 0.
Proof. unfold term_run. cbn -[replicate]. by rewrite app_nil_r. Qed.

(** Blanks that are overwritten are blanks again. *)
Lemma drop_blanks (a : list Z) (n k : nat) : length a = n -> drop n (a ++ replicate k 32) = replicate k 32.
Proof. intros <-. by rewrite drop_app_length. Qed.

(** ** The shell and the editor *)

(** A line, filled up with NULs. *)
Definition padded (t : list Z) : list Z := t ++ replicate (80 - length t) 0.

Lemma length_padded (t : list Z) : (length t <= 80)%nat -> length (padded t) = 80%nat.
Proof. intros H. unfold padded. rewrite length_app, length_replicate. lia. Qed.

Lemma padded_nul (t : list Z) : (length t < 80)%nat -> exists k, padded t = t ++ 0 :: replicate k 0.
Proof. intros H. unfold padded. replace (80 - length t)%nat with (S (79 - length t)) by lia. by eexists. Qed.

Definition entry_ok (t : list Z) : Prop := shown t /\ 0 < len t < 80.

Record represents (ed : editor) (s : shell) : Prop := {
  rep_stat : stat s = WAIT_NORMAL;
  rep_echo : echo_mode s = 1;
  rep_line : line s = padded (text ed);
  rep_position : line_position s = len (text ed);
  rep_curpos : line_curpos s = len (before ed);
  rep_room : len (text ed) < 80;
  rep_text : shown (text ed);
  rep_rows : exists old, cmd_history s = (padded <$> hist ed) ++ old /\ Forall (fun r => length r = 80%nat) old;
  rep_length : length (cmd_history s) = 5%nat;
  rep_hist : Forall entry_ok (hist ed);
  rep_count : history_count s = len (hist ed);
  rep_current : current_history s = Z.of_nat (pos ed);
  rep_pos : (pos ed <= length (hist ed))%nat }.

(** What a step leaves: the shell represents the editor, the terminal shows it, and
    nothing else has changed. *)
Section Keys.
Context {W : Type} {EV : Environment W} {PR : Prompt W} {SY : Symbols}.
Implicit Types (s : console W) (ed : editor).

Definition follows (ed ed' : editor) (input : list Z) s s' : Prop :=
  represents ed' (c_shell s') /\ c_input s' = input /\ c_world s' = c_world s /\
  exists o, c_out s' = c_out s ++ o /\
    forall tm, prompt_ok (finsh_get_prompt (c_world s)) -> shows (finsh_get_prompt (c_world s)) ed tm ->
      shows (finsh_get_prompt (c_world s)) ed' (term_run o tm).

Lemma text_at_padded (a b : list Z) : shown (a ++ b) -> len (a ++ b) < 80 -> text_at (padded (a ++ b)) (len a) = Ok b.
Proof.
  intros H L. destruct (padded_nul (a ++ b)) as [k ->]; [lia|]. rewrite <- app_assoc. apply text_at_ok.
  apply Forall_app in H as [_ H]. eapply Forall_impl; [exact H|]. unfold printable. intros; cbn in *; lia.
Qed.

(** Inserting and removing a byte of a padded line. *)
Lemma wr_mid (x v y : list Z) : (length v <= length y)%nat -> Mem.wr (x ++ y) (len x) v = x ++ v ++ drop (length v) y.
Proof.
  intros L. unfold Mem.wr. rewrite Nat2Z.id, <- (Nat.add_0_r (length x)), list_inserts_app_r. f_equal. by apply list_inserts_0.
Qed.

Lemma rd_mid (x v y : list Z) : Mem.rd (x ++ v ++ y) (len x) (len v) = v.
Proof. unfold Mem.rd, slice. by rewrite !Nat2Z.id, drop_app_length, take_app_length. Qed.

Lemma padded_cons (t : list Z) (c : Z) (u : list Z) : (length (t ++ c :: u) <= 80)%nat ->
  padded (t ++ u) = t ++ u ++ 0 :: replicate (80 - length (t ++ c :: u)) 0.
Proof.
  intros L. unfold padded. rewrite <- app_assoc. rewrite !length_app in *. cbn [length] in *. do 2 f_equal.
  by replace (80 - (length t + length u))%nat with (S (80 - (length t + S (length u)))) by lia.
Qed.

Lemma insert_padded (a b : list Z) (c : Z) : len (a ++ b) < 80 -> b <> [] ->
  exists l, Mem.rt_memmove (padded (a ++ b)) (len a + 1) (len a) (len b) = Ok l /\ store_at l (len a) c = Ok (padded (a ++ c :: b)).
Proof.
  intros L Nb. destruct b as [|h b]; [done|]. rewrite length_app in L. cbn in L.
  pose proof (length_padded (a ++ h :: b) ltac:(rewrite length_app; cbn; lia)) as Lp.
  rewrite Mem.rt_memmove_wr by (rewrite ?Lp; cbn; lia).
  assert (Ep : padded (a ++ h :: b) = a ++ (h :: b) ++ 0 :: replicate (79 - length (a ++ h :: b)) 0).
  { unfold padded. rewrite <- app_assoc. do 2 f_equal. rewrite length_app. cbn [length].
    by replace (80 - (length a + S (length b)))%nat with (S (79 - (length a + S (length b)))) by lia. }
  eexists. split; [done|]. rewrite Ep, rd_mid. set (z := replicate (79 - _) 0).
  replace (a ++ (h :: b) ++ 0 :: z) with ((a ++ [h]) ++ b ++ 0 :: z) by (by rewrite <- app_assoc).
  replace (len a + 1) with (len (a ++ [h])) by (rewrite length_app; cbn; lia).
  rewrite wr_mid by (rewrite length_app; cbn; lia). rewrite <- app_assoc. cbn [app]. rewrite store_at_mid. f_equal.
  unfold padded. rewrite <- app_assoc. cbn [app]. do 4 f_equal.
  replace (b ++ 0 :: z) with ((b ++ [0]) ++ z) by (by rewrite <- app_assoc).
  rewrite drop_app_length' by (rewrite length_app; cbn; lia). unfold z. f_equal. rewrite !length_app. cbn. lia.
Qed.

Lemma remove_padded (a b : list Z) (c : Z) : len (a ++ c :: b) <= 80 -> b <> [] ->
  exists l, Mem.rt_memmove (padded (a ++ c :: b)) (len a) (len a + 1) (len b) = Ok l /\ store_at l (len (a ++ b)) 0 = Ok (padded (a ++ b)).
Proof.
  intros L Nb. rewrite length_app in L. cbn in L.
  pose proof (length_padded (a ++ c :: b) ltac:(rewrite length_app; cbn; lia)) as Lp.
  rewrite Mem.rt_memmove_wr by (rewrite ?Lp; cbn; lia). eexists. split; [done|].
  unfold padded at 1 2. set (z := replicate _ 0).
  replace ((a ++ c :: b) ++ z) with ((a ++ [c]) ++ b ++ z) by (by rewrite <- !app_assoc).
  replace (len a + 1) with (len (a ++ [c])) by (rewrite length_app; cbn; lia). rewrite rd_mid, <- app_assoc.
  rewrite wr_mid by (rewrite !length_app; cbn; lia).
  assert (exists d, drop (length b) ([c] ++ b ++ z) = d :: z) as [d ->].
  { destruct b as [|d b _] using rev_ind; [done|]. exists d. rewrite <- app_assoc.
    replace ([c] ++ b ++ [d] ++ z) with ((c :: b) ++ d :: z) by done.
    apply drop_app_length'. rewrite length_app. cbn. lia. }
  rewrite app_assoc, store_at_mid. f_equal. rewrite (padded_cons a c b) by (rewrite length_app; cbn; lia). by rewrite <- app_assoc.
Qed.

(** Writing at the end. *)
Lemma append_padded (t : list Z) (c : Z) : len t < 80 -> store_at (padded t) (len t) c = Ok (padded (t ++ [c])).
Proof.
  intros L. destruct (padded_nul t) as [k E]; [lia|]. rewrite E, store_at_mid. f_equal. unfold padded in *. apply app_inv_head in E.
  rewrite <- app_assoc. do 2 f_equal. cbn. rewrite length_app. cbn.
  apply (f_equal length) in E. cbn in E. rewrite !length_replicate in E. f_equal. lia.
Qed.

Lemma cut_padded (t : list Z) (c : Z) : len (t ++ [c]) <= 80 -> store_at (padded (t ++ [c])) (len t) 0 = Ok (padded t).
Proof.
  intros L. rewrite length_app in L. cbn in L. unfold padded at 1. rewrite <- app_assoc. cbn [app]. rewrite store_at_mid. f_equal.
  rewrite <- (app_nil_r t) at 3. rewrite (padded_cons t c []) by (rewrite length_app; cbn; lia). done.
Qed.

(** ** The keys *)

Definition does (m : ST (console W) unit) (ed ed' : editor) : Prop :=
  forall s, represents ed (c_shell s) -> wp m (fun _ s' => follows ed ed' (c_input s) s s') s.

Lemma wp_kprint (t : list Z) x inp out (w : W) (Q : unit -> console W -> Prop) :
  Q tt (Console x inp (out ++ Printf.console_text t) w) -> wp (kprint t) Q (Console x inp out w).
Proof. done. Qed.
(** A text that fits into the console buffer. *)
Lemma console_fits (t : list Z) : len t <= 126 -> Printf.console_text t = t.
Proof. intros H. unfold Printf.console_text, Printf.RT_CONSOLEBUF_SIZE. by test_true. Qed.
Lemma wp_kprint_fits (t : list Z) x inp out (w : W) (Q : unit -> console W -> Prop) :
  len t <= 126 -> Q tt (Console x inp (out ++ t) w) -> wp (kprint t) Q (Console x inp out w).
Proof. intros H HQ. apply wp_kprint. by rewrite console_fits. Qed.
Lemma wp_kprint_prompt x inp out (w w' : W) (Q : unit -> console W -> Prop) :
  Q tt (Console x inp (out ++ Printf.console_text (finsh_get_prompt w')) w) ->
  wp (kprint_format (finsh_get_prompt w')) Q (Console x inp out w).
Proof.
  intros HQ. unfold kprint_format. eapply wp_bind, wp_lift_ok; [apply Printf.format_plain, prompt_plain|].
  by apply wp_kprint.
Qed.
Lemma wp_on_shell (f : shell -> shell) x inp out (w : W) (Q : unit -> console W -> Prop) :
  Q tt (Console (f x) inp out w) -> wp (on_shell f) Q (Console x inp out w).
Proof. done. Qed.
Lemma wp_shell_of x inp out (w : W) (Q : shell -> console W -> Prop) :
  Q x (Console x inp out w) -> wp shell_of Q (Console x inp out w).
Proof. done. Qed.
Lemma wp_prompt x inp out (w : W) (Q : list Z -> console W -> Prop) :
  Q (finsh_get_prompt w) (Console x inp out w) -> wp FINSH_PROMPT Q (Console x inp out w).
Proof. done. Qed.

Ltac fits := cbn [length app] in *; rewrite ?length_app, ?length_replicate in *; cbn [length] in *; lia.
Ltac kstep := cbv beta; first
  [ wstep
  | apply wp_kprint_fits; [fits|] | apply wp_kprint_prompt | apply wp_on_shell | apply wp_shell_of | apply wp_prompt
  | lazymatch goal with |- wp (backspaces _) _ _ => unfold backspaces; apply wp_kprint_fits; [fits|] end
  | apply wp_kprint ]; cbv beta.
Ltac ksteps := repeat kstep.

(** The editor with another text, and what the output does to the terminal. *)
Lemma follows_text ed ed' (x x' : shell) (inp out o : list Z) (w : W) :
  represents ed x -> hist ed' = hist ed -> pos ed' = pos ed -> shown (text ed') -> len (text ed') < 80 ->
  stat x' = stat x /\ echo_mode x' = echo_mode x /\ current_history x' = current_history x /\
    history_count x' = history_count x /\ cmd_history x' = cmd_history x ->
  line x' = padded (text ed') -> line_position x' = len (text ed') -> line_curpos x' = len (before ed') ->
  (forall p k, exists k', term_run o (Term (p ++ before ed) (after ed ++ replicate k 32) 0) =
     Term (p ++ before ed') (after ed' ++ replicate k' 32) 0) ->
  follows ed ed' inp (Console x inp out w) (Console x' inp (out ++ o) w).
Proof.
  intros R Eh Ep Ht L (E1 & E2 & E3 & E4 & E5) El Epos Ec Hr.
  split; [destruct R; split; cbn; rewrite ?Eh, ?Ep, ?E1, ?E2, ?E3, ?E4, ?E5; done|]. split; [done|]. split; [done|].
  exists o. split; [done|]. intros tm _ [k ->]. apply Hr.
Qed.

Lemma shown_app (a b : list Z) : shown (a ++ b) <-> shown a /\ shown b.
Proof. apply Forall_app. Qed.

(** The editor a key leads to, by its fields. *)
Lemma fields (ed : editor) b a h p : ed = Editor b a h p -> b = before ed /\ a = after ed /\ hist ed = h /\ pos ed = p.
Proof. by intros ->. Qed.

Lemma normal_key_ok (c : Z) ed : printable c -> len (text ed) < 79 -> does (normal_key c) ed (ed_key (Char c) ed).
Proof.
  intros Hc L [x inp out w] R. cbn [c_shell] in R. pose proof R as []. cbn [c_shell c_input].
  remember (ed_key (Char c) ed) as ed' eqn:E. destruct (fields _ _ _ _ _ E) as (Eb & Ea & Eh & Ep). clear E.
  assert (Ht : text ed' = before ed ++ c :: after ed) by (unfold text; by rewrite <- Eb, <- Ea, <- app_assoc).
  assert (Lb : len (text ed) = len (before ed) + len (after ed)) by (unfold text; rewrite length_app; lia).
  assert (Lb' : len (before ed') = len (before ed) + 1) by (rewrite <- Eb, length_app; cbn; lia).
  assert (L' : len (text ed') = len (text ed) + 1) by (rewrite Ht, Lb, length_app; cbn; lia).
  assert (Hs : shown (text ed')).
  { rewrite Ht. apply shown_app in rep_text0 as [H1 H2]. apply shown_app. split; [done|by constructor]. }
  unfold normal_key. ksteps. rewrite rep_position0, rep_curpos0, rep_echo0, rep_line0. change (negb (1 =? 0)) with true.
  replace (FINSH_CMD_SIZE <=? len (text ed)) with false by (unfold FINSH_CMD_SIZE; lia).
  rewrite (ubits_small 8 (len (text ed) + 1)), (ubits_small 8 (len (before ed) + 1)) by lia.
  replace (80 <=? len (text ed) + 1) with false by lia.
  destruct (after ed) as [|d a] eqn:Eaf.
  - cbn [length] in Lb. test_false. ksteps. eapply wp_lift_ok; [apply append_padded; lia|]. ksteps.
    apply (follows_text _ ed'); try done; try lia; try (cbn; lia).
    + cbn. rewrite Ht. unfold text. by rewrite Eaf, app_nil_r.
    + intros p k. rewrite term_text by (by constructor). exists (k - 1)%nat. rewrite <- Eb, <- Ea, Eaf. cbn [app length].
      rewrite drop_replicate. by rewrite <- app_assoc.
  - cbn [length] in Lb. test_true. ksteps.
    destruct (insert_padded (before ed) (d :: a) c) as (l & El & Es); [rewrite length_app; cbn; lia|done|].
    replace (len (text ed) - len (before ed)) with (len (d :: a)) by (cbn; lia).
    assert (Et : text ed = before ed ++ d :: a) by (unfold text; by rewrite Eaf).
    eapply wp_lift_ok; [rewrite Et; exact El|]. ksteps. eapply wp_lift_ok; [exact Es|]. ksteps.
    eapply wp_lift_ok; [apply text_at_padded; [by rewrite <- Ht|rewrite <- Ht; lia]|]. ksteps.
    cbn [c_out c_shell c_input c_world].
    rewrite <- (app_assoc out). apply (follows_text _ ed'); try done; try lia; try (cbn; lia).
    + cbn. by rewrite Ht.
    + intros p k. rewrite term_run_app, term_text by (rewrite Ht in Hs; by apply shown_app in Hs as [_ Hs]).
      rewrite Nat2Z.id. replace ((p ++ before ed) ++ c :: d :: a) with ((p ++ before ed ++ [c]) ++ d :: a) by (by rewrite <- !app_assoc).
      rewrite term_backs, Eaf, <- Eb, <- Ea. exists (k - 1)%nat. do 2 f_equal.
      rewrite drop_app_ge by (cbn; lia). rewrite drop_replicate. do 2 f_equal. cbn. lia.
Qed.

(** Nothing has happened. *)
Lemma follows_refl ed s : represents ed (c_shell s) -> follows ed ed (c_input s) s s.
Proof.
  intros R. split; [done|]. split; [done|]. split; [done|]. exists []. split; [by rewrite app_nil_r|]. done.
Qed.

Lemma term_back (l r : list Z) (c : Z) : term_run [8] (Term (l ++ [c]) r 0) = Term l (c :: r) 0.
Proof. exact (term_backs [c] l r). Qed.

Lemma backspace_key_ok ed : does backspace_key ed (ed_key Backspace ed).
Proof.
  intros [x inp out w] R. cbn [c_shell] in R. pose proof R as []. cbn [c_shell c_input].
  unfold backspace_key. ksteps. rewrite rep_position0, rep_curpos0.
  destruct ed as [bf af h p]. unfold text in *. cbn [before after hist pos ed_key] in *.
  destruct bf as [|c b _] using rev_ind.
  { cbn. by apply (follows_refl (Editor [] af h p) (Console x inp out w)). }
  rewrite removelast_last.
  assert (Lt : len ((b ++ [c]) ++ af) = len b + 1 + len af) by (rewrite !length_app; cbn; lia).
  assert (Lc : len (b ++ [c]) = len b + 1) by (rewrite length_app; cbn; lia).
  assert (Lr : len (b ++ af) = len b + len af) by (rewrite length_app; lia).
  assert (Hs : shown (b ++ af)).
  { apply shown_app in rep_text0 as [H1 H2]. apply shown_app in H1 as [H1 _]. by apply shown_app. }
  rewrite Lc. test_false. rewrite (ubits_small 8) by lia. rewrite Lt, rep_line0.
  replace (len b + 1 + len af - 1) with (len (b ++ af)) by lia. replace (len b + 1 - 1) with (len b) by lia. ksteps.
  destruct af as [|d a].
  - rewrite app_nil_r in *. rewrite Z.ltb_irrefl. ksteps.
    rewrite app_nil_r. eapply wp_lift_ok; [apply cut_padded; lia|]. ksteps.
    apply (follows_text (Editor (b ++ [c]) [] h p) (Editor b [] h p)); try done; unfold text; cbn [before after]; rewrite ?app_nil_r; try done; try lia.
    intros q k. change [8; 32; 8] with ([8] ++ [32] ++ [8]). rewrite !term_run_app, app_assoc, term_back, term_text by (repeat constructor; done).
    rewrite term_back. by exists (S k).
  - assert (Ld : len (d :: a) = 1 + len a) by (cbn [length]; lia). test_true. ksteps.
    destruct (remove_padded b (d :: a) c) as (l & El & Es); [rewrite length_app; cbn in *; lia|done|].
    replace (len (b ++ d :: a) - len b) with (len (d :: a)) by (cbn in *; lia). rewrite <- app_assoc. cbn [app].
    eapply wp_lift_ok; [exact El|]. ksteps. eapply wp_lift_ok; [exact Es|]. ksteps.
    eapply wp_lift_ok; [apply text_at_padded; [done|lia]|]. ksteps. cbn [c_out c_shell c_input c_world].
    rewrite <- (app_assoc out). apply (follows_text (Editor (b ++ [c]) (d :: a) h p) (Editor b (d :: a) h p)); try done; try (cbn in *; lia).
    intros q k. cbn [before after].
    change (8 :: (d :: a) ++ [32; 32; 8]) with ([8] ++ (d :: a) ++ [32; 32] ++ [8]).
    rewrite !term_run_app, (app_assoc q b [c]), term_back.
    rewrite (term_text (d :: a)) by (by apply shown_app in Hs as [_ Hs]).
    rewrite term_text by (repeat constructor; done).
    replace ((((q ++ b) ++ d :: a) ++ [32; 32])) with ((((q ++ b) ++ d :: a) ++ [32]) ++ [32]) by (by rewrite <- !app_assoc).
    rewrite term_back. replace (Z.to_nat (len (d :: a) + 1)) with (length ((d :: a) ++ [32])) by (rewrite length_app; cbn; lia).
    rewrite <- (app_assoc (q ++ b)), term_backs. exists (S (S (k - 1))).
    change (c :: (d :: a) ++ replicate k 32) with ((c :: d :: a) ++ replicate k 32). rewrite drop_drop, drop_app_ge by (cbn; lia).
    rewrite drop_replicate, <- app_assoc. cbn. by replace (length a + 2 - S (length a))%nat with 1%nat by lia.
Qed.

Lemma left_key_ok ed : does left_key ed (ed_key Left ed).
Proof.
  intros [x inp out w] R. cbn [c_shell] in R. pose proof R as []. cbn [c_shell c_input].
  unfold left_key. ksteps. rewrite rep_curpos0.
  destruct ed as [bf af h p]. unfold text in *. cbn [before after hist pos ed_key] in *.
  destruct bf as [|c b _] using rev_ind.
  { cbn. by apply (follows_refl (Editor [] af h p) (Console x inp out w)). }
  rewrite last_snoc, removelast_last.
  assert (Lc : len (b ++ [c]) = len b + 1) by (rewrite length_app; cbn; lia).
  rewrite Lc. test_false. ksteps. rewrite <- app_assoc in *. cbn [app] in *.
  apply (follows_text (Editor (b ++ [c]) af h p) (Editor b (c :: af) h p)); try done; try (cbn; lia).
  intros q k. cbn [before after]. rewrite app_assoc, term_back. by exists k.
Qed.

Lemma right_key_ok ed : does right_key ed (ed_key Right ed).
Proof.
  intros [x inp out w] R. cbn [c_shell] in R. pose proof R as []. cbn [c_shell c_input].
  unfold right_key. ksteps. rewrite rep_position0, rep_curpos0, rep_line0.
  destruct ed as [bf af h p]. unfold text in *. cbn [before after hist pos ed_key] in *.
  destruct af as [|c a].
  { rewrite app_nil_r, Z.ltb_irrefl. by apply (follows_refl (Editor bf [] h p) (Console x inp out w)). }
  assert (Lt : len (bf ++ c :: a) = len bf + 1 + len a) by (rewrite length_app; cbn; lia).
  test_true. ksteps. eapply wp_lift_ok; [unfold padded; rewrite <- app_assoc; apply load_at_mid|]. ksteps.
  apply (follows_text (Editor bf (c :: a) h p) (Editor (bf ++ [c]) a h p)); try done; unfold text; cbn [before after];
    rewrite <- ?app_assoc; try done; try lia; [rewrite !length_app; cbn; lia|].
  intros q k. rewrite term_text; [|apply Forall_app in rep_text0 as [_ [? _]%Forall_cons]; by constructor].
  rewrite app_assoc. by exists k.
Qed.

(** ** History *)

Lemma padded_cstring (t : list Z) : shown t -> len t < 80 -> Str.cstring t (padded t).
Proof.
  intros H L. destruct (padded_nul t) as [k ->]; [lia|]. split; [|by eexists].
  eapply Forall_impl; [exact H|]. unfold printable. intros; cbn in *; lia.
Qed.

(** A row of 80 bytes over another. *)
Lemma copy_row (row l : list Z) : length row = 80%nat -> length l = 80%nat -> memcpy_at l 0 row 0 80 = Ok row.
Proof.
  intros H1 H2. rewrite memcpy_at_ok by lia. rewrite list_inserts_0 by (unfold slice; rewrite length_take, length_drop; lia).
  change (slice 0 80 row) with (take 80 row). rewrite firstn_all2 by lia. rewrite drop_ge by lia. by rewrite app_nil_r.
Qed.

Lemma recall_ok (i : nat) (t : list Z) ed (x : shell) inp out (w : W) : represents ed x -> hist ed !! i = Some t ->
  wp recall (fun _ s' => follows ed (Editor t [] (hist ed) i) inp (Console x inp out w) s') (Console (with_current (Z.of_nat i) x) inp out w).
Proof.
  intros R Hi. pose proof R as []. destruct rep_rows0 as (old & Er & Ho).
  destruct (Forall_lookup_1 _ _ _ _ rep_hist0 Hi) as [St Lt]. pose proof (lookup_lt_Some _ _ _ Hi) as Li.
  pose proof (padded_cstring t St ltac:(lia)) as Ct.
  unfold recall. ksteps. cbn [current_history cmd_history with_current line]. eapply wp_lift_ok.
  { apply load_at_ok; [lia|]. rewrite Nat2Z.id, Er, lookup_app_l by (by rewrite length_fmap). by rewrite list_lookup_fmap, Hi. }
  ksteps. eapply wp_lift_ok; [rewrite rep_line0; apply copy_row; apply length_padded; lia|]. ksteps.
  eapply wp_lift_ok; [apply (Str.rt_strlen_ok t _ Ct)|]. rewrite (ubits_small 8) by lia. ksteps.
  unfold shell_handle_history. ksteps. cbn [line with_line with_cursor].
  eapply wp_lift_ok; [apply (text_at_padded [] t); [done|cbn; lia]|]. ksteps. cbn [c_out c_shell c_input c_world].
  split; [|split; [done|split; [done|]]].
  - split; cbn; rewrite ?app_nil_r; try done; try lia. by exists old.
  - rewrite <- app_assoc. eexists. split; [done|]. intros tm [Sp Lp] [k ->]. unfold shows. cbn [before after c_world] in *.
    rewrite console_fits by (rewrite length_app; lia). rewrite term_run_app, term_clear, term_text by (by apply shown_app). rewrite drop_replicate. by eexists.
Qed.

Lemma up_key_ok ed : does up_key ed (ed_key Up ed).
Proof.
  intros [x inp out w] R. cbn [c_shell] in R. pose proof R as []. cbn [c_shell c_input].
  unfold up_key. ksteps. rewrite rep_current0. destruct ed as [bf af h [|i]]; cbn [ed_key hist pos] in *.
  - cbn. ksteps. replace (with_current 0 x) with x by (destruct x; cbn in *; by subst). by apply (follows_refl _ (Console x inp out w)).
  - test_true. ksteps. unfold recalled. cbn [hist].
    destruct (lookup_lt_is_Some_2 h i ltac:(lia)) as [t Ht]. rewrite Ht.
    replace (Z.of_nat (S i) - 1) with (Z.of_nat i) by lia.
    eapply wp_mono; [apply (recall_ok i t _ x inp out w R Ht)|]. intros b s' H. by ksteps.
Qed.

Lemma down_key_ok ed : does down_key ed (ed_key Down ed).
Proof.
  intros [x inp out w] R. cbn [c_shell] in R. pose proof R as []. cbn [c_shell c_input].
  unfold down_key. ksteps. rewrite rep_current0, rep_count0. destruct ed as [bf af h i]; cbn [ed_key hist pos] in *.
  destruct h as [|t0 h].
  - change (len []) with 0. test_false. ksteps. by apply (follows_refl _ (Console x inp out w)).
  - set (n := (length (t0 :: h) - 1)%nat). assert (Ln : len (t0 :: h) - 1 = Z.of_nat n) by (unfold n; cbn; lia).
    rewrite Ln. unfold recalled. cbn [hist].
    destruct (lookup_lt_is_Some_2 (t0 :: h) (Nat.min (S i) n) ltac:(unfold n; cbn [length]; lia)) as [t Ht]. rewrite Ht.
    assert (Last : forall s' : console W, follows (Editor bf af (t0 :: h) i) (Editor t [] (t0 :: h) (Nat.min (S i) n)) inp (Console x inp out w) s' ->
      wp (mret tt) (fun _ s' => follows (Editor bf af (t0 :: h) i) (Editor t [] (t0 :: h) (Nat.min (S i) n)) inp (Console x inp out w) s') s').
    { intros s' H. by ksteps. }
    destruct (Z.ltb_spec (Z.of_nat i) (Z.of_nat n)).
    + ksteps. replace (Z.of_nat i + 1) with (Z.of_nat (Nat.min (S i) n)) by lia.
      eapply wp_mono; [apply (recall_ok _ t _ x inp out w R Ht)|]. intros b. apply Last.
    + assert ((len (t0 :: h) =? 0) = false) as -> by (apply Z.eqb_neq; cbn [length]; lia). cbn [negb]. ksteps.
      replace (Z.of_nat n) with (Z.of_nat (Nat.min (S i) n)) by lia.
      eapply wp_mono; [apply (recall_ok _ t _ x inp out w R Ht)|]. intros b. apply Last.
Qed.

(** The rows, and the history they hold. *)
Definition rows_of (h : list (list Z)) (rows : list (list Z)) : Prop :=
  length rows = 5%nat /\ Forall entry_ok h /\
  exists old, rows = (padded <$> h) ++ old /\ Forall (fun r => length r = 80%nat) old.

Lemma fill_row_ok (rows : list (list Z)) (i : Z) (t : list Z) : len t < 80 ->
  fill_row rows i (padded t) (len t) = store_at rows i (padded t).
Proof.
  intros L. unfold fill_row. change (replicate (Z.to_nat FINSH_CMD_SIZE) 0) with (replicate 80 0).
  pose proof (length_padded t ltac:(lia)) as Lp. rewrite memcpy_at_ok by (rewrite ?length_replicate; lia).
  assert (slice 0 (len t) (padded t) = t) as -> by (unfold slice, padded; rewrite Nat2Z.id; apply take_app_length).
  rewrite list_inserts_0 by (rewrite length_replicate; lia). rewrite drop_replicate. by cbn.
Qed.

Lemma push_history_ok ed (x : shell) inp out (w : W) : represents ed x ->
  wp shell_push_history (fun _ s' => exists rows, rows_of (hist (ed_enter ed)) rows /\
      s' = Console (with_current (len (hist (ed_enter ed))) (with_history rows (len (hist (ed_enter ed))) x)) inp out w)
    (Console x inp out w).
Proof.
  intros []. unfold shell_push_history. ksteps. rewrite rep_position0, rep_count0, rep_line0. unfold ed_enter. cbn [hist].
  destruct (text ed) as [|c t] eqn:Et; cbn [hist].
  - cbn [length]. ksteps. exists (cmd_history x). split; [done|]. by destruct x; cbn in *; subst.
  - assert (Ln : (len (c :: t) =? 0) = false) by (apply Z.eqb_neq; cbn [length]; lia). rewrite Ln. cbn [negb].
    assert (Ec : entry_ok (c :: t)) by (split; [done|cbn [length]; cbn [length] in rep_room0; lia]).
    destruct rep_rows0 as (old & Er & Ho). pose proof rep_length0 as L5. rewrite Er, length_app, length_fmap in L5.
    change FINSH_HISTORY_LINES with 5. destruct (Nat.leb_spec 5 (length (hist ed))) as [H5|H5].
    + test_true. destruct old; [|cbn in L5; lia]. rewrite app_nil_r in Er. rewrite Er.
      destruct (hist ed) as [|a [|b [|d [|e [|f [|]]]]]]; cbn in H5, L5; try lia. ksteps.
      eapply wp_lift_ok; [done|]. ksteps. eapply wp_lift_ok; [rewrite fill_row_ok by done; done|]. ksteps.
      exists (padded <$> [b; d; e; f; c :: t]). split; [|done]. split; [done|]. split; [|exists []; by rewrite app_nil_r].
      inversion rep_hist0; subst. by apply (Forall_app_2 _ [b; d; e; f]); [|constructor].
    + test_false. ksteps. destruct old as [|o old]; [cbn in L5; lia|]. rewrite Er. eapply wp_lift_ok.
      { rewrite fill_row_ok by done. rewrite <- (length_fmap padded (hist ed)). apply store_at_mid. }
      ksteps. rewrite length_app, (ubits_small 16) by lia. replace (len (hist ed) + 1) with (Z.of_nat (length (hist ed) + 1)) by lia.
      exists ((padded <$> hist ed) ++ padded (c :: t) :: old). split; [|done].
      rewrite Er, length_app, length_fmap in rep_length0. split; [by rewrite length_app, length_fmap|].
      split; [apply Forall_app_2; [done|by constructor]|]. exists old. inversion Ho; subst. rewrite fmap_app, <- app_assoc. done.
Qed.

(** ** The end of a line *)

Lemma wp_on_world {A} (m : ST W A) x inp out (w : W) (Q : A -> console W -> Prop) :
  wp m (fun a w' => Q a (Console x inp out w')) w -> wp (on_world m) Q (Console x inp out w).
Proof. unfold wp, on_world. cbn. destruct (m w) as [[a w']| |]; done. Qed.

(** What has been run: the line is empty again and is shown as such. *)
Definition ran (ed : editor) (rest : list Z) (Qw : W -> Prop) s s' : Prop :=
  represents (ed_enter ed) (c_shell s') /\ c_input s' = rest /\ Qw (c_world s') /\
  c_out s' = c_out s ++ [10] ++ Printf.console_text (finsh_get_prompt (c_world s')).

Lemma enter_key_ok ed (x : shell) inp out (w : W) (Qw : W -> Prop) : represents ed x ->
  wp (msh_exec (padded (text ed)) 0 (len (text ed))) (fun _ => Qw) w ->
  wp enter_key (fun _ => ran ed inp Qw (Console x inp out w)) (Console x inp out w).
Proof.
  intros R H. unfold enter_key. ksteps. eapply wp_mono; [by apply push_history_ok|]. intros [] s' (rows & (H5 & He & Hr) & ->). destruct R. ksteps.
  cbn [echo_mode with_current with_history line line_position]. rewrite rep_echo0, rep_line0, rep_position0.
  change (negb (1 =? 0)) with true. cbv iota. ksteps. apply wp_on_world. eapply wp_mono; [exact H|]. intros r w' Hw. ksteps.
  cbn [c_shell c_input c_out c_world]. split; [|split; [done|split; [done|by rewrite <- app_assoc]]].
  split; cbn; try done; try lia. by constructor.
Qed.

(** ** The bytes of a key *)

Lemma round_step (fuel : nat) (ch : Z) (inp : list Z) x out (w : W) (Q : unit -> console W -> Prop) :
  wp (shell_char ch) (fun done s' => if done then Q tt s' else wp (shell_round fuel) Q s') (Console x inp out w) ->
  wp (shell_round (S fuel)) Q (Console x (ch :: inp) out w).
Proof.
  intros H. cbn [shell_round]. apply wp_bind. cbn. apply wp_bind. eapply wp_mono; [exact H|]. intros [] s' H'; [by apply wp_ret|done].
Qed.

Lemma stat_normal (x : shell) : stat x = WAIT_NORMAL -> with_stat WAIT_NORMAL (with_stat WAIT_FUNC_KEY (with_stat WAIT_SPEC_KEY x)) = x.
Proof. destruct x. cbn. by intros ->. Qed.

(** A key with an escape sequence. *)
Lemma arrow_ok (fuel : nat) (ch : Z) (m : ST (console W) unit) ed ed' rest x out (w : W) Q :
  represents ed x -> does m ed ed' ->
  (forall s, stat (c_shell s) = WAIT_FUNC_KEY ->
     shell_char ch s = (_ ← on_shell (with_stat WAIT_NORMAL); _ ← m; mret false) s) ->
  (forall s', follows ed ed' rest (Console x rest out w) s' -> wp (shell_round fuel) Q s') ->
  wp (shell_round (S (S (S fuel)))) Q (Console x (0x1b :: 0x5b :: ch :: rest) out w).
Proof.
  intros R Hm Hc HQ. pose proof (rep_stat _ _ R) as Es.
  apply round_step. unfold shell_char. ksteps.
  apply round_step. unfold shell_char. ksteps. change (stat (with_stat WAIT_SPEC_KEY x)) with WAIT_SPEC_KEY. cbv iota. ksteps.
  apply round_step. unfold wp at 1. rewrite Hc by done. change (wp (_ ← on_shell (with_stat WAIT_NORMAL); _ ← m; mret false)
    (fun done s' => if done : bool then Q tt s' else wp (shell_round fuel) Q s')
    (Console (with_stat WAIT_FUNC_KEY (with_stat WAIT_SPEC_KEY x)) rest out w)). ksteps. rewrite stat_normal by done.
  eapply wp_mono; [by apply Hm|]. intros [] s' H. ksteps. by apply HQ.
Qed.

Lemma key_bytes_ok (fuel : nat) (k : key) ed rest x out (w : W) Q : represents ed x -> key_ok k ed ->
  (forall s', follows ed (ed_key k ed) rest (Console x rest out w) s' -> wp (shell_round fuel) Q s') ->
  wp (shell_round (length (bytes k) + fuel)) Q (Console x (bytes k ++ rest) out w).
Proof.
  intros R Hk HQ. pose proof (rep_stat _ _ R) as Es.
  destruct k as [c| | | | |]; cbn [bytes length Nat.add app].
  - destruct Hk as [Hc L]. unfold printable in Hc. apply round_step. unfold shell_char. ksteps. test_false. cbv iota. rewrite Es.
    unfold shell_normal. do 3 test_false. cbn [orb]. test_false. ksteps. do 2 test_false. cbn [orb]. ksteps.
    eapply wp_mono; [by apply normal_key_ok|]. intros [] s' H. ksteps. by apply HQ.
  - apply round_step. unfold shell_char. ksteps. cbn [Z.eqb Pos.eqb]. rewrite Es. unfold shell_normal. cbn [Z.eqb Pos.eqb orb]. ksteps.
    eapply wp_mono; [by apply backspace_key_ok|]. intros [] s' H. ksteps. by apply HQ.
  - eapply arrow_ok; [done|apply left_key_ok| |done]. intros s E. unfold shell_char, shell_of, gets, mbind, ST_bind. by rewrite E.
  - eapply arrow_ok; [done|apply right_key_ok| |done]. intros s E. unfold shell_char, shell_of, gets, mbind, ST_bind. by rewrite E.
  - eapply arrow_ok; [done|apply up_key_ok| |done]. intros s E. unfold shell_char, shell_of, gets, mbind, ST_bind. by rewrite E.
  - eapply arrow_ok; [done|apply down_key_ok| |done]. intros s E. unfold shell_char, shell_of, gets, mbind, ST_bind. by rewrite E.
Qed.

Definition ed_keys (ks : list key) (ed : editor) : editor := foldl (fun ed k => ed_key k ed) ed ks.
Definition sent (ks : list key) : list Z := concat (bytes <$> ks).

Lemma follows_trans ed ed' ed'' i j s s1 s2 : follows ed ed' i s s1 -> follows ed' ed'' j s1 s2 -> follows ed ed'' j s s2.
Proof.
  intros (_ & _ & E & o & Eo & Ho) (R & Ei & E' & o' & Eo' & Ho'). rewrite E in *. split; [done|]. split; [done|].
  split; [by rewrite E'|]. exists (o ++ o'). split; [by rewrite Eo', Eo, <- app_assoc|].
  intros tm Hp Ht. rewrite term_run_app. by apply Ho', Ho.
Qed.

Lemma sent_ok (fuel : nat) (ks : list key) : forall ed rest x out (w : W) Q, represents ed x -> keys_ok ks ed ->
  (forall s', follows ed (ed_keys ks ed) rest (Console x rest out w) s' -> wp (shell_round fuel) Q s') ->
  wp (shell_round (length (sent ks) + fuel)) Q (Console x (sent ks ++ rest) out w).
Proof.
  induction ks as [|k ks IH]; intros ed rest x out w Q R Hk HQ.
  { apply HQ. by apply (follows_refl ed (Console x rest out w)). }
  destruct Hk as [Hk Hks]. unfold sent. cbn [fmap list_fmap concat]. rewrite length_app, <- Nat.add_assoc, <- app_assoc.
  apply key_bytes_ok with (ed := ed); [done..|]. intros [x' i' out' w'] H. pose proof H as (R' & E1 & E2 & _). cbn in R', E1, E2. subst i' w'.
  apply (IH (ed_key k ed)); [done..|]. intros s' H'. apply HQ. eapply follows_trans; [exact H|]. exact H'.
Qed.

(** The ends of a line that are read as one. *)
Inductive line_end : list Z -> list Z -> Prop :=
| end_lf rest : line_end [10] rest
| end_cr_lf rest : line_end [13; 10] rest
| end_cr_nul rest : line_end [13; 0] rest
| end_cr : line_end [13] [].

Lemma wp_read (inp : list Z) x out (w : W) (Q : option Z -> console W -> Prop) :
  Q (head inp) (Console x (tail inp) out w) -> wp read_char Q (Console x inp out w).
Proof. by destruct inp. Qed.

Lemma line_end_ok (fuel : nat) ed e rest x out (w : W) (Qw : W -> Prop) : represents ed x -> line_end e rest ->
  wp (msh_exec (padded (text ed)) 0 (len (text ed))) (fun _ => Qw) w ->
  wp (shell_round (S fuel)) (fun _ => ran ed rest Qw (Console x rest out w)) (Console x (e ++ rest) out w).
Proof.
  intros R He H. pose proof (rep_stat _ _ R) as Es.
  destruct He; apply round_step; unfold shell_char; ksteps; cbn [Z.eqb Pos.eqb]; rewrite Es; unfold shell_normal; cbn [Z.eqb Pos.eqb orb]; ksteps;
    try (apply wp_read; cbn [app head tail]; ksteps); cbn [Z.eqb Pos.eqb orb]; ksteps; (eapply wp_mono; [by apply (enter_key_ok _ _ _ _ _ Qw R)|]); intros [] s' Hr; by ksteps.
Qed.

(** C5: what the keys do: the shell thread, woken with the bytes of any number of printable
    characters, backspaces and arrow keys, reads them all and comes back to its wait with
    the line, the cursor and the history that editing two lists gives, no command is run,
    and a terminal that has shown the prompt (of printable characters, 47 at most, so that a
    line behind it fits into the console buffer) and the line shows the new line and cursor. *)
Theorem shell_keys_ok (ks : list key) ed s :
  represents ed (c_shell s) -> keys_ok ks ed -> c_input s = sent ks ->
  wp finsh_round (fun _ => follows ed (ed_keys ks ed) [] s) s.
Proof.
  intros R Hk Ei. destruct s as [x i out w]. cbn in R, Ei. subst i. unfold finsh_round. ksteps. cbn [c_input].
  rewrite <- (app_nil_r (sent ks)) at 2. rewrite <- Nat.add_1_r. apply (sent_ok 1 ks ed); [done..|].
  intros [x' i' out' w'] H. pose proof H as (_ & E & _). cbn in E. subst i'. cbn. apply wp_bind. cbn. apply wp_ret. done.
Qed.

(** C8: a line is run: the thread, woken with the bytes of some keys, an end of line and
    what has come behind it, runs the text those keys have made, once and with its
    length, enters it into the history of five, empties the line and shows a prompt; the
    characters behind the end of line stay for the next round. *)
Theorem shell_round_ok (ks : list key) ed s e rest (Qw : W -> Prop) :
  represents ed (c_shell s) -> keys_ok ks ed -> line_end e rest -> c_input s = sent ks ++ e ++ rest ->
  wp (msh_exec (padded (text (ed_keys ks ed))) 0 (len (text (ed_keys ks ed)))) (fun _ => Qw) (c_world s) ->
  wp finsh_round (fun _ s' => exists s1, follows ed (ed_keys ks ed) rest s s1 /\ ran (ed_keys ks ed) rest Qw s1 s') s.
Proof.
  intros R Hk He Ei H. destruct s as [x i out w]. cbn in R, Ei, H. subst i. unfold finsh_round. ksteps. cbn [c_input].
  replace (S (length (sent ks ++ e ++ rest))) with (length (sent ks) + S (length (e ++ rest)))%nat by (rewrite (length_app (sent ks)); lia).
  apply (sent_ok _ ks ed); [done..|]. intros [x' i' out' w'] Hf. pose proof Hf as (R' & E1 & E2 & _). cbn in R', E1, E2. subst i' w'.
  eapply wp_mono; [by eapply line_end_ok|]. intros [] s' Hr. exists (Console x' rest out' w). split; [|done].
  destruct Hf as (? & _ & Hf). by split; [|split].
Qed.

End Keys.

(** ** A console *)

Module Demo.

(** A command notes its number and its last argument. *)
#[local] Instance environment : Environment (list Z) := {|
  run_command f argc argv buf :=
    p ← lift (load_at argv (argc - 1)); p ← lift (deref p);
    t ← lift (text_at buf p);
    _ ← modify (fun out => out ++ f :: t); mret 0;
  exec_script t n := mret (-1);
  change_dir t := mret (-1);
  console_puts t := modify (fun out => out ++ t);
  msh_help := mret tt;
  msh_auto_complete_path line k := mret line |}.
Lemma plain_sign : Forall (fun c => c <> 0 /\ c <> 37) [62].
Proof. by repeat constructor. Qed.
#[local] Instance prompt : Prompt (list Z) := {| finsh_get_prompt _ := [62]; prompt_plain _ := plain_sign |}.
#[local] Existing Instance MshSpec.Demo.symbols.

Definition blank : shell := MkShell WAIT_NORMAL 1 0 0 (replicate 5 (replicate 80 0)) (replicate 80 0) 0 0.
Definition start (input : list Z) : console (list Z) := Console blank input [] [].

Lemma blank_represents : represents (Editor [] [] [] 0) blank.
Proof. split; try done; try by apply Forall_nil_2. exists (replicate 5 (replicate 80 0)). split; [done|by repeat constructor]. Qed.

(** [s], a wrong key that is rubbed out, and an [l] put before. *)
Definition keys : list key := [Char 115; Char 120; Backspace; Left; Char 108; Right; Up].

Lemma keys_okay : keys_ok keys (Editor [] [] [] 0).
Proof. repeat split; cbn; lia. Qed.

Lemma shell_keys_ok_witness :
  exists s', finsh_round (start (sent keys)) = Ok (tt, s') /\ represents (Editor [108; 115] [] [] 0) (c_shell s') /\ c_world s' = [].
Proof.
  pose proof (shell_keys_ok keys (Editor [] [] [] 0) (start (sent keys)) blank_represents keys_okay eq_refl) as H.
  apply wp_elim in H as ([] & s' & E & R & _ & Ew & _). exists s'. split; [exact E|]. split; [exact R|exact Ew].
Defined.

Lemma shell_round_ok_witness :
  exists s', finsh_round (start (sent keys ++ [13; 10] ++ [99])) = Ok (tt, s') /\
    represents (Editor [] [] [[108; 115]] 1) (c_shell s') /\ c_input s' = [99] /\ c_world s' = [3; 108; 115].
Proof.
  pose proof (shell_round_ok keys (Editor [] [] [] 0) (start (sent keys ++ [13; 10] ++ [99])) [13; 10] [99] (fun w => w = [3; 108; 115])
    blank_represents keys_okay (end_cr_lf _) eq_refl eq_refl) as H.
  apply wp_elim in H as ([] & s' & E & s1 & _ & R & Ei & Ew & _). exists s'. split; [exact E|]. split; [exact R|]. by split.
Defined.

(** An end of line that another character follows in the buffer is lost: [ls], CR, [ps],
    CR is the one command [lsps]. *)
Lemma lost_return : exists s', finsh_round (start [108; 115; 13; 112; 115; 13]) = Ok (tt, s') /\
  c_world s' = [108; 115; 112; 115] ++ NOT_FOUND.
Proof. eexists. split; by vm_compute. Qed.

(** With the eightieth character the positions start again, the characters stay: what is
    typed then has them behind it, in the argument the command gets and, without a NUL,
    up to the end of the line and beyond. *)
Lemma stale_line : finsh_round (start (replicate 80 97 ++ [108; 115; 32; 98; 13])) = Fault.
Proof. by vm_compute. Qed.

(** Behind a long prompt a recalled line is cut, and a NUL is sent. *)
Lemma plain_directory : Forall (fun c => c <> 0 /\ c <> 37) (replicate 120 97).
Proof. by apply Forall_replicate. Qed.
Definition long_prompt : Prompt (list Z) :=
  {| finsh_get_prompt _ := replicate 120 97; prompt_plain _ := plain_directory |}.

Lemma long_prompt_cuts_line :
  exists b s', shell_handle_history (PR := long_prompt) (Console (with_line (padded (replicate 10 98)) blank) [] [] []) = Ok (b, s') /\
    c_out s' = [27; 91; 50; 75; 13] ++ replicate 120 97 ++ replicate 6 98 ++ [0].
Proof. eexists _, _. split; [vm_compute; reflexivity|reflexivity]. Qed.

End Demo.
