(* ===== verification/Proc.v ===== *)
(** * Functions that wait in several places

    Code that calls functions that wait, in loops and one inside the other: [proc S A] runs
    up to the next place where the processor is given away, and what is left then is a
    [proc] again.  [run] is that run; [pwp p Q s]: from [s], [p] returns without waiting, and
    the result satisfies [Q]. *)

From S2P Require Import Prelude KService Heap KState Scheduler Object Timer Thread Ipc Beside.

#[local] Unset Elimination Schemes.
Inductive proc (S A : Type) : Type :=
| Pure (a : A)
| Step (m : S -> res (proc S A * S))
| Yield (p : proc S A).
#[local] Set Elimination Schemes.
Arguments Pure {S A} _.
Arguments Step {S A} _.
Arguments Yield {S A} _.

Section Proc.
Context {S : Type}.

Fixpoint proc_bind {A B} (f : A -> proc S B) (p : proc S A) : proc S B :=
  match p with
  | Pure a => f a
  | Step m => Step (fun s =>
      match m s with Ok (p, s') => Ok (proc_bind f p, s') | AssertFail => AssertFail | Fault => Fault end)
  | Yield p => Yield (proc_bind f p)
  end.

#[export] Instance proc_mret : MRet (proc S) := fun A a => Pure a.
#[export] Instance proc_mbind : MBind (proc S) := fun A B f p => proc_bind f p.

(** Code that does not wait. *)
Definition act {A} (m : ST S A) : proc S A :=
  Step (fun s => match m s with Ok (a, s') => Ok (Pure a, s') | AssertFail => AssertFail | Fault => Fault end).

(** A function that waits, and how it goes on. *)
Definition await {A W} (m : ST S (outcome A W)) (resume : W -> proc S A) : proc S A :=
  o ← act m; match o with Return a => Pure a | Wait k => Yield (resume k) end.

Fixpoint run {A} (p : proc S A) : ST S (A + proc S A) :=
  match p with
  | Pure a => mret (inl a)
  | Step m => fun s => match m s with Ok (p, s') => run p s' | AssertFail => AssertFail | Fault => Fault end
  | Yield p => mret (inr p)
  end.

Definition pwp {A} (p : proc S A) (Q : A -> S -> Prop) (s : S) : Prop :=
  wp (run p) (fun r s' => match r with inl a => Q a s' | inr _ => False end) s.
#[global] Arguments pwp : simpl never.

Lemma pwp_ret {A} (a : A) (Q : A -> S -> Prop) s : Q a s -> pwp (mret a) Q s.
Proof. done. Qed.

Lemma pwp_act {A} (m : ST S A) (Q : A -> S -> Prop) s : wp m Q s -> pwp (act m) Q s.
Proof. unfold pwp, wp. cbn. by destruct (m s) as [[a s']| |]. Qed.

Lemma pwp_bind {A B} (p : proc S A) (f : A -> proc S B) (Q : B -> S -> Prop) s :
  pwp p (fun a s' => pwp (f a) Q s') s -> pwp (p ≫= f) Q s.
Proof.
  unfold pwp, wp. revert p s. fix IH 1. intros p s. destruct p as [a|m|p]; cbn; [done| |done].
  destruct (m s) as [[p' s']| |]; [|done|done]. apply IH.
Qed.

Lemma pwp_mono {A} (p : proc S A) (Q R : A -> S -> Prop) s :
  pwp p Q s -> (forall a s', Q a s' -> R a s') -> pwp p R s.
Proof. intros H HQ. unfold pwp in *. eapply wp_mono; [exact H|]. intros [a|k] s'; [apply HQ|done]. Qed.

Lemma pwp_await {A W} (m : ST S (outcome A W)) (resume : W -> proc S A) (Q : A -> S -> Prop) s :
  wp m (fun o s' => match o with Return a => Q a s' | Wait _ => False end) s -> pwp (await m resume) Q s.
Proof.
  intros H. unfold await. apply pwp_bind, pwp_act. eapply wp_mono; [exact H|]. by intros [a|k] s'.
Qed.

End Proc.

Lemma wp_bind_inv {S A B} (m : ST S A) (f : A -> ST S B) (Q : B -> S -> Prop) s :
  wp (m ≫= f) Q s -> wp m (fun a => wp (f a) Q) s.
Proof. unfold wp, mbind, ST_bind. by destruct (m s) as [[a s']| |]. Qed.

(** One step of straight-line code. *)
Ltac pstep :=
  cbv beta;
  lazymatch goal with
  | |- pwp (mret _) _ _ => apply pwp_ret
  | |- pwp (mbind _ _) _ _ => apply pwp_bind
  | |- pwp (act _) _ _ => apply pwp_act
  end; cbv beta.
