(* ===== verification/Spi.v ===== *)
(** * The SPI framework (DeviceDrivers/spi_core.c, spi_dev.c, the inline functions of
    DeviceDrivers/include/drivers/spi.h)

    Devices share a bus, which belongs to the one it was last configured for; a transfer
    takes the lock of the bus, configures the bus when it belongs to another device, hands
    messages to the driver of the bus and gives the lock back.  The driver is the interface
    [SpiOps] on a state of its own.  Each function that takes the lock can wait for it.  A
    buffer is what it holds.  Below the code: what a transfer does on a free bus. *)

From Stdlib Require Import Lia.
From S2P Require Import Prelude KService Heap KState Scheduler Object Timer Thread.
From S2P Require Import Invariant Sample ThreadSpec Frame Clock Ipc IpcSpec Serial Device Beside Proc.

(** ** The code *)

Definition RT_SPI_CPHA : Z := 0x01.
Definition RT_SPI_CPOL : Z := 0x02.
Definition RT_SPI_MSB : Z := 0x04.
Definition RT_SPI_MODE_3 : Z := Z.lor RT_SPI_CPOL RT_SPI_CPHA.
Definition RT_SPI_MODE_MASK : Z := Z.lor (Z.lor RT_SPI_CPHA RT_SPI_CPOL) RT_SPI_MSB.

(** [recv_buf]: whether there is one. *)
Record rt_spi_message := SpiMessage {
  send_buf : option (list Z); recv_buf : bool; msg_length : Z; cs_take : bool; cs_release : bool }.
Record rt_spi_configuration := SpiConfiguration { cf_mode : Z; cf_data_width : Z; cf_max_hz : Z }.

Record rt_spi_bus := SpiBus { b_ops : Z; b_owner : Z }.
Record rt_spi_device := SpiDevice { sd_bus : Z; sd_config : rt_spi_configuration; sd_user_data : Z }.

(** The functions of the driver of a bus, which are known by the address of its
    [struct rt_spi_ops]: the device, and the configuration or the message; a transfer gives
    the count and the bytes that are received.  [bus_lock]: the address of the lock in the
    structure of a bus. *)
Class SpiOps (U : Type) := {
  spi_configure : Z -> Z -> rt_spi_configuration -> ST U Z;
  spi_xfer : Z -> Z -> rt_spi_message -> ST U (Z * list Z);
  bus_lock : Z -> Z;
  spi_bus_device_read_addr : Z; spi_bus_device_write_addr : Z; spi_bus_device_control_addr : Z;
  spidev_device_read_addr : Z; spidev_device_write_addr : Z; spidev_device_control_addr : Z }.

Record spi (U : Type) := Spi {
  spi_buses : gmap Z rt_spi_bus; spi_devices : gmap Z rt_spi_device; spi_hw : U }.
Arguments Spi {U} _ _ _.
Arguments spi_buses {U} _.
Arguments spi_devices {U} _.
Arguments spi_hw {U} _.

Section Spi.
Context {U : Type} `{SpiOps U}.

#[local] Abbreviation M := (ST (beside (spi U))).
#[local] Abbreviation P := (proc (beside (spi U))).

Definition get_bus (bus : Z) : M rt_spi_bus := m ← gets (fun s => spi_buses (own s)); lift (deref (m !! bus)).
Definition put_bus (bus : Z) (x : rt_spi_bus) : M unit :=
  modify (fun s => with_own (Spi (<[bus := x]> (spi_buses (own s))) (spi_devices (own s)) (spi_hw (own s))) s).
Definition get_spi (device : Z) : M rt_spi_device :=
  m ← gets (fun s => spi_devices (own s)); lift (deref (m !! device)).
Definition put_spi (device : Z) (x : rt_spi_device) : M unit :=
  modify (fun s => with_own (Spi (spi_buses (own s)) (<[device := x]> (spi_devices (own s))) (spi_hw (own s))) s).
Definition on_hw {A} (m : ST U A) : M A := fun s =>
  match m (spi_hw (own s)) with
  | Ok (a, u) => Ok (a, with_own (Spi (spi_buses (own s)) (spi_devices (own s)) u) s)
  | AssertFail => AssertFail | Fault => Fault end.

(** *** Devices (spi_dev.c) *)

Definition rt_spi_bus_device_init (raw : rt_spi_bus) (bus : Z) (name : list Z) : M Z :=
  _ ← kassert (negb (bus =? RT_NULL));
  _ ← put_bus bus raw;
  _ ← on_kernel (device_functions RT_NULL RT_NULL RT_NULL spi_bus_device_read_addr spi_bus_device_write_addr
                   spi_bus_device_control_addr bus);
  on_kernel (rt_device_register bus name RT_DEVICE_FLAG_RDWR).

Definition rt_spidev_device_init (device : Z) (name : list Z) : M Z :=
  _ ← kassert (negb (device =? RT_NULL));
  _ ← on_kernel (device_functions RT_NULL RT_NULL RT_NULL spidev_device_read_addr spidev_device_write_addr
                   spidev_device_control_addr device);
  on_kernel (rt_device_register device name RT_DEVICE_FLAG_RDWR).

Definition _spi_bus_device_control (dev cmd args : Z) : M Z := mret RT_EOK.
Definition _spidev_device_control (dev cmd args : Z) : M Z := mret RT_EOK.

(** *** Set-up *)

(** [raw]: what the structure of the bus holds. *)
Definition rt_spi_bus_register (raw : rt_spi_bus) (bus : Z) (name : list Z) (ops : Z) : M Z :=
  result ← rt_spi_bus_device_init raw bus name;
  if negb (result =? RT_EOK) then mret result else
  _ ← on_kernel (rt_mutex_init (bus_lock bus) name RT_IPC_FLAG_FIFO);
  x ← get_bus bus; _ ← put_bus bus (SpiBus ops (b_owner x));
  x ← get_bus bus; _ ← put_bus bus (SpiBus (b_ops x) RT_NULL);
  mret RT_EOK.

Definition zero_configuration : rt_spi_configuration := SpiConfiguration 0 0 0.

(** [bus->type == RT_Device_Class_SPIBUS]: it is in the table of buses. *)
Definition rt_spi_bus_attach_device (raw : rt_spi_device) (device : Z) (name bus_name : list Z) (user_data : Z) : M Z :=
  bus ← on_kernel (rt_device_find bus_name);
  is_bus ← gets (fun s => bool_decide (is_Some (spi_buses (own s) !! bus)));
  if negb (bus =? RT_NULL) && (is_bus : bool) then
    _ ← put_spi device (SpiDevice bus (sd_config raw) (sd_user_data raw));
    result ← rt_spidev_device_init device name;
    if negb (result =? RT_EOK) then mret result else
    _ ← put_spi device (SpiDevice bus zero_configuration user_data);
    mret RT_EOK
  else mret (- RT_ERROR).

(** *** Transfers *)

Definition lock_bus (bus : Z) : P Z :=
  await (on_kernel (rt_mutex_take (bus_lock bus) RT_WAITING_FOREVER)) (fun t => act (on_kernel (rt_mutex_take_resume t))).
Definition unlock_bus (bus : Z) : M unit := _ ← on_kernel (rt_mutex_release (bus_lock bus)); mret tt.

Definition configure_bus (device : Z) : M Z :=
  d ← get_spi device; b ← get_bus (sd_bus d);
  on_hw (spi_configure (b_ops b) device (sd_config d)).
Definition xfer (device : Z) (message : rt_spi_message) : M (Z * list Z) :=
  d ← get_spi device; b ← get_bus (sd_bus d); on_hw (spi_xfer (b_ops b) device message).

(** The bus is configured for the device, unless it is already. *)
Definition own_bus (device : Z) : M Z :=
  d ← get_spi device; b ← get_bus (sd_bus d);
  if negb (b_owner b =? device) then
    result ← configure_bus device;
    if result =? RT_EOK then
      b ← get_bus (sd_bus d); _ ← put_bus (sd_bus d) (SpiBus (b_ops b) device); mret RT_EOK
    else mret result
  else mret RT_EOK.

(** The bus of a device, which must have one. *)
Definition bus_of (device : Z) : M Z :=
  _ ← kassert (negb (device =? RT_NULL));
  d ← get_spi device;
  _ ← kassert (negb (sd_bus d =? RT_NULL));
  mret (sd_bus d).

Definition rt_spi_configure (device : Z) (cfg : rt_spi_configuration) : P Z :=
  _ ← act (kassert (negb (device =? RT_NULL)));
  d ← act (get_spi device);
  let config := SpiConfiguration (Z.land (cf_mode cfg) RT_SPI_MODE_MASK) (cf_data_width cfg) (cf_max_hz cfg) in
  _ ← act (put_spi device (SpiDevice (sd_bus d) config (sd_user_data d)));
  if negb (sd_bus d =? RT_NULL) then
    result ← lock_bus (sd_bus d);
    if result =? RT_EOK then
      _ ← act (b ← get_bus (sd_bus d);
               if b_owner b =? device then _ ← configure_bus device; mret tt else mret tt);
      _ ← act (unlock_bus (sd_bus d));
      mret RT_EOK
    else mret RT_EOK
  else mret RT_EOK.

(** Two messages behind each other, the chip being selected all the while: the result and
    the bytes that are received. *)
Definition two_messages (device : Z) (m1 m2 : rt_spi_message) : M (Z * list Z) :=
  result ← own_bus device;
  if negb (result =? RT_EOK) then mret (- RT_EIO, []) else
  '(result, _) ← xfer device m1;
  if result =? 0 then mret (- RT_EIO, []) else
  '(result, data) ← xfer device m2;
  if result =? 0 then mret (- RT_EIO, data) else mret (RT_EOK, data).

Definition rt_spi_send_then_send (device : Z) (send_buf1 : list Z) (send_length1 : Z) (send_buf2 : list Z) (send_length2 : Z) : P Z :=
  bus ← act (bus_of device);
  result ← lock_bus bus;
  if result =? RT_EOK then
    r ← act (two_messages device (SpiMessage (Some send_buf1) false send_length1 true false)
                                 (SpiMessage (Some send_buf2) false send_length2 false true));
    _ ← act (unlock_bus bus);
    mret r.1
  else mret (- RT_EIO).

Definition rt_spi_send_then_recv (device : Z) (send_buf : list Z) (send_length recv_length : Z) : P (Z * list Z) :=
  bus ← act (bus_of device);
  result ← lock_bus bus;
  if result =? RT_EOK then
    r ← act (two_messages device (SpiMessage (Some send_buf) false send_length true false)
                                 (SpiMessage None true recv_length false true));
    _ ← act (unlock_bus bus);
    mret r
  else mret (- RT_EIO, []).

Definition transfer_locked (device : Z) (message : rt_spi_message) : M (Z * list Z) :=
  result ← own_bus device;
  if negb (result =? RT_EOK) then _ ← on_kernel (rt_set_errno (- RT_EIO)); mret (0, []) else
  r ← xfer device message;
  if r.1 =? 0 then _ ← on_kernel (rt_set_errno (- RT_EIO)); mret r else mret r.
Definition rt_spi_transfer (device : Z) (send_buf : option (list Z)) (recv_buf : bool) (length : Z) : P (Z * list Z) :=
  bus ← act (bus_of device);
  result ← lock_bus bus;
  if result =? RT_EOK then
    r ← act (transfer_locked device (SpiMessage send_buf recv_buf length true true));
    _ ← act (unlock_bus bus);
    mret r
  else _ ← act (on_kernel (rt_set_errno (- RT_EIO))); mret (0, []).

(** A list of messages: what is received for each, and the ones that are left. *)
Fixpoint message_loop (device : Z) (index : list rt_spi_message) : M (list (list Z) * list rt_spi_message) :=
  match index with
  | [] => mret ([], [])
  | m :: next =>
      '(result, data) ← xfer device m;
      if result =? 0 then _ ← on_kernel (rt_set_errno (- RT_EIO)); mret ([data], index) else
      '(datas, rest) ← message_loop device next;
      mret (data :: datas, rest)
  end.
Definition messages_locked (device : Z) (index : list rt_spi_message) : M (list (list Z) * list rt_spi_message) :=
  _ ← on_kernel (rt_set_errno RT_EOK);
  result ← own_bus device;
  if negb (result =? RT_EOK) then _ ← on_kernel (rt_set_errno (- RT_EIO)); mret ([], index) else
  message_loop device index.
Definition rt_spi_transfer_message (device : Z) (message : list rt_spi_message) : P (list (list Z) * list rt_spi_message) :=
  _ ← act (kassert (negb (device =? RT_NULL)));
  match message with
  | [] => mret ([], [])
  | _ =>
      d ← act (get_spi device);
      result ← lock_bus (sd_bus d);
      if negb (result =? RT_EOK) then _ ← act (on_kernel (rt_set_errno (- RT_EBUSY))); mret ([], message) else
      r ← act (messages_locked device message);
      _ ← act (unlock_bus (sd_bus d));
      mret r
  end.

Definition rt_spi_take_bus (device : Z) : P Z :=
  bus ← act (bus_of device);
  result ← lock_bus bus;
  if negb (result =? RT_EOK) then _ ← act (on_kernel (rt_set_errno (- RT_EBUSY))); mret (- RT_EBUSY) else
  _ ← act (on_kernel (rt_set_errno RT_EOK));
  result ← act (own_bus device);
  if negb (result =? RT_EOK) then
    _ ← act (on_kernel (rt_set_errno (- RT_EIO)));
    _ ← act (unlock_bus bus);
    mret (- RT_EIO)
  else mret result.

Definition rt_spi_release_bus (device : Z) : M Z :=
  bus ← bus_of device;
  b ← get_bus bus;
  _ ← kassert (b_owner b =? device);
  _ ← unlock_bus bus;
  mret RT_EOK.

Definition rt_spi_take (device : Z) : M Z :=
  _ ← bus_of device; r ← xfer device (SpiMessage None false 0 true false); mret r.1.
Definition rt_spi_release (device : Z) : M Z :=
  _ ← bus_of device; r ← xfer device (SpiMessage None false 0 false true); mret r.1.

Definition rt_spi_recv (device length : Z) : P (Z * list Z) := rt_spi_transfer device None true length.
Definition rt_spi_send (device : Z) (send_buf : list Z) (length : Z) : P Z :=
  r ← rt_spi_transfer device (Some send_buf) false length; mret r.1.
(** The byte is not set when the transfer fails: [value] is what the stack holds. *)
Definition rt_spi_sendrecv8 (device data value : Z) : P Z :=
  r ← rt_spi_send_then_recv device [u8 data] 1 1; mret (default value (head r.2)).
Definition rt_spi_sendrecv16 (device data : Z) (value : list Z) : P (list Z) :=
  r ← rt_spi_send_then_recv device [u8 data; u8 (Z.shiftr data 8)] 2 2; mret (take 2 (r.2 ++ drop (length r.2) value)).

(** A message at the end of a list; [None]: none is given. *)
Definition rt_spi_message_append (list : list rt_spi_message) (message : option rt_spi_message) : M (Datatypes.list rt_spi_message) :=
  _ ← kassert (negb (bool_decide (list = [])));
  match message with None => mret list | Some message => mret (list ++ [message]) end.

(** *** The devices' functions *)

Definition _spi_bus_device_read (bus size : Z) : P (Z * list Z) :=
  _ ← act (kassert (negb (bus =? RT_NULL)));
  b ← act (get_bus bus);
  _ ← act (kassert (negb (b_owner b =? RT_NULL)));
  rt_spi_transfer (b_owner b) None true size.
Definition _spi_bus_device_write (bus : Z) (buffer : list Z) (size : Z) : P (Z * list Z) :=
  _ ← act (kassert (negb (bus =? RT_NULL)));
  b ← act (get_bus bus);
  _ ← act (kassert (negb (b_owner b =? RT_NULL)));
  rt_spi_transfer (b_owner b) (Some buffer) false size.
Definition _spidev_device_read (device size : Z) : P (Z * list Z) :=
  _ ← act (bus_of device); rt_spi_transfer device None true size.
Definition _spidev_device_write (device : Z) (buffer : list Z) (size : Z) : P (Z * list Z) :=
  _ ← act (bus_of device); rt_spi_transfer device (Some buffer) false size.

End Spi.

(** ** A lock that is free *)

(** [t] runs, and the lock is free. *)
Record lock_free (lock t : Z) (th : rt_thread) (k : kst) : Prop := {
  lf_caller : caller k t th;
  lf_lock : lock <> RT_NULL;
  lf_mutex : i_mutexes (ip k) !! lock = Some new_mutex;
  lf_waiters : tlist (sc k) (LSuspend lock) = [];
}.

Definition lock_held (lock t : Z) (th : rt_thread) (k : kst) : kst :=
  set_mutex lock (RtMutex 0 (t_current_priority th) 1 t) k.

Lemma wp_take_free_lock (lock t time : Z) (th : rt_thread) (k : kst) (Q : outcome Z Z -> kst -> Prop) :
  lock_free lock t th k ->
  Q (Return RT_EOK) (lock_held lock t (thr_error RT_EOK th) (set_thread t (thr_error RT_EOK th) k)) ->
  wp (rt_mutex_take lock time) Q k.
Proof.
  intros [C Hl Hm _] HQ. pose proof (ca_thread _ _ _ C) as Ht.
  pose proof (wk_addr _ (ca_wf _ _ _ C) t th Ht) as Ha.
  assert (Hx : s_threads (sc (set_thread t (thr_error RT_EOK th) k)) !! t = Some (thr_error RT_EOK th))
    by apply lookup_insert_eq.
  unfold rt_mutex_take. kstep. eapply wp_in_thread; [exact C|]. kstep.
  kstep; [by apply negb_true_iff, Z.eqb_neq|]. do 2 kstep. rewrite (ca_current _ _ _ C). kstep.
  eapply wp_upd_thread; [exact Ht|]. kstep. eapply wp_get_mutex; [exact Hm|].
  cbn [new_mutex mtx_owner mtx_value mtx_hold]. rewrite (proj2 (Z.eqb_neq RT_NULL t)) by (unfold RT_NULL; lia).
  cbn [Z.ltb Z.compare]. kstep. eapply wp_get_thread; [exact Hx|]. do 3 kstep. exact HQ.
Qed.

(** The outermost release by the owner, when nobody waits. *)
Lemma wp_release_held (lock t : Z) (th : rt_thread) (k : kst) (Q : Z -> kst -> Prop) :
  caller k t th -> i_mutexes (ip k) !! lock = Some (RtMutex 0 (t_current_priority th) 1 t) ->
  tlist (sc k) (LSuspend lock) = [] -> Q RT_EOK (set_mutex lock new_mutex k) ->
  wp (rt_mutex_release lock) Q k.
Proof.
  intros C Hm Hw HQ. pose proof (ca_thread _ _ _ C) as Ht.
  unfold rt_mutex_release. kstep. eapply wp_in_thread; [exact C|]. do 3 kstep.
  rewrite (ca_current _ _ _ C). eapply wp_get_mutex; [exact Hm|].
  cbn [mtx_owner mtx_value mtx_hold mtx_original_priority]. rewrite Z.eqb_refl. cbn [negb].
  kstep. change (u8 (1 - 1)) with 0. cbn [Z.eqb]. do 3 kstep. eapply wp_get_thread; [exact Ht|].
  rewrite Z.eqb_refl. cbn [negb kwhen]. do 2 kstep. kstep. apply wp_isempty.
  change (tlist _ _) with (tlist (sc k) (LSuspend lock)). rewrite Hw, bool_decide_true by done. cbn [negb].
  repeat (first [kstep | progress cbn [kwhen]]). unfold set_mutex, upd_ip, with_mutexes in *. cbn in *. by rewrite insert_insert_eq.
Qed.

(** ** Transfers on a free bus *)

Section Transfer.
Context {U : Type} `{SpiOps U}.
#[local] Abbreviation M := (ST (beside (spi U))).
#[local] Abbreviation P := (proc (beside (spi U))).

(** The device, which is attached to a bus with the functions [ops]. *)
Variables (device ops : Z) (d : rt_spi_device).
Let bus := sd_bus d.
Let lock := bus_lock bus.

(** *** What happens to the bus: its owner and the hardware *)

Definition hw {A} (m : ST U A) : ST (Z * U) A := fun v =>
  match m v.2 with Ok (a, u) => Ok (a, (v.1, u)) | AssertFail => AssertFail | Fault => Fault end.
Definition hw_own : ST (Z * U) Z :=
  o ← gets fst;
  if negb (o =? device) then
    r ← hw (spi_configure ops device (sd_config d));
    if r =? RT_EOK then _ ← modify (fun v => (device, v.2)); mret RT_EOK else mret r
  else mret RT_EOK.
Definition hw_transfer (m : rt_spi_message) : ST (Z * U) (Z * list Z) :=
  r ← hw_own;
  if negb (r =? RT_EOK) then mret (0, []) else hw (spi_xfer ops device m).
Definition hw_two (m1 m2 : rt_spi_message) : ST (Z * U) (Z * list Z) :=
  r ← hw_own;
  if negb (r =? RT_EOK) then mret (- RT_EIO, []) else
  r ← hw (spi_xfer ops device m1);
  if r.1 =? 0 then mret (- RT_EIO, []) else
  r ← hw (spi_xfer ops device m2);
  if r.1 =? 0 then mret (- RT_EIO, r.2) else mret (RT_EOK, r.2).

Lemma wp_hw {A} (m : ST U A) (Q : A -> Z * U -> Prop) (v : Z * U) :
  wp m (fun a u => Q a (v.1, u)) v.2 -> wp (hw m) Q v.
Proof. unfold wp, hw. by destruct (m v.2) as [[a u]| |]. Qed.

(** *** The system seen from the bus *)

Definition at_bus (v : Z * U) (s : beside (spi U)) : beside (spi U) :=
  with_own (Spi (<[bus := SpiBus ops v.1]> (spi_buses (own s))) (spi_devices (own s)) v.2) s.

Variable s : beside (spi U).
Hypothesis Hd : spi_devices (own s) !! device = Some d.

Lemma wp_get_spi (Q : rt_spi_device -> beside (spi U) -> Prop) (v : Z * U) k :
  Q d (with_kernel k (at_bus v s)) -> wp (get_spi device) Q (with_kernel k (at_bus v s)).
Proof. intros HQ. unfold get_spi. eapply wp_bind, wp_gets, wp_lift; [exact Hd|exact HQ]. Qed.

Lemma wp_get_bus (Q : rt_spi_bus -> beside (spi U) -> Prop) (v : Z * U) k :
  Q (SpiBus ops v.1) (with_kernel k (at_bus v s)) -> wp (get_bus bus) Q (with_kernel k (at_bus v s)).
Proof. intros HQ. unfold get_bus. eapply wp_bind, wp_gets, wp_lift; [apply lookup_insert_eq|exact HQ]. Qed.

Lemma wp_on_hw {A} (m : ST U A) (Q : A -> beside (spi U) -> Prop) (v : Z * U) k :
  wp m (fun a u => Q a (with_kernel k (at_bus (v.1, u) s))) v.2 -> wp (on_hw m) Q (with_kernel k (at_bus v s)).
Proof. unfold wp, on_hw. cbn. by destruct (m v.2) as [[a u]| |]. Qed.

Lemma wp_own_bus (Q : Z -> beside (spi U) -> Prop) (v : Z * U) k :
  wp hw_own (fun r v' => Q r (with_kernel k (at_bus v' s))) v -> wp (own_bus device) Q (with_kernel k (at_bus v s)).
Proof.
  intros HQ. unfold own_bus. wstep. apply wp_get_spi. fold bus. wstep. apply wp_get_bus. cbn [b_owner].
  unfold hw_own in HQ. unfold wp at 1, mbind at 1, ST_bind at 1, gets at 1 in HQ. cbn beta iota in HQ.
  destruct (negb (v.1 =? device)); [|wstep; exact HQ]. wstep.
  unfold configure_bus. wstep. apply wp_get_spi. fold bus. wstep. apply wp_get_bus. cbn [b_ops].
  apply wp_on_hw. unfold wp, mbind, ST_bind, hw in *.
  destruct (spi_configure ops device (sd_config d) v.2) as [[r u]| |]; [|done..].
  destruct (r =? RT_EOK); [|exact HQ]. change (wp (b ← get_bus bus; _ ← put_bus bus (SpiBus (b_ops b) device); mret RT_EOK) Q
    (with_kernel k (at_bus (v.1, u) s))). wstep. apply wp_get_bus. cbn [b_ops]. wstep. apply wp_modify. wstep.
  unfold at_bus, with_kernel, with_own in *. cbn in *. by rewrite insert_insert_eq.
Qed.

Lemma wp_xfer (m : rt_spi_message) (Q : Z * list Z -> beside (spi U) -> Prop) (v : Z * U) k :
  wp (hw (spi_xfer ops device m)) (fun r v' => Q r (with_kernel k (at_bus v' s))) v ->
  wp (xfer device m) Q (with_kernel k (at_bus v s)).
Proof.
  intros HQ. unfold xfer. wstep. apply wp_get_spi. fold bus. wstep. apply wp_get_bus. cbn [b_ops].
  apply wp_on_hw. unfold wp, hw in *. by destruct (spi_xfer ops device m v.2) as [[r u]| |].
Qed.

Lemma wp_two_messages (m1 m2 : rt_spi_message) (Q : Z * list Z -> beside (spi U) -> Prop) (v : Z * U) k :
  wp (hw_two m1 m2) (fun r v' => Q r (with_kernel k (at_bus v' s))) v ->
  wp (two_messages device m1 m2) Q (with_kernel k (at_bus v s)).
Proof.
  intros HQ. unfold two_messages, hw_two in *. apply wp_bind, wp_own_bus.
  apply wp_bind_inv in HQ. eapply wp_mono; [exact HQ|]. clear HQ. intros r v1 HQ. cbv beta in *.
  destruct (negb (r =? RT_EOK)); [exact HQ|]. apply wp_bind, wp_xfer. apply wp_bind_inv in HQ.
  eapply wp_mono; [exact HQ|]. clear HQ. intros [r1 x] v2 HQ. cbn [fst snd] in *.
  destruct (r1 =? 0); [exact HQ|]. apply wp_bind, wp_xfer. apply wp_bind_inv in HQ.
  eapply wp_mono; [exact HQ|]. clear HQ. intros [r2 data] v3 HQ. cbn [fst snd] in *.
  by destruct (r2 =? 0).
Qed.

(** *** The lock around a transfer *)

Variables (t : Z) (th : rt_thread) (v0 : Z * U).
Let k := kernel s.
Hypothesis Hs : s = at_bus v0 s.
Hypothesis Hdev : device <> RT_NULL.
Hypothesis Hbus : bus <> RT_NULL.
Hypothesis L : lock_free lock t th k.

(** The kernel behind a transfer that left the error [e], and within one. *)
Definition with_error (e : Z) : kst := set_thread t (thr_error e th) k.
Definition inside (e : Z) : kst := lock_held lock t (thr_error e th) (with_error e).

Lemma caller_inside (e : Z) : caller (inside e) t (thr_error e th).
Proof. exact (caller_ip (with_error e) t _ _ (caller_error k t e th (lf_caller _ _ _ _ L))). Qed.

Lemma wp_transfer_locked (m : rt_spi_message) (Q : Z * list Z -> beside (spi U) -> Prop) :
  wp (hw_transfer m) (fun r v' =>
    Q r (with_kernel (inside (if r.1 =? 0 then - RT_EIO else RT_EOK)) (at_bus v' s))) v0 ->
  wp (transfer_locked device m) Q (with_kernel (inside RT_EOK) (at_bus v0 s)).
Proof.
  intros HQ.
  assert (E : forall (A : Type) (a : A) (R : A -> beside (spi U) -> Prop) s1,
    R a (with_kernel (inside (- RT_EIO)) s1) ->
    wp (_ ← on_kernel (rt_set_errno (- RT_EIO)); mret a) R (with_kernel (inside RT_EOK) s1)).
  { intros A a R s1 HR. wstep. apply wp_kernel. pose proof (caller_inside RT_EOK) as C.
    cbn [kernel with_kernel]. unfold rt_set_errno. wstep. apply wp_gets. rewrite (ca_nest _ _ _ C).
    cbn [negb Z.eqb]. wstep. apply wp_gets. rewrite (ca_current _ _ _ C).
    pose proof (wk_addr _ (ca_wf _ _ _ C) t _ (ca_thread _ _ _ C)).
    rewrite (proj2 (Z.eqb_neq _ _)) by (unfold RT_NULL; lia). eapply wp_upd_thread; [apply C|]. wstep.
    unfold inside, with_error, lock_held, set_mutex, set_thread, upd_ip, upd_sc, with_threads, with_kernel in *.
    cbn in *. by rewrite insert_insert_eq. }
  unfold transfer_locked, hw_transfer in *. apply wp_bind, wp_own_bus. apply wp_bind_inv in HQ.
  eapply wp_mono; [exact HQ|]. clear HQ. intros r v1 HQ. cbv beta in *.
  destruct (negb (r =? RT_EOK)); [by apply E|]. apply wp_bind, wp_xfer.
  eapply wp_mono; [exact HQ|]. clear HQ. intros [r1 data] v2 HQ. cbn [fst] in *.
  destruct (r1 =? 0); [by apply E|wstep; exact HQ].
Qed.

Lemma lock_again (e : Z) : set_mutex lock new_mutex (inside e) = with_error e.
Proof.
  unfold inside, lock_held, with_error, set_mutex, set_thread, upd_ip, upd_sc, with_mutexes. cbn.
  rewrite insert_insert_eq, (insert_id (i_mutexes (ip k)) lock new_mutex) by apply (lf_mutex _ _ _ _ L).
  generalize k. by intros [? ? ? [] ? ?].
Qed.

Lemma pwp_with_lock {A B} (body : M A) (f : A -> B) (other : P B) (Q : B -> beside (spi U) -> Prop) :
  wp body (fun a s1 => exists e v, s1 = with_kernel (inside e) (at_bus v s) /\
    Q (f a) (with_kernel (with_error e) (at_bus v s))) (with_kernel (inside RT_EOK) (at_bus v0 s)) ->
  pwp (bus ← act (bus_of device);
       result ← lock_bus bus;
       if result =? RT_EOK then a ← act body; _ ← act (unlock_bus bus); mret (f a) else other) Q s.
Proof.
  intros HB. pstep. apply pwp_act. unfold bus_of. wstep. wstep; [by apply negb_true_iff, Z.eqb_neq|]. wstep.
  unfold get_spi. eapply wp_bind, wp_gets, wp_lift; [exact Hd|]. wstep.
  wstep; [by apply negb_true_iff, Z.eqb_neq|]. wstep. fold bus. pstep. unfold lock_bus.
  apply pwp_await, wp_kernel. apply (wp_take_free_lock _ t _ th); [exact L|]. rewrite Z.eqb_refl. pstep. pstep.
  rewrite Hs. fold k. change (with_kernel _ (at_bus v0 s)) with (with_kernel (inside RT_EOK) (at_bus v0 s)).
  eapply wp_mono; [exact HB|]. clear HB. intros a s1 (e & v & -> & HQ). pstep. pstep. unfold unlock_bus. wstep.
  apply wp_kernel. cbn [kernel with_kernel]. eapply wp_release_held.
  - apply caller_inside.
  - apply lookup_insert_eq.
  - exact (lf_waiters _ _ _ _ L).
  - fold lock. rewrite lock_again. wstep. pstep. exact HQ.
Qed.

(** On a free bus the transfers do to the bus what [hw_transfer] and [hw_two] do, leave the
    lock free, and change nothing else but the error of the thread. *)
Lemma pwp_transfer (sb : option (list Z)) (rb : bool) (n : Z) (Q : Z * list Z -> beside (spi U) -> Prop) :
  wp (hw_transfer (SpiMessage sb rb n true true)) (fun r v => forall e, Q r (with_kernel (with_error e) (at_bus v s))) v0 ->
  pwp (rt_spi_transfer device sb rb n) Q s.
Proof.
  intros HQ. unfold rt_spi_transfer. apply (pwp_with_lock _ (fun r => r)). apply wp_transfer_locked.
  eapply wp_mono; [exact HQ|]. intros r v Hr. cbv beta in *. eauto.
Qed.

Lemma pwp_send_then_recv (sb : list Z) (n1 n2 : Z) (Q : Z * list Z -> beside (spi U) -> Prop) :
  wp (hw_two (SpiMessage (Some sb) false n1 true false) (SpiMessage None true n2 false true))
    (fun r v => forall e, Q r (with_kernel (with_error e) (at_bus v s))) v0 ->
  pwp (rt_spi_send_then_recv device sb n1 n2) Q s.
Proof.
  intros HQ. unfold rt_spi_send_then_recv. apply (pwp_with_lock _ (fun r => r)). apply wp_two_messages.
  eapply wp_mono; [exact HQ|]. intros r v Hr. cbv beta in *. eauto.
Qed.

Lemma pwp_send_then_send (b1 b2 : list Z) (n1 n2 : Z) (Q : Z -> beside (spi U) -> Prop) :
  wp (hw_two (SpiMessage (Some b1) false n1 true false) (SpiMessage (Some b2) false n2 false true))
    (fun r v => forall e, Q r.1 (with_kernel (with_error e) (at_bus v s))) v0 ->
  pwp (rt_spi_send_then_send device b1 n1 b2 n2) Q s.
Proof.
  intros HQ. unfold rt_spi_send_then_send. apply (pwp_with_lock _ fst). apply wp_two_messages.
  eapply wp_mono; [exact HQ|]. intros r v Hr. cbv beta in *. eauto.
Qed.

End Transfer.
