(* ===== verification/SpiFlash.v ===== *)
(** * The flash chip on the SPI bus (DeviceDrivers/spi_flash_w25qxx.c)

    A block device with sectors of 4096 bytes over a W25Q chip: a sector is erased and
    programmed in pages of 256 bytes, each step behind a write enable and followed by
    polling the chip until it is ready.  The static [spi_flash_device] is the argument [fd];
    [w25qxx_init], which alone sets it, returns it.  What the variables on the stack hold
    before a transfer sets them is [junk].  Messages to the console are left out.

    Below the code: the chip as its data sheet describes it, as the interface [Chip_behind]
    of the hardware behind the bus; and that sectors that are written are read back. *)

From Stdlib Require Import Lia.
From S2P Require Import Prelude KService Heap KState Scheduler Object Timer Thread.
From S2P Require Import Invariant Sample ThreadSpec Frame Clock Ipc IpcSpec Serial Device Beside Proc Spi.

(** ** The code *)

Definition PAGE_SIZE : Z := 4096.
Definition MF_ID : Z := 0xEF.
Definition GD_ID : Z := 0xC8.
Definition MTC_W25Q80_BV : Z := 0x4014.
Definition MTC_W25Q16_BV_CL_CV : Z := 0x4015.
Definition MTC_W25Q16_DW : Z := 0x6015.
Definition MTC_W25Q32_BV : Z := 0x4016.
Definition MTC_W25Q32_DW : Z := 0x6016.
Definition MTC_W25Q64_BV_CV : Z := 0x4017.
Definition MTC_W25Q64_DW : Z := 0x4017.
Definition MTC_W25Q128_BV : Z := 0x4018.
Definition CMD_WRSR : Z := 0x01.
Definition CMD_PP : Z := 0x02.
Definition CMD_READ : Z := 0x03.
Definition CMD_WRDI : Z := 0x04.
Definition CMD_RDSR1 : Z := 0x05.
Definition CMD_WREN : Z := 0x06.
Definition CMD_ERASE_4K : Z := 0x20.
Definition CMD_JEDEC_ID : Z := 0x9F.

Record blk_geometry := Geometry { sector_count : Z; bytes_per_sector : Z; block_size : Z }.
Record spi_flash_device := FlashDevice { fl_spi : Z; fl_geometry : blk_geometry }.

(** The addresses of the static structure and of the lock in it, and of the functions. *)
Class FlashCode := {
  flash_dev : Z; flash_mutex : Z;
  flash_init_addr : Z; flash_open_addr : Z; flash_close_addr : Z;
  flash_read_addr : Z; flash_write_addr : Z; flash_control_addr : Z }.

Section Flash.
Context {U : Type} `{SpiOps U} `{FlashCode}.
#[local] Abbreviation M := (ST (beside (spi U))).
#[local] Abbreviation P := (proc (beside (spi U))).

Definition flash_lock : P unit :=
  _ ← await (on_kernel (rt_mutex_take flash_mutex RT_WAITING_FOREVER)) (fun t => act (on_kernel (rt_mutex_take_resume t)));
  mret tt.
Definition flash_unlock : P unit := _ ← act (on_kernel (rt_mutex_release flash_mutex)); mret tt.

Section Device.
Variables (fd : spi_flash_device) (junk : Z).

Definition w25qxx_read_status : P Z := rt_spi_sendrecv8 (fl_spi fd) CMD_RDSR1 junk.

Fixpoint w25qxx_wait_busy (fuel : nat) : P unit :=
  match fuel with
  | O => act hang
  | S fuel =>
      status ← w25qxx_read_status;
      if negb (Z.land status 0x01 =? 0) then w25qxx_wait_busy fuel else mret tt
  end.

(** A command with an address of 24 bits. *)
Definition command (cmd addr : Z) : list Z := [cmd; u8 (Z.shiftr addr 16); u8 (Z.shiftr addr 8); u8 addr].

Definition w25qxx_read (offset size : Z) : P (Z * list Z) :=
  _ ← rt_spi_send (fl_spi fd) [CMD_WRDI] 1;
  r ← rt_spi_send_then_recv (fl_spi fd) (command CMD_READ offset) 4 size;
  mret (size, r.2).

Section Write.
Variable fuel : nat.

(** The loop over [index] pages that are left. *)
Fixpoint program_loop (index : nat) (page_addr : Z) (buffer : list Z) : P unit :=
  match index with
  | O => mret tt
  | S index =>
      _ ← rt_spi_send (fl_spi fd) [CMD_WREN] 1;
      _ ← rt_spi_send_then_send (fl_spi fd) (command CMD_PP page_addr) 4 (take 256 buffer) 256;
      _ ← w25qxx_wait_busy fuel;
      program_loop index (u32 (page_addr + 256)) (drop 256 buffer)
  end.

Definition w25qxx_page_write (page_addr : Z) (buffer : list Z) : P Z :=
  _ ← act (kassert (Z.land page_addr 0xFF =? 0));
  _ ← rt_spi_send (fl_spi fd) [CMD_WREN] 1;
  _ ← rt_spi_send (fl_spi fd) (command CMD_ERASE_4K page_addr) 4;
  _ ← w25qxx_wait_busy fuel;
  _ ← program_loop (Z.to_nat (PAGE_SIZE / 256)) page_addr buffer;
  _ ← rt_spi_send (fl_spi fd) [CMD_WRDI] 1;
  mret PAGE_SIZE.

Definition clear_status : P unit :=
  _ ← rt_spi_send (fl_spi fd) [CMD_WREN] 1;
  _ ← rt_spi_send (fl_spi fd) [CMD_WRSR; 0; 0] 3;
  w25qxx_wait_busy fuel.
Definition w25qxx_flash_open (oflag : Z) : P Z :=
  _ ← flash_lock;
  _ ← clear_status;
  _ ← flash_unlock;
  mret RT_EOK.

(** The loop over [block] sectors that are left. *)
Fixpoint write_loop (block : nat) (pos i : Z) (ptr : list Z) : P unit :=
  match block with
  | O => mret tt
  | S block =>
      _ ← w25qxx_page_write (u32 ((pos + i) * bytes_per_sector (fl_geometry fd))) (take (Z.to_nat PAGE_SIZE) ptr);
      write_loop block pos (i + 1) (drop (Z.to_nat PAGE_SIZE) ptr)
  end.
Definition w25qxx_flash_write (pos : Z) (buffer : list Z) (size : Z) : P Z :=
  _ ← flash_lock;
  _ ← write_loop (Z.to_nat size) pos 0 buffer;
  _ ← flash_unlock;
  mret size.

End Write.

Definition w25qxx_flash_init : M Z := mret RT_EOK.
Definition w25qxx_flash_close : M Z := mret RT_EOK.

Definition RT_DEVICE_CTRL_BLK_GETGEOME : Z := 0x10.
(** [args]: whether there is a place for the geometry, which is the second component. *)
Definition w25qxx_flash_control (dev cmd : Z) (args : bool) : M (Z * option blk_geometry) :=
  _ ← kassert (negb (dev =? RT_NULL));
  if cmd =? RT_DEVICE_CTRL_BLK_GETGEOME then
    if negb args then mret (- RT_ERROR, None) else mret (RT_EOK, Some (fl_geometry fd))
  else mret (RT_EOK, None).

Definition w25qxx_flash_read (pos size : Z) : P (Z * list Z) :=
  _ ← flash_lock;
  r ← w25qxx_read (u32 (pos * bytes_per_sector (fl_geometry fd))) (u32 (size * bytes_per_sector (fl_geometry fd)));
  _ ← flash_unlock;
  mret (size, r.2).

End Device.

Definition sectors_of (memory_type_capacity : Z) : option Z :=
  if memory_type_capacity =? MTC_W25Q128_BV then Some 4096
  else if memory_type_capacity =? MTC_W25Q64_BV_CV then Some 2048
  else if memory_type_capacity =? MTC_W25Q64_DW then Some 2048
  else if memory_type_capacity =? MTC_W25Q32_BV then Some 1024
  else if memory_type_capacity =? MTC_W25Q32_DW then Some 1024
  else if memory_type_capacity =? MTC_W25Q16_BV_CL_CV then Some 512
  else if memory_type_capacity =? MTC_W25Q16_DW then Some 512
  else if memory_type_capacity =? MTC_W25Q80_BV then Some 256
  else None.

(** The identification of the chip: manufacturer, memory type and capacity. *)
Definition identify (spi : Z) (id_recv : list Z) : P (list Z) :=
  _ ← flash_lock;
  _ ← rt_spi_send spi [0xFF] 1;
  _ ← rt_spi_send spi [CMD_WRDI] 1;
  r ← rt_spi_send_then_recv spi [CMD_JEDEC_ID] 1 3;
  _ ← flash_unlock;
  mret (take 3 (r.2 ++ drop (length r.2) id_recv)).

(** Returns the static structure too. *)
Definition w25qxx_init (fd : spi_flash_device) (id_recv flash_device_name spi_device_name : list Z) : P (Z * spi_flash_device) :=
  result ← act (on_kernel (rt_mutex_init flash_mutex spi_device_name RT_IPC_FLAG_FIFO));
  if negb (result =? RT_EOK) then mret (- RT_ENOSYS, fd) else
  spi ← act (on_kernel (rt_device_find spi_device_name));
  if spi =? RT_NULL then mret (- RT_ENOSYS, fd) else
  let fd := FlashDevice spi (fl_geometry fd) in
  _ ← rt_spi_configure spi (SpiConfiguration (Z.lor RT_SPI_MODE_3 RT_SPI_MSB) 8 (50 * 1000 * 1000));
  id ← identify spi id_recv;
  let id0 := default 0 (id !! 0%nat) in
  if negb (id0 =? MF_ID) && negb (id0 =? GD_ID) then mret (- RT_ENOSYS, fd) else
  let fd := FlashDevice spi (Geometry (sector_count (fl_geometry fd)) 4096 4096) in
  let memory_type_capacity := Z.lor (u16 (Z.shiftl (default 0 (id !! 1%nat)) 8)) (default 0 (id !! 2%nat)) in
  match sectors_of memory_type_capacity with
  | None => mret (- RT_ENOSYS, fd)
  | Some n =>
      let fd := FlashDevice spi (Geometry n 4096 4096) in
      _ ← act (on_kernel (device_functions flash_init_addr flash_open_addr flash_close_addr flash_read_addr
                            flash_write_addr flash_control_addr flash_dev));
      _ ← act (on_kernel (rt_device_register flash_dev flash_device_name
                            (Z.lor RT_DEVICE_FLAG_RDWR RT_DEVICE_FLAG_STANDALONE)));
      mret (RT_EOK, fd)
  end.

(** The names "flash" and "w25q64". *)
Definition spi_flahs_init (fd : spi_flash_device) (id_recv : list Z) : P Z :=
  _ ← w25qxx_init fd id_recv [102; 108; 97; 115; 104; 0] [119; 50; 53; 113; 54; 52; 0];
  mret 0.

End Flash.

(** ** The chip *)

(** Its bytes; that writing is enabled; how many times it still reports to be busy; the
    protection bits of the status; and what it was sent since it was selected. *)
Record w25 := Chip { c_mem : Z -> Z; c_wel : bool; c_busy : nat; c_protect : Z; c_sel : list Z }.

Definition addr24 (x y z : Z) : Z := x * 65536 + y * 256 + z.
Definition status_of (c : w25) : Z :=
  (if Nat.eqb (c_busy c) 0 then 0 else 1) + (if c_wel c then 2 else 0) + 4 * c_protect c.
Definition erased (a : Z) (mem : Z -> Z) : Z -> Z := fun x => if x / 4096 =? a / 4096 then 255 else mem x.
(** Within a page, programming clears bits. *)
Definition programmed (a : Z) (data : list Z) (mem : Z -> Z) : Z -> Z := fun x =>
  match data !! Z.to_nat ((x - a) mod 256) with
  | Some b => if x / 256 =? a / 256 then Z.land (mem x) b else mem x
  | None => mem x
  end.

Section Data_sheet.
(** For how many reads of the status a command keeps the chip busy, and its size. *)
Variables (delay : list Z -> nat) (size : Z).

(** What the data sheet promises for the bytes [s] of a command when the chip is deselected. *)
Definition chip_execute (s : list Z) (c : w25) : option w25 :=
  match s with
  | [] => None
  | k :: args =>
      if k =? CMD_RDSR1 then Some (Chip (c_mem c) (c_wel c) (c_busy c) (c_protect c) [])
      else if negb (Nat.eqb (c_busy c) 0) then None
      else if k =? CMD_READ then Some (Chip (c_mem c) (c_wel c) 0 (c_protect c) [])
      else if k =? CMD_WREN then Some (Chip (c_mem c) true 0 (c_protect c) [])
      else if k =? CMD_WRDI then Some (Chip (c_mem c) false 0 (c_protect c) [])
      else if negb (c_wel c) then None
      else if k =? CMD_WRSR then
        match args with
        | [s1; _] => Some (Chip (c_mem c) false (delay s) (Z.land (Z.shiftr s1 2) 0x3F) [])
        | _ => None
        end
      else if negb (c_protect c =? 0) then None
      else if k =? CMD_ERASE_4K then
        match args with
        | [x; y; z] =>
            if addr24 x y z <? size then Some (Chip (erased (addr24 x y z) (c_mem c)) false (delay s) 0 []) else None
        | _ => None
        end
      else if k =? CMD_PP then
        match args with
        | x :: y :: z :: data =>
            if Nat.leb (length data) 256 && (addr24 x y z <? size) then
              Some (Chip (programmed (addr24 x y z) data (c_mem c)) false (delay s) 0 []) else None
        | _ => None
        end
      else None
  end.

(** What it answers with. *)
Definition chip_answer (s : list Z) (n : Z) (c : w25) : option (list Z * w25) :=
  match s with
  | [k] => if (k =? CMD_RDSR1) && (n =? 1) then
      Some ([status_of c], Chip (c_mem c) (c_wel c) (pred (c_busy c)) (c_protect c) s) else None
  | [k; x; y; z] => if (k =? CMD_READ) && Nat.eqb (c_busy c) 0 && (addr24 x y z + n <=? size) then
      Some ((fun i => c_mem c (addr24 x y z + i)) <$> seqZ 0 n, c) else None
  | _ => None
  end.

Definition chip_message (m : rt_spi_message) (c : w25) : option (list Z * w25) :=
  let s := (if cs_take m then [] else c_sel c) ++ default [] (take (Z.to_nat (msg_length m)) <$> send_buf m) in
  '(data, c) ← (if recv_buf m then chip_answer s (msg_length m) c else Some ([], c));
  if cs_release m then c ← chip_execute s c; Some (data, c)
  else Some (data, Chip (c_mem c) (c_wel c) (c_busy c) (c_protect c) s).

End Data_sheet.

(** The hardware behind the bus: [chip_of] is the chip in it, and its driver passes messages
    on to the chip that is [chip_device]. *)
Class Chip_behind (U : Type) `{SpiOps U} := {
  chip_of : U -> w25; chip_device : Z; chip_ops : Z; chip_delay : list Z -> nat; chip_size : Z;
  chip_addressed : chip_size <= 2 ^ 24;
  chip_configure : forall cfg u,
    wp (spi_configure chip_ops chip_device cfg) (fun r u' => r = RT_EOK /\ chip_of u' = chip_of u) u;
  chip_xfer : forall m u data c, chip_message chip_delay chip_size m (chip_of u) = Some (data, c) ->
    wp (spi_xfer chip_ops chip_device m) (fun r u' => r = (msg_length m, data) /\ chip_of u' = c) u }.

(** ** Bytes in the chip *)

(** [data] from the address [a] on. *)
Definition put_bytes (a : Z) (data : list Z) (mem : Z -> Z) : Z -> Z := fun x =>
  if a <=? x then default (mem x) (data !! Z.to_nat (x - a)) else mem x.

Definition is_byte (b : Z) : Prop := 0 <= b < 256.

Lemma put_bytes_app (a : Z) (d1 d2 : list Z) (mem : Z -> Z) (x : Z) :
  put_bytes (a + Z.of_nat (length d1)) d2 (put_bytes a d1 mem) x = put_bytes a (d1 ++ d2) mem x.
Proof.
  unfold put_bytes. destruct (Z.leb_spec a x) as [Ha|Ha]; destruct (Z.leb_spec (a + Z.of_nat (length d1)) x) as [Hb|Hb]; [..|lia|done].
  - rewrite lookup_app_r by lia. rewrite (lookup_ge_None_2 d1) by lia. cbn. do 2 f_equal. lia.
  - by rewrite lookup_app_l by lia.
Qed.

Lemma put_bytes_in (a : Z) (data : list Z) (mem : Z -> Z) (x b : Z) :
  a <= x -> data !! Z.to_nat (x - a) = Some b -> put_bytes a data mem x = b.
Proof. intros Ha Hb. unfold put_bytes. rewrite (proj2 (Z.leb_le _ _)) by lia. by rewrite Hb. Qed.

Lemma put_bytes_out (a : Z) (data : list Z) (mem : Z -> Z) (x : Z) :
  ~ (a <= x < a + Z.of_nat (length data)) -> put_bytes a data mem x = mem x.
Proof.
  intros Hx. unfold put_bytes. destruct (Z.leb_spec a x); [|done]. by rewrite lookup_ge_None_2 by lia.
Qed.

Lemma put_bytes_ext (a : Z) (data : list Z) (m1 m2 : Z -> Z) (x : Z) :
  m1 x = m2 x -> put_bytes a data m1 x = put_bytes a data m2 x.
Proof. intros E. unfold put_bytes. by rewrite E. Qed.

(** What is read back. *)
Lemma put_bytes_read (a : Z) (data : list Z) (mem : Z -> Z) :
  ((fun i => put_bytes a data mem (a + i)) <$> seqZ 0 (Z.of_nat (length data))) = data.
Proof.
  apply list_eq. intros k. rewrite list_lookup_fmap. destruct (decide (k < length data)%nat) as [Hk|Hk].
  - rewrite lookup_seqZ_lt by lia. destruct (lookup_lt_is_Some_2 data k Hk) as [b Hb]. rewrite Hb. cbn. f_equal.
    apply put_bytes_in; [lia|]. rewrite <- Hb. f_equal. lia.
  - rewrite lookup_seqZ_ge by lia. by rewrite lookup_ge_None_2 by lia.
Qed.

(** A page that is erased takes what it is programmed with. *)
Lemma programmed_put (a : Z) (data : list Z) (mem : Z -> Z) (x : Z) :
  a mod 256 = 0 -> length data = 256%nat -> Forall is_byte data ->
  (forall y, a <= y < a + 256 -> mem y = 255) -> programmed a data mem x = put_bytes a data mem x.
Proof.
  intros Ha Hl Hb Hm. unfold programmed.
  assert (Hp : (x / 256 =? a / 256) = true <-> a <= x < a + 256).
  { rewrite Z.eqb_eq. Z.to_euclidean_division_equations. lia. }
  destruct (x / 256 =? a / 256) eqn:E.
  - pose proof (proj1 Hp eq_refl) as Hx. rewrite (Z.mod_small (x - a)) by lia.
    destruct (lookup_lt_is_Some_2 data (Z.to_nat (x - a))) as [b Hd]; [lia|].
    rewrite (put_bytes_in a data mem x b), Hd, Hm by (done || lia).
    pose proof (Forall_lookup_1 _ _ _ _ Hb Hd) as [? ?]. rewrite Z.land_comm. change 255 with (Z.ones 8).
    rewrite Z.land_ones by lia. by apply Z.mod_small.
  - rewrite put_bytes_out; [by destruct (data !! _)|]. rewrite Hl. intros Hx.
    pose proof (proj2 Hp ltac:(lia)). congruence.
Qed.

Lemma erased_in (a : Z) (mem : Z -> Z) (x : Z) : a mod 4096 = 0 ->
  erased a mem x = if (a <=? x) && (x <? a + 4096) then 255 else mem x.
Proof.
  intros Ha. unfold erased. replace (x / 4096 =? a / 4096) with ((a <=? x) && (x <? a + 4096)); [done|].
  apply eq_bool_prop_intro. rewrite !Is_true_true, andb_true_iff, Z.leb_le, Z.ltb_lt, Z.eqb_eq.
  Z.to_euclidean_division_equations. lia.
Qed.

(** ** On the system *)

Section Proofs.
Context {U : Type} `{SpiOps U} `{!Chip_behind U} `{FlashCode}.
#[local] Abbreviation M := (ST (beside (spi U))).
#[local] Abbreviation P := (proc (beside (spi U))).

(** [t] runs, and the device [d], which is the chip, is on a bus whose lock is free. *)
Record at_chip (s : beside (spi U)) (t : Z) (th : rt_thread) (d : rt_spi_device) : Prop := {
  ac_device : spi_devices (own s) !! chip_device = Some d;
  ac_chip : chip_device <> RT_NULL;
  ac_bus : sd_bus d <> RT_NULL;
  ac_lock : lock_free (bus_lock (sd_bus d)) t th (kernel s) }.

Lemma set_error_twice (t : Z) (th : rt_thread) e e' k :
  set_thread t (thr_error e' (thr_error e th)) (set_thread t (thr_error e th) k) = set_thread t (thr_error e' th) k.
Proof.
  unfold set_thread, upd_sc, with_threads. cbn. rewrite insert_insert_eq. by destruct th.
Qed.

Lemma lock_free_error (t : Z) (th : rt_thread) lock e k : lock_free lock t th k -> lock_free lock t (thr_error e th) (set_thread t (thr_error e th) k).
Proof. intros [C Hl Hm Hw]. split; [by apply caller_error|exact Hl|exact Hm|exact Hw]. Qed.

Section Base.
Variables (s : beside (spi U)) (t : Z) (th : rt_thread) (d : rt_spi_device).
Hypothesis A : at_chip s t th d.

(** [s] with another error of the thread and another state of the bus. *)
Definition at_error (e : Z) (v : Z * U) : beside (spi U) :=
  with_kernel (set_thread t (thr_error e th) (kernel s)) (at_bus chip_ops d v s).

Lemma at_error_bus e v : at_error e v = at_bus chip_ops d v (at_error e v).
Proof. unfold at_error, at_bus, with_kernel, with_own. cbn. by rewrite insert_insert_eq. Qed.

Lemma at_error_again e v e' v' :
  with_kernel (with_error (at_error e v) t (thr_error e th) e') (at_bus chip_ops d v' (at_error e v)) = at_error e' v'.
Proof.
  unfold with_error, at_error. cbn [kernel with_kernel]. rewrite set_error_twice.
  unfold at_bus, with_kernel, with_own. cbn. by rewrite insert_insert_eq.
Qed.

(** [cp p Q c]: with the chip in the state [c], [p] returns without waiting, does nothing
    else than to the bus, and the result and the chip then satisfy [Q]. *)
Definition cp {X} (p : P X) (Q : X -> w25 -> Prop) (c : w25) : Prop :=
  forall e v, chip_of v.2 = c -> pwp p (fun x s' => exists e' v', s' = at_error e' v' /\ Q x (chip_of v'.2)) (at_error e v).

Lemma cp_ret {X} (x : X) (Q : X -> w25 -> Prop) c : Q x c -> cp (mret x) Q c.
Proof. intros HQ e v <-. apply pwp_ret. by eexists e, v. Qed.

Lemma cp_bind {X Y} (p : P X) (f : X -> P Y) (Q : Y -> w25 -> Prop) c :
  cp p (fun x => cp (f x) Q) c -> cp (p ≫= f) Q c.
Proof.
  intros HP e v Hc. apply pwp_bind. eapply pwp_mono; [exact (HP e v Hc)|].
  intros x s' (e' & v' & -> & HQ). by apply HQ.
Qed.

Lemma cp_mono {X} (p : P X) (Q R : X -> w25 -> Prop) c : cp p Q c -> (forall x c', Q x c' -> R x c') -> cp p R c.
Proof.
  intros HP HR e v Hc. eapply pwp_mono; [exact (HP e v Hc)|]. intros x s' (e' & v' & -> & HQ). eauto.
Qed.

Lemma cp_assert (b : bool) (Q : unit -> w25 -> Prop) c : b = true -> Q tt c -> cp (act (kassert b)) Q c.
Proof. intros -> HQ e v <-. apply pwp_act. wstep. by eexists e, v. Qed.

(** One message, and two behind each other. *)
Lemma wp_hw_message m data c (Q : Z * list Z -> Z * U -> Prop) (v : Z * U) :
  chip_message chip_delay chip_size m (chip_of v.2) = Some (data, c) ->
  (forall v', chip_of v'.2 = c -> Q (msg_length m, data) v') ->
  wp (hw (spi_xfer chip_ops chip_device m)) Q v.
Proof.
  intros Hm HQ. apply wp_hw. eapply wp_mono; [exact (chip_xfer m _ data c Hm)|]. intros r u [-> Hu]. by apply HQ.
Qed.

Lemma wp_hw_own (Q : Z -> Z * U -> Prop) (v : Z * U) :
  (forall v', chip_of v'.2 = chip_of v.2 -> Q RT_EOK v') -> wp (hw_own chip_device chip_ops d) Q v.
Proof.
  intros HQ. unfold hw_own. wstep. apply wp_gets. destruct (negb (v.1 =? chip_device)); [|wstep; by apply HQ].
  wstep. apply wp_hw. eapply wp_mono; [apply chip_configure|]. intros r u [-> Hu]. rewrite Z.eqb_refl.
  wstep. apply wp_modify. wstep. by apply HQ.
Qed.

Lemma wp_hw_two m1 m2 d1 d2 c1 c2 (Q : Z * list Z -> Z * U -> Prop) (v : Z * U) :
  chip_message chip_delay chip_size m1 (chip_of v.2) = Some (d1, c1) -> msg_length m1 <> 0 ->
  chip_message chip_delay chip_size m2 c1 = Some (d2, c2) ->
  (forall r v', chip_of v'.2 = c2 -> Q (r, d2) v') ->
  wp (hw_two chip_device chip_ops d m1 m2) Q v.
Proof.
  intros H1 Hl H2 HQ. unfold hw_two. wstep. apply wp_hw_own. intros v1 Hv1. rewrite Z.eqb_refl. cbn [negb].
  rewrite <- Hv1 in H1. wstep. eapply wp_hw_message; [exact H1|]. intros v2 Hv2. cbn [fst snd].
  rewrite (proj2 (Z.eqb_neq _ _)) by exact Hl. rewrite <- Hv2 in H2. wstep. eapply wp_hw_message; [exact H2|].
  intros v3 Hv3. cbn [fst snd]. destruct (_ =? 0); wstep; by apply HQ.
Qed.

Lemma cp_send bytes n data c c' (Q : Z -> w25 -> Prop) :
  chip_message chip_delay chip_size (SpiMessage (Some bytes) false n true true) c = Some (data, c') ->
  (forall r, Q r c') -> cp (rt_spi_send chip_device bytes n) Q c.
Proof.
  intros Hm HQ e v Hc. unfold rt_spi_send. pstep.
  apply (pwp_transfer chip_device chip_ops d (at_error e v) (ac_device _ _ _ _ A) t (thr_error e th) v (at_error_bus e v)
           (ac_chip _ _ _ _ A) (ac_bus _ _ _ _ A) (lock_free_error _ _ _ e _ (ac_lock _ _ _ _ A))).
  unfold hw_transfer. wstep. apply wp_hw_own. intros v1 Hv1. rewrite Z.eqb_refl. cbn [negb].
  rewrite <- Hc, <- Hv1 in Hm. eapply wp_hw_message; [exact Hm|]. intros v2 Hv2 e'. pstep.
  eexists e', v2. rewrite at_error_again, Hv2. eauto.
Qed.

Lemma cp_send_send b1 b2 n1 n2 d1 d2 c c1 c2 (Q : Z -> w25 -> Prop) :
  chip_message chip_delay chip_size (SpiMessage (Some b1) false n1 true false) c = Some (d1, c1) -> n1 <> 0 ->
  chip_message chip_delay chip_size (SpiMessage (Some b2) false n2 false true) c1 = Some (d2, c2) ->
  (forall r, Q r c2) -> cp (rt_spi_send_then_send chip_device b1 n1 b2 n2) Q c.
Proof.
  intros H1 Hn H2 HQ e v <-.
  apply (pwp_send_then_send chip_device chip_ops d (at_error e v) (ac_device _ _ _ _ A) t (thr_error e th) v (at_error_bus e v)
           (ac_chip _ _ _ _ A) (ac_bus _ _ _ _ A) (lock_free_error _ _ _ e _ (ac_lock _ _ _ _ A))).
  eapply wp_hw_two; [exact H1|exact Hn|exact H2|]. intros r v' Hv' e'.
  eexists e', v'. rewrite at_error_again, Hv'. eauto.
Qed.

Lemma cp_send_recv b1 n1 n2 d1 d2 c c1 c2 (Q : Z * list Z -> w25 -> Prop) :
  chip_message chip_delay chip_size (SpiMessage (Some b1) false n1 true false) c = Some (d1, c1) -> n1 <> 0 ->
  chip_message chip_delay chip_size (SpiMessage None true n2 false true) c1 = Some (d2, c2) ->
  (forall r, Q (r, d2) c2) -> cp (rt_spi_send_then_recv chip_device b1 n1 n2) Q c.
Proof.
  intros H1 Hn H2 HQ e v <-.
  apply (pwp_send_then_recv chip_device chip_ops d (at_error e v) (ac_device _ _ _ _ A) t (thr_error e th) v (at_error_bus e v)
           (ac_chip _ _ _ _ A) (ac_bus _ _ _ _ A) (lock_free_error _ _ _ e _ (ac_lock _ _ _ _ A))).
  eapply wp_hw_two; [exact H1|exact Hn|exact H2|]. intros r v' Hv' e'.
  eexists e', v'. rewrite at_error_again, Hv'. eauto.
Qed.

(** *** Commands *)

Variables (fd : spi_flash_device) (junk : Z) (fuel : nat).
Hypothesis Hfd : fl_spi fd = chip_device.
Hypothesis Hfuel : forall cmd, (chip_delay cmd < fuel)%nat.

Lemma cp_wren (Q : Z -> w25 -> Prop) c :
  c_busy c = 0%nat -> (forall r, Q r (Chip (c_mem c) true 0 (c_protect c) [])) -> cp (rt_spi_send (fl_spi fd) [CMD_WREN] 1) Q c.
Proof. intros Hb HQ. rewrite Hfd. destruct c. cbn in *. subst. by eapply cp_send. Qed.

Lemma cp_wrdi (Q : Z -> w25 -> Prop) c :
  c_busy c = 0%nat -> (forall r, Q r (Chip (c_mem c) false 0 (c_protect c) [])) -> cp (rt_spi_send (fl_spi fd) [CMD_WRDI] 1) Q c.
Proof. intros Hb HQ. rewrite Hfd. destruct c. cbn in *. subst. by eapply cp_send. Qed.

Lemma cp_read_status (Q : Z -> w25 -> Prop) c :
  Q (status_of c) (Chip (c_mem c) (c_wel c) (pred (c_busy c)) (c_protect c) []) -> cp (w25qxx_read_status fd junk) Q c.
Proof.
  intros HQ. unfold w25qxx_read_status, rt_spi_sendrecv8. rewrite Hfd. apply cp_bind.
  by eapply cp_send_recv; [done|done|done|intros r; by apply cp_ret].
Qed.

Lemma busy_bit c : Z.land (status_of c) 1 = if Nat.eqb (c_busy c) 0 then 0 else 1.
Proof.
  change 1 with (Z.ones 1) at 1. rewrite Z.land_ones by lia. change (2 ^ 1) with 2. unfold status_of.
  destruct (Nat.eqb _ _), (c_wel c); Z.to_euclidean_division_equations; lia.
Qed.

(** Polling ends. *)
Lemma cp_wait_busy (Q : unit -> w25 -> Prop) c :
  (c_busy c < fuel)%nat -> Q tt (Chip (c_mem c) (c_wel c) 0 (c_protect c) []) -> cp (w25qxx_wait_busy fd junk fuel) Q c.
Proof.
  clear Hfuel. revert c. induction fuel as [|n IH]; intros c Hb HQ; [lia|]. cbn [w25qxx_wait_busy]. apply cp_bind, cp_read_status.
  rewrite busy_bit. destruct (Nat.eqb_spec (c_busy c) 0) as [E|E]; cbn [negb Z.eqb].
  - apply cp_ret. by rewrite E.
  - apply IH; [cbn; lia|exact HQ].
Qed.

Lemma addr24_command a : 0 <= a < 2 ^ 24 -> addr24 (u8 (Z.shiftr a 16)) (u8 (Z.shiftr a 8)) (u8 a) = a.
Proof.
  intros Ha. unfold addr24, ubits. rewrite !Z.shiftr_div_pow2 by lia.
  Z.to_euclidean_division_equations. lia.
Qed.

(** *** Sectors *)

(** The chip is ready, and holds [data] from [a] on, otherwise [mem]. *)
Definition holds (a : Z) (data : list Z) (mem : Z -> Z) (c : w25) : Prop :=
  c_busy c = 0%nat /\ c_protect c = 0 /\ forall x, c_mem c x = put_bytes a data mem x.

Lemma holds_app a b d1 d2 mem c c' :
  holds a d1 mem c -> b = a + Z.of_nat (length d1) -> holds b d2 (c_mem c) c' -> holds a (d1 ++ d2) mem c'.
Proof.
  intros (_ & _ & H1) -> (Hb & Hp & H2). split_and!; [done..|]. intros x.
  rewrite H2, <- put_bytes_app. by apply put_bytes_ext.
Qed.

Lemma cp_program (Q : Z -> w25 -> Prop) a data c :
  c_busy c = 0%nat -> c_wel c = true -> c_protect c = 0 -> 0 <= a < chip_size -> length data = 256%nat ->
  (forall r, Q r (Chip (programmed a data (c_mem c)) false
                    (chip_delay (command CMD_PP a ++ data)) 0 [])) ->
  cp (rt_spi_send_then_send (fl_spi fd) (command CMD_PP a) 4 data 256) Q c.
Proof.
  intros Hb Hw Hp Ha Hl HQ. rewrite Hfd. destruct c. cbn in *. subst.
  eapply cp_send_send; [done|done| |exact HQ]. unfold chip_message.
  cbn [cs_take send_buf msg_length recv_buf cs_release c_sel option_fmap option_map fmap default].
  rewrite (take_ge data) by (rewrite Hl; done). pose proof chip_addressed as Hca.
  change (take (Z.to_nat 4) (command CMD_PP a)) with (command CMD_PP a). unfold command.
  cbn -[ubits Z.shiftr programmed chip_delay addr24 Nat.leb]. rewrite addr24_command by lia.
  rewrite Hl. cbn -[ubits Z.shiftr programmed chip_delay addr24]. by rewrite (proj2 (Z.ltb_lt _ _)) by lia.
Qed.

Lemma cp_program_loop index a data c :
  c_busy c = 0%nat -> c_protect c = 0 -> a mod 256 = 0 -> 0 <= a -> a + 256 * Z.of_nat index <= chip_size ->
  length data = (256 * index)%nat -> Forall is_byte data ->
  (forall x, a <= x < a + 256 * Z.of_nat index -> c_mem c x = 255) ->
  cp (program_loop fd junk fuel index a data) (fun _ => holds a data (c_mem c)) c.
Proof.
  revert a data c. induction index as [|n IH]; intros a data c Hb Hp Ha Hz Hn Hl Hd Hm.
  - apply cp_ret. split_and!; [done..|]. intros x. rewrite (nil_length_inv data) by lia. unfold put_bytes.
    by destruct (a <=? x).
  - cbn [program_loop]. pose proof chip_addressed as Hca.
    assert (Hl1 : length (take 256 data) = 256%nat) by (rewrite length_take; lia).
    assert (Hd1 : Forall is_byte (take 256 data)) by by apply Forall_take.
    apply cp_bind, cp_wren; [done|]. intros r1. apply cp_bind, cp_program; [done|done|done|lia|done|].
    intros r2. apply cp_bind, cp_wait_busy; [apply Hfuel|]. rewrite ubits_small by lia. cbn [c_mem c_wel c_protect].
    assert (Hpage : forall x, programmed a (take 256 data) (c_mem c) x = put_bytes a (take 256 data) (c_mem c) x).
    { intros x. apply programmed_put; [done|done|done|]. intros y Hy. apply Hm. lia. }
    eapply cp_mono; [apply IH; cbn [c_busy c_protect c_mem]; [done|done| |lia|lia| |by apply Forall_drop|]|].
    + rewrite Z.add_mod, Ha by done. done.
    + rewrite length_drop. lia.
    + intros x Hx. rewrite Hpage, put_bytes_out by (rewrite Hl1; lia). apply Hm. lia.
    + intros [] c' Hc'. rewrite <- (take_drop 256 data) at 1. eapply (holds_app a); [|by rewrite Hl1|exact Hc'].
      split_and!; [done|done|exact Hpage].
Qed.

Lemma cp_erase (Q : Z -> w25 -> Prop) a c :
  c_busy c = 0%nat -> c_wel c = true -> c_protect c = 0 -> 0 <= a < chip_size ->
  (forall r, Q r (Chip (erased a (c_mem c)) false (chip_delay (command CMD_ERASE_4K a)) 0 [])) ->
  cp (rt_spi_send (fl_spi fd) (command CMD_ERASE_4K a) 4) Q c.
Proof.
  intros Hb Hw Hp Ha HQ. rewrite Hfd. destruct c. cbn in *. subst. eapply cp_send; [|exact HQ].
  pose proof chip_addressed as Hca. unfold chip_message.
  cbn [cs_take send_buf msg_length recv_buf cs_release c_sel option_fmap option_map fmap default app].
  change (take (Z.to_nat 4) (command CMD_ERASE_4K a)) with (command CMD_ERASE_4K a). unfold command.
  cbn -[ubits Z.shiftr erased chip_delay addr24].
  rewrite addr24_command by lia. by rewrite (proj2 (Z.ltb_lt _ _)) by lia.
Qed.

(** A sector is written, whatever it held. *)
Lemma cp_page_write a data c :
  c_busy c = 0%nat -> c_protect c = 0 -> a mod 4096 = 0 -> 0 <= a -> a + 4096 <= chip_size ->
  length data = 4096%nat -> Forall is_byte data ->
  cp (w25qxx_page_write fd junk fuel a data) (fun _ => holds a data (c_mem c)) c.
Proof.
  intros Hb Hp Ha Hz Hn Hl Hd. assert (Ha' : a mod 256 = 0) by (Z.to_euclidean_division_equations; lia).
  unfold w25qxx_page_write. apply cp_bind, cp_assert.
  { change 0xFF with (Z.ones 8). rewrite Z.land_ones by lia. change (2 ^ 8) with 256. by rewrite Ha'. }
  apply cp_bind, cp_wren; [done|]. intros r1. apply cp_bind, cp_erase; [done|done|done|lia|]. intros r2.
  apply cp_bind, cp_wait_busy; [apply Hfuel|]. cbn [c_mem c_wel c_protect]. apply cp_bind.
  eapply cp_mono; [apply (cp_program_loop 16)|]; cbn [c_busy c_protect c_mem];
    [done|done|done|lia|lia|lia|done| |].
  - intros x Hx. rewrite erased_in by done. by rewrite (proj2 (Z.leb_le _ _)), (proj2 (Z.ltb_lt _ _)) by lia.
  - intros _ c' (Hb' & Hp' & Hc'). apply cp_bind, cp_wrdi; [done|]. intros r3. apply cp_ret. split_and!; [done..|].
    intros x. cbn [c_mem]. rewrite Hc'. destruct (decide (a <= x < a + 4096)) as [Hx|Hx].
    + destruct (lookup_lt_is_Some_2 data (Z.to_nat (x - a))) as [b Hbx]; [lia|].
      by rewrite !(put_bytes_in a data _ x b) by (done || lia).
    + rewrite !put_bytes_out by (rewrite Hl; lia). rewrite erased_in by done.
      destruct (Z.leb_spec a x), (Z.ltb_spec x (a + 4096)); cbn; lia || done.
Qed.

Hypothesis Hsector : bytes_per_sector (fl_geometry fd) = 4096.

Lemma cp_write_loop n pos i data c :
  c_busy c = 0%nat -> c_protect c = 0 -> 0 <= pos + i -> (pos + i + Z.of_nat n) * 4096 <= chip_size ->
  length data = (4096 * n)%nat -> Forall is_byte data ->
  cp (write_loop fd junk fuel n pos i data) (fun _ => holds ((pos + i) * 4096) data (c_mem c)) c.
Proof.
  revert i data c. induction n as [|n IH]; intros i data c Hb Hp Hz Hn Hl Hd.
  - apply cp_ret. split_and!; [done..|]. intros x. rewrite (nil_length_inv data) by lia. unfold put_bytes.
    by destruct (_ <=? x).
  - cbn [write_loop]. pose proof chip_addressed as Hca. rewrite Hsector, ubits_small by lia.
    change (Z.to_nat PAGE_SIZE) with (N.to_nat 4096).
    assert (Hl1 : length (take (N.to_nat 4096) data) = N.to_nat 4096) by (rewrite length_take; lia).
    apply cp_bind. eapply cp_mono.
    { apply cp_page_write; [done|done|by apply Z.mod_mul|lia|lia|by rewrite Hl1|by apply Forall_take]. }
    intros r1 c1 H1. pose proof H1 as (Hb1 & Hp1 & _).
    eapply cp_mono; [apply IH; [done|done|lia|lia|rewrite length_drop; lia|by apply Forall_drop]|].
    intros [] c2 H2. rewrite <- (take_drop (N.to_nat 4096) data). eapply holds_app; [exact H1| |exact H2].
    rewrite Hl1. lia.
Qed.

Lemma cp_read (Q : Z * list Z -> w25 -> Prop) a n c :
  c_busy c = 0%nat -> c_protect c = 0 -> 0 <= a < chip_size -> a + n <= chip_size ->
  Q (n, (fun i => c_mem c (a + i)) <$> seqZ 0 n) (Chip (c_mem c) false 0 0 []) ->
  cp (w25qxx_read fd a n) Q c.
Proof.
  intros Hb Hp Ha Hn HQ. unfold w25qxx_read. apply cp_bind, cp_wrdi; [done|]. intros r. rewrite Hfd, Hp.
  pose proof chip_addressed as Hca. apply cp_bind. eapply cp_send_recv; [done|done| |intros r2; apply cp_ret; exact HQ].
  unfold chip_message. cbn [cs_take send_buf msg_length recv_buf cs_release c_sel option_fmap option_map fmap default app].
  change (take (Z.to_nat 4) (command CMD_READ a)) with (command CMD_READ a). unfold command.
  cbn -[ubits Z.shiftr addr24 seqZ]. rewrite addr24_command by lia. by rewrite (proj2 (Z.leb_le _ _)) by lia.
Qed.

(** The chip unprotected. *)
Lemma cp_write_status (Q : Z -> w25 -> Prop) c :
  c_busy c = 0%nat -> c_wel c = true -> (forall r, Q r (Chip (c_mem c) false (chip_delay [CMD_WRSR; 0; 0]) 0 [])) ->
  cp (rt_spi_send (fl_spi fd) [CMD_WRSR; 0; 0] 3) Q c.
Proof. intros Hb Hw HQ. rewrite Hfd. destruct c. cbn in *. subst. by eapply cp_send. Qed.

End Base.

(** *** The lock of the flash *)

Section Locked.
Variables (s : beside (spi U)) (t : Z) (th : rt_thread) (d : rt_spi_device).
Hypothesis A : at_chip s t th d.
Hypothesis Lf : lock_free flash_mutex t th (kernel s).
Hypothesis Hne : bus_lock (sd_bus d) <> flash_mutex.

Definition locked_flash : beside (spi U) := with_kernel (lock_held flash_mutex t th (kernel s)) s.

Lemma locked_at_chip : at_chip locked_flash t th d.
Proof.
  destruct A as [Hd Hc Hb [C Hl Hm Hw]]. split; [done..|]. split; [by apply caller_ip|done| |done].
  cbn. by rewrite lookup_insert_ne.
Qed.

Lemma cp_locked {X Y} (body : P X) (f : X -> Y) (Q : Y -> w25 -> Prop) c :
  cp locked_flash t th d body (fun x => Q (f x)) c ->
  cp s t th d (_ ← flash_lock; x ← body; _ ← flash_unlock; mret (f x)) Q c.
Proof using Lf.
  intros HB e v Hv. pstep. unfold flash_lock. pstep.
  apply pwp_await, wp_kernel. eapply wp_take_free_lock; [exact (lock_free_error t th _ e _ Lf)|].
  change (kernel (at_error s t th d e v)) with (set_thread t (thr_error e th) (kernel s)).
  rewrite set_error_twice. do 2 pstep. eapply pwp_mono; [exact (HB RT_EOK v Hv)|].
  intros x s' (e' & v' & -> & HQ). pstep. unfold flash_unlock. pstep. pstep. apply wp_kernel.
  eapply (wp_release_held flash_mutex t (thr_error e' th)).
  - apply caller_error, caller_ip, Lf.
  - apply lookup_insert_eq.
  - apply Lf.
  - do 2 pstep. eexists e', v'. split; [|exact HQ]. unfold at_error, locked_flash, lock_held, set_mutex, set_thread.
    unfold upd_ip, upd_sc, with_mutexes, with_threads, at_bus, with_kernel, with_own. cbn. f_equal.
    rewrite insert_insert_eq, (insert_id (i_mutexes (ip (kernel s))) flash_mutex new_mutex) by apply Lf.
    generalize (kernel s). by intros [? ? ? [] ? ?].
Qed.

End Locked.

(** *** The device *)

(** [t] runs, the lock of the flash and the one of its bus are free, and the flash was found
    by [w25qxx_init]. *)
Record flash_ready (s : beside (spi U)) (t : Z) (th : rt_thread) (d : rt_spi_device) (fd : spi_flash_device) : Prop := {
  fr_chip : at_chip s t th d;
  fr_lock : lock_free flash_mutex t th (kernel s);
  fr_locks : bus_lock (sd_bus d) <> flash_mutex;
  fr_bus : exists o, spi_buses (own s) !! sd_bus d = Some (SpiBus chip_ops o);
  fr_spi : fl_spi fd = chip_device;
  fr_sector : bytes_per_sector (fl_geometry fd) = 4096;
  fr_idle : c_busy (chip_of (spi_hw (own s))) = 0%nat }.

Lemma flash_ready_at s t th d fd : flash_ready s t th d fd ->
  exists v, at_error s t th d (t_error th) v = s /\ v.2 = spi_hw (own s).
Proof.
  intros R. destruct (fr_bus _ _ _ _ _ R) as [o Ho]. exists (o, spi_hw (own s)). split; [|done].
  destruct s as [k [b ds u]]. cbn in *. unfold at_error, at_bus, with_kernel, with_own. cbn.
  rewrite (insert_id b) by exact Ho. f_equal. replace (thr_error (t_error th) th) with th by by destruct th.
  assert (Ht : s_threads (sc k) !! t = Some th) by apply (fr_lock _ _ _ _ _ R).
  unfold set_thread, upd_sc, with_threads. rewrite insert_id by exact Ht. by destruct k as [[] ? ? ? ? ?].
Qed.

Section Device_spec.
Variables (s : beside (spi U)) (t : Z) (th : rt_thread) (d : rt_spi_device) (fd : spi_flash_device).
Variables (junk : Z) (fuel : nat).
Hypothesis R : flash_ready s t th d fd.
Hypothesis Hfuel : forall cmd, (chip_delay cmd < fuel)%nat.

Lemma cp_open oflag (Q : Z -> w25 -> Prop) c :
  c_busy c = 0%nat -> Q RT_EOK (Chip (c_mem c) false 0 0 []) -> cp s t th d (w25qxx_flash_open fd junk fuel oflag) Q c.
Proof.
  intros Hb HQ. destruct R as [A Lf Hne _ Hspi _ _]. pose proof (locked_at_chip s t th d A Hne) as A'.
  apply (cp_locked s t th d Lf _ (fun _ => RT_EOK)). unfold clear_status.
  apply cp_bind. eapply cp_wren; [done..|]. intros r. apply cp_bind.
  eapply cp_write_status; [done..|]. intros r'. eapply cp_wait_busy; [done..| |exact HQ]. apply Hfuel.
Qed.

Lemma cp_write pos buffer size (Q : Z -> w25 -> Prop) c :
  c_busy c = 0%nat -> c_protect c = 0 -> 0 <= pos -> 0 <= size -> (pos + size) * 4096 <= chip_size ->
  Z.of_nat (length buffer) = size * 4096 -> Forall is_byte buffer ->
  (forall c', holds (pos * 4096) buffer (c_mem c) c' -> Q size c') ->
  cp s t th d (w25qxx_flash_write fd junk fuel pos buffer size) Q c.
Proof.
  intros Hb Hp Hpos Hs Hc Hl Hd HQ. destruct R as [A Lf Hne _ Hspi Hsec _].
  pose proof (locked_at_chip s t th d A Hne) as A'.
  apply (cp_locked s t th d Lf _ (fun _ => size)).
  eapply cp_mono; [eapply cp_write_loop; try done; lia|]. intros r c' Hc'. apply HQ. by rewrite Z.add_0_r in Hc'.
Qed.

Lemma cp_flash_read pos size (Q : Z * list Z -> w25 -> Prop) c :
  c_busy c = 0%nat -> c_protect c = 0 -> 0 <= pos -> 0 < size -> (pos + size) * 4096 <= chip_size ->
  Q (size, (fun i => c_mem c (pos * 4096 + i)) <$> seqZ 0 (size * 4096)) (Chip (c_mem c) false 0 0 []) ->
  cp s t th d (w25qxx_flash_read fd pos size) Q c.
Proof.
  intros Hb Hp Hpos Hs Hc HQ. destruct R as [A Lf Hne _ Hspi Hsec _].
  pose proof (locked_at_chip s t th d A Hne) as A'. pose proof chip_addressed as Hca.
  apply (cp_locked s t th d Lf _ (fun r => (size, r.2))). rewrite Hsec, !ubits_small by lia.
  eapply cp_read; [done|done|done|done|lia|lia|exact HQ].
Qed.

End Device_spec.

(** C34: sectors that are written are read back, whatever the chip held; the other bytes of the
    chip stay as they were, and so does the rest of the system, the locks being free again,
    but for the error of the thread. *)
Theorem flash_keeps_sectors (s : beside (spi U)) (t : Z) (th : rt_thread) (d : rt_spi_device) (fd : spi_flash_device)
    (junk oflag pos size : Z) (buffer : list Z) (fuel : nat) :
  flash_ready s t th d fd -> (forall cmd, (chip_delay cmd < fuel)%nat) ->
  0 <= pos -> 0 < size -> (pos + size) * 4096 <= chip_size ->
  Z.of_nat (length buffer) = size * 4096 -> Forall is_byte buffer ->
  pwp (opened ← w25qxx_flash_open fd junk fuel oflag;
       written ← w25qxx_flash_write fd junk fuel pos buffer size;
       data ← w25qxx_flash_read fd pos size;
       mret (opened, written, data))
    (fun r s' => r = (RT_EOK, size, (size, buffer)) /\
      exists e v, s' = at_error s t th d e v /\ c_busy (chip_of v.2) = 0%nat /\
        forall x, c_mem (chip_of v.2) x = put_bytes (pos * 4096) buffer (c_mem (chip_of (spi_hw (own s)))) x) s.
Proof.
  intros R Hfuel Hpos Hsize Hcap Hl Hb. destruct (flash_ready_at s t th d fd R) as (v & Hv & Hu).
  rewrite <- Hv at 1. eapply pwp_mono.
  - apply (cp_bind s t th d _ _ (fun r c' => r = (RT_EOK, size, (size, buffer)) /\ c_busy c' = 0%nat /\
      forall x, c_mem c' x = put_bytes (pos * 4096) buffer (c_mem (chip_of (spi_hw (own s)))) x) (chip_of v.2)); [|done].
    rewrite Hu. eapply cp_open; [done..|apply R|]. apply cp_bind.
    eapply cp_write; [done|done|done|done|done|lia|done|done|done|]. intros c (Hc & Hp & Hm).
    apply cp_bind. eapply cp_flash_read; [done|done|done|done|done|done|]. apply cp_ret.
    split; [|by split]. do 2 f_equal.
    etransitivity; [|exact (put_bytes_read (pos * 4096) buffer (c_mem (chip_of (spi_hw (own s)))))]. rewrite Hl. apply list_fmap_ext. intros ? x _. apply Hm.
  - intros r s' (e & v' & -> & -> & Hb' & Hm). split; [done|]. by exists e, v'.
Qed.
End Proofs.

(** ** A sample: a W25Q64 behind a bus of its own, its sectors protected *)

Module Demo.

#[local] Instance bus_ops : SpiOps w25 := {|
  spi_configure _ _ _ := mret RT_EOK;
  spi_xfer _ _ m := fun c =>
    match chip_message (fun _ => 3%nat) (2 ^ 23) m c with
    | Some (data, c) => Ok ((msg_length m, data), c)
    | None => Ok ((0, []), c)
    end;
  bus_lock b := b + 64;
  spi_bus_device_read_addr := 0x8005001; spi_bus_device_write_addr := 0x8005101; spi_bus_device_control_addr := 0x8005201;
  spidev_device_read_addr := 0x8005301; spidev_device_write_addr := 0x8005401; spidev_device_control_addr := 0x8005501 |}.

#[local] Instance bus_chip : Chip_behind w25.
Proof.
  refine {| chip_of := fun c => c; chip_device := 0x20008200; chip_ops := 0x8006000; chip_delay := fun _ => 3%nat;
            chip_size := 2 ^ 23 |}.
  - done.
  - by intros cfg u.
  - intros m u data c E. unfold wp. cbn. by rewrite E.
Defined.

#[local] Instance code : FlashCode := {|
  flash_dev := 0x20008300; flash_mutex := 0x20008400; flash_init_addr := 0x8007001; flash_open_addr := 0x8007101;
  flash_close_addr := 0x8007201; flash_read_addr := 0x8007301; flash_write_addr := 0x8007401; flash_control_addr := 0x8007501 |}.

Definition a_bus : Z := 0x20008000.
Definition the_device : rt_spi_device := SpiDevice a_bus (SpiConfiguration 7 8 50000000) 0.
Definition the_flash : spi_flash_device := FlashDevice chip_device (Geometry 2048 4096 4096).

Definition system : beside (spi w25) :=
  then_ (_ ← on_kernel (rt_mutex_init (bus_lock a_bus) [115; 0] RT_IPC_FLAG_FIFO);
         on_kernel (rt_mutex_init flash_mutex [102; 0] RT_IPC_FLAG_FIFO))
    (Beside running (Spi {[ a_bus := SpiBus chip_ops 0 ]} {[ chip_device := the_device ]}
                         (Chip (fun x => x mod 256) false 0 31 []))).

Definition a_sector : list Z := replicate (N.to_nat 4096) 0xA5.

Lemma system_ready : exists th, flash_ready system main_t th the_device the_flash.
Proof.
  assert (exists th, caller (kernel system) main_t th) as [th C] by running_thread.
  assert (forall lock, lock <> RT_NULL -> i_mutexes (ip (kernel system)) !! lock = Some new_mutex ->
    tlist (sc (kernel system)) (LSuspend lock) = [] -> lock_free lock main_t th (kernel system)) as L by by constructor.
  exists th. constructor; [constructor| | | | | |].
  - evaluate.
  - discriminate.
  - discriminate.
  - apply L; [discriminate|evaluate|evaluate].
  - apply L; [discriminate|evaluate|evaluate].
  - discriminate.
  - exists 0. evaluate.
  - evaluate.
  - evaluate.
  - evaluate.
Qed.

Lemma flash_keeps_sectors_witness :
  pwp (opened ← w25qxx_flash_open the_flash 0 4 0;
       written ← w25qxx_flash_write the_flash 0 4 5 a_sector 1;
       data ← w25qxx_flash_read the_flash 5 1;
       mret (opened, written, data))
    (fun r s' => r = (RT_EOK, 1, (1, a_sector)) /\ c_mem (chip_of (spi_hw (own s'))) 20479 = 255) system.
Proof.
  destruct system_ready as [th R]. eapply pwp_mono.
  - apply (flash_keeps_sectors system main_t th the_device the_flash 0 0 5 1 a_sector 4 R).
    + intros cmd. cbn. lia.
    + lia.
    + lia.
    + cbn. lia.
    + unfold a_sector. rewrite length_replicate. lia.
    + by apply Forall_replicate.
  - intros r s' (-> & e & v & -> & _ & Hm). split; [done|]. unfold at_error, at_bus. cbn. cbn in Hm. rewrite Hm.
    evaluate.
Defined.

(** *** Failures *)

(** A bus that transfers nothing: writing returns the sectors that were asked for. *)
#[local] Instance dead_ops : SpiOps unit := {|
  spi_configure _ _ _ := mret RT_EOK;
  spi_xfer _ _ _ := mret (0, []);
  bus_lock b := b + 64;
  spi_bus_device_read_addr := 0x8005001; spi_bus_device_write_addr := 0x8005101; spi_bus_device_control_addr := 0x8005201;
  spidev_device_read_addr := 0x8005301; spidev_device_write_addr := 0x8005401; spidev_device_control_addr := 0x8005501 |}.

Definition dead_system : beside (spi unit) :=
  Beside (kernel system) (Spi (spi_buses (own system)) (spi_devices (own system)) tt).

Lemma dead_flash_writes :
  exists s', run (w25qxx_flash_write the_flash 0 4 5 a_sector 1) dead_system = Ok (inl 1, s').
Proof. eexists. vm_compute. reflexivity. Qed.

(** A W25Q64DW answers with 0x6017, which is not among the capacities. *)
Lemma w25q64dw_is_unknown : sectors_of 0x6017 = None /\ MTC_W25Q64_DW = MTC_W25Q64_BV_CV.
Proof. split; evaluate. Qed.

(** At an address of 256, which the assertion lets through, what is before it is erased too. *)
Lemma page_write_erases_before :
  let s := then_ (run (w25qxx_flash_open the_flash 0 4 0)) system in
  let s' := then_ (run (w25qxx_page_write the_flash 0 4 256 a_sector)) s in
  c_mem (spi_hw (own s)) 1 = 1 /\ c_mem (spi_hw (own s')) 256 = 0xA5 /\ c_mem (spi_hw (own s')) 1 = 255.
Proof. split_and!; evaluate. Qed.

End Demo.
